(* ===== verification/_CoqProject ===== *)
-Q . S2P
Prelude.v
Js.v
Hex.v
CanonicalJson.v
JsonText.v
Json.v
Interpolation.v
Vendor.v
Samples.v
ScalarField.v
ThresholdCrypto.v
ThresholdGroup.v
DkgShares.v
DkgCeremony.v
DkgSample.v
DkgAgreement.v
DkgHonest.v
Policies.v
Compact.v
CompactSafety.v
CompactConsensus.v
ThresholdNode.v
NodeSafety.v
NodeRecovery.v
CanonicalRequest.v
OperatorStore.v
StoreLeases.v
Scanner.v
ErrorText.v
Relayer.v
RelayerSafety.v
Journal.v
Service.v
ServiceSafety.v
Ecvrf.v
VrfContract.v
EcvrfMath.v
EcvrfProof.v
EcvrfSample.v
ProofProvider.v
ThresholdProof.v
ProverServer.v
ProverSafety.v
Archiver.v
ArchiverSafety.v
CompactWorker.v
CompactWorkerSafety.v
FileService.v
FileServiceSafety.v
CommandLine.v
Readiness.v
NodeStart.v
ServiceStart.v
ServiceStartSafety.v
ReadinessSafety.v
Health.v
HealthSafety.v
PollingService.v
PollingSafety.v
OperatorCommands.v
OperatorCommandsSafety.v
SoakReport.v
SoakSafety.v
Calibrate.v
CalibrateSafety.v
SmokeReport.v
SmokeSafety.v
SourceVerification.v
DeploymentCheck.v
DeploymentSafety.v
ThresholdCheck.v
ThresholdCheckSafety.v
ThresholdCommands.v
ThresholdCommandsSafety.v
Processes.v
ProcessSafety.v
Governance.v
GovernanceSafety.v
ReleaseSender.v
ReleaseSafety.v
