(* ===== verification/Prelude.v ===== *)
(** * Entropy Rail proof VRF operator: a verification development

    ** The program

    The repository is a verifiable randomness service.  Consumers request random
    words from coordinator contracts; the operator, a set of node programs under
    [operator/], watches the requests, proves the randomness of each and sends the
    proof in a transaction.  There are two kinds of proof: an elliptic-curve VRF
    under one key ([proof.mjs]), and a threshold BLS signature, whose key is shared
    by a group of operators in a key generation ceremony and whose shares are used
    by signing nodes that never meet.  The parts, and how they call each other:

    - [threshold-crypto.mjs]: points, scalars, partial signatures, aggregation;
    - [threshold-group.mjs]: canonical JSON, group manifests, their attestation,
      the aggregate of a share set; it calls the cryptography;
    - [threshold-dkg.mjs]: the rounds of the ceremony and of a resharing, whose
      participants exchange signed packets and end with a manifest;
    - [threshold-node.mjs]: a node that signs a request of the chain once, with a
      state file and a hash-chained audit log;
    - [proof.mjs]: the generator of elliptic-curve proofs, for which the contracts
      of [contracts/vendor/chainlink/] and [contracts/verifiers/] are the verifier;
    - [cli.mjs]: the service: it scans the events of the coordinator, claims the
      requests, obtains their proofs and relays the transactions; with the database
      or, for one operator, with a state file;
    - [proof-provider.mjs]: where the service gets a proof: from a key of its own,
      from a prover over HTTP, or from a threshold of signing nodes;
    - [prover-server.mjs]: the prover, which asks the chain before it proves;
    - [archiver.mjs]: a process that stores block hashes in time, on a budget;
    - [compact-protocol.mjs]: requests of which the chain keeps only a commitment,
      recovered from their events; [compact-worker.mjs], [run-compact.mjs]: the
      operator and the archiver of these;
    - [postgres-store.mjs]: the database that several services share: leases on
      scans and requests, the nonce lock and the journal of broadcasts;
    - [readiness.mjs], [soak-report.mjs], [smoke-report.mjs], [calibrate.mjs]: the check
      of a deployment before the service starts, the assessment of tests of it, and
      what its settled requests cost;
    - [source-verification.mjs], [verify-deployment.mjs],
      [verify-threshold-deployment.mjs], [precompile-probe.mjs]: whether deployed
      contracts are those of their manifest;
    - [scripts/deploy-compact-testnet.mjs]: the release of the compact suite, whose
      manifest [run-compact.mjs] reads; [scripts/prepare-register-threshold.mjs],
      [scripts/prepare-accept-ownership.mjs]: the transactions of the administration,
      which pass through the timelock [contracts/VRFAdminTimelock.sol];
    - [rpc-policy.mjs], [rpc.mjs], [secrets.mjs], [healthcheck.mjs], [errors.mjs]:
      policies on endpoints, nonces, secrets, health records and error texts.

    ** The files

    - [Prelude], [Js], [Hex]: results and effects, with their reasoning rules;
      JavaScript values, strings and conversions; hex strings.
    - [CanonicalJson], [Json]: [canonicalJson], and [JSON.parse], which reads it back;
      [JsonText]: [JSON.stringify], by whose texts documents are compared.
    - [Vendor]: the libraries the code calls, as classes of operations and of laws;
      [Samples]: a small instance of each, on which the witnesses evaluate.
    - [Interpolation], [ScalarField]: Lagrange interpolation and arithmetic modulo a
      prime.
    - [ThresholdCrypto], [ThresholdGroup]: the two modules of these names.
    - [DkgShares], [DkgCeremony] ([threshold-dkg.mjs]); [DkgSample], a ceremony with
      a complaint; [DkgAgreement], what its participants agree on; [DkgHonest], that
      honest participants succeed.
    - [ThresholdNode] ([threshold-node.mjs]); [NodeSafety], a node across crashes;
      [NodeRecovery], responses, audit log and restarts; [CanonicalRequest], the
      request that the endpoints agree on; [NodeStart], the options of a node, its start
      and the kind of its server.
    - [ThresholdCommands], [ThresholdCommandsSafety]: the command lines of
      [threshold-dkg.mjs] and [threshold-group.mjs].
    - [Policies]: the four small policy modules; [ErrorText]: [errors.mjs].
    - [OperatorStore] ([postgres-store.mjs]); [StoreLeases]: leases among instances.
    - [Scanner]: [scanServiceEvents] and [scanServiceEventsPostgres] of [cli.mjs],
      and the abstract tracker that both implement.
    - [Relayer], [RelayerSafety]: [sendWithReplacement]; [Journal]:
      [sendPostgresTransaction] and [reconcileRelayerTransactions].
    - [Service], [ServiceSafety]: one turn of [runServicePostgres]; [FileService],
      [FileServiceSafety]: one turn of [runService] with its state file.
    - [Ecvrf] ([proof.mjs]), [VrfContract] ([VRF.sol]); [EcvrfMath], their
      arithmetic; [EcvrfProof], that generated proofs are accepted; [EcvrfSample], a
      small curve.
    - [ProofProvider] ([proof-provider.mjs]); [ThresholdProof], its threshold mode;
      [ProverServer] ([prover-server.mjs]); [ProverSafety], the two together.
    - [Archiver] ([archiver.mjs]); [ArchiverSafety], its budget and its orders.
    - [Compact] ([compact-protocol.mjs]); [CompactSafety], witnesses and the life of
      a request; [CompactConsensus], what the endpoints agree on; [CompactWorker]
      ([compact-worker.mjs], the turns of [run-compact.mjs]); [CompactWorkerSafety].
    - [Processes], [ProcessSafety]: the processes of [run-compact.mjs] and
      [archiver.mjs]: their start, their loop and their health record.
    - [CommandLine]: [parseArgs] and the numbers of the options; [Readiness],
      [ReadinessSafety] ([readiness.mjs]); [ServiceStart], [ServiceStartSafety]: [run-v2]
      up to its loop, and the leases of a service that starts.
    - [PollingService], [PollingSafety]: [run] of [cli.mjs], the first version of the
      service; [Health], [HealthSafety]: the loops of both versions with their health
      records; [OperatorCommands], [OperatorCommandsSafety]: the other commands of
      [cli.mjs].
    - [SoakReport], [SoakSafety] ([soak-report.mjs]); [Calibrate], [CalibrateSafety]
      ([calibrate.mjs]); [SmokeReport], [SmokeSafety] ([smoke-report.mjs]).
    - [SourceVerification] ([source-verification.mjs]); [DeploymentCheck],
      [DeploymentSafety] ([verify-deployment.mjs]); [ThresholdCheck],
      [ThresholdCheckSafety] ([verify-threshold-deployment.mjs],
      [precompile-probe.mjs]).
    - [Governance], [GovernanceSafety]: the timelock and the plans of the
      administration; [ReleaseSender], [ReleaseSafety]: the release of the compact
      suite, which uses one sender for every step.

    ** How the code is read

    A function that may throw is a [result], with the message of the error; a
    TypeError of the language is the one value [TYPE_ERROR].  A handler that keeps
    state has type [eff S A], from the state to a result and a state, and keeps what
    it changed when it throws.  Parsed JSON is the type [value] of [Js]; structures
    whose fields the code itself fixes are records.  Integers are [Z]: the code uses
    BigInt where they may be large, and its range checks are those of the model.
    Files are the documents they hold, a database table is a map from its primary
    key, and a method that runs in a transaction is one step.  A network or clock
    that the code calls is a parameter whose answer depends on the number of the
    call, so that the theorems hold for one that answers each call differently; a
    computation over the calls alone has the number as its state and moves only
    [forward].  Calls that the code makes together with [Promise.all] follow each
    other.  A write of the archiver's file may fail before or after it is in place.

    ** What the theorems show

    - Hashed documents: equal canonical texts are equal documents; manifests and
      packets that hash alike are alike or exhibit a collision.
    - The cryptography: any threshold of verified shares aggregates to the one
      signature of the shared secret; a share is checked exactly.
    - Manifests: a normalized body satisfies the invariant of a group, a validated
      one carries a threshold of signatures, a resharing continues its group.
    - The ceremony: those who finalize the same packets publish the same polynomial,
      on which their shares lie; complaints reveal fewer shares than the threshold;
      honest deals and attestations are accepted.
    - A node: no two messages are signed for one request, whatever crashes occur; its
      start accepts what it left behind; the chain's view of a request is agreed on.
    - The service: claims are exclusive while their lease lasts; the two scans
      implement one tracker that survives reorganisations and catches up; the prices
      of replacements are a bounded ladder; all broadcasts are journaled and
      reconciled as all providers agree; a turn settles each request it claims.
    - Elliptic-curve proofs: the contract accepts what the operator generates and
      derives its output; the output does not depend on the nonce.
    - The file-backed service starts again, after any turn, with all it was tracking.
    - Proofs from elsewhere: a threshold proof is the signature of the group on the
      message of the agreed request, and is found when enough nodes are honest; a
      prover answers only for the seed that all endpoints give, and its answer is
      accepted exactly when it is for the request that was asked.
    - The archiver: over all restarts what it broadcasts costs no more than the budget;
      it archives a block only when all endpoints see its request pending.
    - The compact protocol: witnesses are normal forms; a recovered request is the end
      of one history that all endpoints serve and commit to; a prepared transaction is
      bound to such a state; the worker's scans implement the tracker of the service,
      its orders are for pending requests, and its claims end in final states.
    - A start: the options of a service that starts are in their ranges, its endpoints
      and keys are apart, and the transactions for a claimed request fit in its lease;
      a readiness report is given only for a deployment that was found as it is pinned.
    - The first version of the service reads every block once and keeps each request
      until it was fulfilled or is over.
    - A soak report that passes is about events that all endpoints serve for the whole
      range, and these meet its thresholds.
    - A health file is accepted exactly when the last turn was recent and in order.
    - The processes of the archiver and of the compact coordinator order transactions
      only after a start that found the deployment as it is pinned, and only for
      requests that all endpoints show as pending.
    - A deployment that is reported as verified has the pinned code, owners and
      settings at every endpoint; the keystore of a new key proves with this key.
    - A release broadcasts nothing that its journal on disk does not hold, through
      failed writes and restarts; the manifest that it leaves has the code that all
      endpoints gave, and is one that the processes of the compact coordinator take.
    - The timelock calls only what its owner scheduled, in its window and once; a plan
      of the administration, once scheduled, can be executed in that window.
    - Error texts show no hex string as long as a key.

    ** Bounds and fuel

    Loops that are not structural take fuel.  [invert_loop] and [inverse_loop] have
    twice the bits of the modulus, [modPow_loop] the bits of the exponent,
    [JSON.parse] the length of the text, [attempts_loop] of a send the number of
    attempts, [queryInRanges] the length of the range: theorems show that these are enough.  The loops of [proof.mjs] that
    hash until a point or a nonce is found have no bound in the code; their models
    return [None] when the fuel runs out, and more fuel gives the same point.  So
    does [randomScalar] with the supply of random bytes.

    ** What is not modelled

    The parser of options of [node:util], what is printed, reports and health files
    whose writing fails, HTTP servers and sockets, the file system below the documents,
    SQL below its statements.  How the compact worker and the archiver send is a
    parameter of their models, since the relayer has a model of its own.  The scripts
    that deploy contracts through hardhat, fund wallets or try a deployment once are
    input and output only; of the release of the compact suite the wallet of a role
    and the reading of its inputs are left out.  Of the contracts only the timelock and
    the verification that [proof.mjs] must meet are modelled, since the others are a
    program of their own. *)

From stdpp Require Export base list strings gmap numbers sorting pretty.
From Stdlib Require Export ZArith Lia.

#[global] Set Default Goal Selector "!".
#[global] Unset Program Cases.

(** ** Exceptions

    A JavaScript function that may throw returns a [result]: the value, or the
    message of the [Error] it threw. *)
Inductive result (A : Type) : Type :=
| Ok (a : A)
| Throw (msg : string).
Arguments Ok {A} a.
Arguments Throw {A} msg.

#[export] Instance result_eq_dec {A} `{EqDecision A} : EqDecision (result A).
Proof. solve_decision. Defined.
#[export] Instance result_ret : MRet result := λ A, Ok.
#[export] Instance result_bind : MBind result := λ A B f m,
  match m with Ok a => f a | Throw e => Throw e end.
#[export] Instance result_fmap : FMap result := λ A B f m,
  match m with Ok a => Ok (f a) | Throw e => Throw e end.

(** [if (!b) throw new Error(msg);] *)
Definition require (b : bool) (msg : string) : result unit :=
  if b then Ok tt else Throw msg.

(** [try { return m; } catch (error) { return h(error.message); }] *)
Definition catch {A} (m : result A) (h : string → result A) : result A :=
  match m with Ok a => Ok a | Throw e => h e end.

(** Reading an option whose absence the code turns into an exception. *)
Definition from_option_or {A} (msg : string) (o : option A) : result A :=
  match o with Some a => Ok a | None => Throw msg end.

Definition is_ok {A} (m : result A) : bool :=
  match m with Ok _ => true | Throw _ => false end.

(** A [for (const x of l)] loop over an accumulator, left by the first throw. *)
Fixpoint foldM {A B} (f : B → A → result B) (b : B) (l : list A) : result B :=
  match l with
  | [] => Ok b
  | x :: l => b' ← f b x; foldM f b' l
  end.

(** A [for (const x of l)] loop whose body only checks. *)
Fixpoint forM_ {A} (f : A → result unit) (l : list A) : result unit :=
  match l with
  | [] => Ok tt
  | x :: l => _ ← f x; forM_ f l
  end.

(** [l.map((x, position) => ...)]: a map that sees the position. *)
Fixpoint imapM_from {A B} (n : nat) (f : nat → A → result B) (l : list A)
    : result (list B) :=
  match l with
  | [] => Ok []
  | x :: l => y ← f n x; ys ← imapM_from (S n) f l; Ok (y :: ys)
  end.
Definition imapM {A B} (f : nat → A → result B) (l : list A) : result (list B) :=
  imapM_from 0 f l.

(** ** Exceptions over a mutable state

    A mutation made before a throw is kept, as in JavaScript. *)
Definition eff (S A : Type) : Type := S → result A * S.
#[export] Instance eff_ret {S} : MRet (eff S) := λ A a s, (Ok a, s).
#[export] Instance eff_bind {S} : MBind (eff S) := λ A B f m s,
  match m s with
  | (Ok a, s') => f a s'
  | (Throw e, s') => (Throw e, s')
  end.
Definition eff_get {S} : eff S S := λ s, (Ok s, s).
Definition eff_put {S} (s : S) : eff S unit := λ _, (Ok tt, s).
Definition eff_modify {S} (f : S → S) : eff S unit := λ s, (Ok tt, f s).
Definition eff_lift {S A} (m : result A) : eff S A := λ s, (m, s).
Definition eff_throw {S A} (msg : string) : eff S A := λ s, (Throw msg, s).
Definition eff_require {S} (b : bool) (msg : string) : eff S unit :=
  eff_lift (require b msg).
(** [try { m } catch (error) { h(error.message) }] over a state. *)
Definition eff_catch {S A} (m : eff S A) (h : string → eff S A) : eff S A := λ s,
  match m s with
  | (Ok a, s') => (Ok a, s')
  | (Throw e, s') => h e s'
  end.
Fixpoint eff_forM {S A} (f : A → eff S unit) (l : list A) : eff S unit :=
  match l with
  | [] => mret tt
  | x :: l => _ ← f x; eff_forM f l
  end.

(** What a computation ensures of its outcome and of the state it leaves, thrown
    or not. *)
Definition wp {S A} (m : eff S A) (Q : result A → S → Prop) (s : S) : Prop :=
  Q (m s).1 (m s).2.

Lemma wp_intro {S A} (m : eff S A) Q s r s' : wp m Q s → m s = (r, s') → Q r s'.
Proof. unfold wp. intros HQ E. by rewrite E in HQ. Qed.
Lemma wp_ret {S A} (a : A) (Q : result A → S → Prop) s : Q (Ok a) s → wp (mret a) Q s.
Proof. done. Qed.
Lemma wp_lift {S A} (m : result A) (Q : result A → S → Prop) s :
  Q m s → wp (eff_lift m) Q s.
Proof. done. Qed.
Lemma wp_bind {S A B} (m : eff S A) (f : A → eff S B) Q s :
  wp m (λ r s', match r with Ok a => wp (f a) Q s' | Throw e => Q (Throw e) s' end) s →
  wp (m ≫= f) Q s.
Proof.
  intros HQ. unfold wp, mbind, eff_bind in *.
  destruct (m s) as [[a|e] s']; exact HQ.
Qed.
Lemma wp_mono {S A} (m : eff S A) (P Q : result A → S → Prop) s :
  wp m P s → (∀ r s', P r s' → Q r s') → wp m Q s.
Proof. unfold wp. auto. Qed.
(** The steps that cannot change the state. *)
Lemma wp_lift_bind {S A B} (m : result A) (f : A → eff S B) Q s :
  (∀ a, m = Ok a → wp (f a) Q s) → (∀ e, m = Throw e → Q (Throw e) s) →
  wp (eff_lift m ≫= f) Q s.
Proof. intros Ha He. apply wp_bind. destruct m as [a|e]; [by apply Ha|by apply He]. Qed.
Lemma wp_require_bind {S B} b msg (f : unit → eff S B) Q s :
  (b = true → wp (f tt) Q s) → (b = false → Q (Throw msg) s) →
  wp (eff_require b msg ≫= f) Q s.
Proof.
  intros Ht Hf. unfold eff_require. apply wp_lift_bind; destruct b; naive_solver.
Qed.
Lemma wp_catch {S A} (m : eff S A) h Q s :
  wp m (λ r s', match r with Ok a => Q (Ok a) s' | Throw e => wp (h e) Q s' end) s →
  wp (eff_catch m h) Q s.
Proof.
  intros HQ. unfold wp, eff_catch in *. destruct (m s) as [[a|e] s']; exact HQ.
Qed.

(** ** Computations that keep a relation between states *)

Definition keeps {S A} (R : S → S → Prop) (m : eff S A) : Prop := ∀ s, R s (m s).2.

Section keeps.
Context {S : Type} (R : S → S → Prop) `{!PreOrder R}.

Lemma keeps_ret {A} (a : A) : keeps R (mret a).
Proof. intros s. reflexivity. Qed.
Lemma keeps_lift {A} (m : result A) : keeps R (eff_lift m).
Proof. intros s. reflexivity. Qed.
Lemma keeps_throw {A} e : keeps (A := A) R (eff_throw e).
Proof. intros s. reflexivity. Qed.
Lemma keeps_bind {A B} (m : eff S A) (f : A → eff S B) :
  keeps R m → (∀ a, keeps R (f a)) → keeps R (m ≫= f).
Proof.
  intros Hm Hf s. unfold mbind, eff_bind. pose proof (Hm s) as H1.
  destruct (m s) as [[a|e] s']; [|done]. etrans; [exact H1|apply Hf].
Qed.
Lemma keeps_catch {A} (m : eff S A) h :
  keeps R m → (∀ e, keeps R (h e)) → keeps R (eff_catch m h).
Proof.
  intros Hm Hh s. unfold eff_catch. pose proof (Hm s) as H1.
  destruct (m s) as [[a|e] s']; [done|]. etrans; [exact H1|apply Hh].
Qed.
Lemma keeps_forM {A} (f : A → eff S unit) l :
  (∀ a, a ∈ l → keeps R (f a)) → keeps R (eff_forM f l).
Proof.
  induction l as [|a l IH]; intros Hf; cbn [eff_forM]; [apply keeps_ret|].
  apply keeps_bind; [apply Hf; set_solver|]. intros _. apply IH. set_solver.
Qed.

Lemma keeps_mapM {A B} (f : A → eff S B) l :
  (∀ a, keeps R (f a)) → keeps R (mapM f l).
Proof.
  intros Hf. induction l as [|a l IH]; cbn [mapM]; [apply keeps_ret|].
  apply keeps_bind; [apply Hf|]. intros b. apply keeps_bind; [exact IH|]. intros bs. apply keeps_ret.
Qed.

(** A step that keeps [R], from a state reached with [R]. *)
Lemma wp_step_bind {A B} (m : eff S A) (f : A → eff S B) (Q : result B → S → Prop) s0 s :
  R s (m s).2 → R s0 s →
  (∀ a s', m s = (Ok a, s') → R s0 s' → wp (f a) Q s') → (∀ e s', R s0 s' → Q (Throw e) s') →
  wp (m ≫= f) Q s.
Proof.
  intros H1 H0 Hf He. apply wp_bind. unfold wp.
  destruct (m s) as [[a|e] s'] eqn:E; [apply Hf|apply He]; try done; by etrans.
Qed.
Lemma wp_keeps_bind {A B} (m : eff S A) (f : A → eff S B) (Q : result B → S → Prop) s0 s :
  keeps R m → R s0 s →
  (∀ a s', R s0 s' → wp (f a) Q s') → (∀ e s', R s0 s' → Q (Throw e) s') →
  wp (m ≫= f) Q s.
Proof.
  intros Hm H0 Hf He. apply (wp_step_bind _ _ _ s0); auto.
Qed.
End keeps.

(** An equation between closed terms, by evaluation. *)
Ltac vm_refl := lazymatch goal with |- ?a = ?b => exact (eq_refl b <: a = b) end.

(** ** Lists as JavaScript uses them *)

(** [new Set(l)]: the distinct elements in order of first occurrence. *)
Definition js_set_add {A} `{EqDecision A} (s : list A) (x : A) : list A :=
  if decide (x ∈ s) then s else s ++ [x].
Definition js_set {A} `{EqDecision A} (l : list A) : list A :=
  foldl js_set_add [] l.
(** [new Set(l).size === l.length] *)
Definition all_distinct {A} `{EqDecision A} (l : list A) : bool :=
  bool_decide (length (js_set l) = length l).
(** [l.sort()] on strings: by code units. *)
Definition js_sort (l : list string) : list string := merge_sort String.le l.
(** [l.join(sep)] *)
Fixpoint join (sep : string) (l : list string) : string :=
  match l with
  | [] => ""
  | [s] => s
  | s :: l => s +:+ sep +:+ join sep l
  end.
(** [l.find(p)] *)
Definition find_first {A} (p : A → bool) (l : list A) : option A :=
  snd <$> list_find (λ x, p x = true) l.

(** [Number.MAX_SAFE_INTEGER] *)
Definition MAX_SAFE_INTEGER : Z := 9007199254740991.
(** [Number.isSafeInteger] of a double that is the integer [z]. *)
Definition safe_integer (z : Z) : bool :=
  (Z.abs z <=? MAX_SAFE_INTEGER)%Z.

(** ** Lemmas on the exception monad *)

Lemma bind_Ok {A B} (m : result A) (f : A → result B) b :
  m ≫= f = Ok b ↔ ∃ a, m = Ok a ∧ f a = Ok b.
Proof. destruct m; cbn; naive_solver. Qed.

Lemma require_Ok b msg u : require b msg = Ok u ↔ b = true.
Proof. destruct b, u; cbn; naive_solver. Qed.

Lemma catch_Ok {A} (m : result A) h a :
  catch m h = Ok a ↔ m = Ok a ∨ ∃ e, m = Throw e ∧ h e = Ok a.
Proof. destruct m; cbn; naive_solver. Qed.

Lemma from_option_or_Ok {A} msg (o : option A) a :
  from_option_or msg o = Ok a ↔ o = Some a.
Proof. destruct o; cbn; naive_solver. Qed.

Lemma is_ok_true {A} (m : result A) : is_ok m = true ↔ ∃ a, m = Ok a.
Proof. destruct m; cbn; naive_solver. Qed.

Lemma if_throw_Ok {A} (b : bool) (m : result A) msg a :
  (if b then Throw msg else m) = Ok a ↔ b = false ∧ m = Ok a.
Proof. destruct b; naive_solver. Qed.

(** Splits a hypothesis that a monadic computation returned [Ok] into the
    successes of its steps. *)
Ltac inv_ok_step :=
  match goal with
  | H : (_ ≫= _) = Ok _ |- _ =>
      apply bind_Ok in H; let x := fresh "x" in let Hx := fresh "Hx" in
      destruct H as (x & Hx & H)
  | H : mret _ = Ok _ |- _ => injection H as H
  | H : Ok _ = Ok _ |- _ => injection H as H
  | H : require _ _ = Ok ?u |- _ => apply require_Ok in H
  | H : from_option_or _ _ = Ok _ |- _ => apply from_option_or_Ok in H
  | H : Throw _ = Ok _ |- _ => discriminate H
  | H : (if _ then Throw _ else _) = Ok _ |- _ =>
      apply if_throw_Ok in H; let Hb := fresh "Hb" in destruct H as [Hb H]
  end.
Ltac inv_ok := repeat (inv_ok_step; simplify_eq/=).

Lemma mapM_Ok {A B} (f : A → result B) l k :
  mapM f l = Ok k ↔ Forall2 (λ x y, f x = Ok y) l k.
Proof.
  split.
  - revert k. induction l as [|x l IH]; intros k; cbn; intros H; inv_ok.
    + constructor.
    + constructor; [done|]. by apply IH.
  - induction 1 as [|x y l k Hxy _ IH]; cbn; [done|]. by rewrite Hxy; cbn; rewrite IH.
Qed.

Lemma length_mapM_Ok {A B} (f : A → result B) l k :
  mapM f l = Ok k → length k = length l.
Proof. rewrite mapM_Ok. intros H. symmetry. by eapply Forall2_length. Qed.

Lemma forM_Ok {A} (f : A → result unit) l u :
  forM_ f l = Ok u ↔ Forall (λ x, f x = Ok tt) l.
Proof.
  destruct u. split.
  - induction l as [|x l IH]; cbn; intros H; inv_ok; [constructor|].
    destruct x0. constructor; auto.
  - induction 1 as [|x l Hx _ IH]; cbn; [done|]. by rewrite Hx.
Qed.

Lemma foldM_app {A B} (f : B → A → result B) b l1 l2 :
  foldM f b (l1 ++ l2) = (b' ← foldM f b l1; foldM f b' l2).
Proof.
  revert b. induction l1 as [|x l1 IH]; intros b; cbn; [done|].
  destruct (f b x); cbn; [apply IH|done].
Qed.

(** An invariant of the loop body is an invariant of the loop; [P] may mention
    the elements already visited. *)
Lemma foldM_ind {A B} (f : B → A → result B) (P : list A → B → Prop) b l b' :
  P [] b →
  (∀ done x b1 b2, P done b1 → f b1 x = Ok b2 → P (done ++ [x]) b2) →
  foldM f b l = Ok b' → P l b'.
Proof.
  intros H0 Hstep.
  enough (∀ done b1, P done b1 → foldM f b1 l = Ok b' → P (done ++ l) b') as Hgo.
  { intros Hf. by apply (Hgo [] b). }
  clear H0. induction l as [|x l IH]; intros done b1 HP Hf; cbn in Hf; inv_ok.
  - by rewrite app_nil_r.
  - rewrite cons_middle, app_assoc. eapply IH; [|done]. eauto.
Qed.

Lemma imapM_from_Ok {A B} n (f : nat → A → result B) l k :
  imapM_from n f l = Ok k →
  length k = length l ∧
  ∀ i x, l !! i = Some x → ∃ y, k !! i = Some y ∧ f (n + i) x = Ok y.
Proof.
  revert n k. induction l as [|x l IH]; intros n k H; cbn in H; inv_ok; [done|].
  destruct (IH _ _ Hx0) as [Hlen Hi]. cbn. split; [lia|].
  intros [|i] y ?; simplify_eq/=.
  - rewrite Nat.add_0_r. eauto.
  - destruct (Hi i y) as (z & ? & ?); [done|]. exists z.
    split; [done|]. by replace (n + S i) with (S n + i) by lia.
Qed.

Lemma imapM_Ok {A B} (f : nat → A → result B) l k :
  imapM f l = Ok k →
  length k = length l ∧
  ∀ i x, l !! i = Some x → ∃ y, k !! i = Some y ∧ f i x = Ok y.
Proof. apply imapM_from_Ok. Qed.

Lemma imapM_Ok_inv {A B} (f : nat → A → result B) l k i y :
  imapM f l = Ok k → k !! i = Some y → ∃ x, l !! i = Some x ∧ f i x = Ok y.
Proof.
  intros [Hlen Hi]%imapM_Ok Hy.
  assert (is_Some (l !! i)) as [x Hx].
  { apply lookup_lt_is_Some. rewrite <-Hlen. by eapply lookup_lt_Some. }
  exists x. split; [done|]. destruct (Hi i x Hx) as (z & ? & ?). by simplify_eq.
Qed.

(** A map whose results are fixed points, applied to its results. *)
Lemma imapM_from_fmap_id {A B} (f : nat → A → result B) (g : B → A) n k :
  (∀ i y, k !! i = Some y → f (n + i) (g y) = Ok y) → imapM_from n f (g <$> k) = Ok k.
Proof.
  revert n. induction k as [|y k IH]; intros n Hf; cbn; [done|].
  pose proof (Hf 0 y eq_refl) as H0. rewrite Nat.add_0_r in H0. rewrite H0. cbn.
  rewrite IH; [done|]. intros i z Hz. specialize (Hf (S i) z Hz).
  by replace (S n + i) with (n + S i) by lia.
Qed.
Lemma imapM_fmap_id {A B} (f : nat → A → result B) (g : B → A) k :
  (∀ i y, k !! i = Some y → f i (g y) = Ok y) → imapM f (g <$> k) = Ok k.
Proof. intros Hf. by apply imapM_from_fmap_id. Qed.

(** A list whose elements are all images is the image of a list. *)
Lemma Forall_image {A B} (f : A → B) l :
  Forall (λ y, ∃ x, y = f x) l → ∃ k, l = f <$> k.
Proof.
  induction 1 as [|y l [x ->] _ [k ->]]; [by exists []|]. by exists (x :: k).
Qed.

Lemma imapM_Forall {A B} (f : nat → A → result B) (P : B → Prop) l k :
  (∀ i x y, f i x = Ok y → P y) → imapM f l = Ok k → Forall P k.
Proof.
  intros HP Hk. apply Forall_lookup. intros i y Hy.
  destruct (imapM_Ok_inv _ _ _ _ _ Hk Hy) as (x & _ & Hf). eauto.
Qed.

(** ** Lemmas on the state and exception monad *)

Lemma eff_bind_Ok {S A B} (m : eff S A) (f : A → eff S B) s b s' :
  (m ≫= f) s = (Ok b, s') ↔ ∃ a s1, m s = (Ok a, s1) ∧ f a s1 = (Ok b, s').
Proof.
  unfold mbind, eff_bind. destruct (m s) as [[a|e] s1]; split.
  - eauto.
  - by intros (? & ? & [= <- <-] & ?).
  - done.
  - by intros (? & ? & ? & _).
Qed.

Lemma eff_lift_Ok {S A} (m : result A) (s s' : S) a :
  eff_lift m s = (Ok a, s') ↔ m = Ok a ∧ s' = s.
Proof. unfold eff_lift. naive_solver. Qed.

Lemma eff_require_Ok {S} b msg (s s' : S) u :
  eff_require b msg s = (Ok u, s') ↔ b = true ∧ s' = s.
Proof. unfold eff_require. rewrite eff_lift_Ok, require_Ok. done. Qed.

Lemma eff_lift_bind_Ok {S A B} (m : result A) (f : A → eff S B) s b s' :
  (eff_lift m ≫= f) s = (Ok b, s') ↔ ∃ a, m = Ok a ∧ f a s = (Ok b, s').
Proof. rewrite eff_bind_Ok. unfold eff_lift. naive_solver. Qed.

Lemma eff_require_bind_Ok {S B} c msg (f : unit → eff S B) s b s' :
  (eff_require c msg ≫= f) s = (Ok b, s') ↔ c = true ∧ f tt s = (Ok b, s').
Proof.
  unfold eff_require. rewrite eff_lift_bind_Ok. split.
  - intros ([] & ->%require_Ok & ?). done.
  - intros [-> ?]. by exists tt.
Qed.

(** A computation at each element, whose outcome satisfies a predicate. *)
Lemma mapM_eff_Ok {S A B} (f : A → eff S B) (P : A → B → Prop) l s ys s' :
  (∀ x s y s', x ∈ l → f x s = (Ok y, s') → P x y) → mapM f l s = (Ok ys, s') → Forall2 P l ys.
Proof.
  revert s ys. induction l as [|x l IH]; intros s ys HP; cbn; [intros [= <- _]; constructor|].
  intros (y & s1 & Hy & Hr)%eff_bind_Ok. apply eff_bind_Ok in Hr as (rest & s2 & Hrest & [= <- <-]).
  constructor; [eapply HP, Hy; by left|]. eapply IH; [|exact Hrest]. intros ??????. eapply HP; [by right|done].
Qed.
Lemma eff_catch_Ok {S A} (m : eff S A) (h : string → eff S A) s a s' :
  eff_catch m h s = (Ok a, s') ↔
  m s = (Ok a, s') ∨ ∃ e s1, m s = (Throw e, s1) ∧ h e s1 = (Ok a, s').
Proof. unfold eff_catch. destruct (m s) as [[b|e] s1]; naive_solver. Qed.

(** ** Computations over the number of calls made so far *)

(** A computation over the number of calls only moves forward. *)
Definition forward {A} (m : eff nat A) : Prop := ∀ n r n', m n = (r, n') → (n <= n')%nat.

Lemma forward_ret {A} (a : A) : forward (mret a).
Proof. intros n r n' [= _ <-]. lia. Qed.
Lemma forward_lift {A} (m : result A) : forward (eff_lift m).
Proof. intros n r n' [= _ <-]. lia. Qed.
Lemma forward_throw {A} e : forward (eff_throw (A := A) e).
Proof. intros n r n' [= _ <-]. lia. Qed.
Lemma forward_require b msg : forward (eff_require b msg).
Proof. apply forward_lift. Qed.
Lemma forward_bind {A B} (m : eff nat A) (f : A → eff nat B) :
  forward m → (∀ a, forward (f a)) → forward (m ≫= f).
Proof.
  intros Hm Hf n r n'. unfold mbind, eff_bind. destruct (m n) as [[a|e] n1] eqn:E; apply Hm in E.
  - intros Ha%Hf. lia.
  - intros [= _ <-]. done.
Qed.
Lemma forward_mapM {A B} (f : A → eff nat B) l : (∀ x, forward (f x)) → forward (mapM f l).
Proof.
  intros Hf. induction l as [|x l IH]; cbn; [apply forward_ret|].
  apply forward_bind; [apply Hf|]. intros y. apply forward_bind; [exact IH|]. intros ys. apply forward_ret.
Qed.

(** Every step of a loop that ends well ended well. *)
Lemma eff_forM_Ok {S A} (f : A → eff S unit) l s s' :
  eff_forM f l s = (Ok tt, s') → ∀ x, x ∈ l → ∃ s1 s2, f x s1 = (Ok tt, s2).
Proof.
  revert s. induction l as [|y l IH]; intros s; cbn [eff_forM]; [by intros _ x ?%elem_of_nil|].
  intros ([] & s1 & Hy & Hl)%eff_bind_Ok x [->|Hx]%elem_of_cons; [by eexists _, _|by eapply IH].
Qed.

(** The answers to a list of calls, each somewhere between the two numbers. *)
Lemma eff_mapM_Ok {A B} (f : A → eff nat B) l n ys n' :
  (∀ x, forward (f x)) → mapM f l n = (Ok ys, n') →
  (n <= n')%nat ∧ Forall2 (λ x y, ∃ i j, (n <= i)%nat ∧ (j <= n')%nat ∧ f x i = (Ok y, j)) l ys.
Proof.
  intros Hf. revert n ys. induction l as [|x l IH]; intros n ys; cbn.
  { intros [= <- <-]. split; [lia|constructor]. }
  intros (y & n1 & Hy & Hr)%eff_bind_Ok. apply eff_bind_Ok in Hr as (ys' & n2 & Hys & [= <- <-]).
  pose proof (Hf _ _ _ _ Hy). apply IH in Hys as [Hle Hall]. split; [lia|]. constructor; [exists n, n1; auto|].
  eapply Forall2_impl; [exact Hall|]. intros x' y' (i & j & ? & ? & ?). exists i, j. split_and!; [lia..|done].
Qed.

(** ** Lemmas on sets, sorting and finding *)

Section js_set.
Context {A : Type} `{EqDecision A}.
Implicit Types l s : list A.

Lemma js_set_fold_NoDup s l : NoDup s → NoDup (foldl js_set_add s l).
Proof.
  revert s. induction l as [|x l IH]; intros s Hs; cbn; [done|].
  apply IH. unfold js_set_add. case_decide; [done|].
  apply NoDup_app. split; [done|]. split; [set_solver|apply NoDup_singleton].
Qed.

Lemma elem_of_js_set_fold s l x : x ∈ foldl js_set_add s l ↔ x ∈ s ∨ x ∈ l.
Proof.
  revert s. induction l as [|y l IH]; intros s; cbn; [set_solver|].
  rewrite IH. unfold js_set_add. case_decide; set_solver.
Qed.

Lemma length_js_set_fold s l : length (foldl js_set_add s l) ≤ length s + length l.
Proof.
  revert s. induction l as [|y l IH]; intros s; cbn; [lia|].
  etrans; [apply IH|]. unfold js_set_add. case_decide; [lia|].
  rewrite length_app; cbn; lia.
Qed.

Lemma js_set_fold_length_eq s l :
  NoDup s → length (foldl js_set_add s l) = length s + length l ↔ NoDup (s ++ l).
Proof.
  revert s. induction l as [|y l IH]; intros s Hs; cbn.
  { rewrite app_nil_r. naive_solver lia. }
  unfold js_set_add at 2. case_decide as Hy.
  - split.
    + pose proof (length_js_set_fold s l). lia.
    + intros Hnd. apply NoDup_app in Hnd as (_ & Hd & _). set_solver.
  - specialize (IH (s ++ [y])). rewrite length_app in IH; cbn in IH.
    rewrite <-app_assoc in IH; cbn in IH.
    rewrite <-IH.
    + lia.
    + apply NoDup_app. split; [done|]. split; [set_solver|apply NoDup_singleton].
Qed.

Lemma NoDup_js_set l : NoDup (js_set l).
Proof. apply js_set_fold_NoDup. constructor. Qed.

Lemma elem_of_js_set l x : x ∈ js_set l ↔ x ∈ l.
Proof. unfold js_set. rewrite elem_of_js_set_fold. set_solver. Qed.

(** [new Set(l).size === l.length] says that no element repeats. *)
Lemma all_distinct_spec l : all_distinct l = true ↔ NoDup l.
Proof.
  unfold all_distinct. rewrite bool_decide_eq_true.
  apply (js_set_fold_length_eq [] l). constructor.
Qed.

Lemma js_set_id l : NoDup l → js_set l = l.
Proof.
  enough (∀ s, NoDup (s ++ l) → foldl js_set_add s l = s ++ l) as Hgo.
  { intros Hl. by apply (Hgo []). }
  induction l as [|x l IH]; intros s Hnd; cbn; [by rewrite app_nil_r|].
  unfold js_set_add at 2. rewrite decide_False.
  - rewrite IH; [by rewrite <-app_assoc|]. by rewrite <-app_assoc.
  - apply NoDup_app in Hnd as (_ & Hd & _). set_solver.
Qed.
End js_set.

Lemma js_sort_Permutation l : js_sort l ≡ₚ l.
Proof. apply merge_sort_Permutation. Qed.

Lemma js_sort_Sorted l : Sorted String.le (js_sort l).
Proof. apply Sorted_merge_sort. apply _. Qed.

Lemma js_sort_unique l k : l ≡ₚ k → js_sort l = js_sort k.
Proof.
  intros Hp. apply (Sorted_unique String.le); [apply js_sort_Sorted..|].
  by rewrite !js_sort_Permutation.
Qed.

Lemma js_sort_eq l k : js_sort l = js_sort k ↔ l ≡ₚ k.
Proof.
  split; [|apply js_sort_unique]. intros Heq.
  by rewrite <-(js_sort_Permutation l), Heq, js_sort_Permutation.
Qed.

Lemma find_first_Some {A} (p : A → bool) l x :
  find_first p l = Some x → x ∈ l ∧ p x = true.
Proof.
  unfold find_first. intros ([i y] & Hf & ->)%fmap_Some.
  apply list_find_Some in Hf as (Hl & Hp & _). split; [|done].
  by eapply list_elem_of_lookup_2.
Qed.

Lemma find_first_None {A} (p : A → bool) l :
  find_first p l = None → ∀ x, x ∈ l → p x = false.
Proof.
  unfold find_first. intros Hf%fmap_None x Hx.
  apply list_find_None in Hf. rewrite Forall_forall in Hf.
  apply not_true_is_false. auto.
Qed.

Lemma find_first_cons {A} (p : A → bool) x l :
  find_first p (x :: l) = if p x then Some x else find_first p l.
Proof.
  unfold find_first. cbn. destruct (decide (p x = true)) as [->|Hx%not_true_is_false]; [done|].
  rewrite Hx. by destruct (list_find _ l) as [[]|].
Qed.

Lemma find_first_ext_in {A} (p q : A → bool) l :
  (∀ x, x ∈ l → p x = q x) → find_first p l = find_first q l.
Proof.
  induction l as [|x l IH]; intros Hpq; [done|]. rewrite !find_first_cons, Hpq by set_solver.
  rewrite IH; [done|]. intros y Hy. apply Hpq. set_solver.
Qed.

(** With unique keys, [find] by key is the lookup. *)
Lemma find_first_key {A K} `{EqDecision K} (key : A → K) l x :
  NoDup (key <$> l) → x ∈ l →
  find_first (λ y, bool_decide (key y = key x)) l = Some x.
Proof.
  intros Hnd Hx.
  destruct (find_first _ l) as [y|] eqn:E.
  - apply find_first_Some in E as [Hy Hk%bool_decide_eq_true]. f_equal.
    apply list_elem_of_lookup in Hx as [i Hi], Hy as [j Hj].
    assert (i = j) as ->; [|congruence].
    eapply NoDup_lookup; [done| |]; rewrite list_lookup_fmap.
    + by rewrite Hi; cbn.
    + by rewrite Hj; cbn; rewrite Hk.
  - eapply find_first_None in E; [|done]. by rewrite bool_decide_true in E.
Qed.

(** ** Automation shared by the development *)

Create HintDb vrf discriminated.
Create Rewrite HintDb vrf.
#[export] Hint Resolve NoDup_js_set js_sort_Permutation js_sort_Sorted : vrf.
#[export] Hint Resolve -> all_distinct_spec : vrf.
#[export] Hint Resolve forward_ret forward_lift forward_throw forward_require : vrf.

(** The steps of a computation that only moves forward. *)
Ltac forward :=
  repeat first [solve [auto with vrf]|apply forward_bind; [|intros ?]|apply forward_mapM; intros ?|case_match].

(** Turns boolean tests of the code in the context into propositions. *)
Ltac reflect_bool_hyps :=
  repeat match goal with
  | H : negb _ = true |- _ => apply negb_true_iff in H
  | H : negb _ = false |- _ => apply negb_false_iff in H
  | H : _ && _ = true |- _ => apply andb_true_iff in H as [? ?]
  | H : _ || _ = false |- _ => apply orb_false_iff in H as [? ?]
  | H : bool_decide _ = true |- _ => apply bool_decide_eq_true in H
  | H : bool_decide _ = false |- _ => apply bool_decide_eq_false in H
  | H : (_ =? _)%Z = true |- _ => apply Z.eqb_eq in H
  | H : (_ =? _)%Z = false |- _ => apply Z.eqb_neq in H
  | H : (_ <? _)%Z = true |- _ => apply Z.ltb_lt in H
  | H : (_ <? _)%Z = false |- _ => apply Z.ltb_ge in H
  | H : (_ <=? _)%Z = true |- _ => apply Z.leb_le in H
  | H : (_ <=? _)%Z = false |- _ => apply Z.leb_gt in H
  | H : (_ <? _)%nat = true |- _ => apply Nat.ltb_lt in H
  | H : (_ <? _)%nat = false |- _ => apply Nat.ltb_ge in H
  | H : (_ <=? _)%nat = true |- _ => apply Nat.leb_le in H
  | H : (_ <=? _)%nat = false |- _ => apply Nat.leb_gt in H
  | H : all_distinct _ = true |- _ => apply all_distinct_spec in H
  end.
