(* ===== verification/Js.v ===== *)
(** * The JavaScript the operator is written in

    Values as the code receives them from [JSON.parse], from ethers and from its
    own arithmetic; property access, truthiness, [===], [typeof], [String(v)],
    [BigInt(v)], [Number.isSafeInteger]; strings, their case, trimming and
    numerals.  A string is a sequence of code units below 256 ([ascii]); [VNum]
    is a double that is an integer below 10^21 in magnitude (printed without an
    exponent), [VFrac] any other double, by its printed form.  The fields of a [VObj] are listed in the order of [Object.keys].
    The [TypeError]s of the engine all carry the message [TYPE_ERROR]. *)

From S2P Require Import Prelude.
From Stdlib Require Export Ascii.

Open Scope Z_scope.

(** ** Characters and strings *)

Definition chars (s : string) : list ascii := String.list_ascii_of_string s.
Definition of_chars (l : list ascii) : string := String.string_of_list_ascii l.
Definition code (c : ascii) : Z := Z.of_N (N_of_ascii c).
Definition char_of (z : Z) : ascii := ascii_of_N (Z.to_N z).

Definition in_range (c : ascii) (lo hi : Z) : bool :=
  (lo <=? code c) && (code c <=? hi).
Definition is_digit (c : ascii) : bool := in_range c 48 57.
Definition is_upper (c : ascii) : bool := in_range c 65 90.
Definition is_lower (c : ascii) : bool := in_range c 97 122.
Definition is_hex_digit (c : ascii) : bool :=
  is_digit c || in_range c 97 102 || in_range c 65 70.
Definition is_lower_hex_digit (c : ascii) : bool := is_digit c || in_range c 97 102.

(** [toLowerCase] on code units below 256. *)
Definition lower_char (c : ascii) : ascii :=
  if is_upper c || (in_range c 192 222 && negb (code c =? 215))
  then char_of (code c + 32) else c.
Definition lower (s : string) : string := of_chars (lower_char <$> chars s).

(** White space and line terminators of [String.prototype.trim]. *)
Definition is_space (c : ascii) : bool :=
  in_range c 9 13 || (code c =? 32) || (code c =? 160).
Fixpoint drop_spaces (l : list ascii) : list ascii :=
  match l with
  | c :: l' => if is_space c then drop_spaces l' else l
  | [] => []
  end.
Definition trim (s : string) : string :=
  of_chars (reverse (drop_spaces (reverse (drop_spaces (chars s))))).

Definition starts_with (prefix s : string) : bool := String.prefix prefix s.
Definition str_length (s : string) : Z := Z.of_nat (String.length s).

(** ** Numerals *)

Definition digit_char (d : Z) : ascii :=
  if d <? 10 then char_of (48 + d) else char_of (87 + d).
Definition digit_value (c : ascii) : option Z :=
  if is_digit c then Some (code c - 48)
  else if in_range c 97 102 then Some (code c - 87)
  else if in_range c 65 70 then Some (code c - 55)
  else None.

(** [n.toString(base)] for [n >= 0]: the digits pushed in front of [acc]; fuel
    [1 + log2 n] is enough, since each step divides by at least two. *)
Fixpoint digits_go (fuel : nat) (base n : Z) (acc : list ascii) : list ascii :=
  match fuel with
  | O => acc
  | S fuel =>
      let acc := digit_char (n mod base) :: acc in
      if n <? base then acc else digits_go fuel base (n / base) acc
  end.
Definition print_base (base n : Z) : string :=
  of_chars (digits_go (S (Z.to_nat (Z.log2 n))) base n []).
(** [String(z)] of an integer *)
Definition print_int (z : Z) : string :=
  if z <? 0 then "-" +:+ print_base 10 (- z) else print_base 10 z.

Definition parse_step (base : Z) (acc : option Z) (c : ascii) : option Z :=
  a ← acc; d ← digit_value c; if d <? base then Some (a * base + d) else None.
Definition parse_digits (base : Z) (l : list ascii) : option Z :=
  match l with [] => None | _ => foldl (parse_step base) (Some 0) l end.

(** [s.padStart(width, "0")] *)
Definition pad_start0 (width : nat) (s : string) : string :=
  of_chars (replicate (width - String.length s) "0"%char ++ chars s).

(** A byte as two lower-case hex digits. *)
Definition hex_of_byte (c : ascii) : list ascii :=
  [digit_char (code c / 16); digit_char (code c mod 16)].

(** The mathematical value of [BigInt(s)], [None] for a [SyntaxError]. *)
Definition string_to_bigint (s : string) : option Z :=
  match chars (trim s) with
  | [] => Some 0
  | "0"%char :: c :: l =>
      if (Ascii.eqb c "x" || Ascii.eqb c "X")%char then parse_digits 16 l
      else if (Ascii.eqb c "o" || Ascii.eqb c "O")%char then parse_digits 8 l
      else if (Ascii.eqb c "b" || Ascii.eqb c "B")%char then parse_digits 2 l
      else parse_digits 10 ("0"%char :: c :: l)
  | "-"%char :: l => Z.opp <$> parse_digits 10 l
  | "+"%char :: l => parse_digits 10 l
  | l => parse_digits 10 l
  end.

(** [/^[head][tail]{lo,hi}$/.test(s)] *)
Definition head_tail (head tail : ascii → bool) (lo hi : nat) (s : string) : bool :=
  match chars s with
  | [] => false
  | c :: l => head c && forallb tail l && (lo <=? length l)%nat && (length l <=? hi)%nat
  end.
(** [s.replace] of a final slash by the empty string. *)
Definition strip_slash (s : string) : string :=
  match reverse (chars s) with
  | "/"%char :: l => of_chars (reverse l)
  | _ => s
  end.
(** [/^0x0+$/i.test(s)] *)
Definition zero_hex (s : string) : bool :=
  match chars s with
  | "0"%char :: x :: c :: l =>
      (Ascii.eqb x "x" || Ascii.eqb x "X")%char
      && forallb (λ c, Ascii.eqb c "0") (c :: l)
  | _ => false
  end.
(** A Map built from [entries]: the last entry of a key is the one it keeps; a
    key that is not a string finds nothing. *)
Definition map_get_str {A} (entries : list (string * A)) (k : string) : option A :=
  snd <$> find_first (λ e, bool_decide (e.1 = k)) (reverse entries).

(** [/^\d+$/.test(s)] *)
Definition all_digits (s : string) : bool :=
  match chars s with [] => false | l => forallb is_digit l end.
(** A decimal numeral without leading zeros: the test of [normalizeCompactWitness]. *)
Definition canonical_decimal (s : string) : bool :=
  match chars s with
  | [] => false
  | c :: l => forallb is_digit (c :: l) && (negb (Ascii.eqb c "0") || bool_decide (l = []))
  end.
(** [/^0x[0-9a-f]{n}$/i.test(s)] *)
Definition hex_string (n : nat) (s : string) : bool :=
  match chars s with
  | "0"%char :: x :: l =>
      (Ascii.eqb x "x" || Ascii.eqb x "X")%char
      && forallb is_hex_digit l && (length l =? n)%nat
  | _ => false
  end.

(** ** Values *)

Inductive value : Type :=
| VUndef
| VNull
| VBool (b : bool)
| VNum (z : Z)
| VFrac (repr : string)
| VBig (z : Z)
| VStr (s : string)
| VArr (l : list value)
| VObj (fields : list (string * value)).

(** Induction over values, through arrays and objects. *)
Section value_ind.
Context (P : value → Prop).
Context (Hundef : P VUndef) (Hnull : P VNull) (Hbool : ∀ b, P (VBool b)).
Context (Hnum : ∀ z, P (VNum z)) (Hfrac : ∀ r, P (VFrac r)) (Hbig : ∀ z, P (VBig z)).
Context (Hstr : ∀ s, P (VStr s)).
Context (Harr : ∀ l, Forall P l → P (VArr l)).
Context (Hobj : ∀ fs, Forall (λ kv, P kv.2) fs → P (VObj fs)).

Fixpoint value_ind' (v : value) : P v :=
  match v with
  | VUndef => Hundef
  | VNull => Hnull
  | VBool b => Hbool b
  | VNum z => Hnum z
  | VFrac r => Hfrac r
  | VBig z => Hbig z
  | VStr s => Hstr s
  | VArr l => Harr l
      ((fix go l : Forall P l :=
          match l with
          | [] => Forall_nil_2 P
          | x :: l => Forall_cons_2 P x l (value_ind' x) (go l)
          end) l)
  | VObj fs => Hobj fs
      ((fix go fs : Forall (λ kv, P kv.2) fs :=
          match fs with
          | [] => Forall_nil_2 _
          | (k, x) :: fs => Forall_cons_2 (λ kv, P kv.2) (k, x) fs (value_ind' x) (go fs)
          end) fs)
  end.
End value_ind.

(** Structural equality of values. *)
Fixpoint value_eqb (x y : value) {struct x} : bool :=
  let list_eqb := fix list_eqb (l k : list value) {struct l} : bool :=
    match l, k with
    | [], [] => true
    | a :: l, b :: k => value_eqb a b && list_eqb l k
    | _, _ => false
    end in
  let fields_eqb := fix fields_eqb (l k : list (string * value)) {struct l} : bool :=
    match l, k with
    | [], [] => true
    | (s, a) :: l, (t, b) :: k =>
        bool_decide (s = t) && value_eqb a b && fields_eqb l k
    | _, _ => false
    end in
  match x, y with
  | VUndef, VUndef | VNull, VNull => true
  | VBool a, VBool b => Bool.eqb a b
  | VNum a, VNum b | VBig a, VBig b => a =? b
  | VFrac a, VFrac b | VStr a, VStr b => bool_decide (a = b)
  | VArr a, VArr b => list_eqb a b
  | VObj a, VObj b => fields_eqb a b
  | _, _ => false
  end.

Lemma value_eqb_eq x y : value_eqb x y = true ↔ x = y.
Proof.
  revert y. induction x as [| |b|z|r|z|s|l IH|fs IH] using value_ind';
    intros [| |b'|z'|r'|z'|s'|l'|fs']; cbn; try (split; done).
  - rewrite Bool.eqb_true_iff. naive_solver.
  - rewrite Z.eqb_eq. naive_solver.
  - rewrite bool_decide_eq_true. naive_solver.
  - rewrite Z.eqb_eq. naive_solver.
  - rewrite bool_decide_eq_true. naive_solver.
  - transitivity (l = l'); [|naive_solver]. revert l'.
    induction IH as [|x l Hx _ IHl]; intros [|y l']; cbn; try (split; done).
    rewrite andb_true_iff, Hx, IHl. naive_solver.
  - transitivity (fs = fs'); [|naive_solver]. revert fs'.
    induction IH as [|[k x] fs Hx _ IHl]; intros [|[k' y] fs']; cbn in *; try (split; done).
    rewrite !andb_true_iff, bool_decide_eq_true, Hx, IHl. naive_solver.
Qed.

#[export] Instance value_eq_dec : EqDecision value := λ x y,
  match decide (value_eqb x y = true) with
  | left H => left (proj1 (value_eqb_eq x y) H)
  | right H => right (λ E, H (proj2 (value_eqb_eq x y) E))
  end.

Definition TYPE_ERROR : string := "TypeError".

(** The fields of an object by key. *)
Fixpoint assoc {A} (k : string) (fs : list (string * A)) : option A :=
  match fs with
  | [] => None
  | (k', v) :: fs => if decide (k = k') then Some v else assoc k fs
  end.
Definition keys {A} (fs : list (string * A)) : list string := fs.*1.

(** [obj[k] = v]: in place when present, at the end otherwise. *)
Fixpoint assoc_set {A} (k : string) (v : A) (fs : list (string * A)) : list (string * A) :=
  match fs with
  | [] => [(k, v)]
  | (k', w) :: fs => if decide (k = k') then (k', v) :: fs else (k', w) :: assoc_set k v fs
  end.
(** [delete obj[k]] *)
Definition assoc_delete {A} (k : string) (fs : list (string * A)) : list (string * A) :=
  filter (λ kv, kv.1 ≠ k) fs.

(** [v?.k] *)
Definition prop_opt (v : value) (k : string) : value :=
  match v with VObj fs => default VUndef (assoc k fs) | _ => VUndef end.
(** [v.k] *)
Definition prop (v : value) (k : string) : result value :=
  match v with
  | VUndef | VNull => Throw TYPE_ERROR
  | _ => Ok (prop_opt v k)
  end.

Definition truthy (v : value) : bool :=
  match v with
  | VUndef | VNull => false
  | VBool b => b
  | VNum z | VBig z => negb (z =? 0)
  | VFrac r => negb (bool_decide (r = "NaN"))
  | VStr s => negb (bool_decide (s = ""))
  | VArr _ | VObj _ => true
  end.

(** [v || null] *)
Definition or_null (v : value) : value := if truthy v then v else VNull.

Definition typeof (v : value) : string :=
  match v with
  | VUndef => "undefined"
  | VNull | VArr _ | VObj _ => "object"
  | VBool _ => "boolean"
  | VNum _ | VFrac _ => "number"
  | VBig _ => "bigint"
  | VStr _ => "string"
  end.

(** [a === b] for values that are not the same reference: two arrays or two
    objects read from different places are different. *)
Definition strict_eq (a b : value) : bool :=
  match a, b with
  | VUndef, VUndef | VNull, VNull => true
  | VBool a, VBool b => Bool.eqb a b
  | VNum a, VNum b | VBig a, VBig b => a =? b
  | VFrac a, VFrac b => bool_decide (a = b) && negb (bool_decide (a = "NaN"))
  | VStr a, VStr b => bool_decide (a = b)
  | _, _ => false
  end.

(** The equality of [Map] and [Set] keys. *)
Definition same_value (a b : value) : bool :=
  strict_eq a b ||
  match a, b with
  | VFrac x, VFrac y => bool_decide (x = "NaN") && bool_decide (y = "NaN")
  | _, _ => false
  end.
(** [new Set(l)] on values. *)
Definition js_value_set (l : list value) : list value :=
  foldl (λ s x, if existsb (same_value x) s then s else s ++ [x]) [] l.

(** [String(v)] *)
Fixpoint to_str (v : value) : string :=
  match v with
  | VUndef => "undefined"
  | VNull => "null"
  | VBool b => if b then "true" else "false"
  | VNum z | VBig z => print_int z
  | VFrac r => r
  | VStr s => s
  | VArr l => join "," ((λ x, match x with VUndef | VNull => "" | _ => to_str x end) <$> l)
  | VObj _ => "[object Object]"
  end.

(** [v.toLowerCase()] *)
Definition to_lower (v : value) : result string :=
  match v with VStr s => Ok (lower s) | _ => Throw TYPE_ERROR end.

(** [BigInt(v)] *)
Definition to_bigint (v : value) : result Z :=
  match v with
  | VBig z | VNum z => Ok z
  | VBool b => Ok (if b then 1 else 0)
  | VStr s => from_option_or "SyntaxError" (string_to_bigint s)
  | VArr _ | VObj _ => from_option_or "SyntaxError" (string_to_bigint (to_str v))
  | VFrac _ => Throw "RangeError"
  | VUndef | VNull => Throw TYPE_ERROR
  end.

(** The text of a value that is a string. *)
Definition as_string (v : value) : option string :=
  match v with VStr s => Some s | _ => None end.

(** [Number.isSafeInteger(v)] *)
Definition is_safe_integer (v : value) : bool :=
  match v with VNum z => safe_integer z | _ => false end.

Definition is_array (v : value) : bool :=
  match v with VArr _ => true | _ => false end.
Definition array_items (v : value) : list value :=
  match v with VArr l => l | _ => [] end.
(** The elements of a value used as an array; another value has no [map]. *)
Definition items (v : value) : result (list value) :=
  match v with VArr l => Ok l | _ => Throw TYPE_ERROR end.
(** [l.sort()]: by text, [undefined] last. *)
Definition sort_value_le (a b : value) : Prop :=
  match b with
  | VUndef => True
  | _ => match a with VUndef => False | _ => String.le (to_str a) (to_str b) end
  end.
#[export] Instance sort_value_le_dec a b : Decision (sort_value_le a b).
Proof. unfold sort_value_le. destruct b, a; apply _. Defined.
Definition js_sort_values (l : list value) : list value := merge_sort sort_value_le l.
Lemma js_sort_values_Permutation l : js_sort_values l ≡ₚ l.
Proof. apply merge_sort_Permutation. Qed.
(** [n < v] for an integer [n], [v] a number. *)
Definition number_lt (n : Z) (v : value) : bool :=
  match v with VNum z | VBig z => n <? z | _ => false end.
(** [v.length] of an array *)
Definition array_length (v : value) : Z := Z.of_nat (length (array_items v)).

(** ** Lemmas on fields *)

Lemma assoc_assoc_set {A} k (x : A) fs : assoc k (assoc_set k x fs) = Some x.
Proof.
  induction fs as [|[k' y] fs IH]; cbn; [by rewrite decide_True|].
  destruct (decide (k = k')) as [->|]; cbn; [by rewrite decide_True|by rewrite decide_False].
Qed.
Lemma assoc_assoc_set_ne {A} k k' (x : A) fs :
  k ≠ k' → assoc k (assoc_set k' x fs) = assoc k fs.
Proof.
  intros Hne. induction fs as [|[l y] fs IH]; cbn; [by rewrite decide_False|].
  destruct (decide (k' = l)) as [<-|]; cbn; [by rewrite !decide_False|by case_decide].
Qed.

(** ** Lemmas on strings *)

Lemma chars_of_chars l : chars (of_chars l) = l.
Proof. apply String.list_ascii_of_string_of_list_ascii. Qed.
Lemma of_chars_chars s : of_chars (chars s) = s.
Proof. apply String.string_of_list_ascii_of_string. Qed.
Lemma chars_inj s t : chars s = chars t → s = t.
Proof. intros H. by rewrite <-(of_chars_chars s), H, of_chars_chars. Qed.
Lemma of_chars_inj l k : of_chars l = of_chars k → l = k.
Proof. intros H. by rewrite <-(chars_of_chars l), H, chars_of_chars. Qed.
Lemma chars_app s t : chars (s +:+ t) = chars s ++ chars t.
Proof.
  induction s as [|c s IH]; [done|]. change (String c s +:+ t) with (String c (s +:+ t)).
  unfold chars in *. cbn. by f_equal.
Qed.
Lemma length_chars s : length (chars s) = String.length s.
Proof. induction s; cbn; [done|]. unfold chars in *. by f_equal. Qed.
#[export] Hint Rewrite chars_of_chars of_chars_chars chars_app : vrf.

Lemma code_bound c : 0 <= code c < 256.
Proof. unfold code. pose proof (N_ascii_bounded c). lia. Qed.
Lemma code_char_of z : 0 <= z < 256 → code (char_of z) = z.
Proof. intros. unfold code, char_of. rewrite N_ascii_embedding; lia. Qed.
Lemma char_of_code c : char_of (code c) = c.
Proof. unfold code, char_of. by rewrite N2Z.id, ascii_N_embedding. Qed.
Lemma code_inj c d : code c = code d → c = d.
Proof. intros H. by rewrite <-(char_of_code c), H, char_of_code. Qed.

Lemma length_of_chars l : String.length (of_chars l) = length l.
Proof. by rewrite <-length_chars, chars_of_chars. Qed.

Lemma char_all_ascii (P : ascii → Prop) :
  (∀ z, 0 <= z < 256 → P (char_of z)) → ∀ c, P c.
Proof. intros H c. rewrite <-(char_of_code c). apply H, code_bound. Qed.

(** The 256 characters, for facts decided by trying them all. *)
Definition all_chars : list ascii := char_of <$> seqZ 0 256.
Lemma char_forallb (p : ascii → bool) : forallb p all_chars = true → ∀ c, p c = true.
Proof.
  intros Hp. apply char_all_ascii. intros z Hz. rewrite forallb_forall in Hp.
  apply Hp, list_elem_of_In, list_elem_of_fmap. exists z. split; [done|].
  apply elem_of_seqZ. lia.
Qed.
Ltac by_all_chars c :=
  revert c; match goal with |- ∀ c : ascii, @?P c =>
    intros c; apply (bool_decide_eq_true_1 (P c)); revert c;
    apply (char_forallb (λ c, bool_decide (P c))); vm_compute; reflexivity end.

(** Lower-casing twice is lower-casing once. *)
Lemma lower_char_idem c : lower_char (lower_char c) = lower_char c.
Proof. by_all_chars c. Qed.
Lemma lower_idem s : lower (lower s) = lower s.
Proof.
  unfold lower. rewrite chars_of_chars, <-list_fmap_compose. f_equal.
  apply list_fmap_ext. intros. apply lower_char_idem.
Qed.
Lemma length_lower s : String.length (lower s) = String.length s.
Proof. unfold lower. by rewrite length_of_chars, length_fmap, length_chars. Qed.
#[export] Hint Rewrite lower_idem : vrf.

(** ** Lemmas on numerals *)

Lemma digit_value_char base d :
  2 <= base <= 16 → 0 <= d < base → digit_value (digit_char d) = Some d.
Proof.
  intros. unfold digit_char. destruct (Z.ltb_spec d 10); unfold digit_value, is_digit, in_range;
    rewrite code_char_of by lia.
  - rewrite (proj2 (Z.leb_le _ _)), (proj2 (Z.leb_le _ _)) by lia. cbn. f_equal. lia.
  - rewrite (proj2 (Z.leb_le 48 _)), (proj2 (Z.leb_gt _ 57)) by lia. cbn.
    rewrite (proj2 (Z.leb_le 97 _)), (proj2 (Z.leb_le _ 102)) by lia. cbn. f_equal. lia.
Qed.

Lemma parse_step_digit base a d :
  2 <= base <= 16 → 0 <= d < base →
  parse_step base (Some a) (digit_char d) = Some (a * base + d).
Proof.
  intros. unfold parse_step. cbn. erewrite digit_value_char by done. cbn.
  by rewrite (proj2 (Z.ltb_lt d base)) by lia.
Qed.

(** The digits written in front of [acc] are read back, then [acc] is. *)
Lemma parse_digits_go fuel base n acc a :
  2 <= base <= 16 → 0 <= n → n < base ^ Z.of_nat fuel →
  ∃ k, foldl (parse_step base) (Some a) (digits_go fuel base n acc)
       = foldl (parse_step base) (Some (a * base ^ k + n)) acc
       ∧ 0 <= k ∧ (1 ≤ fuel → length acc < length (digits_go fuel base n acc))%nat.
Proof.
  intros Hb. revert n acc. induction fuel as [|fuel IH]; intros n acc Hn Hf.
  { cbn in *. exists 0. rewrite Z.pow_0_r. assert (n = 0) by lia. subst.
    split; [f_equal; f_equal; lia|split; lia]. }
  cbn [digits_go]. destruct (Z.ltb_spec n base).
  - exists 1. rewrite Z.pow_1_r, Z.mod_small by lia.
    cbn [foldl]. rewrite parse_step_digit by lia. split; [done|]. cbn. lia.
  - rewrite Nat2Z.inj_succ, Z.pow_succ_r in Hf by lia.
    destruct (IH (n / base) (digit_char (n mod base) :: acc)) as (k & Hk & Hk0 & Hl).
    { apply Z.div_pos; lia. }
    { apply Z.div_lt_upper_bound; lia. }
    exists (k + 1). rewrite Hk. cbn [foldl].
    pose proof (Z.mod_pos_bound n base). rewrite parse_step_digit by lia.
    split; [|split; [lia|]].
    + f_equal. f_equal. rewrite Z.pow_add_r, Z.pow_1_r by lia.
      rewrite (Z.div_mod n base) at 3 by lia. ring.
    + intros _. destruct fuel; cbn in *; [|lia].
      assert (n / base = 0) as ?%Z.div_small_iff by lia; lia.
Qed.

Lemma print_base_fuel base n :
  2 <= base → 0 <= n → n < base ^ Z.of_nat (S (Z.to_nat (Z.log2 n))).
Proof.
  intros. rewrite Nat2Z.inj_succ, Z2Nat.id by apply Z.log2_nonneg.
  destruct (decide (n = 0)) as [->|]; [cbn; lia|].
  apply (Z.lt_le_trans _ (2 ^ Z.succ (Z.log2 n))).
  - apply Z.log2_spec. lia.
  - apply Z.pow_le_mono_l. lia.
Qed.

(** Numerals in base 2 to 16 are read back. *)
Lemma parse_print_base base n :
  2 <= base <= 16 → 0 <= n →
  parse_digits base (chars (print_base base n)) = Some n.
Proof.
  intros. unfold print_base. rewrite chars_of_chars.
  destruct (parse_digits_go (S (Z.to_nat (Z.log2 n))) base n [] 0)
    as (k & Hk & _ & Hl); [done..|apply print_base_fuel; lia|].
  unfold parse_digits. destruct (digits_go _ _ _ _) eqn:E; [cbn in Hl; lia|].
  rewrite Hk. cbn. f_equal; lia.
Qed.

Lemma print_base_inj base n m :
  2 <= base <= 16 → 0 <= n → 0 <= m → print_base base n = print_base base m → n = m.
Proof.
  intros ? Hn Hm E. apply (parse_print_base base) in Hn, Hm; [|done..]. congruence.
Qed.

(** ** A [Map] with integer keys, its entries in the order they were first set *)
Section js_map.
Context {A : Type}.
Implicit Types (m events : list (Z * A)) (v : A).

Fixpoint map_set (k : Z) v m : list (Z * A) :=
  match m with
  | [] => [(k, v)]
  | (k', w) :: m => if k' =? k then (k', v) :: m else (k', w) :: map_set k v m
  end.
Definition map_sets m events : list (Z * A) := foldl (λ m e, map_set e.1 e.2 m) m events.
Definition map_delete (k : Z) m : list (Z * A) := filter (λ e, e.1 ≠ k) m.
Definition map_get (k : Z) m : option A := snd <$> find_first (λ e, e.1 =? k) m.

Lemma map_set_keys k v m x : x ∈ (map_set k v m).*1 ↔ x = k ∨ x ∈ m.*1.
Proof.
  induction m as [|[k' w] m IH]; cbn; [set_solver|]. destruct (Z.eqb_spec k' k) as [->|Hne]; cbn; set_solver.
Qed.
Lemma map_set_elem k v m e : e ∈ map_set k v m → e = (k, v) ∨ e ∈ m.
Proof.
  induction m as [|[k' w] m IH]; cbn; [set_solver|]. destruct (Z.eqb_spec k' k) as [->|Hne]; set_solver.
Qed.
Lemma map_sets_keys events m x : x ∈ (map_sets m events).*1 ↔ x ∈ events.*1 ∨ x ∈ m.*1.
Proof.
  unfold map_sets. revert m. induction events as [|e events IH]; intros m; cbn; [set_solver|].
  rewrite IH, map_set_keys. set_solver.
Qed.
Lemma map_sets_elem events m e : e ∈ map_sets m events → e ∈ events ∨ e ∈ m.
Proof.
  unfold map_sets. revert m. induction events as [|[k v] events IH]; intros m; cbn; [set_solver|].
  intros [He|He]%IH; [set_solver|]. apply map_set_elem in He. set_solver.
Qed.
Lemma map_delete_elem k m e : e ∈ map_delete k m ↔ e.1 ≠ k ∧ e ∈ m.
Proof. unfold map_delete. by rewrite list_elem_of_filter. Qed.

Lemma map_set_NoDup k v m : NoDup m.*1 → NoDup (map_set k v m).*1.
Proof.
  induction m as [|[k' w] m IH]; cbn; intros Hm; [repeat constructor; set_solver|].
  apply NoDup_cons in Hm as [Hk Hm]. destruct (Z.eqb_spec k' k) as [->|Hne]; cbn; constructor; auto.
  rewrite map_set_keys. set_solver.
Qed.
Lemma map_sets_NoDup m events : NoDup m.*1 → NoDup (map_sets m events).*1.
Proof.
  unfold map_sets. revert m. induction events as [|e events IH]; intros m Hm; cbn; [done|]. by apply IH, map_set_NoDup.
Qed.
Lemma map_get_elem k m v : map_get k m = Some v → (k, v) ∈ m.
Proof. unfold map_get. intros (e & [Hin Hk%Z.eqb_eq]%find_first_Some & ->)%fmap_Some. destruct e. cbn in *. by subst. Qed.
Lemma map_get_None k m : map_get k m = None ↔ k ∉ m.*1.
Proof.
  unfold map_get. rewrite fmap_None. split.
  - intros Hn (e & -> & He)%list_elem_of_fmap. eapply find_first_None in Hn; [|done]. apply Z.eqb_neq in Hn. done.
  - intros Hk. destruct (find_first _ m) as [e|] eqn:E; [|done]. apply find_first_Some in E as [Hin <-%Z.eqb_eq].
    exfalso. apply Hk, list_elem_of_fmap. eauto.
Qed.
End js_map.

Lemma prop_prop_opt v k x : prop v k = Ok x → prop_opt v k = x.
Proof. destruct v; cbn; congruence. Qed.
