(* ===== verification/Hex.v ===== *)
(** * Hex strings and the bytes and integers they stand for *)

From S2P Require Import Prelude Js.

Open Scope Z_scope.

Abbreviation bytes := (list ascii).

(** The bytes of a list of hex digits, two by two. *)
Fixpoint bytes_of_hex (l : list ascii) : option bytes :=
  match l with
  | [] => Some []
  | x :: y :: l =>
      a ← digit_value x; b ← digit_value y; r ← bytes_of_hex l;
      Some (char_of (16 * a + b) :: r)
  | _ => None
  end.

(** [0x] and the digits of the bytes. *)
Definition hex_of_bytes (b : bytes) : string :=
  "0x" +:+ of_chars (concat (hex_of_byte <$> b)).

(** A scalar as 32 bytes: [0x] and 64 digits. *)
Definition hex64 (z : Z) : string := "0x" +:+ pad_start0 64 (print_base 16 z).

Lemma hex_byte_parse c l :
  bytes_of_hex (hex_of_byte c ++ l) = (r ← bytes_of_hex l; Some (c :: r)).
Proof. destruct c as [[] [] [] [] [] [] [] []]; reflexivity. Qed.

Lemma bytes_of_hex_concat b : bytes_of_hex (concat (hex_of_byte <$> b)) = Some b.
Proof.
  induction b as [|c b IH]; [done|]. cbn [fmap list_fmap concat].
  rewrite hex_byte_parse. cbn in IH. by rewrite IH.
Qed.

Lemma digit_value_lower x a :
  digit_value x = Some a → digit_char a = lower_char x ∧ 0 <= a < 16.
Proof.
  destruct x as [[] [] [] [] [] [] [] []]; intros E; vm_compute in E;
    first [discriminate | injection E as <-; split; [reflexivity|lia]].
Qed.

Lemma digit_value_lower_char x : digit_value (lower_char x) = digit_value x.
Proof. by_all_chars x. Qed.

Lemma hex_of_parsed x y a b :
  digit_value x = Some a → digit_value y = Some b →
  hex_of_byte (char_of (16 * a + b)) = [lower_char x; lower_char y].
Proof.
  intros [<- Ha]%digit_value_lower [<- Hb]%digit_value_lower. unfold hex_of_byte.
  rewrite code_char_of by lia. do 2 f_equal.
  - symmetry. apply (Z.div_unique _ _ _ b); lia.
  - f_equal. symmetry. apply (Z.mod_unique _ _ a); lia.
Qed.

Fixpoint bytes_of_hex_lower l b {struct l} :
  bytes_of_hex l = Some b → concat (hex_of_byte <$> b) = lower_char <$> l.
Proof.
  destruct l as [|x [|y l]]; cbn [bytes_of_hex]; [by intros [= <-]|done|].
  destruct (digit_value x) as [u|] eqn:Hx; [|done].
  destruct (digit_value y) as [v|] eqn:Hy; [|done].
  destruct (bytes_of_hex l) as [r|] eqn:Hr; [|done]. intros E. injection E as <-.
  apply bytes_of_hex_lower in Hr. cbn [fmap list_fmap concat].
  rewrite (hex_of_parsed x y u v) by done. cbn. f_equal. f_equal. exact Hr.
Qed.

Fixpoint bytes_of_hex_lower_chars l {struct l} :
  bytes_of_hex (lower_char <$> l) = bytes_of_hex l.
Proof.
  destruct l as [|x [|y l]]; [done..|]. cbn [fmap list_fmap bytes_of_hex].
  rewrite !digit_value_lower_char.
  change (list_fmap _ _ lower_char l) with (lower_char <$> l).
  by rewrite bytes_of_hex_lower_chars.
Qed.

(** An even number of hex digits is read. *)
Fixpoint bytes_of_hex_total l {struct l} :
  Forall (λ c, is_Some (digit_value c)) l → Nat.Even (length l) →
  ∃ b, bytes_of_hex l = Some b ∧ length l = (2 * length b)%nat.
Proof.
  destruct l as [|x [|y l]]; intros Hl He.
  - by exists [].
  - destruct He as [k He]. cbn in He. lia.
  - apply Forall_cons in Hl as [[u Hu] Hl]. apply Forall_cons in Hl as [[v Hv] Hl].
    destruct (bytes_of_hex_total l Hl) as (b & Hb & Hlen).
    { destruct He as [k He]. exists (pred k). cbn in He. lia. }
    exists (char_of (16 * u + v) :: b). cbn. rewrite Hu, Hv. cbn. rewrite Hb. cbn.
    split; [done|]. lia.
Qed.

Lemma chars_hex_of_bytes b :
  chars (hex_of_bytes b) = "0"%char :: "x"%char :: concat (hex_of_byte <$> b).
Proof. unfold hex_of_bytes. rewrite chars_app, chars_of_chars. reflexivity. Qed.

Lemma hex_of_bytes_inj a b : hex_of_bytes a = hex_of_bytes b → a = b.
Proof.
  intros E%(f_equal chars). rewrite !chars_hex_of_bytes in E. injection E as E.
  apply (f_equal bytes_of_hex) in E. rewrite !bytes_of_hex_concat in E. congruence.
Qed.

(** ** Scalars as hex strings *)

Lemma digits_go_length fuel base n acc k :
  2 <= base → 0 <= n < base ^ Z.of_nat (S k) →
  (length (digits_go fuel base n acc) ≤ S k + length acc)%nat.
Proof.
  intros Hb. revert n acc k. induction fuel as [|fuel IH]; intros n acc k Hn; [cbn; lia|].
  cbn [digits_go]. destruct (Z.ltb_spec n base) as [Hlt|Hge]; [cbn; lia|].
  destruct k as [|k].
  { change (Z.of_nat 1) with 1 in Hn. rewrite Z.pow_1_r in Hn. lia. }
  rewrite Nat2Z.inj_succ, Z.pow_succ_r in Hn by lia.
  etrans; [apply (IH _ _ k)|cbn; lia].
  split; [apply Z.div_pos; lia|]. apply Z.div_lt_upper_bound; lia.
Qed.

Lemma digit_char_value d : 0 <= d < 16 → digit_value (digit_char d) = Some d.
Proof. intros. apply (digit_value_char 16); lia. Qed.

Lemma digits_go_hex fuel n acc :
  0 <= n → Forall (λ c, is_Some (digit_value c) ∧ lower_char c = c) acc →
  Forall (λ c, is_Some (digit_value c) ∧ lower_char c = c) (digits_go fuel 16 n acc).
Proof.
  revert n acc. induction fuel as [|fuel IH]; intros n acc Hn Hacc; cbn [digits_go]; [done|].
  assert (Forall (λ c, is_Some (digit_value c) ∧ lower_char c = c)
    (digit_char (n mod 16) :: acc)) as Hacc'.
  { pose proof (Z.mod_pos_bound n 16 ltac:(lia)). constructor; [|done].
    rewrite digit_char_value by lia. split; [done|].
    destruct (digit_value_lower (digit_char (n mod 16)) (n mod 16)) as [E _]; [|done].
    by apply digit_char_value. }
  case_match; [done|]. apply IH; [|done]. apply Z.div_pos; lia.
Qed.

Definition hex_digits64 (z : Z) : list ascii :=
  replicate (64 - String.length (print_base 16 z)) "0"%char ++ chars (print_base 16 z).

Lemma chars_hex64 z : chars (hex64 z) = "0"%char :: "x"%char :: hex_digits64 z.
Proof. unfold hex64, pad_start0. rewrite chars_app, chars_of_chars. reflexivity. Qed.

Lemma hex_digits64_spec z :
  0 <= z < 2 ^ 256 →
  length (hex_digits64 z) = 64%nat ∧
  Forall (λ c, is_Some (digit_value c) ∧ lower_char c = c) (hex_digits64 z).
Proof.
  intros Hz. unfold hex_digits64, print_base. rewrite length_app, length_replicate.
  rewrite length_chars, length_of_chars, chars_of_chars.
  pose proof (digits_go_length (S (Z.to_nat (Z.log2 z))) 16 z [] 63) as Hlen.
  cbn [length] in Hlen. split.
  - assert (length (digits_go (S (Z.to_nat (Z.log2 z))) 16 z []) ≤ 64)%nat; [|lia].
    rewrite Nat.add_0_r in Hlen. apply Hlen; [lia|]. split; [lia|].
    change (Z.of_nat 64) with 64. change (16 ^ 64) with (2 ^ 256). lia.
  - apply Forall_app. split.
    + apply Forall_replicate. split; [by eexists|done].
    + apply digits_go_hex; [lia|constructor].
Qed.

Lemma hex64_lower z : 0 <= z < 2 ^ 256 → lower (hex64 z) = hex64 z.
Proof.
  intros [_ Hd]%hex_digits64_spec. apply chars_inj. unfold lower.
  rewrite chars_of_chars, chars_hex64, !fmap_cons. do 2 f_equal.
  transitivity (id <$> hex_digits64 z); [|apply list_fmap_id].
  apply list_fmap_ext. intros i c Hc. eapply Forall_lookup_1 in Hd; [|done]. apply Hd.
Qed.

(** A scalar in range is printed as 32 bytes. *)
Lemma hex64_bytes z :
  0 <= z < 2 ^ 256 → ∃ b, length b = 32%nat ∧ hex64 z = hex_of_bytes b.
Proof.
  intros Hz. pose proof (hex_digits64_spec z Hz) as [Hl Hd].
  destruct (bytes_of_hex_total (hex_digits64 z)) as (b & Hb & Hlen).
  { eapply Forall_impl; [done|]. by intros c [? _]. }
  { exists 32%nat. lia. }
  exists b. split; [lia|]. apply bytes_of_hex_lower in Hb.
  rewrite <-(hex64_lower z Hz). apply chars_inj. unfold lower.
  rewrite chars_of_chars, chars_hex64, chars_hex_of_bytes, Hb. reflexivity.
Qed.

Lemma drop_spaces_id l : Forall (λ c, is_space c = false) l → drop_spaces l = l.
Proof. destruct 1 as [|c l Hc _]; cbn; [done|]. by rewrite Hc. Qed.

Lemma trim_id s : Forall (λ c, is_space c = false) (chars s) → trim s = s.
Proof.
  intros Hs. unfold trim. rewrite (drop_spaces_id (chars s)) by done.
  rewrite drop_spaces_id by (by apply Forall_reverse).
  by rewrite reverse_involutive, of_chars_chars.
Qed.

Lemma parse_zeros n l :
  foldl (parse_step 16) (Some 0) (replicate n "0"%char ++ l) = foldl (parse_step 16) (Some 0) l.
Proof. induction n as [|n IH]; [done|]. exact IH. Qed.

Lemma digit_not_space c : is_Some (digit_value c) → is_space c = false.
Proof.
  destruct (is_space c) eqn:Hs; [|done]. intros Hd. revert Hs Hd.
  assert (is_space c = true → digit_value c = None) as Hn.
  { destruct c as [[] [] [] [] [] [] [] []]; vm_compute; done. }
  intros Hs [d Hd]. rewrite Hn in Hd; done.
Qed.

(** [BigInt] reads a scalar back. *)
Lemma string_to_bigint_hex64 z : 0 <= z < 2 ^ 256 → string_to_bigint (hex64 z) = Some z.
Proof.
  intros Hz. pose proof (hex_digits64_spec z Hz) as [Hl Hd].
  unfold string_to_bigint. rewrite trim_id.
  2: { rewrite chars_hex64. repeat constructor.
       eapply Forall_impl; [done|]. cbn. intros c [? _]. by apply digit_not_space. }
  rewrite chars_hex64. cbn [Ascii.eqb Bool.eqb orb].
  unfold parse_digits. destruct (hex_digits64 z) eqn:E; [done|]. rewrite <-E.
  unfold hex_digits64. rewrite parse_zeros.
  pose proof (parse_print_base 16 z ltac:(lia) ltac:(lia)) as Hp.
  unfold parse_digits in Hp. by destruct (chars (print_base 16 z)).
Qed.

(** ** Digits *)

Lemma is_hex_digit_lower c : is_hex_digit (lower_char c) = is_hex_digit c.
Proof. by_all_chars c. Qed.
Lemma hex_of_byte_digits c : forallb is_hex_digit (hex_of_byte c) = true.
Proof. by_all_chars c. Qed.
Lemma concat_hex_digits b : forallb is_hex_digit (concat (hex_of_byte <$> b)) = true.
Proof.
  induction b as [|c b IH]; [done|]. cbn [fmap list_fmap concat].
  by rewrite forallb_app, hex_of_byte_digits.
Qed.
Lemma forallb_lower l : forallb is_hex_digit (lower_char <$> l) = forallb is_hex_digit l.
Proof. induction l as [|c l IH]; [done|]. cbn. by rewrite is_hex_digit_lower, IH. Qed.
Lemma length_concat_hex b : length (concat (hex_of_byte <$> b)) = (length b * 2)%nat.
Proof. induction b as [|c b IH]; [done|]. cbn in *. by rewrite IH. Qed.

Lemma parse_digits_nonneg base l z : 0 <= base → parse_digits base l = Some z → 0 <= z.
Proof.
  intros Hb. unfold parse_digits. destruct l as [|c l]; [done|]. generalize (c :: l). clear c l. intros l.
  assert (∀ acc, (∀ a, acc = Some a → 0 <= a) → ∀ z, foldl (parse_step base) acc l = Some z → 0 <= z) as Hgo.
  { induction l as [|c l IH]; intros acc Hacc z' Hz'; cbn [foldl] in Hz'; [by apply Hacc|].
    eapply IH; [|exact Hz']. intros a Ha. unfold parse_step in Ha. destruct acc as [a0|]; [|done].
    specialize (Hacc a0 eq_refl). destruct (digit_value c) as [d|] eqn:Hd; [|done].
    assert (0 <= d). { revert Hd. unfold digit_value. repeat case_match; intros [= <-];
      unfold is_digit, in_range in *; lia. }
    cbn in Ha. repeat case_match; simplify_eq; nia. }
  apply Hgo. by intros a [= <-].
Qed.

Lemma concat_digit_values b : Forall (λ c, is_Some (digit_value c)) (concat (hex_of_byte <$> b)).
Proof.
  induction b as [|c b IH]; [constructor|].
  change (Forall (λ c, is_Some (digit_value c)) (hex_of_byte c ++ concat (hex_of_byte <$> b))).
  apply Forall_app. split; [|exact IH].
  destruct c as [[] [] [] [] [] [] [] []]; repeat constructor; vm_compute; eauto.
Qed.
