(* ===== verification/CanonicalJson.v ===== *)
(** * Canonical JSON (operator/threshold-group.mjs, [canonicalJson])

    The encoding every hash of the threshold protocol is taken over: manifests,
    packets, partial responses and audit records.  The theorems say that it
    depends only on the value up to the order of object keys and that it can be
    read in one way only, so that two values with the same encoding are the
    same value up to that order. *)

From S2P Require Import Prelude Js.

Open Scope Z_scope.

(** ** [JSON.stringify] of a string *)

Definition hex_digit_of (z : Z) : ascii := digit_char z.

(** One code unit inside a JSON string literal. *)
Definition quote_char (c : ascii) : list ascii :=
  if code c =? 34 then ["\"; "034"]%char
  else if code c =? 92 then ["\"; "\"]%char
  else if code c =? 8 then ["\"; "b"]%char
  else if code c =? 9 then ["\"; "t"]%char
  else if code c =? 10 then ["\"; "n"]%char
  else if code c =? 12 then ["\"; "f"]%char
  else if code c =? 13 then ["\"; "r"]%char
  else if code c <? 32 then
    ["\"; "u"; "0"; "0"]%char ++ [hex_digit_of (code c / 16); hex_digit_of (code c mod 16)]
  else [c].

Definition quote (s : string) : string :=
  of_chars (["034"]%char ++ flat_map quote_char (chars s) ++ ["034"]%char).

(** ** The encoder *)

Definition NON_CANONICAL : string := "manifest contains a non-canonical JSON value".

(** The order of [Object.keys(value).sort()]. *)
Definition key_le {A} (p q : string * A) : Prop := String.le p.1 q.1.
#[export] Instance key_le_dec {A} (p q : string * A) : Decision (key_le p q) :=
  decide (String.le p.1 q.1).
Definition sort_fields {A} (fs : list (string * A)) : list (string * A) :=
  merge_sort key_le fs.

Definition print_field (p : string * string) : string := quote p.1 +:+ ":" +:+ p.2.

Fixpoint canonicalJson (v : value) : result string :=
  match v with
  | VNull => Ok "null"
  | VBool b => Ok (if b then "true" else "false")
  | VStr s => Ok (quote s)
  | VNum z => if safe_integer z then Ok (print_int z) else Throw NON_CANONICAL
  | VArr l =>
      ss ← mapM canonicalJson l;
      Ok ("[" +:+ join "," ss +:+ "]")
  | VObj fs =>
      ps ← mapM (λ kv : string * value, s ← canonicalJson kv.2; Ok (kv.1, s)) fs;
      Ok ("{" +:+ join "," (print_field <$> sort_fields ps) +:+ "}")
  | VUndef | VFrac _ | VBig _ => Throw NON_CANONICAL
  end.

(** A value with the keys of every object in sorted order: two values are the
    same JSON document, whatever the order of the keys, when their [norm]s are
    equal. *)
Fixpoint norm (v : value) : value :=
  match v with
  | VArr l => VArr (norm <$> l)
  | VObj fs => VObj (sort_fields ((λ kv : string * value, (kv.1, norm kv.2)) <$> fs))
  | _ => v
  end.

(** Objects have each key once. *)
Fixpoint wf_value (v : value) : Prop :=
  match v with
  | VArr l => foldr (λ x P, wf_value x ∧ P) True l
  | VObj fs => NoDup (keys fs) ∧ foldr (λ kv P, wf_value kv.2 ∧ P) True fs
  | _ => True
  end.

(** The canonical values: those that have an encoding. *)
Fixpoint canonical (v : value) : bool :=
  match v with
  | VNull | VBool _ | VStr _ => true
  | VNum z => safe_integer z
  | VArr l => forallb canonical l
  | VObj fs => forallb (λ kv, canonical kv.2) fs
  | VUndef | VFrac _ | VBig _ => false
  end.

(** ** Sorting by key *)

Section merge_sort_fmap.
Context {A B : Type} (f : A → B) (R : relation A) (R' : relation B).
Context `{∀ x y, Decision (R x y)} `{∀ x y, Decision (R' x y)}.
Context (HR : ∀ x y, R x y ↔ R' (f x) (f y)).

Let stack_map : list (option (list A)) → list (option (list B)) :=
  fmap (M:=list) (fmap (M:=option) (fmap (M:=list) f)).

Lemma list_merge_fmap (l1 l2 : list A) :
  list_merge R' (f <$> l1) (f <$> l2) = f <$> list_merge R l1 l2.
Proof.
  revert l2. induction l1 as [|x l1 IH1]; intros l2; [by destruct l2|].
  induction l2 as [|y l2 IH2]; [done|].
  rewrite !fmap_cons. cbn [list_merge].
  destruct (decide (R x y)) as [Hxy|Hxy], (decide (R' (f x) (f y))) as [Hxy'|Hxy'];
    rewrite ?HR in Hxy; try done; rewrite fmap_cons; f_equal.
  - by rewrite <-fmap_cons, IH1.
  - done.
Qed.

Lemma merge_list_to_stack_fmap (st : list (option (list A))) (l : list A) :
  merge_list_to_stack R' (stack_map st) (f <$> l)
  = stack_map (merge_list_to_stack R st l).
Proof.
  revert l. induction st as [|[k|] st IH]; intros l; cbn; [done| |done].
  f_equal. by rewrite list_merge_fmap, IH.
Qed.

Lemma merge_stack_fmap (st : list (option (list A))) :
  merge_stack R' (stack_map st) = f <$> merge_stack R st.
Proof.
  induction st as [|[k|] st IH]; cbn; [done| |done].
  by rewrite IH, list_merge_fmap.
Qed.

Lemma merge_sort_fmap (l : list A) : merge_sort R' (f <$> l) = f <$> merge_sort R l.
Proof.
  unfold merge_sort.
  enough (∀ st : list (option (list A)), merge_sort_aux R' (stack_map st) (f <$> l)
                = f <$> merge_sort_aux R st l) as Hgo; [apply (Hgo [])|].
  induction l as [|x l IH]; intros st; cbn; [apply merge_stack_fmap|].
  rewrite <-IH. f_equal. apply (merge_list_to_stack_fmap st [x]).
Qed.
End merge_sort_fmap.

Lemma sort_fields_fmap {A B} (g : A → B) (fs : list (string * A)) :
  sort_fields ((λ kv, (kv.1, g kv.2)) <$> fs) = (λ kv, (kv.1, g kv.2)) <$> sort_fields fs.
Proof. by apply merge_sort_fmap. Qed.

Lemma sort_fields_Permutation {A} (fs : list (string * A)) : sort_fields fs ≡ₚ fs.
Proof. apply merge_sort_Permutation. Qed.

Lemma sort_fields_unique {A} (fs gs : list (string * A)) :
  NoDup (keys fs) → fs ≡ₚ gs → sort_fields fs = sort_fields gs.
Proof.
  intros Hnd Hp.
  assert (Transitive (@key_le A)) by (intros x y z; unfold key_le; apply transitivity).
  assert (Total (@key_le A)) by (intros x y; apply (total String.le)).
  apply (Sorted_unique_strong key_le).
  - intros [k x] [k' y] Hx Hy H1 H2. unfold key_le in *; cbn in *.
    assert (k = k') as <- by (by apply (anti_symm String.le)).
    rewrite sort_fields_Permutation in Hx, Hy. rewrite <-Hp in Hy.
    apply list_elem_of_lookup in Hx as [i Hi], Hy as [j Hj].
    assert (i = j) as <-; [|congruence].
    eapply NoDup_lookup; [done| |]; unfold keys; rewrite list_lookup_fmap.
    + by rewrite Hi.
    + by rewrite Hj.
  - apply Sorted_merge_sort. apply _.
  - apply Sorted_merge_sort. apply _.
  - by rewrite !sort_fields_Permutation.
Qed.

(** ** String literals are read in one way *)

(** Reads back one code unit of a string literal. *)
Definition unquote_char (l : list ascii) : option (ascii * list ascii) :=
  match l with
  | "\"%char :: "u"%char :: "0"%char :: "0"%char :: h :: l :: t =>
      a ← digit_value h; b ← digit_value l; Some (char_of (16 * a + b), t)
  | "\"%char :: c :: t =>
      Some (if Ascii.eqb c "b" then char_of 8 else if Ascii.eqb c "t" then char_of 9
            else if Ascii.eqb c "n" then char_of 10 else if Ascii.eqb c "f" then char_of 12
            else if Ascii.eqb c "r" then char_of 13 else c, t)%char
  | c :: t => Some (c, t)
  | [] => None
  end.

Lemma unquote_quote_char c t : unquote_char (quote_char c ++ t) = Some (c, t).
Proof. destruct c as [[] [] [] [] [] [] [] []]; reflexivity. Qed.

Lemma quote_char_not_quote c t u : quote_char c ++ t ≠ "034"%char :: u.
Proof. destruct c as [[] [] [] [] [] [] [] []]; discriminate. Qed.

Lemma quote_body_inj l k t u :
  flat_map quote_char l ++ "034"%char :: t = flat_map quote_char k ++ "034"%char :: u →
  l = k ∧ t = u.
Proof.
  revert k. induction l as [|c l IH]; intros [|d k]; cbn; rewrite <-?app_assoc.
  - naive_solver.
  - intros E. symmetry in E. by apply quote_char_not_quote in E.
  - intros E. by apply quote_char_not_quote in E.
  - intros E. apply (f_equal unquote_char) in E. rewrite !unquote_quote_char in E.
    simplify_eq. naive_solver.
Qed.

Lemma quote_inj s1 s2 t1 t2 :
  chars (quote s1) ++ t1 = chars (quote s2) ++ t2 → s1 = s2 ∧ t1 = t2.
Proof.
  unfold quote. rewrite !chars_of_chars. cbn. intros [=E].
  rewrite <-!app_assoc in E. cbn in E.
  apply quote_body_inj in E as [?%chars_inj ?]. done.
Qed.

(** ** Numerals are read in one way *)

Definition numeral_char (c : ascii) : bool := is_digit c || Ascii.eqb c "-".

Lemma is_digit_digit_char d : 0 <= d < 10 → is_digit (digit_char d) = true.
Proof.
  intros. unfold digit_char. rewrite (proj2 (Z.ltb_lt d 10)) by lia.
  unfold is_digit, in_range. rewrite code_char_of by lia.
  apply andb_true_iff. rewrite !Z.leb_le. lia.
Qed.

Lemma digits_go_digits fuel n acc :
  0 <= n → forallb is_digit acc = true → forallb is_digit (digits_go fuel 10 n acc) = true.
Proof.
  revert n acc. induction fuel as [|fuel IH]; intros n acc Hn Hacc; cbn [digits_go]; [done|].
  pose proof (Z.mod_pos_bound n 10).
  assert (forallb is_digit (digit_char (n mod 10) :: acc) = true).
  { cbn. rewrite is_digit_digit_char by lia. done. }
  case_match; [done|]. apply IH; [|done]. apply Z.div_pos; lia.
Qed.

Lemma print_base_digits n : 0 <= n → forallb is_digit (chars (print_base 10 n)) = true.
Proof. intros. unfold print_base. rewrite chars_of_chars. by apply digits_go_digits. Qed.

Lemma print_base_nonempty n : 0 <= n → chars (print_base 10 n) ≠ [].
Proof.
  intros Hn E. pose proof (parse_print_base 10 n ltac:(lia) Hn) as Hp.
  by rewrite E in Hp.
Qed.

Lemma numeral_digits l : forallb is_digit l = true → forallb numeral_char l = true.
Proof.
  rewrite !forallb_forall. intros H x Hx. unfold numeral_char. by rewrite H.
Qed.

(** The first character of a numeral is a digit or a minus sign. *)
Lemma print_int_cons z :
  ∃ c l, chars (print_int z) = c :: l ∧ forallb numeral_char (c :: l) = true.
Proof.
  unfold print_int. destruct (Z.ltb_spec z 0).
  - exists "-"%char, (chars (print_base 10 (- z))). rewrite chars_app. split; [done|].
    cbn. apply numeral_digits, print_base_digits. lia.
  - pose proof (print_base_digits z ltac:(lia)) as Hd.
    pose proof (print_base_nonempty z ltac:(lia)).
    destruct (chars _) as [|c l]; [done|]. exists c, l. split; [done|].
    by apply numeral_digits.
Qed.

Lemma print_int_inj z z' : print_int z = print_int z' → z = z'.
Proof.
  assert (∀ n s, 0 <= n → print_base 10 n ≠ "-" +:+ s) as Hminus.
  { intros n s Hn E. pose proof (print_base_digits n Hn) as Hd.
    by rewrite E, chars_app in Hd. }
  unfold print_int. destruct (Z.ltb_spec z 0), (Z.ltb_spec z' 0); intros E.
  - apply String.app_inj, print_base_inj in E; lia.
  - symmetry in E. by apply Hminus in E.
  - by apply Hminus in E.
  - apply print_base_inj in E; lia.
Qed.

(** Two runs of characters of a class, each followed by something outside it,
    end at the same place. *)
Lemma run_unambiguous (p : ascii → bool) l k t u :
  forallb p l = true → forallb p k = true →
  (∀ c t', t = c :: t' → p c = false) → (∀ c u', u = c :: u' → p c = false) →
  l ++ t = k ++ u → l = k ∧ t = u.
Proof.
  revert k. induction l as [|c l IH]; intros [|d k] Hl Hk Ht Hu E; cbn in *; subst.
  - done.
  - apply andb_true_iff in Hk as [Hk _]. specialize (Ht d _ eq_refl). congruence.
  - apply andb_true_iff in Hl as [Hl _]. specialize (Hu c _ eq_refl). congruence.
  - apply andb_true_iff in Hl as [_ Hl], Hk as [_ Hk].
    injection E as -> E. destruct (IH k) as [-> ->]; auto.
Qed.

(** What may follow a value inside a document. *)
Definition terminator (t : list ascii) : Prop :=
  match t with [] => True | c :: _ => c = ","%char ∨ c = "]"%char ∨ c = "}"%char end.

Lemma terminator_not_numeral t c t' :
  terminator t → t = c :: t' → numeral_char c = false.
Proof. intros Ht ->. cbn in Ht. by destruct Ht as [->|[->| ->]]. Qed.

Lemma print_int_unambiguous z z' t u :
  terminator t → terminator u →
  chars (print_int z) ++ t = chars (print_int z') ++ u → z = z' ∧ t = u.
Proof.
  intros Ht Hu E.
  destruct (print_int_cons z) as (c & l & Hz & Hl), (print_int_cons z') as (d & k & Hz' & Hk).
  apply (run_unambiguous numeral_char) in E as [E%chars_inj ->].
  - by apply print_int_inj in E.
  - by rewrite Hz.
  - by rewrite Hz'.
  - intros ??. by apply terminator_not_numeral.
  - intros ??. by apply terminator_not_numeral.
Qed.

(** ** Comma-separated sequences are read in one way *)

Fixpoint commas (l : list (list ascii)) : list ascii :=
  match l with
  | [] => []
  | [s] => s
  | s :: l => s ++ ","%char :: commas l
  end.

Lemma commas_cons s l :
  commas (s :: l) = s ++ match l with [] => [] | _ => ","%char :: commas l end.
Proof. destruct l; cbn; [by rewrite app_nil_r|done]. Qed.

Lemma chars_join l : chars (join "," l) = commas (chars <$> l).
Proof.
  induction l as [|s [|s' l] IH]; [done..|].
  change (join "," (s :: s' :: l)) with (s +:+ "," +:+ join "," (s' :: l)).
  by rewrite !chars_app, IH.
Qed.

Section commas.
Context {A B : Type} (pr : A → list ascii) (nm : A → B) (P : A → Prop).
Context (close : ascii).
Context (Hclose : close = "]"%char ∨ close = "}"%char).
Context (Hhead : ∀ x, P x → ∃ c l, pr x = c :: l ∧ c ≠ close ∧ c ≠ ","%char).

Definition readable (x : A) : Prop := ∀ y t u,
  P y → terminator t → terminator u → pr x ++ t = pr y ++ u → nm x = nm y ∧ t = u.

Lemma commas_unambiguous l k t u :
  Forall P l → Forall readable l → Forall P k →
  commas (pr <$> l) ++ close :: t = commas (pr <$> k) ++ close :: u →
  nm <$> l = nm <$> k ∧ t = u.
Proof.
  assert (terminator [","%char] ∧ ∀ v, terminator (close :: v)) as [_ Hterm].
  { split; [by left|]. intros v. cbn. naive_solver. }
  intros Hl Hr. revert k. induction l as [|x l IH]; intros [|y k] Hk E;
    rewrite ?fmap_cons, ?commas_cons in E.
  - naive_solver.
  - inv Hk. destruct (Hhead y) as (c & r & Hy & ? & ?); [done|].
    rewrite Hy in E. naive_solver.
  - inv Hl. destruct (Hhead x) as (c & r & Hy & ? & ?); [done|].
    rewrite Hy in E. naive_solver.
  - inv Hl. inv Hr. inv Hk. rewrite <-!app_assoc in E.
    match goal with Hx : readable x |- _ => apply Hx in E as [Hxy E] end.
    + destruct l as [|x' l], k as [|y' k]; cbn in E |- *.
      * injection E as ->. split; [|done]. by rewrite Hxy.
      * naive_solver.
      * naive_solver.
      * injection E as E. destruct (IH ltac:(done) ltac:(done) (y' :: k)) as [Hlk ->];
          [done..|]. cbn in Hlk. by rewrite Hxy, Hlk.
    + done.
    + destruct l; [apply Hterm|by left].
    + destruct k; [apply Hterm|by left].
Qed.
End commas.

(** ** The encoding of canonical values *)

Definition enc (v : value) : list ascii :=
  match canonicalJson v with Ok s => chars s | Throw _ => [] end.
Definition field_enc (kv : string * value) : list ascii :=
  chars (quote kv.1) ++ ":"%char :: enc kv.2.

Lemma mapM_canonical {A} (f : A → result string) (p : A → bool) l :
  Forall (λ x, f x = (if p x then f x else Throw NON_CANONICAL) ∧ (p x = true → is_ok (f x) = true)) l →
  (forallb p l = true → ∃ ss, mapM f l = Ok ss) ∧
  (forallb p l = false → mapM f l = Throw NON_CANONICAL).
Proof.
  induction 1 as [|x l [Hx Hok] _ [IH1 IH2]]; cbn; [naive_solver|].
  destruct (p x); cbn.
  - specialize (Hok eq_refl). destruct (f x) as [s|]; [|done]. cbn. split; intros Hp.
    + destruct (IH1 Hp) as [ss ->]. cbn. eauto.
    + by rewrite IH2.
  - rewrite Hx. done.
Qed.

Lemma canonicalJson_decides v :
  (canonical v = true → canonicalJson v = Ok (of_chars (enc v))) ∧
  (canonical v = false → canonicalJson v = Throw NON_CANONICAL).
Proof.
  unfold enc.
  enough ((canonical v = true → ∃ s, canonicalJson v = Ok s) ∧
          (canonical v = false → canonicalJson v = Throw NON_CANONICAL)) as [H1 H2].
  { split; [|done]. intros [s ->]%H1. by rewrite of_chars_chars. }
  induction v as [| |b|z|r|z|s|l IH|fs IH] using value_ind'; cbn; try naive_solver.
  - destruct (safe_integer z); naive_solver.
  - destruct (mapM_canonical canonicalJson canonical l) as [H1 H2].
    { eapply Forall_impl; [done|]. intros x [Hx1 Hx2]. cbn in *.
      destruct (canonical x); [|naive_solver]. destruct Hx1 as [s ->]; done. }
    split; intros Hc; [destruct (H1 Hc) as [ss ->]; cbn; eauto|by rewrite H2].
  - destruct (mapM_canonical (λ kv : string * value, canonicalJson kv.2)
      (λ kv, canonical kv.2) fs) as [H1 H2].
    { eapply Forall_impl; [done|]. intros [k x] [Hx1 Hx2]. cbn in *.
      destruct (canonical x); [|naive_solver]. destruct Hx1 as [s ->]; done. }
    assert (∀ fs, mapM (λ kv : string * value, s ← canonicalJson kv.2; Ok (kv.1, s)) fs
      = (ss ← mapM (λ kv : string * value, canonicalJson kv.2) fs;
         Ok (zip (keys fs) ss))) as E.
    { clear. intros fs. induction fs as [|[k x] fs IH]; cbn; [done|].
      destruct (canonicalJson x); cbn; [|done]. rewrite IH.
      generalize (mapM (λ kv : string * value, canonicalJson kv.2) fs). intros []; reflexivity. }
    rewrite E. split; intros Hc; [destruct (H1 Hc) as [ss ->]; cbn; eauto|by rewrite H2].
Qed.

Lemma canonicalJson_canonical v s : canonicalJson v = Ok s → canonical v = true ∧ chars s = enc v.
Proof.
  intros E. unfold enc. destruct (canonicalJson_decides v) as [_ H2].
  destruct (canonical v); [by rewrite E|]. rewrite H2 in E; done.
Qed.

Lemma enc_array l :
  forallb canonical l = true →
  enc (VArr l) = "["%char :: commas (enc <$> l) ++ ["]"%char].
Proof.
  intros Hc. unfold enc at 1. cbn.
  assert (mapM canonicalJson l = Ok ((λ v, of_chars (enc v)) <$> l)) as ->.
  { apply mapM_Ok. induction l as [|x l IH]; [constructor|].
    cbn in Hc. apply andb_true_iff in Hc as [Hx Hl].
    constructor; [by apply canonicalJson_decides|by apply IH]. }
  cbn. rewrite !chars_app, chars_join, <-list_fmap_compose. cbn. do 2 f_equal.
  f_equal. apply list_fmap_ext. intros ?? _. cbn. by rewrite chars_of_chars.
Qed.

Lemma enc_object fs :
  forallb (λ kv, canonical kv.2) fs = true →
  enc (VObj fs) = "{"%char :: commas (field_enc <$> sort_fields fs) ++ ["}"%char].
Proof.
  intros Hc. unfold enc at 1. cbn.
  assert (mapM (λ kv : string * value, s ← canonicalJson kv.2; Ok (kv.1, s)) fs
          = Ok ((λ kv, (kv.1, (λ v, of_chars (enc v)) kv.2)) <$> fs)) as ->.
  { apply mapM_Ok. induction fs as [|[k x] fs IH]; [constructor|].
    cbn in Hc. apply andb_true_iff in Hc as [Hx Hl].
    constructor; [|by apply IH]. cbn.
    by rewrite (proj1 (canonicalJson_decides x) Hx). }
  cbn. rewrite (sort_fields_fmap (λ v, of_chars (enc v))), !chars_app, chars_join, <-!list_fmap_compose. cbn.
  do 2 f_equal. f_equal. apply list_fmap_ext. intros ? [k x] _. cbn.
  unfold print_field, field_enc. cbn. by rewrite !chars_app, chars_of_chars.
Qed.

(** The first character of an encoding tells the kind of the value. *)
Definition kind_of_char (c : ascii) : nat :=
  if Ascii.eqb c "n" then 1 else if Ascii.eqb c "t" then 2 else if Ascii.eqb c "f" then 3
  else if Ascii.eqb c "034" then 4 else if Ascii.eqb c "[" then 5
  else if Ascii.eqb c "{" then 6 else if numeral_char c then 7 else 0.
Definition kind_of_value (v : value) : nat :=
  match v with
  | VNull => 1 | VBool true => 2 | VBool false => 3 | VStr _ => 4
  | VArr _ => 5 | VObj _ => 6 | VNum _ => 7 | _ => 0
  end.

Lemma numeral_char_kind c : numeral_char c = true → kind_of_char c = 7%nat.
Proof. destruct c as [[] [] [] [] [] [] [] []]; try discriminate; reflexivity. Qed.

Lemma enc_head v :
  canonical v = true →
  ∃ c l, enc v = c :: l ∧ kind_of_char c = kind_of_value v ∧ kind_of_value v ≠ 0%nat.
Proof.
  destruct v as [| |[]|z|r|z|s|l|fs]; intros Hc; try discriminate Hc.
  - unfold enc. cbn. eauto.
  - unfold enc. cbn. eauto.
  - unfold enc. cbn. eauto.
  - unfold enc. cbn in *. rewrite Hc. destruct (print_int_cons z) as (c & l & -> & Hl).
    exists c, l. split; [done|]. split; [|done]. apply numeral_char_kind.
    cbn in Hl. by apply andb_true_iff in Hl as [? _].
  - unfold enc. cbn. unfold quote. rewrite chars_of_chars. cbn. eauto.
  - rewrite enc_array by done. eauto.
  - rewrite enc_object by done. eauto.
Qed.

Lemma canonical_fields_sorted fs :
  forallb (λ kv : string * value, canonical kv.2) fs = true →
  Forall (λ kv, canonical kv.2 = true) (sort_fields fs).
Proof.
  intros Hc. rewrite sort_fields_Permutation. apply Forall_forall. intros x Hx.
  rewrite forallb_forall in Hc. apply Hc. by apply list_elem_of_In.
Qed.

Lemma forallb_Forall {A} (p : A → bool) l : forallb p l = true ↔ Forall (λ x, p x = true) l.
Proof. rewrite forallb_forall, Forall_forall. by setoid_rewrite list_elem_of_In. Qed.

(** An encoding is followed by at most one way to read it. *)
Lemma enc_unambiguous v w t u :
  canonical v = true → canonical w = true → terminator t → terminator u →
  enc v ++ t = enc w ++ u → norm v = norm w ∧ t = u.
Proof.
  revert w t u. induction v as [| |b|z|r|z|s|l IH|fs IH] using value_ind';
    intros w t u Hv Hw Ht Hu E; try discriminate Hv;
    destruct (enc_head _ Hv) as (c & l1 & Ev & Hk & _), (enc_head _ Hw) as (d & l2 & Ew & Hk' & _);
    assert (kind_of_value w = kind_of_char c) as Hkind
      by (rewrite Ev, Ew in E; injection E as -> _; done);
    rewrite Hk in Hkind; clear l1 l2 Ev Ew Hk Hk'.
  - destruct w as [| |[]| | | | | |]; try discriminate Hkind.
    unfold enc in E. cbn in E. naive_solver.
  - destruct b, w as [| |[]| | | | | |]; try discriminate Hkind;
      unfold enc in E; cbn in E; naive_solver.
  - destruct w as [| |[]|z'| | | | |]; try discriminate Hkind.
    unfold enc in E. cbn in *. rewrite Hv, Hw in E.
    apply print_int_unambiguous in E as [-> ->]; done.
  - destruct w as [| |[]| | | |s'| |]; try discriminate Hkind.
    unfold enc in E. cbn in E. by apply quote_inj in E as [-> ->].
  - destruct w as [| |[]| | | | |l'|]; try discriminate Hkind.
    rewrite !enc_array in E by done. cbn in E. injection E as E.
    rewrite <-!app_assoc in E. cbn [app] in E.
    apply (commas_unambiguous enc norm (λ v, canonical v = true)) in E as [Hn ->].
    + split; [|done]. cbn. by rewrite Hn.
    + by left.
    + intros x Hx. destruct (enc_head x Hx) as (c' & r & ? & Hkc & Hk0). exists c', r.
      split; [done|]. rewrite <-Hkc in Hk0. split; intros ->; by apply Hk0.
    + by apply forallb_Forall.
    + apply forallb_Forall in Hv. eapply Forall_impl; [exact (proj2 (Forall_and _ _) (conj IH Hv))|].
      intros x [Hx ?] y t' u' ??. by apply Hx.
    + by apply forallb_Forall.
  - destruct w as [| |[]| | | | | |fs']; try discriminate Hkind.
    rewrite !enc_object in E by done. cbn in E. injection E as E.
    rewrite <-!app_assoc in E. cbn [app] in E.
    apply (commas_unambiguous field_enc (λ kv, (kv.1, norm kv.2))
      (λ kv, canonical kv.2 = true)) in E as [Hn ->].
    + split; [|done]. cbn. by rewrite !sort_fields_fmap, Hn.
    + by right.
    + intros [k x] Hx. unfold field_enc, quote. cbn. rewrite chars_of_chars. cbn. eauto 10.
    + by apply canonical_fields_sorted.
    + pose proof (canonical_fields_sorted _ Hv) as Hv'.
      rewrite <-(sort_fields_Permutation fs) in IH.
      eapply Forall_impl; [exact (proj2 (Forall_and _ _) (conj IH Hv'))|].
      intros [k x] [Hx ?] [k' y] t' u' ??? E'. unfold field_enc in E'.
      cbn in *. rewrite <-!app_assoc in E'. apply quote_inj in E' as [-> E'].
      injection E' as E'. apply Hx in E' as [-> ->]; done.
    + by apply canonical_fields_sorted.
Qed.

Lemma sort_fields_norm fs gs :
  norm (VObj fs) = norm (VObj gs) →
  Forall2 (λ p q, p.1 = q.1 ∧ norm p.2 = norm q.2) (sort_fields fs) (sort_fields gs).
Proof.
  cbn. rewrite !sort_fields_fmap. intros [=E].
  revert E. generalize (sort_fields fs), (sort_fields gs).
  intros l. induction l as [|[k x] l IH]; intros [|[k' y] l'] E; cbn in E;
    simplify_eq/=; constructor; auto.
Qed.

Lemma forallb_Permutation {A} (p : A → bool) l k : l ≡ₚ k → forallb p l = forallb p k.
Proof.
  intros Hp. apply eq_true_iff_eq. rewrite !forallb_Forall. by rewrite Hp.
Qed.

(** The encoding depends on nothing but the value up to the order of keys. *)
Lemma enc_norm v w :
  norm v = norm w → canonical v = canonical w ∧ (canonical v = true → enc v = enc w).
Proof.
  revert w. induction v as [| |b|z|r|z|s|l IH|fs IH] using value_ind'; intros w E;
    destruct w as [| | | | | | |l'|fs']; try discriminate E; try (by simplify_eq/=).
  - cbn in E. injection E as E.
    assert (Forall2 (λ x y, canonical x = canonical y ∧ (canonical x = true → enc x = enc y)) l l')
      as HF.
    { revert l' E. induction IH as [|x l Hx _ IHl]; intros [|y l'] E; cbn in E;
        simplify_eq; constructor; auto. }
    assert (forallb canonical l = forallb canonical l') as Hc.
    { clear IH E. induction HF as [|x y l l' [Hxy _] _ IHl]; cbn; congruence. }
    split; [done|]. intros Hl. cbn in Hl. rewrite !enc_array by congruence.
    do 2 f_equal. f_equal. clear E Hc IH.
    induction HF as [|x y l l' [Hxy He] _ IHl]; [done|]. cbn in Hl.
    apply andb_true_iff in Hl as [Hx Hl]. rewrite !fmap_cons. by rewrite He, IHl.
  - pose proof (sort_fields_norm _ _ E) as HF0.
    rewrite <-(sort_fields_Permutation fs) in IH.
    assert (Forall2 (λ p q : string * value, p.1 = q.1 ∧ canonical p.2 = canonical q.2
      ∧ (canonical p.2 = true → enc p.2 = enc q.2)) (sort_fields fs) (sort_fields fs')) as HF.
    { clear E. revert IH. induction HF0 as [|p q l l' [Hk Hn] _ IHl]; intros IH; inv IH;
        constructor; auto. }
    assert (canonical (VObj fs) = canonical (VObj fs')) as Hc.
    { cbn. rewrite <-(forallb_Permutation _ _ _ (sort_fields_Permutation fs)).
      rewrite <-(forallb_Permutation _ _ _ (sort_fields_Permutation fs')).
      clear -HF. induction HF as [|p q l l' (_ & Hxy & _) _ IHl]; cbn; congruence. }
    split; [done|]. intros Hl. rewrite !enc_object; [|cbn in *; congruence..].
    do 2 f_equal. f_equal. apply canonical_fields_sorted in Hl. clear -HF Hl.
    induction HF as [|p q l l' (Hk & Hc & He) _ IHl]; [done|]. inv Hl.
    rewrite !fmap_cons, IHl by done. f_equal. unfold field_enc. by rewrite Hk, He.
Qed.

Lemma canonicalJson_norm v w : norm v = norm w → canonicalJson v = canonicalJson w.
Proof.
  intros [Hc He]%enc_norm.
  destruct (canonicalJson_decides v) as [Hv Hv'], (canonicalJson_decides w) as [Hw Hw'].
  destruct (canonical v); [|by rewrite Hv', Hw'].
  by rewrite Hv, Hw, He.
Qed.

Lemma canonicalJson_inj v w s :
  canonicalJson v = Ok s → canonicalJson w = Ok s → norm v = norm w.
Proof.
  intros [Hv Ev]%canonicalJson_canonical [Hw Ew]%canonicalJson_canonical.
  apply (enc_unambiguous v w [] []); [done..|]. by rewrite <-Ev, <-Ew.
Qed.

(** Renaming-free rewriting: [norm]-equal values are interchangeable under
    [canonicalJson]. *)
Definition same_document (v w : value) : Prop := norm v = norm w.
#[export] Instance same_document_equiv : Equivalence same_document.
Proof. unfold same_document. split; repeat intro; congruence. Qed.
#[export] Instance canonicalJson_proper : Proper (same_document ==> eq) canonicalJson.
Proof. intros v w. apply canonicalJson_norm. Qed.

Lemma same_document_permutation fs gs :
  NoDup (keys fs) → fs ≡ₚ gs → same_document (VObj fs) (VObj gs).
Proof.
  intros Hnd Hp. unfold same_document. cbn. f_equal. apply sort_fields_unique.
  - unfold keys in *. by rewrite <-list_fmap_compose.
  - by apply fmap_Permutation.
Qed.

(** Two objects written with the same distinct keys in the same order are the same
    document field by field. *)
Lemma norm_fields fs gs :
  norm (VObj fs) = norm (VObj gs) → keys fs = keys gs → NoDup (keys fs) →
  Forall2 (λ p q, p.1 = q.1 ∧ norm p.2 = norm q.2) fs gs.
Proof.
  cbn. intros [= E] Hk Hnd.
  set (f := λ kv : string * value, (kv.1, norm kv.2)) in *.
  assert (f <$> fs ≡ₚ f <$> gs) as Hp
    by (by rewrite <-(sort_fields_Permutation (f <$> fs)), E, sort_fields_Permutation).
  assert (NoDup ((f <$> fs).*1)) as Hnd' by (by rewrite <-list_fmap_compose).
  assert ((f <$> fs).*1 = (f <$> gs).*1) as Hk' by (by rewrite <-!list_fmap_compose).
  assert (f <$> fs = f <$> gs) as Heq.
  { apply list_eq. intros i. destruct ((f <$> fs) !! i) as [x|] eqn:Hx.
    - assert (x ∈ f <$> gs) as [j Hj]%list_elem_of_lookup
        by (rewrite <-Hp; by eapply list_elem_of_lookup_2).
      assert (i = j) as ->; [|done].
      eapply NoDup_lookup; [exact Hnd'| |].
      + by rewrite list_lookup_fmap, Hx.
      + by rewrite Hk', list_lookup_fmap, Hj.
    - symmetry. apply lookup_ge_None. apply lookup_ge_None in Hx.
      by rewrite <-(Permutation_length Hp). }
  clear -Heq. revert gs Heq. induction fs as [|p fs IH]; intros [|q gs] Heq; try done.
  rewrite !fmap_cons in Heq. injection Heq as H1 H2 H3. constructor; auto.
Qed.

(** C1: two values have the same canonical JSON text exactly when they are the
    same document up to the order of object keys: the text a hash is taken over
    determines the value it commits to. *)
Theorem canonicalJson_same_text v w :
  canonical v = true →
  canonicalJson v = canonicalJson w ↔ same_document v w.
Proof.
  intros Hv. split; [|apply canonicalJson_norm].
  intros E. pose proof (proj1 (canonicalJson_decides v) Hv) as Ev.
  apply (canonicalJson_inj _ _ _ Ev). congruence.
Qed.

(** The encoder is total on the values it supports, throws its own error on
    every other one, and does not see the order in which the keys of an object
    were added. *)
Theorem canonicalJson_total_and_order_free v :
  (canonicalJson v = Throw NON_CANONICAL ↔ canonical v = false) ∧
  (∀ fs gs, v = VObj fs → NoDup (keys fs) → fs ≡ₚ gs →
            canonicalJson (VObj gs) = canonicalJson v).
Proof.
  split.
  - destruct (canonicalJson_decides v) as [H1 H2].
    destruct (canonical v); [rewrite H1 by done|]; naive_solver.
  - intros fs gs -> Hnd Hp. by rewrite <-(same_document_permutation fs gs).
Qed.

Lemma canonicalJson_same_text_witness :
  canonicalJson (VObj [("b", VNum 1); ("a", VArr [VStr "x"; VNull])])
  = canonicalJson (VObj [("a", VArr [VStr "x"; VNull]); ("b", VNum 1)]) ↔
  same_document (VObj [("b", VNum 1); ("a", VArr [VStr "x"; VNull])])
                (VObj [("a", VArr [VStr "x"; VNull]); ("b", VNum 1)]).
Proof. apply canonicalJson_same_text. vm_compute. reflexivity. Defined.

Lemma canonicalJson_total_witness :
  canonicalJson (VObj [("b", VNum 1); ("a", VBool true)])
  = canonicalJson (VObj [("a", VBool true); ("b", VNum 1)]).
Proof.
  refine (proj2 (canonicalJson_total_and_order_free
    (VObj [("a", VBool true); ("b", VNum 1)])) _ _ eq_refl _ _).
  - vm_compute. repeat constructor; set_solver.
  - constructor.
Defined.
