(* ===== verification/JsonText.v ===== *)
(** * [JSON.stringify] of flat objects

    The text of an object whose fields are strings, numbers and booleans, in their
    order, determines the object. *)

From S2P Require Import Prelude Js CanonicalJson.

Open Scope Z_scope.

(** [JSON.stringify] of an object of strings, numbers and booleans: the fields in
    their order. *)
Definition stringify_leaf (v : value) : string :=
  match v with
  | VStr s => quote s
  | VNum z => print_int z
  | VBool true => "true"
  | VBool false => "false"
  | _ => "null"
  end.
Definition stringify_fields (fs : list (string * value)) : string :=
  "{" +:+ join "," ((λ kv, print_field (kv.1, stringify_leaf kv.2)) <$> fs) +:+ "}".

Definition leaf (v : value) : Prop := match v with VStr _ | VNum _ | VBool _ => True | _ => False end.

Lemma quote_head s : ∃ l, chars (quote s) = "034"%char :: l.
Proof. unfold quote. rewrite chars_of_chars. by eexists. Qed.

Lemma leaf_unambiguous v w t u :
  leaf v → leaf w → terminator t → terminator u →
  chars (stringify_leaf v) ++ t = chars (stringify_leaf w) ++ u → v = w ∧ t = u.
Proof.
  assert (∀ z, ∃ c l, chars (print_int z) = c :: l ∧ kind_of_char c = 7%nat) as Hint.
  { intros z. destruct (print_int_cons z) as (c & l & Hc & Hl). exists c, l. split; [done|].
    apply numeral_char_kind. cbn in Hl. by apply andb_true_iff in Hl as [? _]. }
  assert (∀ v, leaf v → ∃ c l, chars (stringify_leaf v) = c :: l ∧ kind_of_char c = kind_of_value v) as Hhead.
  { intros [| |[]|z| | |s| |] Hv; try done; cbn [stringify_leaf].
    - by eexists _, _.
    - by eexists _, _.
    - apply Hint.
    - destruct (quote_head s) as [l ->]. by eexists _, _. }
  intros Hv Hw Ht Hu E. destruct (Hhead v Hv) as (c & l & Ec & Hc), (Hhead w Hw) as (d & k & Ed & Hd).
  assert (kind_of_value v = kind_of_value w) as Hkind.
  { rewrite Ec, Ed in E. injection E as -> _. congruence. }
  destruct v as [| |[]|z| | |s| |], w as [| |[]|z'| | |s'| |]; try done; cbn [stringify_leaf] in E.
  - split; [done|]. by apply app_inv_head in E.
  - split; [done|]. by apply app_inv_head in E.
  - by apply print_int_unambiguous in E as [-> ->].
  - by apply quote_inj in E as [-> ->].
Qed.

Lemma stringify_fields_inj fs gs :
  Forall (λ kv, leaf kv.2) fs → Forall (λ kv, leaf kv.2) gs →
  stringify_fields fs = stringify_fields gs → fs = gs.
Proof.
  set (pr := λ kv : string * value, chars (print_field (kv.1, stringify_leaf kv.2))).
  assert (∀ fs, chars (stringify_fields fs) = "{"%char :: commas (pr <$> fs) ++ ["}"%char]) as Hchars.
  { intros fs'. unfold stringify_fields. rewrite !chars_app, chars_join, <-list_fmap_compose. done. }
  intros Hf Hg E. apply (f_equal chars) in E. rewrite !Hchars in E. injection E as E.
  apply (commas_unambiguous pr id (λ kv, leaf kv.2)) in E as [Hn _].
  - by rewrite !list_fmap_id in Hn.
  - by right.
  - intros [k x] _. unfold pr, print_field. cbn [fst snd]. rewrite chars_app.
    destruct (quote_head k) as [l ->]. by eexists _, _.
  - done.
  - eapply Forall_impl; [exact Hf|]. intros [k x] Hx [k' y] t u Hy Ht Hu E'. unfold pr, print_field in E'.
    cbn in *. rewrite !chars_app, <-!app_assoc in E'. apply quote_inj in E' as [-> E'].
    apply app_inv_head in E'. apply leaf_unambiguous in E' as [-> ->]; done.
  - done.
Qed.

(** ** [JSON.stringify] with bigints as strings

    The text that the workers compare documents by:
    [JSON.stringify(v, (_, x) => typeof x === ''bigint'' ? x.toString() : x)]. *)
Fixpoint json_text (v : value) : string :=
  match v with
  | VUndef | VNull => "null"
  | VBool b => if b then "true" else "false"
  | VNum z => print_int z
  | VFrac r => if bool_decide (r ∈ ["NaN"; "Infinity"; "-Infinity"]) then "null" else r
  | VBig z => quote (print_int z)
  | VStr s => quote s
  | VArr l => "[" +:+ join "," (json_text <$> l) +:+ "]"
  | VObj fs =>
      "{" +:+ join "," (flat_map (λ kv, match kv with
                                        | (_, VUndef) => []
                                        | (k, x) => [print_field (k, json_text x)]
                                        end) fs) +:+ "}"
  end.

(** The documents with a text of their own: no undefined, no fraction. *)
Fixpoint plain (v : value) : bool :=
  match v with
  | VNull | VBool _ | VNum _ | VBig _ | VStr _ => true
  | VArr l => forallb plain l
  | VObj fs => forallb (λ kv, plain kv.2) fs
  | VUndef | VFrac _ => false
  end.
(** The document that the text says: a bigint is its numeral. *)
Fixpoint json_image (v : value) : value :=
  match v with
  | VBig z => VStr (print_int z)
  | VArr l => VArr (json_image <$> l)
  | VObj fs => VObj ((λ kv : string * value, (kv.1, json_image kv.2)) <$> fs)
  | v => v
  end.

Definition json_chars (v : value) : list ascii := chars (json_text v).
Definition json_field_chars (kv : string * value) : list ascii :=
  chars (print_field (kv.1, json_text kv.2)).

Lemma json_array l : json_chars (VArr l) = "["%char :: commas (json_chars <$> l) ++ ["]"%char].
Proof. unfold json_chars. cbn. by rewrite !chars_app, chars_join, <-list_fmap_compose. Qed.

Lemma json_object fs :
  forallb (λ kv : string * value, plain kv.2) fs = true →
  json_chars (VObj fs) = "{"%char :: commas (json_field_chars <$> fs) ++ ["}"%char].
Proof.
  intros Hp. unfold json_chars. cbn [json_text].
  assert (flat_map (λ kv : string * value, match kv with
            | (_, VUndef) => [] | (k, x) => [print_field (k, json_text x)] end) fs
          = (λ kv, print_field (kv.1, json_text kv.2)) <$> fs) as ->.
  { induction fs as [|[k x] fs IH]; [done|]. cbn in Hp. apply andb_true_iff in Hp as [Hx Hp].
    cbn. rewrite IH by done. by destruct x. }
  by rewrite !chars_app, chars_join, <-list_fmap_compose.
Qed.

Lemma json_head v :
  plain v = true →
  ∃ c l, json_chars v = c :: l ∧ kind_of_char c = kind_of_value (json_image v) ∧
         kind_of_value (json_image v) ≠ 0%nat.
Proof.
  destruct v as [| |[]|z|r|z|s|l|fs]; intros Hp; try discriminate Hp; unfold json_chars.
  - cbn. eauto.
  - cbn. eauto.
  - cbn. eauto.
  - destruct (print_int_cons z) as (c & l & E & Hl). cbn [json_text]. rewrite E. exists c, l. split; [done|].
    split; [|done]. apply numeral_char_kind. cbn in Hl. by apply andb_true_iff in Hl as [? _].
  - cbn [json_text]. destruct (quote_head (print_int z)) as [l ->]. cbn. eauto.
  - cbn [json_text]. destruct (quote_head s) as [l ->]. cbn. eauto.
  - fold (json_chars (VArr l)). rewrite json_array. cbn. eauto.
  - fold (json_chars (VObj fs)). rewrite json_object by done. cbn. eauto.
Qed.

(** Texts of strings and bigints. *)
Lemma json_string_unambiguous v w t u :
  kind_of_value (json_image v) = 4%nat → kind_of_value (json_image w) = 4%nat →
  json_chars v ++ t = json_chars w ++ u → json_image v = json_image w ∧ t = u.
Proof.
  destruct v as [| |[]| | |z|s| |], w as [| |[]| | |z'|s'| |]; try done; intros _ _ E;
    unfold json_chars in E; cbn [json_text] in E; apply quote_inj in E as [E ->];
    cbn [json_image]; by rewrite E.
Qed.

Lemma json_unambiguous v w t u :
  plain v = true → plain w = true → terminator t → terminator u →
  json_chars v ++ t = json_chars w ++ u → json_image v = json_image w ∧ t = u.
Proof.
  revert w t u. induction v as [| |b|z|r|z|s|l IH|fs IH] using value_ind';
    intros w t u Hv Hw Ht Hu E; try discriminate Hv;
    destruct (json_head _ Hv) as (c & l1 & Ev & Hk & _), (json_head _ Hw) as (d & l2 & Ew & Hk' & _);
    assert (kind_of_value (json_image w) = kind_of_char c) as Hkind
      by (rewrite Ev, Ew in E; injection E as -> _; done);
    rewrite Hk in Hkind; clear l1 l2 Ev Ew Hk Hk';
    try (by apply json_string_unambiguous).
  - destruct w as [| |[]| | | | | |]; try discriminate Hkind. unfold json_chars in E. cbn in E. naive_solver.
  - destruct b, w as [| |[]| | | | | |]; try discriminate Hkind;
      unfold json_chars in E; cbn in E; naive_solver.
  - destruct w as [| |[]|z'| | | | |]; try discriminate Hkind. unfold json_chars in E. cbn in E.
    apply print_int_unambiguous in E as [-> ->]; done.
  - destruct w as [| |[]| | | | |l'|]; try discriminate Hkind. rewrite !json_array in E. injection E as E.
    rewrite <-!app_assoc in E. cbn [app] in E.
    apply (commas_unambiguous json_chars json_image (λ v, plain v = true)) in E as [Hn ->].
    + split; [|done]. cbn. by rewrite Hn.
    + by left.
    + intros x Hx. destruct (json_head x Hx) as (c' & r & ? & Hkc & Hk0). exists c', r.
      split; [done|]. rewrite <-Hkc in Hk0. split; intros ->; by apply Hk0.
    + by apply forallb_Forall.
    + apply forallb_Forall in Hv. eapply Forall_impl; [exact (proj2 (Forall_and _ _) (conj IH Hv))|].
      intros x [Hx ?] y t' u' ??. by apply Hx.
    + by apply forallb_Forall.
  - destruct w as [| |[]| | | | | |fs']; try discriminate Hkind.
    rewrite !json_object in E by done. injection E as E. rewrite <-!app_assoc in E. cbn [app] in E.
    apply (commas_unambiguous json_field_chars (λ kv, (kv.1, json_image kv.2))
      (λ kv, plain kv.2 = true)) in E as [Hn ->].
    + split; [|done]. cbn. by rewrite Hn.
    + by right.
    + intros [k x] Hx. unfold json_field_chars, print_field. cbn [fst snd]. rewrite chars_app.
      destruct (quote_head k) as [l ->]. by eexists _, _.
    + by apply forallb_Forall.
    + apply forallb_Forall in Hv. eapply Forall_impl; [exact (proj2 (Forall_and _ _) (conj IH Hv))|].
      intros [k x] [Hx ?] [k' y] t' u' ??? E'. unfold json_field_chars, print_field in E'.
      cbn [fst snd] in *. rewrite !chars_app, <-!app_assoc in E'. apply quote_inj in E' as [-> E'].
      apply app_inv_head in E'. apply Hx in E' as [-> ->]; done.
    + by apply forallb_Forall.
Qed.

(** Plain documents with the same text are the same document. *)
Lemma json_text_inj v w :
  plain v = true → plain w = true → json_text v = json_text w → json_image v = json_image w.
Proof.
  intros Hv Hw E. apply (json_unambiguous v w [] []); [done..|]. unfold json_chars. by rewrite E.
Qed.

(** ** What a reader finds

    [JSON.parse] of the text: undefined fields are gone, an undefined element and a
    number that is none are null, a bigint is the string of its numeral. *)
Fixpoint reread (v : value) : value :=
  match v with
  | VUndef => VNull
  | VFrac r => if bool_decide (r ∈ ["NaN"; "Infinity"; "-Infinity"]) then VNull else VFrac r
  | VBig z => VStr (print_int z)
  | VArr l => VArr (reread <$> l)
  | VObj fs =>
      VObj (flat_map (λ kv, match kv with (_, VUndef) => [] | (k, x) => [(k, reread x)] end) fs)
  | v => v
  end.

(** A field that is there is read again. *)
Lemma prop_opt_reread fs k x :
  x ≠ VUndef → prop_opt (VObj fs) k = x → prop_opt (reread (VObj fs)) k = reread x.
Proof.
  unfold prop_opt, prop. cbn [reread]. induction fs as [|[j y] fs IH]; cbn; intros Hx E; [by subst x|].
  destruct (decide (k = j)) as [->|Hne].
  - cbn in E. subst y. destruct x; try done; cbn; by rewrite decide_True.
  - destruct y; cbn; try rewrite decide_False by done; by apply IH.
Qed.
