(* ===== verification/Json.v ===== *)
(** * [JSON.parse]

    The reader of the files, packets and stored records the operator loads: white
    space, literals, numbers, strings with their escapes, arrays and objects, a
    repeated key keeping its last value.  A number is a [VNum] when it is a safe
    integer and a [VFrac] with its text otherwise; a string with a code unit above
    255 is outside the model and is refused.  The fuel of the nested reader is the
    length of the text, which every nested call makes shorter.  The theorem is the
    round trip with the canonical printer. *)

From S2P Require Import Prelude Js Hex CanonicalJson.

Open Scope Z_scope.

Definition json_ws (c : ascii) : bool :=
  (code c =? 9) || (code c =? 10) || (code c =? 13) || (code c =? 32).
Fixpoint skip_ws (l : list ascii) : list ascii :=
  match l with
  | c :: l' => if json_ws c then skip_ws l' else l
  | [] => []
  end.

(** The character a one-letter escape stands for. *)
Definition json_escape (c : ascii) : option ascii :=
  if Ascii.eqb c "034" then Some "034"%char
  else if Ascii.eqb c "\" then Some "\"%char
  else if Ascii.eqb c "/" then Some "/"%char
  else if Ascii.eqb c "b" then Some (char_of 8)
  else if Ascii.eqb c "f" then Some (char_of 12)
  else if Ascii.eqb c "n" then Some (char_of 10)
  else if Ascii.eqb c "r" then Some (char_of 13)
  else if Ascii.eqb c "t" then Some (char_of 9)
  else None.

(** A string literal after its opening quote. *)
Fixpoint json_string (l : list ascii) : option (list ascii * list ascii) :=
  match l with
  | [] => None
  | c :: l =>
      if Ascii.eqb c "034" then Some ([], l)
      else if Ascii.eqb c "\" then
        match l with
        | [] => None
        | e :: l =>
            if Ascii.eqb e "u" then
              match l with
              | h1 :: h2 :: h3 :: h4 :: l =>
                  a ← digit_value h1; b ← digit_value h2;
                  c ← digit_value h3; d ← digit_value h4;
                  let unit := 4096 * a + 256 * b + 16 * c + d in
                  if unit <? 256 then
                    '(s, t) ← json_string l; Some (char_of unit :: s, t)
                  else None
              | _ => None
              end
            else
              x ← json_escape e;
              '(s, t) ← json_string l; Some (x :: s, t)
        end
      else if code c <? 32 then None
      else '(s, t) ← json_string l; Some (c :: s, t)
  end.

Fixpoint span_digits (l : list ascii) : list ascii * list ascii :=
  match l with
  | c :: l' =>
      if is_digit c then let '(d, r) := span_digits l' in (c :: d, r) else ([], l)
  | [] => ([], [])
  end.

Definition json_fraction (l : list ascii) : option (list ascii * list ascii) :=
  match l with
  | "."%char :: l =>
      match span_digits l with
      | ([], _) => None
      | (d, r) => Some (d, r)
      end
  | _ => Some ([], l)
  end.
Definition json_exponent (l : list ascii) : option (Z * list ascii) :=
  match l with
  | c :: l' =>
      if Ascii.eqb c "e" || Ascii.eqb c "E" then
        let '(neg, l') :=
          match l' with
          | "-"%char :: l'' => (true, l'')
          | "+"%char :: l'' => (false, l'')
          | _ => (false, l')
          end in
        let '(d, r) := span_digits l' in
        e ← parse_digits 10 d; Some (if neg : bool then - e else e, r)
      else Some (0, l)
  | [] => Some (0, [])
  end.

(** The double of [mantissa * 10 ^ exponent], [text] being its literal. *)
Definition json_number_value (neg : bool) (mantissa exponent : Z) (text : string) : value :=
  let z :=
    if exponent =? 0 then Some mantissa
    else if mantissa =? 0 then Some 0
    else if (0 <=? exponent) && (exponent <=? 16) then Some (mantissa * 10 ^ exponent)
    else if (exponent <? 0) && (-400 <=? exponent) then
      if mantissa mod 10 ^ (- exponent) =? 0 then Some (mantissa / 10 ^ (- exponent)) else None
    else None in
  match z with
  | Some z => if safe_integer z then VNum (if neg then - z else z) else VFrac text
  | None => VFrac text
  end.

Definition json_number (l : list ascii) : option (value * list ascii) :=
  let '(neg, l0) := match l with "-"%char :: l0 => (true, l0) | _ => (false, l) end in
  match span_digits l0 with
  | ([], _) => None
  | (d :: ds, r) =>
      if Ascii.eqb d "0" && negb (bool_decide (ds = [])) then None
      else
        '(f, r) ← json_fraction r;
        '(e, r) ← json_exponent r;
        m ← parse_digits 10 ((d :: ds) ++ f);
        Some (json_number_value neg m (e - Z.of_nat (length f))
                (of_chars (take (length l - length r) l)), r)
  end.

Fixpoint json_literal (text l : list ascii) : option (list ascii) :=
  match text, l with
  | [], _ => Some l
  | c :: text, d :: l => if Ascii.eqb c d then json_literal text l else None
  | _, [] => None
  end.

(** One value, the elements after [[] and the members after [{]. *)
Fixpoint json_value (fuel : nat) (l : list ascii) : option (value * list ascii) :=
  match fuel with
  | O => None
  | S fuel =>
      match skip_ws l with
      | [] => None
      | c :: r =>
          if Ascii.eqb c "n" then t ← json_literal (chars "ull") r; Some (VNull, t)
          else if Ascii.eqb c "t" then t ← json_literal (chars "rue") r; Some (VBool true, t)
          else if Ascii.eqb c "f" then t ← json_literal (chars "alse") r; Some (VBool false, t)
          else if Ascii.eqb c "034" then '(s, t) ← json_string r; Some (VStr (of_chars s), t)
          else if Ascii.eqb c "[" then
            match skip_ws r with
            | "]"%char :: t => Some (VArr [], t)
            | _ => '(vs, t) ← json_items fuel r; Some (VArr vs, t)
            end
          else if Ascii.eqb c "{" then
            match skip_ws r with
            | "}"%char :: t => Some (VObj [], t)
            | _ => '(fs, t) ← json_members fuel r []; Some (VObj fs, t)
            end
          else json_number (c :: r)
      end
  end
with json_items (fuel : nat) (l : list ascii) : option (list value * list ascii) :=
  match fuel with
  | O => None
  | S fuel =>
      '(v, r) ← json_value fuel l;
      match skip_ws r with
      | ","%char :: r => '(vs, t) ← json_items fuel r; Some (v :: vs, t)
      | "]"%char :: t => Some ([v], t)
      | _ => None
      end
  end
with json_members (fuel : nat) (l : list ascii) (fs : list (string * value))
    : option (list (string * value) * list ascii) :=
  match fuel with
  | O => None
  | S fuel =>
      match skip_ws l with
      | "034"%char :: r =>
          '(k, r) ← json_string r;
          match skip_ws r with
          | ":"%char :: r =>
              '(v, r) ← json_value fuel r;
              let fs := assoc_set (of_chars k) v fs in
              match skip_ws r with
              | ","%char :: r => json_members fuel r fs
              | "}"%char :: t => Some (fs, t)
              | _ => None
              end
          | _ => None
          end
      | _ => None
      end
  end.

(** [JSON.parse(s)] *)
Definition JSON_parse (s : string) : result value :=
  from_option_or "SyntaxError"
    ('(v, r) ← json_value (S (String.length s)) (chars s);
     match skip_ws r with [] => Some v | _ => None end).

(** ** Reading back what the canonical printer wrote *)

Lemma not_ws_of_kind c : kind_of_char c ≠ 0%nat → json_ws c = false.
Proof. by_all_chars c. Qed.

Lemma skip_ws_cons c l : json_ws c = false → skip_ws (c :: l) = c :: l.
Proof. intros Hc. cbn. by rewrite Hc. Qed.

Lemma json_string_quote_char c l :
  json_string (quote_char c ++ l) = ('(s, t) ← json_string l; Some (c :: s, t)).
Proof. destruct c as [[] [] [] [] [] [] [] []]; reflexivity. Qed.

Lemma json_string_quoted l t :
  json_string (flat_map quote_char l ++ "034"%char :: t) = Some (l, t).
Proof.
  induction l as [|c l IH]; [done|]. cbn [flat_map]. rewrite <-app_assoc.
  by rewrite json_string_quote_char, IH.
Qed.

Lemma chars_quote s t :
  chars (quote s) ++ t = "034"%char :: flat_map quote_char (chars s) ++ "034"%char :: t.
Proof. unfold quote. rewrite chars_of_chars. cbn. by rewrite <-app_assoc. Qed.

Lemma span_digits_app l t :
  forallb is_digit l = true → (∀ c t', t = c :: t' → is_digit c = false) →
  span_digits (l ++ t) = (l, t).
Proof.
  intros Hl Ht. induction l as [|c l IH]; cbn in *.
  - destruct t as [|c t]; [done|]. cbn. by rewrite (Ht c t).
  - apply andb_true_iff in Hl as [-> Hl]. by rewrite IH.
Qed.

Lemma digit_char_zero d : 0 < d < 10 → digit_char d ≠ "0"%char.
Proof.
  intros Hd E. pose proof (digit_value_char 10 d ltac:(lia) ltac:(lia)) as Hv.
  rewrite E in Hv. vm_compute in Hv. injection Hv as <-. lia.
Qed.

Lemma digits_go_head fuel n acc :
  0 < n < 10 ^ Z.of_nat fuel → ∃ c l, digits_go fuel 10 n acc = c :: l ∧ c ≠ "0"%char.
Proof.
  revert n acc. induction fuel as [|fuel IH]; intros n acc Hn.
  { change (Z.of_nat 0) with 0 in Hn. rewrite Z.pow_0_r in Hn. lia. }
  cbn [digits_go]. destruct (Z.ltb_spec n 10) as [Hlt|Hge].
  - rewrite Z.mod_small by lia. eexists _, _. split; [done|]. apply digit_char_zero. lia.
  - rewrite Nat2Z.inj_succ, Z.pow_succ_r in Hn by lia. apply IH. split.
    + assert (1 <= n / 10) by (apply Z.div_le_lower_bound; lia). lia.
    + apply Z.div_lt_upper_bound; lia.
Qed.

Lemma print_base_head n :
  0 <= n → ∃ c l, chars (print_base 10 n) = c :: l ∧ (c = "0"%char → l = []).
Proof.
  intros Hn. destruct (decide (n = 0)) as [->|Hn0]; [by exists "0"%char, []|].
  unfold print_base. rewrite chars_of_chars.
  destruct (digits_go_head (S (Z.to_nat (Z.log2 n))) n []) as (c & l & E & Hc).
  - pose proof (print_base_fuel 10 n ltac:(lia) Hn). lia.
  - exists c, l. by split.
Qed.

Lemma digit_not_minus c : is_digit c = true → c ≠ "-"%char.
Proof. by intros Hc ->. Qed.

Lemma terminator_stops t c t' :
  terminator t → t = c :: t' → is_digit c = false ∧ c ≠ "."%char ∧
    (Ascii.eqb c "e" || Ascii.eqb c "E")%char = false ∧ json_ws c = false.
Proof. intros Ht ->. cbn in Ht. by destruct Ht as [->|[->| ->]]. Qed.

(** The part of [json_number] after the sign. *)
Lemma json_number_digits neg n l0 l t :
  0 <= n → safe_integer n = true → terminator t →
  l0 = chars (print_base 10 n) ++ t →
  (match span_digits l0 with
   | ([], _) => None
   | (d :: ds, r) =>
      if Ascii.eqb d "0" && negb (bool_decide (ds = [])) then None
      else
        '(f, r) ← json_fraction r;
        '(e, r) ← json_exponent r;
        m ← parse_digits 10 ((d :: ds) ++ f);
        Some (json_number_value neg m (e - Z.of_nat (length f))
                (of_chars (take (length l - length r) l)), r)
   end) = Some (VNum (if neg : bool then - n else n), t).
Proof.
  intros Hn Hs Ht ->. pose proof (print_base_digits n Hn) as Hd.
  rewrite span_digits_app; [|done|intros c t' E; by eapply terminator_stops].
  destruct (print_base_head n Hn) as (d & ds & E & H0). pose proof (parse_print_base 10 n ltac:(lia) Hn) as Hp.
  rewrite E in Hp |- *.
  replace (Ascii.eqb d "0" && negb (bool_decide (ds = []))) with false.
  2: { destruct (Ascii.eqb_spec d "0") as [->|]; [|done]. by rewrite bool_decide_true by auto. }
  assert (json_fraction t = Some ([], t)) as ->.
  { destruct t as [|c t]; [done|]. unfold json_fraction.
    destruct (terminator_stops _ c t Ht eq_refl) as (_ & Hc & _). repeat (case_match; try done). }
  cbn [mbind option_bind].
  assert (json_exponent t = Some (0, t)) as ->.
  { destruct t as [|c t]; [done|]. unfold json_exponent.
    by destruct (terminator_stops _ c t Ht eq_refl) as (_ & _ & -> & _). }
  cbn [mbind option_bind]. rewrite app_nil_r, Hp. cbn [mbind option_bind length].
  unfold json_number_value. change (0 - Z.of_nat 0 =? 0) with true. cbv iota zeta. by rewrite Hs.
Qed.

Lemma json_number_print z t :
  safe_integer z = true → terminator t →
  json_number (chars (print_int z) ++ t) = Some (VNum z, t).
Proof.
  intros Hs Ht. unfold json_number, print_int. destruct (Z.ltb_spec z 0) as [Hz|Hz].
  - rewrite chars_app. cbn [chars String.list_ascii_of_string app].
    erewrite (json_number_digits true (- z)); [by rewrite Z.opp_involutive|lia| |done|done].
    unfold safe_integer in *. by rewrite Z.abs_opp.
  - destruct (print_base_head z Hz) as (d & ds & E & _).
    assert (is_digit d = true) as Hd.
    { pose proof (print_base_digits z Hz) as Hd. rewrite E in Hd. cbn in Hd.
      by apply andb_true_iff in Hd as [? _]. }
    assert (∀ l, (match d :: l with "-"%char :: l0 => (true, l0) | _ => (false, d :: l) end)
      = (false, d :: l)) as Hsign.
    { intros l. apply digit_not_minus in Hd. repeat (case_match; try done). }
    rewrite E. cbn [app]. rewrite Hsign.
    change (d :: ds ++ t) with ((d :: ds) ++ t). rewrite <-E.
    by apply (json_number_digits false z).
Qed.

Lemma enc_not_ws v c l : canonical v = true → enc v = c :: l → json_ws c = false.
Proof.
  intros Hc E. destruct (enc_head v Hc) as (c' & l' & E' & Hk & Hn).
  rewrite E in E'. injection E' as <- <-. apply not_ws_of_kind. by rewrite Hk.
Qed.

Definition reads_back (v : value) : Prop := ∀ fuel t,
  terminator t → (length (enc v) ≤ fuel)%nat → json_value fuel (enc v ++ t) = Some (norm v, t).

Lemma terminator_comma t : terminator (","%char :: t).
Proof. by left. Qed.
Lemma terminator_bracket t : terminator ("]"%char :: t).
Proof. right. by left. Qed.
Lemma terminator_brace t : terminator ("}"%char :: t).
Proof. right. by right. Qed.

Lemma json_items_enc l t fuel :
  l ≠ [] → Forall reads_back l → (length (commas (enc <$> l)) < fuel)%nat →
  json_items fuel (commas (enc <$> l) ++ "]"%char :: t) = Some (norm <$> l, t).
Proof.
  intros Hne Hl. revert fuel. induction Hl as [|v l Hv Hl IH]; intros fuel Hf; [done|].
  rewrite fmap_cons, commas_cons in Hf |- *. rewrite length_app in Hf.
  destruct fuel as [|fuel]; [lia|]. cbn [json_items]. rewrite <-app_assoc.
  destruct l as [|w l].
  - rewrite Hv by (apply terminator_bracket || (cbn in *; lia)). cbn. done.
  - rewrite fmap_cons in Hf |- *. cbn [length] in Hf. rewrite Hv by (apply terminator_comma || lia).
    cbn [mbind option_bind app]. rewrite skip_ws_cons by done.
    rewrite <-fmap_cons. rewrite IH by (done || (rewrite ?fmap_cons; lia)). done.
Qed.

Lemma json_members_enc l acc t fuel :
  l ≠ [] → Forall (λ kv, reads_back kv.2) l →
  (length (commas (field_enc <$> l)) < fuel)%nat →
  json_members fuel (commas (field_enc <$> l) ++ "}"%char :: t) acc
  = Some (foldl (λ fs kv, assoc_set kv.1 (norm kv.2) fs) acc l, t).
Proof.
  intros Hne Hl. revert fuel acc. induction Hl as [|[k v] l Hv Hl IH]; intros fuel acc Hf; [done|].
  rewrite fmap_cons, commas_cons in Hf |- *. rewrite length_app in Hf.
  destruct fuel as [|fuel]; [lia|]. cbn [json_members].
  assert (length (enc v) ≤ fuel)%nat as Hlen.
  { unfold field_enc in Hf. cbn [fst snd] in Hf. rewrite length_app in Hf. cbn in Hf. lia. }
  unfold field_enc at 1. cbn [fst snd]. rewrite <-!app_assoc, chars_quote.
  rewrite skip_ws_cons by done. cbn [app]. rewrite json_string_quoted.
  cbn [mbind option_bind]. rewrite skip_ws_cons by done. cbv iota. cbn in Hv.
  rewrite of_chars_chars. destruct l as [|kw l].
  - cbn [fmap list_fmap app]. rewrite Hv by (apply terminator_brace || done). done.
  - rewrite fmap_cons in Hf |- *. cbn [length app] in Hf |- *.
    rewrite Hv by (apply terminator_comma || done).
    cbn [mbind option_bind app]. rewrite skip_ws_cons by done.
    rewrite <-fmap_cons. rewrite IH by (done || (rewrite ?fmap_cons; lia)). done.
Qed.

Lemma assoc_set_new {A} k (v : A) fs : k ∉ keys fs → assoc_set k v fs = fs ++ [(k, v)].
Proof.
  unfold keys. induction fs as [|[k' w] fs IH]; cbn; [done|]. intros Hk.
  rewrite decide_False by set_solver. rewrite IH by set_solver. done.
Qed.

Lemma assoc_set_fold (g : value → value) l acc :
  NoDup (keys acc ++ keys l) →
  foldl (λ fs kv, assoc_set kv.1 (g kv.2) fs) acc l
  = acc ++ ((λ kv : string * value, (kv.1, g kv.2)) <$> l).
Proof.
  revert acc. induction l as [|[k v] l IH]; intros acc Hnd; cbn [foldl fst snd].
  { by rewrite app_nil_r. }
  cbn [keys fmap list_fmap fst] in Hnd. rewrite assoc_set_new.
  - rewrite IH, fmap_cons, <-app_assoc; [done|].
    unfold keys in *. rewrite fmap_app, <-app_assoc. exact Hnd.
  - apply NoDup_app in Hnd as (_ & Hd & _). intros Hk. apply (Hd k Hk). by left.
Qed.

Lemma commas_nonempty (s : list ascii) l t :
  s ≠ [] → ∃ c r, commas (s :: l) ++ t = c :: r ∧ head s = Some c.
Proof.
  intros Hs. rewrite commas_cons. destruct s as [|c s]; [done|].
  rewrite <-app_assoc. cbn. eauto.
Qed.

Lemma json_value_enc v : canonical v = true → wf_value v → reads_back v.
Proof.
  induction v as [| |b|z|r|z|s|l IH|fs IH] using value_ind'; intros Hc Hwf; try done;
    intros fuel t Ht Hf; destruct fuel as [|fuel];
    try (destruct (enc_head _ Hc) as (? & ? & E & _); rewrite E in Hf; cbn in Hf; lia).
  - unfold enc. reflexivity.
  - unfold enc. destruct b; reflexivity.
  - cbn [json_value]. destruct (enc_head _ Hc) as (c & l & E & Hk & _).
    rewrite E. cbn [app]. rewrite skip_ws_cons by (by eapply enc_not_ws).
    assert (json_number (c :: l ++ t) = Some (VNum z, t)) as Hn.
    { change (c :: l ++ t) with ((c :: l) ++ t). rewrite <-E. unfold enc. cbn in Hc |- *.
      rewrite Hc. by apply json_number_print. }
    cbn in Hk. unfold kind_of_char in Hk. repeat (case_match; try done).
  - unfold enc. cbn [canonicalJson]. rewrite chars_quote. cbn [json_value].
    rewrite skip_ws_cons by done. change (Ascii.eqb "034" "n") with false. cbn.
    rewrite json_string_quoted. cbn. by rewrite of_chars_chars.
  - rewrite enc_array in Hf |- * by done. cbn in Hc.
    assert (Forall reads_back l) as Hrb.
    { apply forallb_Forall in Hc. clear Hf. induction IH as [|x l Hx _ IHl]; [constructor|].
      apply Forall_cons in Hc as [? ?]. destruct Hwf. constructor; auto. }
    cbn [json_value app]. rewrite skip_ws_cons by done. cbn [Ascii.eqb Bool.eqb].
    destruct l as [|x l]; [done|].
    rewrite <-app_assoc. cbn [app].
    assert (∃ c r, commas (enc <$> (x :: l)) ++ "]"%char :: t = c :: r ∧ json_ws c = false ∧
      c ≠ "]"%char) as (c & r & E & Hws & Hne).
    { cbn in Hc. apply andb_true_iff in Hc as [Hx _].
      destruct (enc_head x Hx) as (c & l1 & E & Hk & Hk0).
      rewrite fmap_cons, E. destruct (commas_nonempty (c :: l1) (enc <$> l) ("]"%char :: t))
        as (c' & r & E' & [= <-]); [done|]. exists c, r. split; [done|].
      split; [by eapply enc_not_ws|]. intros ->. by rewrite <-Hk in Hk0. }
    rewrite E, skip_ws_cons by done.
    assert (json_items fuel (c :: r) = Some (norm <$> (x :: l), t)) as Hi.
    { rewrite <-E. apply json_items_enc; [done..|]. cbn in Hf.
      rewrite length_app in Hf. cbn in *. lia. }
    rewrite Hi. repeat (case_match; try done).
  - rewrite enc_object in Hf |- * by done. cbn in Hc. destruct Hwf as [Hnd Hwf].
    pose proof (canonical_fields_sorted _ Hc) as Hcs.
    assert (Forall (λ kv : string * value, reads_back kv.2) (sort_fields fs)) as Hrb.
    { rewrite sort_fields_Permutation. apply forallb_Forall in Hc. clear Hf Hnd Hcs.
      induction IH as [|x l Hx _ IHl]; [constructor|].
      apply Forall_cons in Hc as [? ?]. destruct Hwf. constructor; auto. }
    assert (NoDup (keys (sort_fields fs))) as Hnd'.
    { unfold keys in *. by rewrite sort_fields_Permutation. }
    cbn [norm]. rewrite sort_fields_fmap.
    cbn [json_value app]. rewrite skip_ws_cons by done. cbn [Ascii.eqb Bool.eqb].
    destruct (sort_fields fs) as [|x l]; [done|]. clear IH Hnd Hwf Hc.
    rewrite <-app_assoc. cbn [app].
    destruct (commas_nonempty (field_enc x) (field_enc <$> l) ("}"%char :: t))
      as (c & r & E & Hhd); [unfold field_enc, quote; rewrite chars_of_chars; done|].
    assert (c = "034"%char) as ->.
    { unfold field_enc, quote in Hhd. rewrite chars_of_chars in Hhd. by injection Hhd. }
    assert (json_members fuel ("034"%char :: r) []
      = Some (((λ kv : string * value, (kv.1, norm kv.2)) <$> (x :: l)), t)) as Hm.
    { rewrite <-E, <-fmap_cons, json_members_enc; [|done..|].
      - by rewrite (assoc_set_fold norm).
      - cbn in Hf. rewrite length_app in Hf. cbn in *. lia. }
    rewrite fmap_cons, E, skip_ws_cons by done. rewrite Hm. done.
Qed.

(** [JSON.parse] of the canonical text of a value is that document: parsing
    ends, accepts the text and returns the value with its keys in sorted order. *)
Lemma JSON_parse_canonical v s :
  canonicalJson v = Ok s → wf_value v → JSON_parse s = Ok (norm v).
Proof.
  intros [Hc E]%canonicalJson_canonical Hwf. unfold JSON_parse.
  rewrite E, <-(app_nil_r (enc v)). rewrite (json_value_enc v Hc Hwf); [done..|].
  rewrite <-E, length_chars. lia.
Qed.

(** [BigInt] of the decimal text of an integer is that integer. *)
Lemma numeral_char_not_space c : numeral_char c = true → is_space c = false.
Proof. by_all_chars c. Qed.
Lemma digit_char_cases c : is_digit c = true →
  c ≠ "-"%char ∧ c ≠ "+"%char ∧
  (Ascii.eqb c "x" || Ascii.eqb c "X" = false ∧ Ascii.eqb c "o" || Ascii.eqb c "O" = false ∧
   Ascii.eqb c "b" || Ascii.eqb c "B" = false)%char.
Proof. by_all_chars c. Qed.

Lemma string_to_bigint_print_int z : string_to_bigint (print_int z) = Some z.
Proof.
  unfold string_to_bigint. rewrite trim_id.
  2: { destruct (print_int_cons z) as (c & l & -> & Hl). apply forallb_Forall in Hl.
       eapply Forall_impl; [done|]. cbn. intros d. apply numeral_char_not_space. }
  unfold print_int. destruct (Z.ltb_spec z 0) as [Hz|Hz].
  - change (chars ("-" +:+ print_base 10 (- z))) with ("-"%char :: chars (print_base 10 (- z))).
    cbn [Ascii.eqb Bool.eqb]. rewrite parse_print_base by lia. cbn. f_equal. lia.
  - pose proof (parse_print_base 10 z ltac:(lia) Hz) as Hp.
    pose proof (print_base_digits z Hz) as Hd. destruct (print_base_head z Hz) as (c & l & E & Hc).
    rewrite E in Hp, Hd |- *. cbn in Hd. apply andb_true_iff in Hd as [Hd Hl].
    destruct (digit_char_cases c Hd) as (Hm & Hpl & _).
    destruct (decide (c = "0"%char)) as [->|H0].
    + rewrite (Hc eq_refl) in Hp |- *. exact Hp.
    + rewrite <-Hp. destruct c as [[] [] [] [] [] [] [] []]; try reflexivity; by exfalso.
Qed.
