(* ===== verification/Interpolation.v ===== *)
(** * Lagrange interpolation at zero over a field

    The algebra the threshold scheme rests on, over an arbitrary field: the
    weights of [lagrangeCoefficientAtZero] recover the constant term of every
    polynomial with at most as many coefficients as there are nodes. *)

From S2P Require Import Prelude.
From Stdlib Require Import Field.

Section interpolation.
Context {F : Type} (zero one : F) (add mul sub : F → F → F) (opp : F → F).
Context (div : F → F → F) (inv : F → F).
Context (Ffield : field_theory zero one add mul sub opp div inv eq).
Context `{EqDecision F}.

Add Field interpolation_field : Ffield.

Local Notation "x - y" := (sub x y).
Local Notation "x * y" := (mul x y).
Local Notation "x / y" := (div x y).
Local Notation "x + y" := (add x y).
Local Notation "1" := one.
Local Notation "0" := zero.

(** Products and sums over a list. *)
Fixpoint fprod (f : F → F) (l : list F) : F :=
  match l with [] => 1 | x :: l => f x * fprod f l end.
Fixpoint fsum (f : F → F) (l : list F) : F :=
  match l with [] => 0 | x :: l => f x + fsum f l end.

(** The nodes other than [x]. *)
Definition others (x : F) (l : list F) : list F := filter (λ y, y ≠ x) l.

(** The weight of node [x] among the nodes [l]. *)
Definition weight (x : F) (l : list F) : F :=
  fprod (λ y, y) (others x l) / fprod (λ y, y - x) (others x l).

(** A polynomial by its coefficients, constant term first. *)
Fixpoint peval (c : list F) (x : F) : F :=
  match c with [] => 0 | a :: c => a + x * peval c x end.

Definition interpolate (l : list F) (f : F → F) : F :=
  fsum (λ x, weight x l * f x) l.

Lemma sub_neq x y : x ≠ y → y - x ≠ 0.
Proof.
  intros Hxy E. apply Hxy. transitivity (x + (y - x)); [|ring].
  rewrite E. ring.
Qed.

Lemma one_neq_zero : 1 ≠ 0.
Proof. apply Ffield. Qed.

Lemma mul_neq_zero a b : a ≠ 0 → b ≠ 0 → a * b ≠ 0.
Proof.
  intros Ha Hb E. apply Hb. transitivity ((inv a) * (a * b)); [field; done|].
  rewrite E. ring.
Qed.

Lemma others_cons x y l :
  others x (y :: l) = if decide (y = x) then others x l else y :: others x l.
Proof.
  unfold others. rewrite filter_cons.
  destruct (decide (y = x)), (decide (y ≠ x)); try done; tauto.
Qed.

Lemma elem_of_others x y l : y ∈ others x l ↔ y ≠ x ∧ y ∈ l.
Proof. unfold others. by rewrite list_elem_of_filter. Qed.

Lemma fprod_neq_zero f l : (∀ x, x ∈ l → f x ≠ 0) → fprod f l ≠ 0.
Proof.
  induction l as [|x l IH]; intros Hl; cbn; [apply one_neq_zero|].
  apply mul_neq_zero; [apply Hl; set_solver|]. apply IH. set_solver.
Qed.

Lemma others_prod_neq x l : fprod (λ y, y - x) (others x l) ≠ 0.
Proof.
  apply fprod_neq_zero. intros y [Hy _]%elem_of_others. by apply sub_neq.
Qed.

Lemma fsum_ext f g l : (∀ x, x ∈ l → f x = g x) → fsum f l = fsum g l.
Proof.
  induction l as [|x l IH]; intros Hl; cbn; [done|].
  rewrite (Hl x), IH by set_solver. done.
Qed.

Lemma fsum_add f g l : fsum (λ x, f x + g x) l = fsum f l + fsum g l.
Proof. induction l as [|x l IH]; cbn; [ring|rewrite IH; ring]. Qed.

Lemma fsum_scale a f l : fsum (λ x, a * f x) l = a * fsum f l.
Proof. induction l as [|x l IH]; cbn; [ring|rewrite IH; ring]. Qed.

(** Adding a node multiplies the weights of the others by one factor. *)
Lemma weight_cons x a l :
  x ≠ a → weight x (a :: l) = weight x l * (a / (a - x)).
Proof.
  intros Hxa. unfold weight. rewrite others_cons, decide_False by done. cbn.
  pose proof (others_prod_neq x l). pose proof (sub_neq x a Hxa). field. done.
Qed.

Lemma weight_head a l : a ∉ l → weight a (a :: l) = weight a l.
Proof. intros. unfold weight. by rewrite others_cons, decide_True. Qed.

Lemma weight_swap x a b l : weight x (a :: b :: l) = weight x (b :: a :: l).
Proof.
  unfold weight. rewrite !others_cons.
  destruct (decide (a = x)), (decide (b = x)); cbn; try done.
  f_equal; ring.
Qed.

(** Neville's recursion: the interpolant on [a :: b :: l] from the ones that
    leave out [b] and [a]. *)
Lemma interpolate_neville a b l f :
  a ≠ b → a ∉ l → b ∉ l →
  interpolate (a :: b :: l) f
  = (b * interpolate (a :: l) f - a * interpolate (b :: l) f) / (b - a).
Proof.
  intros Hab Ha Hb. pose proof (sub_neq a b Hab) as Hba.
  unfold interpolate. cbn.
  rewrite (weight_swap a a b), (weight_cons a b (a :: l)), !weight_head by set_solver.
  rewrite (weight_cons b a (b :: l)), weight_head by set_solver.
  assert (fsum (λ x, weight x (a :: b :: l) * f x) l
    = (b * fsum (λ x, weight x (a :: l) * f x) l
       - a * fsum (λ x, weight x (b :: l) * f x) l) / (b - a)) as ->.
  { transitivity (fsum (λ x, (b / (b - a)) * (weight x (a :: l) * f x)
      + (opp a / (b - a)) * (weight x (b :: l) * f x)) l).
    - apply fsum_ext. intros x Hx.
      assert (x ≠ a ∧ x ≠ b) as [Hxa Hxb] by set_solver.
      rewrite !weight_cons by done.
      pose proof (sub_neq x a Hxa). pose proof (sub_neq x b Hxb). field. done.
    - rewrite fsum_add, !fsum_scale. field. done. }
  pose proof (sub_neq b a (not_eq_sym Hab)). field. split; [done|].
  intros E. by apply H.
Qed.

(** The weights sum to one. *)
Lemma interpolate_const l : NoDup l → l ≠ [] → interpolate l (λ _, 1) = 1.
Proof.
  remember (length l) as n eqn:Hn. revert l Hn.
  induction n as [|n IH]; intros l Hn Hl Hne; [by destruct l|].
  destruct l as [|a [|b l]]; [done| |].
  - unfold interpolate. cbn [fsum]. rewrite weight_head by set_solver.
    unfold weight. cbn. field. apply one_neq_zero.
  - inv Hl. match goal with H : NoDup (b :: l) |- _ => inv H end. cbn in Hn.
    rewrite interpolate_neville by set_solver.
    rewrite !IH; [|cbn; lia|constructor; set_solver|done|cbn; lia|constructor; set_solver|done].
    field. apply sub_neq. set_solver.
Qed.

Lemma peval_zero c : peval c 0 = match c with [] => 0 | a :: _ => a end.
Proof. destruct c; cbn; [done|ring]. Qed.

(** Division by [X - a]: the quotient has one coefficient less. *)
Lemma peval_divide c a :
  ∃ q, length q = pred (length c) ∧
    ∀ x, peval c x = peval c a + (x - a) * peval q x.
Proof.
  induction c as [|c0 c (q & Hq & IH)]; cbn.
  { exists []. split; [done|]. intros x. cbn. ring. }
  destruct c as [|c1 c].
  - exists []. split; [done|]. intros x. cbn. ring.
  - exists (peval (c1 :: c) a :: q). split; [cbn in *; lia|]. intros x.
    rewrite IH. cbn [peval]. ring.
Qed.

Theorem interpolate_poly l c :
  NoDup l → (length c ≤ length l)%nat → l ≠ [] → interpolate l (peval c) = peval c 0.
Proof.
  revert c. induction l as [|a l IH]; intros c Hnd Hlen Hne; [done|].
  destruct (peval_divide c a) as (q & Hq & Hdiv).
  assert (interpolate (a :: l) (peval c)
    = peval c a * interpolate (a :: l) (λ _, 1)
      + fsum (λ x, weight x (a :: l) * ((x - a) * peval q x)) (a :: l)) as ->.
  { unfold interpolate. rewrite <-fsum_scale, <-fsum_add.
    apply fsum_ext. intros x _. rewrite Hdiv. ring. }
  rewrite interpolate_const by done. inv Hnd.
  assert (fsum (λ x, weight x (a :: l) * ((x - a) * peval q x)) (a :: l)
    = opp a * interpolate l (peval q)) as ->.
  { unfold interpolate. cbn. rewrite <-fsum_scale.
    replace (a - a) with 0 by ring.
    transitivity (fsum (λ x, weight x (a :: l) * ((x - a) * peval q x)) l); [ring|].
    apply fsum_ext. intros x Hx.
    assert (x ≠ a) as Hxa by (intros ->; done).
    rewrite weight_cons by done. pose proof (sub_neq x a Hxa). field. done. }
  destruct l as [|b l].
  { unfold interpolate. cbn. destruct c as [|c0 [|? ?]]; cbn in *; [ring|ring|lia]. }
  rewrite IH; [|done|cbn in *; lia|done].
  rewrite (Hdiv 0). ring.
Qed.

(** No weight is zero when no node is. *)
Lemma weight_neq_zero x l : (∀ y, y ∈ l → y ≠ 0) → weight x l ≠ 0.
Proof.
  intros Hl. unfold weight.
  assert (fprod (λ y, y) (others x l) ≠ 0) as Hn.
  { apply fprod_neq_zero. intros y [_ Hy]%elem_of_others. auto. }
  pose proof (others_prod_neq x l) as Hd. intros E. apply Hn.
  transitivity ((fprod (λ y, y) (others x l) / fprod (λ y, y - x) (others x l))
    * fprod (λ y, y - x) (others x l)); [field; done|].
  rewrite E. ring.
Qed.
End interpolation.
