(* ===== verification/Vendor.v ===== *)
(** * Code the operator calls and this repository does not contain

    ethers, noble-curves, node:crypto and the URL parser are parameters, one
    class of operations per library; what the operator relies on is stated
    beside each class as a class of laws.  A theorem that needs no law does not
    mention the law classes. *)

From S2P Require Import Prelude Js Hex.

Open Scope Z_scope.

(** ** ethers: bytes, hex strings, Keccak, ABI encoding, checksummed addresses *)
Class Ethers := {
  isHexString : string → nat → bool;     (* [isHexString(value, length)] *)
  getBytes : string → option bytes;      (* throws on anything but hex bytes *)
  hexlify : bytes → string;
  keccak256 : bytes → string;
  toUtf8Bytes : string → bytes;
  getAddress : string → option string;   (* throws on an invalid address *)
  abi_encode : list string → list value → bytes
}.

Class EthersLaws `{Ethers} : Prop := {
  hexlify_spec b : hexlify b = hex_of_bytes b;
  getBytes_spec s b : getBytes s = Some b ↔ lower s = hex_of_bytes b;
  isHexString_spec s n :
    isHexString s n = true ↔
    ∃ b l, chars s = "0"%char :: "x"%char :: l ∧ getBytes s = Some b ∧ length b = n;
  keccak_hex b : isHexString (keccak256 b) 32 = true;
  keccak_lower b : lower (keccak256 b) = keccak256 b;
  getAddress_hex a b : getAddress a = Some b → isHexString b 20 = true;
  getAddress_idem a b : getAddress a = Some b → getAddress b = Some b;
  getAddress_lower a b : getAddress a = Some b → getAddress (lower b) = Some b;
  getAddress_bytes b : length b = 20%nat → is_Some (getAddress (hex_of_bytes b));
  toUtf8Bytes_inj s t : toUtf8Bytes s = toUtf8Bytes t → s = t
}.

(** ** noble-curves: the two BLS12-381 groups and the pairing

    A group is the prime-order subgroup: [c_decode] is [fromHex] followed by
    [assertValidity]; both throw on what is not a point of the subgroup. *)
Class Curve (G : Type) := {
  c_eq_dec :: EqDecision G;
  c_zero : G;
  c_add : G → G → G;
  c_multiply : Z → G → result G;
  c_decode : bytes → result G;
  c_encode : G → bytes                   (* [toRawBytes(false)] *)
}.

(** [n] times a point. *)
Fixpoint nsmul `{Curve G} (n : nat) (P : G) : G :=
  match n with O => c_zero | S n => c_add P (nsmul n P) end.

Class NobleBls := {
  G1 : Type; G2 : Type; GT : Type;
  gt_eq_dec :: EqDecision GT;
  curve1 :: Curve G1;
  curve2 :: Curve G2;
  order : Z;                             (* [bls.params.r] *)
  base2 : G2;                            (* [bls.G2.ProjectivePoint.BASE] *)
  hashToCurve : bytes → string → result G1;
  pairing : G1 → G2 → result GT
}.

(** The scalar action on a group of order [order]. *)
Definition smul `{NobleBls} `{Curve G} (k : Z) (P : G) : G :=
  nsmul (Z.to_nat (k mod order)) P.

Class CurveLaws `{NobleBls} (G : Type) `{Curve G} : Prop := {
  c_add_comm (P Q : G) : c_add P Q = c_add Q P;
  c_add_assoc (P Q R : G) : c_add P (c_add Q R) = c_add (c_add P Q) R;
  c_add_zero (P : G) : c_add c_zero P = P;
  c_order (P : G) : nsmul (Z.to_nat order) P = c_zero;
  c_multiply_ok k (P : G) : 0 < k < order → c_multiply k P = Ok (nsmul (Z.to_nat k) P);
  c_multiply_out k (P : G) : ¬ (0 < k < order) → ∃ e, c_multiply k P = Throw e;
  c_decode_encode (P : G) : c_decode (c_encode P) = Ok P
}.

Class BlsLaws `{NobleBls} : Prop := {
  order_prime : Z.prime order;
  order_bits : order < 2 ^ 256;
  laws1 :: CurveLaws G1;
  laws2 :: CurveLaws G2;
  encode1_length (P : G1) : length (c_encode P) = 96%nat;
  encode2_length (P : G2) : length (c_encode P) = 192%nat;
  encode2_zero : c_encode (c_zero : G2) = "064"%char :: replicate 191 "000"%char;
  base2_order k : smul k base2 = c_zero → k mod order = 0;
  pairing_total (P : G1) (Q : G2) : P ≠ c_zero → Q ≠ c_zero → ∃ t, pairing P Q = Ok t;
  pairing_move k (P : G1) (Q : G2) :
    k mod order ≠ 0 → pairing (smul k P) Q = pairing P (smul k Q);
  pairing_base_inj (P Q : G1) t : pairing P base2 = Ok t → pairing Q base2 = Ok t → P = Q
}.

(** ** node:crypto: Ed25519 signatures over raw public keys *)
Class NodeCrypto := {
  ed_private : Type;
  ed_sign : bytes → ed_private → bytes;          (* [sign(null, data, key)] *)
  ed_verify : bytes → bytes → bytes → bool;      (* [verify(null, data, raw key, signature)] *)
  ed_public : ed_private → bytes                 (* the raw public key of a private key *)
}.

Class NodeCryptoLaws `{NodeCrypto} : Prop := {
  ed_verify_sign data key : ed_verify data (ed_public key) (ed_sign data key) = true;
  ed_sign_length data key : length (ed_sign data key) = 64%nat
}.

(** ** node:crypto: key agreement and authenticated encryption

    [x_shared] is [diffieHellman] of a private key and a raw public key; [hkdf]
    is HKDF-SHA256 without salt to 32 bytes; [aes_seal] and [aes_open] are
    AES-256-GCM under a key, an IV and associated data, [None] when the tag does
    not authenticate. *)
Class SealCrypto := {
  x_private : Type;
  x_public : x_private → bytes;
  x_shared : x_private → bytes → option bytes;
  sha256 : bytes → bytes;
  hkdf : bytes → bytes → bytes;                          (* shared secret, info *)
  aes_seal : bytes → bytes → bytes → bytes → bytes * bytes;   (* key iv aad plaintext *)
  aes_open : bytes → bytes → bytes → bytes → bytes → option bytes (* key iv aad ciphertext tag *)
}.

Class SealCryptoLaws `{SealCrypto} : Prop := {
  x_agree a b : x_shared a (x_public b) = x_shared b (x_public a);
  x_shared_total a b : is_Some (x_shared a (x_public b));
  x_public_length a : length (x_public a) = 32%nat;
  aes_open_seal key iv aad plain :
    aes_open key iv aad (aes_seal key iv aad plain).1 (aes_seal key iv aad plain).2 = Some plain;
  aes_seal_length key iv aad plain :
    length (aes_seal key iv aad plain).1 = length plain;
  aes_tag_length key iv aad plain : length (aes_seal key iv aad plain).2 = 16%nat
}.

(** ** node:crypto and Buffer: password hashing, PKCS#8 keys and UTF-8

    [scrypt] takes the password, the salt and the parameters N, r and p; the
    exports write a base64 DER private key
    and the imports read it; [utf8_decode] is [toString('utf8')]. *)
Class KeyStorage `{NodeCrypto, SealCrypto} := {
  scrypt : string → bytes → Z → Z → Z → option bytes;
  ed_import : value → option ed_private;
  x_import : value → option x_private;
  ed_export : ed_private → string;
  x_export : x_private → string;
  utf8_decode : bytes → string
}.

Class KeyStorageLaws `{Ethers, KeyStorage} : Prop := {
  scrypt_total password salt N r p : 1024 <= N → is_Some (scrypt password salt N r p);
  ed_import_export k : ed_import (VStr (ed_export k)) = Some k;
  x_import_export k : x_import (VStr (x_export k)) = Some k;
  utf8_decode_encode s : utf8_decode (toUtf8Bytes s) = s
}.

(** [String.prototype.localeCompare], as the order it defines. *)
Class LocaleApi := { locale_le : string → string → bool }.

(** ** The WHATWG URL parser *)
Record url := {
  url_protocol : string; url_hostname : string; url_username : string;
  url_password : string; url_hash : string; url_href : string; url_origin : string
}.
Class UrlApi := { parse_url : string → option url }.

(** ** Hex strings, from the laws of ethers *)
Section hex.
Context `{Ethers, !EthersLaws}.

Lemma hex_of_bytes_lower b : lower (hex_of_bytes b) = hex_of_bytes b.
Proof.
  apply chars_inj. unfold lower. rewrite chars_of_chars, chars_hex_of_bytes, !fmap_cons.
  do 2 f_equal. symmetry. apply bytes_of_hex_lower, bytes_of_hex_concat.
Qed.

Lemma hexlify_lower b : lower (hexlify b) = hexlify b.
Proof. rewrite hexlify_spec. apply hex_of_bytes_lower. Qed.

Lemma getBytes_hexlify b : getBytes (hexlify b) = Some b.
Proof. apply getBytes_spec. rewrite hexlify_spec. apply hex_of_bytes_lower. Qed.

Lemma getBytes_hex s b : getBytes s = Some b → lower s = hexlify b.
Proof. intros E%getBytes_spec. by rewrite hexlify_spec. Qed.

Lemma hexlify_chars b :
  chars (hexlify b) = "0"%char :: "x"%char :: concat (hex_of_byte <$> b).
Proof. rewrite hexlify_spec. apply chars_hex_of_bytes. Qed.

Lemma isHexString_bytes s n :
  isHexString s n = true → ∃ b, getBytes s = Some b ∧ length b = n.
Proof. intros (b & l & _ & ? & ?)%isHexString_spec. eauto. Qed.

Lemma isHexString_hexlify b : isHexString (hexlify b) (length b) = true.
Proof.
  apply isHexString_spec. exists b, (concat (hex_of_byte <$> b)).
  split; [apply hexlify_chars|]. split; [apply getBytes_hexlify|done].
Qed.

Lemma isHexString_lower s n : isHexString s n = true → isHexString (lower s) n = true.
Proof.
  intros (b & Hb & <-)%isHexString_bytes. apply getBytes_hex in Hb as ->.
  apply isHexString_hexlify.
Qed.

Lemma getBytes_lower s b : getBytes s = Some b → getBytes (lower s) = Some b.
Proof. intros Hb. rewrite (getBytes_hex s b) by done. apply getBytes_hexlify. Qed.

Lemma hexlify_inj a b : hexlify a = hexlify b → a = b.
Proof. intros E. apply (f_equal getBytes) in E. rewrite !getBytes_hexlify in E. congruence. Qed.
End hex.
#[export] Hint Rewrite @getBytes_hexlify @hexlify_lower using apply _ : vrf.

(** ** The scalar action, from the group laws *)
Section scalars.
Context `{NobleBls} `{Curve G} `{!CurveLaws G}.
Implicit Types P Q : G.

Lemma c_add_zero_r P : c_add P c_zero = P.
Proof. by rewrite c_add_comm, c_add_zero. Qed.

Lemma nsmul_add n m P : nsmul (n + m) P = c_add (nsmul n P) (nsmul m P).
Proof.
  induction n as [|n IH]; cbn; [by rewrite c_add_zero|].
  by rewrite IH, c_add_assoc.
Qed.

Lemma nsmul_zero_point n : nsmul n (c_zero : G) = c_zero.
Proof. induction n as [|n IH]; cbn; [done|]. by rewrite IH, c_add_zero. Qed.

Lemma nsmul_mul n m P : nsmul (n * m) P = nsmul n (nsmul m P).
Proof. induction n as [|n IH]; cbn; [done|]. by rewrite nsmul_add, IH. Qed.

Lemma nsmul_add_point n P Q : nsmul n (c_add P Q) = c_add (nsmul n P) (nsmul n Q).
Proof.
  induction n as [|n IH]; cbn; [by rewrite c_add_zero|]. rewrite IH.
  rewrite !c_add_assoc. f_equal. rewrite <-!c_add_assoc. f_equal. apply c_add_comm.
Qed.

Context (Hpos : 0 < order).

(** Multiples of a point depend on the scalar modulo the order. *)
Lemma nsmul_smul n P : nsmul n P = smul (Z.of_nat n) P.
Proof.
  unfold smul. set (q := Z.to_nat (Z.of_nat n / order)).
  pose proof (Z.mod_pos_bound (Z.of_nat n) order Hpos).
  replace n with (q * Z.to_nat order + Z.to_nat (Z.of_nat n mod order))%nat at 1.
  - by rewrite nsmul_add, nsmul_mul, c_order, nsmul_zero_point, c_add_zero.
  - apply Nat2Z.inj. rewrite Nat2Z.inj_add, Nat2Z.inj_mul. subst q.
    rewrite !Z2Nat.id by (try apply Z.div_pos; lia).
    rewrite (Z.div_mod (Z.of_nat n) order) at 3 by lia. lia.
Qed.

Lemma smul_mod k P : smul (k mod order) P = smul k P.
Proof. unfold smul. by rewrite Z.mod_mod by lia. Qed.

Lemma smul_congr k l P : k mod order = l mod order → smul k P = smul l P.
Proof. unfold smul. by intros ->. Qed.

Lemma smul_add k l P : smul (k + l) P = c_add (smul k P) (smul l P).
Proof.
  unfold smul at 2 3. rewrite <-nsmul_add, nsmul_smul. apply smul_congr.
  pose proof (Z.mod_pos_bound k order Hpos). pose proof (Z.mod_pos_bound l order Hpos).
  rewrite Nat2Z.inj_add, !Z2Nat.id by lia. by rewrite <-Zplus_mod.
Qed.

Lemma smul_mul k l P : smul (k * l) P = smul k (smul l P).
Proof.
  unfold smul at 2 3. rewrite <-nsmul_mul, nsmul_smul. apply smul_congr.
  pose proof (Z.mod_pos_bound k order Hpos). pose proof (Z.mod_pos_bound l order Hpos).
  rewrite Nat2Z.inj_mul, !Z2Nat.id by lia. by rewrite <-Zmult_mod.
Qed.

Lemma smul_0 P : smul 0 P = c_zero.
Proof. unfold smul. by rewrite Z.mod_0_l by lia. Qed.

Lemma smul_1 P : 1 < order → smul 1 P = P.
Proof. intros. unfold smul. rewrite Z.mod_small by lia. apply c_add_zero_r. Qed.

Lemma smul_zero_point k : smul k (c_zero : G) = c_zero.
Proof. apply nsmul_zero_point. Qed.

Lemma smul_add_point k P Q : smul k (c_add P Q) = c_add (smul k P) (smul k Q).
Proof. apply nsmul_add_point. Qed.

(** Adding the opposite multiple cancels. *)
Lemma c_add_cancel_l P Q R : c_add P Q = c_add P R → Q = R.
Proof.
  intros E. apply (f_equal (c_add (smul (-1) P))) in E.
  rewrite !c_add_assoc in E. destruct (Z.eq_dec order 1) as [Ho|Ho].
  - assert (∀ S : G, S = c_zero) as Hall; [|by rewrite (Hall Q), (Hall R)].
    intros S. pose proof (c_order S) as E'. rewrite Ho in E'.
    change (c_add S c_zero = c_zero) in E'. by rewrite c_add_zero_r in E'.
  - assert (c_add (smul (-1) P) P = c_zero) as Hz.
    { rewrite <-(smul_1 P) at 2 by lia. rewrite <-smul_add. apply smul_0. }
    by rewrite Hz, !c_add_zero in E.
Qed.

(** Noble's [multiply] is the scalar action where it does not throw. *)
Lemma c_multiply_Ok k P Q :
  c_multiply k P = Ok Q ↔ 0 < k < order ∧ Q = smul k P.
Proof.
  destruct (decide (0 < k < order)) as [Hk|Hk].
  - rewrite c_multiply_ok by done. unfold smul. rewrite Z.mod_small by lia. naive_solver.
  - destruct (c_multiply_out k P Hk) as [e ->]. naive_solver.
Qed.

Lemma c_multiply_smul k P : 0 < k < order → c_multiply k P = Ok (smul k P).
Proof. intros. by apply c_multiply_Ok. Qed.

(** Encodings determine the point. *)
Lemma c_encode_inj P Q : c_encode P = c_encode Q → P = Q.
Proof.
  intros E. assert (Ok P = Ok Q) as [=]; [|done].
  by rewrite <-(c_decode_encode P), E, c_decode_encode.
Qed.
End scalars.
