(* ===== verification/Samples.v ===== *)
(** * A small concrete instance of the vendor interfaces

    The witnesses of the theorems evaluate the operator's code on these: hex
    strings as ethers prints them, a digest that is a checksum, and a group of
    prime order 101 whose pairing is the product of the exponents. *)

From S2P Require Import Prelude Js Hex CanonicalJson Json Vendor.
From Stdlib Require Import Field Zmod.

Open Scope Z_scope.

(** ** ethers *)
Definition sample_getBytes (s : string) : option bytes :=
  match chars s with
  | "0"%char :: x :: l =>
      if (Ascii.eqb x "x" || Ascii.eqb x "X")%char then bytes_of_hex l else None
  | _ => None
  end.
(** [isHexString] takes no upper-case [0X]. *)
Definition hex_prefix (l : list ascii) : bool :=
  match l with x :: y :: _ => (Ascii.eqb x "0" && Ascii.eqb y "x")%char | _ => false end.
Definition sample_isHexString (s : string) (n : nat) : bool :=
  hex_prefix (chars s) &&
  match sample_getBytes s with Some b => (length b =? n)%nat | None => false end.

(** A 32-byte checksum. *)
Definition sample_keccak256 (b : bytes) : string :=
  hex_of_bytes (replicate 31 "000"%char ++
    [char_of (foldl (λ h c, (h * 31 + code c) mod 251) 7 b)]).
Definition sample_getAddress (s : string) : option string :=
  if sample_isHexString s 20 then Some (lower s) else None.

Definition sample_ethers : Ethers := {|
  isHexString := sample_isHexString;
  getBytes := sample_getBytes;
  hexlify := hex_of_bytes;
  keccak256 := sample_keccak256;
  toUtf8Bytes := chars;
  getAddress := sample_getAddress;
  abi_encode := λ types values,
    chars (join "," types +:+ ":" +:+ join "," (to_str <$> values))
|}.

Lemma lower_char_x x : lower_char x = "x"%char ↔ (Ascii.eqb x "x" || Ascii.eqb x "X")%char = true.
Proof. by_all_chars x. Qed.
Lemma lower_char_0 x : lower_char x = "0"%char ↔ x = "0"%char.
Proof. by_all_chars x. Qed.

Lemma sample_getBytes_spec s b : sample_getBytes s = Some b ↔ lower s = hex_of_bytes b.
Proof.
  transitivity (lower_char <$> chars s = "0"%char :: "x"%char :: concat (hex_of_byte <$> b)).
  2: { rewrite <-chars_hex_of_bytes. unfold lower. split.
       - intros ->. apply of_chars_chars.
       - intros E. by rewrite <-E, chars_of_chars. }
  assert (∀ y l, (if (Ascii.eqb y "x" || Ascii.eqb y "X")%char then bytes_of_hex l else None)
      = Some b ↔
    lower_char y :: (lower_char <$> l) = "x"%char :: concat (hex_of_byte <$> b)) as Hy.
  { intros y l. destruct (_ || _) eqn:E.
    - apply lower_char_x in E. rewrite E. split.
      + intros Hl%bytes_of_hex_lower. by rewrite Hl.
      + intros [= Hl]. rewrite <-bytes_of_hex_lower_chars, Hl. apply bytes_of_hex_concat.
    - split; [done|]. intros [= Hx _]. apply lower_char_x in Hx. congruence. }
  unfold sample_getBytes. destruct (chars s) as [|x l]; [done|].
  destruct (decide (x = "0"%char)) as [->|Hx].
  - destruct l as [|y l]; [done|]. rewrite Hy, !fmap_cons.
    change (lower_char "0"%char) with "0"%char. split; [by intros ->|by intros [= -> ->]].
  - rewrite fmap_cons. split.
    + intros E. exfalso. apply Hx. repeat (case_match; try done).
    + intros E. exfalso. apply Hx. apply (proj1 (lower_char_0 x)). congruence.
Qed.

Lemma sample_getBytes_hex_of_bytes b : sample_getBytes (hex_of_bytes b) = Some b.
Proof.
  unfold sample_getBytes. rewrite chars_hex_of_bytes. cbn. apply bytes_of_hex_concat.
Qed.

Lemma sample_isHexString_spec s n :
  sample_isHexString s n = true ↔
  ∃ b l, chars s = "0"%char :: "x"%char :: l ∧ sample_getBytes s = Some b ∧ length b = n.
Proof.
  assert (hex_prefix (chars s) = true ↔ ∃ l, chars s = "0"%char :: "x"%char :: l) as Hs.
  { destruct (chars s) as [|x [|y l]]; cbn; try (split; [done|by intros []]).
    rewrite andb_true_iff, !Ascii.eqb_eq. naive_solver. }
  unfold sample_isHexString. rewrite andb_true_iff, Hs.
  destruct (sample_getBytes s) as [b|]; [rewrite Nat.eqb_eq|]; naive_solver.
Qed.

Lemma sample_isHexString_hexlify b : sample_isHexString (hex_of_bytes b) (length b) = true.
Proof.
  apply sample_isHexString_spec. exists b, (concat (hex_of_byte <$> b)).
  split_and!; [apply chars_hex_of_bytes|apply sample_getBytes_hex_of_bytes|done].
Qed.

Lemma sample_ethers_laws : @EthersLaws sample_ethers.
Proof.
  assert (∀ a b, sample_getAddress a = Some b →
    ∃ r, length r = 20%nat ∧ b = hex_of_bytes r) as Haddr.
  { intros a b. unfold sample_getAddress. destruct (sample_isHexString a 20) eqn:Ha; [|done].
    intros [= <-]. apply sample_isHexString_spec in Ha as (r & _ & _ & Hr & Hl).
    exists r. split; [done|]. by apply sample_getBytes_spec. }
  assert (∀ r, lower (hex_of_bytes r) = hex_of_bytes r) as Hlow.
  { intros r. apply sample_getBytes_spec, sample_getBytes_hex_of_bytes. }
  assert (∀ r, length r = 20%nat → sample_getAddress (hex_of_bytes r) = Some (hex_of_bytes r))
    as Hr.
  { intros r Hl. unfold sample_getAddress. rewrite <-Hl, sample_isHexString_hexlify.
    by rewrite Hlow. }
  split; cbn.
  - done.
  - apply sample_getBytes_spec.
  - apply sample_isHexString_spec.
  - intros b. exact (sample_isHexString_hexlify (replicate 31 "000"%char ++ [_])).
  - intros b. apply Hlow.
  - intros a b (r & Hl & ->)%Haddr. rewrite <-Hl. apply sample_isHexString_hexlify.
  - intros a b (r & Hl & ->)%Haddr. auto.
  - intros a b (r & Hl & ->)%Haddr. rewrite Hlow. auto.
  - intros b Hb. rewrite Hr by done. eauto.
  - apply chars_inj.
Qed.

(** ** A group of prime order *)
Definition sample_order : Z := 101.
Abbreviation sample_group := (Zmod 101).

#[global] Instance sample_group_eq_dec : EqDecision sample_group := λ a b,
  match decide (Zmod.to_Z a = Zmod.to_Z b) with
  | left E => left (Zmod.to_Z_inj _ a b E)
  | right N => right (λ E, N (f_equal Zmod.to_Z E))
  end.

Definition sample_encode (n : nat) (P : sample_group) : bytes :=
  (if decide (Zmod.to_Z P = 0) then "064"%char else "000"%char)
    :: replicate n "000"%char ++ [char_of (Zmod.to_Z P)].
Definition sample_decode (n : nat) (b : bytes) : result sample_group :=
  let P := Zmod.of_Z 101 (code (default "000"%char (last b))) in
  if decide (b = sample_encode n P) then Ok P else Throw "invalid point".
Definition sample_multiply (k : Z) (P : sample_group) : result sample_group :=
  if (0 <? k) && (k <? 101) then Ok (Zmod.mul (Zmod.of_Z 101 k) P)
  else Throw "invalid scalar".

Definition sample_curve (n : nat) : Curve sample_group := {|
  c_zero := Zmod.zero; c_add := Zmod.add; c_multiply := sample_multiply;
  c_decode := sample_decode n; c_encode := sample_encode n
|}.

Definition sample_bls : NobleBls := {|
  G1 := sample_group; G2 := sample_group; GT := sample_group;
  curve1 := sample_curve 94; curve2 := sample_curve 190;
  order := 101; base2 := Zmod.one;
  hashToCurve := λ m _,
    Ok (Zmod.of_Z 101 (1 + foldl (λ h c, h * 31 + code c) 7 m mod 100));
  pairing := λ P Q, Ok (Zmod.mul P Q)
|}.

Lemma prime_by_division p :
  1 < p → forallb (λ k, negb (p mod k =? 0)) (seqZ 2 (p - 2)) = true → Z.prime p.
Proof.
  intros Hp Hall. split; [done|]. intros n Hn Hdiv. apply Z.mod_divide in Hdiv; [|lia].
  rewrite forallb_forall in Hall. specialize (Hall n). rewrite Hdiv in Hall.
  discriminate Hall. apply list_elem_of_In, elem_of_seqZ. lia.
Qed.
Lemma prime_101 : Z.prime 101.
Proof. apply prime_by_division; [lia|vm_refl]. Qed.

Lemma sample_field :
  field_theory Zmod.zero Zmod.one (@Zmod.add 101) Zmod.mul Zmod.sub Zmod.opp
    Zmod.mdiv Zmod.inv eq.
Proof. apply Zmod.field_theory, prime_101. Qed.
Add Field sample_field_instance : sample_field.

Lemma sample_nsmul n k (P : sample_group) :
  @nsmul _ (sample_curve n) k P = Zmod.mul (Zmod.of_Z 101 (Z.of_nat k)) P.
Proof.
  induction k as [|k IH].
  - change (Z.of_nat 0) with 0. rewrite Zmod.of_Z_0. cbn. ring.
  - cbn [nsmul]. rewrite IH, Nat2Z.inj_succ, <-Z.add_1_l, Zmod.of_Z_add, Zmod.of_Z_1.
    cbn. ring.
Qed.

Lemma sample_order_zero : Zmod.of_Z 101 101 = Zmod.zero.
Proof. reflexivity. Qed.

Lemma sample_decode_encode n P : sample_decode n (sample_encode n P) = Ok P.
Proof.
  assert (last (sample_encode n P) = Some (char_of (Zmod.to_Z P))) as El
    by (unfold sample_encode; by rewrite app_comm_cons, last_snoc).
  unfold sample_decode. rewrite El. cbn [from_option id].
  pose proof (Zmod.unsigned_pos_bound P ltac:(lia)).
  rewrite code_char_of by lia. rewrite Zmod.of_Z_to_Z. by rewrite decide_True.
Qed.

Lemma sample_curve_laws n : @CurveLaws sample_bls sample_group (sample_curve n).
Proof.
  split.
  - intros P Q. cbn. ring.
  - intros P Q R. cbn. ring.
  - intros P. cbn. ring.
  - intros P. rewrite sample_nsmul. change (Z.of_nat (Z.to_nat order)) with 101.
    rewrite sample_order_zero. cbn. ring.
  - intros k P Hk. rewrite sample_nsmul, Z2Nat.id by lia. cbn in *.
    unfold sample_multiply. by rewrite (proj2 (Z.ltb_lt 0 k)), (proj2 (Z.ltb_lt k 101)) by lia.
  - intros k P Hk. cbn in *. unfold sample_multiply.
    destruct (Z.ltb_spec 0 k), (Z.ltb_spec k 101); cbn; eauto. lia.
  - apply sample_decode_encode.
Qed.

Lemma sample_smul n k (P : sample_group) :
  @smul sample_bls _ (sample_curve n) k P = Zmod.mul (Zmod.of_Z 101 k) P.
Proof.
  unfold smul. rewrite sample_nsmul. cbn.
  rewrite Z2Nat.id by (apply Z.mod_pos_bound; lia). f_equal.
  apply Zmod.of_Z_inj. by rewrite Z.mod_mod by lia.
Qed.

Lemma sample_bls_laws : @BlsLaws sample_bls.
Proof.
  split.
  - apply prime_101.
  - reflexivity.
  - apply sample_curve_laws.
  - apply sample_curve_laws.
  - reflexivity.
  - reflexivity.
  - reflexivity.
  - intros k. rewrite (sample_smul 190). cbn [base2 sample_bls c_zero curve2 sample_curve].
    intros E. apply (f_equal Zmod.to_Z) in E. rewrite Zmod.unsigned_mul in E.
    rewrite Zmod.to_Z_of_Z in E. change (Zmod.to_Z Zmod.one) with 1 in E.
    change (Zmod.to_Z Zmod.zero) with 0 in E.
    by rewrite Z.mul_1_r, Z.mod_mod in E by lia.
  - intros P Q _ _. eexists. reflexivity.
  - intros k P Q _. pose proof (sample_smul 94 k P) as E1.
    pose proof (sample_smul 190 k Q) as E2. cbn in P, Q, E1, E2 |- *.
    rewrite E1, E2. f_equal. ring.
  - intros P Q t HP HQ. change G1 with sample_group in P, Q. change GT with sample_group in t.
    change (Ok (Zmod.mul P Zmod.one) = Ok t) in HP.
    change (Ok (Zmod.mul Q Zmod.one) = Ok t) in HQ.
    change (@eq sample_group P Q). transitivity (Zmod.mul P Zmod.one); [ring|].
    transitivity (Zmod.mul Q Zmod.one); [congruence|ring].
Qed.

(** ** Signatures and URLs

    A signature is a checksum of the data and the public key, a private key is its
    public key, and a URL is a scheme and a host name. *)
Definition sample_ed_sign (data key : bytes) : bytes :=
  replicate 63 "000"%char ++
    [char_of (foldl (λ h c, (h * 17 + code c) mod 251) 3 (data ++ key))].
Definition sample_crypto : NodeCrypto := {|
  ed_private := bytes; ed_sign := sample_ed_sign; ed_public := λ key, key;
  ed_verify := λ data key signature, bool_decide (signature = sample_ed_sign data key)
|}.
Lemma sample_crypto_laws : @NodeCryptoLaws sample_crypto.
Proof.
  split; [|reflexivity]. intros data key. cbn. by rewrite bool_decide_true.
Qed.

Definition sample_parse_url (s : string) : option url :=
  if starts_with "https://" s then
    let host := strip_slash (of_chars (drop 8 (chars s))) in
    Some {| url_protocol := "https:"; url_hostname := host; url_username := "";
            url_password := ""; url_hash := ""; url_href := "https://" +:+ host +:+ "/";
            url_origin := "https://" +:+ host |}
  else None.
Definition sample_url : UrlApi := {| parse_url := sample_parse_url |}.

(** Key agreement multiplies two bytes; encryption adds a key byte to every byte
    and tags with a checksum. *)
Definition sample_x_public (k : Z) : bytes := replicate 31 "000"%char ++ [char_of (k mod 256)].
Definition shift_byte (k : Z) (c : ascii) : ascii := char_of ((code c + k) mod 256).
Definition sample_tag (key iv aad ct : bytes) : bytes :=
  replicate 15 "000"%char ++
    [char_of (foldl (λ h c, (h * 13 + code c) mod 251) 5 (key ++ iv ++ aad ++ ct))].
Definition key_byte (key : bytes) : Z := code (default "000"%char (last key)).
Definition sample_seal : SealCrypto := {|
  x_private := Z; x_public := sample_x_public;
  x_shared := λ k p, Some (sample_x_public (k * code (default "000"%char (last p))));
  sha256 := λ b, b;
  hkdf := λ s info, s;
  aes_seal := λ key iv aad plain,
    let ct := shift_byte (key_byte key) <$> plain in (ct, sample_tag key iv aad ct);
  aes_open := λ key iv aad ct tag,
    if bool_decide (tag = sample_tag key iv aad ct)
    then Some (shift_byte (- key_byte key) <$> ct) else None
|}.

Lemma shift_byte_inv k c : shift_byte (- k) (shift_byte k c) = c.
Proof.
  unfold shift_byte. rewrite code_char_of by (apply Z.mod_pos_bound; lia).
  rewrite Zplus_mod_idemp_l. replace (code c + k + - k) with (code c) by lia.
  rewrite Z.mod_small by apply code_bound. apply char_of_code.
Qed.

Lemma last_x_public k : code (default "000"%char (last (sample_x_public k))) = k mod 256.
Proof.
  unfold sample_x_public. rewrite last_snoc. cbn [from_option id].
  rewrite code_char_of; [done|]. apply Z.mod_pos_bound. lia.
Qed.

Lemma sample_seal_laws : @SealCryptoLaws sample_seal.
Proof.
  split.
  - intros a b.
    change (Some (sample_x_public (a * code (default "000"%char (last (sample_x_public b)))))
      = Some (sample_x_public (b * code (default "000"%char (last (sample_x_public a)))))).
    rewrite !last_x_public. unfold sample_x_public.
    by rewrite Zmult_mod_idemp_r, (Z.mul_comm b), Zmult_mod_idemp_l.
  - intros a b. cbn. eauto.
  - intros a. change (length (sample_x_public a) = 32%nat). unfold sample_x_public.
    by rewrite length_app, length_replicate.
  - intros key iv aad plain. cbn. rewrite bool_decide_true by done. f_equal.
    rewrite <-list_fmap_compose. transitivity (id <$> plain); [|apply list_fmap_id].
    apply list_fmap_ext. intros i c _. apply shift_byte_inv.
  - intros. cbn. by rewrite length_fmap.
  - reflexivity.
Qed.

(** Key storage: the password hash is the salt, a private key is written as hex
    bytes, or as the number of an agreement key. *)
Definition sample_storage : @KeyStorage sample_crypto sample_seal := {|
  scrypt := λ _ salt _ _ _, Some salt;
  ed_import := λ v, s ← as_string v; sample_getBytes s;
  x_import := λ v, s ← as_string v; string_to_bigint s;
  ed_export := λ k : @ed_private sample_crypto, hex_of_bytes k;
  x_export := λ k : @x_private sample_seal, print_int k;
  utf8_decode := of_chars
|}.
Lemma sample_getBytes_hex b : sample_getBytes (hex_of_bytes b) = Some b.
Proof. exact (@getBytes_hexlify sample_ethers sample_ethers_laws b). Qed.
Lemma sample_storage_laws : @KeyStorageLaws sample_ethers sample_crypto sample_seal sample_storage.
Proof.
  split.
  - intros. cbn. eauto.
  - exact sample_getBytes_hex.
  - exact string_to_bigint_print_int.
  - exact of_chars_chars.
Qed.
Definition sample_locale : LocaleApi := {| locale_le := String.leb |}.
