(* ===== verification/ScalarField.v ===== *)
(** * Arithmetic modulo a prime on plain integers

    The bridge between the integers the operator computes with and the field
    [Zmod m]: polynomials and interpolation weights as congruences, and the
    extended Euclidean loop shared by the two modular inversions of the code. *)

From S2P Require Import Prelude Interpolation.
From Stdlib Require Import Field Znumtheory Zmod.

Open Scope Z_scope.

(** A polynomial by its coefficients, constant term first. *)
Fixpoint zpeval (c : list Z) (x : Z) : Z :=
  match c with [] => 0 | a :: c => a + x * zpeval c x end.
Fixpoint zprod (f : Z → Z) (l : list Z) : Z :=
  match l with [] => 1 | x :: l => f x * zprod f l end.
Fixpoint zsum (f : Z → Z) (l : list Z) : Z :=
  match l with [] => 0 | x :: l => f x + zsum f l end.

Section field.
Context (m : Z) (Hm : Z.prime m).

(** [w] is the Lagrange weight at zero of node [x] among the nodes [l]. *)
Definition is_weight (x : Z) (l : list Z) (w : Z) : Prop :=
  (w * zprod (λ y, y - x) (others x l)) mod m = zprod (λ y, y) (others x l) mod m.

Local Abbreviation F := (Zmod m).
Local Abbreviation of_F := (Zmod.of_Z m).

Local Instance F_eq_dec : EqDecision F.
Proof.
  intros a b. destruct (decide (Zmod.to_Z a = Zmod.to_Z b)) as [E|E].
  - left. by apply Zmod.to_Z_inj.
  - right. by intros ->.
Defined.

Local Lemma F_field :
  field_theory Zmod.zero Zmod.one (@Zmod.add m) Zmod.mul Zmod.sub Zmod.opp
    Zmod.mdiv Zmod.inv eq.
Proof. by apply Zmod.field_theory. Qed.
Add Field F_field_instance : F_field.

Local Abbreviation fweight :=
  (weight (F:=F) Zmod.one Zmod.mul Zmod.sub Zmod.mdiv).
Local Abbreviation fpeval := (peval (F:=F) Zmod.zero Zmod.add Zmod.mul).

Lemma prime_gt_1 : 1 < m.
Proof. apply Hm. Qed.

Lemma of_F_eq x y : of_F x = of_F y ↔ x mod m = y mod m.
Proof. apply Zmod.of_Z_inj. Qed.

Lemma of_F_zpeval c x : of_F (zpeval c x) = fpeval (of_F <$> c) (of_F x).
Proof.
  induction c as [|a c IH]; cbn; [apply Zmod.of_Z_0|].
  by rewrite Zmod.of_Z_add, Zmod.of_Z_mul, IH.
Qed.

Lemma of_F_zprod f g l :
  (∀ x, of_F (f x) = g (of_F x)) →
  of_F (zprod f l) = fprod (F:=F) Zmod.one Zmod.mul g (of_F <$> l).
Proof.
  intros Hfg. induction l as [|x l IH]; cbn; [apply Zmod.of_Z_1|].
  by rewrite Zmod.of_Z_mul, IH, Hfg.
Qed.

(** Residues below [m] are kept apart. *)
Lemma of_F_inj_range x y : 0 <= x < m → 0 <= y < m → of_F x = of_F y → x = y.
Proof. intros Hx Hy E%of_F_eq. by rewrite !Z.mod_small in E. Qed.

Lemma NoDup_of_F l : NoDup l → Forall (λ x, 0 <= x < m) l → NoDup (of_F <$> l).
Proof.
  induction 1 as [|x l Hx Hl IH]; cbn; [constructor|]. intros [H1 H2]%Forall_cons.
  constructor; [|auto]. rewrite list_elem_of_fmap. intros (y & E & Hy).
  rewrite Forall_forall in H2. apply of_F_inj_range in E; [|done|auto]. by subst.
Qed.

Lemma of_F_others x l :
  0 <= x < m → Forall (λ y, 0 <= y < m) l →
  of_F <$> others x l = others (of_F x) (of_F <$> l).
Proof.
  intros Hx. induction 1 as [|y l Hy Hl IH]; [done|]. cbn [fmap list_fmap].
  rewrite !others_cons. destruct (decide (y = x)) as [->|Hyx].
  - by rewrite decide_True.
  - rewrite decide_False; [|by intros ?%of_F_inj_range]. cbn. by rewrite IH.
Qed.

Lemma zprod_neq_zero f l :
  (∀ x, x ∈ l → f x mod m ≠ 0) → zprod f l mod m ≠ 0.
Proof.
  pose proof prime_gt_1. induction l as [|x l IH]; intros Hf; cbn.
  { rewrite Z.mod_small by lia. lia. }
  intros E%Z.mod_divide; [|lia]. apply Z.divide_prime_mul in E; [|done].
  destruct E as [E|E]; apply Z.mod_divide in E; try lia.
  - by apply (Hf x); [set_solver|].
  - apply IH in E; [done|]. set_solver.
Qed.

Lemma diff_neq_zero x l :
  0 <= x < m → Forall (λ y, 0 <= y < m) l →
  zprod (λ y, y - x) (others x l) mod m ≠ 0.
Proof.
  intros Hx Hl. apply zprod_neq_zero. intros y [Hyx Hy]%elem_of_others.
  rewrite Forall_forall in Hl. specialize (Hl y Hy). intros E.
  apply Hyx. apply Z.mod_divide in E as [q E]; [|lia].
  assert (q = 0 ∨ 1 <= q ∨ q <= -1) as [->|[?|?]] by lia; nia.
Qed.

Lemma of_F_weight x l w :
  0 <= x < m → Forall (λ y, 0 <= y < m) l → is_weight x l w →
  of_F w = fweight (of_F x) (of_F <$> l).
Proof.
  intros Hx Hl Hw. pose proof (diff_neq_zero x l Hx Hl) as Hd.
  unfold is_weight in Hw. apply of_F_eq in Hw. rewrite Zmod.of_Z_mul in Hw.
  rewrite (of_F_zprod (λ y, y - x) (λ y, Zmod.sub y (of_F x))) in Hw
    by (intros; apply Zmod.of_Z_sub).
  rewrite (of_F_zprod (λ y, y) (λ y, y)) in Hw by done.
  rewrite of_F_others in Hw by done. unfold weight. rewrite <-Hw. field.
  by eapply others_prod_neq; apply F_field.
Qed.

Lemma is_weight_neq_zero x l w :
  0 <= x < m → Forall (λ y, 0 < y < m) l → is_weight x l w → w mod m ≠ 0.
Proof.
  intros Hx Hl Hw E. unfold is_weight in Hw.
  rewrite Z.mul_mod, E, Z.mul_0_l, Z.mod_0_l in Hw by (pose proof prime_gt_1; lia).
  symmetry in Hw. revert Hw. apply zprod_neq_zero.
  intros y [_ Hy]%elem_of_others. rewrite Forall_forall in Hl.
  rewrite Z.mod_small; specialize (Hl y Hy); lia.
Qed.

(** The weighted values of a polynomial at its nodes sum to its constant term. *)
Lemma weights_recover l c (w : Z → Z) :
  NoDup l → Forall (λ y, 0 <= y < m) l → l ≠ [] → (length c ≤ length l)%nat →
  (∀ x, x ∈ l → is_weight x l (w x)) →
  zsum (λ x, w x * zpeval c x) l mod m = zpeval c 0 mod m.
Proof.
  intros Hnd Hl Hne Hlen Hw. apply of_F_eq.
  assert (∀ k, k ⊆ l → of_F (zsum (λ x, w x * zpeval c x) k)
    = fsum (F:=F) Zmod.zero Zmod.add
        (λ x, Zmod.mul (fweight x (of_F <$> l)) (fpeval (of_F <$> c) x)) (of_F <$> k))
    as Hsum.
  { induction k as [|x k IH]; intros Hk; cbn; [apply Zmod.of_Z_0|].
    rewrite Zmod.of_Z_add, Zmod.of_Z_mul, IH, of_F_zpeval by set_solver.
    rewrite (of_F_weight x l); [done| |done|apply Hw; set_solver].
    rewrite Forall_forall in Hl. apply Hl. set_solver. }
  rewrite Hsum, of_F_zpeval by done.
  etrans; [eapply (interpolate_poly (F:=F)); [apply F_field|..]|].
  - by apply NoDup_of_F.
  - by rewrite !length_fmap.
  - by destruct l.
  - by rewrite Zmod.of_Z_0.
Qed.
End field.

(** ** The extended Euclidean algorithm

    One division step at least halves the product of the two remainders. *)
Lemma euclid_halves low high :
  1 < low <= high → 0 < (high mod low) → 2 * ((high mod low) * low) < low * high.
Proof.
  intros Hl Hr. pose proof (Z.mod_pos_bound high low ltac:(lia)) as Hb.
  pose proof (Z.div_mod high low ltac:(lia)) as E.
  assert (1 <= high / low) by (apply Z.div_le_lower_bound; lia). nia.
Qed.

Lemma coprime_rem_pos low high :
  1 < low → Z.gcd low high = 1 → 0 < high mod low.
Proof.
  intros Hl Hg. pose proof (Z.mod_pos_bound high low ltac:(lia)).
  destruct (decide (high mod low = 0)) as [E|]; [|lia].
  apply Z.mod_divide in E; [|lia]. apply Z.divide_gcd_iff in E; lia.
Qed.
