(* ===== verification/ThresholdCrypto.v ===== *)
(** * Threshold BLS signatures ([threshold-crypto.mjs])

    Decoding of points, the scalar field arithmetic written out by the operator
    ([mod], [invert], [lagrangeCoefficientAtZero]), partial signatures, the check
    of a public share against the commitments of its polynomial, and the
    aggregation of shares at zero. *)

From S2P Require Import Prelude Js Hex Vendor Interpolation ScalarField Samples.
From Stdlib Require Import Znumtheory Zmod.

Open Scope Z_scope.

Definition BLS_DST : string := "BLS_SIG_BLS12381G1_XMD:SHA-256_SSWU_RO_NUL_".

(** A [BytesLike] argument: a [Uint8Array] or any other JavaScript value. *)
Inductive byte_source := U8 (b : bytes) | JsVal (v : value).

(** A share handed to the aggregation. *)
Record share := {
  share_index : value;
  share_publicKey : byte_source;
  share_signature : byte_source
}.

(** [try { return m; } catch { return d; }] *)
Definition result_or {A} (d : A) (m : result A) : A :=
  match m with Ok a => a | Throw _ => d end.

Section crypto.
Context `{Ethers, NobleBls}.

Definition BLS_SCALAR_ORDER : Z := order.

Definition bytesFor (v : byte_source) (name : string) : result bytes :=
  match v with
  | U8 b => Ok b
  | JsVal (VStr s) => from_option_or (name +:+ " must be hex bytes") (getBytes s)
  | JsVal _ => Throw (name +:+ " must be hex bytes")
  end.

Definition pointFor {G} `{Curve G} (v : byte_source) (expectedLength : nat)
    (name : string) (allowInfinity : bool) : result G :=
  bytes ← bytesFor v name;
  _ ← require (length bytes =? expectedLength)%nat
        (name +:+ " must be " +:+ print_int (Z.of_nat expectedLength)
         +:+ " uncompressed bytes");
  catch
    (point ← c_decode bytes;
     _ ← require (bool_decide (lower (hexlify (c_encode point)) = lower (hexlify bytes)))
           (name +:+ " must use canonical uncompressed encoding");
     _ ← require (allowInfinity || negb (bool_decide (point = c_zero)))
           (name +:+ " cannot be the point at infinity");
     Ok point)
    (λ e, if starts_with (name +:+ " cannot") e then Throw e
          else Throw (name +:+ " is not a valid subgroup point")).

Definition g1Point (v : byte_source) (name : string) : result G1 :=
  pointFor v 96 name false.
Definition g2Point (v : byte_source) (name : string) : result G2 :=
  pointFor v 192 name false.
Definition g2CommitmentPoint (v : byte_source) (name : string) : result G2 :=
  pointFor v 192 name true.

Definition wireHex {G} `{Curve G} (point : G) : string := hexlify (c_encode point).

Definition scalarIndex (v : value) (name : string) : result Z :=
  index ← to_bigint v;
  if (index <=? 0) || (BLS_SCALAR_ORDER <=? index)
  then Throw (name +:+ " must be in [1, scalar order)")
  else Ok index.

Definition mod_ (v : Z) : Z :=
  let reduced := Z.rem v BLS_SCALAR_ORDER in
  if 0 <=? reduced then reduced else reduced + BLS_SCALAR_ORDER.

(** The [while] loop of [invert]: [None] when the fuel runs out. *)
Fixpoint invert_loop (fuel : nat) (low high lm hm : Z) : option Z :=
  if 1 <? low then
    match fuel with
    | O => None
    | S fuel =>
        let ratio := high `quot` low in
        invert_loop fuel (high - low * ratio) low (hm - lm * ratio) lm
    end
  else Some lm.

(** One step at least halves [low * high]: this fuel is never exhausted. *)
Definition invert_fuel (low high : Z) : nat := S (Z.to_nat (Z.log2 (low * high))).

Definition invert (v : Z) : result Z :=
  let low := mod_ v in
  if low =? 0 then Throw "cannot invert zero scalar"
  else
    lm ← from_option_or "fuel"
           (invert_loop (invert_fuel low BLS_SCALAR_ORDER) low BLS_SCALAR_ORDER 1 0);
    Ok (mod_ lm).

(** The body of the loop of [lagrangeCoefficientAtZero]. *)
Definition lagrange_step (index : Z) (acc : Z * Z) (other : Z) : Z * Z :=
  if other =? index then acc
  else (mod_ (acc.1 * other), mod_ (acc.2 * (other - index))).

Definition lagrangeCoefficientAtZero (indexValue : value) (allIndexValues : list value)
    : result Z :=
  index ← scalarIndex indexValue "share index";
  indexes ← mapM (λ v, scalarIndex v "share index") allIndexValues;
  _ ← require (all_distinct (print_int <$> indexes)) "share indexes must be unique";
  _ ← require (existsb (λ candidate, candidate =? index) indexes)
        "share index is not in the interpolation set";
  let '(numerator, denominator) := foldl (lagrange_step index) (1, 1) indexes in
  inverse ← invert denominator;
  Ok (mod_ (numerator * inverse)).

Definition verifyPartialSignature (message publicKey signature : byte_source) : bool :=
  result_or false
    (m ← bytesFor message "message";
     messagePoint ← hashToCurve m BLS_DST;
     signaturePoint ← g1Point signature "partial signature";
     publicKeyPoint ← g2Point publicKey "share public key";
     left ← pairing signaturePoint base2;
     right ← pairing messagePoint publicKeyPoint;
     Ok (bool_decide (left = right))).

Definition publicKeyForShare (secretShare : value) : result string :=
  s ← to_bigint secretShare;
  let scalar := mod_ s in
  _ ← require (negb (scalar =? 0)) "secret share cannot be zero";
  P ← c_multiply scalar base2;
  Ok (wireHex P).

Definition signPartial (message : byte_source) (secretShare : value) : result string :=
  s ← to_bigint secretShare;
  let scalar := mod_ s in
  _ ← require (negb (scalar =? 0)) "secret share cannot be zero";
  m ← bytesFor message "message";
  messagePoint ← hashToCurve m BLS_DST;
  P ← c_multiply scalar messagePoint;
  Ok (wireHex P).

Definition verifyAggregateSignature (message groupPublicKey signature : byte_source)
    : bool :=
  result_or false
    (m ← bytesFor message "message";
     messagePoint ← hashToCurve m BLS_DST;
     signaturePoint ← g1Point signature "aggregate signature";
     publicKeyPoint ← g2Point groupPublicKey "group public key";
     left ← pairing signaturePoint base2;
     right ← pairing messagePoint publicKeyPoint;
     Ok (bool_decide (left = right))).

(** The loop of [verifyPublicShareCommitment] from [position] on. *)
Fixpoint commitment_loop (scalar : Z) (position : nat) (expected : G2) (power : Z)
    (publicCoefficients : list byte_source) : result G2 :=
  match publicCoefficients with
  | [] => Ok expected
  | c :: rest =>
      C ← g2CommitmentPoint c
            ("publicCoefficients[" +:+ print_int (Z.of_nat position) +:+ "]");
      term ← c_multiply power C;
      commitment_loop scalar (S position) (c_add expected term) (mod_ (power * scalar)) rest
  end.

(** [None] stands for a [publicCoefficients] that is not an array. *)
Definition verifyPublicShareCommitment (index : value) (sharePublicKey : byte_source)
    (publicCoefficients : option (list byte_source)) : result bool :=
  match publicCoefficients with
  | Some coefficients =>
      if (length coefficients <? 2)%nat
      then Throw "publicCoefficients must contain at least two G2 commitments"
      else
        scalar ← scalarIndex index "share index";
        expected ← commitment_loop scalar 0 c_zero 1 coefficients;
        key ← g2Point sharePublicKey "share public key";
        Ok (bool_decide (expected = key))
  | None => Throw "publicCoefficients must contain at least two G2 commitments"
  end.

(** The sum of the shares, each multiplied by its coefficient. *)
Definition aggregate_step (indexes : list Z) (aggregate : G1) (p : Z * share)
    : result G1 :=
  coefficient ← lagrangeCoefficientAtZero (VBig p.1) (VBig <$> indexes);
  P ← g1Point (share_signature p.2) "partial signature";
  term ← c_multiply coefficient P;
  Ok (c_add aggregate term).

Definition check_partial (message : byte_source) (s : share) : result unit :=
  require (verifyPartialSignature message (share_publicKey s) (share_signature s))
    ("partial signature " +:+ to_str (share_index s) +:+ " failed verification").

(** [None] stands for [shares] that is not an array. *)
Definition aggregateThresholdShares (message groupPublicKey : byte_source)
    (threshold : value) (shares : option (list share))
    : result (string * list string) :=
  match threshold with
  | VNum t =>
    if negb (safe_integer t) || (t <? 2)
    then Throw "threshold must be an integer of at least 2"
    else
      match shares with
      | Some shares =>
        if Z.of_nat (length shares) <? t
        then Throw ("at least " +:+ print_int t +:+ " shares are required")
        else
          indexes ← mapM (λ s, scalarIndex (share_index s) "share index") shares;
          _ ← require (all_distinct (print_int <$> indexes)) "share indexes must be unique";
          _ ← forM_ (check_partial message) shares;
          aggregate ← foldM (aggregate_step indexes) c_zero (zip indexes shares);
          _ ← require (negb (bool_decide (aggregate = c_zero)))
                "aggregate signature is the point at infinity";
          let signature := wireHex aggregate in
          _ ← require
                (verifyAggregateSignature message groupPublicKey (JsVal (VStr signature)))
                "aggregate signature does not match the group public key";
          Ok (signature, print_int <$> indexes)
      | None => Throw ("at least " +:+ print_int t +:+ " shares are required")
      end
  | _ => Throw "threshold must be an integer of at least 2"
  end.
End crypto.

(** ** The scalar field *)

Lemma invert_loop_inverse m v fuel low high lm hm :
  1 <= low <= high → Z.gcd low high = 1 →
  (lm * v) mod m = low mod m → (hm * v) mod m = high mod m →
  Z.log2 (low * high) < Z.of_nat fuel →
  ∃ r, invert_loop fuel low high lm hm = Some r ∧ (r * v) mod m = 1 mod m.
Proof.
  revert low high lm hm. induction fuel as [|fuel IH];
    intros low high lm hm Hl Hg Hlm Hhm Hf; cbn [invert_loop].
  { pose proof (Z.log2_nonneg (low * high)). lia. }
  destruct (Z.ltb_spec 1 low) as [Hlow|].
  2: { replace low with 1 in * by lia. eauto. }
  pose proof (coprime_rem_pos low high Hlow Hg) as Hr.
  pose proof (Z.mod_pos_bound high low ltac:(lia)) as Hb.
  pose proof (euclid_halves low high ltac:(lia) Hr) as Hh.
  rewrite Z.quot_div_nonneg by lia.
  replace (high - low * (high / low)) with (high mod low) by (rewrite Z.mod_eq; lia).
  apply IH; [lia| | |done|].
  - rewrite Z.gcd_mod by lia. done.
  - rewrite (Z.mod_eq high low) by lia. rewrite Z.mul_sub_distr_r, Zminus_mod, Hhm.
    replace (lm * (high / low) * v) with (high / low * (lm * v)) by ring.
    rewrite <-(Zmult_mod_idemp_r (lm * v)), Hlm, Zmult_mod_idemp_r.
    rewrite <-Zminus_mod. f_equal. ring.
  - assert (Z.log2 (2 * (high mod low * low)) <= Z.log2 (low * high)) as Hlog
      by (apply Z.log2_le_mono; lia).
    rewrite Z.log2_double in Hlog by nia. lia.
Qed.

Section scalar_field.
Context `{Ethers, NobleBls, !BlsLaws}.

Lemma order_gt_1 : 1 < order.
Proof. apply order_prime. Qed.

Lemma order_pos : 0 < order.
Proof. pose proof order_gt_1. lia. Qed.

Lemma mod_Zmod v : mod_ v = v mod order.
Proof.
  pose proof order_gt_1. unfold mod_, BLS_SCALAR_ORDER.
  assert (Z.abs (Z.rem v order) < order) as Hb.
  { pose proof (Z.rem_bound_abs v order). lia. }
  destruct (Z.leb_spec 0 (Z.rem v order)) as [Hr|Hr]; symmetry.
  - rewrite (Z.quot_rem' v order) at 1. rewrite Z.add_comm, Z.mul_comm, Z_mod_plus_full.
    apply Z.mod_small. lia.
  - rewrite (Z.quot_rem' v order) at 1.
    replace (order * (v ÷ order) + Z.rem v order)
      with (Z.rem v order + order + (v ÷ order - 1) * order) by ring.
    rewrite Z_mod_plus_full. apply Z.mod_small. lia.
Qed.

Lemma mod_bound v : 0 <= mod_ v < order.
Proof. rewrite mod_Zmod. apply Z.mod_pos_bound, order_pos. Qed.

Lemma prime_gcd v : 0 < v < order → Z.gcd v order = 1.
Proof.
  intros Hv. rewrite Z.gcd_comm.
  apply Z.coprime_prime_small; [apply order_prime|lia].
Qed.

Lemma invert_Ok v :
  v mod order ≠ 0 →
  ∃ i, invert v = Ok i ∧ 0 < i < order ∧ (v * i) mod order = 1.
Proof.
  intros Hv. pose proof order_gt_1 as Ho. unfold invert. rewrite mod_Zmod.
  pose proof (Z.mod_pos_bound v order order_pos).
  rewrite (proj2 (Z.eqb_neq _ _) Hv).
  destruct (invert_loop_inverse order v (invert_fuel (v mod order) order)
    (v mod order) order 1 0) as (r & Hr & Hrv).
  - lia.
  - apply prime_gcd. lia.
  - by rewrite Z.mul_1_l, Z.mod_mod by lia.
  - by rewrite Z.mod_0_l, Z.mod_same by lia.
  - unfold invert_fuel. pose proof (Z.log2_nonneg (v mod order * order)). lia.
  - unfold BLS_SCALAR_ORDER. rewrite Hr. cbn. eexists. split; [done|].
    rewrite mod_Zmod. rewrite Z.mod_1_l in Hrv by lia.
    split; [|by rewrite Zmult_mod_idemp_r, Z.mul_comm].
    pose proof (Z.mod_pos_bound r order order_pos).
    assert (r mod order ≠ 0); [|lia]. intros E.
    rewrite Zmult_mod, E in Hrv. cbn in Hrv. rewrite Z.mod_0_l in Hrv; lia.
Qed.

Lemma mul_mod_neq_zero p x : 0 < p < order → 0 < x < order → (p * x) mod order ≠ 0.
Proof.
  intros Hp Hx. pose proof order_pos. intros Hz%Z.mod_divide; [|lia].
  apply Z.divide_prime_mul in Hz as [Hz|Hz]; [..|apply order_prime];
    apply Z.divide_pos_le in Hz; lia.
Qed.

Lemma scalarIndex_Ok v name i :
  scalarIndex v name = Ok i ↔ to_bigint v = Ok i ∧ 0 < i < order.
Proof.
  unfold scalarIndex, BLS_SCALAR_ORDER. destruct (to_bigint v) as [j|]; cbn; [|naive_solver].
  destruct (Z.leb_spec j 0), (Z.leb_spec order j); cbn; naive_solver lia.
Qed.

Lemma print_int_inj_pos l :
  Forall (λ x, 0 <= x) l → NoDup (print_int <$> l) ↔ NoDup l.
Proof.
  intros Hl. split; [apply NoDup_fmap_1|]. induction Hl as [|x l Hx Hl IH]; cbn; [constructor|].
  intros [Hnx Hnd]%NoDup_cons. constructor; [|auto].
  rewrite list_elem_of_fmap. intros (y & E & Hy). rewrite Forall_forall in Hl.
  specialize (Hl y Hy). unfold print_int in E.
  destruct (Z.ltb_spec x 0), (Z.ltb_spec y 0); try lia.
  apply print_base_inj in E; [by subst|lia..].
Qed.

Lemma scalarIndexes_Ok l :
  Forall (λ x, 0 < x < order) l →
  mapM (λ v, scalarIndex v "share index") (VBig <$> l) = Ok l.
Proof.
  intros Hl. apply mapM_Ok, Forall2_fmap_l, Forall2_same_length_lookup.
  split; [done|]. intros i x y Hx Hy. simplify_eq.
  apply scalarIndex_Ok. split; [done|]. by eapply Forall_lookup_1 in Hl.
Qed.

(** The loop computes the two products over the other nodes. *)
Lemma lagrange_fold index l acc :
  (foldl (lagrange_step index) acc l).1 mod order
    = (acc.1 * zprod (λ y, y) (others index l)) mod order ∧
  (foldl (lagrange_step index) acc l).2 mod order
    = (acc.2 * zprod (λ y, y - index) (others index l)) mod order.
Proof.
  revert acc. induction l as [|y l IH]; intros acc; cbn [foldl].
  { cbn. by rewrite !Z.mul_1_r. }
  destruct (IH (lagrange_step index acc y)) as [-> ->].
  rewrite others_cons. unfold lagrange_step.
  destruct (Z.eqb_spec y index), (decide (y = index)); try done; cbn.
  rewrite !mod_Zmod, !Zmult_mod_idemp_l. split; f_equal; ring.
Qed.

Lemma lagrange_Ok l x :
  NoDup l → Forall (λ x, 0 < x < order) l → x ∈ l →
  ∃ w, lagrangeCoefficientAtZero (VBig x) (VBig <$> l) = Ok w ∧ 0 < w < order ∧
       is_weight order x l w.
Proof.
  intros Hnd Hl Hx. pose proof order_pos as Ho.
  assert (0 < x < order) as Hx0 by (rewrite Forall_forall in Hl; auto).
  unfold lagrangeCoefficientAtZero.
  rewrite (proj2 (scalarIndex_Ok (VBig x) _ x)) by done. cbn.
  rewrite scalarIndexes_Ok by done. cbn.
  rewrite (proj2 (all_distinct_spec _)); cbn.
  2: { apply print_int_inj_pos; [|done]. eapply Forall_impl; [done|]. cbn. lia. }
  rewrite (proj2 (existsb_exists _ _)); cbn.
  2: { exists x. split; [by apply list_elem_of_In|]. apply Z.eqb_refl. }
  pose proof (lagrange_fold x l (1, 1)) as [Hn Hd].
  destruct (foldl _ _ _) as [num den]. cbn in Hn, Hd. rewrite Z.mul_1_l in Hn, Hd.
  assert (Forall (λ y, 0 <= y < order) l) as Hl'
    by (eapply Forall_impl; [done|]; cbn; lia).
  destruct (invert_Ok den) as (i & -> & Hi & Hdi).
  { rewrite Hd. apply diff_neq_zero; [apply order_prime|lia|done]. }
  cbn. eexists. split; [done|]. rewrite mod_Zmod.
  assert (is_weight order x l ((num * i) mod order)) as Hw.
  { unfold is_weight. rewrite Zmult_mod_idemp_l, <-Zmult_mod_idemp_r, <-Hd, Zmult_mod_idemp_r.
    replace (num * i * den) with (num * (den * i)) by ring.
    by rewrite <-Zmult_mod_idemp_r, Hdi, Z.mul_1_r. }
  split; [|done].
  apply is_weight_neq_zero in Hw; [|apply order_prime|lia|done].
  rewrite Z.mod_mod in Hw by lia. pose proof (Z.mod_pos_bound (num * i) order Ho). lia.
Qed.
End scalar_field.

(** ** Points and their encodings *)

(** The bytes an argument stands for. *)
Definition source_bytes `{Ethers} (v : byte_source) : option bytes :=
  match v with U8 b => Some b | JsVal (VStr s) => getBytes s | JsVal _ => None end.

(** The value at [x] of a polynomial with coefficients in a group. *)
Fixpoint point_eval `{NobleBls} `{Curve G} (Cs : list G) (x : Z) : G :=
  match Cs with [] => c_zero | C :: Cs => c_add C (smul x (point_eval Cs x)) end.

Section points.
Context `{Ethers, !EthersLaws, NobleBls, !BlsLaws}.

Lemma bytesFor_Ok v name b : bytesFor v name = Ok b ↔ source_bytes v = Some b.
Proof.
  destruct v as [b'|[]]; cbn; try (split; congruence). apply from_option_or_Ok.
Qed.

Lemma pointFor_Ok `{Curve G, !CurveLaws G} v n name inf (P : G) :
  pointFor v n name inf = Ok P ↔
  source_bytes v = Some (c_encode P) ∧ length (c_encode P) = n ∧ (inf = true ∨ P ≠ c_zero).
Proof.
  unfold pointFor. split.
  - intros Hp. inv_ok. apply bytesFor_Ok in Hx as Hb. apply Nat.eqb_eq in Hx0.
    apply catch_Ok in Hp as [Hp|(e & _ & Hp)]; [|by case_match].
    apply bind_Ok in Hp as (point & _ & Hp).
    apply bind_Ok in Hp as (? & Henc%require_Ok%bool_decide_eq_true & Hp).
    apply bind_Ok in Hp as (? & Hinf%require_Ok & [= <-]).
    rewrite !hexlify_lower in Henc.
    assert (x = c_encode point) as ->.
    { apply (f_equal getBytes) in Henc. rewrite !getBytes_hexlify in Henc. by simplify_eq. }
    split; [done|]. split; [done|].
    apply orb_true_iff in Hinf as [->|Hz]; [by left|right].
    by apply negb_true_iff, bool_decide_eq_false in Hz.
  - intros (Hb & <- & Hinf). rewrite (proj2 (bytesFor_Ok _ _ _) Hb). cbn.
    rewrite Nat.eqb_refl; cbn. rewrite c_decode_encode; cbn.
    rewrite (bool_decide_true (lower _ = _)) by done. cbn.
    destruct Hinf as [->|Hz]; [done|].
    rewrite bool_decide_false by done. cbn. by rewrite orb_true_r.
Qed.

Lemma g1Point_Ok v name P :
  g1Point v name = Ok P ↔ source_bytes v = Some (c_encode P) ∧ P ≠ c_zero.
Proof.
  unfold g1Point. rewrite pointFor_Ok. pose proof (encode1_length P). naive_solver.
Qed.

Lemma g2Point_Ok v name P :
  g2Point v name = Ok P ↔ source_bytes v = Some (c_encode P) ∧ P ≠ c_zero.
Proof.
  unfold g2Point. rewrite pointFor_Ok. pose proof (encode2_length P). naive_solver.
Qed.

Lemma g2CommitmentPoint_Ok v name P :
  g2CommitmentPoint v name = Ok P ↔ source_bytes v = Some (c_encode P).
Proof.
  unfold g2CommitmentPoint. rewrite pointFor_Ok. pose proof (encode2_length P). naive_solver.
Qed.

Lemma wireHex_bytes `{Curve G} (P : G) :
  source_bytes (JsVal (VStr (wireHex P))) = Some (c_encode P).
Proof. apply getBytes_hexlify. Qed.

Lemma wireHex_inj `{Curve G, !CurveLaws G} (P Q : G) : wireHex P = wireHex Q → P = Q.
Proof.
  intros E. eapply c_encode_inj. apply (f_equal getBytes) in E.
  unfold wireHex in E. rewrite !getBytes_hexlify in E. by simplify_eq.
Qed.

(** A non-zero multiple of a non-zero point is not zero: the order is prime. *)
Lemma smul_neq_zero `{Curve G, !CurveLaws G} k (P : G) :
  k mod order ≠ 0 → P ≠ c_zero → smul k P ≠ c_zero.
Proof.
  intros Hk HP E. apply HP. destruct (invert_Ok k Hk) as (i & _ & _ & Hi).
  pose proof order_gt_1. rewrite <-(smul_1 P), (smul_congr 1 (i * k) P).
  - rewrite smul_mul, E by lia. apply smul_zero_point.
  - by rewrite Z.mul_comm, Hi, Z.mod_1_l.
  - lia.
Qed.

Lemma base2_neq_zero : base2 ≠ c_zero.
Proof.
  intros E. assert (1 mod order = 0) as Hone.
  { apply base2_order. rewrite E. apply smul_zero_point. }
  pose proof order_gt_1. rewrite Z.mod_1_l in Hone by lia. lia.
Qed.

Lemma smul_base2_inj k l : smul k base2 = smul l base2 → k mod order = l mod order.
Proof.
  intros E. pose proof order_pos. assert ((k - l) mod order = 0) as Hkl.
  { apply base2_order. apply (c_add_cancel_l) with (P := smul l base2); [lia|].
    rewrite <-smul_add, c_add_zero_r by lia. rewrite <-E. f_equal. lia. }
  apply Z.mod_divide in Hkl as [q Hq]; [|lia].
  replace k with (l + q * order) by lia. by rewrite Z_mod_plus_full.
Qed.

Lemma point_eval_smul `{Curve G, !CurveLaws G} c x (P : G) :
  point_eval ((λ a, smul a P) <$> c) x = smul (zpeval c x) P.
Proof.
  pose proof order_pos. induction c as [|a c IH]; cbn.
  - by rewrite smul_0 by lia.
  - rewrite IH, smul_add, smul_mul by lia. done.
Qed.
End points.

(** ** Signatures *)
Section signatures.
Context `{Ethers, !EthersLaws, NobleBls, !BlsLaws}.

(** The hash of a message to the curve. *)
Definition message_point (message : byte_source) (M : G1) : Prop :=
  ∃ m, source_bytes message = Some m ∧ hashToCurve m BLS_DST = Ok M.

Lemma message_point_unique message M M' :
  message_point message M → message_point message M' → M = M'.
Proof. intros (m & Hm & HM) (m' & Hm' & HM'). congruence. Qed.

Lemma bool_decide_result_or {A} (m : result A) f :
  result_or false (x ← m; f x) = true ↔ ∃ x, m = Ok x ∧ result_or false (f x) = true.
Proof. destruct m; cbn; naive_solver. Qed.

(** What a successful pairing check says. *)
Definition pairing_check (message publicKey signature : byte_source) : Prop :=
  ∃ M S K t, message_point message M ∧
    source_bytes signature = Some (c_encode S) ∧ S ≠ c_zero ∧
    source_bytes publicKey = Some (c_encode K) ∧ K ≠ c_zero ∧
    pairing S base2 = Ok t ∧ pairing M K = Ok t.

Local Ltac solve_pairing_check :=
  rewrite !bool_decide_result_or; split;
  [ intros (m & Hm%bytesFor_Ok & Hv);
    apply bool_decide_result_or in Hv as (M & HM & Hv);
    apply bool_decide_result_or in Hv as (S & [HS HSz]%g1Point_Ok & Hv);
    apply bool_decide_result_or in Hv as (K & [HK HKz]%g2Point_Ok & Hv);
    apply bool_decide_result_or in Hv as (t & Ht & Hv);
    apply bool_decide_result_or in Hv as (t' & Ht' & Hv);
    cbn in Hv; apply bool_decide_eq_true in Hv as <-;
    exists M, S, K, t; unfold message_point; eauto 10
  | intros (M & S & K & t & (m & Hm & HM) & HS & HSz & HK & HKz & Ht & Ht');
    exists m; split; [by apply bytesFor_Ok|];
    rewrite HM; cbn; rewrite (proj2 (g1Point_Ok _ _ S)) by done; cbn;
    rewrite (proj2 (g2Point_Ok _ _ K)) by done; cbn;
    rewrite Ht; cbn; rewrite Ht'; cbn; by apply bool_decide_eq_true ].

Lemma verifyPartialSignature_spec message pk sig :
  verifyPartialSignature message pk sig = true ↔ pairing_check message pk sig.
Proof. unfold verifyPartialSignature. solve_pairing_check. Qed.

Lemma verifyAggregateSignature_spec message pk sig :
  verifyAggregateSignature message pk sig = true ↔ pairing_check message pk sig.
Proof. unfold verifyAggregateSignature. solve_pairing_check. Qed.

(** Under the key of the scalar [s], the check accepts the multiple of the
    message point by [s] and nothing else. *)
Lemma pairing_check_secret message pk sig s :
  source_bytes pk = Some (c_encode (smul s base2)) →
  pairing_check message pk sig ↔
  s mod order ≠ 0 ∧
  ∃ M, message_point message M ∧ M ≠ c_zero ∧
       source_bytes sig = Some (c_encode (smul s M)).
Proof.
  intros Hpk. pose proof order_pos. split.
  - intros (M & S & K & t & HM & HS & HSz & HK & HKz & Ht & Ht').
    rewrite Hpk in HK. apply Some_inj, c_encode_inj in HK as <-.
    assert (s mod order ≠ 0) as Hs.
    { intros Hs. apply HKz. rewrite (smul_congr s 0), smul_0; [done|lia|].
      by rewrite Z.mod_0_l by lia. }
    rewrite <-pairing_move in Ht' by done.
    assert (S = smul s M) as -> by (by eapply pairing_base_inj).
    split; [done|]. exists M. split; [done|]. split; [|done].
    intros ->. by rewrite smul_zero_point in HSz.
  - intros (Hs & M & HM & HMz & HS).
    destruct (pairing_total (smul s M) base2) as [t Ht].
    { by apply smul_neq_zero. }
    { apply base2_neq_zero. }
    exists M, (smul s M), (smul s base2), t. split_and!; try done.
    + by apply smul_neq_zero.
    + by apply smul_neq_zero, base2_neq_zero.
    + by rewrite <-pairing_move.
Qed.

Lemma publicKeyForShare_Ok v pk :
  publicKeyForShare v = Ok pk ↔
  ∃ s, to_bigint v = Ok s ∧ s mod order ≠ 0 ∧ pk = wireHex (smul s base2).
Proof.
  pose proof order_pos. unfold publicKeyForShare.
  destruct (to_bigint v) as [s|]; cbn; [|naive_solver].
  pose proof (mod_bound s) as Hb. rewrite mod_Zmod in *.
  destruct (Z.eqb_spec (s mod order) 0) as [E|E]; cbn; [naive_solver|].
  rewrite c_multiply_smul, smul_mod by lia. cbn. naive_solver.
Qed.

Lemma signPartial_Ok message v sig :
  signPartial message v = Ok sig ↔
  ∃ s M, to_bigint v = Ok s ∧ s mod order ≠ 0 ∧ message_point message M ∧
         sig = wireHex (smul s M).
Proof.
  pose proof order_pos. unfold signPartial, message_point.
  destruct (to_bigint v) as [s|]; cbn; [|naive_solver].
  pose proof (mod_bound s) as Hb. rewrite mod_Zmod in *.
  destruct (Z.eqb_spec (s mod order) 0) as [E|E]; cbn; [naive_solver|].
  destruct (bytesFor message "message") as [m|e] eqn:Em; cbn.
  - apply bytesFor_Ok in Em.
    destruct (hashToCurve m BLS_DST) as [M|] eqn:EM; cbn.
    2: { split; [done|]. intros (? & ? & _ & _ & (m' & ? & ?) & _). congruence. }
    rewrite c_multiply_smul, smul_mod by lia. cbn. split.
    + intros [= <-]. eauto 10.
    + intros (s' & M' & [= <-] & _ & (m' & ? & ?) & ->). congruence.
  - split; [done|]. intros (? & ? & _ & _ & (m & Hm & _) & _).
    apply (bytesFor_Ok _ "message") in Hm. congruence.
Qed.
End signatures.

(** ** Aggregation *)
Section aggregation.
Context `{Ethers, !EthersLaws, NobleBls, !BlsLaws}.

(** A share of the polynomial [c] at [x] whose signature verifies. *)
Definition honest_share (message : byte_source) (c : list Z) (x : Z) (s : share) : Prop :=
  to_bigint (share_index s) = Ok x ∧ 0 < x < order ∧
  source_bytes (share_publicKey s) = Some (c_encode (smul (zpeval c x) base2)) ∧
  verifyPartialSignature message (share_publicKey s) (share_signature s) = true.

(** The coefficient of [x] among [xs]. *)
Definition coefficient (xs : list Z) (x : Z) : Z :=
  result_or 0 (lagrangeCoefficientAtZero (VBig x) (VBig <$> xs)).

Lemma coefficient_Ok xs x :
  NoDup xs → Forall (λ x, 0 < x < order) xs → x ∈ xs →
  lagrangeCoefficientAtZero (VBig x) (VBig <$> xs) = Ok (coefficient xs x) ∧
  0 < coefficient xs x < order ∧ is_weight order x xs (coefficient xs x).
Proof.
  intros Hnd Hxs Hx. destruct (lagrange_Ok xs x Hnd Hxs Hx) as (w & E & ?).
  unfold coefficient. by rewrite E.
Qed.

Lemma honest_share_signature message c x s M :
  honest_share message c x s → message_point message M →
  zpeval c x mod order ≠ 0 ∧ M ≠ c_zero ∧
  source_bytes (share_signature s) = Some (c_encode (smul (zpeval c x) M)).
Proof.
  intros (_ & _ & Hpk & Hv) HM. apply verifyPartialSignature_spec in Hv.
  apply (pairing_check_secret _ _ _ (zpeval c x)) in Hv as (Hs & M' & HM' & HMz & Hsig); [|done].
  assert (M' = M) as -> by (by eapply message_point_unique). done.
Qed.

Lemma aggregate_step_honest message c xs M A y s :
  NoDup xs → Forall (λ x, 0 < x < order) xs → y ∈ xs →
  message_point message M → honest_share message c y s →
  aggregate_step xs A (y, s)
  = Ok (c_add A (smul (coefficient xs y * zpeval c y) M)).
Proof.
  intros Hnd Hxs Hy HM Hs. pose proof order_pos.
  destruct (coefficient_Ok xs y) as (Hc & Hc0 & _); [done..|].
  destruct (honest_share_signature message c y s M Hs HM) as (Hp & HMz & Hsig).
  unfold aggregate_step. cbn [fst snd]. rewrite Hc. cbn [mbind result_bind].
  rewrite (proj2 (g1Point_Ok _ _ (smul (zpeval c y) M)))
    by (split; [done|by apply smul_neq_zero]). cbn [mbind result_bind].
  rewrite c_multiply_smul by lia. cbn [mbind result_bind].
  by rewrite <-smul_mul by lia.
Qed.

(** The loop adds up the shares, each times its coefficient. *)
Lemma aggregate_loop message c xs M ys ss A :
  NoDup xs → Forall (λ x, 0 < x < order) xs → message_point message M →
  ys ⊆ xs → Forall2 (honest_share message c) ys ss →
  foldM (aggregate_step xs) A (zip ys ss)
  = Ok (c_add A (smul (zsum (λ x, coefficient xs x * zpeval c x) ys) M)).
Proof.
  intros Hnd Hxs HM Hsub Hss. pose proof order_pos. revert A.
  induction Hss as [|y s ys ss Hy Hss IH]; intros A; cbn [zip zip_with foldM zsum].
  - by rewrite smul_0, c_add_zero_r by lia.
  - rewrite (aggregate_step_honest message c xs M) by (done || set_solver).
    cbn [mbind result_bind]. rewrite IH by set_solver.
    by rewrite smul_add, c_add_assoc by lia.
Qed.

Lemma honest_shares_indexes message c xs ss :
  Forall2 (honest_share message c) xs ss →
  mapM (λ s, scalarIndex (share_index s) "share index") ss = Ok xs ∧
  Forall (λ x, 0 < x < order) xs ∧ forM_ (check_partial message) ss = Ok tt.
Proof.
  intros Hss. split_and!.
  - apply mapM_Ok. induction Hss as [|x s xs ss (Hi & Hx & _) _ IH]; constructor; [|done].
    by apply scalarIndex_Ok.
  - induction Hss as [|x s xs ss (_ & Hx & _) _ IH]; by constructor.
  - apply forM_Ok. induction Hss as [|x s xs ss (_ & _ & _ & Hv) _ IH]; constructor; [|done].
    by apply require_Ok.
Qed.

(** What a successful aggregation has checked. *)
Lemma aggregate_Ok_inv message gpk t shares sig idx :
  aggregateThresholdShares message gpk t shares = Ok (sig, idx) →
  ∃ n ss xs, t = VNum n ∧ 2 <= n ∧ shares = Some ss ∧ n <= Z.of_nat (length ss) ∧
    Forall2 (λ s x, to_bigint (share_index s) = Ok x ∧ 0 < x < order) ss xs ∧
    NoDup (print_int <$> xs) ∧ idx = print_int <$> xs ∧ (∃ A : G1, sig = wireHex A) ∧
    Forall (λ s, verifyPartialSignature message (share_publicKey s) (share_signature s)
                 = true) ss ∧
    verifyAggregateSignature message gpk (JsVal (VStr sig)) = true.
Proof.
  unfold aggregateThresholdShares. destruct t as [| | |n| | | | |]; try done.
  intros Ha. apply if_throw_Ok in Ha as [Hn Ha]. destruct shares as [ss|]; [|done].
  apply if_throw_Ok in Ha as [Hlen Ha].
  apply bind_Ok in Ha as (xs & Hxs%mapM_Ok & Ha).
  apply bind_Ok in Ha as (? & Hnd%require_Ok%all_distinct_spec & Ha).
  apply bind_Ok in Ha as (? & Hv%forM_Ok & Ha).
  apply bind_Ok in Ha as (A & _ & Ha). apply bind_Ok in Ha as (? & _ & Ha).
  apply bind_Ok in Ha as (? & Hagg%require_Ok & [= <- <-]).
  exists n, ss, xs. reflect_bool_hyps.
  assert (Forall2 (λ s x, to_bigint (share_index s) = Ok x ∧ 0 < x < order) ss xs) as Hx.
  { eapply Forall2_impl; [done|]. cbn. intros ? ?. apply scalarIndex_Ok. }
  split_and!; try done; try lia; [by exists A|].
  eapply Forall_impl; [done|]. cbn. intros s Hs. by apply require_Ok in Hs.
Qed.

(** A point that verifies under a secret's key is the secret's signature. *)
Lemma verified_wire_signature message gpk (A : G1) secret pk :
  verifyAggregateSignature message gpk (JsVal (VStr (wireHex A))) = true →
  publicKeyForShare secret = Ok pk → source_bytes gpk = getBytes pk →
  signPartial message secret = Ok (wireHex A).
Proof.
  intros Hagg (s & Hs & Hs0 & ->)%publicKeyForShare_Ok Hgpk.
  unfold wireHex in Hgpk. rewrite getBytes_hexlify in Hgpk.
  apply verifyAggregateSignature_spec in Hagg. move Hagg at bottom.
  apply (pairing_check_secret _ _ _ s) in Hagg as (_ & M & HM & _ & Hsig); [|done].
  rewrite wireHex_bytes in Hsig. apply Some_inj, c_encode_inj in Hsig as ->.
  apply signPartial_Ok. eauto 10.
Qed.

(** One term of the sum per commitment, with the powers of the index. *)
Lemma commitment_loop_Ok x pos E p cs Cs :
  0 < x < order → 0 < p < order →
  Forall2 (λ c C, source_bytes c = Some (c_encode C)) cs Cs →
  commitment_loop x pos E p cs = Ok (c_add E (smul p (point_eval Cs x))).
Proof.
  intros Hx Hp Hcs. pose proof order_pos. revert pos E p Hp.
  induction Hcs as [|c C cs Cs Hc Hcs IH]; intros pos E p Hp; cbn [commitment_loop point_eval].
  - by rewrite smul_zero_point, c_add_zero_r.
  - rewrite (proj2 (g2CommitmentPoint_Ok _ _ C)) by done. cbn [mbind result_bind].
    rewrite c_multiply_smul by lia. cbn [mbind result_bind]. rewrite IH.
    + rewrite mod_Zmod, smul_mod, smul_add_point, smul_mul, c_add_assoc by lia. done.
    + rewrite mod_Zmod. pose proof (Z.mod_pos_bound (p * x) order order_pos).
      assert ((p * x) mod order ≠ 0); [|lia]. by apply mul_mod_neq_zero.
Qed.

Lemma verifyPublicShareCommitment_eval index x pk P cs Cs :
  to_bigint index = Ok x → 0 < x < order →
  source_bytes pk = Some (c_encode P) → P ≠ c_zero → (2 ≤ length cs)%nat →
  Forall2 (λ c C, source_bytes c = Some (c_encode C)) cs Cs →
  verifyPublicShareCommitment index pk (Some cs)
  = Ok (bool_decide (point_eval Cs x = P)).
Proof.
  intros Hi Hx Hpk HP Hlen Hcs. pose proof order_gt_1. unfold verifyPublicShareCommitment.
  rewrite (proj2 (Nat.ltb_ge _ _)) by done.
  rewrite (proj2 (scalarIndex_Ok _ _ x)) by done. cbn [mbind result_bind].
  rewrite (commitment_loop_Ok _ _ _ _ _ Cs) by (done || lia). cbn [mbind result_bind].
  rewrite (proj2 (g2Point_Ok _ _ P)) by done. cbn [mbind result_bind].
  by rewrite c_add_zero, smul_1 by lia.
Qed.

(** Verified shares of a polynomial aggregate to the signature of its constant term. *)
Lemma aggregate_honest_shares message gpk t c xs ss :
  Forall2 (honest_share message c) xs ss → NoDup xs →
  2 <= t <= Z.of_nat (length ss) → safe_integer t = true →
  Z.of_nat (length c) <= t →
  source_bytes gpk = Some (c_encode (smul (zpeval c 0) base2)) →
  zpeval c 0 mod order ≠ 0 →
  ∃ sig, aggregateThresholdShares message gpk (VNum t) (Some ss)
         = Ok (sig, print_int <$> xs) ∧
         signPartial message (VBig (zpeval c 0)) = Ok sig.
Proof.
  intros Hss Hnd Ht Hsafe Hc Hgpk Hsec. pose proof order_pos.
  pose proof (Forall2_length _ _ _ Hss) as Hlen.
  destruct (honest_shares_indexes message c xs ss Hss) as (Hi & Hxs & Hv).
  assert (∃ M, message_point message M ∧ M ≠ c_zero) as (M & HM & HMz).
  { destruct Hss as [|x s xs ss (_ & _ & Hpk & Hs0) _]; [cbn in *; lia|].
    apply verifyPartialSignature_spec, (pairing_check_secret _ _ _ _ Hpk) in Hs0
      as (_ & M & ? & ? & _). eauto. }
  assert (signPartial message (VBig (zpeval c 0)) = Ok (wireHex (smul (zpeval c 0) M)))
    as Hsign by (apply signPartial_Ok; eauto 10).
  exists (wireHex (smul (zpeval c 0) M)). split; [|done].
  cbn [aggregateThresholdShares]. rewrite Hsafe.
  rewrite (proj2 (Z.ltb_ge t 2)), (proj2 (Z.ltb_ge _ t)) by lia. cbn [negb orb].
  rewrite Hi. cbn [mbind result_bind]. rewrite (proj2 (all_distinct_spec _)).
  2: { apply print_int_inj_pos; [|done]. eapply Forall_impl; [done|]. cbn. lia. }
  cbn [require mbind result_bind]. rewrite Hv. cbn [mbind result_bind].
  rewrite (aggregate_loop message c xs M) by done. cbn [mbind result_bind].
  rewrite c_add_zero.
  rewrite (smul_congr _ (zpeval c 0)).
  2: { apply weights_recover; [apply order_prime|done| |destruct xs; [cbn in *; lia|done]|lia|].
       - eapply Forall_impl; [done|]. cbn. lia.
       - intros x Hx. by apply coefficient_Ok. }
  rewrite bool_decide_false by (by apply smul_neq_zero). cbn [negb require mbind result_bind].
  rewrite (proj2 (verifyAggregateSignature_spec _ _ _)); [done|].
  apply (pairing_check_secret _ _ _ (zpeval c 0)); [done|]. split; [done|].
  exists M. split_and!; [done|done|apply wireHex_bytes].
Qed.

(** C2: any [threshold] or more verified partial signatures under distinct
    indexes of a shared polynomial aggregate, whatever shares were chosen, to the
    one signature of the shared secret. *)
Theorem aggregate_recovers_secret_signature message gpk t c xs ss :
  Forall2 (honest_share message c) xs ss → NoDup xs →
  2 <= t <= Z.of_nat (length ss) → safe_integer t = true →
  Z.of_nat (length c) <= t →
  source_bytes gpk = Some (c_encode (smul (zpeval c 0) base2)) →
  zpeval c 0 mod order ≠ 0 →
  ∃ sig, aggregateThresholdShares message gpk (VNum t) (Some ss)
         = Ok (sig, print_int <$> xs) ∧
         signPartial message (VBig (zpeval c 0)) = Ok sig.
Proof. apply aggregate_honest_shares. Qed.

(** whatever the shares claim, an aggregation that returns has checked
    [threshold] distinct indexes and all partial signatures, and returns the one
    signature that the secret behind the group key makes. *)
Theorem aggregate_sound message gpk t shares sig idx secret pk :
  aggregateThresholdShares message gpk t shares = Ok (sig, idx) →
  publicKeyForShare secret = Ok pk → source_bytes gpk = getBytes pk →
  signPartial message secret = Ok sig ∧ NoDup idx ∧
  ∃ n ss, t = VNum n ∧ shares = Some ss ∧ 2 <= n <= Z.of_nat (length idx) ∧
    length idx = length ss ∧
    Forall (λ s, verifyPartialSignature message (share_publicKey s) (share_signature s)
                 = true) ss.
Proof.
  intros Ha Hpk Hgpk.
  apply aggregate_Ok_inv in Ha as (n & ss & xs & -> & Hn & -> & Hlen & Hx & Hnd & -> & [A ->] & Hv & Hagg).
  pose proof (Forall2_length _ _ _ Hx) as Hlx.
  split_and!.
  - by eapply verified_wire_signature.
  - done.
  - exists n, ss. rewrite length_fmap. split_and!; try done; lia.
Qed.

(** Under the public key of a secret share, a signature passes the check if
    and only if its bytes are those [signPartial] makes with that share. *)
Theorem signature_unique message secret pk sig M :
  publicKeyForShare secret = Ok pk → message_point message M → M ≠ c_zero →
  verifyPartialSignature message (JsVal (VStr pk)) sig = true ↔
  ∃ s, signPartial message secret = Ok s ∧ source_bytes sig = getBytes s.
Proof.
  intros (s & Hs & Hs0 & ->)%publicKeyForShare_Ok HM HMz.
  rewrite verifyPartialSignature_spec, (pairing_check_secret _ _ _ s) by apply wireHex_bytes.
  split.
  - intros (_ & M' & HM' & _ & Hsig). exists (wireHex (smul s M')). split.
    + apply signPartial_Ok. eauto 10.
    + by rewrite Hsig, <-wireHex_bytes.
  - intros (w & (s' & M' & Hs' & _ & HM' & ->)%signPartial_Ok & Hsig).
    split; [done|]. exists M. split_and!; [done..|].
    assert (s' = s) as -> by congruence.
    rewrite (message_point_unique message M M') by done.
    by rewrite Hsig, <-wireHex_bytes.
Qed.

(** Against the commitments of a polynomial, the check of a public share
    accepts the public key of a scalar if and only if the scalar is the value of
    the polynomial at the index of the share. *)
Theorem share_commitment_exact index x c s pk :
  to_bigint index = Ok x → 0 < x < order → (2 ≤ length c)%nat →
  publicKeyForShare (VBig s) = Ok pk →
  verifyPublicShareCommitment index (JsVal (VStr pk))
    (Some ((λ a, JsVal (VStr (wireHex (smul a base2)))) <$> c))
  = Ok (bool_decide (s mod order = zpeval c x mod order)).
Proof.
  intros Hi Hx Hlen (s' & [= <-] & Hs & ->)%publicKeyForShare_Ok.
  rewrite (verifyPublicShareCommitment_eval _ x _ (smul s base2) _
    ((λ a, smul a base2) <$> c)).
  - f_equal. apply bool_decide_ext. rewrite point_eval_smul. split.
    + intros E%smul_base2_inj. done.
    + intros E. by apply smul_congr.
  - done.
  - done.
  - apply wireHex_bytes.
  - by apply smul_neq_zero, base2_neq_zero.
  - by rewrite length_fmap.
  - apply Forall2_fmap_2, Forall_Forall2_diag, Forall_true. intros a. apply wireHex_bytes.
Qed.

(** The coefficients of distinct indexes are computed without an error, lie
    in [1, order), and their weighted sum recovers the constant term of every
    polynomial with no more coefficients than there are indexes. *)
Theorem lagrange_coefficients_recover xs c :
  NoDup xs → Forall (λ x, 0 < x < order) xs → xs ≠ [] → (length c ≤ length xs)%nat →
  ∃ ws, mapM (λ x, lagrangeCoefficientAtZero (VBig x) (VBig <$> xs)) xs = Ok ws ∧
    Forall (λ w, 0 < w < order) ws ∧
    foldr Z.add 0 (zip_with (λ w x, w * zpeval c x) ws xs) mod order
    = zpeval c 0 mod order.
Proof.
  intros Hnd Hxs Hne Hlen. pose proof order_pos. exists (coefficient xs <$> xs).
  assert (∀ x, x ∈ xs → _) as Hc by (intros x Hx; exact (coefficient_Ok xs x Hnd Hxs Hx)).
  split_and!.
  - apply mapM_Ok, Forall2_fmap_r, Forall_Forall2_diag, Forall_forall.
    intros x Hx. by apply Hc.
  - apply Forall_fmap, Forall_forall. intros x Hx. by apply Hc.
  - rewrite <-(weights_recover order order_prime xs c (coefficient xs)); try done.
    + f_equal. clear. generalize (coefficient xs) as w. intros w.
      induction xs as [|x xs IH]; cbn; [done|]. by rewrite IH.
    + eapply Forall_impl; [done|]. cbn. lia.
    + intros x Hx. by apply Hc.
Qed.

(** [invert] fails exactly on the multiples of the order; on anything else
    its loop ends and returns the inverse in [1, order). *)
Theorem invert_total v :
  if decide (v mod order = 0) then invert v = Throw "cannot invert zero scalar"
  else ∃ i, invert v = Ok i ∧ 0 < i < order ∧ (v * i) mod order = 1.
Proof.
  case_decide as Hv; [|by apply invert_Ok]. unfold invert. by rewrite mod_Zmod, Hv.
Qed.
End aggregation.

(** ** The theorems at concrete inputs *)
Section examples.
#[local] Existing Instance sample_ethers.
#[local] Existing Instance sample_ethers_laws.
#[local] Existing Instance sample_bls.
#[local] Existing Instance sample_bls_laws.

Definition sample_message : byte_source := JsVal (VStr "0xc0ffee").
Definition sample_poly : list Z := [42; 7; 3].
Definition sample_share (x : Z) : share := {|
  share_index := VStr (print_int x);
  share_publicKey :=
    JsVal (VStr (result_or "" (publicKeyForShare (VBig (zpeval sample_poly x)))));
  share_signature :=
    JsVal (VStr (result_or "" (signPartial sample_message (VBig (zpeval sample_poly x)))))
|}.
Definition sample_group_key : byte_source :=
  JsVal (VStr (result_or "" (publicKeyForShare (VBig 42)))).

Lemma aggregate_recovers_witness :
  ∃ sig, aggregateThresholdShares sample_message sample_group_key (VNum 3)
           (Some (sample_share <$> [9; 1; 4; 7]))
         = Ok (sig, ["9"; "1"; "4"; "7"]) ∧
         signPartial sample_message (VBig (zpeval sample_poly 0)) = Ok sig.
Proof.
  apply (aggregate_recovers_secret_signature sample_message sample_group_key 3
    sample_poly [9; 1; 4; 7] (sample_share <$> [9; 1; 4; 7])).
  - repeat constructor.
  - apply all_distinct_spec. reflexivity.
  - cbn. lia.
  - reflexivity.
  - cbn. lia.
  - vm_compute. reflexivity.
  - vm_compute. discriminate.
Defined.

Lemma aggregate_sound_witness :
  ∃ sig, signPartial sample_message (VBig 42) = Ok sig ∧ NoDup ["9"; "1"; "4"].
Proof.
  destruct (aggregateThresholdShares sample_message sample_group_key (VNum 3)
    (Some (sample_share <$> [9; 1; 4]))) as [[sig idx]|e] eqn:E; [|vm_compute in E; discriminate E].
  assert (idx = ["9"; "1"; "4"]) as -> by (vm_compute in E; congruence).
  exists sig.
  destruct (aggregate_sound sample_message sample_group_key _ _ sig _ (VBig 42)
    (result_or "" (publicKeyForShare (VBig 42))) E) as (Hs & Hn & _).
  - vm_compute. reflexivity.
  - reflexivity.
  - split; [exact Hs|exact Hn].
Defined.

Lemma signature_unique_witness :
  ∃ pk s, publicKeyForShare (VBig 42) = Ok pk ∧
    signPartial sample_message (VBig 42) = Ok s ∧
    verifyPartialSignature sample_message (JsVal (VStr pk)) (JsVal (VStr s)) = true.
Proof.
  exists (result_or "" (publicKeyForShare (VBig 42))),
    (result_or "" (signPartial sample_message (VBig 42))).
  split; [vm_compute; reflexivity|]. split; [vm_compute; reflexivity|].
  apply (signature_unique sample_message (VBig 42) _ _
    (Zmod.of_Z 101 (1 + foldl (λ h c, h * 31 + code c) 7
       (default [] (source_bytes sample_message)) mod 100) : @G1 sample_bls)).
  - vm_compute. reflexivity.
  - eexists. split; vm_compute; reflexivity.
  - vm_compute. discriminate.
  - eexists. split; [vm_compute; reflexivity|vm_compute; reflexivity].
Defined.

Lemma share_commitment_exact_witness :
  verifyPublicShareCommitment (VStr "5")
    (JsVal (VStr (result_or "" (publicKeyForShare (VBig 152)))))
    (Some ((λ a, JsVal (VStr (wireHex (smul a base2)))) <$> [42; 7; 3]))
  = Ok true.
Proof.
  rewrite (share_commitment_exact (VStr "5") 5 [42; 7; 3] 152).
  - vm_compute. reflexivity.
  - vm_compute. reflexivity.
  - cbn. lia.
  - cbn. lia.
  - vm_compute. reflexivity.
Defined.

Lemma lagrange_coefficients_witness :
  ∃ ws, mapM (λ x, lagrangeCoefficientAtZero (VBig x) (VBig <$> [2; 5; 9])) [2; 5; 9] = Ok ws
        ∧ foldr Z.add 0 (zip_with (λ w x, w * zpeval [42; 7; 3] x) ws [2; 5; 9]) mod 101 = 42.
Proof.
  destruct (lagrange_coefficients_recover [2; 5; 9] [42; 7; 3]) as (ws & Hws & _ & Hsum).
  - apply all_distinct_spec. reflexivity.
  - repeat constructor.
  - discriminate.
  - cbn. lia.
  - exists ws. split; [exact Hws|exact Hsum].
Defined.

Lemma invert_total_witness :
  ∃ i, invert 7 = Ok i ∧ 0 < i < 101 ∧ (7 * i) mod 101 = 1.
Proof. exact (invert_total 7). Defined.
End examples.
