(* ===== verification/ThresholdGroup.v ===== *)
(** * Group manifests ([threshold-group.mjs])

    The validation of a threshold group manifest into its normalized body, the
    hash the operators sign, the attestations of a DKG and of a resharing, and
    the aggregation of a set of shares against a manifest. *)

From S2P Require Import Prelude Js CanonicalJson Hex Vendor ScalarField ThresholdCrypto Samples.

Open Scope Z_scope.

Definition GROUP_FORMAT : string := "robinhood-proof-vrf-threshold-group/v1".
Definition BLS_SCHEME : string := "THRESHOLD_BLS_UNIQUE_SIGNATURE_V1".

Definition TOP_LEVEL_KEYS : list string :=
  ["format"; "scheme"; "network"; "chainId"; "verifierAdapter"; "ceremony";
   "previousManifestHash"; "epoch"; "threshold"; "groupPublicKey";
   "publicCoefficients"; "keyHash"; "dkgTranscriptHash"; "softwareCommit";
   "containerDigest"; "participants"; "attestations"; "handoffAttestations"].
Definition PARTICIPANT_KEYS : list string :=
  ["id"; "index"; "identityPublicKey"; "transportPublicKey"; "sharePublicKey"; "endpoint"].
Definition ATTESTATION_KEYS : list string := ["participantId"; "signature"].

(** A normalized participant and a normalized manifest body.  The two pinned
    build fields are kept as they were read: only their text is tested. *)
Record participant := {
  p_id : string;
  p_index : Z;
  p_identityPublicKey : string;
  p_transportPublicKey : string;
  p_sharePublicKey : string;
  p_endpoint : string
}.
Record body := {
  b_network : string;
  b_chainId : Z;
  b_verifierAdapter : string;
  b_ceremony : string;
  b_previousManifestHash : option string;
  b_epoch : Z;
  b_threshold : Z;
  b_groupPublicKey : string;
  b_publicCoefficients : list string;
  b_keyHash : string;
  b_dkgTranscriptHash : string;
  b_softwareCommit : value;
  b_containerDigest : value;
  b_participants : list participant
}.

Definition participant_value (p : participant) : value :=
  VObj [("id", VStr (p_id p)); ("index", VNum (p_index p));
        ("identityPublicKey", VStr (p_identityPublicKey p));
        ("transportPublicKey", VStr (p_transportPublicKey p));
        ("sharePublicKey", VStr (p_sharePublicKey p));
        ("endpoint", VStr (p_endpoint p))].
Definition body_fields (b : body) : list (string * value) :=
  [("format", VStr GROUP_FORMAT); ("scheme", VStr BLS_SCHEME);
   ("network", VStr (b_network b)); ("chainId", VNum (b_chainId b));
   ("verifierAdapter", VStr (b_verifierAdapter b)); ("ceremony", VStr (b_ceremony b));
   ("previousManifestHash",
     match b_previousManifestHash b with Some h => VStr h | None => VNull end);
   ("epoch", VNum (b_epoch b)); ("threshold", VNum (b_threshold b));
   ("groupPublicKey", VStr (b_groupPublicKey b));
   ("publicCoefficients", VArr (VStr <$> b_publicCoefficients b));
   ("keyHash", VStr (b_keyHash b)); ("dkgTranscriptHash", VStr (b_dkgTranscriptHash b));
   ("softwareCommit", b_softwareCommit b); ("containerDigest", b_containerDigest b);
   ("participants", VArr (participant_value <$> b_participants b))].
Definition body_value (b : body) : value := VObj (body_fields b).

Definition exactKeys (v : value) (allowed : list string) (name : string) : result unit :=
  match v with
  | VObj fs =>
      _ ← forM_ (λ key, require (bool_decide (key ∈ allowed))
                          (name +:+ " contains unsupported field " +:+ key)) (keys fs);
      forM_ (λ key, require (bool_decide (is_Some (assoc key fs)))
                      (name +:+ " is missing " +:+ key)) allowed
  | _ => Throw (name +:+ " must be an object")
  end.

Definition integer (v : value) (name : string) (minimum : Z) : result Z :=
  match v with
  | VNum z =>
      if safe_integer z && (minimum <=? z) then Ok z
      else Throw (name +:+ " must be an integer of at least " +:+ print_int minimum)
  | _ => Throw (name +:+ " must be an integer of at least " +:+ print_int minimum)
  end.

Definition is_lower_alnum (c : ascii) : bool := is_lower c || is_digit c.
(** [/^[a-z0-9][a-z0-9-]{1,62}$/] *)
Definition network_name (s : string) : bool :=
  head_tail is_lower_alnum (λ c, is_lower_alnum c || Ascii.eqb c "-") 1 62 s.
(** [/^[a-z0-9][a-z0-9._-]{1,62}$/] *)
Definition participant_name (s : string) : bool :=
  head_tail is_lower_alnum
    (λ c, is_lower_alnum c || Ascii.eqb c "." || Ascii.eqb c "_" || Ascii.eqb c "-") 1 62 s.
(** [/^[0-9a-f]{40}$|^[0-9a-f]{64}$/] *)
Definition commit_name (s : string) : bool :=
  forallb is_lower_hex_digit (chars s)
  && ((String.length s =? 40) || (String.length s =? 64))%nat.
(** [/^sha256:[0-9a-f]{64}$/] *)
Definition digest_name (s : string) : bool :=
  starts_with "sha256:" s && forallb is_lower_hex_digit (drop 7 (chars s))
  && (String.length s =? 71)%nat.

(** [options]: what the command line gives besides the manifest. *)
Record group_options := {
  allowLoopback : bool;
  previousManifest : value;
  trustedPreviousManifestHash : value
}.

Section group.
Context `{Ethers, NobleBls, NodeCrypto, UrlApi}.

Definition BLS_SCHEME_ID : string := keccak256 (toUtf8Bytes BLS_SCHEME).

Definition fixedHex (v : value) (bytes : nat) (name : string) : result string :=
  match v with
  | VStr s =>
      if isHexString s bytes then Ok (lower s)
      else Throw (name +:+ " must be " +:+ print_int (Z.of_nat bytes) +:+ " hex bytes")
  | _ => Throw (name +:+ " must be " +:+ print_int (Z.of_nat bytes) +:+ " hex bytes")
  end.

Definition fixedNonzeroHex (v : value) (bytes : nat) (name : string) : result string :=
  normalized ← fixedHex v bytes name;
  if zero_hex normalized then Throw (name +:+ " cannot be zero") else Ok normalized.

Definition endpoint (v : value) (allowLoopback : bool) : result string :=
  match parse_url (to_str v) with
  | None => Throw "participant endpoint must be a valid URL"
  | Some parsed =>
      let loopback :=
        bool_decide (url_hostname parsed ∈ ["localhost"; "127.0.0.1"; "::1"]) in
      _ ← require (bool_decide (url_protocol parsed = "https:")
             || (allowLoopback && loopback && bool_decide (url_protocol parsed = "http:")))
            "participant endpoint must use HTTPS";
      _ ← require (bool_decide (url_username parsed = "")
             && bool_decide (url_password parsed = "") && bool_decide (url_hash parsed = ""))
            "participant endpoint cannot contain credentials or a fragment";
      Ok (strip_slash (url_href parsed))
  end.

(** [keccak256(hex)] of a hex string. *)
Definition keccak256_hex (s : string) : result string :=
  b ← from_option_or "invalid BytesLike value" (getBytes s); Ok (keccak256 b).

Definition adapterKeyHash (groupPublicKey : value) : result string :=
  normalizedKey ← fixedHex groupPublicKey 192 "groupPublicKey";
  _ ← g2Point (JsVal (VStr normalizedKey)) "group public key";
  inner ← keccak256_hex normalizedKey;
  Ok (keccak256 (abi_encode ["bytes32"; "bytes32"] [VStr BLS_SCHEME_ID; VStr inner])).

(** The epoch rules of a DKG and of a resharing. *)
Definition normalizeCeremony (manifest : value) (epoch : Z) : result (string * option string) :=
  let ceremony := prop_opt manifest "ceremony" in
  if strict_eq ceremony (VStr "dkg") then
    if negb (epoch =? 1) || negb (strict_eq (prop_opt manifest "previousManifestHash") VNull)
    then Throw "initial DKG must use epoch 1 and a null previousManifestHash"
    else Ok ("dkg", None)
  else if strict_eq ceremony (VStr "reshare") then
    if epoch <? 2 then Throw "resharing must start at epoch 2 or later"
    else
      h ← fixedHex (prop_opt manifest "previousManifestHash") 32 "previousManifestHash";
      Ok ("reshare", Some h)
  else Throw "ceremony must be dkg or reshare".

(** [/^0x0{40}$/i] *)
Definition zero_address (s : string) : bool := zero_hex s && (String.length s =? 42)%nat.

Definition normalizeAdapter (v : value) : result string :=
  verifierAdapter ← from_option_or "verifierAdapter must be a nonzero address"
                      (as_string v ≫= getAddress);
  if zero_address verifierAdapter
  then Throw "verifierAdapter must be a nonzero address" else Ok verifierAdapter.

Definition coefficient_name (position : nat) : string :=
  "publicCoefficients[" +:+ print_int (Z.of_nat position) +:+ "]".

Definition normalizeCoefficient (position : nat) (v : value) : result string :=
  commitment ← fixedHex v 192 (coefficient_name position);
  _ ← g2CommitmentPoint (JsVal (VStr commitment)) (coefficient_name position);
  Ok commitment.

Definition INFINITY_HEX : string :=
  "0x40" +:+ of_chars (concat (replicate 191 ["0"%char; "0"%char])).

Definition normalizeCoefficients (v : value) (threshold : Z) (groupPublicKey : string)
    : result (list string) :=
  match v with
  | VArr l =>
      if negb (Z.of_nat (length l) =? threshold)
      then Throw "publicCoefficients must contain exactly threshold G2 commitments"
      else
        publicCoefficients ← imapM normalizeCoefficient l;
        _ ← require (bool_decide (head publicCoefficients = Some groupPublicKey))
              "publicCoefficients[0] must equal the group public key";
        highest ← g2CommitmentPoint
                    (match last publicCoefficients with
                     | Some c => JsVal (VStr c) | None => JsVal VUndef end)
                    "highest public coefficient";
        infinity ← g2CommitmentPoint (JsVal (VStr INFINITY_HEX)) "point at infinity";
        _ ← require (negb (bool_decide (highest = infinity)))
              "highest public coefficient cannot be zero";
        Ok publicCoefficients
  | _ => Throw "publicCoefficients must contain exactly threshold G2 commitments"
  end.

Definition position_name (position : nat) : string :=
  "participants[" +:+ print_int (Z.of_nat position) +:+ "]".

Definition normalizeParticipant (allowLoopback : bool) (position : nat) (v : value)
    : result participant :=
  let name := position_name position in
  _ ← exactKeys v PARTICIPANT_KEYS name;
  id ← from_option_or (name +:+ ".id is invalid") (as_string (prop_opt v "id"));
  _ ← require (participant_name id) (name +:+ ".id is invalid");
  index ← integer (prop_opt v "index") (name +:+ ".index") 1;
  identityPublicKey ← fixedNonzeroHex (prop_opt v "identityPublicKey") 32
                        (name +:+ ".identityPublicKey");
  transportPublicKey ← fixedNonzeroHex (prop_opt v "transportPublicKey") 32
                         (name +:+ ".transportPublicKey");
  sharePublicKey ← fixedHex (prop_opt v "sharePublicKey") 192 (name +:+ ".sharePublicKey");
  _ ← g2Point (JsVal (VStr sharePublicKey)) (name +:+ ".sharePublicKey");
  url ← endpoint (prop_opt v "endpoint") allowLoopback;
  Ok {| p_id := id; p_index := index; p_identityPublicKey := identityPublicKey;
        p_transportPublicKey := transportPublicKey; p_sharePublicKey := sharePublicKey;
        p_endpoint := url |}.

(** The fields that no two participants share. *)
Definition unique_fields (participants : list participant) : list (string * list string) :=
  [("participant IDs", p_id <$> participants);
   ("identity public keys", p_identityPublicKey <$> participants);
   ("transport public keys", p_transportPublicKey <$> participants);
   ("share public keys", p_sharePublicKey <$> participants);
   ("endpoints", p_endpoint <$> participants)].

Definition check_index (position : nat) (p : participant) : result unit :=
  require (p_index p =? Z.of_nat position + 1)
    "participants must be sorted and use contiguous indexes starting at 1".

Definition check_share (publicCoefficients : list string) (p : participant) : result unit :=
  ok ← verifyPublicShareCommitment (VNum (p_index p)) (JsVal (VStr (p_sharePublicKey p)))
         (Some ((λ c, JsVal (VStr c)) <$> publicCoefficients));
  require ok ("share public key for " +:+ p_id p +:+ " does not match publicCoefficients").

Definition normalizeParticipants (v : value) (threshold : Z) (allowLoopback : bool)
    (publicCoefficients : list string) : result (list participant) :=
  match v with
  | VArr l =>
      let n := Z.of_nat (length l) in
      if (n <? 3) || (31 <? n) then Throw "participants must contain between 3 and 31 operators"
      else if (n <? threshold) || (threshold * 2 <=? n)
      then Throw "threshold must be a strict majority and cannot exceed the roster size"
      else
        participants ← imapM (normalizeParticipant allowLoopback) l;
        _ ← imapM check_index participants;
        _ ← forM_ (λ '(field, values), require (all_distinct values)
                      (field +:+ " must be unique")) (unique_fields participants);
        _ ← forM_ (check_share publicCoefficients) participants;
        Ok participants
  | _ => Throw "participants must contain between 3 and 31 operators"
  end.

Definition normalizeBody (manifest : value) (allowLoopback : bool) : result body :=
  _ ← exactKeys manifest TOP_LEVEL_KEYS "manifest";
  _ ← require (strict_eq (prop_opt manifest "format") (VStr GROUP_FORMAT))
        "unsupported group manifest format";
  _ ← require (strict_eq (prop_opt manifest "scheme") (VStr BLS_SCHEME))
        "unsupported threshold signature scheme";
  network ← from_option_or "network must be a stable lowercase identifier"
              (as_string (prop_opt manifest "network"));
  _ ← require (network_name network) "network must be a stable lowercase identifier";
  chainId ← integer (prop_opt manifest "chainId") "chainId" 1;
  epoch ← integer (prop_opt manifest "epoch") "epoch" 1;
  threshold ← integer (prop_opt manifest "threshold") "threshold" 2;
  ceremony ← normalizeCeremony manifest epoch;
  verifierAdapter ← normalizeAdapter (prop_opt manifest "verifierAdapter");
  groupPublicKey ← fixedHex (prop_opt manifest "groupPublicKey") 192 "groupPublicKey";
  _ ← g2Point (JsVal (VStr groupPublicKey)) "group public key";
  publicCoefficients ←
    normalizeCoefficients (prop_opt manifest "publicCoefficients") threshold groupPublicKey;
  keyHash ← fixedHex (prop_opt manifest "keyHash") 32 "keyHash";
  expectedKeyHash ← adapterKeyHash (VStr groupPublicKey);
  _ ← require (bool_decide (keyHash = expectedKeyHash))
        "keyHash does not match the group public key and scheme";
  dkgTranscriptHash ←
    fixedNonzeroHex (prop_opt manifest "dkgTranscriptHash") 32 "dkgTranscriptHash";
  _ ← require (commit_name (to_str (prop_opt manifest "softwareCommit")))
        "softwareCommit must be a lowercase 40- or 64-character hex commit";
  _ ← require (digest_name (to_str (prop_opt manifest "containerDigest")))
        "containerDigest must be a pinned sha256 digest";
  participants ← normalizeParticipants (prop_opt manifest "participants") threshold
                   allowLoopback publicCoefficients;
  Ok {| b_network := network; b_chainId := chainId; b_verifierAdapter := verifierAdapter;
        b_ceremony := ceremony.1; b_previousManifestHash := ceremony.2;
        b_epoch := epoch; b_threshold := threshold; b_groupPublicKey := groupPublicKey;
        b_publicCoefficients := publicCoefficients; b_keyHash := keyHash;
        b_dkgTranscriptHash := dkgTranscriptHash;
        b_softwareCommit := prop_opt manifest "softwareCommit";
        b_containerDigest := prop_opt manifest "containerDigest";
        b_participants := participants |}.

Definition manifestHashOf (b : body) : result string :=
  text ← canonicalJson (body_value b); Ok (keccak256 (toUtf8Bytes text)).

Definition prepareGroupManifest (manifest : value) (allowLoopback : bool)
    : result (body * string) :=
  body ← normalizeBody manifest allowLoopback;
  manifestHash ← manifestHashOf body;
  Ok (body, manifestHash).

Definition hexBytes (s : string) : result bytes :=
  from_option_or "invalid BytesLike value" (getBytes s).

(** [verifyIdentitySignature(null, hash, ed25519PublicKey(identity), signature)] *)
Definition identity_verifies (manifestHash identityPublicKey signature : string)
    : result bool :=
  data ← hexBytes manifestHash;
  key ← hexBytes identityPublicKey;
  sig ← hexBytes signature;
  Ok (ed_verify data key sig).

(** The body of the loop of [validateAttestations]. *)
Definition attestation_step (participants : list (string * participant))
    (manifestHash label : string) (attesters : list string) (item : nat * value)
    : result (list string) :=
  let '(position, attestation) := item in
  _ ← exactKeys attestation ATTESTATION_KEYS
        (label +:+ "[" +:+ print_int (Z.of_nat position) +:+ "]");
  participant ← from_option_or
    (label +:+ " references unknown participant "
     +:+ to_str (prop_opt attestation "participantId"))
    (as_string (prop_opt attestation "participantId") ≫= map_get_str participants);
  _ ← require (negb (bool_decide (p_id participant ∈ attesters)))
        ("duplicate " +:+ label +:+ " from " +:+ p_id participant);
  signature ← fixedHex (prop_opt attestation "signature") 64 (label +:+ " signature");
  ok ← identity_verifies manifestHash (p_identityPublicKey participant) signature;
  _ ← require ok ("invalid " +:+ label +:+ " from " +:+ p_id participant);
  Ok (js_set_add attesters (p_id participant)).

Definition validateAttestations (attestations : value)
    (participants : list (string * participant)) (required : Z)
    (manifestHash label : string) : result (list string) :=
  match attestations with
  | VArr l =>
      attesters ← foldM (attestation_step participants manifestHash label) [] (imap pair l);
      _ ← require (negb (Z.of_nat (length attesters) <? required))
            ("at least " +:+ print_int required +:+ " valid " +:+ label +:+ " are required");
      Ok (js_sort attesters)
  | _ => Throw (label +:+ " must be an array")
  end.

(** [new Map(participants.map((participant) => [participant.id, participant]))] *)
Definition participants_by_id (b : body) : list (string * participant) :=
  (λ p, (p_id p, p)) <$> b_participants b.

Record group := {
  g_manifest : value;
  g_body : body;
  g_manifestHash : string;
  g_validAttesters : list string;
  g_validHandoffAttesters : list string
}.
Definition g_keyHash (g : group) : string := b_keyHash (g_body g).

Definition FIXED_FIELDS : list string :=
  ["scheme"; "network"; "chainId"; "verifierAdapter"; "groupPublicKey"; "keyHash"].

(** The checks of a resharing against the manifest it follows. *)
Definition validateHandoff (manifest : value) (options : group_options) (body : body)
    (manifestHash : string) : result (list string) :=
  _ ← require (truthy (previousManifest options) && truthy (trustedPreviousManifestHash options))
        "resharing requires the previous manifest and its separately trusted hash";
  '(previous, previousHash) ←
    prepareGroupManifest (previousManifest options) (allowLoopback options);
  trusted ← fixedHex (trustedPreviousManifestHash options) 32 "trustedPreviousManifestHash";
  _ ← require (bool_decide (previousHash = trusted)
               && bool_decide (b_previousManifestHash body = Some previousHash))
        "resharing previous manifest does not match the trusted hash";
  _ ← forM_ (λ field,
        require (strict_eq (prop_opt (body_value body) field)
                   (prop_opt (body_value previous) field))
          ("resharing cannot change " +:+ field)) FIXED_FIELDS;
  _ ← require (b_epoch body =? b_epoch previous + 1)
        "resharing epoch must immediately follow the previous epoch";
  validateAttestations (prop_opt manifest "handoffAttestations")
    (participants_by_id previous) (b_threshold previous) manifestHash "handoff attestations".

Definition validateGroupManifest (manifest : value) (options : group_options)
    : result group :=
  '(body, manifestHash) ← prepareGroupManifest manifest (allowLoopback options);
  validAttesters ← validateAttestations (prop_opt manifest "attestations")
    (participants_by_id body) (b_threshold body) manifestHash "identity attestations";
  validHandoffAttesters ←
    (if bool_decide (b_ceremony body = "dkg") then
       _ ← require (bool_decide (prop_opt manifest "handoffAttestations" = VArr []))
             "initial DKG cannot contain handoff attestations";
       Ok []
     else validateHandoff manifest options body manifestHash);
  Ok {| g_manifest := VObj (body_fields body ++
          [("attestations", prop_opt manifest "attestations");
           ("handoffAttestations", prop_opt manifest "handoffAttestations")]);
        g_body := body; g_manifestHash := manifestHash;
        g_validAttesters := validAttesters;
        g_validHandoffAttesters := validHandoffAttesters |}.

(** One share of a share set, matched against the manifest. *)
Definition share_of_set (participants : list (string * participant)) (position : nat)
    (v : value) : result share :=
  _ ← exactKeys v ["participantId"; "index"; "signature"]
        ("shares[" +:+ print_int (Z.of_nat position) +:+ "]");
  let mismatch := "share " +:+ print_int (Z.of_nat position)
                  +:+ " does not match a manifest participant" in
  participant ← from_option_or mismatch
    (as_string (prop_opt v "participantId") ≫= map_get_str participants);
  _ ← require (strict_eq (VNum (p_index participant)) (prop_opt v "index")) mismatch;
  signature ← fixedHex (prop_opt v "signature") 96
    ("shares[" +:+ print_int (Z.of_nat position) +:+ "].signature");
  Ok {| share_index := prop_opt v "index";
        share_publicKey := JsVal (VStr (p_sharePublicKey participant));
        share_signature := JsVal (VStr signature) |}.

Record aggregate_proof := {
  ap_manifestHash : string;
  ap_keyHash : string;
  ap_message : string;
  ap_signature : string;
  ap_proofData : bytes;
  ap_shareIndexes : list string
}.

(** [aggregateFromFiles], given the two parsed files. *)
Definition aggregateFromFiles (manifest shareSet : value) (options : group_options)
    : result aggregate_proof :=
  group ← validateGroupManifest manifest options;
  _ ← exactKeys shareSet ["manifestHash"; "message"; "shares"] "share set";
  setHash ← fixedHex (prop_opt shareSet "manifestHash") 32 "share set manifestHash";
  _ ← require (bool_decide (setHash = g_manifestHash group))
        "share set belongs to a different group manifest";
  message ← fixedHex (prop_opt shareSet "message") 32 "share set message";
  match prop_opt shareSet "shares" with
  | VArr l =>
      shares ← imapM (share_of_set (participants_by_id (g_body group))) l;
      aggregate ← aggregateThresholdShares (JsVal (VStr message))
        (JsVal (VStr (b_groupPublicKey (g_body group))))
        (VNum (b_threshold (g_body group))) (Some shares);
      Ok {| ap_manifestHash := g_manifestHash group; ap_keyHash := g_keyHash group;
            ap_message := message; ap_signature := aggregate.1;
            ap_proofData := abi_encode ["bytes"; "bytes"]
              [VStr (b_groupPublicKey (g_body group)); VStr aggregate.1];
            ap_shareIndexes := aggregate.2 |}
  | _ => Throw "share set shares must be an array"
  end.
End group.

(** ** What the field readers accept *)
Section readers.
Context `{Ethers, !EthersLaws, NobleBls, !BlsLaws, NodeCrypto, UrlApi}.

(** A normalized hex field: the canonical text of [n] bytes. *)
Definition hex_field (n : nat) (s : string) : Prop := ∃ b, length b = n ∧ s = hexlify b.

Lemma fixedHex_Ok v n name s :
  fixedHex v n name = Ok s ↔
  ∃ s0, v = VStr s0 ∧ isHexString s0 n = true ∧ s = lower s0.
Proof.
  unfold fixedHex. destruct v as [| | | | | |s0| |]; try naive_solver.
  destruct (isHexString s0 n) eqn:E; split.
  - intros [= <-]. eauto.
  - by intros (? & [= <-] & _ & ->).
  - done.
  - intros (? & [= <-] & ? & _). congruence.
Qed.

Lemma fixedHex_field v n name s : fixedHex v n name = Ok s → hex_field n s.
Proof.
  intros (s0 & -> & (b & Hb & <-)%isHexString_bytes & ->)%fixedHex_Ok.
  exists b. split; [done|]. by apply getBytes_hex.
Qed.

Lemma fixedHex_hex_field n s name : hex_field n s → fixedHex (VStr s) n name = Ok s.
Proof.
  intros (b & <- & ->). apply fixedHex_Ok. exists (hexlify b).
  by rewrite hexlify_lower, isHexString_hexlify.
Qed.

Lemma fixedNonzeroHex_Ok v n name s :
  fixedNonzeroHex v n name = Ok s ↔ fixedHex v n name = Ok s ∧ zero_hex s = false.
Proof.
  unfold fixedNonzeroHex. destruct (fixedHex v n name) as [s'|]; cbn; [|naive_solver].
  destruct (zero_hex s') eqn:E; split; [done|intros ([= <-] & ?); congruence| |].
  - intros [= <-]. auto.
  - by intros ([= <-] & _).
Qed.

Lemma integer_Ok v name min z :
  integer v name min = Ok z ↔ v = VNum z ∧ safe_integer z = true ∧ min <= z.
Proof.
  unfold integer. destruct v as [| | |z'| | | | |]; try naive_solver.
  destruct (safe_integer z') eqn:E, (Z.leb_spec min z'); cbn;
    (split; [intros ?; simplify_eq; auto|intros ([= ->] & ? & ?); congruence || lia]).
Qed.

(** A hex field that decodes to a point is the encoding of that point. *)
Lemma hex_field_point s P n :
  hex_field n s → source_bytes (JsVal (VStr s)) = Some (c_encode (P : G2)) → s = wireHex P.
Proof.
  intros (b & _ & ->) E. cbn in E. rewrite getBytes_hexlify in E. unfold wireHex. congruence.
Qed.

Lemma hex_field_wireHex (P : G2) : hex_field 192 (wireHex P).
Proof. exists (c_encode P). split; [apply encode2_length|done]. Qed.

Lemma exactKeys_Ok v allowed name u :
  exactKeys v allowed name = Ok u ↔
  ∃ fs, v = VObj fs ∧ (∀ k, k ∈ keys fs ↔ k ∈ allowed).
Proof.
  assert (∀ (fs : list (string * value)) k, is_Some (assoc k fs) ↔ k ∈ keys fs) as Hin.
  { intros fs k. unfold keys. induction fs as [|[k' x] fs IH]; cbn.
    - split; [by intros []|set_solver].
    - case_decide; [subst; split; [set_solver|eauto]|]. rewrite IH. set_solver. }
  destruct v as [| | | | | | | |fs]; try (split; [done|by intros (? & ? & _)]).
  split.
  - intros Hk. cbn in Hk. apply bind_Ok in Hk as ([] & Hsub%forM_Ok & Hall%forM_Ok).
    exists fs. split; [done|]. intros k. split.
    + rewrite Forall_forall in Hsub. intros Hkf. apply Hsub in Hkf.
      by apply require_Ok, bool_decide_eq_true in Hkf.
    + rewrite Forall_forall in Hall. intros Hka. apply Hall in Hka.
      apply require_Ok, bool_decide_eq_true in Hka. by apply Hin.
  - intros (fs' & [= <-] & Hk). cbn. destruct u.
    apply bind_Ok. exists tt. split; apply forM_Ok, Forall_forall.
    + intros k Hkf. apply require_Ok, bool_decide_eq_true. by apply Hk.
    + intros k Hka. apply require_Ok, bool_decide_eq_true. by apply Hin, Hk.
Qed.
End readers.

(** ** Well-formed bodies *)

(** What holds of the points behind a group: the public polynomial [Cs], the
    group key at zero, and one non-zero share key per participant on it. *)
Section wf.
Context `{Ethers, !EthersLaws, NobleBls, !BlsLaws, NodeCrypto, UrlApi}.

Record wf_participants (Cs : list G2) (t : Z) (ps : list participant) : Prop := {
  wf_roster : 3 <= Z.of_nat (length ps) <= 31;
  wf_majority : t <= Z.of_nat (length ps) < 2 * t;
  wf_index i p : ps !! i = Some p → p_index p = Z.of_nat i + 1 ∧ p_index p < order;
  wf_share p : p ∈ ps → p_sharePublicKey p = wireHex (point_eval Cs (p_index p)) ∧
                        point_eval Cs (p_index p) ≠ c_zero;
  wf_identity p : p ∈ ps → hex_field 32 (p_identityPublicKey p) ∧
                           hex_field 32 (p_transportPublicKey p);
  wf_ids : NoDup (p_id <$> ps);
  wf_identities : NoDup (p_identityPublicKey <$> ps);
  wf_transports : NoDup (p_transportPublicKey <$> ps);
  wf_shares : NoDup (p_sharePublicKey <$> ps);
  wf_endpoints : NoDup (p_endpoint <$> ps)
}.

Record wf_body (Cs : list G2) (b : body) : Prop := {
  wf_threshold : 2 <= b_threshold b ∧ safe_integer (b_threshold b) = true;
  wf_degree : Z.of_nat (length Cs) = b_threshold b;
  wf_commitments : b_publicCoefficients b = wireHex <$> Cs;
  wf_key : ∃ K, head Cs = Some K ∧ K ≠ c_zero ∧ b_groupPublicKey b = wireHex K;
  wf_top C : last Cs = Some C → C ≠ c_zero;
  wf_keyHash : adapterKeyHash (VStr (b_groupPublicKey b)) = Ok (b_keyHash b);
  wf_chain : 1 <= b_chainId b ∧ safe_integer (b_chainId b) = true;
  wf_epoch : (b_ceremony b = "dkg" ∧ b_epoch b = 1 ∧ b_previousManifestHash b = None) ∨
             (b_ceremony b = "reshare" ∧ 2 <= b_epoch b ∧
              ∃ h, b_previousManifestHash b = Some h ∧ hex_field 32 h);
  wf_members : wf_participants Cs (b_threshold b) (b_participants b)
}.

Lemma INFINITY_HEX_bytes : getBytes INFINITY_HEX = Some (c_encode (c_zero : G2)).
Proof.
  rewrite encode2_zero, <-getBytes_hexlify. f_equal. apply chars_inj.
  rewrite hexlify_chars. vm_refl.
Qed.

Lemma g2_field_point v s name name' P :
  fixedHex v 192 name = Ok s → g2CommitmentPoint (JsVal (VStr s)) name' = Ok P →
  s = wireHex P.
Proof.
  intros Hs%fixedHex_field HP%g2CommitmentPoint_Ok. by apply (hex_field_point s P 192).
Qed.

Lemma normalizeCoefficients_Ok v t K cs :
  normalizeCoefficients v t K = Ok cs →
  ∃ Cs, cs = wireHex <$> Cs ∧ Z.of_nat (length Cs) = t ∧ head cs = Some K ∧
        ∀ C, last Cs = Some C → C ≠ c_zero.
Proof.
  unfold normalizeCoefficients. destruct v as [| | | | | | |l|]; try done.
  intros Hc. apply if_throw_Ok in Hc as [Hlen%negb_false_iff%Z.eqb_eq Hc].
  apply bind_Ok in Hc as (cs' & Hcs & Hc).
  apply bind_Ok in Hc as (? & Hhd%require_Ok%bool_decide_eq_true & Hc).
  apply bind_Ok in Hc as (top & Htop & Hc). apply bind_Ok in Hc as (inf & Hinf & Hc).
  apply bind_Ok in Hc as (? & Hz%require_Ok%negb_true_iff%bool_decide_eq_false & [= ->]).
  apply imapM_Ok in Hcs as Hl. destruct Hl as [Hl _].
  destruct (Forall_image wireHex cs) as [Cs ->].
  { eapply imapM_Forall; [|done]. cbn. intros ? ? y Hy.
    unfold normalizeCoefficient in Hy. apply bind_Ok in Hy as (c & Hc & Hy).
    apply bind_Ok in Hy as (P & HP & [= <-]). exists P. by eapply g2_field_point. }
  exists Cs. rewrite length_fmap in Hl. split_and!; [done|lia|done|].
  intros C HC. rewrite fmap_last, HC in Htop. cbn [fmap option_fmap option_map] in Htop.
  apply g2CommitmentPoint_Ok in Htop, Hinf.
  rewrite wireHex_bytes in Htop. cbn [source_bytes] in Hinf. rewrite INFINITY_HEX_bytes in Hinf.
  apply Some_inj, c_encode_inj in Htop as <-. apply Some_inj, c_encode_inj in Hinf as <-. done.
Qed.

Lemma normalizeParticipant_Ok allow i v p :
  normalizeParticipant allow i v = Ok p →
  participant_name (p_id p) = true ∧ safe_integer (p_index p) = true ∧ 1 <= p_index p ∧
  hex_field 32 (p_identityPublicKey p) ∧ hex_field 32 (p_transportPublicKey p) ∧
  zero_hex (p_identityPublicKey p) = false ∧ zero_hex (p_transportPublicKey p) = false ∧
  (∃ P, P ≠ c_zero ∧ p_sharePublicKey p = wireHex (P : G2)) ∧
  endpoint (prop_opt v "endpoint") allow = Ok (p_endpoint p).
Proof.
  unfold normalizeParticipant. intros Hp.
  apply bind_Ok in Hp as (? & _ & Hp). apply bind_Ok in Hp as (id & _ & Hp).
  apply bind_Ok in Hp as (? & Hid%require_Ok & Hp).
  apply bind_Ok in Hp as (index & (_ & Hsafe & Hindex)%integer_Ok & Hp).
  apply bind_Ok in Hp as (ident & [Hident%fixedHex_field Hiz]%fixedNonzeroHex_Ok & Hp).
  apply bind_Ok in Hp as (trans & [Htrans%fixedHex_field Htz]%fixedNonzeroHex_Ok & Hp).
  apply bind_Ok in Hp as (sk & Hsk%fixedHex_field & Hp).
  apply bind_Ok in Hp as (P & [HP HPz]%g2Point_Ok & Hp).
  apply bind_Ok in Hp as (url & Hurl & [= <-]). cbn.
  split_and!; try done. exists P. split; [done|]. by apply (hex_field_point sk P 192).
Qed.

Lemma check_share_Ok Cs p P u :
  (2 ≤ length Cs)%nat → P ≠ c_zero → p_sharePublicKey p = wireHex P →
  check_share (wireHex <$> Cs) p = Ok u →
  0 < p_index p < order ∧ point_eval Cs (p_index p) = P.
Proof.
  intros HCs HP Hsk Hc. unfold check_share in Hc.
  apply bind_Ok in Hc as (ok & Hok & ->%require_Ok).
  assert (0 < p_index p < order) as Hi.
  { unfold verifyPublicShareCommitment in Hok. case_match; [done|].
    apply bind_Ok in Hok as (i & [[= <-] Hi]%scalarIndex_Ok & _). done. }
  rewrite (verifyPublicShareCommitment_eval _ (p_index p) _ P _ Cs) in Hok; try done.
  - injection Hok as Hok. by apply bool_decide_eq_true in Hok.
  - rewrite Hsk. apply wireHex_bytes.
  - by rewrite !length_fmap.
  - apply Forall2_fmap_l, Forall2_fmap_l, Forall_Forall2_diag, Forall_true.
    intros C. apply wireHex_bytes.
Qed.

Lemma normalizeParticipants_wf v t allow Cs ps :
  2 <= t → Z.of_nat (length Cs) = t →
  normalizeParticipants v t allow (wireHex <$> Cs) = Ok ps → wf_participants Cs t ps.
Proof.
  intros Ht HCs. unfold normalizeParticipants.
  destruct v as [| | | | | | |l|]; try done. intros Hp.
  apply if_throw_Ok in Hp as [Hn Hp]. apply if_throw_Ok in Hp as [Hm Hp].
  apply bind_Ok in Hp as (ps' & Hps & Hp). apply bind_Ok in Hp as (us & Hidx & Hp).
  apply bind_Ok in Hp as (? & Hu%forM_Ok & Hp).
  apply bind_Ok in Hp as (? & Hsh%forM_Ok & [= ->]).
  destruct (imapM_Ok _ _ _ Hps) as [Hlen _]. reflect_bool_hyps.
  assert (Forall (λ p, hex_field 32 (p_identityPublicKey p) ∧
    hex_field 32 (p_transportPublicKey p) ∧
    ∃ P, P ≠ c_zero ∧ p_sharePublicKey p = wireHex (P : G2)) ps) as Hall.
  { eapply imapM_Forall; [|done]. intros ? ? y Hy%normalizeParticipant_Ok.
    destruct Hy as (_ & _ & _ & ? & ? & _ & _ & ? & _). done. }
  rewrite Forall_forall in Hall, Hsh.
  assert (∀ p, p ∈ ps → 0 < p_index p < order ∧
    p_sharePublicKey p = wireHex (point_eval Cs (p_index p)) ∧
    point_eval Cs (p_index p) ≠ c_zero) as Hshare.
  { intros p Hp. destruct (Hall p Hp) as (_ & _ & P & HP & Hsk).
    destruct (check_share_Ok Cs p P tt) as [? <-]; [lia|done|done|by apply Hsh|done]. }
  unfold unique_fields in Hu. rewrite !Forall_cons in Hu.
  destruct Hu as (Hu1 & Hu2 & Hu3 & Hu4 & Hu5 & _).
  apply require_Ok, all_distinct_spec in Hu1, Hu2, Hu3, Hu4, Hu5.
  split; try done; try lia.
  - intros i p Hip. split.
    + apply imapM_Ok in Hidx as [_ Hidx]. destruct (Hidx i p Hip) as (u & _ & Hci).
      by apply require_Ok, Z.eqb_eq in Hci.
    + by apply Hshare, (list_elem_of_lookup_2 _ i).
  - intros p Hp. by apply Hshare.
  - intros p Hp. by destruct (Hall p Hp) as (? & ? & _).
Qed.
End wf.

(** ** Attestations *)
Section attestations.
Context `{Ethers, !EthersLaws, NobleBls, !BlsLaws, NodeCrypto, UrlApi}.

(** The participant [id] signed [hash]: [attestations] holds a signature that
    verifies under its identity key. *)
Definition attested (ps : list participant) (attestations : list value)
    (hash id : string) : Prop :=
  ∃ p a sig, p ∈ ps ∧ p_id p = id ∧ a ∈ attestations ∧
    prop_opt a "participantId" = VStr id ∧
    fixedHex (prop_opt a "signature") 64 "" = Ok sig ∧
    identity_verifies hash (p_identityPublicKey p) sig = Ok true.

Lemma map_get_str_Some {A} (f : A → string) l k x :
  map_get_str ((λ a, (f a, a)) <$> l) k = Some x → x ∈ l ∧ f x = k.
Proof.
  unfold map_get_str. intros ([k' y] & [Hin Hk]%find_first_Some & ->)%fmap_Some.
  apply bool_decide_eq_true in Hk as <-. rewrite elem_of_reverse in Hin.
  apply list_elem_of_fmap in Hin as (z & [= -> ->] & Hz). done.
Qed.

Lemma fixedHex_name v n name name' s : fixedHex v n name = Ok s → fixedHex v n name' = Ok s.
Proof. rewrite !fixedHex_Ok. done. Qed.

Lemma attestation_step_Ok ps hash label acc pos a acc' :
  attestation_step ((λ p, (p_id p, p)) <$> ps) hash label acc (pos, a) = Ok acc' →
  ∃ id, acc' = (acc ++ [id]) ∧ (id ∉ acc) ∧ attested ps [a] hash id.
Proof.
  unfold attestation_step. intros Ha.
  apply bind_Ok in Ha as (? & _ & Ha).
  apply bind_Ok in Ha as (p & Hp%from_option_or_Ok & Ha).
  apply bind_Ok in Ha as (? & Hnew%require_Ok%negb_true_iff%bool_decide_eq_false & Ha).
  apply bind_Ok in Ha as (sig & Hsig & Ha).
  apply bind_Ok in Ha as (ok & Hok & Ha).
  apply bind_Ok in Ha as (? & ->%require_Ok & [= <-]).
  apply bind_Some in Hp as (id & Hid & Hp).
  destruct (prop_opt a "participantId") as [| | | | | |id'| |] eqn:Ea; try done.
  injection Hid as ->. apply map_get_str_Some in Hp as [Hp <-].
  exists (p_id p). unfold js_set_add. rewrite decide_False by done.
  split_and!; try done. exists p, a, sig.
  split_and!; try done; [by apply list_elem_of_singleton|by eapply fixedHex_name].
Qed.

Lemma attested_mono ps l k hash id :
  l ⊆ k → attested ps l hash id → attested ps k hash id.
Proof. intros Hlk (p & a & sig & ? & ? & ? & ? & ? & ?). exists p, a, sig. set_solver. Qed.

(** What [validateAttestations] promises: enough distinct participants, each with
    a signature over the hash that verifies. *)
Lemma validateAttestations_Ok v ps required hash label ids :
  validateAttestations v ((λ p, (p_id p, p)) <$> ps) required hash label = Ok ids →
  ∃ l, v = VArr l ∧ NoDup ids ∧ required <= Z.of_nat (length ids) ∧
    Sorted String.le ids ∧ length ids = length l ∧
    Forall (attested ps l hash) ids.
Proof.
  unfold validateAttestations. destruct v as [| | | | | | |l|]; try done. intros Ha.
  apply bind_Ok in Ha as (acc & Hacc & Ha).
  apply bind_Ok in Ha as (? & Hlen%require_Ok%negb_true_iff%Z.ltb_ge & [= <-]).
  assert (NoDup acc ∧ length acc = length (imap pair l) ∧ Forall (attested ps l hash) acc)
    as (Hnd & Hl & Hall).
  { assert (∀ x, x ∈ imap pair l → x.2 ∈ l) as Hsnd.
    { intros [i a] Hx. apply elem_of_lookup_imap_1 in Hx as (j & y & [= -> ->] & Hy).
      by eapply list_elem_of_lookup_2. }
    revert Hsnd.
    refine (foldM_ind _ (λ (seen : list (nat * value)) acc, (∀ x, x ∈ seen → x.2 ∈ l) →
      NoDup acc ∧ length acc = length seen ∧ Forall (attested ps l hash) acc) []
      (imap pair l) acc _ _ Hacc).
    - intros _. split; [constructor|]. split; [done|constructor].
    - intros seen [pos a] b1 b2 IH Hs Hin.
      destruct IH as (IH1 & IH2 & IH3); [set_solver|].
      apply attestation_step_Ok in Hs as (id & -> & Hnew & Hat).
      rewrite !length_app. cbn. split_and!.
      + apply NoDup_app. split; [done|]. split; [set_solver|apply NoDup_singleton].
      + lia.
      + apply Forall_app. split; [done|]. constructor; [|constructor].
        eapply attested_mono; [|done]. intros y ->%list_elem_of_singleton.
        apply (Hin (pos, a)). set_solver. }
  rewrite length_imap in Hl.
  exists l. split_and!; try done.
  - by rewrite js_sort_Permutation.
  - by rewrite js_sort_Permutation.
  - apply js_sort_Sorted.
  - by rewrite js_sort_Permutation.
  - by rewrite js_sort_Permutation.
Qed.
End attestations.

(** ** The theorems *)
Section theorems.
Context `{Ethers, !EthersLaws, NobleBls, !BlsLaws, NodeCrypto, UrlApi}.

Lemma normalizeCeremony_Ok m epoch c h :
  normalizeCeremony m epoch = Ok (c, h) →
  (c = "dkg" ∧ epoch = 1 ∧ h = None) ∨
  (c = "reshare" ∧ 2 <= epoch ∧ ∃ s, h = Some s ∧ hex_field 32 s).
Proof.
  unfold normalizeCeremony. case_match.
  - case_match eqn:Hb; [done|]. intros [= <- <-]. left. by reflect_bool_hyps.
  - case_match; [|done]. case_match eqn:Hb; [done|]. intros Hc.
    apply bind_Ok in Hc as (s & Hs%fixedHex_field & [= <- <-]).
    right. reflect_bool_hyps. eauto.
Qed.

Lemma normalizeBody_wf m allow b : normalizeBody m allow = Ok b → ∃ Cs, wf_body Cs b.
Proof.
  unfold normalizeBody. intros Hb.
  apply bind_Ok in Hb as (? & _ & Hb). apply bind_Ok in Hb as (? & _ & Hb).
  apply bind_Ok in Hb as (? & _ & Hb). apply bind_Ok in Hb as (net & _ & Hb).
  apply bind_Ok in Hb as (? & _ & Hb).
  apply bind_Ok in Hb as (chain & (_ & Hcs & Hc1)%integer_Ok & Hb).
  apply bind_Ok in Hb as (epoch & _ & Hb).
  apply bind_Ok in Hb as (t & (_ & Hts & Ht)%integer_Ok & Hb).
  apply bind_Ok in Hb as ([c h] & Hcer%normalizeCeremony_Ok & Hb).
  apply bind_Ok in Hb as (adapter & _ & Hb).
  apply bind_Ok in Hb as (gk & Hgk%fixedHex_field & Hb).
  apply bind_Ok in Hb as (K & [HK HKz]%g2Point_Ok & Hb).
  apply bind_Ok in Hb as (cs & (Cs & -> & Hlen & Hhd & Htop)%normalizeCoefficients_Ok & Hb).
  apply bind_Ok in Hb as (kh & _ & Hb). apply bind_Ok in Hb as (kh' & Hkh & Hb).
  apply bind_Ok in Hb as (? & ->%require_Ok%bool_decide_eq_true & Hb).
  apply bind_Ok in Hb as (dh & _ & Hb). apply bind_Ok in Hb as (? & _ & Hb).
  apply bind_Ok in Hb as (? & _ & Hb).
  apply bind_Ok in Hb as (ps & Hps & [= <-]). exists Cs.
  pose proof (hex_field_point gk K 192 Hgk HK) as ->.
  split; cbn; try done.
  - exists K. split_and!; try done. destruct Cs as [|C Cs]; [done|].
    injection Hhd as E%wireHex_inj. cbn. by f_equal.
  - by eapply normalizeParticipants_wf.
Qed.

(** C3: a normalized body is well formed: a strict-majority threshold over 3 to 31
    participants with contiguous indexes and no shared field, one commitment per
    unit of the threshold of which the first is the group key and the last is not
    zero, and every share key is the value of the committed polynomial at its
    participant's index. *)
Theorem normalized_body_well_formed m allow b :
  normalizeBody m allow = Ok b →
  ∃ Cs : list G2,
    Z.of_nat (length Cs) = b_threshold b ∧ b_publicCoefficients b = wireHex <$> Cs ∧
    (∃ K, head Cs = Some K ∧ K ≠ c_zero ∧ b_groupPublicKey b = wireHex K) ∧
    (∀ C, last Cs = Some C → C ≠ c_zero) ∧
    2 <= b_threshold b <= Z.of_nat (length (b_participants b)) ∧
    3 <= Z.of_nat (length (b_participants b)) <= 31 ∧
    Z.of_nat (length (b_participants b)) < 2 * b_threshold b ∧
    NoDup (p_id <$> b_participants b) ∧ NoDup (p_sharePublicKey <$> b_participants b) ∧
    ∀ i p, b_participants b !! i = Some p →
      p_index p = Z.of_nat i + 1 ∧ point_eval Cs (p_index p) ≠ c_zero ∧
      p_sharePublicKey p = wireHex (point_eval Cs (p_index p)).
Proof.
  intros [Cs Hb]%normalizeBody_wf. exists Cs.
  pose proof (wf_members _ _ Hb) as Hp. pose proof (wf_roster _ _ _ Hp).
  pose proof (wf_majority _ _ _ Hp). destruct (wf_threshold _ _ Hb).
  split_and!; try lia; try by apply Hb; try by apply Hp.
  intros i p Hi. destruct (wf_index _ _ _ Hp i p Hi).
  apply list_elem_of_lookup_2 in Hi. by destruct (wf_share _ _ _ Hp p Hi).
Qed.

Lemma prepareGroupManifest_Ok m allow b h :
  prepareGroupManifest m allow = Ok (b, h) →
  normalizeBody m allow = Ok b ∧ manifestHashOf b = Ok h.
Proof.
  unfold prepareGroupManifest. intros Hp. apply bind_Ok in Hp as (b' & Hb & Hp).
  by apply bind_Ok in Hp as (h' & Hh & [= <- <-]).
Qed.

Lemma validateGroupManifest_Ok m o g :
  validateGroupManifest m o = Ok g →
  normalizeBody m (allowLoopback o) = Ok (g_body g) ∧
  manifestHashOf (g_body g) = Ok (g_manifestHash g) ∧
  validateAttestations (prop_opt m "attestations") (participants_by_id (g_body g))
    (b_threshold (g_body g)) (g_manifestHash g) "identity attestations"
  = Ok (g_validAttesters g) ∧
  (b_ceremony (g_body g) = "dkg" ∧ g_validHandoffAttesters g = [] ∨
   b_ceremony (g_body g) ≠ "dkg" ∧
   validateHandoff m o (g_body g) (g_manifestHash g) = Ok (g_validHandoffAttesters g)).
Proof.
  unfold validateGroupManifest. intros Hg.
  apply bind_Ok in Hg as ([b h] & [Hb Hh]%prepareGroupManifest_Ok & Hg).
  apply bind_Ok in Hg as (va & Hva & Hg). apply bind_Ok in Hg as (vh & Hvh & [= <-]).
  cbn. split_and!; try done. case_bool_decide; [|by right]. left.
  by apply bind_Ok in Hvh as (? & _ & [= <-]).
Qed.

(** C4: a validated manifest carries, over its own hash, verified signatures of
    at least [threshold] distinct participants of its roster. *)
Theorem validated_manifest_attested m o g :
  validateGroupManifest m o = Ok g →
  ∃ l, prop_opt m "attestations" = VArr l ∧ NoDup (g_validAttesters g) ∧
    b_threshold (g_body g) <= Z.of_nat (length (g_validAttesters g)) ∧
    Z.of_nat (length (b_participants (g_body g)))
      < 2 * Z.of_nat (length (g_validAttesters g)) ∧
    Forall (attested (b_participants (g_body g)) l (g_manifestHash g)) (g_validAttesters g).
Proof.
  intros (Hb & _ & Hva & _)%validateGroupManifest_Ok.
  destruct (normalizeBody_wf _ _ _ Hb) as [Cs Hwf].
  pose proof (wf_majority _ _ _ (wf_members _ _ Hwf)).
  apply validateAttestations_Ok in Hva as (l & Hl & Hnd & Hlen & _ & _ & Hall).
  exists l. split_and!; try done. lia.
Qed.

Lemma validateHandoff_Ok m o b hash ids :
  validateHandoff m o b hash = Ok ids →
  ∃ prev ph, prepareGroupManifest (previousManifest o) (allowLoopback o) = Ok (prev, ph) ∧
    fixedHex (trustedPreviousManifestHash o) 32 "trustedPreviousManifestHash" = Ok ph ∧
    b_previousManifestHash b = Some ph ∧
    (b_network b = b_network prev ∧ b_chainId b = b_chainId prev ∧
     b_verifierAdapter b = b_verifierAdapter prev ∧
     b_groupPublicKey b = b_groupPublicKey prev ∧ b_keyHash b = b_keyHash prev) ∧
    b_epoch b = b_epoch prev + 1 ∧
    validateAttestations (prop_opt m "handoffAttestations") (participants_by_id prev)
      (b_threshold prev) hash "handoff attestations" = Ok ids.
Proof.
  unfold validateHandoff. intros Hh.
  apply bind_Ok in Hh as (? & _ & Hh). apply bind_Ok in Hh as ([prev ph] & Hp & Hh).
  apply bind_Ok in Hh as (tr & Htr & Hh).
  apply bind_Ok in Hh as (? & Hm%require_Ok & Hh).
  apply bind_Ok in Hh as (? & Hf%forM_Ok & Hh).
  apply bind_Ok in Hh as (? & He%require_Ok%Z.eqb_eq & Hh).
  apply andb_true_iff in Hm as [->%bool_decide_eq_true Hm%bool_decide_eq_true].
  unfold FIXED_FIELDS in Hf. rewrite !Forall_cons in Hf.
  destruct Hf as (_ & Hn & Hc & Ha & Hg & Hk & _).
  apply require_Ok in Hn, Hc, Ha, Hg, Hk.
  change (bool_decide (b_network b = b_network prev) = true) in Hn.
  change ((b_chainId b =? b_chainId prev) = true) in Hc.
  change (bool_decide (b_verifierAdapter b = b_verifierAdapter prev) = true) in Ha.
  change (bool_decide (b_groupPublicKey b = b_groupPublicKey prev) = true) in Hg.
  change (bool_decide (b_keyHash b = b_keyHash prev) = true) in Hk.
  reflect_bool_hyps. exists prev, tr. by split_and!.
Qed.

(** C5: a validated resharing keeps the group: it follows, by one epoch, the
    previous manifest with the trusted hash, on the same network, chain and
    adapter, with the same group key, and at least the previous threshold of the
    previous participants signed its hash. *)
Theorem reshare_continuity m o g :
  validateGroupManifest m o = Ok g → b_ceremony (g_body g) = "reshare" →
  ∃ prev ph l,
    normalizeBody (previousManifest o) (allowLoopback o) = Ok prev ∧
    manifestHashOf prev = Ok ph ∧ hex_field 32 ph ∧
    fixedHex (trustedPreviousManifestHash o) 32 "trustedPreviousManifestHash" = Ok ph ∧
    b_previousManifestHash (g_body g) = Some ph ∧
    b_groupPublicKey (g_body g) = b_groupPublicKey prev ∧
    b_keyHash (g_body g) = b_keyHash prev ∧
    b_chainId (g_body g) = b_chainId prev ∧ b_network (g_body g) = b_network prev ∧
    b_verifierAdapter (g_body g) = b_verifierAdapter prev ∧
    b_epoch (g_body g) = b_epoch prev + 1 ∧
    prop_opt m "handoffAttestations" = VArr l ∧
    NoDup (g_validHandoffAttesters g) ∧
    b_threshold prev <= Z.of_nat (length (g_validHandoffAttesters g)) ∧
    Forall (attested (b_participants prev) l (g_manifestHash g)) (g_validHandoffAttesters g).
Proof.
  intros (_ & _ & _ & [[Hd _]|[_ Hh]])%validateGroupManifest_Ok Hc; [congruence|].
  apply validateHandoff_Ok in Hh
    as (prev & ph & [Hb Hph]%prepareGroupManifest_Ok & Htr & Hpm & (?&?&?&?&?) & He & Ha).
  apply validateAttestations_Ok in Ha as (l & Hl & Hnd & Hlen & _ & _ & Hall).
  exists prev, ph, l. split_and!; try done. by eapply fixedHex_field.
Qed.

(** Two bodies with equal documents are the same body, up to the key order inside
    the two build fields. *)
Definition same_body (b c : body) : Prop :=
  b_network b = b_network c ∧ b_chainId b = b_chainId c ∧
  b_verifierAdapter b = b_verifierAdapter c ∧ b_ceremony b = b_ceremony c ∧
  b_previousManifestHash b = b_previousManifestHash c ∧ b_epoch b = b_epoch c ∧
  b_threshold b = b_threshold c ∧ b_groupPublicKey b = b_groupPublicKey c ∧
  b_publicCoefficients b = b_publicCoefficients c ∧ b_keyHash b = b_keyHash c ∧
  b_dkgTranscriptHash b = b_dkgTranscriptHash c ∧
  same_document (b_softwareCommit b) (b_softwareCommit c) ∧
  same_document (b_containerDigest b) (b_containerDigest c) ∧
  b_participants b = b_participants c.

Lemma participant_value_inj p q :
  norm (participant_value p) = norm (participant_value q) → p = q.
Proof.
  intros E%norm_fields; [|done|by apply all_distinct_spec].
  destruct p, q. cbn in E. repeat (apply Forall2_cons in E as [[_ ?] E]). cbn in *.
  by simplify_eq.
Qed.

Lemma body_value_inj b c : norm (body_value b) = norm (body_value c) → same_body b c.
Proof.
  intros E%norm_fields; [|done|by apply all_distinct_spec].
  repeat (apply Forall2_cons in E as [[_ ?] E]). cbn [norm snd] in *.
  unfold same_body, same_document. split_and!; try congruence.
  - destruct (b_previousManifestHash b), (b_previousManifestHash c); cbn in *; congruence.
  - match goal with H : VArr (norm <$> (VStr <$> b_publicCoefficients b)) = _ |- _ =>
      injection H as Hc end.
    rewrite <-!list_fmap_compose in Hc.
    assert (Inj (=) (=) (norm ∘ VStr)) by (intros x y [= ->]; done).
    by apply (inj (fmap (norm ∘ VStr))) in Hc.
  - match goal with H : VArr (norm <$> (participant_value <$> b_participants b)) = _ |- _ =>
      injection H as Hc end.
    rewrite <-!list_fmap_compose in Hc.
    assert (Inj (=) (=) (norm ∘ participant_value)) by (intros x y; apply participant_value_inj).
    by apply (inj (fmap (norm ∘ participant_value))) in Hc.
Qed.

(** The manifest hash commits to the whole body: equal hashes come from the
    same body, or from two different texts with the same Keccak digest. *)
Theorem manifest_hash_binding b c h :
  manifestHashOf b = Ok h → manifestHashOf c = Ok h →
  same_body b c ∨
  ∃ s t, canonicalJson (body_value b) = Ok s ∧ canonicalJson (body_value c) = Ok t ∧
    toUtf8Bytes s ≠ toUtf8Bytes t ∧ keccak256 (toUtf8Bytes s) = keccak256 (toUtf8Bytes t).
Proof.
  unfold manifestHashOf. intros Hb Hc.
  apply bind_Ok in Hb as (s & Hs & [= <-]). apply bind_Ok in Hc as (t & Ht & [= E]).
  destruct (decide (toUtf8Bytes s = toUtf8Bytes t)) as [Est|Hne].
  - left. apply body_value_inj. apply toUtf8Bytes_inj in Est as <-.
    by eapply canonicalJson_inj.
  - right. exists s, t. done.
Qed.
End theorems.

(** ** Normalizing a normalized manifest *)
Section idempotence.
Context `{Ethers, !EthersLaws, NobleBls, !BlsLaws, NodeCrypto, UrlApi}.

(** [x ← m; k x = Ok b] from [m = Ok a] and [k a = Ok b]. *)
Lemma bind_intro {A B} (m : result A) (k : A → result B) a b :
  m = Ok a → k a = Ok b → m ≫= k = Ok b.
Proof. intros ->. done. Qed.

Lemma require_true b msg : b = true → require b msg = Ok tt.
Proof. by intros ->. Qed.

Lemma normalizeCoefficient_idem i v c :
  normalizeCoefficient i v = Ok c → normalizeCoefficient i (VStr c) = Ok c.
Proof.
  unfold normalizeCoefficient. intros Hc.
  apply bind_Ok in Hc as (c' & Hs%fixedHex_field & Hc).
  apply bind_Ok in Hc as (P & HP & [= <-]).
  eapply bind_intro; [by apply fixedHex_hex_field|]. by eapply bind_intro.
Qed.

Lemma normalizeCoefficients_idem v t K cs :
  normalizeCoefficients v t K = Ok cs →
  normalizeCoefficients (VArr (VStr <$> cs)) t K = Ok cs.
Proof.
  unfold normalizeCoefficients. destruct v as [| | | | | | |l|]; try done.
  intros Hc. apply if_throw_Ok in Hc as [Hlen Hc].
  apply bind_Ok in Hc as (cs' & Hcs & Hc).
  assert (cs' = cs) as ->.
  { by repeat (apply bind_Ok in Hc as (? & _ & Hc)); injection Hc as <-. }
  destruct (imapM_Ok _ _ _ Hcs) as [Hl _].
  rewrite length_fmap, Hl, Hlen. eapply bind_intro; [|exact Hc].
  apply imapM_fmap_id. intros i c Hi.
  destruct (imapM_Ok_inv _ _ _ _ _ Hcs Hi) as (x & _ & Hx).
  by eapply normalizeCoefficient_idem.
Qed.

Lemma normalizeParticipant_idem allow i v p :
  normalizeParticipant allow i v = Ok p →
  endpoint (VStr (p_endpoint p)) allow = Ok (p_endpoint p) →
  normalizeParticipant allow i (participant_value p) = Ok p.
Proof.
  intros Hp Hend. apply normalizeParticipant_Ok in Hp
    as (Hid & Hsafe & Hidx & Hi & Ht & Hiz & Htz & (P & HPz & HP) & _).
  unfold normalizeParticipant.
  eapply bind_intro.
  { apply (exactKeys_Ok _ _ _ tt). eexists. split; [reflexivity|].
    intros k. cbn. set_solver. }
  eapply (bind_intro _ _ (p_id p)); [done|].
  eapply bind_intro; [by apply require_true|].
  eapply (bind_intro _ _ (p_index p)); [by apply integer_Ok|].
  eapply (bind_intro _ _ (p_identityPublicKey p)).
  { apply fixedNonzeroHex_Ok. split; [by apply fixedHex_hex_field|done]. }
  eapply (bind_intro _ _ (p_transportPublicKey p)).
  { apply fixedNonzeroHex_Ok. split; [by apply fixedHex_hex_field|done]. }
  eapply (bind_intro _ _ (p_sharePublicKey p)).
  { apply fixedHex_hex_field. rewrite HP. apply hex_field_wireHex. }
  eapply (bind_intro _ _ P).
  { apply g2Point_Ok. split; [|done]. rewrite HP. apply wireHex_bytes. }
  eapply (bind_intro _ _ (p_endpoint p)); [done|]. by destruct p.
Qed.

Lemma normalizeParticipants_idem v t allow cs ps :
  normalizeParticipants v t allow cs = Ok ps →
  Forall (λ p, endpoint (VStr (p_endpoint p)) allow = Ok (p_endpoint p)) ps →
  normalizeParticipants (VArr (participant_value <$> ps)) t allow cs = Ok ps.
Proof.
  intros Hp Hend. unfold normalizeParticipants in *.
  destruct v as [| | | | | | |l|]; try done.
  apply if_throw_Ok in Hp as [Hn Hp]. apply if_throw_Ok in Hp as [Hm Hp].
  apply bind_Ok in Hp as (ps' & Hps & Hp).
  assert (ps' = ps) as ->.
  { by repeat (apply bind_Ok in Hp as (? & _ & Hp)); injection Hp as <-. }
  destruct (imapM_Ok _ _ _ Hps) as [Hl _].
  rewrite length_fmap, Hl, Hn, Hm. eapply bind_intro; [|exact Hp].
  apply imapM_fmap_id. intros i p Hi.
  destruct (imapM_Ok_inv _ _ _ _ _ Hps Hi) as (x & _ & Hx).
  eapply normalizeParticipant_idem; [done|]. by eapply Forall_lookup_1 in Hend.
Qed.

Lemma normalizeAdapter_idem v a : normalizeAdapter v = Ok a → normalizeAdapter (VStr a) = Ok a.
Proof.
  unfold normalizeAdapter. intros Ha. apply bind_Ok in Ha as (a' & Ha'%from_option_or_Ok & Ha).
  apply if_throw_Ok in Ha as [Hz [= ->]]. apply bind_Some in Ha' as (s & _ & Hs).
  cbn. rewrite (getAddress_idem _ _ Hs). cbn. by rewrite Hz.
Qed.

(** The manifest made of a body and its attestations. *)
Definition body_manifest (b : body) (att hand : value) : value :=
  VObj (body_fields b ++ [("attestations", att); ("handoffAttestations", hand)]).

Lemma normalizeCeremony_idem m epoch b att hand :
  normalizeCeremony m epoch = Ok (b_ceremony b, b_previousManifestHash b) →
  normalizeCeremony (body_manifest b att hand) epoch
  = Ok (b_ceremony b, b_previousManifestHash b).
Proof.
  intros Hc%normalizeCeremony_Ok. unfold normalizeCeremony.
  change (prop_opt (body_manifest b att hand) "ceremony") with (VStr (b_ceremony b)).
  change (prop_opt (body_manifest b att hand) "previousManifestHash") with
    (match b_previousManifestHash b with Some h => VStr h | None => VNull end).
  destruct Hc as [(-> & -> & ->)|(-> & He & h & -> & Hh)]; [done|].
  change (strict_eq (VStr "reshare") (VStr "dkg")) with false.
  change (strict_eq (VStr "reshare") (VStr "reshare")) with true. cbv iota zeta.
  rewrite (proj2 (Z.ltb_ge epoch 2)) by done.
  by rewrite fixedHex_hex_field.
Qed.

(** Normalization is idempotent: the body read from a manifest, written back
    as a manifest with any attestations, is read as the same body, as soon as its
    endpoints are their own normal forms. *)
Theorem normalizeBody_idempotent m allow b att hand :
  normalizeBody m allow = Ok b →
  Forall (λ p, endpoint (VStr (p_endpoint p)) allow = Ok (p_endpoint p)) (b_participants b) →
  normalizeBody (body_manifest b att hand) allow = Ok b.
Proof.
  intros Hb Hend. unfold normalizeBody in Hb |- *.
  apply bind_Ok in Hb as (? & _ & Hb).
  apply bind_Ok in Hb as (? & _ & Hb). apply bind_Ok in Hb as (? & _ & Hb).
  apply bind_Ok in Hb as (net & _ & Hb).
  apply bind_Ok in Hb as (? & Hnet%require_Ok & Hb).
  apply bind_Ok in Hb as (chain & (_ & Hc1 & Hc2)%integer_Ok & Hb).
  apply bind_Ok in Hb as (epoch & (_ & He1 & He2)%integer_Ok & Hb).
  apply bind_Ok in Hb as (t & (_ & Ht1 & Ht2)%integer_Ok & Hb).
  apply bind_Ok in Hb as ([c h] & Hcer & Hb).
  apply bind_Ok in Hb as (adapter & Had%normalizeAdapter_idem & Hb).
  apply bind_Ok in Hb as (gk & Hgk%fixedHex_field & Hb).
  apply bind_Ok in Hb as (K & HK & Hb).
  apply bind_Ok in Hb as (cs & Hcs%normalizeCoefficients_idem & Hb).
  apply bind_Ok in Hb as (kh & Hkh%fixedHex_field & Hb).
  apply bind_Ok in Hb as (kh' & Hkh' & Hb).
  apply bind_Ok in Hb as (? & Hkk & Hb).
  apply bind_Ok in Hb as (dh & [Hdh%fixedHex_field Hdz]%fixedNonzeroHex_Ok & Hb).
  apply bind_Ok in Hb as (? & Hsc & Hb). apply bind_Ok in Hb as (? & Hcd & Hb).
  apply bind_Ok in Hb as (ps & Hps & [= <-]). cbn in Hend.
  set (b := {| b_network := net; b_ceremony := _ |}).
  apply (bind_intro _ _ tt).
  { apply (exactKeys_Ok _ _ _ tt). eexists. split; [reflexivity|]. intros k. cbn. set_solver. }
  do 2 (eapply bind_intro; [reflexivity|]).
  apply (bind_intro _ _ net); [reflexivity|].
  apply (bind_intro _ _ tt); [by apply require_true|].
  apply (bind_intro _ _ chain); [by apply integer_Ok|].
  apply (bind_intro _ _ epoch); [by apply integer_Ok|].
  apply (bind_intro _ _ t); [by apply integer_Ok|].
  apply (bind_intro _ _ (c, h)); [exact (normalizeCeremony_idem _ _ b att hand Hcer)|].
  apply (bind_intro _ _ adapter); [exact Had|].
  apply (bind_intro _ _ gk); [by apply fixedHex_hex_field|].
  apply (bind_intro _ _ K); [exact HK|].
  apply (bind_intro _ _ cs); [exact Hcs|].
  apply (bind_intro _ _ kh); [by apply fixedHex_hex_field|].
  apply (bind_intro _ _ kh'); [exact Hkh'|].
  eapply bind_intro; [exact Hkk|].
  apply (bind_intro _ _ dh).
  { apply fixedNonzeroHex_Ok. split; [by apply fixedHex_hex_field|done]. }
  eapply bind_intro; [exact Hsc|]. eapply bind_intro; [exact Hcd|].
  apply (bind_intro _ _ ps); [|reflexivity].
  by eapply normalizeParticipants_idem.
Qed.
End idempotence.

(** ** Aggregating a share set *)
Section share_set.
Context `{Ethers, !EthersLaws, NobleBls, !BlsLaws, NodeCrypto, UrlApi}.

Lemma share_of_set_Ok b i v s :
  share_of_set (participants_by_id b) i v = Ok s →
  ∃ p, p ∈ b_participants b ∧ prop_opt v "participantId" = VStr (p_id p) ∧
    share_index s = VNum (p_index p) ∧
    share_publicKey s = JsVal (VStr (p_sharePublicKey p)).
Proof.
  unfold share_of_set. intros Hs.
  apply bind_Ok in Hs as (? & _ & Hs).
  apply bind_Ok in Hs as (p & Hp%from_option_or_Ok & Hs).
  apply bind_Ok in Hs as (? & Hi%require_Ok & Hs).
  apply bind_Ok in Hs as (sig & _ & [= <-]). cbn.
  apply bind_Some in Hp as (id & Hid & Hp).
  destruct (prop_opt v "participantId") as [| | | | | |id'| |] eqn:Ev; try done.
  injection Hid as ->. apply map_get_str_Some in Hp as [Hp <-].
  exists p. split_and!; try done.
  destruct (prop_opt v "index") as [| | |z| | | | |] eqn:Ei; cbn in Hi; try done.
  by apply Z.eqb_eq in Hi as ->.
Qed.

(** Aggregating a share set against a manifest returns, if it returns, the
    one signature of the secret behind the group key over the message of the set,
    made of at least [threshold] verified partial signatures of distinct roster
    participants; the proof carries the key and the hash of the manifest. *)
Theorem aggregateFromFiles_sound manifest shareSet o g r secret :
  validateGroupManifest manifest o = Ok g →
  publicKeyForShare secret = Ok (b_groupPublicKey (g_body g)) →
  aggregateFromFiles manifest shareSet o = Ok r →
  ∃ l, prop_opt shareSet "shares" = VArr l ∧
    ap_manifestHash r = g_manifestHash g ∧ ap_keyHash r = b_keyHash (g_body g) ∧
    signPartial (JsVal (VStr (ap_message r))) secret = Ok (ap_signature r) ∧
    NoDup (ap_shareIndexes r) ∧ length (ap_shareIndexes r) = length l ∧
    b_threshold (g_body g) <= Z.of_nat (length (ap_shareIndexes r)) ∧
    ∀ i v, l !! i = Some v →
      ∃ p, p ∈ b_participants (g_body g) ∧ prop_opt v "participantId" = VStr (p_id p) ∧
           ap_shareIndexes r !! i = Some (print_int (p_index p)).
Proof.
  unfold aggregateFromFiles. intros Hg Hpk Ha. rewrite Hg in Ha. cbn [mbind result_bind] in Ha.
  apply bind_Ok in Ha as (? & _ & Ha). apply bind_Ok in Ha as (sh & _ & Ha).
  apply bind_Ok in Ha as (? & _ & Ha). apply bind_Ok in Ha as (msg & _ & Ha).
  destruct (prop_opt shareSet "shares") as [| | | | | | |l|] eqn:El; try done.
  apply bind_Ok in Ha as (ss & Hss & Ha). apply bind_Ok in Ha as ([sig idx] & Hagg & [= <-]).
  cbn. exists l. pose proof (imapM_Ok _ _ _ Hss) as [Hlen Hl].
  apply aggregate_Ok_inv in Hagg
    as (n & ss' & xs & [= <-] & Hn & [= <-] & Hnl & Hx & Hnd & -> & [A ->] & Hv & Hver).
  pose proof (Forall2_length _ _ _ Hx) as Hlx.
  split_and!; try done; rewrite ?length_fmap; try lia.
  - eapply verified_wire_signature; [done..|]. done.
  - intros i v Hi. destruct (Hl i v Hi) as (sh' & Hsh & Hof).
    apply share_of_set_Ok in Hof as (p & Hp & Hid & Hix & _). exists p.
    destruct (Forall2_lookup_l _ _ _ _ _ Hx Hsh) as (xi & Hxi & Hxx & _).
    split_and!; try done. rewrite list_lookup_fmap, Hxi. cbn. do 2 f_equal.
    rewrite Hix in Hxx. by injection Hxx.
Qed.
End share_set.

(** ** The theorems at a concrete group *)
Section examples.
#[local] Existing Instance sample_ethers.
#[local] Existing Instance sample_ethers_laws.
#[local] Existing Instance sample_bls.
#[local] Existing Instance sample_bls_laws.
#[local] Existing Instance sample_crypto.
#[local] Existing Instance sample_url.

(** A group of three with threshold two: the secret is 42. *)
Definition sample_group_poly : list Z := [42; 7].
Definition sample_key (c : Z) : string := result_or "" (publicKeyForShare (VBig c)).
Definition sample_identity (i : nat) : bytes :=
  replicate 31 "000"%char ++ [char_of (10 + Z.of_nat i)].
Definition sample_participant (i : nat) : participant := {|
  p_id := "node-" +:+ print_int (Z.of_nat i);
  p_index := Z.of_nat i;
  p_identityPublicKey := hexlify (sample_identity i);
  p_transportPublicKey := hexlify (sample_identity (100 + i));
  p_sharePublicKey := sample_key (zpeval sample_group_poly (Z.of_nat i));
  p_endpoint := "https://node" +:+ print_int (Z.of_nat i)
|}.
Definition sample_body : body := {|
  b_network := "testnet"; b_chainId := 46630;
  b_verifierAdapter := "0x00000000000000000000000000000000000000aa";
  b_ceremony := "dkg"; b_previousManifestHash := None; b_epoch := 1; b_threshold := 2;
  b_groupPublicKey := sample_key 42;
  b_publicCoefficients := sample_key <$> sample_group_poly;
  b_keyHash := result_or "" (adapterKeyHash (VStr (sample_key 42)));
  b_dkgTranscriptHash := keccak256 [];
  b_softwareCommit := VStr "0123456789012345678901234567890123456789";
  b_containerDigest :=
    VStr "sha256:0123456789012345678901234567890123456789012345678901234567890123";
  b_participants := sample_participant <$> [1; 2; 3]%nat
|}.
Definition sample_manifest_hash (b : body) : string := result_or "" (manifestHashOf b).
Definition sample_attestation (b : body) (i : nat) : value :=
  VObj [("participantId", VStr ("node-" +:+ print_int (Z.of_nat i)));
        ("signature", VStr (hexlify (ed_sign
           (default [] (getBytes (sample_manifest_hash b))) (sample_identity i))))].
Definition sample_manifest : value :=
  body_manifest sample_body (VArr (sample_attestation sample_body <$> [3; 1]%nat)) (VArr []).
Definition sample_options : group_options := {|
  allowLoopback := false; previousManifest := VUndef; trustedPreviousManifestHash := VUndef
|}.
Definition sample_group_record : group := {|
  g_manifest := sample_manifest; g_body := sample_body;
  g_manifestHash := sample_manifest_hash sample_body;
  g_validAttesters := ["node-1"; "node-3"]; g_validHandoffAttesters := []
|}.

Lemma sample_manifest_valid :
  validateGroupManifest sample_manifest sample_options = Ok sample_group_record.
Proof. vm_refl. Qed.

Lemma normalized_body_witness :
  ∃ Cs : list G2, Z.of_nat (length Cs) = 2 ∧
    b_publicCoefficients sample_body = wireHex <$> Cs ∧
    p_sharePublicKey (sample_participant 3) = wireHex (point_eval Cs 3).
Proof.
  destruct (normalized_body_well_formed sample_manifest false sample_body)
    as (Cs & H1 & H2 & _ & _ & _ & _ & _ & _ & _ & Hshares).
  - vm_refl.
  - exists Cs. split; [exact H1|]. split; [exact H2|].
    exact (proj2 (proj2 (Hshares 2%nat (sample_participant 3) eq_refl))).
Defined.

Lemma validated_manifest_witness :
  ∃ l, prop_opt sample_manifest "attestations" = VArr l ∧
    Forall (attested (b_participants sample_body) l (sample_manifest_hash sample_body))
      ["node-1"; "node-3"].
Proof.
  destruct (validated_manifest_attested sample_manifest sample_options sample_group_record)
    as (l & Hl & _ & _ & _ & Hall).
  - exact sample_manifest_valid.
  - exists l. split; [exact Hl|exact Hall].
Defined.

(** The resharing of the group to the polynomial 42 + 9 x. *)
Definition sample_reshare_poly : list Z := [42; 9].
Definition sample_reshare_body : body := {|
  b_network := "testnet"; b_chainId := 46630;
  b_verifierAdapter := "0x00000000000000000000000000000000000000aa";
  b_ceremony := "reshare"; b_previousManifestHash := Some (sample_manifest_hash sample_body);
  b_epoch := 2; b_threshold := 2; b_groupPublicKey := sample_key 42;
  b_publicCoefficients := sample_key <$> sample_reshare_poly;
  b_keyHash := result_or "" (adapterKeyHash (VStr (sample_key 42)));
  b_dkgTranscriptHash := keccak256 [];
  b_softwareCommit := VStr "0123456789012345678901234567890123456789";
  b_containerDigest :=
    VStr "sha256:0123456789012345678901234567890123456789012345678901234567890123";
  b_participants := (λ i, {|
    p_id := "node-" +:+ print_int (Z.of_nat i);
    p_index := Z.of_nat i;
    p_identityPublicKey := hexlify (sample_identity i);
    p_transportPublicKey := hexlify (sample_identity (100 + i));
    p_sharePublicKey := sample_key (zpeval sample_reshare_poly (Z.of_nat i));
    p_endpoint := "https://node" +:+ print_int (Z.of_nat i) |}) <$> [1; 2; 3]%nat
|}.
Definition sample_reshare_manifest : value :=
  body_manifest sample_reshare_body
    (VArr (sample_attestation sample_reshare_body <$> [1; 2]%nat))
    (VArr (sample_attestation sample_reshare_body <$> [2; 3]%nat)).
Definition sample_reshare_options : group_options := {|
  allowLoopback := false; previousManifest := sample_manifest;
  trustedPreviousManifestHash := VStr (sample_manifest_hash sample_body)
|}.
Definition sample_reshare_record : group := {|
  g_manifest := sample_reshare_manifest; g_body := sample_reshare_body;
  g_manifestHash := sample_manifest_hash sample_reshare_body;
  g_validAttesters := ["node-1"; "node-2"]; g_validHandoffAttesters := ["node-2"; "node-3"]
|}.

Lemma reshare_continuity_witness :
  ∃ prev, normalizeBody sample_manifest false = Ok prev ∧
    b_groupPublicKey sample_reshare_body = b_groupPublicKey prev ∧
    b_epoch sample_reshare_body = b_epoch prev + 1.
Proof.
  destruct (reshare_continuity sample_reshare_manifest sample_reshare_options
    sample_reshare_record) as (prev & ph & l & Hp & _ & _ & _ & _ & Hg & _ & _ & _ & _ & He & _).
  - vm_refl.
  - reflexivity.
  - exists prev. split; [exact Hp|]. split; [exact Hg|exact He].
Defined.

Lemma manifest_hash_binding_witness :
  same_body sample_body sample_body ∨
  ∃ s t, canonicalJson (body_value sample_body) = Ok s ∧
    canonicalJson (body_value sample_body) = Ok t ∧ toUtf8Bytes s ≠ toUtf8Bytes t ∧
    keccak256 (toUtf8Bytes s) = keccak256 (toUtf8Bytes t).
Proof.
  apply (manifest_hash_binding sample_body sample_body (sample_manifest_hash sample_body));
    vm_refl.
Defined.

Lemma normalizeBody_idempotent_witness :
  normalizeBody (body_manifest sample_body VNull VNull) false = Ok sample_body.
Proof.
  apply (normalizeBody_idempotent sample_manifest false sample_body).
  - vm_refl.
  - repeat constructor.
Defined.

Definition sample_share_set : value :=
  VObj [("manifestHash", VStr (sample_manifest_hash sample_body));
        ("message", VStr (keccak256 []));
        ("shares", VArr ((λ i : nat,
           VObj [("participantId", VStr ("node-" +:+ print_int (Z.of_nat i)));
                 ("index", VNum (Z.of_nat i));
                 ("signature", VStr (result_or "" (signPartial (JsVal (VStr (keccak256 [])))
                    (VBig (zpeval sample_group_poly (Z.of_nat i))))))]) <$> [3; 1]%nat))].

Lemma aggregateFromFiles_witness :
  ∃ r, aggregateFromFiles sample_manifest sample_share_set sample_options = Ok r ∧
    signPartial (JsVal (VStr (ap_message r))) (VBig 42) = Ok (ap_signature r).
Proof.
  assert (is_ok (aggregateFromFiles sample_manifest sample_share_set sample_options) = true) as Hok
    by vm_refl.
  destruct (aggregateFromFiles sample_manifest sample_share_set sample_options)
    as [r|e] eqn:E; [|discriminate Hok].
  exists r. split; [reflexivity|].
  destruct (aggregateFromFiles_sound sample_manifest sample_share_set sample_options
    sample_group_record r (VBig 42)) as (l & _ & _ & _ & Hs & _).
  - exact sample_manifest_valid.
  - vm_refl.
  - exact E.
  - exact Hs.
Defined.
End examples.
