(* ===== verification/DkgShares.v ===== *)
(** * Shares of the distributed key generation ([threshold-dkg.mjs])

    Scalars, the dealer's polynomial and its commitments, the check of a share
    against commitments, signed packets, and the encryption of a share to its
    recipient. *)

From S2P Require Import Prelude Js Hex CanonicalJson Vendor Interpolation ScalarField ThresholdCrypto ThresholdGroup Samples.

Open Scope Z_scope.

Definition DKG_PACKET_FORMAT : string := "robinhood-proof-vrf-dkg-packet/v1".
Definition DKG_KEYSTORE_FORMAT : string := "robinhood-proof-vrf-threshold-keystore/v1".
Definition DKG_FINALIZATION_FORMAT : string := "robinhood-proof-vrf-dkg-finalization/v1".

Section dkg_shares.
Context `{Ethers, NobleBls, NodeCrypto, SealCrypto}.

Definition scalar (v : value) (name : string) (allowZero : bool) : result Z :=
  parsed ← to_bigint v;
  if (parsed <? 0) || (BLS_SCALAR_ORDER <=? parsed) || (negb allowZero && (parsed =? 0))
  then Throw (name +:+ " is outside the BLS scalar field")
  else Ok parsed.

Definition scalarHex (v : value) : result string :=
  s ← scalar v "scalar" true;
  Ok ("0x" +:+ pad_start0 64 (print_base 16 s)).

(** [coefficients.reduceRight(...)]: Horner's rule. *)
Definition polynomialAt (coefficients : list Z) (index : value) : result Z :=
  foldr (λ coefficient acc,
           v ← acc; i ← to_bigint index;
           Ok (Z.rem (v * i + coefficient) BLS_SCALAR_ORDER))
    (Ok 0) coefficients.

Definition commitmentsFor (coefficients : list Z) : result (list string) :=
  mapM (λ coefficient, P ← c_multiply coefficient base2; Ok (wireHex P)) coefficients.

(** The loop of [expectedSharePoint] from [position] on. *)
Fixpoint expected_loop (index : value) (position : nat) (expected : G2) (power : Z)
    (commitments : list value) : result G2 :=
  match commitments with
  | [] => Ok expected
  | c :: rest =>
      C ← g2CommitmentPoint (JsVal c) ("commitments[" +:+ print_int (Z.of_nat position) +:+ "]");
      term ← c_multiply power C;
      i ← to_bigint index;
      expected_loop index (S position) (c_add expected term)
        (Z.rem (power * i) BLS_SCALAR_ORDER) rest
  end.
Definition expectedSharePoint (commitments : list value) (index : value) : result G2 :=
  expected_loop index 0 c_zero 1 commitments.

Definition shareMatchesCommitments (share : value) (commitments : list value)
    (index : value) : result bool :=
  s ← scalar share "share" true;
  P ← c_multiply s base2;
  E ← expectedSharePoint commitments index;
  Ok (bool_decide (P = E)).

Definition packetHash (body : value) : result string :=
  text ← canonicalJson body; Ok (keccak256 (toUtf8Bytes text)).

Definition signPacket (body : value) (privateKey : ed_private) : result string :=
  h ← packetHash body; b ← hexBytes h; Ok (hexlify (ed_sign b privateKey)).

(** [publicKeyFromRaw]: the raw bytes of a 32-byte public key. *)
Definition publicKeyFromRaw (raw : value) (type : string) : result bytes :=
  s ← fixedHex raw 32 (type +:+ " public key"); hexBytes s.

Definition verifyPacket (packet participant : value) : result bool :=
  if negb (truthy (prop_opt packet "body")) then Ok false
  else
    match prop_opt packet "signature" with
    | VStr _ =>
        h ← packetHash (prop_opt packet "body");
        data ← hexBytes h;
        identity ← prop participant "identityPublicKey";
        key ← publicKeyFromRaw identity "ed25519";
        sig ← fixedHex (prop_opt packet "signature") 64 "packet signature";
        signature ← hexBytes sig;
        Ok (ed_verify data key signature)
    | _ => Ok false
    end.

(** The fields of a deal a share is bound to. *)
Definition ASSOCIATED_FIELDS : list string :=
  ["format"; "type"; "ceremony"; "sessionId"; "epoch"; "threshold"; "dealerId";
   "dealerIndex"; "previousManifestHash"; "selectedDealerIds"; "commitments"].
Definition shareAssociatedData (body : value) (recipientId : value) : result bytes :=
  text ← canonicalJson
    (VObj (((λ k, (k, prop_opt body k)) <$> ASSOCIATED_FIELDS) ++ [("recipientId", recipientId)]));
  Ok (toUtf8Bytes text).

(** [encryptShare] with the ephemeral key pair and the IV it draws. *)
Definition encryptShare (share recipient : value) (associatedData : bytes)
    (ephemeral : x_private) (iv : bytes) : result value :=
  transport ← prop recipient "transportPublicKey";
  key ← publicKeyFromRaw transport "x25519";
  shared ← from_option_or "invalid public key" (x_shared ephemeral key);
  let key := hkdf shared (sha256 associatedData) in
  s ← scalarHex share;
  plain ← hexBytes s;
  let '(ciphertext, tag) := aes_seal key iv associatedData plain in
  Ok (VObj [("ephemeralPublicKey", VStr (hexlify (x_public ephemeral)));
            ("iv", VStr (hexlify iv)); ("ciphertext", VStr (hexlify ciphertext));
            ("tag", VStr (hexlify tag))]).

Definition hexField (v : value) (n : nat) (name : string) : result bytes :=
  s ← fixedHex v n name; hexBytes s.

Definition decryptShare (envelope : value) (transportPrivateKey : x_private)
    (associatedData : bytes) : result Z :=
  raw ← prop envelope "ephemeralPublicKey";
  key ← publicKeyFromRaw raw "x25519";
  shared ← from_option_or "invalid public key" (x_shared transportPrivateKey key);
  let key := hkdf shared (sha256 associatedData) in
  iv ← hexField (prop_opt envelope "iv") 12 "share IV";
  tag ← hexField (prop_opt envelope "tag") 16 "share tag";
  ciphertext ← hexField (prop_opt envelope "ciphertext") 32 "encrypted share";
  plain ← from_option_or "Unsupported state or unable to authenticate data"
            (aes_open key iv associatedData ciphertext tag);
  to_bigint (VStr (hexlify plain)).
End dkg_shares.

(** ** Lemmas *)
Section shares_lemmas.
Context `{Ethers, !EthersLaws, NobleBls, !BlsLaws, NodeCrypto, SealCrypto}.

Lemma scalar_Ok v name z allow s :
  scalar v name allow = Ok s → z = s → to_bigint v = Ok z ∧ 0 <= z < order.
Proof.
  intros Hs ->. unfold scalar, BLS_SCALAR_ORDER in Hs. apply bind_Ok in Hs as (p & Hp & Hs).
  apply if_throw_Ok in Hs as [Hb [= ->]]. reflect_bool_hyps. split; [done|lia].
Qed.

Lemma scalar_big z name : 0 <= z < order → scalar (VBig z) name true = Ok z.
Proof.
  intros Hz. unfold scalar, BLS_SCALAR_ORDER. cbn.
  by rewrite (proj2 (Z.ltb_ge z 0)), (proj2 (Z.leb_gt order z)) by lia.
Qed.

(** Horner's rule computes the polynomial modulo the order. *)
Lemma polynomialAt_Ok c index x :
  to_bigint index = Ok x → 0 <= x → Forall (λ a, 0 <= a < order) c →
  polynomialAt c index = Ok (zpeval c x mod order).
Proof.
  intros Hi Hx Hc. pose proof order_pos as Ho. unfold polynomialAt, BLS_SCALAR_ORDER.
  induction Hc as [|a c Ha Hc IH]; cbn [foldr zpeval].
  - by rewrite Z.mod_0_l by lia.
  - rewrite IH. cbn [mbind result_bind]. rewrite Hi. cbn [mbind result_bind].
    pose proof (Z.mod_pos_bound (zpeval c x) order Ho).
    rewrite Z.rem_mod_nonneg by nia. f_equal.
    rewrite Z.add_mod, Z.mul_mod_idemp_l, <-Z.add_mod by lia. f_equal. ring.
Qed.

Lemma commitmentsFor_Ok c cs :
  commitmentsFor c = Ok cs ↔
  Forall (λ a, 0 < a < order) c ∧ cs = (λ a, wireHex (smul a base2)) <$> c.
Proof.
  unfold commitmentsFor. rewrite mapM_Ok. split.
  - induction 1 as [|a s c cs Ha _ [IH ->]]; [by split|].
    apply bind_Ok in Ha as (P & HP & [= <-]).
    apply c_multiply_Ok in HP as [Ha ->].
    split; [by constructor|done].
  - intros [Hc ->]. apply Forall2_fmap_r, Forall_Forall2_diag.
    eapply Forall_impl; [done|]. cbn. intros a Ha. by rewrite c_multiply_smul by (done || apply order_pos).
Qed.

Lemma expected_loop_Ok index x pos E p cs Cs :
  to_bigint index = Ok x → 0 < x < order → 0 < p < order →
  Forall2 (λ c C, source_bytes (JsVal c) = Some (c_encode C)) cs Cs →
  expected_loop index pos E p cs = Ok (c_add E (smul p (point_eval Cs x))).
Proof.
  intros Hi Hx Hp Hcs. pose proof order_pos. revert pos E p Hp.
  induction Hcs as [|c C cs Cs Hc Hcs IH]; intros pos E p Hp; cbn [expected_loop point_eval].
  - by rewrite smul_zero_point, c_add_zero_r.
  - rewrite (proj2 (g2CommitmentPoint_Ok _ _ C)) by done. cbn [mbind result_bind].
    rewrite c_multiply_smul by lia. cbn [mbind result_bind]. rewrite Hi.
    cbn [mbind result_bind]. unfold BLS_SCALAR_ORDER. rewrite Z.rem_mod_nonneg by lia.
    rewrite IH.
    + rewrite smul_mod, smul_add_point, smul_mul, c_add_assoc by lia. done.
    + pose proof (Z.mod_pos_bound (p * x) order order_pos).
      assert ((p * x) mod order ≠ 0); [|lia]. by apply mul_mod_neq_zero.
Qed.

Lemma expected_loop_inv index x pos E p cs R :
  to_bigint index = Ok x → expected_loop index pos E p cs = Ok R →
  ∃ Cs, Forall2 (λ c C, source_bytes (JsVal c) = Some (c_encode C)) cs Cs.
Proof.
  intros Hi. revert pos E p. induction cs as [|c cs IH]; intros pos E p; cbn [expected_loop].
  { intros _. exists []. constructor. }
  intros He. apply bind_Ok in He as (C & HC%g2CommitmentPoint_Ok & He).
  apply bind_Ok in He as (T & _ & He). rewrite Hi in He. apply IH in He as (Cs & HCs).
  exists (C :: Cs). by constructor.
Qed.

(** The check of a share is the comparison of two points. *)
Lemma shareMatchesCommitments_Ok share cs Cs index x s :
  to_bigint share = Ok s → 0 < s < order →
  to_bigint index = Ok x → 0 < x < order →
  Forall2 (λ c C, source_bytes (JsVal c) = Some (c_encode C)) cs Cs →
  shareMatchesCommitments share cs index = Ok (bool_decide (smul s base2 = point_eval Cs x)).
Proof.
  intros Hs Hs0 Hi Hx Hcs. pose proof order_gt_1. unfold shareMatchesCommitments, scalar.
  rewrite Hs. cbn [mbind result_bind]. unfold BLS_SCALAR_ORDER.
  rewrite (proj2 (Z.ltb_ge s 0)), (proj2 (Z.leb_gt order s)) by lia. cbn [orb negb andb mbind result_bind].
  rewrite c_multiply_smul by lia. cbn [mbind result_bind]. unfold expectedSharePoint.
  rewrite (expected_loop_Ok _ x _ _ _ _ Cs) by (done || lia). cbn [mbind result_bind].
  by rewrite c_add_zero, smul_1 by lia.
Qed.

Lemma shareMatchesCommitments_true share cs index x :
  to_bigint index = Ok x → 0 < x < order →
  shareMatchesCommitments share cs index = Ok true →
  ∃ s Cs, to_bigint share = Ok s ∧ 0 < s < order ∧
    Forall2 (λ c C, source_bytes (JsVal c) = Some (c_encode C)) cs Cs ∧
    smul s base2 = point_eval Cs x.
Proof.
  intros Hi Hx Hm. pose proof Hm as Hm'. unfold shareMatchesCommitments in Hm.
  apply bind_Ok in Hm as (s & Hs & Hm). apply bind_Ok in Hm as (P & HP & Hm).
  apply bind_Ok in Hm as (R & HR & _).
  apply c_multiply_Ok in HP as [Hs0 _].
  destruct (scalar_Ok _ _ s _ _ Hs eq_refl) as [Hb _].
  destruct (expected_loop_inv _ _ _ _ _ _ _ Hi HR) as [Cs HCs].
  exists s, Cs. split_and!; try done; try lia.
  rewrite (shareMatchesCommitments_Ok _ _ Cs _ x s) in Hm' by done.
  injection Hm' as Hm'. by apply bool_decide_eq_true in Hm'.
Qed.
End shares_lemmas.

(** ** The theorems *)
Section shares_theorems.
Context `{Ethers, !EthersLaws, NobleBls, !BlsLaws, NodeCrypto, !NodeCryptoLaws}.
Context `{SealCrypto, !SealCryptoLaws}.

Lemma hexBytes_hexlify b : hexBytes (hexlify b) = Ok b.
Proof. unfold hexBytes. by rewrite getBytes_hexlify. Qed.

Lemma hexField_hexlify b n name : length b = n → hexField (VStr (hexlify b)) n name = Ok b.
Proof.
  intros Hb. unfold hexField. rewrite fixedHex_hex_field by (exists b; done).
  cbn [mbind result_bind]. apply hexBytes_hexlify.
Qed.

Lemma scalarHex_big z : 0 <= z < order → scalarHex (VBig z) = Ok (hex64 z).
Proof. intros Hz. unfold scalarHex. by rewrite scalar_big. Qed.

Lemma hex64_Ok z : 0 <= z < order → ∃ b, length b = 32%nat ∧ hex64 z = hexlify b.
Proof.
  intros Hz. pose proof order_bits. destruct (hex64_bytes z) as (b & Hl & E); [lia|].
  exists b. by rewrite hexlify_spec.
Qed.

(** Against the commitments of a dealer's polynomial, the check accepts a
    non-zero share exactly when it is the value Horner's rule computes for the
    recipient; that value is the polynomial's, modulo the order. *)
Theorem dealer_share_exact c cs index x z :
  commitmentsFor c = Ok cs → to_bigint index = Ok x → 0 < x < order → 0 < z < order →
  polynomialAt c index = Ok (zpeval c x mod order) ∧
  shareMatchesCommitments (VBig z) (VStr <$> cs) index
  = Ok (bool_decide (polynomialAt c index = Ok z)).
Proof.
  intros [Hc ->]%commitmentsFor_Ok Hi Hx Hz.
  assert (polynomialAt c index = Ok (zpeval c x mod order)) as Hp.
  { apply polynomialAt_Ok; [done|lia|]. eapply Forall_impl; [done|]. cbn. lia. }
  split; [done|].
  rewrite (shareMatchesCommitments_Ok _ _ ((λ a, smul a base2) <$> c) _ x z); try done.
  - f_equal. apply bool_decide_ext. rewrite Hp, point_eval_smul. split.
    + intros E%smul_base2_inj. rewrite Z.mod_small in E by lia. by f_equal.
    + intros [= <-]. apply smul_mod, order_pos.
  - rewrite <-list_fmap_compose. apply Forall2_fmap_2, Forall_Forall2_diag, Forall_true.
    intros a. apply wireHex_bytes.
Qed.

(** The owner of the transport key decrypts what was encrypted to it, under
    the same associated data: the recipient of a deal reads the dealer's value. *)
Lemma share_roundtrip z recipient aad ephemeral iv priv env :
  0 <= z < order → length iv = 12%nat →
  prop recipient "transportPublicKey" = Ok (VStr (hexlify (x_public priv))) →
  encryptShare (VBig z) recipient aad ephemeral iv = Ok env →
  decryptShare env priv aad = Ok z.
Proof.
  intros Hz Hiv Hr He. unfold encryptShare in He. rewrite Hr in He. cbn [mbind result_bind] in He.
  change (publicKeyFromRaw (VStr (hexlify (x_public priv))) "x25519") with
    (hexField (VStr (hexlify (x_public priv))) 32 "x25519 public key") in He.
  rewrite hexField_hexlify in He by apply x_public_length. cbn [mbind result_bind] in He.
  apply bind_Ok in He as (shared & Hs%from_option_or_Ok & He).
  rewrite scalarHex_big in He by done. cbn [mbind result_bind] in He.
  destruct (hex64_Ok z Hz) as (plain & Hplain & Eplain).
  rewrite Eplain, hexBytes_hexlify in He. cbn [mbind result_bind] in He.
  pose proof (aes_open_seal (hkdf shared (sha256 aad)) iv aad plain) as Hopen.
  pose proof (aes_seal_length (hkdf shared (sha256 aad)) iv aad plain) as Hct.
  pose proof (aes_tag_length (hkdf shared (sha256 aad)) iv aad plain) as Htag.
  destruct (aes_seal _ _ _ _) as [ct tag]. cbn [fst snd] in *. injection He as <-.
  unfold decryptShare. cbn [prop prop_opt assoc from_option mbind result_bind].
  change (publicKeyFromRaw _ "x25519") with
    (hexField (VStr (hexlify (x_public ephemeral))) 32 "x25519 public key").
  rewrite hexField_hexlify by apply x_public_length. cbn [mbind result_bind].
  rewrite <-x_agree, Hs. cbn [from_option_or mbind result_bind].
  change (hexField _ 12 _) with (hexField (VStr (hexlify iv)) 12 "share IV").
  rewrite hexField_hexlify by done. cbn [mbind result_bind].
  change (hexField _ 16 _) with (hexField (VStr (hexlify tag)) 16 "share tag").
  rewrite hexField_hexlify by done. cbn [mbind result_bind].
  change (hexField _ 32 _) with (hexField (VStr (hexlify ct)) 32 "encrypted share").
  rewrite hexField_hexlify by lia. cbn [mbind result_bind].
  rewrite Hopen. cbn [from_option_or mbind result_bind to_bigint].
  rewrite <-Eplain, string_to_bigint_hex64; [done|]. pose proof order_bits. lia.
Qed.

(** A packet signed with an identity key passes the check of the participant
    whose identity key that is, and the signature covers the canonical text of the
    body: any body of the same document passes, whatever its key order. *)
Lemma signed_packet_verifies body body' key participant sig :
  signPacket body key = Ok sig → same_document body body' → truthy body' = true →
  prop participant "identityPublicKey" = Ok (VStr (hexlify (ed_public key))) →
  length (ed_public key) = 32%nat →
  verifyPacket (VObj [("body", body'); ("signature", VStr sig)]) participant = Ok true.
Proof.
  intros Hs Hdoc Ht Hp Hl. unfold signPacket in Hs. apply bind_Ok in Hs as (h & Hh & Hs).
  apply bind_Ok in Hs as (b & Hb & [= <-]).
  assert (packetHash body' = Ok h) as Hh'.
  { unfold packetHash in *. by rewrite <-(canonicalJson_proper body body' Hdoc). }
  unfold verifyPacket.
  change (prop_opt (VObj [("body", body'); _]) "body") with body'.
  change (prop_opt (VObj [("body", body'); _]) "signature")
    with (VStr (hexlify (ed_sign b key))).
  rewrite Ht. cbn [negb]. cbv iota. rewrite Hh'. cbn [mbind result_bind]. rewrite Hb.
  cbn [mbind result_bind]. rewrite Hp. cbn [mbind result_bind].
  change (publicKeyFromRaw _ "ed25519") with
    (hexField (VStr (hexlify (ed_public key))) 32 "ed25519 public key").
  rewrite hexField_hexlify by done. cbn [mbind result_bind].
  rewrite fixedHex_hex_field by (exists (ed_sign b key); split; [apply ed_sign_length|done]).
  cbn [mbind result_bind]. rewrite hexBytes_hexlify. cbn [mbind result_bind].
  by rewrite ed_verify_sign.
Qed.
End shares_theorems.

(** ** The theorem at a concrete input *)
Section examples.
#[local] Existing Instance sample_ethers.
#[local] Existing Instance sample_ethers_laws.
#[local] Existing Instance sample_bls.
#[local] Existing Instance sample_bls_laws.

Lemma dealer_share_exact_witness :
  polynomialAt [42; 7; 3] (VNum 5) = Ok 51 ∧
  shareMatchesCommitments (VBig 51)
    (VStr <$> result_or [] (commitmentsFor [42; 7; 3])) (VNum 5) = Ok true.
Proof.
  destruct (dealer_share_exact [42; 7; 3] (result_or [] (commitmentsFor [42; 7; 3])) (VNum 5) 5 51)
    as [Hp Hs].
  - vm_compute. reflexivity.
  - reflexivity.
  - cbn. lia.
  - cbn. lia.
  - split; [exact Hp|]. etrans; [exact Hs|]. vm_compute. reflexivity.
Defined.
End examples.
