(* ===== verification/DkgCeremony.v ===== *)
(** * The rounds of the distributed key generation ([threshold-dkg.mjs])

    Rosters, keystores, and the handlers of the ceremony: a dealer's deal, a
    recipient's responses, a dealer's resolution of complaints, the finalization
    of a participant's share, the assembly of the manifest, its attestation and
    the binding of a keystore to it.  Packets are the JSON values the operators
    exchange as files; what [randomBytes] and [generateKeyPairSync] draw is an
    entropy supply threaded through the handlers. *)

From S2P Require Import Prelude Js Hex CanonicalJson Json Vendor ScalarField ThresholdCrypto ThresholdGroup DkgShares.

Open Scope Z_scope.

(** What [randomBytes] and [generateKeyPairSync] return, in order: a
    draw has the length that is asked for, or the supply is over. *)
Record entropy `{NodeCrypto, SealCrypto} := {
  random_bytes : list bytes;
  identity_keys : list ed_private;
  key_pairs : list x_private
}.

Section ceremony.
Context `{Ethers, NobleBls, !NodeCrypto, UrlApi, !SealCrypto, !KeyStorage, LocaleApi}.

Definition randomBytes (n : nat) : eff entropy bytes := λ s,
  match random_bytes s with
  | b :: l => if (length b =? n)%nat
              then (Ok b, {| random_bytes := l; identity_keys := identity_keys s; key_pairs := key_pairs s |})
              else (Throw "entropy", s)
  | [] => (Throw "entropy", s)
  end.
Definition generateKeyPair : eff entropy x_private := λ s,
  match key_pairs s with
  | k :: l => (Ok k, {| random_bytes := random_bytes s; identity_keys := identity_keys s; key_pairs := l |})
  | [] => (Throw "entropy", s)
  end.

Definition generateIdentityKey : eff entropy ed_private := λ s,
  match identity_keys s with
  | k :: l => (Ok k, {| random_bytes := random_bytes s; identity_keys := l; key_pairs := key_pairs s |})
  | [] => (Throw "entropy", s)
  end.

(** [BigInt(hexlify(randomBytes(64))) % BLS_SCALAR_ORDER] of a draw. *)
Definition draw_scalar (b : bytes) : result Z :=
  n ← to_bigint (VStr (hexlify b)); Ok (Z.rem n BLS_SCALAR_ORDER).
(** The loop of [randomScalar], which draws until a value is acceptable; the
    supply bounds it. *)
Fixpoint scalar_loop (fuel : nat) (allowZero : bool) : eff entropy Z :=
  match fuel with
  | O => eff_throw "entropy"
  | S fuel =>
      b ← randomBytes 64;
      v ← eff_lift (draw_scalar b);
      if allowZero || negb (v =? 0) then mret v else scalar_loop fuel allowZero
  end.
Definition randomScalar (allowZero : bool) : eff entropy Z := λ s,
  scalar_loop (S (length (random_bytes s))) allowZero s.

(** ** Rosters *)

Definition validateParticipant (p : value) (expectedIndex : Z) : result value :=
  _ ← require (truthy p && bool_decide (typeof p = "object")) "invalid participant";
  _ ← require (strict_eq (prop_opt p "index") (VNum expectedIndex))
        "participant indexes must be contiguous";
  let id := to_str (prop_opt p "id") in
  _ ← require (participant_name id) ("invalid participant id " +:+ id);
  _ ← fixedHex (prop_opt p "identityPublicKey") 32 (id +:+ " identity public key");
  _ ← fixedHex (prop_opt p "transportPublicKey") 32 (id +:+ " transport public key");
  Ok p.

Definition validateParticipants (roster : list value) : result (list value) :=
  imapM (λ position p, validateParticipant p (Z.of_nat position + 1)) roster.

Definition THRESHOLD_MAJORITY : string := "threshold must be a strict majority of the roster".
Definition validateRoster (roster threshold : value) : result (list value) :=
  match roster with
  | VArr l =>
      let n := Z.of_nat (length l) in
      if (n <? 3) || (31 <? n) then Throw "roster must contain between 3 and 31 participants"
      else
        match threshold with
        | VNum t =>
            if negb (safe_integer t) || (t <? 2) || (n <? t) || (t * 2 <=? n)
            then Throw THRESHOLD_MAJORITY
            else
              normalized ← validateParticipants l;
              _ ← forM_ (λ field,
                    require (length (js_value_set ((λ p, prop_opt p field) <$> normalized))
                             =? length normalized)%nat
                      ("roster " +:+ field +:+ " values must be unique"))
                  ["id"; "identityPublicKey"; "transportPublicKey"; "endpoint"];
              Ok normalized
        | _ => Throw THRESHOLD_MAJORITY
        end
  | _ => Throw "roster must contain between 3 and 31 participants"
  end.

(** [list.find((item) => item[field] === v)] *)
Definition find_by (field : string) (v : value) (l : list value) : option value :=
  find_first (λ item, strict_eq (prop_opt item field) v) l.

(** ** Keystores *)

Definition WORK_FACTOR : Z := 32768.

(** [encryptPayload] with the salt and the IV it draws. *)
Definition encryptPayload (payload : value) (password : string) (workFactor : Z)
    : eff entropy value :=
  _ ← eff_require (negb (bool_decide (password = ""))) "threshold keystore password is required";
  salt ← randomBytes 16;
  iv ← randomBytes 12;
  key ← eff_lift (from_option_or "Invalid scrypt params" (scrypt password salt workFactor 8 1));
  text ← eff_lift (canonicalJson payload);
  let '(ciphertext, tag) := aes_seal key iv [] (toUtf8Bytes text) in
  mret (VObj [("cipher", VStr "aes-256-gcm"); ("ciphertext", VStr (hexlify ciphertext));
              ("iv", VStr (hexlify iv)); ("tag", VStr (hexlify tag)); ("kdf", VStr "scrypt");
              ("kdfparams", VObj [("N", VNum workFactor); ("r", VNum 8); ("p", VNum 1);
                                  ("salt", VStr (hexlify salt))])]).

(** A KDF parameter: a safe integer of at least [minimum]. *)
Definition kdf_integer (v : value) (minimum : Z) : result Z :=
  match v with
  | VNum z => if safe_integer z && (minimum <=? z) then Ok z
              else Throw "invalid threshold keystore KDF parameters"
  | _ => Throw "invalid threshold keystore KDF parameters"
  end.

Definition decryptPayload (crypto : value) (password : string) : result value :=
  _ ← require (negb (bool_decide (password = ""))) "threshold keystore password is required";
  _ ← require (strict_eq (prop_opt crypto "cipher") (VStr "aes-256-gcm")
               && strict_eq (prop_opt crypto "kdf") (VStr "scrypt"))
        "unsupported threshold keystore encryption";
  let params := prop_opt crypto "kdfparams" in
  N ← kdf_integer (prop_opt params "N") 1024;
  r ← kdf_integer (prop_opt params "r") 1;
  p ← kdf_integer (prop_opt params "p") 1;
  salt ← hexField (prop_opt params "salt") 16 "KDF salt";
  key ← from_option_or "Invalid scrypt params" (scrypt password salt N r p);
  iv ← hexField (prop_opt crypto "iv") 12 "cipher IV";
  tag ← hexField (prop_opt crypto "tag") 16 "cipher tag";
  ciphertext ← from_option_or "invalid BytesLike value"
                 (as_string (prop_opt crypto "ciphertext") ≫= getBytes);
  cleartext ← from_option_or "Unsupported state or unable to authenticate data"
                (aes_open key iv [] ciphertext tag);
  JSON_parse (utf8_decode cleartext).

Record loaded_keystore := {
  secret : value;
  identityPrivateKey : ed_private;
  transportPrivateKey : x_private
}.

Definition loadKeystore (keystore : value) (password : string) : result loaded_keystore :=
  _ ← require (strict_eq (prop_opt keystore "format") (VStr DKG_KEYSTORE_FORMAT))
        "invalid threshold keystore format";
  secret ← decryptPayload (prop_opt keystore "crypto") password;
  rawIdentity ← prop secret "identityPrivateKey";
  identityPrivateKey ← from_option_or "invalid private key" (ed_import rawIdentity);
  transportPrivateKey ← from_option_or "invalid private key"
                          (x_import (prop_opt secret "transportPrivateKey"));
  identity ← fixedHex (prop_opt keystore "identityPublicKey") 32 "keystore identity key";
  _ ← require (bool_decide (lower (hexlify (ed_public identityPrivateKey)) = identity))
        "threshold keystore identity key mismatch";
  transport ← fixedHex (prop_opt keystore "transportPublicKey") 32 "keystore transport key";
  _ ← require (bool_decide (lower (hexlify (x_public transportPrivateKey)) = transport))
        "threshold keystore transport key mismatch";
  Ok {| secret := secret; identityPrivateKey := identityPrivateKey;
        transportPrivateKey := transportPrivateKey |}.

Definition generateParticipant (id endpoint : value) (password : string) (workFactor : Z)
    : eff entropy (value * value) :=
  identityPrivate ← generateIdentityKey;
  transportPrivate ← generateKeyPair;
  let identityPublicKey := VStr (hexlify (ed_public identityPrivate)) in
  let transportPublicKey := VStr (hexlify (x_public transportPrivate)) in
  let participant := VObj
    [("id", id); ("index", VNum 1); ("identityPublicKey", identityPublicKey);
     ("transportPublicKey", transportPublicKey); ("endpoint", endpoint)] in
  _ ← eff_lift (validateParticipant participant 1);
  crypto ← encryptPayload
    (VObj [("identityPrivateKey", VStr (ed_export identityPrivate));
           ("transportPrivateKey", VStr (x_export transportPrivate));
           ("thresholdShare", VNull); ("thresholdEpoch", VNull);
           ("thresholdManifestHash", VNull)]) password workFactor;
  mret (participant,
        VObj [("format", VStr DKG_KEYSTORE_FORMAT); ("participantId", id);
              ("identityPublicKey", identityPublicKey);
              ("transportPublicKey", transportPublicKey); ("crypto", crypto)]).

(** ** The options of a round *)
Record ceremony_options := {
  o_ceremony : string;
  o_sessionId : value;
  o_epoch : value;
  o_threshold : value;
  o_roster : value;
  o_dealerRoster : value;
  o_previousManifest : value;
  o_previousManifestHash : value;
  o_selectedDealerIds : list string
}.

Definition is_dkg (o : ceremony_options) : bool := bool_decide (o_ceremony o = "dkg").
Definition is_reshare (o : ceremony_options) : bool := bool_decide (o_ceremony o = "reshare").

Definition previousHashField (o : ceremony_options) : result value :=
  if is_dkg o then Ok VNull
  else h ← fixedHex (o_previousManifestHash o) 32 "previousManifestHash"; Ok (VStr h).
Definition selectedField (o : ceremony_options) : value :=
  VArr (VStr <$> if is_dkg o then [] else o_selectedDealerIds o).

(** What every packet of a round must say. *)
Definition expectedOf (o : ceremony_options) : result value :=
  sessionId ← fixedHex (o_sessionId o) 32 "sessionId";
  previous ← previousHashField o;
  Ok (VObj [("ceremony", VStr (o_ceremony o)); ("sessionId", VStr sessionId);
            ("epoch", o_epoch o); ("threshold", o_threshold o);
            ("previousManifestHash", previous); ("selectedDealerIds", selectedField o)]).

Definition selectedDealerIndexes (previousManifest : value) (selectedDealerIds : list string)
    : result (list Z) :=
  _ ← require (truthy previousManifest) "resharing requires the previous manifest";
  ps ← items (prop_opt previousManifest "participants");
  _ ← mapM (λ p, prop p "id") ps;
  indexes ← mapM (λ id,
      p ← from_option_or ("selected dealer " +:+ id +:+ " is not in the previous manifest")
            (find_by "id" (VStr id) (reverse ps));
      i ← to_bigint (prop_opt p "index"); Ok i) selectedDealerIds;
  _ ← require (all_distinct (print_int <$> indexes))
        "selected resharing dealer indexes must be unique";
  _ ← require (negb (number_lt (Z.of_nat (length indexes)) (prop_opt previousManifest "threshold")))
        "resharing requires at least the old threshold of selected dealers";
  canonicalIds ← canonicalJson (VArr ((λ p, prop_opt p "id") <$>
      filter (λ p, existsb (strict_eq (prop_opt p "id")) (VStr <$> selectedDealerIds) = true) ps));
  selected ← canonicalJson (VArr (VStr <$> selectedDealerIds));
  _ ← require (bool_decide (canonicalIds = selected))
        "selected resharing dealers must follow previous-manifest roster order";
  Ok indexes.

(** ** Deals *)

(** The constant term of a dealer in a resharing: its old share, weighted. *)
Definition reshareConstant (o : ceremony_options) (loaded : loaded_keystore) (dealer : value)
    : result Z :=
  '(_, previousHash) ← prepareGroupManifest (o_previousManifest o) true;
  trusted ← fixedHex (o_previousManifestHash o) 32 "previousManifestHash";
  _ ← require (bool_decide (previousHash = trusted))
        "previous manifest does not match its separately trusted hash";
  previousEpoch ← prop (o_previousManifest o) "epoch";
  _ ← require (match previousEpoch with
               | VNum e => strict_eq (o_epoch o) (VNum (e + 1)) | _ => false end)
        "resharing epoch must immediately follow the previous epoch";
  _ ← require (existsb (λ id, strict_eq (VStr id) (prop_opt dealer "id")) (o_selectedDealerIds o))
        "dealer was not selected for resharing";
  let share := prop_opt (secret loaded) "thresholdShare" in
  _ ← require (truthy share) "old dealer keystore has no threshold share";
  bound ← match prop_opt (secret loaded) "thresholdManifestHash" with
           | VUndef | VNull => Ok false
           | v => a ← to_lower v; b ← to_lower (o_previousManifestHash o); Ok (bool_decide (a = b))
           end;
  _ ← require bound "old dealer share is not bound to the trusted previous manifest";
  indexes ← selectedDealerIndexes (o_previousManifest o) (o_selectedDealerIds o);
  lambda ← lagrangeCoefficientAtZero (prop_opt dealer "index") (VBig <$> indexes);
  s ← scalar share "scalar" false;
  Ok (mod_ (s * lambda)).

(** [while (coefficients.length < threshold) coefficients.push(randomScalar(true))] *)
Fixpoint drawCoefficients (n : nat) : eff entropy (list Z) :=
  match n with
  | O => mret []
  | S n => c ← randomScalar true; cs ← drawCoefficients n; mret (c :: cs)
  end.

(** A non-zero highest coefficient. *)
Definition fixHighest (coefficients : list Z) : eff entropy (list Z) :=
  match last coefficients with
  | Some 0 => c ← randomScalar false;
              mret (take (pred (length coefficients)) coefficients ++ [c])
  | _ => mret coefficients
  end.

(** The encrypted share of one recipient. *)
Definition dealShare (coefficients : list Z) (body recipient : value) : eff entropy value :=
  share ← eff_lift (polynomialAt coefficients (prop_opt recipient "index"));
  aad ← eff_lift (shareAssociatedData body (prop_opt recipient "id"));
  ephemeral ← generateKeyPair;
  iv ← randomBytes 12;
  envelope ← eff_lift (encryptShare (VBig share) recipient aad ephemeral iv);
  mret (VObj [("recipientId", prop_opt recipient "id"); ("envelope", envelope)]).

Fixpoint dealShares (coefficients : list Z) (body : value) (recipients : list value)
    : eff entropy (list value) :=
  match recipients with
  | [] => mret []
  | r :: rest =>
      e ← dealShare coefficients body r;
      es ← dealShares coefficients body rest; mret (e :: es)
  end.

(** The body of a deal, without and with its encrypted shares. *)
Definition dealFields (o : ceremony_options) (sessionId previous dealer : value)
    (commitments : list string) : list (string * value) :=
  [("format", VStr DKG_PACKET_FORMAT); ("type", VStr "deal");
   ("ceremony", VStr (o_ceremony o)); ("sessionId", sessionId); ("epoch", o_epoch o);
   ("threshold", o_threshold o); ("dealerId", prop_opt dealer "id");
   ("dealerIndex", prop_opt dealer "index"); ("previousManifestHash", previous);
   ("selectedDealerIds", selectedField o); ("commitments", VArr (VStr <$> commitments))].
Definition dealBody (fields : list (string * value)) (shares : list value) : value :=
  VObj (fields ++ [("encryptedShares", VArr shares)]).

Definition threshold_nat (v : value) : nat :=
  match v with VNum z => Z.to_nat z | _ => 0 end.

Definition signedPacket (body : value) (key : ed_private) : result value :=
  signature ← signPacket body key;
  Ok (VObj [("body", body); ("signature", VStr signature)]).

Definition createDealBundle (o : ceremony_options) (dealerKeystore : value)
    (password : string) (workFactor : Z) : eff entropy (value * value) :=
  participants ← eff_lift (validateRoster (o_roster o) (o_threshold o));
  loaded ← eff_lift (loadKeystore dealerKeystore password);
  dealer ← eff_lift
    (roster ← (if is_reshare o
               then match prop_opt (o_previousManifest o) "participants" with
                    | VUndef | VNull => Ok [] | v => items v end
               else Ok participants);
     from_option_or "dealer is not in the applicable roster"
       (find_by "id" (prop_opt dealerKeystore "participantId") roster));
  drawn ← randomScalar false;
  constant ←
    (if is_reshare o then eff_lift (reshareConstant o loaded dealer)
     else if is_dkg o then mret drawn
     else eff_throw "ceremony must be dkg or reshare");
  others ← drawCoefficients (pred (threshold_nat (o_threshold o)));
  coefficients ← fixHighest (constant :: others);
  commitments ← eff_lift (commitmentsFor coefficients);
  sessionId ← eff_lift (fixedHex (o_sessionId o) 32 "sessionId");
  previous ← eff_lift (previousHashField o);
  let fields := dealFields o (VStr sessionId) previous dealer commitments in
  shares ← dealShares coefficients (dealBody fields []) participants;
  let body := dealBody fields shares in
  packet ← eff_lift (signedPacket body (identityPrivateKey loaded));
  hexes ← eff_lift (mapM (λ c, scalarHex (VBig c)) coefficients);
  dealHash ← eff_lift (packetHash body);
  crypto ← encryptPayload
    (VObj [("coefficients", VArr (VStr <$> hexes)); ("dealHash", VStr dealHash)])
    password workFactor;
  mret (packet,
        VObj [("format", VStr DKG_PACKET_FORMAT); ("type", VStr "dealer-state");
              ("sessionId", VStr sessionId); ("dealerId", prop_opt dealer "id");
              ("crypto", crypto)]).

(** The checks that compare a packet with what the round expects. *)
Definition ROUND_FIELDS : list string := ["ceremony"; "sessionId"; "epoch"; "threshold"].
Definition check_round (kind : string) (body expected : value) : result unit :=
  forM_ (λ field,
    require (strict_eq (prop_opt body field) (prop_opt expected field))
      (kind +:+ " has the wrong " +:+ field)) ROUND_FIELDS.

Definition check_same_json (body expected : value) (field : string) : result unit :=
  a ← canonicalJson (prop_opt body field);
  b ← canonicalJson (prop_opt expected field);
  require (bool_decide (a = b)) ("deal has the wrong " +:+ field).

(** [canonicalJson(a) === canonicalJson(b)] *)
Definition same_json (a b : value) : result bool :=
  x ← canonicalJson a; y ← canonicalJson b; Ok (bool_decide (x = y)).

Definition recipientIds (shares : list value) : result (list value) :=
  mapM (λ item, prop item "recipientId") shares.

(** The commitments of a deal: [threshold] points, the highest not zero. *)
Definition check_commitments (body threshold : value) (dealerId : string) : result unit :=
  match prop_opt body "commitments" with
  | VArr commitments =>
      if negb (strict_eq (VNum (Z.of_nat (length commitments))) threshold)
      then Throw ("invalid commitments from " +:+ dealerId)
      else
        _ ← imapM (λ position c, g2CommitmentPoint (JsVal c)
                     ("commitment " +:+ print_int (Z.of_nat position))) commitments;
        top ← g2CommitmentPoint (JsVal (default VUndef (last commitments))) "highest commitment";
        require (negb (bool_decide (top = c_zero)))
          ("zero highest commitment from " +:+ dealerId)
  | _ => Throw ("invalid commitments from " +:+ dealerId)
  end.

(** One encrypted share for every member of the roster. *)
Definition check_coverage (body : value) (roster : list value) (dealerId : string)
    : result unit :=
  let uncovered := "deal from " +:+ dealerId +:+ " does not cover the roster exactly once" in
  match prop_opt body "encryptedShares" with
  | VArr shares =>
      if negb (length shares =? length roster)%nat then Throw uncovered
      else
        ids ← recipientIds shares;
        _ ← require (length (js_value_set ids) =? length roster)%nat uncovered;
        same ← same_json (VArr (js_sort_values ids))
                 (VArr (js_sort_values ((λ item, prop_opt item "id") <$> roster)));
        require same ("deal from " +:+ dealerId +:+ " targets the wrong roster")
  | _ => Throw uncovered
  end.

(** [!dealer || dealer.index !== body[index] || !verifyPacket(packet, dealer)] *)
Definition signed_by (packet body : value) (member : option value) (indexField : string)
    : result bool :=
  match member with
  | None => Ok false
  | Some p =>
      if negb (strict_eq (prop_opt p "index") (prop_opt body indexField)) then Ok false
      else verifyPacket packet p
  end.

Definition validateDealPacket (packet : value) (roster dealerRoster : list value)
    (expected : value) : result (value * value) :=
  let body := prop_opt packet "body" in
  _ ← require (strict_eq (prop_opt body "format") (VStr DKG_PACKET_FORMAT)
               && strict_eq (prop_opt body "type") (VStr "deal")) "invalid deal packet format";
  _ ← check_round "deal" body expected;
  _ ← forM_ (check_same_json body expected) ["previousManifestHash"; "selectedDealerIds"];
  let dealerId := to_str (prop_opt body "dealerId") in
  let dealer := find_by "id" (prop_opt body "dealerId") dealerRoster in
  ok ← signed_by packet body dealer "dealerIndex";
  _ ← require ok ("invalid deal identity signature from " +:+ dealerId);
  _ ← check_commitments body (prop_opt expected "threshold") dealerId;
  _ ← check_coverage body roster dealerId;
  Ok (body, default VUndef dealer).

(** ** Responses *)

(** The recipient's own share in a deal, decrypted. *)
Definition ownShare (body recipient : value) (key : x_private) : result Z :=
  shares ← items (prop_opt body "encryptedShares");
  item ← from_option_or TYPE_ERROR
    (find_by "recipientId" (prop_opt recipient "id") shares);
  aad ← shareAssociatedData body (prop_opt recipient "id");
  decryptShare (prop_opt item "envelope") key aad.

Definition commitmentsOf (body : value) : list value :=
  array_items (prop_opt body "commitments").

(** The [try] block of [createResponseBundle]. *)
Definition checkDeal (packet : value) (participants dealers : list value)
    (expected recipient : value) (key : x_private) : result unit :=
  '(body, _) ← validateDealPacket packet participants dealers expected;
  share ← ownShare body recipient key;
  ok ← shareMatchesCommitments (VBig share) (commitmentsOf body) (prop_opt recipient "index");
  require ok "share does not match the public commitments".

Definition statusOf (packet : value) (checked : result unit) : value :=
  let dealerId := prop_opt (prop_opt packet "body") "dealerId" in
  VObj [("dealerId", if truthy dealerId then dealerId else VStr "unknown");
        ("status", VBool (is_ok checked));
        ("reason", VStr (match checked with
                         | Ok _ => "accepted"
                         | Throw e => of_chars (take 160 (chars e)) end))].

(** [l.sort((a, b) => key(a).localeCompare(key(b)))]: insertion of each element
    after those that are not greater. *)
Fixpoint locale_insert (key : value → string) (x : value) (l : list value) : list value :=
  match l with
  | [] => [x]
  | y :: l' => if locale_le (key y) (key x) then y :: locale_insert key x l' else x :: l
  end.
Definition locale_sort (key : value → value) (l : list value) : result (list value) :=
  if (1 <? length l)%nat && negb (forallb (λ x, bool_decide (typeof (key x) = "string")) l)
  then Throw TYPE_ERROR
  else Ok (foldl (λ acc x, locale_insert (λ v, to_str (key v)) x acc) [] l).

Definition createResponseBundle (o : ceremony_options) (recipientKeystore : value)
    (password : string) (deals : list value) : result value :=
  participants ← validateRoster (o_roster o) (o_threshold o);
  dealerRoster ← items (o_dealerRoster o);
  dealers ← validateParticipants dealerRoster;
  loaded ← loadKeystore recipientKeystore password;
  recipient ← from_option_or "response signer is not in the new roster"
    (find_by "id" (prop_opt recipientKeystore "participantId") participants);
  expected ← expectedOf o;
  let statuses := (λ packet, statusOf packet
    (checkDeal packet participants dealers expected recipient (transportPrivateKey loaded)))
    <$> deals in
  statuses ← locale_sort (λ s, prop_opt s "dealerId") statuses;
  signedPacket
    (VObj [("format", VStr DKG_PACKET_FORMAT); ("type", VStr "response");
           ("ceremony", VStr (o_ceremony o)); ("sessionId", prop_opt expected "sessionId");
           ("epoch", o_epoch o); ("threshold", o_threshold o);
           ("recipientId", prop_opt recipient "id"); ("recipientIndex", prop_opt recipient "index");
           ("statuses", VArr statuses)])
    (identityPrivateKey loaded).

(** A status of a response, after those of the dealers in [seen]. *)
Definition checkStatus (seen : list string) (status : value) : result (list string) :=
  match prop_opt status "dealerId", prop_opt status "status", prop_opt status "reason" with
  | VStr dealerId, VBool _, VStr reason =>
      if (160 <? str_length reason) || bool_decide (dealerId ∈ seen)
      then Throw "invalid response status" else Ok (seen ++ [dealerId])
  | _, _, _ => Throw "invalid response status"
  end.

Definition validateResponsePacket (packet : value) (roster : list value) (expected : value)
    : result value :=
  let body := prop_opt packet "body" in
  let recipient := find_by "id" (prop_opt body "recipientId") roster in
  _ ← require (strict_eq (prop_opt body "format") (VStr DKG_PACKET_FORMAT)
               && strict_eq (prop_opt body "type") (VStr "response")) "invalid response packet";
  ok ← signed_by packet body recipient "recipientIndex";
  _ ← require ok "invalid response packet";
  _ ← check_round "response" body expected;
  match prop_opt body "statuses" with
  | VArr statuses => _ ← foldM checkStatus [] statuses; Ok body
  | _ => Throw "response statuses must be an array"
  end.

(** A response packet added to the bodies already collected. *)
Definition collectResponse (participants : list value) (expected : value)
    (bodies : list value) (packet : value) : result (list value) :=
  body ← validateResponsePacket packet participants expected;
  _ ← require (negb (existsb (λ b, same_value (prop_opt b "recipientId")
                                     (prop_opt body "recipientId")) bodies))
        "duplicate response packet";
  Ok (bodies ++ [body]).
Definition collectResponses (participants : list value) (expected : value)
    (responses : list value) : result (list value) :=
  foldM (collectResponse participants expected) [] responses.

(** [status.dealerId === dealerId && !status.status] *)
Definition complains_about (dealerId status : value) : bool :=
  strict_eq (prop_opt status "dealerId") dealerId && negb (truthy (prop_opt status "status")).
Definition statusesOf (body : value) : list value := array_items (prop_opt body "statuses").

(** ** Resolutions *)

Definition complaintOf (coefficients : list Z) (dealerId body : value)
    : result (option value) :=
  if existsb (complains_about dealerId) (statusesOf body) then
    share ← polynomialAt coefficients (prop_opt body "recipientIndex");
    hex ← scalarHex (VBig share);
    Ok (Some (VObj [("recipientId", prop_opt body "recipientId");
                    ("recipientIndex", prop_opt body "recipientIndex"); ("share", VStr hex)]))
  else Ok None.

(** The loop over the responses: validation, and one revealed share per complaint. *)
Definition resolveStep (participants : list value) (expected : value)
    (coefficients : list Z) (dealerId : value) (acc : list value * list value) (packet : value)
    : result (list value * list value) :=
  bodies ← collectResponse participants expected acc.1 packet;
  complaint ← complaintOf coefficients dealerId (prop_opt packet "body");
  Ok (bodies, acc.2 ++ match complaint with Some c => [c] | None => [] end).

(** [complaints.sort((left, right) => left.recipientIndex - right.recipientIndex)] *)
Definition index_le (a b : value) : Prop :=
  match prop_opt a "recipientIndex", prop_opt b "recipientIndex" with
  | VNum x, VNum y => x <= y
  | _, _ => True
  end.
#[export] Instance index_le_dec a b : Decision (index_le a b).
Proof. unfold index_le. destruct (prop_opt a "recipientIndex"), (prop_opt b "recipientIndex"); apply _. Defined.

Definition createResolutionBundle (roster dealerRoster dealerKeystore dealerState : value)
    (password : string) (deal : value) (responses : list value) : result value :=
  let dealBody := prop_opt deal "body" in
  participants ← validateRoster roster (prop_opt dealBody "threshold");
  dealerList ← items dealerRoster;
  dealers ← validateParticipants dealerList;
  loaded ← loadKeystore dealerKeystore password;
  let dealerId := prop_opt dealerKeystore "participantId" in
  _ ← require (strict_eq (prop_opt dealerState "type") (VStr "dealer-state")
               && strict_eq (prop_opt dealerState "dealerId") dealerId
               && strict_eq (prop_opt dealerState "sessionId") (prop_opt dealBody "sessionId"))
        "dealer state does not match the deal";
  secret ← decryptPayload (prop_opt dealerState "crypto") password;
  dealHash ← packetHash dealBody;
  recorded ← prop secret "dealHash";
  _ ← require (strict_eq recorded (VStr dealHash)) "dealer state deal hash mismatch";
  sessionId ← fixedHex (prop_opt dealBody "sessionId") 32 "sessionId";
  let expected := VObj
    [("ceremony", prop_opt dealBody "ceremony"); ("sessionId", VStr sessionId);
     ("epoch", prop_opt dealBody "epoch"); ("threshold", prop_opt dealBody "threshold");
     ("previousManifestHash", prop_opt dealBody "previousManifestHash");
     ("selectedDealerIds", prop_opt dealBody "selectedDealerIds")] in
  '(_, dealer) ← validateDealPacket deal participants dealers expected;
  _ ← require (strict_eq (prop_opt dealer "id") dealerId)
        "dealer keystore does not own the signed deal";
  raw ← items (prop_opt secret "coefficients");
  coefficients ← mapM (λ v, scalar v "dealer coefficient" true) raw;
  '(_, complaints) ←
    foldM (resolveStep participants expected coefficients dealerId) ([], []) responses;
  _ ← require (length (js_value_set ((λ c, prop_opt c "recipientId") <$> complaints))
               =? length complaints)%nat "duplicate complaint response";
  _ ← require (number_lt (Z.of_nat (length complaints)) (prop_opt dealBody "threshold"))
        "refusing to reveal threshold shares; disqualify the dealer and restart";
  signedPacket
    (VObj [("format", VStr DKG_PACKET_FORMAT); ("type", VStr "resolution");
           ("ceremony", prop_opt dealBody "ceremony"); ("sessionId", prop_opt dealBody "sessionId");
           ("epoch", prop_opt dealBody "epoch"); ("threshold", prop_opt dealBody "threshold");
           ("dealerId", dealerId); ("complaints", VArr (merge_sort index_le complaints))])
    (identityPrivateKey loaded).

(** A revealed share of a resolution, after those of the recipients in [seen]. *)
Definition checkRevealed (roster : list value) (dealBody : value) (dealerId : string)
    (seen : list value) (item : value) : result (list value) :=
  recipientId ← prop item "recipientId";
  let recipientIndex := prop_opt item "recipientIndex" in
  let invalid := "invalid resolution recipient from " +:+ dealerId in
  recipient ← from_option_or invalid (find_by "id" recipientId roster);
  _ ← require (strict_eq (prop_opt recipient "index") recipientIndex
               && negb (existsb (same_value recipientId) seen)) invalid;
  ok ← shareMatchesCommitments (prop_opt item "share") (commitmentsOf dealBody) recipientIndex;
  _ ← require ok ("invalid resolved share from " +:+ dealerId);
  Ok (seen ++ [recipientId]).

(** The recipients whose signed response complains about a dealer. *)
Definition complainers (dealerId : value) (responses : list value) : list value :=
  (λ r, prop_opt r "recipientId")
    <$> filter (λ r, existsb (complains_about dealerId) (statusesOf r) = true) responses.

Definition validateResolution (packet dealer dealBody expected : value)
    (roster responses : list value) : result value :=
  let body := prop_opt packet "body" in
  let id := to_str (prop_opt dealer "id") in
  _ ← require (strict_eq (prop_opt body "format") (VStr DKG_PACKET_FORMAT)
               && strict_eq (prop_opt body "type") (VStr "resolution")
               && strict_eq (prop_opt body "dealerId") (prop_opt dealer "id"))
        ("invalid resolution from " +:+ id);
  ok ← verifyPacket packet dealer;
  _ ← require ok ("invalid resolution from " +:+ id);
  _ ← check_round "resolution" body expected;
  match prop_opt body "complaints" with
  | VArr complaints =>
      let complained := js_sort_values (complainers (prop_opt dealer "id") responses) in
      _ ← require (number_lt (Z.of_nat (length complained)) (prop_opt expected "threshold"))
            ("resolution from " +:+ id +:+ " would reveal threshold shares");
      resolved ← recipientIds complaints;
      same ← same_json (VArr (js_sort_values resolved)) (VArr complained);
      _ ← require same ("resolution from " +:+ id +:+ " does not exactly match signed complaints");
      _ ← foldM (checkRevealed roster dealBody id) [] complaints;
      Ok body
  | _ => Throw "resolution complaints must be an array"
  end.

(** ** Finalization *)

(** The resolution packets by dealer: a duplicate or unnamed one is refused. *)
Definition collectResolution (acc : list (string * value)) (packet : value)
    : result (list (string * value)) :=
  match prop_opt (prop_opt packet "body") "dealerId" with
  | VStr dealerId =>
      if bool_decide (dealerId ∈ keys acc) then Throw "invalid or duplicate resolution packet"
      else Ok (acc ++ [(dealerId, packet)])
  | _ => Throw "invalid or duplicate resolution packet"
  end.

(** The entry of a map keyed by strings. *)
Definition lookup_id (id : value) (l : list (string * value)) : option value :=
  k ← as_string id; assoc k l.

(** The first commitment of a resharing dealer is its old share key, weighted. *)
Definition checkReshareConstant (o : ceremony_options) (body dealer : value) : result unit :=
  indexes ← selectedDealerIndexes (o_previousManifest o) (o_selectedDealerIds o);
  lambda ← lagrangeCoefficientAtZero (prop_opt dealer "index") (VBig <$> indexes);
  ps ← items (prop_opt (o_previousManifest o) "participants");
  oldShare ← from_option_or TYPE_ERROR (find_by "id" (prop_opt dealer "id") ps);
  let id := to_str (prop_opt dealer "id") in
  K ← g2Point (JsVal (prop_opt oldShare "sharePublicKey")) (id +:+ " old share public key");
  expectedConstant ← c_multiply lambda K;
  C ← g2CommitmentPoint (JsVal (default VUndef (head (commitmentsOf body))))
        (id +:+ " resharing constant commitment");
  require (bool_decide (C = expectedConstant))
    ("resharing constant commitment from " +:+ id +:+ " is invalid").

(** The deals and resolutions accepted so far. *)
Record accepted := {
  a_deals : list value;                    (* bodies of [validDeals] *)
  a_resolutions : list (string * value)    (* [resolutionsByDealer] *)
}.

Definition acceptDeal (o : ceremony_options) (participants dealers : list value)
    (expected : value) (responses : list value) (packets : list (string * value))
    (acc : accepted) (packet : value) : result accepted :=
  '(body, dealer) ← validateDealPacket packet participants dealers expected;
  let id := prop_opt dealer "id" in
  _ ← require (negb (existsb (λ b, strict_eq (prop_opt b "dealerId") id) (a_deals acc)))
        ("duplicate deal from " +:+ to_str id);
  resolution ←
    match lookup_id id packets with
    | Some packet =>
        r ← validateResolution packet dealer body expected participants responses; Ok (Some r)
    | None => Ok None
    end;
  _ ← (if is_reshare o then checkReshareConstant o body dealer else Ok tt);
  Ok {| a_deals := a_deals acc ++ [body];
        a_resolutions := a_resolutions acc ++
          match resolution, as_string id with
          | Some r, Some k => [(k, r)] | _, _ => [] end |}.

(** Every response speaks about every valid deal. *)
Definition checkCoverage (validDealerIds : list value) (response : value) : result unit :=
  same ← same_json (VArr (js_sort_values ((λ s, prop_opt s "dealerId") <$> statusesOf response)))
           (VArr validDealerIds);
  require same ("response from " +:+ to_str (prop_opt response "recipientId")
                +:+ " does not cover every valid deal").

Definition resolvedIds (resolution : option value) : list value :=
  match resolution with
  | Some r => (λ c, prop_opt c "recipientId") <$> array_items (prop_opt r "complaints")
  | None => []
  end.

(** The status a response gives to a dealer, with its recipient. *)
Definition evaluations (dealerId : value) (responses : list value) : list (value * value) :=
  omap (λ r, s ← find_by "dealerId" dealerId (statusesOf r);
             Some (prop_opt r "recipientId", s)) responses.

(** Is a deal qualified: fewer complaints than the threshold, all resolved, and
    [threshold] recipients who accepted or were resolved. *)
Definition is_qualified (threshold : value) (responses : list value)
    (resolutions : list (string * value)) (body : value) : bool :=
  let dealerId := prop_opt body "dealerId" in
  let evs := evaluations dealerId responses in
  let approvals := filter (λ e, truthy (prop_opt e.2 "status") = true) evs in
  let complaints := filter (λ e, truthy (prop_opt e.2 "status") = false) evs in
  let resolved := resolvedIds (lookup_id dealerId resolutions) in
  let is_resolved := λ e : value * value, existsb (same_value e.1) resolved in
  let count := (length approvals + length (filter (λ e, is_resolved e = true) complaints))%nat in
  number_lt (Z.of_nat (length complaints)) threshold
  && forallb is_resolved complaints
  && negb (number_lt (Z.of_nat count) threshold).

(** A participant's contribution from one deal: its decrypted share, or the share
    the dealer revealed. *)
Definition contribution (participant : value) (key : x_private)
    (resolutions : list (string * value)) (body : value) : result Z :=
  catch
    (share ← ownShare body participant key;
     ok ← shareMatchesCommitments (VBig share) (commitmentsOf body) (prop_opt participant "index");
     _ ← require ok "invalid local share"; Ok share)
    (λ _,
       let dealerId := prop_opt body "dealerId" in
       resolved ← from_option_or ("no valid share from " +:+ to_str dealerId)
         (r ← lookup_id dealerId resolutions;
          find_by "recipientId" (prop_opt participant "id")
            (array_items (prop_opt r "complaints")));
       scalar (prop_opt resolved "share") "resolved share" true).

Definition addContribution (participant : value) (key : x_private)
    (resolutions : list (string * value)) (privateShare : Z) (body : value) : result Z :=
  c ← contribution participant key resolutions body;
  Ok (Z.rem (privateShare + c) BLS_SCALAR_ORDER).

(** The sum of the commitments at one position. *)
Definition sumCommitments (deals : list value) (position : nat) : result G2 :=
  foldM (λ sum body,
    C ← g2CommitmentPoint
          (JsVal (default VUndef (commitmentsOf body !! position)))
          ("commitment " +:+ print_int (Z.of_nat position));
    Ok (c_add sum C)) c_zero deals.

Definition aggregateCommitments (deals : list value) (threshold : nat)
    : result (list string) :=
  mapM (λ position, P ← sumCommitments deals position; Ok (wireHex P)) (seq 0 threshold).

Definition finalizeQualified (o : ceremony_options) (qualified : list value) : result unit :=
  if is_dkg o then
    require (negb (number_lt (Z.of_nat (length qualified)) (o_threshold o)))
      "fewer than threshold dealers qualified"
  else if is_reshare o then
    _ ← selectedDealerIndexes (o_previousManifest o) (o_selectedDealerIds o);
    require ((length qualified =? length (o_selectedDealerIds o))%nat
             && forallb (λ id, existsb (λ b, strict_eq (prop_opt b "dealerId") (VStr id)) qualified)
                  (o_selectedDealerIds o))
      "resharing aborts unless every preselected old dealer qualifies"
  else Ok tt.

Definition packetDealer (p : value) : value := prop_opt (prop_opt p "body") "dealerId".
Definition packetRecipient (p : value) : value := prop_opt (prop_opt p "body") "recipientId".

(** What a participant makes of the qualified deals and its share: its finalization, its
    keystore and the transcript. *)
Definition sealFinalization (o : ceremony_options) (participantKeystore : value) (password : string) (workFactor : Z)
    (deals responses resolutions : list value) (loaded : loaded_keystore) (participant expected : value)
    (qualified : list value) (privateShare : Z) : eff entropy (value * value * value) :=
  _ ← eff_require (negb (privateShare =? 0)) "final threshold share is zero";
  publicCoefficients ← eff_lift (aggregateCommitments qualified (threshold_nat (o_threshold o)));
  let groupPublicKey := default "" (head publicCoefficients) in
  _ ← eff_lift
    (if is_reshare o then
       previousKey ← to_lower (prop_opt (o_previousManifest o) "groupPublicKey");
       require (bool_decide (lower groupPublicKey = previousKey))
         "resharing changed the group public key"
     else Ok tt);
  sortedDeals ← eff_lift (locale_sort packetDealer deals);
  sortedResponses ← eff_lift (locale_sort packetRecipient responses);
  sortedResolutions ← eff_lift (locale_sort packetDealer resolutions);
  let qualifiedIds := VArr (js_sort_values ((λ b, prop_opt b "dealerId") <$> qualified)) in
  let transcript := VObj
    [("format", VStr DKG_PACKET_FORMAT); ("ceremony", VStr (o_ceremony o));
     ("sessionId", prop_opt expected "sessionId"); ("epoch", o_epoch o);
     ("threshold", o_threshold o); ("qualifiedDealerIds", qualifiedIds);
     ("deals", VArr sortedDeals); ("responses", VArr sortedResponses);
     ("resolutions", VArr sortedResolutions)] in
  transcriptHash ← eff_lift (packetHash transcript);
  hex ← eff_lift (scalarHex (VBig privateShare));
  let fields := match secret loaded with VObj fs => fs | _ => [] end in
  let newSecret := VObj
    (assoc_set "thresholdTranscriptHash" (VStr transcriptHash)
      (assoc_set "thresholdManifestHash" VNull
        (assoc_set "thresholdEpoch" (o_epoch o)
          (assoc_set "thresholdShare" (VStr hex) fields)))) in
  P ← eff_lift (c_multiply privateShare base2);
  let finalization := VObj
    [("format", VStr DKG_FINALIZATION_FORMAT); ("ceremony", VStr (o_ceremony o));
     ("sessionId", prop_opt expected "sessionId"); ("epoch", o_epoch o);
     ("threshold", o_threshold o); ("participantId", prop_opt participant "id");
     ("participantIndex", prop_opt participant "index");
     ("groupPublicKey", VStr groupPublicKey);
     ("publicCoefficients", VArr (VStr <$> publicCoefficients));
     ("sharePublicKey", VStr (wireHex P)); ("transcriptHash", VStr transcriptHash);
     ("qualifiedDealerIds", qualifiedIds);
     ("previousManifestHash", prop_opt expected "previousManifestHash")] in
  crypto ← encryptPayload newSecret password workFactor;
  let keystoreFields := match participantKeystore with VObj fs => fs | _ => [] end in
  mret (finalization, VObj (assoc_set "crypto" crypto keystoreFields), transcript).

Definition finalizeCeremony (o : ceremony_options) (participantKeystore : value)
    (password : string) (workFactor : Z) (deals responses resolutions : list value)
    : eff entropy (value * value * value) :=
  participants ← eff_lift (validateRoster (o_roster o) (o_threshold o));
  dealerRoster ← eff_lift (items (o_dealerRoster o));
  dealers ← eff_lift (validateParticipants dealerRoster);
  loaded ← eff_lift (loadKeystore participantKeystore password);
  participant ← eff_lift (from_option_or "finalizing participant is not in the new roster"
    (find_by "id" (prop_opt participantKeystore "participantId") participants));
  expected ← eff_lift (expectedOf o);
  validResponses ← eff_lift (collectResponses participants expected responses);
  packets ← eff_lift (foldM collectResolution [] resolutions);
  acc ← eff_lift (foldM (acceptDeal o participants dealers expected validResponses packets)
                    {| a_deals := []; a_resolutions := [] |} deals);
  let validDealerIds := js_sort_values ((λ b, prop_opt b "dealerId") <$> a_deals acc) in
  _ ← eff_require (forallb (λ k, existsb (strict_eq (VStr k)) validDealerIds) (keys packets))
        "resolution references a dealer without a valid deal";
  _ ← eff_lift (forM_ (checkCoverage validDealerIds) validResponses);
  let qualified := filter
    (λ b, is_qualified (o_threshold o) validResponses (a_resolutions acc) b = true)
    (a_deals acc) in
  _ ← eff_lift (finalizeQualified o qualified);
  privateShare ← eff_lift
    (foldM (addContribution participant (transportPrivateKey loaded) (a_resolutions acc))
       0 qualified);
  sealFinalization o participantKeystore password workFactor deals responses resolutions
    loaded participant expected qualified privateShare.

(** ** The manifest of a ceremony *)

Definition AGREED_FIELDS : list string :=
  ["ceremony"; "sessionId"; "epoch"; "threshold"; "groupPublicKey"; "transcriptHash";
   "previousManifestHash"].

Definition checkFinalization (first f : value) : result unit :=
  format ← prop f "format";
  _ ← require (strict_eq format (VStr DKG_FINALIZATION_FORMAT)) "invalid finalization";
  _ ← forM_ (λ field,
        same ← same_json (prop_opt f field) (prop_opt first field);
        require same ("finalizations disagree on " +:+ field)) AGREED_FIELDS;
  same ← same_json (prop_opt f "publicCoefficients") (prop_opt first "publicCoefficients");
  require same "finalizations disagree on public coefficients".

(** What the operator supplies for the manifest. *)
Record manifest_options := {
  mo_network : value;
  mo_chainId : value;
  mo_verifierAdapter : value;
  mo_softwareCommit : value;
  mo_containerDigest : value;
  mo_previousManifestHash : value
}.

Definition assembleManifest (finalizations roster : list value) (mo : manifest_options)
    : result value :=
  _ ← require (length finalizations =? length roster)%nat
        "one finalization is required for every new participant";
  first ← from_option_or TYPE_ERROR (head finalizations);
  _ ← forM_ (checkFinalization first) finalizations;
  let ids := (λ f, prop_opt f "participantId") <$> finalizations in
  let byId := λ id, find_first (λ f, same_value (prop_opt f "participantId") id)
                      (reverse finalizations) in
  _ ← require ((length (js_value_set ids) =? length roster)%nat
        && forallb (λ p, match byId (prop_opt p "id") with
                         | Some f => strict_eq (prop_opt f "participantIndex") (prop_opt p "index")
                         | None => false end) roster)
        "finalizations must cover the roster exactly once";
  keyHash ← adapterKeyHash (prop_opt first "groupPublicKey");
  let manifest := VObj
    [("format", VStr GROUP_FORMAT); ("scheme", VStr BLS_SCHEME);
     ("network", mo_network mo); ("chainId", mo_chainId mo);
     ("verifierAdapter", mo_verifierAdapter mo); ("ceremony", prop_opt first "ceremony");
     ("previousManifestHash", mo_previousManifestHash mo); ("epoch", prop_opt first "epoch");
     ("threshold", prop_opt first "threshold"); ("groupPublicKey", prop_opt first "groupPublicKey");
     ("publicCoefficients", prop_opt first "publicCoefficients"); ("keyHash", VStr keyHash);
     ("dkgTranscriptHash", prop_opt first "transcriptHash");
     ("softwareCommit", mo_softwareCommit mo); ("containerDigest", mo_containerDigest mo);
     ("participants", VArr ((λ p, VObj (assoc_set "sharePublicKey"
         (match byId (prop_opt p "id") with
          | Some f => prop_opt f "sharePublicKey" | None => VUndef end)
         (match p with VObj fs => fs | _ => [] end))) <$> roster));
     ("attestations", VArr []); ("handoffAttestations", VArr [])] in
  _ ← prepareGroupManifest manifest true;
  Ok manifest.

Definition attestManifest (manifest participantKeystore : value) (password : string)
    : result value :=
  loaded ← loadKeystore participantKeystore password;
  '(_, manifestHash) ← prepareGroupManifest manifest true;
  b ← hexBytes manifestHash;
  Ok (VObj [("participantId", prop_opt participantKeystore "participantId");
            ("signature", VStr (hexlify (ed_sign b (identityPrivateKey loaded))))]).

Definition bindKeystoreToManifest (keystore : value) (password : string)
    (manifest manifestHash : value) (workFactor : Z) : eff entropy value :=
  loaded ← eff_lift (loadKeystore keystore password);
  let share := prop_opt (secret loaded) "thresholdShare" in
  _ ← eff_require (truthy share) "keystore has no finalized threshold share";
  '(body, preparedHash) ← eff_lift (prepareGroupManifest manifest true);
  trustedHash ← eff_lift (fixedHex manifestHash 32 "manifestHash");
  _ ← eff_require (bool_decide (preparedHash = trustedHash))
        "manifest does not match its separately trusted hash";
  let mismatch := "threshold keystore does not match the manifest participant and share" in
  participant ← eff_lift (from_option_or mismatch
    (find_first (λ p, strict_eq (VStr (p_id p)) (prop_opt keystore "participantId"))
       (b_participants body)));
  identity ← eff_lift (to_lower (prop_opt keystore "identityPublicKey"));
  _ ← eff_require (bool_decide (lower (p_identityPublicKey participant) = identity)) mismatch;
  transport ← eff_lift (to_lower (prop_opt keystore "transportPublicKey"));
  _ ← eff_require (bool_decide (lower (p_transportPublicKey participant) = transport)) mismatch;
  key ← eff_lift (publicKeyForShare share);
  _ ← eff_require (bool_decide (lower key = lower (p_sharePublicKey participant))) mismatch;
  let fields := match secret loaded with VObj fs => fs | _ => [] end in
  crypto ← encryptPayload
    (VObj (assoc_set "thresholdManifestHash" (VStr trustedHash) fields)) password workFactor;
  mret (VObj (assoc_set "crypto" crypto (match keystore with VObj fs => fs | _ => [] end))).
End ceremony.

(** ** The finalized share lies on the public polynomial *)
Section finalization.
Context `{Ethers, !EthersLaws, NobleBls, !BlsLaws, !NodeCrypto, UrlApi, !SealCrypto,
  !KeyStorage, LocaleApi}.

Lemma strict_eq_VNum v z : strict_eq v (VNum z) = true → v = VNum z.
Proof. destruct v; cbn; try done. by intros ->%Z.eqb_eq. Qed.

Lemma strict_eq_eq a b : strict_eq a b = true → a = b.
Proof.
  destruct a, b; cbn; try done.
  - by intros ->%Bool.eqb_prop.
  - by intros ->%Z.eqb_eq.
  - by intros [->%bool_decide_eq_true _]%andb_true_iff.
  - by intros ->%Z.eqb_eq.
  - by intros ->%bool_decide_eq_true.
Qed.

Lemma strict_eq_sym a b : strict_eq a b = strict_eq b a.
Proof.
  apply eq_true_iff_eq. split; intros E; by pose proof (strict_eq_eq _ _ E) as ->.
Qed.

Lemma find_by_Some field v l x :
  find_by field v l = Some x → x ∈ l ∧ prop_opt x field = v ∧ strict_eq v v = true.
Proof.
  intros [Hx Hv]%find_first_Some. pose proof (strict_eq_eq _ _ Hv) as <-. done.
Qed.

(** The points of a list of commitments. *)
Definition decodes (cs : list value) (Cs : list G2) : Prop :=
  Forall2 (λ c C, source_bytes (JsVal c) = Some (c_encode C)) cs Cs.

Lemma decodes_unique cs Cs Cs' : decodes cs Cs → decodes cs Cs' → Cs = Cs'.
Proof.
  intros Hcs. revert Cs'. induction Hcs as [|c C cs Cs Hc _ IH]; intros Cs' Hcs'.
  - by inversion Hcs'.
  - inversion Hcs' as [|? C' ? Cs'' Hc' Hcs'']; subst. f_equal; [|by apply IH].
    eapply c_encode_inj. congruence.
Qed.

(** A scalar that the commitments of a deal determine at an index. *)
Definition on_polynomial (body : value) (x s : Z) : Prop :=
  0 < s < order ∧ ∃ Cs, decodes (commitmentsOf body) Cs ∧ smul s base2 = point_eval Cs x.

Lemma shareMatches_on_polynomial share body index x s :
  to_bigint share = Ok s → to_bigint index = Ok x → 0 < x < order →
  shareMatchesCommitments share (commitmentsOf body) index = Ok true → on_polynomial body x s.
Proof.
  intros Hs Hi Hx Hm. apply (shareMatchesCommitments_true _ _ _ x) in Hm
    as (s' & Cs & Hs' & Hs0 & HCs & E); [|done..].
  rewrite Hs in Hs'. injection Hs' as <-. split; [done|]. by exists Cs.
Qed.

(** The complaints of a resolution reveal values of the dealer's polynomial to
    members of the roster. *)
Definition reveals_polynomial (roster : list value) (body r : value) : Prop :=
  ∀ item, item ∈ array_items (prop_opt r "complaints") →
    ∃ p, find_by "id" (prop_opt item "recipientId") roster = Some p ∧
      ∀ x, prop_opt p "index" = VNum x → 0 < x < order →
        shareMatchesCommitments (prop_opt item "share") (commitmentsOf body)
          (VNum x) = Ok true.

Lemma validateResolution_reveals packet dealer body expected roster responses r :
  validateResolution packet dealer body expected roster responses = Ok r →
  reveals_polynomial roster body r.
Proof.
  unfold validateResolution. intros Hr.
  apply bind_Ok in Hr as (? & _ & Hr). apply bind_Ok in Hr as (? & _ & Hr).
  apply bind_Ok in Hr as (? & _ & Hr). apply bind_Ok in Hr as (? & _ & Hr).
  destruct (prop_opt (prop_opt packet "body") "complaints") as [| | | | | | |l|] eqn:El; try done.
  apply bind_Ok in Hr as (? & _ & Hr). apply bind_Ok in Hr as (? & _ & Hr).
  apply bind_Ok in Hr as (? & _ & Hr). apply bind_Ok in Hr as (? & _ & Hr).
  apply bind_Ok in Hr as (seen & Hf & [= <-]).
  intros item Hin. rewrite El in Hin. cbn in Hin.
  apply list_elem_of_split in Hin as (l1 & l2 & ->). rewrite foldM_app in Hf.
  apply bind_Ok in Hf as (seen1 & _ & Hf). cbn in Hf. apply bind_Ok in Hf as (seen2 & Hc & _).
  unfold checkRevealed in Hc. apply bind_Ok in Hc as (rid & Hrid%prop_prop_opt & Hc).
  apply bind_Ok in Hc as (p & Hp%from_option_or_Ok & Hc).
  apply bind_Ok in Hc as (? & Hidx%require_Ok & Hc).
  apply bind_Ok in Hc as (ok & Hok & Hc). apply bind_Ok in Hc as (? & ->%require_Ok & _).
  apply andb_true_iff in Hidx as [Hidx%strict_eq_eq _].
  exists p. rewrite Hrid. split; [done|]. intros ix Hx _. by rewrite <-Hx, Hidx.
Qed.

(** What the loop over the deals maintains. *)
Record accepted_ok (t : Z) (participants : list value) (acc : accepted) : Prop := {
  ok_commitments b : b ∈ a_deals acc →
    ∃ Cs, decodes (commitmentsOf b) Cs ∧ Z.of_nat (length Cs) = t;
  ok_keys k : k ∈ keys (a_resolutions acc) → ∃ b, b ∈ a_deals acc ∧ prop_opt b "dealerId" = VStr k;
  ok_reveals b r : b ∈ a_deals acc →
    lookup_id (prop_opt b "dealerId") (a_resolutions acc) = Some r →
    reveals_polynomial participants b r
}.

Lemma check_commitments_Ok body t id u :
  check_commitments body (VNum t) id = Ok u →
  ∃ Cs, decodes (commitmentsOf body) Cs ∧ Z.of_nat (length Cs) = t.
Proof.
  unfold check_commitments, commitmentsOf.
  destruct (prop_opt body "commitments") as [| | | | | | |cs|]; try done.
  intros Hc. apply if_throw_Ok in Hc as [Hlen%negb_false_iff Hc].
  apply bind_Ok in Hc as (Cs & HCs & _). exists Cs.
  destruct (imapM_Ok _ _ _ HCs) as [Hl Hi]. cbn in Hlen. apply Z.eqb_eq in Hlen.
  split; [|lia]. cbn. apply Forall2_same_length_lookup. split; [done|].
  intros i c C Hc HC. destruct (Hi i c Hc) as (C' & HC' & HP%g2CommitmentPoint_Ok).
  by simplify_eq.
Qed.

Lemma validateDealPacket_Ok packet roster dealers expected body dealer t :
  validateDealPacket packet roster dealers expected = Ok (body, dealer) →
  prop_opt expected "threshold" = VNum t →
  body = prop_opt packet "body" ∧ dealer ∈ dealers ∧
  prop_opt dealer "id" = prop_opt body "dealerId" ∧ verifyPacket packet dealer = Ok true ∧
  ∃ Cs, decodes (commitmentsOf body) Cs ∧ Z.of_nat (length Cs) = t.
Proof.
  unfold validateDealPacket. intros Hv Ht.
  apply bind_Ok in Hv as (? & _ & Hv). apply bind_Ok in Hv as (? & _ & Hv).
  apply bind_Ok in Hv as (? & _ & Hv).
  apply bind_Ok in Hv as (ok & Hok & Hv). apply bind_Ok in Hv as (? & ->%require_Ok & Hv).
  apply bind_Ok in Hv as (? & Hcs & Hv). apply bind_Ok in Hv as (? & _ & [= <- <-]).
  rewrite Ht in Hcs. apply check_commitments_Ok in Hcs.
  unfold signed_by in Hok.
  destruct (find_by "id" _ dealers) as [d|] eqn:Hd; [|done]. case_match; [done|].
  apply find_by_Some in Hd as (Hin & Hid & _). cbn. done.
Qed.

Lemma assoc_app {A} k (l1 l2 : list (string * A)) :
  assoc k (l1 ++ l2) = match assoc k l1 with Some x => Some x | None => assoc k l2 end.
Proof. induction l1 as [|[k' x] l1 IH]; cbn; [done|]. by case_decide. Qed.

Lemma assoc_keys {A} k (l : list (string * A)) x : assoc k l = Some x → k ∈ keys l.
Proof.
  unfold keys. induction l as [|[k' y] l IH]; cbn; [done|]. case_decide; set_solver.
Qed.

Lemma acceptDeal_ok o participants dealers expected responses packets acc packet acc' t :
  prop_opt expected "threshold" = VNum t →
  accepted_ok t participants acc →
  acceptDeal o participants dealers expected responses packets acc packet = Ok acc' →
  accepted_ok t participants acc'.
Proof.
  intros Ht Hacc. unfold acceptDeal. intros Ha.
  apply bind_Ok in Ha as ([body dealer] & Hv & Ha).
  eapply validateDealPacket_Ok in Hv as (-> & _ & Hid & _ & HCs); [|done].
  set (body := prop_opt packet "body") in *.
  apply bind_Ok in Ha as (? & Hnew%require_Ok%negb_true_iff & Ha).
  apply bind_Ok in Ha as (res & Hres & Ha). apply bind_Ok in Ha as (? & _ & [= <-]).
  assert (∀ b k, b ∈ a_deals acc → prop_opt b "dealerId" = VStr k →
    prop_opt dealer "id" = VStr k → False) as Hfresh.
  { intros b k Hb Hk Hd. rewrite <-not_true_iff_false in Hnew. apply Hnew, existsb_exists.
    exists b. split; [by apply list_elem_of_In|]. rewrite Hk, Hd. cbn. by apply bool_decide_eq_true. }
  split; cbn [a_deals a_resolutions].
  - intros b [Hb| ->%list_elem_of_singleton]%elem_of_app; [|done]. by apply Hacc.
  - intros k Hk. unfold keys in Hk. rewrite fmap_app in Hk. apply elem_of_app in Hk as [Hk|Hk].
    + destruct (ok_keys _ _ _ Hacc k Hk) as (b & Hb & ?). exists b. set_solver.
    + destruct res as [r|]; [|set_solver].
      destruct (prop_opt dealer "id") as [| | | | | |k'| |] eqn:Ed; try (exfalso; cbn in Hk; by apply not_elem_of_nil in Hk).
      apply list_elem_of_singleton in Hk as ->. exists body. split; [set_solver|].
      by rewrite <-Hid.
  - intros b r Hb Hr. unfold lookup_id in Hr.
    apply bind_Some in Hr as (k & Hk & Hr). rewrite assoc_app in Hr.
    destruct (prop_opt b "dealerId") as [| | | | | |k'| |] eqn:Ebd; try done.
    injection Hk as ->. apply elem_of_app in Hb as [Hb| ->%list_elem_of_singleton].
    + destruct (assoc k (a_resolutions acc)) as [r'|] eqn:Er.
      * injection Hr as <-. apply (ok_reveals _ _ _ Hacc b r'); [done|].
        unfold lookup_id. by rewrite Ebd.
      * exfalso. destruct res as [r'|]; [|done].
        destruct (prop_opt dealer "id") as [| | | | | |k'| |] eqn:Ed; try done.
        cbn in Hr. case_decide as Hkk; [|done]. subst k'. by eapply Hfresh.
    + destruct (assoc k (a_resolutions acc)) as [r'|] eqn:Er.
      * exfalso. apply assoc_keys in Er. destruct (ok_keys _ _ _ Hacc k Er) as (b & Hb & Hbk).
        eapply Hfresh; [done..|]. by rewrite Hid.
      * destruct res as [r'|]; [|done].
        destruct (prop_opt dealer "id") as [| | | | | |k'| |] eqn:Ed; try done.
        cbn in Hr. case_decide; [|done]. injection Hr as <-.
        destruct (lookup_id _ packets) as [rp|]; [|done].
        apply bind_Ok in Hres as (r'' & Hvr & [= <-]). by eapply validateResolution_reveals.
Qed.

(** ** Sums of polynomials *)

(** The sums of commitments of [t] terms each, position by position. *)
Fixpoint column_sums (t : nat) (L : list (list G2)) : list G2 :=
  match L with
  | [] => replicate t c_zero
  | Cs :: L => zip_with c_add Cs (column_sums t L)
  end.
Definition sum_evals (L : list (list G2)) (x : Z) : G2 :=
  foldr (λ Cs acc, c_add (point_eval Cs x) acc) c_zero L.

Lemma point_eval_zeros t x : point_eval (replicate t (c_zero : G2)) x = c_zero.
Proof.
  induction t as [|t IH]; cbn; [done|]. by rewrite IH, smul_zero_point, c_add_zero.
Qed.

Lemma point_eval_add (A B : list G2) x :
  length A = length B →
  point_eval (zip_with c_add A B) x = c_add (point_eval A x) (point_eval B x).
Proof.
  revert B. induction A as [|P A IH]; intros [|Q B] Hl; cbn in *; try done.
  - by rewrite c_add_zero.
  - rewrite IH, smul_add_point by congruence.
    rewrite !c_add_assoc. f_equal. rewrite <-!c_add_assoc. f_equal. apply c_add_comm.
Qed.

Lemma length_column_sums t L :
  Forall (λ Cs, length Cs = t) L → length (column_sums t L) = t.
Proof.
  induction 1 as [|Cs L HCs _ IH]; cbn; [apply length_replicate|].
  rewrite length_zip_with. lia.
Qed.

Lemma point_eval_column_sums t L x :
  Forall (λ Cs, length Cs = t) L → point_eval (column_sums t L) x = sum_evals L x.
Proof.
  induction 1 as [|Cs L HCs HL IH]; cbn; [apply point_eval_zeros|].
  rewrite point_eval_add, IH; [done|]. by rewrite length_column_sums.
Qed.

Lemma sumCommitments_Ok bodies L t pos :
  Forall2 (λ b Cs, decodes (commitmentsOf b) Cs) bodies L →
  Forall (λ Cs, length Cs = t) L → (pos < t)%nat →
  ∃ P, column_sums t L !! pos = Some P ∧ sumCommitments bodies pos = Ok P.
Proof.
  intros HL Ht Hpos.
  enough (∀ A, ∃ P, column_sums t L !! pos = Some P ∧
    foldM (λ sum body,
      C ← g2CommitmentPoint (JsVal (default VUndef (commitmentsOf body !! pos)))
            ("commitment " +:+ print_int (Z.of_nat pos));
      Ok (c_add sum C)) A bodies = Ok (c_add A P)) as Hgo.
  { destruct (Hgo c_zero) as (P & HP & E). exists P. split; [done|].
    unfold sumCommitments. by rewrite E, c_add_zero. }
  induction HL as [|b Cs bodies L Hb HL IH]; intros A; cbn [column_sums foldM].
  - exists c_zero. rewrite lookup_replicate. by rewrite c_add_zero_r.
  - apply Forall_cons in Ht as [HCs Ht].
    destruct (lookup_lt_is_Some_2 Cs pos) as [C HC]; [lia|].
    destruct (Forall2_lookup_r _ _ _ _ _ Hb HC) as (c & Hc & Hdec).
    rewrite Hc. cbn [default from_option id].
    rewrite (proj2 (g2CommitmentPoint_Ok _ _ C)) by done. cbn [mbind result_bind].
    destruct (IH Ht (c_add A C)) as (P & HP & ->).
    exists (c_add C P). rewrite lookup_zip_with, HC, HP. cbn. by rewrite c_add_assoc.
Qed.

Lemma aggregateCommitments_Ok bodies L t :
  Forall2 (λ b Cs, decodes (commitmentsOf b) Cs) bodies L →
  Forall (λ Cs, length Cs = t) L →
  aggregateCommitments bodies t = Ok (wireHex <$> column_sums t L).
Proof.
  intros HL Ht. unfold aggregateCommitments. apply mapM_Ok.
  pose proof (length_column_sums t L Ht) as Hlen.
  apply Forall2_same_length_lookup. split.
  - by rewrite length_seq, length_fmap.
  - intros i pos s Hpos Hs. apply lookup_seq in Hpos as [-> Hpos].
    destruct (sumCommitments_Ok bodies L t i HL Ht Hpos) as (P & HP & E).
    cbn. rewrite E. cbn. rewrite list_lookup_fmap, HP in Hs. cbn in Hs. by simplify_eq.
Qed.

(** ** The contributions of a participant *)

Lemma contribution_on_polynomial t participants participant key acc body x c :
  accepted_ok t participants acc → body ∈ a_deals acc →
  find_by "id" (prop_opt participant "id") participants = Some participant →
  prop_opt participant "index" = VNum x → 0 < x < order →
  contribution participant key (a_resolutions acc) body = Ok c →
  on_polynomial body x c.
Proof.
  intros Hacc Hb Hp Hi Hx. unfold contribution. intros [Hc|(e & _ & Hc)]%catch_Ok.
  - apply bind_Ok in Hc as (s & _ & Hc). apply bind_Ok in Hc as (ok & Hok & Hc).
    apply bind_Ok in Hc as (? & ->%require_Ok & [= <-]).
    rewrite Hi in Hok. by apply (shareMatches_on_polynomial (VBig s) _ (VNum x)).
  - apply bind_Ok in Hc as (item & Hitem%from_option_or_Ok & Hc).
    apply bind_Some in Hitem as (r & Hr & Hitem).
    apply find_by_Some in Hitem as (Hin & Hid & _).
    destruct (ok_reveals _ _ _ Hacc body r Hb Hr item Hin) as (p & Hpf & Hm).
    rewrite Hid, Hp in Hpf. injection Hpf as <-.
    specialize (Hm x Hi Hx).
    destruct (scalar_Ok _ _ c _ _ Hc eq_refl) as [Hs _].
    by eapply (shareMatches_on_polynomial (prop_opt item "share") body (VNum x)).
Qed.

Lemma contributions_sum t participants participant key acc bodies x s0 s :
  accepted_ok t participants acc → Forall (λ b, b ∈ a_deals acc) bodies →
  find_by "id" (prop_opt participant "id") participants = Some participant →
  prop_opt participant "index" = VNum x → 0 < x < order → 0 <= s0 < order →
  foldM (addContribution participant key (a_resolutions acc)) s0 bodies = Ok s →
  ∃ L, Forall2 (λ b Cs, decodes (commitmentsOf b) Cs) bodies L ∧
    Forall (λ Cs, Z.of_nat (length Cs) = t) L ∧ 0 <= s < order ∧
    smul s base2 = c_add (smul s0 base2) (sum_evals L x).
Proof.
  intros Hacc Hbs Hp Hi Hx. pose proof order_pos. revert s0.
  induction Hbs as [|b bodies Hb Hbs IH]; intros s0 Hs0 Hf; cbn [foldM] in Hf.
  - injection Hf as <-. exists []. split_and!; try constructor; try lia.
    cbn. by rewrite c_add_zero_r.
  - apply bind_Ok in Hf as (s1 & Hs1 & Hf). unfold addContribution in Hs1.
    apply bind_Ok in Hs1 as (c & Hc & [= <-]).
    eapply contribution_on_polynomial in Hc as (Hc0 & Cs & HCs & E); [|done..].
    unfold BLS_SCALAR_ORDER in Hf. rewrite Z.rem_mod_nonneg in Hf by lia.
    apply IH in Hf as (L & HL & Hlen & Hs & EL); [|apply Z.mod_pos_bound; lia].
    destruct (ok_commitments _ _ _ Hacc b Hb) as (Cs' & HCs' & Ht).
    rewrite (decodes_unique _ _ _ HCs' HCs) in Ht.
    exists (Cs :: L). split_and!; try by constructor. 1-2: lia.
    rewrite EL, smul_mod, smul_add, E by lia. cbn. by rewrite c_add_assoc.
Qed.

Lemma validateParticipants_index l ps p :
  validateParticipants l = Ok ps → p ∈ ps →
  ∃ i, prop_opt p "index" = VNum (Z.of_nat i + 1) ∧ (i < length ps)%nat.
Proof.
  intros Hps [i Hi]%list_elem_of_lookup. exists i.
  destruct (imapM_Ok_inv _ _ _ _ _ Hps Hi) as (x & _ & Hv). split.
  - unfold validateParticipant in Hv. apply bind_Ok in Hv as (? & _ & Hv).
    apply bind_Ok in Hv as (? & Hidx%require_Ok%strict_eq_VNum & Hv).
    do 3 (apply bind_Ok in Hv as (? & _ & Hv)). by injection Hv as <-.
  - by eapply lookup_lt_Some.
Qed.

(** The roster of a round: a strict majority threshold and contiguous indexes. *)
Lemma validateRoster_Ok roster threshold ps :
  validateRoster roster threshold = Ok ps →
  ∃ t, threshold = VNum t ∧ 2 <= t <= Z.of_nat (length ps) ∧
    Z.of_nat (length ps) < 2 * t ∧ 3 <= Z.of_nat (length ps) <= 31 ∧
    ∀ p, p ∈ ps → ∃ x, prop_opt p "index" = VNum x ∧ 0 < x <= Z.of_nat (length ps).
Proof.
  unfold validateRoster. destruct roster as [| | | | | | |l|]; try done.
  intros Hr. apply if_throw_Ok in Hr as [Hn Hr].
  destruct threshold as [| | |t| | | | |]; try done.
  apply if_throw_Ok in Hr as [Ht Hr]. apply bind_Ok in Hr as (ps' & Hps & Hr).
  apply bind_Ok in Hr as (? & _ & [= ->]). destruct (imapM_Ok _ _ _ Hps) as [Hl _].
  reflect_bool_hyps. exists t. rewrite Hl. split_and!; try done; try lia.
  intros p Hp. destruct (validateParticipants_index l ps p Hps Hp) as (i & Hi & Hlt).
  exists (Z.of_nat i + 1). split; [done|]. lia.
Qed.

Lemma expectedOf_threshold o expected :
  expectedOf o = Ok expected → prop_opt expected "threshold" = o_threshold o.
Proof.
  unfold expectedOf. intros He. apply bind_Ok in He as (? & _ & He).
  by apply bind_Ok in He as (? & _ & [= <-]).
Qed.

(** The public part of a finalization: it does not depend on the participant. *)
Definition finalized (o : ceremony_options) (deals responses resolutions : list value)
    (participants : list value) (acc : accepted) (qualified : list value) : Prop :=
  validateRoster (o_roster o) (o_threshold o) = Ok participants ∧
  ∃ l dealers expected valid packets,
    items (o_dealerRoster o) = Ok l ∧
    validateParticipants l = Ok dealers ∧ expectedOf o = Ok expected ∧
    collectResponses participants expected responses = Ok valid ∧
    foldM collectResolution [] resolutions = Ok packets ∧
    foldM (acceptDeal o participants dealers expected valid packets)
      {| a_deals := []; a_resolutions := [] |} deals = Ok acc ∧
    qualified = filter
      (λ b, is_qualified (o_threshold o) valid (a_resolutions acc) b = true) (a_deals acc).

Lemma finalized_unique o deals responses resolutions ps1 acc1 q1 ps2 acc2 q2 :
  finalized o deals responses resolutions ps1 acc1 q1 →
  finalized o deals responses resolutions ps2 acc2 q2 → ps1 = ps2 ∧ acc1 = acc2 ∧ q1 = q2.
Proof.
  intros (Hp & l & d & e & v & pk & Hl & Hd & He & Hv & Hpk & Ha & Hq).
  intros (Hp' & l' & d' & e' & v' & pk' & Hl' & Hd' & He' & Hv' & Hpk' & Ha' & Hq').
  assert (ps2 = ps1) as -> by congruence. assert (l' = l) as -> by congruence.
  assert (d' = d) as -> by congruence. assert (e' = e) as -> by congruence.
  assert (v' = v) as -> by congruence. assert (pk' = pk) as -> by congruence.
  assert (acc2 = acc1) as -> by congruence. by subst.
Qed.

Lemma finalized_accepted_ok o deals responses resolutions participants acc qualified t :
  o_threshold o = VNum t → finalized o deals responses resolutions participants acc qualified →
  accepted_ok t participants acc ∧ Forall (λ b, b ∈ a_deals acc) qualified.
Proof.
  intros Ht (_ & l & d & e & v & pk & _ & _ & He & _ & _ & Ha & ->). split.
  - apply (foldM_ind _ (λ _, accepted_ok t participants)) in Ha; [done| |].
    + split; cbn; set_solver.
    + intros ? packet acc1 acc2 Hacc. apply acceptDeal_ok; [|done].
      by rewrite (expectedOf_threshold _ _ He).
  - apply Forall_forall. intros b Hb%list_elem_of_filter. apply Hb.
Qed.

(** What a finalization that returns has computed. *)
Lemma finalizeCeremony_inv o ks pw wf deals responses resolutions s fin ks' tr s' :
  finalizeCeremony o ks pw wf deals responses resolutions s = (Ok (fin, ks', tr), s') →
  ∃ loaded participants participant acc qualified share cs P payload,
    loadKeystore ks pw = Ok loaded ∧
    finalized o deals responses resolutions participants acc qualified ∧
    find_by "id" (prop_opt ks "participantId") participants = Some participant ∧
    foldM (addContribution participant (transportPrivateKey loaded) (a_resolutions acc))
      0 qualified = Ok share ∧ share ≠ 0 ∧
    aggregateCommitments qualified (threshold_nat (o_threshold o)) = Ok cs ∧
    c_multiply share base2 = Ok P ∧
    prop_opt fin "participantIndex" = prop_opt participant "index" ∧
    prop_opt fin "participantId" = prop_opt participant "id" ∧
    prop_opt fin "publicCoefficients" = VArr (VStr <$> cs) ∧
    prop_opt fin "groupPublicKey" = VStr (default "" (head cs)) ∧
    prop_opt fin "sharePublicKey" = VStr (wireHex P) ∧
    scalarHex (VBig share) = Ok payload.2 ∧
    prop_opt payload.1 "thresholdShare" = VStr payload.2 ∧
    (∃ crypto, encryptPayload payload.1 pw wf s = (Ok crypto, s') ∧
       ks' = VObj (assoc_set "crypto" crypto (match ks with VObj fs => fs | _ => [] end))) ∧
    (is_reshare o = true → to_lower (prop_opt (o_previousManifest o) "groupPublicKey")
                           = Ok (lower (default "" (head cs)))) ∧
    finalizeQualified o qualified = Ok tt.
Proof.
  unfold finalizeCeremony, sealFinalization. intros Hf.
  apply eff_lift_bind_Ok in Hf as (participants & Hroster & Hf).
  apply eff_lift_bind_Ok in Hf as (l & Hl & Hf).
  apply eff_lift_bind_Ok in Hf as (dealers & Hdealers & Hf).
  apply eff_lift_bind_Ok in Hf as (loaded & Hloaded & Hf).
  apply eff_lift_bind_Ok in Hf as (participant & Hp%from_option_or_Ok & Hf).
  apply eff_lift_bind_Ok in Hf as (expected & Hexp & Hf).
  apply eff_lift_bind_Ok in Hf as (valid & Hvalid & Hf).
  apply eff_lift_bind_Ok in Hf as (packets & Hpackets & Hf).
  apply eff_lift_bind_Ok in Hf as (acc & Hacc & Hf).
  apply eff_require_bind_Ok in Hf as [_ Hf].
  apply eff_lift_bind_Ok in Hf as ([] & _ & Hf).
  apply eff_lift_bind_Ok in Hf as ([] & Hqual & Hf).
  apply eff_lift_bind_Ok in Hf as (share & Hshare & Hf).
  apply eff_require_bind_Ok in Hf as [Hnz%negb_true_iff%Z.eqb_neq Hf].
  apply eff_lift_bind_Ok in Hf as (cs & Hcs & Hf).
  apply eff_lift_bind_Ok in Hf as ([] & Hkey & Hf).
  do 3 apply eff_lift_bind_Ok in Hf as (? & _ & Hf).
  apply eff_lift_bind_Ok in Hf as (th & _ & Hf).
  apply eff_lift_bind_Ok in Hf as (hex & Hhex & Hf).
  apply eff_lift_bind_Ok in Hf as (P & HP & Hf).
  apply eff_bind_Ok in Hf as (crypto & s1 & Hcrypto & Hf).
  injection Hf as <- <- _ <-.
  lazymatch type of Hcrypto with encryptPayload ?payload _ _ _ = _ =>
    eexists loaded, participants, participant, acc, _, share, cs, P, (payload, hex) end.
  split_and!; try done.
  - split; [done|]. by exists l, dealers, expected, valid, packets.
  - cbn [fst snd]. unfold prop_opt.
    by rewrite !assoc_assoc_set_ne, assoc_assoc_set by done.
  - eauto.
  - intros Hr. rewrite Hr in Hkey. apply bind_Ok in Hkey as (k & -> & Hkey%require_Ok).
    apply bool_decide_eq_true in Hkey. by rewrite Hkey.
Qed.
End finalization.
