(* ===== verification/DkgSample.v ===== *)
(** * A key generation ceremony at concrete inputs

    Three participants and a threshold of two, over the sample instances: the
    dealer of index 2 gives participant 3 a damaged share, which it complains
    about and the dealer then reveals. *)

From S2P Require Import Prelude Js Hex CanonicalJson Json Vendor ScalarField ThresholdCrypto ThresholdGroup DkgShares DkgCeremony Samples.

Open Scope Z_scope.

#[export] Existing Instance sample_ethers.
#[export] Existing Instance sample_bls.
#[export] Existing Instance sample_crypto.
#[export] Existing Instance sample_seal.
#[export] Existing Instance sample_storage.
#[export] Existing Instance sample_locale.
#[export] Existing Instance sample_url.

Definition run_or {A} (d : A) (r : result A * entropy) : A :=
  match r with (Ok a, _) => a | (Throw _, _) => d end.

Definition dkg_identity (i : Z) : bytes := replicate 31 "000"%char ++ [char_of i].
Definition dkg_transport (i : Z) : Z := 2 * i + 1.
Definition dkg_id (i : Z) : value := VStr ("node-" +:+ print_int i).
Definition dkg_participant (i : Z) : value :=
  VObj [("id", dkg_id i); ("index", VNum i);
        ("identityPublicKey", VStr (hexlify (dkg_identity i)));
        ("transportPublicKey", VStr (hexlify (x_public (dkg_transport i))));
        ("endpoint", VStr ("https://node" +:+ print_int i))].
Definition dkg_roster : value := VArr (dkg_participant <$> [1; 2; 3]).

(** An entropy supply: the draws of 16, 12 and 64 bytes in the order given. *)
Definition draw (n seed : Z) : bytes := char_of <$> ((λ i, (seed * (i + 3)) mod 251) <$> seqZ 0 n).
Definition supply (seed : Z) (sizes : list Z) : entropy := {|
  random_bytes := imap (λ i n, draw n (seed + Z.of_nat i)) sizes;
  identity_keys := [dkg_identity seed];
  key_pairs := (λ i, 2 * (seed + i) + 1) <$> seqZ 0 5
|}.

Definition dkg_password : string := "password".
Definition dkg_keystore (i : Z) : value :=
  VObj [("format", VStr DKG_KEYSTORE_FORMAT); ("participantId", dkg_id i);
        ("identityPublicKey", VStr (hexlify (dkg_identity i)));
        ("transportPublicKey", VStr (hexlify (x_public (dkg_transport i))));
        ("crypto", run_or VNull (encryptPayload
           (VObj [("identityPrivateKey", VStr (hexlify (dkg_identity i)));
                  ("transportPrivateKey", VStr (print_int (dkg_transport i)))])
           dkg_password 1024 (supply i [16; 12])))].

Definition dkg_options : ceremony_options := {|
  o_ceremony := "dkg"; o_sessionId := VStr (hexlify (draw 32 5)); o_epoch := VNum 1;
  o_threshold := VNum 2; o_roster := dkg_roster; o_dealerRoster := dkg_roster;
  o_previousManifest := VUndef; o_previousManifestHash := VUndef; o_selectedDealerIds := []
|}.

Definition dkg_deal (i : Z) : value * value :=
  run_or (VNull, VNull) (createDealBundle dkg_options (dkg_keystore i) dkg_password 1024
    (supply (10 * i) [64; 64; 12; 12; 12; 16; 12])).

(** The documents below are evaluated once. *)
Definition first_deal : value * value := Eval vm_compute in dkg_deal 1.

(** The second dealer damages the share of participant 3 in the deal it signs, and
    records the damaged deal in its state. *)
Definition damage (share : value) : value :=
  if strict_eq (prop_opt share "recipientId") (dkg_id 3)
  then VObj [("recipientId", dkg_id 3); ("envelope", VNull)] else share.
Definition damaged_body : value :=
  match prop_opt (dkg_deal 2).1 "body" with
  | VObj fs => VObj (assoc_set "encryptedShares"
      (VArr (damage <$> array_items (default VNull (assoc "encryptedShares" fs)))) fs)
  | v => v
  end.
Definition damaged_deal : value := Eval vm_compute in
  result_or VNull (signedPacket damaged_body (dkg_identity 2)).
Definition damaged_state : value := Eval vm_compute in
  let secret := result_or VNull
    (decryptPayload (prop_opt (dkg_deal 2).2 "crypto") dkg_password) in
  VObj [("format", VStr DKG_PACKET_FORMAT); ("type", VStr "dealer-state");
        ("sessionId", prop_opt (dkg_deal 2).2 "sessionId"); ("dealerId", dkg_id 2);
        ("crypto", run_or VNull (encryptPayload
           (VObj [("coefficients", prop_opt secret "coefficients");
                  ("dealHash", VStr (result_or "" (packetHash damaged_body)))])
           dkg_password 1024 (supply 77 [16; 12])))].

Definition dkg_deals : list value := Eval vm_compute in [(dkg_deal 1).1; damaged_deal; (dkg_deal 3).1].
Definition dkg_response (i : Z) : value :=
  result_or VNull (createResponseBundle dkg_options (dkg_keystore i) dkg_password dkg_deals).
Definition dkg_responses : list value := Eval vm_compute in dkg_response <$> [1; 2; 3].
Definition dkg_resolution : value := Eval vm_compute in
  result_or VNull (createResolutionBundle dkg_roster dkg_roster (dkg_keystore 2) damaged_state
    dkg_password damaged_deal dkg_responses).
Definition dkg_run (i : Z) : result (value * value * value) * entropy :=
  finalizeCeremony dkg_options (dkg_keystore i) dkg_password 1024
    dkg_deals dkg_responses [dkg_resolution] (supply (7 * i) [16; 12]).
Definition dkg_finalization (i : Z) : value := (run_or (VNull, VNull, VNull) (dkg_run i)).1.1.
