(* ===== verification/DkgAgreement.v ===== *)
(** * What a key generation ceremony agrees on ([threshold-dkg.mjs])

    The theorems on the finalization of a ceremony: the share a participant
    seals in its keystore is the value at its index of the public polynomial it
    publishes, every participant that finalizes the same packets publishes the
    same polynomial, and the shares of any threshold of them reconstruct the
    secret behind the group public key; and on the shares a dealer reveals. *)

From S2P Require Import Prelude Js Hex CanonicalJson Json Vendor ScalarField ThresholdCrypto ThresholdGroup DkgShares DkgCeremony Samples DkgSample.

Open Scope Z_scope.

(** ** Interpolation of points *)
Section points.
Context `{Ethers, !EthersLaws, NobleBls, !BlsLaws}.

Fixpoint gsum (f : Z → G2) (l : list Z) : G2 :=
  match l with [] => c_zero | x :: l => c_add (f x) (gsum f l) end.

Lemma gsum_ext f g l : (∀ x, x ∈ l → f x = g x) → gsum f l = gsum g l.
Proof.
  intros Hfg. induction l as [|x l IH]; cbn; [done|].
  rewrite Hfg, IH by set_solver. done.
Qed.
Lemma gsum_add f g l : gsum (λ x, c_add (f x) (g x)) l = c_add (gsum f l) (gsum g l).
Proof.
  induction l as [|x l IH]; cbn; [by rewrite c_add_zero|]. rewrite IH.
  rewrite !c_add_assoc. f_equal. rewrite <-!c_add_assoc. f_equal. apply c_add_comm.
Qed.
Lemma gsum_smul f (P : G2) l : gsum (λ x, smul (f x) P) l = smul (zsum f l) P.
Proof.
  pose proof order_pos. induction l as [|x l IH]; cbn; [by rewrite smul_0 by lia|].
  by rewrite IH, smul_add by lia.
Qed.

Lemma zpeval_monomial m x : zpeval (replicate m 0 ++ [1]) x = x ^ Z.of_nat m.
Proof.
  induction m as [|m IH]; [cbn; lia|].
  rewrite Nat2Z.inj_succ, Z.pow_succ_r, <-IH by lia. cbn. lia.
Qed.

Lemma coefficient_moments xs m :
  NoDup xs → Forall (λ x, 0 < x < order) xs → (m < length xs)%nat →
  zsum (λ x, coefficient xs x * x ^ Z.of_nat m) xs mod order
  = (if decide (m = O) then 1 else 0) mod order.
Proof.
  intros Hnd Hxs Hm.
  pose proof (weights_recover order order_prime xs (replicate m 0 ++ [1]) (coefficient xs)) as Hw.
  rewrite zpeval_monomial in Hw. etrans; [|etrans; [apply Hw|]].
  - f_equal. clear. generalize (coefficient xs) as w. intros w.
    induction xs as [|x xs IH]; cbn; [done|]. by rewrite IH, zpeval_monomial.
  - done.
  - eapply Forall_impl; [done|]. cbn. lia.
  - intros ->. cbn in Hm. lia.
  - rewrite length_app, length_replicate. cbn. lia.
  - intros x Hx. by apply coefficient_Ok.
  - case_decide; [by subst|]. by rewrite Z.pow_0_l by lia.
Qed.

Lemma point_moments xs Cs m :
  NoDup xs → Forall (λ x, 0 < x < order) xs → (m + length Cs ≤ length xs)%nat →
  gsum (λ x, smul (coefficient xs x * x ^ Z.of_nat m) (point_eval Cs x)) xs
  = if decide (m = O) then default c_zero (head Cs) else c_zero.
Proof.
  intros Hnd Hxs. pose proof order_pos. revert m. induction Cs as [|C Cs IH]; intros m Hm; cbn in Hm.
  - cbn [point_eval head default from_option].
    rewrite (gsum_ext _ (λ _, smul 0 c_zero)) by (intros; by rewrite !smul_zero_point).
    rewrite gsum_smul, smul_zero_point. by case_decide.
  - rewrite (gsum_ext _ (λ x, c_add (smul (coefficient xs x * x ^ Z.of_nat m) C)
      (smul (coefficient xs x * x ^ Z.of_nat (S m)) (point_eval Cs x)))).
    2: { intros x _. cbn [point_eval]. rewrite smul_add_point, <-!smul_mul by lia.
         do 2 f_equal. rewrite Nat2Z.inj_succ, Z.pow_succ_r by lia. ring. }
    rewrite gsum_add, IH, gsum_smul by lia. rewrite decide_False, c_add_zero_r by lia.
    rewrite (smul_congr _ _ _ (coefficient_moments xs m Hnd Hxs ltac:(lia))).
    case_decide; [by rewrite smul_1 by apply order_gt_1|by rewrite smul_0 by lia].
Qed.

(** Scalars over the points of a polynomial reconstruct a logarithm of its head. *)
Lemma point_recover xs ss Cs :
  NoDup xs → Forall (λ x, 0 < x < order) xs → (length Cs ≤ length xs)%nat →
  Forall2 (λ x s, smul s base2 = point_eval Cs x) xs ss →
  smul (foldr Z.add 0 (zip_with Z.mul (coefficient xs <$> xs) ss)) base2
  = default c_zero (head Cs).
Proof.
  intros Hnd Hxs Hlen Hss. pose proof order_pos.
  change (default c_zero (head Cs)) with (if decide (0 = 0)%nat then default c_zero (head Cs) else c_zero).
  rewrite <-(point_moments xs Cs 0 Hnd Hxs) by done. clear Hnd Hxs Hlen.
  generalize (coefficient xs) as w. intros w.
  induction Hss as [|x s xs ss Hx _ IH]; cbn; [by rewrite smul_0 by lia|].
  rewrite smul_add, IH, smul_mul, Hx, Z.mul_1_r by lia. done.
Qed.
End points.

(** ** Finalization *)
Section agreement.
Context `{Ethers, !EthersLaws, NobleBls, !BlsLaws, !NodeCrypto, UrlApi, !SealCrypto,
  !KeyStorage, LocaleApi}.
Context (order_large : 31 < order).

(** The public polynomial of a ceremony, and the share of a participant on it. *)
Lemma finalizeCeremony_point o ks pw wf deals responses resolutions s fin ks' tr s' :
  finalizeCeremony o ks pw wf deals responses resolutions s = (Ok (fin, ks', tr), s') →
  ∃ participants acc qualified t Cs x share payload,
    finalized o deals responses resolutions participants acc qualified ∧
    o_threshold o = VNum t ∧ 2 <= t ∧
    aggregateCommitments qualified (Z.to_nat t) = Ok (wireHex <$> Cs) ∧
    Z.of_nat (length Cs) = t ∧
    prop_opt fin "participantIndex" = VNum x ∧ 0 < x <= 31 ∧
    prop_opt fin "publicCoefficients" = VArr (VStr <$> (wireHex <$> Cs)) ∧
    prop_opt fin "groupPublicKey" = VStr (wireHex (default c_zero (head Cs))) ∧
    prop_opt fin "sharePublicKey" = VStr (wireHex (smul share base2)) ∧
    0 < share < order ∧ smul share base2 = point_eval Cs x ∧
    prop_opt payload "thresholdShare" = VStr (hex64 share) ∧
    ∃ crypto, encryptPayload payload pw wf s = (Ok crypto, s') ∧
      ks' = VObj (assoc_set "crypto" crypto (match ks with VObj fs => fs | _ => [] end)).
Proof.
  intros (loaded & ps & p & acc & q & share & cs & P & [payload hex] & _ & Hfin & Hp & Hshare
    & Hnz & Hcs & HP & Hidx & _ & Hpub & Hgpk & Hspk & Hhex & Hpay & Hcrypto & _)%finalizeCeremony_inv.
  cbn [fst snd] in *.
  destruct (validateRoster_Ok _ _ _ (proj1 Hfin)) as (t & Ht & Ht2 & _ & Hn & Hps).
  destruct (find_by_Some _ _ _ _ Hp) as (Hin & Hid & _).
  destruct (Hps p Hin) as (x & Hx & Hxb).
  destruct (finalized_accepted_ok _ _ _ _ _ _ _ t Ht Hfin) as [Hacc Hq].
  pose proof order_pos.
  destruct (contributions_sum t ps p (transportPrivateKey loaded) acc q x 0 share)
    as (L & HL & Hlen & Hs & E); try done; try lia.
  { by rewrite Hid. }
  rewrite smul_0, c_add_zero in E by lia.
  assert (Forall (λ Cs, length Cs = Z.to_nat t) L) as Hlen'.
  { eapply Forall_impl; [done|]. cbn. lia. }
  pose proof (aggregateCommitments_Ok q L (Z.to_nat t) HL Hlen') as Hagg.
  rewrite Ht in Hcs. cbn [threshold_nat] in Hcs. rewrite Hcs in Hagg. injection Hagg as ->.
  exists ps, acc, q, t, (column_sums (Z.to_nat t) L), x, share, payload.
  apply c_multiply_Ok in HP as [HP ->].
  rewrite (scalarHex_big share Hs) in Hhex. injection Hhex as <-.
  split_and!; try done; try lia.
  - rewrite length_column_sums by done. lia.
  - by rewrite Hidx.
  - rewrite Hgpk. f_equal. destruct (column_sums _ _) eqn:Ec; [|done].
    apply (f_equal length) in Ec. rewrite length_column_sums in Ec by done. cbn in Ec. lia.
  - by rewrite point_eval_column_sums.
Qed.

(** A finalization that returns has sealed in the keystore a share whose public
    key it publishes, and that key passes the check of the manifest against the
    public coefficients it publishes; the first of them is the group key. *)
Theorem finalized_share_checks o ks pw wf deals responses resolutions s fin ks' tr s' :
  finalizeCeremony o ks pw wf deals responses resolutions s = (Ok (fin, ks', tr), s') →
  ∃ t cs x share pk payload crypto,
    o_threshold o = VNum t ∧ Z.of_nat (length cs) = t ∧
    prop_opt fin "publicCoefficients" = VArr (VStr <$> cs) ∧
    prop_opt fin "groupPublicKey" = VStr (default "" (head cs)) ∧
    prop_opt fin "participantIndex" = VNum x ∧ 0 < x <= 31 ∧
    prop_opt fin "sharePublicKey" = VStr pk ∧
    publicKeyForShare (VBig share) = Ok pk ∧
    verifyPublicShareCommitment (VNum x) (JsVal (VStr pk)) (Some (JsVal ∘ VStr <$> cs)) = Ok true ∧
    prop_opt payload "thresholdShare" = VStr (hex64 share) ∧
    encryptPayload payload pw wf s = (Ok crypto, s') ∧
    ks' = VObj (assoc_set "crypto" crypto (match ks with VObj fs => fs | _ => [] end)).
Proof.
  intros (ps & acc & q & t & Cs & x & share & payload & _ & Ht & Ht2 & _ & Hlen & Hi & Hx & Hpub
    & Hg & Hpk & Hs & E & Hpay & crypto & Hcr & ->)%finalizeCeremony_point.
  pose proof order_pos.
  exists t, (wireHex <$> Cs), x, share, (wireHex (smul share base2)), payload, crypto.
  split_and!; try done; try lia.
  - by rewrite length_fmap.
  - rewrite Hg. destruct Cs; [cbn in Hlen; lia|done].
  - apply publicKeyForShare_Ok. exists share. rewrite Z.mod_small by lia. split_and!; [done|lia|done].
  - rewrite (verifyPublicShareCommitment_eval _ x _ (smul share base2) _ Cs); try done.
    + by rewrite E, bool_decide_true.
    + lia.
    + apply wireHex_bytes.
    + apply smul_neq_zero; [|apply base2_neq_zero]. rewrite Z.mod_small; lia.
    + rewrite !length_fmap. lia.
    + rewrite <-list_fmap_compose. apply Forall2_fmap_l, Forall_Forall2_diag, Forall_true.
      intros C. apply wireHex_bytes.
Qed.

(** A participant has finalized the packets of a ceremony with a share. *)
Definition finalizes (o : ceremony_options) (deals responses resolutions : list value)
    (fin : value) (x share : Z) : Prop :=
  ∃ ks pw wf s ks' tr s',
    finalizeCeremony o ks pw wf deals responses resolutions s = (Ok (fin, ks', tr), s') ∧
    prop_opt fin "participantIndex" = VNum x ∧ 0 < share < order ∧
    prop_opt fin "sharePublicKey" = VStr (wireHex (smul share base2)).

Lemma finalizes_point o deals responses resolutions fin x share ps acc q t Cs :
  finalized o deals responses resolutions ps acc q → o_threshold o = VNum t →
  aggregateCommitments q (Z.to_nat t) = Ok (wireHex <$> Cs) →
  finalizes o deals responses resolutions fin x share →
  prop_opt fin "publicCoefficients" = VArr (VStr <$> (wireHex <$> Cs)) ∧
  prop_opt fin "groupPublicKey" = VStr (wireHex (default c_zero (head Cs))) ∧
  0 < x <= 31 ∧ smul share base2 = point_eval Cs x.
Proof.
  intros Hfin Ht Hcs (ks & pw & wf & s & ks' & tr & s' & Hf & Hx & Hs & Hpk).
  destruct (finalizeCeremony_point _ _ _ _ _ _ _ _ _ _ _ _ Hf) as
    (ps' & acc' & q' & t' & Cs' & x' & share' & payload & Hfin' & Ht' & _ & Hcs' & _ & Hx' & Hxb & Hpub
    & Hg & Hpk' & _ & E & _).
  destruct (finalized_unique _ _ _ _ _ _ _ _ _ _ Hfin Hfin') as (-> & -> & ->).
  assert (t' = t) as -> by congruence. assert (x' = x) as -> by congruence.
  assert (wireHex <$> Cs' = wireHex <$> Cs) as Heq by congruence.
  assert (Inj (=) (=) (@wireHex _ G2 _)) as Hinj by (intros ? ?; apply wireHex_inj).
  apply (inj (fmap wireHex)) in Heq as ->. split_and!; try done; try lia.
  rewrite <-E. apply wireHex_inj. congruence.
Qed.

(** C6: all participants that finalize the same packets publish the same group key
    and coefficients, and the interpolation coefficients of any [threshold] of
    them weigh their shares to one secret of the group public key. *)
Theorem finalized_shares_reconstruct o deals responses resolutions t fins xs ss :
  o_threshold o = VNum t → NoDup xs → t <= Z.of_nat (length fins) →
  length xs = length fins → length ss = length fins →
  (∀ i fin x s, fins !! i = Some fin → xs !! i = Some x → ss !! i = Some s →
    finalizes o deals responses resolutions fin x s) →
  ∃ gpk cs ws,
    Forall (λ fin, prop_opt fin "groupPublicKey" = VStr gpk ∧
                   prop_opt fin "publicCoefficients" = cs) fins ∧
    mapM (λ x, lagrangeCoefficientAtZero (VBig x) (VBig <$> xs)) xs = Ok ws ∧
    gpk = wireHex (smul (foldr Z.add 0 (zip_with Z.mul ws ss)) base2).
Proof.
  intros Ht Hnd Htn Hxs Hss Hall. destruct fins as [|fin0 fins0] eqn:Hfins.
  { cbn in *. destruct xs, ss; try done. exists (wireHex (smul 0 base2)), VUndef, []. by repeat constructor. }
  rewrite <-Hfins in *. assert (0 < length fins)%nat as Hpos by (subst; cbn; lia).
  assert (is_Some (fins !! 0%nat)) as [fin Hfin] by (apply lookup_lt_is_Some; lia).
  assert (is_Some (xs !! 0%nat)) as [x Hx] by (apply lookup_lt_is_Some; lia).
  assert (is_Some (ss !! 0%nat)) as [s Hs] by (apply lookup_lt_is_Some; lia).
  destruct (Hall _ _ _ _ Hfin Hx Hs) as (ks & pw & wf & st & ks' & tr & st' & Hf & _).
  apply finalizeCeremony_point in Hf as
    (ps & acc & q & t' & Cs & _ & _ & _ & Hfd & Ht' & _ & Hcs & Hlen & _).
  assert (t' = t) as -> by congruence.
  assert (∀ i fin x s, fins !! i = Some fin → xs !! i = Some x → ss !! i = Some s →
    prop_opt fin "publicCoefficients" = VArr (VStr <$> (wireHex <$> Cs)) ∧
    prop_opt fin "groupPublicKey" = VStr (wireHex (default c_zero (head Cs))) ∧
    0 < x <= 31 ∧ smul s base2 = point_eval Cs x) as Hpt.
  { intros i f y u Hf Hy Hu. exact (finalizes_point _ _ _ _ _ _ _ _ _ _ _ _ Hfd Ht Hcs
      (Hall i f y u Hf Hy Hu)). }
  assert (Forall (λ x, 0 < x < order) xs) as Hxb.
  { apply Forall_lookup. intros i y Hy. pose proof (lookup_lt_Some _ _ _ Hy).
    destruct (lookup_lt_is_Some_2 fins i) as [f Hf]; [lia|].
    destruct (lookup_lt_is_Some_2 ss i) as [u Hu]; [lia|].
    destruct (Hpt i f y u Hf Hy Hu) as (_ & _ & ? & _). lia. }
  exists (wireHex (default c_zero (head Cs))), (VArr (VStr <$> (wireHex <$> Cs))),
    (coefficient xs <$> xs). split_and!.
  - apply Forall_lookup. intros i f Hf. pose proof (lookup_lt_Some _ _ _ Hf).
    destruct (lookup_lt_is_Some_2 xs i) as [y Hy]; [lia|].
    destruct (lookup_lt_is_Some_2 ss i) as [u Hu]; [lia|].
    by destruct (Hpt i f y u Hf Hy Hu) as (? & ? & _).
  - apply mapM_Ok, Forall2_fmap_r, Forall_Forall2_diag, Forall_forall.
    intros y Hy. by apply coefficient_Ok.
  - rewrite (point_recover xs ss Cs); [done|done|done|lia|].
    apply Forall2_same_length_lookup. split; [lia|]. intros i y u Hy Hu.
    pose proof (lookup_lt_Some _ _ _ Hy). destruct (lookup_lt_is_Some_2 fins i) as [f Hf]; [lia|].
    by destruct (Hpt i f y u Hf Hy Hu) as (_ & _ & _ & ?).
Qed.
End agreement.

(** ** Resolutions *)
Section resolutions.
Context `{Ethers, !EthersLaws, NobleBls, !BlsLaws, !NodeCrypto, UrlApi, !SealCrypto,
  !KeyStorage, LocaleApi}.

(** A response that complains about a dealer. *)
Definition complains (dealerId body : value) : bool :=
  existsb (complains_about dealerId) (statusesOf body).

(** What a complaint of a resolution reveals, to answer the response [r]. *)
Definition reveals (coefficients : list Z) (dealerId r c : value) : Prop :=
  let body := prop_opt r "body" in
  complains dealerId body = true ∧
  prop_opt c "recipientId" = prop_opt body "recipientId" ∧
  prop_opt c "recipientIndex" = prop_opt body "recipientIndex" ∧
  ∃ share hex, polynomialAt coefficients (prop_opt body "recipientIndex") = Ok share ∧
    scalarHex (VBig share) = Ok hex ∧ prop_opt c "share" = VStr hex.

(** A response signed by a member of the roster, under its own index. *)
Definition signed_response (participants : list value) (r : value) : Prop :=
  ∃ p, p ∈ participants ∧ prop_opt p "id" = prop_opt (prop_opt r "body") "recipientId" ∧
    strict_eq (prop_opt p "index") (prop_opt (prop_opt r "body") "recipientIndex") = true ∧
    verifyPacket r p = Ok true.

Lemma validateResponsePacket_Ok packet participants expected body :
  validateResponsePacket packet participants expected = Ok body →
  body = prop_opt packet "body" ∧ signed_response participants packet.
Proof.
  unfold validateResponsePacket. intros Hv. apply bind_Ok in Hv as (? & _ & Hv).
  apply bind_Ok in Hv as (ok & Hok & Hv). apply bind_Ok in Hv as (? & ->%require_Ok & Hv).
  apply bind_Ok in Hv as (? & _ & Hv).
  destruct (prop_opt (prop_opt packet "body") "statuses"); try done.
  apply bind_Ok in Hv as (? & _ & [= <-]). split; [done|].
  unfold signed_by in Hok. destruct (find_by "id" _ participants) as [p|] eqn:Hp; [|done].
  apply find_by_Some in Hp as (Hin & Hid & _). exists p.
  destruct (strict_eq (prop_opt p "index") _) eqn:Hi; [|done]. done.
Qed.

Lemma resolveStep_Ok participants expected coefficients dealerId acc r acc' :
  resolveStep participants expected coefficients dealerId acc r = Ok acc' →
  signed_response participants r ∧
  ((complains dealerId (prop_opt r "body") = false ∧ acc'.2 = acc.2) ∨
   ∃ c, reveals coefficients dealerId r c ∧ acc'.2 = acc.2 ++ [c]).
Proof.
  unfold resolveStep, collectResponse. intros Hs.
  apply bind_Ok in Hs as (bodies & Hb & Hs). apply bind_Ok in Hb as (body & Hb & _).
  apply validateResponsePacket_Ok in Hb as [_ Hsig]. split; [done|].
  apply bind_Ok in Hs as (complaint & Hc & [= <-]). unfold complaintOf in Hc. cbn [snd].
  destruct (existsb _ _) eqn:E; [|injection Hc as <-; left; by rewrite app_nil_r].
  apply bind_Ok in Hc as (share & Hsh & Hc). apply bind_Ok in Hc as (hex & Hhex & [= <-]).
  right. eexists. split; [|done]. repeat split; [done|]. by exists share, hex.
Qed.

Lemma resolve_loop participants expected coefficients dealerId responses bodies l :
  foldM (resolveStep participants expected coefficients dealerId) ([], []) responses
    = Ok (bodies, l) →
  Forall (signed_response participants) responses ∧
  Forall (λ c, ∃ r, r ∈ responses ∧ reveals coefficients dealerId r c) l ∧
  Forall (λ r, complains dealerId (prop_opt r "body") = true →
    ∃ c, c ∈ l ∧ reveals coefficients dealerId r c) responses.
Proof.
  intros Hf. apply (foldM_ind _ (λ visited acc,
    Forall (signed_response participants) visited ∧
    Forall (λ c, ∃ r, r ∈ visited ∧ reveals coefficients dealerId r c) acc.2 ∧
    Forall (λ r, complains dealerId (prop_opt r "body") = true →
      ∃ c, c ∈ acc.2 ∧ reveals coefficients dealerId r c) visited)) in Hf; [done|by repeat constructor|].
  clear. intros visited r acc acc' (Hsig & Hl & Hr) [Hs Hstep]%resolveStep_Ok.
  rewrite !Forall_app, !Forall_singleton. rewrite Forall_forall in Hl, Hr.
  assert (Forall (λ c, ∃ r', r' ∈ visited ++ [r] ∧ reveals coefficients dealerId r' c) acc.2) as Hl'.
  { apply Forall_forall. intros c Hc. destruct (Hl c Hc) as (r' & ? & ?). exists r'. set_solver. }
  destruct Hstep as [[Hno ->]|(c & Hc & ->)]; split_and!; try done.
  - by apply Forall_forall.
  - congruence.
  - apply Forall_app. split; [done|]. apply Forall_singleton. exists r. set_solver.
  - apply Forall_forall. intros r' Hr' Hcr. destruct (Hr r' Hr' Hcr) as (c' & ? & ?).
    exists c'. set_solver.
  - intros _. exists c. set_solver.
Qed.

(** C8: the resolution a dealer signs answers its own signed deal, reveals a share
    for exactly the signed responses that complain about it, each the value of its
    polynomial at the index of the complaining recipient, and fewer of them than
    the threshold: the revealed values do not determine the polynomial. *)
Theorem resolution_reveals_below_threshold roster dealerRoster ks state pw deal responses packet :
  createResolutionBundle roster dealerRoster ks state pw deal responses = Ok packet →
  let dealerId := prop_opt ks "participantId" in
  ∃ participants t secret raw coefficients l,
    validateRoster roster (VNum t) = Ok participants ∧
    prop_opt (prop_opt deal "body") "threshold" = VNum t ∧
    decryptPayload (prop_opt state "crypto") pw = Ok secret ∧
    packetHash (prop_opt deal "body") = from_option_or "" (as_string (prop_opt secret "dealHash")) ∧
    prop_opt secret "coefficients" = VArr raw ∧
    mapM (λ v, scalar v "dealer coefficient" true) raw = Ok coefficients ∧
    prop_opt (prop_opt packet "body") "complaints" = VArr l ∧ Z.of_nat (length l) < t ∧
    Forall (signed_response participants) responses ∧
    Forall (λ c, ∃ r, r ∈ responses ∧ reveals coefficients dealerId r c) l ∧
    Forall (λ r, complains dealerId (prop_opt r "body") = true →
      ∃ c, c ∈ l ∧ reveals coefficients dealerId r c) responses.
Proof.
  intros Hc dealerId. unfold createResolutionBundle in Hc.
  apply bind_Ok in Hc as (ps & Hps & Hc). apply bind_Ok in Hc as (? & _ & Hc).
  apply bind_Ok in Hc as (? & _ & Hc). apply bind_Ok in Hc as (? & _ & Hc).
  apply bind_Ok in Hc as (? & _ & Hc). apply bind_Ok in Hc as (secret & Hsecret & Hc).
  apply bind_Ok in Hc as (h & Hh & Hc). apply bind_Ok in Hc as (rec & Hrec%prop_prop_opt & Hc).
  apply bind_Ok in Hc as (? & Heq%require_Ok%strict_eq_eq & Hc).
  apply bind_Ok in Hc as (? & _ & Hc). apply bind_Ok in Hc as ([? ?] & _ & Hc).
  apply bind_Ok in Hc as (? & _ & Hc). apply bind_Ok in Hc as (raw & Hraw & Hc).
  apply bind_Ok in Hc as (coefficients & Hco & Hc). apply bind_Ok in Hc as ([bodies l] & Hl & Hc).
  apply bind_Ok in Hc as (? & _ & Hc). apply bind_Ok in Hc as (? & Hlt%require_Ok & Hc).
  apply bind_Ok in Hc as (? & _ & [= <-]).
  destruct (validateRoster_Ok _ _ _ Hps) as (t & Ht & _). rewrite Ht in Hps, Hlt.
  apply resolve_loop in Hl as (Hsig & Hrev & Hall).
  pose proof (merge_sort_Permutation index_le l) as Hp.
  exists ps, t, secret, raw, coefficients, (merge_sort index_le l). split_and!; try done.
  - rewrite Hrec, Heq. done.
  - destruct (prop_opt secret "coefficients"); try done. by injection Hraw as ->.
  - rewrite Hp. by apply Z.ltb_lt.
  - by rewrite Hp.
  - eapply Forall_impl; [done|]. cbn. intros r Hr Hcr. destruct (Hr Hcr) as (c & ? & ?).
    exists c. by rewrite Hp.
Qed.

(** A resolution that a finalizing participant accepts is signed by the dealer,
    reveals shares to exactly the recipients whose signed responses complain about
    the dealer, to fewer than the threshold of them, and each revealed share is
    the value of the dealer's committed polynomial at the index of the recipient. *)
Theorem accepted_resolution_exact packet dealer body expected roster responses ids t r :
  validateResolution packet dealer body expected roster responses = Ok r →
  complainers (prop_opt dealer "id") responses = VStr <$> ids →
  prop_opt expected "threshold" = VNum t →
  r = prop_opt packet "body" ∧ verifyPacket packet dealer = Ok true ∧
  Z.of_nat (length ids) < t ∧
  ∃ l, prop_opt r "complaints" = VArr l ∧
    (λ c, prop_opt c "recipientId") <$> l ≡ₚ VStr <$> ids ∧
    reveals_polynomial roster body r.
Proof.
  intros Hr Hids Ht. pose proof (validateResolution_reveals _ _ _ _ _ _ _ Hr) as Hrev.
  unfold validateResolution in Hr.
  apply bind_Ok in Hr as (? & _ & Hr). apply bind_Ok in Hr as (ok & Hok & Hr).
  apply bind_Ok in Hr as (? & ->%require_Ok & Hr). apply bind_Ok in Hr as (? & _ & Hr).
  destruct (prop_opt (prop_opt packet "body") "complaints") as [| | | | | | |l|] eqn:El; try done.
  apply bind_Ok in Hr as (? & Hlt%require_Ok & Hr).
  apply bind_Ok in Hr as (resolved & Hres & Hr). apply bind_Ok in Hr as (same & Hsame & Hr).
  apply bind_Ok in Hr as (? & ->%require_Ok & Hr). apply bind_Ok in Hr as (seen & Hf & [= <-]).
  rewrite Hids in Hlt, Hsame. rewrite Ht in Hlt. cbn in Hlt. apply Z.ltb_lt in Hlt.
  rewrite js_sort_values_Permutation, length_fmap in Hlt.
  split_and!; try done. exists l. split_and!; try done.
  assert (resolved = (λ c, prop_opt c "recipientId") <$> l) as <-.
  { unfold recipientIds in Hres. apply mapM_Ok in Hres. clear -Hres.
    induction Hres as [|c v l vs Hc%prop_prop_opt _ IH]; [done|]. cbn. by rewrite Hc, IH. }
  unfold same_json in Hsame. apply bind_Ok in Hsame as (u & Hu & Hsame).
  apply bind_Ok in Hsame as (w & Hw & [= ->%bool_decide_eq_true]).
  pose proof (canonicalJson_inj _ _ _ Hw Hu) as E. cbn in E. injection E as E.
  assert (js_sort_values resolved = js_sort_values (VStr <$> ids)) as E'.
  { assert (∃ k, js_sort_values (VStr <$> ids) = VStr <$> k) as [k Hk].
    { apply Forall_image. rewrite js_sort_values_Permutation. apply Forall_fmap, Forall_true. eauto. }
    rewrite Hk in E |- *. clear -E. revert E. generalize (js_sort_values resolved). intros rs.
    revert k. induction rs as [|x rs IH]; intros [|y k]; cbn; try done.
    intros [= Ex E]. destruct x; try done. injection Ex as ->. f_equal. by apply IH. }
  by rewrite <-(js_sort_values_Permutation resolved), E', js_sort_values_Permutation.
Qed.
End resolutions.

(** ** The theorems at the sample ceremony *)
Section examples.
#[local] Existing Instance sample_ethers_laws.
#[local] Existing Instance sample_bls_laws.

Lemma run_result i :
  is_ok (dkg_run i).1 = true →
  ∃ ks tr s', finalizeCeremony dkg_options (dkg_keystore i) dkg_password 1024
    dkg_deals dkg_responses [dkg_resolution] (supply (7 * i) [16; 12])
    = (Ok (dkg_finalization i, ks, tr), s').
Proof.
  change (finalizeCeremony _ _ _ _ _ _ _ _) with (dkg_run i).
  unfold dkg_finalization. destruct (dkg_run i) as [[[[fin ks] tr]|] s']; [|done].
  intros _. by exists ks, tr, s'.
Qed.

Lemma sample_finalizes i share :
  is_ok (dkg_run i).1 = true →
  prop_opt (dkg_finalization i) "participantIndex" = VNum i → 0 < share < 101 →
  prop_opt (dkg_finalization i) "sharePublicKey" = VStr (wireHex (smul share base2)) →
  finalizes dkg_options dkg_deals dkg_responses [dkg_resolution] (dkg_finalization i) i share.
Proof.
  intros Hok Hi Hs Hpk. destruct (run_result i Hok) as (ks & tr & s' & E).
  exists (dkg_keystore i), dkg_password, 1024, (supply (7 * i) [16; 12]), ks, tr, s'.
  split; [exact E|]. split; [exact Hi|]. split; [exact Hs|exact Hpk].
Qed.

Lemma finalized_share_checks_witness :
  ∃ cs pk, prop_opt (dkg_finalization 3) "publicCoefficients" = VArr (VStr <$> cs) ∧
    prop_opt (dkg_finalization 3) "sharePublicKey" = VStr pk ∧
    ∃ x, verifyPublicShareCommitment (VNum x) (JsVal (VStr pk)) (Some (JsVal ∘ VStr <$> cs)) = Ok true.
Proof.
  destruct (run_result 3) as (ks & tr & s' & E); [vm_refl|].
  assert (31 < order) as Hbig by reflexivity.
  destruct (finalized_share_checks Hbig _ _ _ _ _ _ _ _ _ _ _ _ E) as
    (t & cs & x & share & pk & payload & crypto & _ & _ & Hcs & _ & _ & _ & Hpk & _ & Hv & _).
  exists cs, pk. split; [exact Hcs|]. split; [exact Hpk|]. exists x. exact Hv.
Defined.

Lemma finalized_shares_reconstruct_witness :
  ∃ ws, mapM (λ x, lagrangeCoefficientAtZero (VBig x) (VBig <$> [3; 1])) [3; 1] = Ok ws ∧
    prop_opt (dkg_finalization 3) "groupPublicKey"
    = VStr (wireHex (smul (foldr Z.add 0 (zip_with Z.mul ws [97; 14])) base2)).
Proof.
  assert (31 < order) as Hbig by reflexivity.
  destruct (finalized_shares_reconstruct Hbig dkg_options dkg_deals dkg_responses
    [dkg_resolution] 2 [dkg_finalization 3; dkg_finalization 1] [3; 1] [97; 14])
    as (gpk & cs & ws & Hall & Hws & ->).
  - reflexivity.
  - apply all_distinct_spec. reflexivity.
  - cbn. lia.
  - reflexivity.
  - reflexivity.
  - intros [|[|i]] fin x s Hf Hx Hs; [| |discriminate Hf].
    + apply (inj Some) in Hf as <-, Hx as <-, Hs as <-.
      apply sample_finalizes; [| |lia|]; vm_refl.
    + apply (inj Some) in Hf as <-, Hx as <-, Hs as <-.
      apply sample_finalizes; [| |lia|]; vm_refl.
  - exists ws. split; [exact Hws|]. apply Forall_cons_1 in Hall as [[Hg _] _]. exact Hg.
Defined.

Lemma resolution_reveals_witness :
  ∃ l, prop_opt (prop_opt dkg_resolution "body") "complaints" = VArr l ∧
    (length l < 2)%nat ∧ prop_opt (default VNull (head l)) "recipientId" = dkg_id 3.
Proof.
  assert (createResolutionBundle dkg_roster dkg_roster (dkg_keystore 2) damaged_state
    dkg_password damaged_deal dkg_responses = Ok dkg_resolution) as E by vm_refl.
  destruct (resolution_reveals_below_threshold _ _ _ _ _ _ _ _ E) as
    (ps & t & secret & raw & c & l & _ & Ht & _ & _ & _ & _ & Hl & Hlen & _).
  exists l. split; [exact Hl|]. split.
  - assert (VNum t = VNum 2) as Ht2 by (rewrite <-Ht; vm_refl).
    clear -Ht2 Hlen. injection Ht2 as ->. lia.
  - assert (prop_opt (default VNull (head (array_items
      (prop_opt (prop_opt dkg_resolution "body") "complaints")))) "recipientId" = dkg_id 3) as Hh
      by vm_refl.
    rewrite Hl in Hh. exact Hh.
Defined.

Lemma accepted_resolution_witness :
  verifyPacket dkg_resolution (dkg_participant 2) = Ok true ∧
  ∃ l, prop_opt (prop_opt dkg_resolution "body") "complaints" = VArr l ∧
    (λ c, prop_opt c "recipientId") <$> l ≡ₚ [dkg_id 3].
Proof.
  destruct (accepted_resolution_exact dkg_resolution (dkg_participant 2) damaged_body
    (result_or VNull (expectedOf dkg_options)) (dkg_participant <$> [1; 2; 3])
    ((λ r, prop_opt r "body") <$> dkg_responses) ["node-3"] 2 (prop_opt dkg_resolution "body"))
    as (_ & Hv & _ & l & Hl & Hp & _).
  - vm_refl.
  - vm_refl.
  - reflexivity.
  - split; [exact Hv|]. exists l. split; [exact Hl|exact Hp].
Defined.
End examples.

