(* ===== verification/DkgHonest.v ===== *)
(** * Honest runs of the key generation ceremony ([threshold-dkg.mjs])

    What an honest dealer sends is accepted by every honest recipient: the deal
    passes the checks of the round, and the recipient decrypts the value of the
    dealer's polynomial at its own index.  The attestations of a manifest's
    participants validate it, and a keystore is only bound to a manifest whose
    polynomial its share lies on. *)

From S2P Require Import Prelude Js Hex CanonicalJson Json Vendor ScalarField ThresholdCrypto ThresholdGroup DkgShares DkgCeremony Samples DkgSample.

Open Scope Z_scope.

Section honest.
Context `{Ethers, !EthersLaws, NobleBls, !BlsLaws, !NodeCrypto, !NodeCryptoLaws, UrlApi,
  !SealCrypto, !SealCryptoLaws, !KeyStorage, LocaleApi}.

(** ** Draws *)

Lemma randomBytes_Ok n s b s' : randomBytes n s = (Ok b, s') → length b = n.
Proof.
  unfold randomBytes. destruct (random_bytes s) as [|b' l]; [done|].
  destruct (length b' =? n)%nat eqn:E; [|done]. intros [= <- _]. by apply Nat.eqb_eq.
Qed.

(** ** The dealer's side *)

(** What a deal for the key generation is made of. *)
Record honest_deal (o : ceremony_options) (ks : value) (loaded : loaded_keystore)
    (participants : list value) (packet : value) (coefficients : list Z) : Prop := {
  hd_coefficients : Forall (λ a, 0 < a < order) coefficients ∧
    length coefficients = threshold_nat (o_threshold o);
  hd_parts : ∃ dealer sid shares sig,
    find_by "id" (prop_opt ks "participantId") participants = Some dealer ∧
    fixedHex (o_sessionId o) 32 "sessionId" = Ok sid ∧
    let fields := dealFields o (VStr sid) VNull dealer
                    ((λ a, wireHex (smul a base2)) <$> coefficients) in
    let body := dealBody fields shares in
    signPacket body (identityPrivateKey loaded) = Ok sig ∧
    packet = VObj [("body", body); ("signature", VStr sig)] ∧
    Forall2 (λ p e, ∃ z aad eph iv env,
      polynomialAt coefficients (prop_opt p "index") = Ok z ∧
      shareAssociatedData (dealBody fields []) (prop_opt p "id") = Ok aad ∧
      length iv = 12%nat ∧ encryptShare (VBig z) p aad eph iv = Ok env ∧
      e = VObj [("recipientId", prop_opt p "id"); ("envelope", env)]) participants shares
}.

Lemma drawCoefficients_length n s l s' : drawCoefficients n s = (Ok l, s') → length l = n.
Proof.
  revert s l s'. induction n as [|n IH]; intros s l s'; cbn [drawCoefficients].
  - by intros [= <- _].
  - intros (c & s1 & _ & Hf)%eff_bind_Ok. apply eff_bind_Ok in Hf as (cs & s2 & Hcs & [= <- _]).
    cbn. f_equal. by eapply IH.
Qed.

Lemma fixHighest_length l s k s' : l ≠ [] → fixHighest l s = (Ok k, s') → length k = length l.
Proof.
  unfold fixHighest. intros Hne. destruct (last l) as [[| |]|]; try by intros [= <- _].
  intros (c & s1 & _ & [= <- _])%eff_bind_Ok. rewrite length_app, length_take. cbn.
  destruct l; [done|]. cbn. lia.
Qed.

Lemma dealShares_Ok coefficients body ps s shares s' :
  dealShares coefficients body ps s = (Ok shares, s') →
  Forall2 (λ p e, ∃ z aad eph iv env,
      polynomialAt coefficients (prop_opt p "index") = Ok z ∧
      shareAssociatedData body (prop_opt p "id") = Ok aad ∧
      length iv = 12%nat ∧ encryptShare (VBig z) p aad eph iv = Ok env ∧
      e = VObj [("recipientId", prop_opt p "id"); ("envelope", env)]) ps shares.
Proof.
  revert s shares s'. induction ps as [|p ps IH]; intros s shares s'; cbn [dealShares].
  { intros [= <- _]. constructor. }
  intros (e & s1 & He & Hf)%eff_bind_Ok. apply eff_bind_Ok in Hf as (es & s2 & Hes & [= <- _]).
  constructor; [|by eapply IH]. unfold dealShare in He.
  apply eff_lift_bind_Ok in He as (z & Hz & He). apply eff_lift_bind_Ok in He as (aad & Haad & He).
  apply eff_bind_Ok in He as (eph & s3 & _ & He).
  apply eff_bind_Ok in He as (iv & s4 & Hiv%randomBytes_Ok & He).
  apply eff_lift_bind_Ok in He as (env & Henv & [= <- _]).
  by exists z, aad, eph, iv, env.
Qed.

Lemma createDealBundle_honest o ks pw wf s packet state s' :
  is_dkg o = true → is_reshare o = false →
  createDealBundle o ks pw wf s = (Ok (packet, state), s') →
  ∃ participants loaded coefficients,
    validateRoster (o_roster o) (o_threshold o) = Ok participants ∧
    loadKeystore ks pw = Ok loaded ∧ honest_deal o ks loaded participants packet coefficients.
Proof.
  intros Hdkg Hre. unfold createDealBundle. rewrite Hdkg, Hre. cbv iota. intros Hf.
  apply eff_lift_bind_Ok in Hf as (ps & Hps & Hf).
  apply eff_lift_bind_Ok in Hf as (loaded & Hl & Hf).
  apply eff_lift_bind_Ok in Hf as (dealer & Hd & Hf). cbn [mbind result_bind] in Hd.
  apply from_option_or_Ok in Hd.
  apply eff_bind_Ok in Hf as (drawn & s1 & _ & Hf).
  apply eff_bind_Ok in Hf as (constant & s2 & _ & Hf).
  apply eff_bind_Ok in Hf as (others & s3 & Hothers%drawCoefficients_length & Hf).
  apply eff_bind_Ok in Hf as (coefficients & s4 & Hco%fixHighest_length & Hf); [|done].
  apply eff_lift_bind_Ok in Hf as (commitments & [Hrange ->]%commitmentsFor_Ok & Hf).
  apply eff_lift_bind_Ok in Hf as (sid & Hsid & Hf).
  apply eff_lift_bind_Ok in Hf as (previous & Hprev & Hf).
  unfold previousHashField in Hprev. rewrite Hdkg in Hprev. injection Hprev as <-.
  apply eff_bind_Ok in Hf as (shares & s5 & Hshares%dealShares_Ok & Hf).
  apply eff_lift_bind_Ok in Hf as (pk & Hpk & Hf).
  apply eff_lift_bind_Ok in Hf as (hexes & _ & Hf). apply eff_lift_bind_Ok in Hf as (dh & _ & Hf).
  apply eff_bind_Ok in Hf as (crypto & s6 & _ & [= <- _ _]).
  unfold signedPacket in Hpk. apply bind_Ok in Hpk as (sig & Hsig & [= <-]).
  exists ps, loaded, coefficients. split_and!; [done..|]. split.
  - split; [done|]. rewrite Hco. cbn. rewrite Hothers.
    destruct (validateRoster_Ok _ _ _ Hps) as (t & -> & Ht & _). cbn. lia.
  - by exists dealer, sid, shares, sig.
Qed.

(** ** Rosters with string ids *)

Lemma js_value_set_strings l : js_value_set (VStr <$> l) = VStr <$> js_set l.
Proof.
  unfold js_value_set, js_set.
  enough (∀ s, foldl (λ s x, if existsb (same_value x) s then s else s ++ [x])
    (VStr <$> s) (VStr <$> l) = VStr <$> foldl js_set_add s l) as Hgo by exact (Hgo []).
  induction l as [|x l IH]; intros s; cbn [fmap list_fmap foldl]; [done|].
  rewrite <-IH. f_equal. unfold js_set_add.
  assert (existsb (same_value (VStr x)) (VStr <$> s) = bool_decide (x ∈ s)) as ->.
  { apply eq_true_iff_eq. rewrite bool_decide_eq_true, existsb_exists. split.
    - intros (v & Hv & E). apply list_elem_of_In, list_elem_of_fmap in Hv as (y & -> & Hy).
      unfold same_value in E. cbn in E. rewrite orb_false_r in E.
      by apply bool_decide_eq_true in E as ->.
    - intros Hx. exists (VStr x). split; [by apply list_elem_of_In, list_elem_of_fmap; eauto|].
      unfold same_value. cbn. by rewrite bool_decide_true. }
  case_bool_decide; case_decide; try done. by rewrite fmap_app.
Qed.

(** The ids of a roster of strings, without repetition. *)
Definition roster_ids (ps : list value) (ids : list string) : Prop :=
  (λ p, prop_opt p "id") <$> ps = VStr <$> ids ∧ NoDup ids.

Lemma validateRoster_ids roster threshold ps ids :
  validateRoster roster threshold = Ok ps → (λ p, prop_opt p "id") <$> ps = VStr <$> ids →
  roster_ids ps ids.
Proof.
  intros Hr Hids. split; [done|]. unfold validateRoster in Hr.
  destruct roster as [| | | | | | |l|]; try done. apply if_throw_Ok in Hr as [_ Hr].
  destruct threshold as [| | |t| | | | |]; try done. apply if_throw_Ok in Hr as [_ Hr].
  apply bind_Ok in Hr as (ps' & _ & Hr). apply bind_Ok in Hr as (? & Hf & [= ->]).
  apply forM_Ok in Hf. inversion Hf as [|? ? Hid _]; subst.
  apply require_Ok, Nat.eqb_eq in Hid. rewrite Hids, js_value_set_strings, length_fmap in Hid.
  apply all_distinct_spec. unfold all_distinct. apply bool_decide_eq_true.
  rewrite Hid. by rewrite <-(length_fmap VStr ids), <-Hids, length_fmap.
Qed.

(** With distinct string keys, [find] by key returns the element itself. *)
Lemma find_by_key field l ks x :
  (λ p, prop_opt p field) <$> l = VStr <$> ks → NoDup ks → x ∈ l →
  find_by field (prop_opt x field) l = Some x.
Proof.
  intros Hks Hnd Hx. unfold find_by.
  assert (NoDup ((λ p, prop_opt p field) <$> l)) as Hnd'.
  { rewrite Hks. assert (Inj (=) (=) VStr) by (intros ? ?; congruence). by apply NoDup_fmap_2. }
  assert (∀ y, y ∈ l → ∃ k, prop_opt y field = VStr k) as Hstr.
  { intros y Hy. apply (list_elem_of_fmap_2 (λ p, prop_opt p field)) in Hy. rewrite Hks in Hy.
    apply list_elem_of_fmap in Hy as (k & ? & _). eauto. }
  etrans; [|exact (find_first_key (λ p, prop_opt p field) l x Hnd' Hx)].
  apply find_first_ext_in. intros y Hy. cbn.
  destruct (Hstr x Hx) as [k ->], (Hstr y Hy) as [k' ->]. cbn.
  apply bool_decide_ext. naive_solver.
Qed.

Lemma validateParticipants_id l ps : validateParticipants l = Ok ps → ps = l.
Proof.
  unfold validateParticipants. intros [Hl Hi]%imapM_Ok. apply list_eq_same_length with (length l); try lia.
  intros i x y Hlt Hx Hy. destruct (Hi i y Hy) as (z & Hz & Hv). simplify_eq.
  unfold validateParticipant in Hv. apply bind_Ok in Hv as (? & _ & Hv).
  apply bind_Ok in Hv as (? & _ & Hv). do 3 (apply bind_Ok in Hv as (? & _ & Hv)). congruence.
Qed.

(** ** The recipient's side *)

Lemma prop_opt_prop v k x : prop_opt v k = x → x ≠ VUndef → prop v k = Ok x.
Proof. destruct v; cbn; congruence. Qed.

Lemma strict_eq_VStr s : strict_eq (VStr s) (VStr s) = true.
Proof. cbn. by apply bool_decide_eq_true. Qed.
Lemma strict_eq_VNum_refl z : strict_eq (VNum z) (VNum z) = true.
Proof. apply Z.eqb_refl. Qed.

Lemma canonical_strings ids : canonical (VArr (VStr <$> ids)) = true.
Proof. cbn. apply forallb_Forall, Forall_fmap, Forall_true. done. Qed.

Lemma same_json_refl v : canonical v = true → same_json v v = Ok true.
Proof.
  intros Hv. apply canonicalJson_decides in Hv. unfold same_json. rewrite Hv.
  cbn [mbind result_bind]. by rewrite bool_decide_true.
Qed.

Lemma js_sort_values_canonical ids : canonical (VArr (js_sort_values (VStr <$> ids))) = true.
Proof.
  cbn. apply forallb_Forall. rewrite js_sort_values_Permutation.
  apply Forall_fmap, Forall_true. done.
Qed.

Lemma check_commitments_honest body t name c :
  prop_opt body "commitments" = VArr (VStr <$> ((λ a, wireHex (smul a base2)) <$> c)) →
  Forall (λ a, 0 < a < order) c → Z.of_nat (length c) = t → 1 <= t →
  check_commitments body (VNum t) name = Ok tt.
Proof.
  intros Hb Hc Hlen Ht. unfold check_commitments. rewrite Hb, !length_fmap, Hlen, strict_eq_VNum_refl.
  cbn [negb].
  assert (∀ a, g2CommitmentPoint (JsVal (VStr (wireHex (smul a base2)))) "highest commitment"
    = Ok (smul a base2)) as Htop by (intros a; apply g2CommitmentPoint_Ok, wireHex_bytes).
  apply (bind_intro _ _ ((λ a, smul a base2) <$> c)).
  - rewrite <-list_fmap_compose.
    replace (VStr ∘ (λ a, wireHex (smul a base2)) <$> c)
      with ((VStr ∘ wireHex) <$> ((λ a, smul a base2) <$> c)) by by rewrite <-list_fmap_compose.
    apply imapM_fmap_id. intros i C _. apply g2CommitmentPoint_Ok, wireHex_bytes.
  - destruct (last c) as [a|] eqn:Hlast.
    + rewrite !fmap_last, Hlast. cbn [fmap option_fmap option_map default from_option id].
      rewrite Htop. cbn [mbind result_bind]. apply require_true, negb_true_iff, bool_decide_eq_false.
      apply smul_neq_zero; [|apply base2_neq_zero].
      apply last_Some_elem_of in Hlast. rewrite Forall_forall in Hc. specialize (Hc a Hlast).
      rewrite Z.mod_small; lia.
    + apply last_None in Hlast as ->. cbn in Hlen. lia.
Qed.

Lemma check_coverage_honest body ps ids name shares :
  roster_ids ps ids → prop_opt body "encryptedShares" = VArr shares →
  (λ e, prop_opt e "recipientId") <$> shares = VStr <$> ids → recipientIds shares = Ok (VStr <$> ids) →
  check_coverage body ps name = Ok tt.
Proof.
  intros [Hids Hnd] Hb Hs Hr. unfold check_coverage. rewrite Hb.
  pose proof (f_equal length Hids) as Hl. pose proof (f_equal length Hs) as Hl'.
  rewrite !length_fmap in Hl, Hl'.
  rewrite (proj2 (Nat.eqb_eq (length shares) (length ps))) by lia. cbn [negb].
  rewrite Hr. cbn [mbind result_bind].
  rewrite js_value_set_strings, length_fmap, js_set_id, Hl, Nat.eqb_refl by done.
  cbn [require mbind result_bind]. rewrite Hids, same_json_refl by apply js_sort_values_canonical.
  done.
Qed.

Lemma loadKeystore_identity ks pw loaded :
  loadKeystore ks pw = Ok loaded → length (ed_public (identityPrivateKey loaded)) = 32%nat.
Proof.
  unfold loadKeystore. intros Hl. do 5 (apply bind_Ok in Hl as (? & _ & Hl)).
  apply bind_Ok in Hl as (s & (b & Hb & ->)%fixedHex_field & Hl).
  apply bind_Ok in Hl as (? & E%require_Ok%bool_decide_eq_true & Hl).
  do 2 (apply bind_Ok in Hl as (? & _ & Hl)). injection Hl as <-. cbn [identityPrivateKey].
  rewrite hexlify_lower in E. by apply hexlify_inj in E as ->.
Qed.

Lemma dealt_share ps coefficients fields ids shares recipient :
  roster_ids ps ids → recipient ∈ ps →
  Forall2 (λ p e, ∃ z aad eph iv env,
      polynomialAt coefficients (prop_opt p "index") = Ok z ∧
      shareAssociatedData (dealBody fields []) (prop_opt p "id") = Ok aad ∧
      length iv = 12%nat ∧ encryptShare (VBig z) p aad eph iv = Ok env ∧
      e = VObj [("recipientId", prop_opt p "id"); ("envelope", env)]) ps shares →
  (λ e, prop_opt e "recipientId") <$> shares = VStr <$> ids ∧
  recipientIds shares = Ok (VStr <$> ids) ∧
  ∃ z aad eph iv env,
    polynomialAt coefficients (prop_opt recipient "index") = Ok z ∧
    shareAssociatedData (dealBody fields []) (prop_opt recipient "id") = Ok aad ∧
    length iv = 12%nat ∧ encryptShare (VBig z) recipient aad eph iv = Ok env ∧
    find_by "recipientId" (prop_opt recipient "id") shares
    = Some (VObj [("recipientId", prop_opt recipient "id"); ("envelope", env)]).
Proof.
  intros [Hids Hnd] Hr Hs.
  assert ((λ e, prop_opt e "recipientId") <$> shares = VStr <$> ids) as Hrids.
  { rewrite <-Hids. clear -Hs. induction Hs as [|p e ps es (z & aad & eph & iv & env & Hpe) _ IH]; [done|].
    cbn [fmap list_fmap]. destruct Hpe as (_ & _ & _ & _ & ->). f_equal. exact IH. }
  split_and!; [done| |].
  - rewrite <-Hrids. apply mapM_Ok, Forall2_fmap_r, Forall_Forall2_diag.
    apply Forall_forall. intros e He. destruct (list_elem_of_lookup_1 _ _ He) as [i Hi].
    destruct (Forall2_lookup_r _ _ _ _ _ Hs Hi) as (p & _ & z & aad & eph & iv & env & Hpe).
    destruct Hpe as (_ & _ & _ & _ & ->). done.
  - destruct (list_elem_of_lookup_1 _ _ Hr) as [i Hi].
    destruct (Forall2_lookup_l _ _ _ _ _ Hs Hi) as (e & He & z & aad & eph & iv & env & Hz & Haad & Hiv & Henv & ->).
    exists z, aad, eph, iv, env. split_and!; try done.
    apply list_elem_of_lookup_2 in He. exact (find_by_key "recipientId" shares ids _ Hrids Hnd He).
Qed.

(** The round's checks of an honest deal. *)
Lemma honest_deal_valid o ks loaded pw ps ids packet c e expected dealer t :
  honest_deal o ks loaded ps packet c → loadKeystore ks pw = Ok loaded →
  o_ceremony o = "dkg" → o_epoch o = VNum e → o_threshold o = VNum t → 2 <= t →
  roster_ids ps ids → expectedOf o = Ok expected → dealer ∈ ps →
  prop_opt dealer "id" = prop_opt ks "participantId" →
  (∃ i, prop_opt dealer "index" = VNum i) →
  prop_opt dealer "identityPublicKey" = VStr (hexlify (ed_public (identityPrivateKey loaded))) →
  validateDealPacket packet ps ps expected = Ok (prop_opt packet "body", dealer).
Proof.
  intros [[Hco Hlen] (dealer' & sid & shares & sig & Hd & Hsid & Hparts)] Hload Hdkg He Ht Ht2 Hids
    Hexp Hin Hid [i Hi] Hkey.
  destruct Hparts as (Hsig & -> & Hshares). cbv zeta in Hsig.
  rewrite <-Hid, (find_by_key "id" ps ids dealer) in Hd by (done || apply Hids). injection Hd as <-.
  unfold expectedOf, previousHashField, selectedField, is_dkg in Hexp.
  rewrite bool_decide_true in Hexp by done. rewrite Hsid in Hexp. cbn [mbind result_bind] in Hexp.
  injection Hexp as <-.
  destruct (dealt_share _ _ _ _ _ _ Hids Hin Hshares) as (Hrids & Hrec & _).
  set (fields := dealFields o (VStr sid) VNull dealer _) in *. set (body := dealBody fields shares) in *.
  assert (prop_opt body "dealerId" = prop_opt dealer "id") as Hbd by done.
  assert (prop_opt body "dealerIndex" = prop_opt dealer "index") as Hbi by done.
  unfold validateDealPacket. cbv zeta.
  change (prop_opt (VObj [("body", body); ("signature", VStr sig)]) "body") with body.
  apply (bind_intro _ _ tt); [done|].
  apply (bind_intro _ _ tt).
  { apply forM_Ok. unfold ROUND_FIELDS. repeat constructor; apply require_true.
    - apply strict_eq_VStr.
    - apply strict_eq_VStr.
    - change (strict_eq (o_epoch o) (o_epoch o) = true). rewrite He. apply strict_eq_VNum_refl.
    - change (strict_eq (o_threshold o) (o_threshold o) = true). rewrite Ht. apply strict_eq_VNum_refl. }
  apply (bind_intro _ _ tt).
  { apply forM_Ok. repeat constructor.
    unfold check_same_json. change (prop_opt body "selectedDealerIds") with (selectedField o).
    unfold selectedField, is_dkg. rewrite bool_decide_true by done. done. }
  rewrite Hbd, (find_by_key "id" ps ids dealer) by (done || apply Hids).
  apply (bind_intro _ _ true).
  { unfold signed_by. rewrite Hbi, Hi, strict_eq_VNum_refl. cbn [negb].
    apply (signed_packet_verifies body body (identityPrivateKey loaded)); try done.
    - by apply prop_opt_prop.
    - by eapply loadKeystore_identity. }
  apply (bind_intro _ _ tt); [done|].
  apply (bind_intro _ _ tt).
  { change (prop_opt _ "threshold") with (o_threshold o). rewrite Ht in Hlen |- *. cbn in Hlen.
    apply (check_commitments_honest _ _ _ c); [done|done|lia|lia]. }
  apply (bind_intro _ _ tt); [|done].
  by eapply check_coverage_honest.
Qed.

(** The recipient of an honest deal decrypts the value of the polynomial. *)
Lemma honest_own_share o ks loaded ps ids packet c recipient key x :
  honest_deal o ks loaded ps packet c → roster_ids ps ids → recipient ∈ ps →
  prop_opt recipient "index" = VNum x → 0 <= x →
  prop_opt recipient "transportPublicKey" = VStr (hexlify (x_public key)) →
  ownShare (prop_opt packet "body") recipient key = Ok (zpeval c x mod order) ∧
  commitmentsOf (prop_opt packet "body") = VStr <$> ((λ a, wireHex (smul a base2)) <$> c).
Proof.
  intros [[Hco Hlen] (dealer & sid & shares & sig & _ & _ & Hparts)] Hids Hin Hx Hx0 Hkey.
  destruct Hparts as (_ & -> & Hshares).
  destruct (dealt_share _ _ _ _ _ _ Hids Hin Hshares) as
    (_ & _ & z & aad & eph & iv & env & Hz & Haad & Hiv & Henv & Hfind).
  split; [|done]. rewrite Hx, (polynomialAt_Ok c _ x) in Hz.
  - injection Hz as <-. unfold ownShare.
    apply (bind_intro _ _ shares); [done|].
    rewrite Hfind. apply (bind_intro _ _ (VObj [("recipientId", prop_opt recipient "id"); ("envelope", env)])); [done|].
    apply (bind_intro _ _ aad); [done|].
    change (prop_opt (VObj _) "envelope") with env.
    eapply share_roundtrip; [|done| |done].
    + apply Z.mod_pos_bound, order_pos.
    + by apply prop_opt_prop.
  - done.
  - lia.
  - eapply Forall_impl; [done|]. cbn. lia.
Qed.


(** A zero among a dealer's coefficients, which its draws admit except for the
    first and the highest, stops it from committing to them. *)
Theorem zero_coefficient_refused c :
  is_ok (commitmentsFor c) = true ↔ Forall (λ a, 0 < a < order) c.
Proof.
  split.
  - intros [cs Hcs]%is_ok_true. by apply commitmentsFor_Ok in Hcs as [? _].
  - intros Hc. apply is_ok_true. eexists. by apply commitmentsFor_Ok.
Qed.

(** ** Attestation and binding *)

(** A participant's keystore, as its entry in a manifest has it. *)
Definition keystore_of (b : body) (ks : value) (p : participant) : Prop :=
  p ∈ b_participants b ∧ prop_opt ks "participantId" = VStr (p_id p) ∧
  prop_opt ks "identityPublicKey" = VStr (p_identityPublicKey p).

Lemma map_get_str_fmap {A} (f : A → string) (l : list A) x :
  NoDup (f <$> l) → x ∈ l → map_get_str ((λ x, (f x, x)) <$> l) (f x) = Some x.
Proof.
  intros Hnd Hx. unfold map_get_str.
  pose proof (find_first_key fst (reverse ((λ x, (f x, x)) <$> l)) (f x, x)) as Hf.
  cbn [fst] in Hf. rewrite Hf; [done| |].
  - by rewrite reverse_Permutation, <-list_fmap_compose.
  - rewrite elem_of_reverse. apply list_elem_of_fmap. eauto.
Qed.

Lemma attestManifest_Ok manifest ks pw b h a :
  attestManifest manifest ks pw = Ok a → prepareGroupManifest manifest true = Ok (b, h) →
  ∃ loaded data, loadKeystore ks pw = Ok loaded ∧ hexBytes h = Ok data ∧
    a = VObj [("participantId", prop_opt ks "participantId");
              ("signature", VStr (hexlify (ed_sign data (identityPrivateKey loaded))))].
Proof.
  unfold attestManifest. intros Ha Hp. apply bind_Ok in Ha as (loaded & Hl & Ha).
  rewrite Hp in Ha. cbn [mbind result_bind] in Ha.
  apply bind_Ok in Ha as (data & Hd & [= <-]). by exists loaded, data.
Qed.

Lemma loadKeystore_public ks pw loaded s :
  loadKeystore ks pw = Ok loaded → prop_opt ks "identityPublicKey" = VStr s → hex_field 32 s →
  s = hexlify (ed_public (identityPrivateKey loaded)).
Proof.
  unfold loadKeystore. intros Hl Hs (b & Hb & ->). do 5 (apply bind_Ok in Hl as (? & _ & Hl)).
  apply bind_Ok in Hl as (u & Hu & Hl). rewrite Hs, fixedHex_hex_field in Hu by by exists b.
  injection Hu as <-.
  apply bind_Ok in Hl as (? & E%require_Ok%bool_decide_eq_true & Hl).
  do 2 (apply bind_Ok in Hl as (? & _ & Hl)). injection Hl as <-. cbn [identityPrivateKey].
  by rewrite hexlify_lower in E.
Qed.

Lemma attestation_step_honest manifest b h label ks pw p a pos acc :
  prepareGroupManifest manifest true = Ok (b, h) → keystore_of b ks p →
  attestManifest manifest ks pw = Ok a → (p_id p ∉ acc) →
  attestation_step (participants_by_id b) h label acc (pos, a) = Ok (acc ++ [p_id p]).
Proof.
  intros Hp (Hin & Hid & Hkey) Ha Hnew.
  destruct (prepareGroupManifest_Ok _ _ _ _ Hp) as [[Cs Hwf]%normalizeBody_wf _].
  pose proof (wf_members _ _ Hwf) as Hm. destruct (wf_identity _ _ _ Hm p Hin) as [Hhex _].
  destruct (attestManifest_Ok _ _ _ _ _ _ Ha Hp) as (loaded & data & Hl & Hd & ->).
  pose proof (loadKeystore_public _ _ _ _ Hl Hkey Hhex) as Hpub. rewrite Hid.
  unfold attestation_step. apply (bind_intro _ _ tt); [done|].
  apply (bind_intro _ _ p).
  { apply from_option_or_Ok. cbn. apply (map_get_str_fmap p_id); [apply Hm|done]. }
  apply (bind_intro _ _ tt); [by apply require_true, negb_true_iff, bool_decide_eq_false|].
  apply (bind_intro _ _ (hexlify (ed_sign data (identityPrivateKey loaded)))).
  { apply fixedHex_hex_field. eexists. split; [apply ed_sign_length|done]. }
  apply (bind_intro _ _ true).
  { unfold identity_verifies. rewrite Hd, Hpub, !hexBytes_hexlify. cbn [mbind result_bind].
    by rewrite ed_verify_sign. }
  unfold js_set_add. by rewrite decide_False.
Qed.

(** The attestations that distinct participants make with their keystores,
    [threshold] of them, validate the manifest they attest, in whatever order. *)
Theorem attestations_validate manifest b h label ps attesters :
  prepareGroupManifest manifest true = Ok (b, h) → NoDup (p_id <$> ps) →
  b_threshold b <= Z.of_nat (length ps) →
  Forall2 (λ p a, ∃ ks pw, keystore_of b ks p ∧ attestManifest manifest ks pw = Ok a)
    ps attesters →
  validateAttestations (VArr attesters) (participants_by_id b) (b_threshold b) h label
  = Ok (js_sort (p_id <$> ps)).
Proof.
  intros Hp Hnd Ht Hall. unfold validateAttestations.
  assert (∀ acc pos, NoDup (acc ++ (p_id <$> ps)) →
    foldM (attestation_step (participants_by_id b) h label) acc (imap (λ i a, (pos + i, a)%nat) attesters)
    = Ok (acc ++ (p_id <$> ps))) as Hgo.
  { clear Hnd Ht. induction Hall as [|p a ps l (ks & pw & Hks & Ha) _ IH]; intros acc pos Hnd.
    { cbn. by rewrite app_nil_r. }
    rewrite imap_cons. cbn [foldM fmap list_fmap].
    erewrite attestation_step_honest; [|done..|].
    - cbn [mbind result_bind]. etrans; [|etrans; [apply (IH (acc ++ [p_id p]) (S pos))|]].
      + f_equal. apply imap_ext. intros i x _. cbn. f_equal. lia.
      + by rewrite <-app_assoc.
      + by rewrite <-app_assoc.
    - apply NoDup_app in Hnd as (_ & Hd & _). set_solver. }
  apply (bind_intro _ _ (p_id <$> ps)); [by apply (Hgo [] 0%nat)|].
  rewrite length_fmap, (proj2 (Z.ltb_ge _ _)) by lia. done.
Qed.

(** A keystore is bound to a manifest only under the manifest's separately
    trusted hash, as a participant of its roster whose published keys it holds,
    and with the share that is the value, at that participant's index, of the
    manifest's public polynomial. *)
Theorem bound_keystore_on_polynomial ks pw manifest trusted wf s ks' s' :
  bindKeystoreToManifest ks pw manifest trusted wf s = (Ok ks', s') →
  ∃ loaded b h p Cs share payload crypto,
    loadKeystore ks pw = Ok loaded ∧
    normalizeBody manifest true = Ok b ∧ manifestHashOf b = Ok h ∧
    fixedHex trusted 32 "manifestHash" = Ok h ∧
    p ∈ b_participants b ∧ prop_opt ks "participantId" = VStr (p_id p) ∧
    to_bigint (prop_opt (secret loaded) "thresholdShare") = Ok share ∧
    b_publicCoefficients b = wireHex <$> Cs ∧
    smul share base2 = point_eval Cs (p_index p) ∧
    encryptPayload payload pw wf s = (Ok crypto, s') ∧
    ks' = VObj (assoc_set "crypto" crypto (match ks with VObj fs => fs | _ => [] end)) ∧
    prop_opt payload "thresholdManifestHash" = VStr h ∧
    prop_opt payload "thresholdShare" = prop_opt (secret loaded) "thresholdShare".
Proof.
  unfold bindKeystoreToManifest. intros Hf.
  apply eff_lift_bind_Ok in Hf as (loaded & Hl & Hf).
  apply eff_require_bind_Ok in Hf as [Hshare Hf].
  apply eff_lift_bind_Ok in Hf as ([b h] & [Hb Hh]%prepareGroupManifest_Ok & Hf).
  apply eff_lift_bind_Ok in Hf as (th & Hth & Hf).
  apply eff_require_bind_Ok in Hf as [<-%bool_decide_eq_true Hf].
  apply eff_lift_bind_Ok in Hf as (p & [Hp Hid]%from_option_or_Ok%find_first_Some & Hf).
  apply eff_lift_bind_Ok in Hf as (? & _ & Hf). apply eff_require_bind_Ok in Hf as [_ Hf].
  apply eff_lift_bind_Ok in Hf as (? & _ & Hf). apply eff_require_bind_Ok in Hf as [_ Hf].
  apply eff_lift_bind_Ok in Hf as (pk & (share & Hsh & _ & ->)%publicKeyForShare_Ok & Hf).
  apply eff_require_bind_Ok in Hf as [Hpk%bool_decide_eq_true Hf].
  apply eff_bind_Ok in Hf as (crypto & s1 & Hcr & [= <- <-]).
  destruct (normalizeBody_wf _ _ _ Hb) as [Cs Hwf].
  destruct (wf_share _ _ _ (wf_members _ _ Hwf) p Hp) as [Hps _].
  apply strict_eq_eq in Hid.
  lazymatch type of Hcr with encryptPayload ?payload _ _ _ = _ =>
    exists loaded, b, h, p, Cs, share, payload, crypto end.
  split_and!; try done.
  - apply Hwf.
  - rewrite Hps in Hpk. unfold wireHex in Hpk. rewrite !hexlify_lower in Hpk.
    by apply wireHex_inj.
  - cbn [prop_opt]. by rewrite assoc_assoc_set.
  - unfold prop_opt at 1. rewrite assoc_assoc_set_ne by done.
    destruct (secret loaded); done.
Qed.

(** ** Keystores *)
Section keystores.
Context `{!KeyStorageLaws}.

(** What is sealed under a password is opened by it, with its keys in order. *)
Lemma decrypt_encryptPayload payload pw wf s crypto s' :
  encryptPayload payload pw wf s = (Ok crypto, s') →
  1024 <= wf → safe_integer wf = true → wf_value payload →
  decryptPayload crypto pw = Ok (norm payload).
Proof.
  intros He Hwf Hsafe Hval. unfold encryptPayload in He.
  apply eff_require_bind_Ok in He as [Hpw He].
  apply eff_bind_Ok in He as (salt & s1 & Hsalt%randomBytes_Ok & He).
  apply eff_bind_Ok in He as (iv & s2 & Hiv%randomBytes_Ok & He).
  apply eff_lift_bind_Ok in He as (key & Hkey%from_option_or_Ok & He).
  apply eff_lift_bind_Ok in He as (text & Htext & He).
  pose proof (aes_open_seal key iv [] (toUtf8Bytes text)) as Hopen.
  pose proof (aes_tag_length key iv [] (toUtf8Bytes text)) as Htag.
  destruct (aes_seal key iv [] (toUtf8Bytes text)) as [ct tag]. cbn [fst snd] in Hopen, Htag.
  injection He as <- _. unfold decryptPayload.
  apply (bind_intro _ _ tt); [by rewrite Hpw|]. apply (bind_intro _ _ tt); [done|].
  apply (bind_intro _ _ wf).
  { change (kdf_integer (VNum wf) 1024 = Ok wf). cbn. by rewrite Hsafe, (proj2 (Z.leb_le _ _)). }
  apply (bind_intro _ _ 8); [done|]. apply (bind_intro _ _ 1); [done|].
  apply (bind_intro _ _ salt); [by apply (hexField_hexlify salt)|].
  apply (bind_intro _ _ key); [by rewrite Hkey|].
  apply (bind_intro _ _ iv); [by apply (hexField_hexlify iv)|].
  apply (bind_intro _ _ tag); [by apply (hexField_hexlify tag)|].
  apply (bind_intro _ _ ct).
  { apply from_option_or_Ok. change (getBytes (hexlify ct) = Some ct). apply getBytes_hexlify. }
  apply (bind_intro _ _ (toUtf8Bytes text)); [by rewrite Hopen|].
  rewrite utf8_decode_encode. by apply JSON_parse_canonical.
Qed.

(** The keystore of a new participant opens under its password, with the
    private keys of the public keys it advertises and no share, and the participant
    is valid; under an empty password nothing is generated. *)
Theorem generated_keystore_loads id endpoint pw wf s :
  1024 <= wf → safe_integer wf = true →
  match generateParticipant id endpoint pw wf s with
  | (Ok (participant, keystore), _) =>
      pw ≠ "" ∧ validateParticipant participant 1 = Ok participant ∧
      ∃ loaded, loadKeystore keystore pw = Ok loaded ∧
        head (identity_keys s) = Some (identityPrivateKey loaded) ∧
        head (key_pairs s) = Some (transportPrivateKey loaded) ∧
        prop_opt participant "identityPublicKey"
        = VStr (hexlify (ed_public (identityPrivateKey loaded))) ∧
        prop_opt participant "transportPublicKey"
        = VStr (hexlify (x_public (transportPrivateKey loaded))) ∧
        prop_opt (secret loaded) "thresholdShare" = VNull
  | (Throw _, _) => True
  end.
Proof.
  intros Hwf Hsafe. destruct (generateParticipant _ _ _ _ _) as [[[participant ks]|] s'] eqn:E; [|done].
  unfold generateParticipant in E.
  apply eff_bind_Ok in E as (ik & s1 & Hik & E). apply eff_bind_Ok in E as (tk & s2 & Htk & E).
  apply eff_lift_bind_Ok in E as (p' & Hp & E). apply eff_bind_Ok in E as (crypto & s3 & Hcr & [= <- <- _]).
  unfold generateIdentityKey in Hik. destruct (identity_keys s) as [|ik' l]; [done|].
  injection Hik as -> <-. unfold generateKeyPair in Htk. cbn [key_pairs random_bytes identity_keys] in Htk.
  destruct (key_pairs s) as [|tk' l']; [done|]. injection Htk as -> _.
  split_and!.
  - intros ->. unfold encryptPayload in Hcr. by apply eff_require_bind_Ok in Hcr as [Hcr _].
  - rewrite Hp. f_equal. unfold validateParticipant in Hp. do 5 (apply bind_Ok in Hp as (? & _ & Hp)).
    congruence.
  - pose proof (decrypt_encryptPayload _ _ _ _ _ _ Hcr Hwf Hsafe) as Hdec.
    unfold validateParticipant in Hp. do 3 (apply bind_Ok in Hp as (? & _ & Hp)).
    apply bind_Ok in Hp as (u & Hu & Hp). apply bind_Ok in Hp as (w & Hw & _).
    pose proof (proj1 (fixedHex_Ok _ _ _ _) Hu) as (u0 & [= <-] & _ & ->).
    pose proof (proj1 (fixedHex_Ok _ _ _ _) Hw) as (w0 & [= <-] & _ & ->).
    lazymatch type of Hcr with encryptPayload ?payload _ _ _ = _ =>
      exists {| secret := norm payload; identityPrivateKey := ik; transportPrivateKey := tk |} end.
    split_and!; [|done..]. unfold loadKeystore.
    apply (bind_intro _ _ tt); [done|].
    eapply bind_intro; [apply Hdec; split_and!; [|done..]; by apply all_distinct_spec|].
    eapply bind_intro; [reflexivity|]. apply (bind_intro _ _ ik).
    { apply from_option_or_Ok. apply ed_import_export. }
    apply (bind_intro _ _ tk); [apply from_option_or_Ok, x_import_export|].
    eapply bind_intro; [eapply fixedHex_name, Hu|].
    apply (bind_intro _ _ tt); [by apply require_true, bool_decide_eq_true|].
    eapply bind_intro; [eapply fixedHex_name, Hw|].
    apply (bind_intro _ _ tt); [by apply require_true, bool_decide_eq_true|]. reflexivity.
Qed.
End keystores.
End honest.

(** ** The theorems at the sample ceremony *)
Section examples.
#[local] Existing Instance sample_ethers_laws.
#[local] Existing Instance sample_bls_laws.
#[local] Existing Instance sample_crypto_laws.
#[local] Existing Instance sample_seal_laws.
#[local] Existing Instance sample_storage_laws.

Definition dkg_loaded (i : Z) : loaded_keystore := {|
  secret := VObj [("identityPrivateKey", VStr (hexlify (dkg_identity i)));
                  ("transportPrivateKey", VStr (print_int (dkg_transport i)))];
  identityPrivateKey := dkg_identity i; transportPrivateKey := dkg_transport i
|}.


(** The sample manifest of the group, and the keystore of its second participant. *)
Definition group_keystore (i : nat) : value :=
  let transport := code (default "000"%char (last (sample_identity (100 + i)))) in
  VObj [("format", VStr DKG_KEYSTORE_FORMAT);
        ("participantId", VStr ("node-" +:+ print_int (Z.of_nat i)));
        ("identityPublicKey", VStr (hexlify (sample_identity i)));
        ("transportPublicKey", VStr (hexlify (x_public transport)));
        ("crypto", run_or VNull (encryptPayload
           (VObj [("identityPrivateKey", VStr (hexlify (sample_identity i)));
                  ("transportPrivateKey", VStr (print_int transport));
                  ("thresholdShare", VStr (hex64 (zpeval sample_group_poly (Z.of_nat i))))])
           dkg_password 1024 (supply 9 [16; 12])))].

Lemma zero_coefficient_witness : is_ok (commitmentsFor [42; 0; 3]) = false.
Proof.
  destruct (is_ok (commitmentsFor [42; 0; 3])) eqn:E; [|reflexivity].
  apply (proj1 (zero_coefficient_refused [42; 0; 3])) in E.
  apply Forall_cons in E as [_ E]. apply Forall_cons in E as [E _]. lia.
Defined.

Lemma generated_keystore_loads_witness :
  ∃ participant ks loaded,
    (generateParticipant (VStr "node-1") (VStr "https://node1") dkg_password 2048
       (supply 5 [16; 12])).1 = Ok (participant, ks) ∧
    loadKeystore ks dkg_password = Ok loaded.
Proof.
  pose proof (generated_keystore_loads (VStr "node-1") (VStr "https://node1") dkg_password 2048
    (supply 5 [16; 12]) ltac:(lia) eq_refl) as Hg.
  destruct (generateParticipant _ _ _ _ _) as [[[participant ks]|] s'] eqn:E.
  - destruct Hg as (_ & _ & loaded & Hl & _). exists participant, ks, loaded.
    split; [reflexivity|exact Hl].
  - apply (f_equal fst) in E. vm_compute in E. discriminate E.
Defined.

Lemma attestations_validate_witness :
  ∃ l, length l = 2%nat ∧
    validateAttestations (VArr l) (participants_by_id sample_body) (b_threshold sample_body)
      (sample_manifest_hash sample_body) "identity attestations" = Ok ["node-1"; "node-3"].
Proof.
  exists ((λ i, result_or VNull (attestManifest sample_manifest (group_keystore i) dkg_password)) <$> [3; 1]%nat).
  split; [reflexivity|].
  assert (Ok ["node-1"; "node-3"] = Ok (js_sort (p_id <$> (sample_participant <$> [3; 1]%nat))))
    as -> by vm_refl.
  apply (attestations_validate sample_manifest sample_body (sample_manifest_hash sample_body)
    "identity attestations" (sample_participant <$> [3; 1]%nat)).
  - vm_refl.
  - apply all_distinct_spec. vm_refl.
  - cbn. lia.
  - apply Forall2_fmap_2. repeat constructor.
    + exists (group_keystore 3), dkg_password. split; [|vm_refl].
      split; [|split; reflexivity]. apply list_elem_of_fmap. exists 3%nat. split; [reflexivity|set_solver].
    + exists (group_keystore 1), dkg_password. split; [|vm_refl].
      split; [|split; reflexivity]. apply list_elem_of_fmap. exists 1%nat. split; [reflexivity|set_solver].
Defined.

Lemma bound_keystore_witness :
  ∃ p share Cs, p ∈ b_participants sample_body ∧ smul share base2 = point_eval Cs (p_index p).
Proof.
  assert (∃ ks' s', bindKeystoreToManifest (group_keystore 2) dkg_password sample_manifest
    (VStr (sample_manifest_hash sample_body)) 1024 (supply 4 [16; 12]) = (Ok ks', s')) as (ks' & s' & E).
  { assert (is_ok (bindKeystoreToManifest (group_keystore 2) dkg_password sample_manifest
      (VStr (sample_manifest_hash sample_body)) 1024 (supply 4 [16; 12])).1 = true) as Hok by vm_refl.
    destruct (bindKeystoreToManifest _ _ _ _ _ _) as [[ks'|] s']; [by exists ks', s'|discriminate Hok]. }
  destruct (bound_keystore_on_polynomial _ _ _ _ _ _ _ _ E) as
    (loaded & b & h & p & Cs & share & payload & crypto & _ & Hb & _ & _ & Hp & _ & _ & _ & Hs & _).
  assert (normalizeBody sample_manifest true = Ok sample_body) as Hb' by vm_refl.
  rewrite Hb' in Hb. injection Hb as <-. exists p, share, Cs. split; [exact Hp|exact Hs].
Defined.
End examples.

