(* ===== verification/Policies.v ===== *)
(** * Operational policies ([rpc-policy.mjs], [rpc.mjs], [secrets.mjs],
    [healthcheck.mjs])

    Which RPC endpoints may be used together, the nonce that all of them agree on,
    where a secret may come from, and what a healthy health record is. *)

From S2P Require Import Prelude Js Hex CanonicalJson Json Vendor Samples.

Open Scope Z_scope.

(** ** RPC endpoints *)

(** [s.split(",")] *)
Fixpoint split_chars (sep : ascii) (l : list ascii) (acc : list ascii) : list (list ascii) :=
  match l with
  | [] => [reverse acc]
  | c :: l => if Ascii.eqb c sep then reverse acc :: split_chars sep l []
              else split_chars sep l (c :: acc)
  end.
Definition split_on (sep : ascii) (s : string) : list string :=
  of_chars <$> split_chars sep (chars s) [].

Definition LOOPBACK_HOSTS : list string := ["localhost"; "127.0.0.1"; "::1"].

(** [value?.trim()] *)
Definition trim_value (v : value) : result value :=
  match v with
  | VUndef | VNull => Ok VUndef
  | VStr s => Ok (VStr (trim s))
  | _ => Throw TYPE_ERROR
  end.

Record rpc_policy := { minimum : Z; label : string; allowSharedOrigin : bool }.

Section rpc_urls.
Context `{UrlApi}.

(** The trimmed, non-empty items of an array or of a comma-separated text. *)
Definition rpc_items (values : value) : result (list value) :=
  trimmed ← mapM trim_value
    (match values with
     | VArr l => l
     | v => VStr <$> split_on "," (if truthy v then to_str v else "")
     end);
  Ok (filter (λ v, truthy v = true) trimmed).

Definition check_rpc_url (label : string) (v : value) : result url :=
  parsed ← from_option_or (label +:+ " RPC URL is invalid") (parse_url (to_str v));
  _ ← require (bool_decide (url_protocol parsed = "https:")
               || (bool_decide (url_protocol parsed = "http:")
                   && bool_decide (url_hostname parsed ∈ LOOPBACK_HOSTS)))
        (label +:+ " RPC endpoints must use HTTPS");
  Ok parsed.

Definition normalizeRpcUrls (values : value) (p : rpc_policy) : result (list string) :=
  items ← rpc_items values;
  _ ← require (minimum p <=? Z.of_nat (length items))
        (label p +:+ " requires at least " +:+ print_int (minimum p)
         +:+ " independent RPC endpoints");
  parsed ← mapM (check_rpc_url (label p)) items;
  _ ← require (all_distinct (url_href <$> parsed))
        (label p +:+ " RPC endpoint URLs must be distinct");
  _ ← require (allowSharedOrigin p || all_distinct (url_origin <$> parsed))
        (label p +:+ " independent RPC endpoints must use distinct origins");
  Ok (url_href <$> parsed).

Definition rpcOriginCount (rpcUrls : list string) : result Z :=
  parsed ← mapM (λ s, from_option_or TYPE_ERROR (parse_url s)) rpcUrls;
  Ok (Z.of_nat (length (js_set (url_origin <$> parsed)))).
End rpc_urls.

(** ** The pending nonce *)

(** [/^0x[0-9a-f]+$/i.test(s)] *)
Definition hex_quantity (s : string) : bool :=
  match chars s with
  | "0"%char :: x :: l =>
      (Ascii.eqb x "x" || Ascii.eqb x "X")%char && forallb is_hex_digit l && (0 <? length l)%nat
  | _ => false
  end.

(** The answer of one provider, as a safe integer. *)
Definition parse_nonce (raw : value) : result Z :=
  _ ← require (hex_quantity (to_str raw)) "InvalidRpcNonce";
  nonce ← to_bigint raw;
  _ ← require (safe_integer nonce && (0 <=? nonce)) "InvalidRpcNonce";
  Ok nonce.

(** The answers to [eth_getTransactionCount], one per provider. *)
Definition pendingNonceConsensus (answers : list (result value)) : result Z :=
  values ← mapM (λ answer, raw ← answer; parse_nonce raw) answers;
  match values with
  | [] => Throw "RpcNonceDisagreement"
  | v :: _ => _ ← require (forallb (Z.eqb v) values) "RpcNonceDisagreement"; Ok v
  end.

(** ** Secrets *)

Record file_metadata := { isFile : bool; isSymbolicLink : bool; mode : Z; size : Z }.

Definition validateSecretFileMetadata (metadata : file_metadata) (name : string) : result unit :=
  _ ← require (isFile metadata && negb (isSymbolicLink metadata))
        (name +:+ "_FILE must reference a regular file, not a symlink");
  _ ← require (Z.land (mode metadata) 63 =? 0)
        (name +:+ "_FILE must not be readable or writable by group/other users");
  require (size metadata <=? 65536) (name +:+ "_FILE is unexpectedly large").

(** The environment of the process and the files it names. *)
Record environment := {
  env : string → option string;
  lstat : string → result file_metadata;
  read_file : string → result string
}.

Definition nonempty (o : option string) : option string :=
  match o with Some s => if bool_decide (s = "") then None else Some s | None => None end.

Definition readSecret (e : environment) (name : string) (required : bool)
    : result (option string) :=
  let direct := env e name in
  let path := nonempty (env e (name +:+ "_FILE")) in
  _ ← require (negb (bool_decide (is_Some (nonempty direct)) && bool_decide (is_Some path)))
        ("configure only one of " +:+ name +:+ " or " +:+ name +:+ "_FILE");
  value ← match path with
          | Some p =>
              metadata ← lstat e p;
              _ ← validateSecretFileMetadata metadata name;
              text ← read_file e p; Ok (Some text)
          | None => Ok direct
          end;
  _ ← require (negb (existsb (λ c, code c =? 0) (chars (default "" value))))
        (name +:+ " contains a NUL byte");
  let value := trim <$> value in
  _ ← require (negb (required && bool_decide (nonempty value = None)))
        (name +:+ " or " +:+ name +:+ "_FILE is required");
  Ok value.

(** ** Health records *)

(** [Date.parse], in milliseconds; [None] for [NaN]. *)
Class DateApi := { date_parse : value → option Z }.

Section health.
Context `{DateApi}.

Definition check_count (payload : value) (field : string) : result unit :=
  match prop_opt payload field with
  | VNum n => require (safe_integer n && (0 <=? n)) ("health " +:+ field +:+ " is invalid")
  | _ => Throw ("health " +:+ field +:+ " is invalid")
  end.

(** The age of a healthy record, in seconds. *)
Definition validateHealth (payload : value) (maximumAgeSeconds now : Z) : result Z :=
  _ ← require (truthy payload && strict_eq (prop_opt payload "status") (VStr "healthy"))
        "operator is not healthy";
  updatedAt ← from_option_or "health timestamp is invalid"
                (date_parse (prop_opt payload "updatedAt"));
  let ageMs := now - updatedAt in
  _ ← require (-60000 <=? ageMs) "health timestamp is in the future";
  _ ← require (ageMs <=? maximumAgeSeconds * 1000)
        ("health record is stale by " +:+ print_int (ageMs / 1000) +:+ " seconds");
  _ ← require (hex_string 40 (to_str (prop_opt payload "coordinator"))
               && hex_string 64 (to_str (prop_opt payload "keyHash")))
        "health identity is invalid";
  _ ← forM_ (check_count payload) ["head"; "cursor"; "pending"];
  _ ← require (match prop_opt payload "cursor", prop_opt payload "head" with
               | VNum cursor, VNum head => cursor <=? head + 1 | _, _ => false end)
        "health cursor is ahead of the chain";
  Ok (ageMs / 1000).
End health.

(** ** Lemmas and theorems *)

Section rpc_theorems.
Context `{UrlApi}.

(** An endpoint the policy admits. *)
Definition admitted (u : url) : Prop :=
  url_protocol u = "https:" ∨ url_protocol u = "http:" ∧ url_hostname u ∈ LOOPBACK_HOSTS.

Lemma check_rpc_url_Ok l v u :
  check_rpc_url l v = Ok u → parse_url (to_str v) = Some u ∧ admitted u.
Proof.
  unfold check_rpc_url. intros Hc. apply bind_Ok in Hc as (p & Hp%from_option_or_Ok & Hc).
  apply bind_Ok in Hc as (? & Hs%require_Ok & [= ->]). split; [done|].
  apply orb_true_iff in Hs as [Hs|[Hs1 Hs2]%andb_true_iff]; [left|right];
    by rewrite ?bool_decide_eq_true in *.
Qed.

Lemma normalizeRpcUrls_Ok values p urls :
  normalizeRpcUrls values p = Ok urls →
  NoDup urls ∧ minimum p <= Z.of_nat (length urls) ∧
  ∃ parsed, urls = url_href <$> parsed ∧ Forall admitted parsed ∧
    (allowSharedOrigin p = false → NoDup (url_origin <$> parsed)).
Proof.
  unfold normalizeRpcUrls. intros Hn. apply bind_Ok in Hn as (items & _ & Hn).
  apply bind_Ok in Hn as (? & Hmin%require_Ok%Z.leb_le & Hn).
  apply bind_Ok in Hn as (parsed & Hp & Hn).
  apply bind_Ok in Hn as (? & Hd%require_Ok%all_distinct_spec & Hn).
  apply bind_Ok in Hn as (? & Ho%require_Ok & [= <-]).
  pose proof (length_mapM_Ok _ _ _ Hp) as Hl. rewrite length_fmap.
  split_and!; [done|lia|]. exists parsed. split_and!; [done| |].
  - apply mapM_Ok in Hp. clear -Hp. induction Hp as [|v u l us Hv _ IH]; constructor; [|done].
    by apply check_rpc_url_Ok in Hv as [_ ?].
  - intros E. rewrite E in Ho. by apply all_distinct_spec.
Qed.

End rpc_theorems.

Lemma parse_nonce_Ok raw n : parse_nonce raw = Ok n → 0 <= n <= MAX_SAFE_INTEGER.
Proof.
  unfold parse_nonce, safe_integer. intros Hp. apply bind_Ok in Hp as (? & _ & Hp).
  apply bind_Ok in Hp as (z & _ & Hp). apply bind_Ok in Hp as (? & Hr%require_Ok & [= <-]).
  reflect_bool_hyps. lia.
Qed.

(** A nonce is used only when every provider, and at least one, reports it. *)
Lemma pendingNonceConsensus_Ok answers n :
  pendingNonceConsensus answers = Ok n →
  answers ≠ [] ∧ 0 <= n <= MAX_SAFE_INTEGER ∧
  Forall (λ answer, ∃ raw, answer = Ok raw ∧ parse_nonce raw = Ok n) answers.
Proof.
  unfold pendingNonceConsensus. intros Hn. apply bind_Ok in Hn as (values & Hv & Hn).
  destruct values as [|v values]; [done|]. apply bind_Ok in Hn as (? & Hall%require_Ok & [= ->]).
  apply mapM_Ok in Hv. rewrite forallb_forall in Hall.
  assert (Forall (λ m, m = n) (n :: values)) as Heq.
  { apply Forall_forall. intros m Hm%list_elem_of_In. symmetry. by apply Z.eqb_eq, Hall. }
  assert (Forall (λ answer, ∃ raw, answer = Ok raw ∧ parse_nonce raw = Ok n) answers) as HF.
  { revert Heq Hv. generalize (n :: values). clear. intros vs Heq Hv.
    induction Hv as [|a m answers vs Ha Hv IH]; [constructor|].
    apply Forall_cons in Heq as [-> Heq]. constructor; [|by apply IH].
    apply bind_Ok in Ha as (raw & -> & Ha). by exists raw. }
  split_and!; [|destruct HF as [|a ? (raw & _ & Hr)]; [by inversion Hv|]; by eapply parse_nonce_Ok..|done].
  by intros ->; inversion Hv.
Qed.
