(* ===== verification/Compact.v ===== *)
(** * The compact protocol ([compact-protocol.mjs])

    The compact coordinator stores only a commitment to a request; its 27 fields
    travel in events as a witness.  This file models the normal form of a witness,
    its commitment, the life of a request, and the reads of at least two RPC
    endpoints at one block that authenticate a witness, recover a request from its
    history, and prepare a transaction.  The answer of an endpoint depends on the
    number of the call; calls that the code makes together follow each other here. *)

From S2P Require Import Prelude Js Hex CanonicalJson JsonText Vendor Policies.

Open Scope Z_scope.

(** ** Witnesses *)

Definition COMPACT_FIELDS : list (string * string) :=
  [("address", "consumer"); ("address", "verifier"); ("bytes32", "verifierCodeHash");
   ("address", "fulfiller"); ("address", "payee"); ("bytes32", "keyHash");
   ("uint256", "subscriptionId"); ("uint256", "preSeed"); ("uint256", "reservedPayment");
   ("uint256", "randomness"); ("uint96", "minimumFeeWei"); ("uint64", "requestBlock");
   ("uint64", "expiresAtBlock"); ("uint64", "maxGasPriceWei"); ("uint32", "verificationGasLimit");
   ("uint32", "proofDataLength"); ("uint32", "callbackGasLimit"); ("uint32", "numWords");
   ("uint32", "callbackAttempts"); ("uint32", "fulfillmentOverheadGas"); ("uint16", "confirmations");
   ("uint16", "premiumBps"); ("uint16", "operatorPremiumShareBps"); ("uint8", "status");
   ("bool", "sponsored"); ("bool", "waiveMinimumFee"); ("bool", "callbackSucceeded")].
Definition COMPACT_REQUEST_TYPE : string :=
  "tuple(" +:+ join "," ((λ f, f.1 +:+ " " +:+ f.2) <$> COMPACT_FIELDS) +:+ ")".
Definition mutable : list string :=
  ["status"; "randomness"; "callbackAttempts"; "callbackSucceeded"].

(** [BigInt(type.slice(4))] *)
Definition uint_bits (type : string) : Z :=
  default 0 (string_to_bigint (of_chars (drop 4 (chars type)))).

Section witnesses.
Context `{Ethers}.

Definition normalizeField (type name : string) (input : value) : result value :=
  if decide (type = "address") then
    a ← from_option_or TYPE_ERROR (as_string input ≫= getAddress); Ok (VStr (lower a))
  else if decide (type = "bytes32") then
    match input with
    | VStr s => _ ← require (hex_string 64 s) ("invalid " +:+ name); Ok (VStr (lower s))
    | _ => Throw ("invalid " +:+ name)
    end
  else if decide (type = "bool") then
    match input with VBool b => Ok (VBool b) | _ => Throw ("invalid " +:+ name) end
  else
    _ ← require (match input with VBig _ | VStr _ => true | v => is_safe_integer v end
                 && canonical_decimal (to_str input)) ("invalid " +:+ name);
    result ← to_bigint input;
    _ ← require (result <? Z.shiftl 1 (uint_bits type)) ("out of range " +:+ name);
    Ok (VBig result).

(** The normal form of a witness: an object with the 27 fields, in order. *)
Definition normalizeCompactWitness (v : value) : result value :=
  match v with
  | VObj fs =>
      _ ← require (bool_decide (join "," (js_sort (keys fs)) = join "," (js_sort (COMPACT_FIELDS.*2))))
            "compact witness must contain exactly 27 named fields";
      entries ← mapM (λ f : string * string,
        x ← normalizeField f.1 f.2 (prop_opt v f.2); Ok (f.2, x)) COMPACT_FIELDS;
      Ok (VObj entries)
  | _ => Throw "compact witness must contain exactly 27 named fields"
  end.

Definition object_fields (v : value) : list (string * value) :=
  match v with VObj fs => fs | _ => [] end.
(** A bigint as its text. *)
Definition serialize_leaf (v : value) : value :=
  match v with VBig z => VStr (print_int z) | v => v end.
Definition serializeCompactWitness (v : value) : result value :=
  w ← normalizeCompactWitness v;
  Ok (VObj ((λ kv, (kv.1, serialize_leaf kv.2)) <$> object_fields w)).
Definition fingerprint (v : value) : result string :=
  s ← serializeCompactWitness v; Ok (stringify_fields (object_fields s)).

Definition compactRequestId (v : value) : result Z :=
  w ← normalizeCompactWitness v;
  to_bigint (VStr (keccak256 (abi_encode ["uint256"] [prop_opt w "preSeed"]))).

(** [id("ROBINHOOD_VRF_COMPACT_REQUEST_V3")] *)
Definition DOMAIN : string := keccak256 (toUtf8Bytes "ROBINHOOD_VRF_COMPACT_REQUEST_V3").
Definition compactCommitment (v chainId : value) (coordinatorAddress : string) : result string :=
  w ← normalizeCompactWitness v;
  Ok (keccak256 (abi_encode ["bytes32"; "uint256"; "address"; COMPACT_REQUEST_TYPE]
                   [VStr DOMAIN; chainId; VStr coordinatorAddress; w])).

(** ** The life of a request *)

Definition is_big (v : value) (z : Z) : bool := strict_eq v (VBig z).
Definition big_of (v : value) : Z := match v with VBig z => z | _ => 0 end.
Definition status (w : value) : value := prop_opt w "status".
Definition randomness (w : value) : value := prop_opt w "randomness".
Definition callbackAttempts (w : value) : value := prop_opt w "callbackAttempts".
Definition callbackSucceeded (w : value) : bool := truthy (prop_opt w "callbackSucceeded").

Definition created (w : value) : bool :=
  is_big (status w) 1 && is_big (randomness w) 0 && is_big (callbackAttempts w) 0
  && negb (callbackSucceeded w).
Definition same_immutable (first next : value) : bool :=
  forallb (λ f : string * string,
    bool_decide (f.2 ∈ mutable) || strict_eq (prop_opt next f.2) (prop_opt first f.2)) COMPACT_FIELDS.
Definition fulfilled (previous next : value) : bool :=
  is_big (status previous) 1 && is_big (status next) 2 && is_big (callbackAttempts next) 1.
Definition expired (previous next : value) : bool :=
  is_big (status previous) 1 && is_big (status next) 3 && is_big (callbackAttempts next) 0
  && is_big (randomness next) 0 && negb (callbackSucceeded next).
Definition retried (previous next : value) : bool :=
  is_big (status previous) 2 && negb (callbackSucceeded previous) && is_big (status next) 2
  && strict_eq (randomness next) (randomness previous)
  && is_big (callbackAttempts next) (big_of (callbackAttempts previous) + 1).

(** The loop over the transitions; its result is the last state. *)
Fixpoint check_transitions (first previous : value) (states : list value) : result value :=
  match states with
  | [] => Ok previous
  | next :: states =>
      _ ← require (same_immutable first next) "compact transition changed immutable fields";
      _ ← require (fulfilled previous next || expired previous next || retried previous next)
            "missing or invalid compact state transition";
      check_transitions first next states
  end.
Definition validateCompactTransitions (values : list value) : result value :=
  states ← mapM normalizeCompactWitness values;
  match states with
  | [] => Throw "missing compact request creation event"
  | first :: states =>
      _ ← require (created first) "missing or invalid compact request creation event";
      check_transitions first first states
  end.
End witnesses.

(** ** Endpoints *)

(** ethers: the contract interface, and the texts of quantities. *)
Record parsed_log := { l_keyHash : string; l_requestId : Z; l_consumer : string; l_request : value }.
Class CompactInterface := {
  encodeFunctionData : string → list value → result string;
  decodeFunctionResult : string → value → result value;    (* the first output *)
  parseLog : value → result parsed_log;
  encodeEventLog : string → Z → string → value → result (string * list string);   (* data, topics *)
  topicHash : string;
  toQuantity : Z → string;
  toBeHex32 : value → result string
}.
(** [p.send(method, params)], where [p] is named by its URL. *)
Class RpcSend := { rpc_send : nat → string → string → list value → result value }.

Record anchor := { a_number : Z; a_tag : string; a_hash : value }.
Record compact_prover := { cp_mode : value; cp_prove : nat → value → result value }.
Record compact_options := {
  co_providers : option (list string); co_rpcUrls : value; co_allowSharedOrigin : bool;
  co_chainId : value; co_coordinatorAddress : string; co_requestId : value; co_keyHash : value;
  co_includeSeed : bool; co_witness : value; co_fromBlock : value;
  co_action : option string; co_proofProvider : option compact_prover; co_from : string;
  co_gasPriceWei : value; co_gasLimit : value
}.
(** [{ ...options, rpcUrls: undefined, providers, includeSeed }] *)
Definition scoped (o : compact_options) (providers : list string) (includeSeed : bool) : compact_options :=
  {| co_providers := Some providers; co_rpcUrls := VUndef;
     co_allowSharedOrigin := co_allowSharedOrigin o; co_chainId := co_chainId o;
     co_coordinatorAddress := co_coordinatorAddress o; co_requestId := co_requestId o;
     co_keyHash := co_keyHash o; co_includeSeed := includeSeed; co_witness := co_witness o;
     co_fromBlock := co_fromBlock o; co_action := co_action o; co_proofProvider := co_proofProvider o;
     co_from := co_from o; co_gasPriceWei := co_gasPriceWei o; co_gasLimit := co_gasLimit o |}.
(** [{ ...options, witness }] *)
Definition with_witness (o : compact_options) (w : value) : compact_options :=
  {| co_providers := co_providers o; co_rpcUrls := co_rpcUrls o;
     co_allowSharedOrigin := co_allowSharedOrigin o; co_chainId := co_chainId o;
     co_coordinatorAddress := co_coordinatorAddress o; co_requestId := co_requestId o;
     co_keyHash := co_keyHash o; co_includeSeed := co_includeSeed o; co_witness := w;
     co_fromBlock := co_fromBlock o; co_action := co_action o; co_proofProvider := co_proofProvider o;
     co_from := co_from o; co_gasPriceWei := co_gasPriceWei o; co_gasLimit := co_gasLimit o |}.

Record compact_state := {
  st_request : value; st_requestId : Z; st_commitment : string; st_actualSeed : value; st_anchor : anchor
}.
Record compact_event := {
  e_block : Z; e_index : Z; e_blockHash : value; e_transactionHash : value; e_witness : value
}.

(** [v ?? default] *)
Definition coalesce (v default : value) : value :=
  match v with VUndef | VNull => default | v => v end.
(** [Math.min(...l)], for a list that is not empty. *)
Definition js_min (l : list Z) : Z := match l with [] => 0 | x :: l => foldl Z.min x l end.
(** The elements of a value in a [for] loop; the characters of a text are not
    objects with fields, and the loops here throw on the first. *)
Definition iterate (v : value) : result (list value) :=
  match v with
  | VArr l => Ok l
  | VStr s => if decide (s = "") then Ok [] else Throw TYPE_ERROR
  | _ => Throw TYPE_ERROR
  end.

Section compact.
Context `{Ethers, UrlApi, CompactInterface, RpcSend}.

Definition send (p method : string) (params : list value) : eff nat value :=
  λ n, (rpc_send n p method params, S n).

Definition withProviders {A} (o : compact_options) (run : list string → eff nat A) : eff nat A :=
  _ ← eff_require (negb (bool_decide (is_Some (co_providers o)) && truthy (co_rpcUrls o)))
        "supply providers OR rpcUrls";
  providers ← eff_lift
    match co_providers o with
    | Some l => Ok l
    | None => normalizeRpcUrls (co_rpcUrls o)
        {| minimum := 2; label := "compact protocol"; allowSharedOrigin := co_allowSharedOrigin o |}
    end;
  _ ← eff_require ((2 <=? Z.of_nat (length providers)) && all_distinct providers)
        "compact protocol requires two distinct providers";
  run providers.

Definition readHead (chainId : value) (p : string) : eff nat Z :=
  chain ← send p "eth_chainId" [];
  chain ← eff_lift (to_bigint chain);
  expected ← eff_lift (to_bigint chainId);
  _ ← eff_require (chain =? expected) "compact RPC chainId mismatch";
  height ← send p "eth_blockNumber" [];
  height ← eff_lift (to_bigint height);
  _ ← eff_require (safe_integer height && (0 <=? height)) "invalid compact RPC height";
  mret height.
Definition readBlock (tag p : string) : eff nat value :=
  send p "eth_getBlockByNumber" [VStr tag; VBool false].
(** The check of one block against the hash of the first. *)
Definition check_anchor_block (number : Z) (hash b : value) : result unit :=
  _ ← require (strict_eq (prop_opt b "hash") hash) "compact RPC anchor disagreement";
  n ← to_bigint (prop_opt b "number");
  require (n =? number) "compact RPC anchor disagreement".
Definition anchorFor (providers : list string) (chainId : value) : eff nat anchor :=
  heads ← mapM (readHead chainId) providers;
  let number := js_min heads in
  let tag := toQuantity number in
  blocks ← mapM (readBlock tag) providers;
  let hash := prop_opt (default VUndef (head blocks)) "hash" in
  _ ← eff_require (hex_string 64 (to_str (coalesce hash (VStr "")))) "compact RPC anchor disagreement";
  _ ← eff_lift (forM_ (check_anchor_block number hash) blocks);
  mret {| a_number := number; a_tag := tag; a_hash := hash |}.
Definition assertAnchor (providers : list string) (a : anchor) : eff nat unit :=
  blocks ← mapM (readBlock (a_tag a)) providers;
  eff_require (forallb (λ b, strict_eq (prop_opt b "hash") (a_hash a)) blocks)
    "compact anchor changed during read; retry after reorg".

Definition view (address : string) (a : anchor) (method : string) (args : list value) (p : string)
    : eff nat value :=
  data ← eff_lift (encodeFunctionData method args);
  raw ← send p "eth_call" [VObj [("to", VStr address); ("data", VStr data)]; VStr (a_tag a)];
  eff_lift (decodeFunctionResult method raw).

Definition readSeed (providers : list string) (o : compact_options) (a : anchor) (request : value)
    : eff nat value :=
  if co_includeSeed o then
    _ ← eff_require (is_big (status request) 1) "compact request is not pending";
    seeds ← mapM (view (co_coordinatorAddress o) a "requestSeed" [request]) providers;
    let actualSeed := default VUndef (head seeds) in
    _ ← eff_require (forallb (λ v, strict_eq v actualSeed) seeds) "compact canonical seed disagreement";
    mret actualSeed
  else mret VUndef.
Definition authenticatedState (providers : list string) (o : compact_options) (a : anchor) (witness : value)
    : eff nat compact_state :=
  request ← eff_lift (normalizeCompactWitness witness);
  requestId ← eff_lift (compactRequestId request);
  expected ← eff_lift (to_bigint (co_requestId o));
  _ ← eff_require (requestId =? expected) "compact requestId mismatch";
  _ ← (if truthy (co_keyHash o) then
         keyHash ← eff_lift (to_lower (co_keyHash o));
         eff_require (strict_eq (prop_opt request "keyHash") (VStr keyHash)) "compact prover key mismatch"
       else mret tt);
  commitment ← eff_lift (compactCommitment request (co_chainId o) (co_coordinatorAddress o));
  committed ← mapM (view (co_coordinatorAddress o) a "commitments" [VBig requestId]) providers;
  _ ← eff_require (forallb (λ v, strict_eq v (VStr commitment)) committed)
        "compact commitment mismatch: stale/missing witness, pruned request or RPC disagreement";
  actualSeed ← readSeed providers o a request;
  mret {| st_request := request; st_requestId := requestId; st_commitment := commitment;
          st_actualSeed := actualSeed; st_anchor := a |}.

Definition verifyCompactWitnessConsensus (o : compact_options) : eff nat compact_state :=
  withProviders o (λ providers,
    a ← anchorFor providers (co_chainId o);
    result ← authenticatedState providers o a (co_witness o);
    _ ← assertAnchor providers a;
    mret result).

(** ** Recovery from the history of events *)

Definition SCAN_RANGE : Z := 2000.
(** The [from] of the windows of the scan. *)
Definition window_starts (start last : Z) : list Z :=
  (λ i, start + i * SCAN_RANGE) <$> seqZ 0 ((last - start) / SCAN_RANGE + 1).

Definition big_prop (v : value) (k : string) : result Z := x ← prop v k; to_bigint x.

Definition readLog (o : compact_options) (from upto : Z) (log : value) : result compact_event :=
  block ← big_prop log "blockNumber";
  index ← big_prop log "logIndex";
  address ← (if truthy (prop_opt log "removed") then Throw "invalid compact event location"
             else to_lower (prop_opt log "address"));
  coordinator ← from_option_or TYPE_ERROR (getAddress (co_coordinatorAddress o));
  _ ← require (bool_decide (address = lower coordinator) && (from <=? block) && (block <=? upto)
               && safe_integer block && safe_integer index && (0 <=? index))
        "invalid compact event location";
  parsed ← parseLog log;
  witness ← normalizeCompactWitness (l_request parsed);
  requestId ← to_bigint (co_requestId o);
  id ← compactRequestId witness;
  _ ← require ((l_requestId parsed =? requestId) && (id =? requestId)
               && strict_eq (VStr (lower (l_consumer parsed))) (prop_opt witness "consumer")
               && strict_eq (VStr (lower (l_keyHash parsed))) (prop_opt witness "keyHash"))
        "compact event identity mismatch";
  '(data, topics) ← encodeEventLog (l_keyHash parsed) (l_requestId parsed) (l_consumer parsed) witness;
  _ ← require (strict_eq (VStr data) (prop_opt log "data")
               && bool_decide (prop_opt log "topics" = VArr (VStr <$> topics)))
        "noncanonical compact event";
  Ok {| e_block := block; e_index := index; e_blockHash := prop_opt log "blockHash";
        e_transactionHash := prop_opt log "transactionHash"; e_witness := witness |}.

Definition readWindow (o : compact_options) (last : Z) (p : string) (from : Z) : eff nat (list compact_event) :=
  let upto := Z.min (from + (SCAN_RANGE - 1)) last in
  topic ← eff_lift (toBeHex32 (co_requestId o));
  logs ← send p "eth_getLogs" [VObj
    [("address", VStr (co_coordinatorAddress o)); ("fromBlock", VStr (toQuantity from));
     ("toBlock", VStr (toQuantity upto));
     ("topics", VArr [VStr topicHash; VNull; VStr topic])]];
  logs ← eff_lift (iterate logs);
  eff_lift (mapM (readLog o from upto) logs).

(** The order of the chain: by block, then by index. *)
Definition event_le (a b : compact_event) : Prop :=
  e_block a < e_block b ∨ (e_block a = e_block b ∧ e_index a <= e_index b).
#[global] Instance event_le_dec a b : Decision (event_le a b).
Proof. unfold event_le. apply _. Defined.
Fixpoint duplicate_events (events : list compact_event) : bool :=
  match events with
  | a :: (b :: _) as rest => ((e_block b =? e_block a) && (e_index b =? e_index a)) || duplicate_events rest
  | _ => false
  end.

Definition readHistory (o : compact_options) (start last : Z) (p : string) : eff nat (list compact_event) :=
  windows ← mapM (readWindow o last p) (window_starts start last);
  let events := merge_sort event_le (concat windows) in
  _ ← eff_require (negb (duplicate_events events)) "duplicate compact event";
  _ ← eff_lift (validateCompactTransitions (e_witness <$> events));
  mret events.

(** What the text of an event tells: its fields, and the fingerprint of its witness. *)
Definition describe_event (e : compact_event) : result (Z * Z * value * value * string) :=
  f ← fingerprint (e_witness e);
  Ok (e_block e, e_index e, e_blockHash e, e_transactionHash e, f).
Definition describe (events : list compact_event) : result (list (Z * Z * value * value * string)) :=
  mapM describe_event events.

Definition recover (providers : list string) (o : compact_options) : eff nat (compact_state * Z) :=
  a ← anchorFor providers (co_chainId o);
  start ← eff_lift (match co_fromBlock o with
                    | VNum start =>
                        _ ← require (safe_integer start && (0 <=? start) && (start <=? a_number a))
                              "invalid compact deployment/fromBlock";
                        Ok start
                    | _ => Throw "invalid compact deployment/fromBlock"
                    end);
  histories ← mapM (readHistory o start (a_number a)) providers;
  descriptions ← eff_lift (mapM describe histories);
  _ ← eff_require (forallb (λ d, bool_decide (Some d = head descriptions)) descriptions)
        "compact event history disagreement";
  let history := default [] (head histories) in
  final ← eff_lift (from_option_or TYPE_ERROR (e_witness <$> last history));
  result ← authenticatedState providers o a final;
  _ ← assertAnchor providers a;
  mret (result, Z.of_nat (length history)).
Definition recoverCompactRequest (o : compact_options) : eff nat (compact_state * Z) :=
  withProviders o (λ providers, recover providers o).

(** ** Preparing a transaction *)

Record compact_transaction := {
  ct_to : string; ct_from : string; ct_data : string; ct_gasPrice : Z; ct_gasLimit : Z; ct_chainId : Z
}.
Record prepared := { pr_transaction : compact_transaction; pr_snapshot : compact_state; pr_simulation : value }.

Definition COMPACT_ACTIONS : list string :=
  ["fulfillRandomWords"; "retryCallback"; "expireRequest"; "pruneRequest"].
Definition COMPACT_PROOF_TYPE : string :=
  "tuple(uint256[2] pk,uint256[2] gamma,uint256 c,uint256 s,uint256 seed,address uWitness,uint256[2] cGammaWitness,uint256[2] sHashWitness,uint256 zInv)".
Definition checksum (a : string) : result string := from_option_or TYPE_ERROR (getAddress a).

(** The proof of a fulfilment, asked for by the pinned fulfiller alone. *)
Definition proveCompact (o : compact_options) (st : compact_state) : eff nat value :=
  _ ← eff_require (negb (match co_proofProvider o with
                         | Some p => strict_eq (cp_mode p) (VStr "threshold-bls") | None => false end))
        "compact remote threshold nodes require a witness-aware resolver; not integrated";
  from ← eff_lift (checksum (co_from o));
  _ ← eff_require (strict_eq (VStr (lower from)) (prop_opt (st_request st) "fulfiller"))
        "compact sender is not the pinned fulfiller";
  p ← eff_lift (from_option_or TYPE_ERROR (co_proofProvider o));
  witness ← eff_lift (serializeCompactWitness (st_request st));
  result ← (λ n, (cp_prove p n (VObj
    [("actualSeed", st_actualSeed st); ("preSeed", prop_opt (st_request st) "preSeed");
     ("requestId", VBig (st_requestId st)); ("coordinator", VStr (co_coordinatorAddress o));
     ("chainId", co_chainId o); ("compactWitness", witness)]), S n) : result value * nat);
  proofData ← eff_lift (prop result "proofData");
  mret (coalesce proofData (VStr (hexlify (abi_encode [COMPACT_PROOF_TYPE] [prop_opt result "proof"])))).

Definition simulate (t : compact_transaction) (a : anchor) (p : string) : eff nat value :=
  send p "eth_call" [VObj [("to", VStr (ct_to t)); ("from", VStr (ct_from t)); ("data", VStr (ct_data t));
                           ("gasPrice", VStr (toQuantity (ct_gasPrice t)));
                           ("gas", VStr (toQuantity (ct_gasLimit t)))]; VStr (a_tag a)].

Definition prepareCompactTransaction (o : compact_options) : eff nat prepared :=
  let action := default "fulfillRandomWords" (co_action o) in
  let fulfils := bool_decide (action = "fulfillRandomWords") in
  _ ← eff_require (bool_decide (action ∈ COMPACT_ACTIONS)) "unsupported compact action";
  withProviders o (λ providers,
    let o := scoped o providers fulfils in
    '(recovered, _) ← recoverCompactRequest o;
    proofData ← (if fulfils then proveCompact o recovered else mret VUndef);
    gasPrice ← eff_lift (to_bigint (co_gasPriceWei o));
    gasLimit ← eff_lift (to_bigint (coalesce (co_gasLimit o) (VNum 3000000)));
    _ ← eff_require ((0 <? gasPrice) && (0 <? gasLimit)
          && negb (fulfils && (big_of (prop_opt (st_request recovered) "maxGasPriceWei") <? gasPrice)))
          "invalid compact transaction gas bounds";
    fresh ← verifyCompactWitnessConsensus (with_witness o (st_request recovered));
    data ← eff_lift (encodeFunctionData action (st_request fresh :: if fulfils then [proofData] else []));
    to ← eff_lift (checksum (co_coordinatorAddress o));
    from ← eff_lift (checksum (co_from o));
    chainId ← eff_lift (to_bigint (co_chainId o));
    let t := {| ct_to := to; ct_from := from; ct_data := data; ct_gasPrice := gasPrice;
                ct_gasLimit := gasLimit; ct_chainId := chainId |} in
    simulations ← mapM (simulate t (st_anchor fresh)) providers;
    let simulation := default VUndef (head simulations) in
    _ ← eff_require (forallb (λ v, strict_eq v simulation) simulations) "compact simulation disagreement";
    _ ← assertAnchor providers (st_anchor fresh);
    mret {| pr_transaction := t; pr_snapshot := fresh; pr_simulation := simulation |}).
End compact.
