(* ===== verification/CompactSafety.v ===== *)
(** * What the compact protocol guarantees ([compact-protocol.mjs])

    A witness has one normal form, which its serialization gives back; a history
    of events is a run of the machine that a request is; a state that is recovered
    or verified was committed to, at one block, by every endpoint. *)

From S2P Require Import Prelude Js Hex CanonicalJson Json JsonText Vendor Policies Compact Samples.

Open Scope Z_scope.

(** ** Decimal numerals *)

Lemma canonical_print z : 0 <= z → canonical_decimal (print_int z) = true.
Proof.
  intros Hz. unfold print_int. rewrite (proj2 (Z.ltb_ge z 0)) by done.
  destruct (print_base_head z Hz) as (c & l & E & Hc). pose proof (print_base_digits z Hz) as Hd.
  unfold canonical_decimal. rewrite E in *. rewrite Hd. cbn [andb].
  destruct (Ascii.eqb_spec c "0"%char) as [->|]; [|done]. cbn. by rewrite (Hc eq_refl).
Qed.
Lemma canonical_nonneg s z : canonical_decimal s = true → string_to_bigint s = Some z → 0 <= z.
Proof.
  unfold canonical_decimal. destruct (chars s) as [|c l] eqn:E; [done|].
  intros [Hd Hc]%andb_true_iff. unfold string_to_bigint. rewrite trim_id.
  2: { rewrite E. apply forallb_Forall in Hd. eapply Forall_impl; [exact Hd|]. intros d Hd'.
       apply numeral_char_not_space. unfold numeral_char. cbn in Hd'. by rewrite Hd'. }
  rewrite E. cbn in Hd. apply andb_true_iff in Hd as [Hd _].
  destruct c as [[] [] [] [] [] [] [] []]; try discriminate Hd;
    try (intros Hz; exact (parse_digits_nonneg 10 _ _ ltac:(lia) Hz)).
  cbn in Hc. apply bool_decide_eq_true in Hc as ->. intros [= <-]. done.
Qed.

(** ** The normal form *)

Lemma hex_string_lower n s : hex_string n s = true → hex_string n (lower s) = true.
Proof.
  unfold hex_string, lower. rewrite chars_of_chars. destruct (chars s) as [|z [|x l]]; cbn; try done.
  - destruct z as [[] [] [] [] [] [] [] []]; done.
  - intros Hs. assert (z = "0"%char) as -> by by destruct z as [[] [] [] [] [] [] [] []].
    apply andb_true_iff in Hs as [[Hx Hl]%andb_true_iff Hn]. change (lower_char "0"%char) with "0"%char.
    cbn. rewrite length_fmap, forallb_lower, Hl, Hn, !andb_true_r. revert Hx. by_all_chars x.
Qed.

(** The values of a field in normal form, by its type. *)
Definition well_typed `{Ethers} (type : string) (x : value) : Prop :=
  if decide (type = "address") then ∃ a b, getAddress a = Some b ∧ x = VStr (lower b)
  else if decide (type = "bytes32") then ∃ s, hex_string 64 s = true ∧ lower s = s ∧ x = VStr s
  else if decide (type = "bool") then ∃ b, x = VBool b
  else ∃ z, 0 <= z < 2 ^ uint_bits type ∧ x = VBig z.

Section normal.
Context `{EthersLaws}.

Lemma shiftl_1 n : 0 <= n → Z.shiftl 1 n = 2 ^ n.
Proof. intros. by rewrite Z.shiftl_mul_pow2, Z.mul_1_l. Qed.

(** A normalized field is well typed; it, and its text, are normalized to it. *)
Lemma normalizeField_Ok type name input x :
  0 <= uint_bits type → normalizeField type name input = Ok x → well_typed type x.
Proof.
  intros Hbits. unfold normalizeField, well_typed. repeat case_decide.
  - intros Hn. apply bind_Ok in Hn as (a & Ha%from_option_or_Ok & [= <-]). destruct input; try done. cbn in Ha. eauto.
  - destruct input as [| | | | | |s| |]; try done. intros Hn. inv_ok.
    exists (lower s). split; [by apply hex_string_lower|]. by rewrite lower_idem.
  - destruct input; try done. intros [= <-]. eauto.
  - intros Hn. apply bind_Ok in Hn as (? & [Ht Hc]%require_Ok%andb_true_iff & Hn).
    apply bind_Ok in Hn as (z & Hz & Hn). apply bind_Ok in Hn as (? & Hlt%require_Ok%Z.ltb_lt & [= <-]).
    rewrite shiftl_1 in Hlt by done. exists z. split; [|done]. split; [|done].
    destruct input as [| | |n| |n|s| |]; try done; cbn in Hz, Hc.
    + injection Hz as ->. apply (canonical_nonneg _ _ Hc), string_to_bigint_print_int.
    + injection Hz as ->. apply (canonical_nonneg _ _ Hc), string_to_bigint_print_int.
    + apply from_option_or_Ok in Hz. by apply (canonical_nonneg _ _ Hc).
Qed.
Lemma normalizeField_typed type name x :
  0 <= uint_bits type → well_typed type x →
  normalizeField type name x = Ok x ∧ normalizeField type name (serialize_leaf x) = Ok x.
Proof.
  intros Hbits. unfold normalizeField, well_typed. repeat case_decide.
  - intros (a & b & Ha & ->). cbn. rewrite (getAddress_lower _ _ Ha). done.
  - intros (s & Hs & Hl & ->). cbn. rewrite Hs. cbn. by rewrite Hl.
  - by intros [b ->].
  - intros (z & [Hz Hlt] & ->). cbn. rewrite canonical_print by done. cbn.
    rewrite string_to_bigint_print_int. cbn. by rewrite shiftl_1, (proj2 (Z.ltb_lt z _)) by done.
Qed.

(** An object of computed entries has them under their names. *)
Lemma mapM_entries (g : string * string → result value) l es :
  NoDup (l.*2) →
  mapM (λ f : string * string, x ← g f; Ok (f.2, x)) l = Ok es ↔
  es.*1 = l.*2 ∧ Forall (λ f, g f = Ok (prop_opt (VObj es) f.2)) l.
Proof.
  rewrite mapM_Ok. intros Hnd. split.
  - intros Hes. assert (es.*1 = l.*2) as Hk.
    { clear Hnd. induction Hes as [|f e l es Hf _ IH]; [done|]. apply bind_Ok in Hf as (x & _ & [= <-]).
      cbn. by rewrite IH. }
    split; [done|]. revert Hnd Hk. induction Hes as [|f e l es Hf Hes IH]; intros Hnd Hk; [constructor|].
    apply bind_Ok in Hf as (x & Hx & [= <-]). cbn in Hnd, Hk. injection Hk as Hk. inversion_clear Hnd as [|?? Hf Hnd'].
    constructor; [cbn; by rewrite decide_True|]. apply Forall_forall. intros f' Hf'.
    pose proof (IH Hnd' Hk) as IH'. rewrite Forall_forall in IH'. rewrite (IH' f' Hf'). f_equal. cbn.
    rewrite decide_False; [done|]. intros E. apply Hf. rewrite <-E. by apply list_elem_of_fmap_2.
  - intros [Hk Hall]. revert es Hk Hnd Hall. induction l as [|f l IH]; intros [|[k x] es] Hk Hnd Hall; try done.
    cbn in Hk, Hnd. injection Hk as -> Hk. inversion_clear Hnd as [|?? Hf Hnd']. apply Forall_cons in Hall as [Hx Hall].
    constructor.
    + rewrite Hx. cbn. by rewrite decide_True.
    + apply (IH es Hk Hnd'). rewrite Forall_forall in Hall |- *. intros f' Hf'. rewrite (Hall f' Hf'). f_equal. cbn.
      rewrite decide_False; [done|]. intros E. apply Hf. rewrite <-E. by apply list_elem_of_fmap_2.
Qed.

Lemma compact_names : NoDup (COMPACT_FIELDS.*2).
Proof. apply (bool_decide_eq_true_1 _). vm_refl. Qed.
Lemma compact_bits : Forall (λ f : string * string, 0 <= uint_bits f.1) COMPACT_FIELDS.
Proof. apply (bool_decide_eq_true_1 _). vm_refl. Qed.

(** A witness in normal form. *)
Definition normal_witness (w : value) : Prop :=
  ∃ es, w = VObj es ∧ es.*1 = COMPACT_FIELDS.*2 ∧
        Forall (λ f : string * string, well_typed f.1 (prop_opt w f.2)) COMPACT_FIELDS.

Lemma normalize_normal v w : normalizeCompactWitness v = Ok w → normal_witness w.
Proof.
  unfold normalizeCompactWitness. destruct v as [| | | | | | | |fs]; try done. intros Hn.
  apply bind_Ok in Hn as (? & _ & Hn). apply bind_Ok in Hn as (es & Hes & [= <-]).
  apply (mapM_entries (λ f, normalizeField f.1 f.2 (prop_opt (VObj fs) f.2))) in Hes as [Hk Hall];
    [|apply compact_names].
  eexists. split_and!; [done..|]. rewrite Forall_forall in Hall |- *. intros f Hf. 
  eapply normalizeField_Ok; [|by apply Hall]. pose proof compact_bits as Hb. rewrite Forall_forall in Hb. by apply Hb.
Qed.
(** Any object with the fields of a normal form, each as it is or as its text, has
    that normal form. *)
Lemma normal_normalize w fs :
  normal_witness w → keys fs = COMPACT_FIELDS.*2 →
  (∀ f, f ∈ COMPACT_FIELDS → prop_opt (VObj fs) f.2 = prop_opt w f.2 ∨
                              prop_opt (VObj fs) f.2 = serialize_leaf (prop_opt w f.2)) →
  normalizeCompactWitness (VObj fs) = Ok w.
Proof.
  intros (es & -> & Hk & Hall) Hkeys Hfs. unfold normalizeCompactWitness. rewrite Hkeys, bool_decide_true by done.
  cbn [require mbind result_bind].
  assert (mapM (λ f : string * string, x ← normalizeField f.1 f.2 (prop_opt (VObj fs) f.2); Ok (f.2, x))
            COMPACT_FIELDS = Ok es) as ->; [|done].
  apply (mapM_entries (λ f, normalizeField f.1 f.2 (prop_opt (VObj fs) f.2))); [apply compact_names|].
  split; [done|]. rewrite Forall_forall in Hall |- *. intros f Hf. specialize (Hall f Hf).
  pose proof compact_bits as Hb. rewrite Forall_forall in Hb.
  destruct (normalizeField_typed f.1 f.2 _ (Hb f Hf) Hall). by destruct (Hfs f Hf) as [->| ->].
Qed.

Lemma normalize_idem w : normal_witness w → normalizeCompactWitness w = Ok w.
Proof. intros Hw. pose proof Hw as (es & -> & Hk & _). apply normal_normalize; [done..|]. auto. Qed.

Lemma assoc_fmap {A B} (g : A → B) k fs : assoc k ((λ kv : string * A, (kv.1, g kv.2)) <$> fs) = g <$> assoc k fs.
Proof. induction fs as [|[k' x] fs IH]; cbn; [done|]. by case_decide. Qed.

Lemma serialize_normal v w :
  normalizeCompactWitness v = Ok w →
  ∃ s, serializeCompactWitness v = Ok s ∧ normalizeCompactWitness s = Ok w.
Proof.
  intros Hv. pose proof (normalize_normal _ _ Hv) as Hw. unfold serializeCompactWitness. rewrite Hv.
  cbn [mbind result_bind]. eexists. split; [done|]. pose proof Hw as (es & -> & Hk & _). cbn [object_fields].
  apply normal_normalize; [done| |].
  - unfold keys. rewrite <-list_fmap_compose. by rewrite <-Hk.
  - intros f _. right. cbn [prop_opt]. rewrite assoc_fmap. by destruct (assoc f.2 es).
Qed.

Lemma serialized_leaves v s : serializeCompactWitness v = Ok s → Forall (λ kv, leaf kv.2) (object_fields s).
Proof.
  intros Hs. apply bind_Ok in Hs as (w & (es & -> & Hk & Hall)%normalize_normal & [= <-]). cbn.
  apply Forall_fmap, Forall_forall. intros [k x] Hx. cbn.
  assert (k ∈ COMPACT_FIELDS.*2) as ([type k'] & -> & Hf)%list_elem_of_fmap
    by (rewrite <-Hk; by apply (list_elem_of_fmap_2 fst _ (k, x))).
  rewrite Forall_forall in Hall. specialize (Hall _ Hf). cbn in Hall.
  assert (assoc k' es = Some x) as Ha.
  { pose proof compact_names as Hnd. rewrite <-Hk in Hnd. clear -Hx Hnd.
    induction es as [|[k x'] es IH]; [by apply not_elem_of_nil in Hx|]. cbn in Hnd |- *. inversion_clear Hnd as [|?? Hn Hnd'].
    apply elem_of_cons in Hx as [[= <- <-]|Hx]; [by rewrite decide_True|]. rewrite decide_False; [by apply IH|].
    intros ->. apply Hn. by apply (list_elem_of_fmap_2 fst _ (k, x)). }
  rewrite Ha in Hall. cbn in Hall. unfold well_typed in Hall. repeat case_decide; naive_solver.
Qed.

Lemma fingerprint_inj v v' w t :
  normalizeCompactWitness v = Ok w → fingerprint v = Ok t → fingerprint v' = Ok t → normalizeCompactWitness v' = Ok w.
Proof.
  unfold fingerprint. intros Hv Ht Ht'. apply bind_Ok in Ht as (s & Hs & [= <-]). apply bind_Ok in Ht' as (s' & Hs' & E).
  assert (stringify_fields (object_fields s') = stringify_fields (object_fields s)) as E1 by congruence. clear E. rename E1 into E.
  apply stringify_fields_inj in E; [|by eapply serialized_leaves..].
  destruct (serialize_normal _ _ Hv) as (s1 & Hs1 & Hn). rewrite Hs in Hs1. injection Hs1 as <-.
  pose proof Hs' as Hs''. apply bind_Ok in Hs'' as (w' & Hv' & [= E']).
  destruct (serialize_normal _ _ Hv') as (s2 & Hs2 & Hn'). rewrite Hs' in Hs2. injection Hs2 as <-.
  assert (s' = s) as ->. { rewrite <-E'. rewrite <-E' in E. cbn in E. apply bind_Ok in Hs as (w1 & _ & [= <-]). by rewrite E. }
  congruence.
Qed.

(** A witness has one normal form: its 27 fields in order, each of its type and
    width.  The normal form is its own, it is that of the serialization that is
    stored and sent as JSON, and the fingerprint that histories are compared by
    determines it. *)
Theorem compact_witness_roundtrip v w :
  normalizeCompactWitness v = Ok w →
  normal_witness w ∧ normalizeCompactWitness w = Ok w ∧
  (∃ s, serializeCompactWitness v = Ok s ∧ normalizeCompactWitness s = Ok w) ∧
  (∃ t, fingerprint v = Ok t) ∧
  ∀ v', fingerprint v' = fingerprint v → normalizeCompactWitness v' = Ok w.
Proof.
  intros Hv. pose proof (normalize_normal _ _ Hv) as Hw. destruct (serialize_normal _ _ Hv) as (s & Hs & Hn).
  assert (fingerprint v = Ok (stringify_fields (object_fields s))) as Ht
    by (unfold fingerprint; rewrite Hs; exact eq_refl).
  split_and!; [done|by apply normalize_idem|by exists s|by eexists|].
  intros v' Ht'. rewrite Ht in Ht'. exact (fingerprint_inj v v' w _ Hv Ht Ht').
Qed.
End normal.

(** ** The machine that a request is *)

(** What the mutable fields of a witness say. *)
Inductive phase :=
| Pending
| Fulfilled (randomness attempts : Z) (succeeded : bool)
| Expired.
Inductive phase_step : phase → phase → Prop :=
| step_fulfil r b : phase_step Pending (Fulfilled r 1 b)
| step_expire : phase_step Pending Expired
| step_retry r n b : phase_step (Fulfilled r n false) (Fulfilled r (n + 1) b).

Definition phase_of (w : value) : option phase :=
  match status w, randomness w, callbackAttempts w with
  | VBig 1, VBig 0, VBig 0 => if callbackSucceeded w then None else Some Pending
  | VBig 2, VBig r, VBig n => Some (Fulfilled r n (callbackSucceeded w))
  | VBig 3, VBig 0, VBig 0 => if callbackSucceeded w then None else Some Expired
  | _, _, _ => None
  end.

(** A run of the machine, from a state on. *)
Inductive run : phase → list phase → Prop :=
| run_end p : run p []
| run_step p q ps : phase_step p q → run q ps → run p (q :: ps).

Lemma is_big_spec v z : is_big v z = true ↔ v = VBig z.
Proof. unfold is_big. destruct v; cbn; rewrite ?Z.eqb_eq; naive_solver. Qed.
Lemma strict_eq_big v z : strict_eq v (VBig z) = true ↔ v = VBig z.
Proof. apply is_big_spec. Qed.

(** The integer fields of a normal witness are integers. *)
Definition big_fields (w : value) : Prop :=
  (∃ z, status w = VBig z) ∧ (∃ z, randomness w = VBig z) ∧ ∃ z, callbackAttempts w = VBig z.

Lemma normal_uint `{Ethers} w type name :
  normal_witness w → (type, name) ∈ COMPACT_FIELDS →
  type ≠ "address" → type ≠ "bytes32" → type ≠ "bool" → ∃ z, prop_opt w name = VBig z.
Proof.
  intros (es & _ & _ & Hall) Hin ???. rewrite Forall_forall in Hall.
  specialize (Hall _ Hin). unfold well_typed in Hall. cbn [fst snd] in Hall.
  repeat case_decide; naive_solver.
Qed.

Lemma normal_big_fields `{Ethers} w : normal_witness w → big_fields w.
Proof.
  intros Hw. pose proof (λ type name, normal_uint w type name Hw) as Hgo.
  split_and!; [apply (Hgo "uint8")|apply (Hgo "uint256")|apply (Hgo "uint32")]; try done;
    apply (bool_decide_eq_true_1 _); vm_refl.
Qed.

Lemma phase_of_spec w p :
  phase_of w = Some p ↔
  match p with
  | Pending => status w = VBig 1 ∧ randomness w = VBig 0 ∧ callbackAttempts w = VBig 0 ∧ callbackSucceeded w = false
  | Fulfilled r n b => status w = VBig 2 ∧ randomness w = VBig r ∧ callbackAttempts w = VBig n ∧ callbackSucceeded w = b
  | Expired => status w = VBig 3 ∧ randomness w = VBig 0 ∧ callbackAttempts w = VBig 0 ∧ callbackSucceeded w = false
  end.
Proof.
  unfold phase_of. split.
  - repeat case_match; simplify_eq/=; naive_solver.
  - destruct p; intros (-> & -> & -> & E); rewrite ?E; done.
Qed.

Lemma created_phase w : created w = true ↔ phase_of w = Some Pending.
Proof.
  rewrite phase_of_spec. unfold created. rewrite !andb_true_iff, !is_big_spec, negb_true_iff. tauto.
Qed.

(** The three tests of the loop are the three steps. *)
Lemma transition_step previous next p :
  big_fields next → phase_of previous = Some p →
  fulfilled previous next || expired previous next || retried previous next = true ↔
  ∃ q, phase_of next = Some q ∧ phase_step p q.
Proof.
  intros ((sn & Es) & (rn & Er) & (cn & Ec)) Hp. unfold fulfilled, expired, retried.
  rewrite !orb_true_iff, !andb_true_iff, !is_big_spec, !negb_true_iff. rewrite Es, Er, Ec.
  rewrite phase_of_spec in Hp. split.
  - intros [[((Hs & Hn) & Hc)|((((Hs & Hn) & Hc) & Hr) & Hf)]|((((Hs & Hf) & Hn) & Hr) & Hc)].
    + exists (Fulfilled rn 1 (callbackSucceeded next)). rewrite phase_of_spec.
      destruct p; [|destruct Hp; congruence..]. split; [naive_solver|constructor].
    + exists Expired. rewrite phase_of_spec. destruct p; [|destruct Hp; congruence..]. split; [naive_solver|constructor].
    + destruct p as [|r n b|]; [destruct Hp; congruence| |destruct Hp; congruence].
      destruct Hp as (_ & Er' & Ec' & Eb). rewrite Er' in Hr. apply strict_eq_big in Hr. rewrite Ec' in Hc. cbn in Hc.
      exists (Fulfilled r (n + 1) (callbackSucceeded next)). rewrite phase_of_spec. split; [naive_solver|].
      assert (b = false) as -> by congruence. constructor.
  - intros (q & Hq & Hstep). rewrite phase_of_spec in Hq. destruct Hstep as [r b| |r n b];
      destruct Hp as (Hs & Hr & Hc & Hb), Hq as (Hs' & Hr' & Hc' & Hb'); rewrite Es in Hs'; rewrite Er in Hr'; rewrite Ec in Hc'.
    + left. left. tauto.
    + left. right. tauto.
    + right. rewrite Hr, Hc, strict_eq_big. cbn. tauto.
Qed.

(** The loop accepts a list of states exactly when they are a run. *)
Lemma check_transitions_run first previous p states r :
  Forall big_fields states → phase_of previous = Some p →
  check_transitions first previous states = Ok r ↔
  r = default previous (last states) ∧ Forall (λ w, same_immutable first w = true) states ∧
  ∃ ps, Forall2 (λ w q, phase_of w = Some q) states ps ∧ run p ps.
Proof.
  intros Hbig. revert previous p. induction Hbig as [|next states Hn _ IH]; intros previous p Hp; cbn [check_transitions].
  - split.
    + intros [= <-]. split_and!; [done|constructor|]. exists []. split; constructor.
    + by intros [-> _].
  - rewrite last_cons. split.
    + intros Hr. apply bind_Ok in Hr as (? & Hsame%require_Ok & Hr). apply bind_Ok in Hr as (? & Hstep%require_Ok & Hr).
      apply (transition_step _ _ p) in Hstep as (q & Hq & Hstep); [|done..].
      apply (IH next q Hq) in Hr as (-> & Hall & ps & Hps & Hrun).
      split_and!; [by destruct (last states)|by constructor|]. exists (q :: ps). split; [by constructor|by econstructor].
    + intros (-> & Hall & ps & Hps & Hrun). apply Forall_cons in Hall as [Hsame Hall].
      apply Forall2_cons_inv_l in Hps as (q & ps' & Hq & Hps & ->). inversion_clear Hrun as [|? ? ? Hstep Hrun'].
      rewrite Hsame. cbn [require mbind result_bind].
      rewrite (proj2 (transition_step previous next p Hn Hp)) by eauto. cbn [require mbind result_bind].
      apply (IH next q Hq). split_and!; [by destruct (last states)|done|]. eauto.
Qed.

(** What a run passes through: a fulfilment keeps its randomness, counts the attempts
    of its callback and is left only when one failed; the rest is final. *)
Lemma run_fulfilled r n b ps :
  run (Fulfilled r n b) ps →
  (∀ i q, ps !! i = Some q → ∃ b', q = Fulfilled r (n + Z.of_nat i + 1) b') ∧ (b = true → ps = []).
Proof.
  revert n b. induction ps as [|q ps IH]; intros n b Hrun; inversion_clear Hrun as [|? ? ? Hstep Hrun']; [done|].
  inversion Hstep; subst. destruct (IH _ _ Hrun') as [Hall _]. split; [|done].
  intros [|i] q Hq; cbn in Hq.
  - injection Hq as <-. eexists. f_equal. lia.
  - destruct (Hall i q Hq) as [b' ->]. exists b'. f_equal. lia.
Qed.
Lemma run_expired ps : run Expired ps → ps = [].
Proof. intros Hrun. inversion Hrun as [|? ? ? Hstep]; [done|]. inversion Hstep. Qed.
Lemma run_pending ps i q :
  run Pending ps → ps !! i = Some q →
  (q = Expired ∧ ps = [Expired]) ∨
  ∃ r b, q = Fulfilled r (Z.of_nat i + 1) b ∧ (b = true → length ps = S i) ∧
    ∀ j q', ps !! j = Some q' → ∃ b', q' = Fulfilled r (Z.of_nat j + 1) b'.
Proof.
  intros Hrun Hq. inversion Hrun as [|? q0 ps' Hstep Hrun']; subst; [done|]. inversion Hstep; subst.
  - right. destruct (run_fulfilled _ _ _ _ Hrun') as [Hall Hend].
    assert (∀ j q', (Fulfilled r 1 b :: ps') !! j = Some q' → ∃ b', q' = Fulfilled r (Z.of_nat j + 1) b') as Hall'.
    { intros [|j] q' Hq'; cbn in Hq'; [injection Hq' as <-; by exists b|]. destruct (Hall j q' Hq') as [b' ->].
      exists b'. f_equal. lia. }
    destruct (Hall' i q Hq) as [b' ->]. exists r, b'. split_and!; [done| |done]. intros ->.
    clear -Hrun' Hq. revert Hrun' Hq. generalize 1. intros n. revert n b i. induction ps' as [|q ps IH]; intros n b i Hrun Hq.
    + destruct i; [done|]. by destruct i.
    + inversion_clear Hrun as [|? ? ? Hs Hr]. inversion Hs; subst. destruct i as [|i]; [by injection Hq|].
      cbn [length]. f_equal. replace (Z.of_nat (S i) + n) with (Z.of_nat i + (n + 1)) in Hq by lia.
      exact (IH _ _ i Hr Hq).
  - left. apply run_expired in Hrun' as ->. destruct i as [|i]; [by injection Hq as <-|by destruct i].
Qed.

Section histories.
Context `{EthersLaws}.

(** The last state of a run that is a history, by the number of its events. *)
Definition final_phase (n : Z) (q : phase) : Prop :=
  match q with
  | Pending => n = 1
  | Fulfilled _ attempts _ => n = attempts + 1 ∧ 2 <= n
  | Expired => n = 2
  end.

Lemma validate_run values r :
  validateCompactTransitions values = Ok r ↔
  ∃ first states ps, mapM normalizeCompactWitness values = Ok (first :: states) ∧
    r = default first (last states) ∧
    Forall (λ w, same_immutable first w = true) states ∧
    phase_of first = Some Pending ∧ Forall2 (λ w q, phase_of w = Some q) states ps ∧ run Pending ps.
Proof.
  unfold validateCompactTransitions. destruct (mapM normalizeCompactWitness values) as [all|e] eqn:E; cbn.
  2: { split; [done|]. by intros (? & ? & ? & ? & _). }
  assert (Forall big_fields all) as Hbig.
  { apply mapM_Ok in E. clear -E. induction E; constructor; [|done]. by eapply normal_big_fields, normalize_normal. }
  destruct all as [|first states]; [split; [done|]; by intros (? & ? & ? & ? & _)|].
  apply Forall_cons in Hbig as [_ Hbig]. split.
  - intros Hr. apply bind_Ok in Hr as (? & Hc%require_Ok%created_phase & Hr).
    apply (check_transitions_run _ _ Pending) in Hr as (-> & Hall & ps & Hps & Hrun); [|done..].
    by exists first, states, ps.
  - intros (? & ? & ps & [= <- <-] & -> & Hall & Hp & Hps & Hrun).
    rewrite (proj2 (created_phase first)) by done. cbn [require mbind result_bind].
    apply (check_transitions_run first first Pending); [done..|]. eauto.
Qed.

(** C22: the histories that are accepted are exactly the runs of a machine: a request
    is created pending; it is fulfilled once, with a first attempt of its callback,
    or expires; a fulfilment whose callback failed may be retried, with the same
    randomness; all else about the request stays as it was created.  So the last
    state tells the whole history: an accepted history ends pending after one event,
    expired after two, and fulfilled after one more than its attempts, and no state
    after the fulfilment shows another randomness. *)
Theorem compact_history_refines values r :
  (validateCompactTransitions values = Ok r ↔
   ∃ first states ps, mapM normalizeCompactWitness values = Ok (first :: states) ∧
     r = default first (last states) ∧
     Forall (λ w, same_immutable first w = true) states ∧
     phase_of first = Some Pending ∧ Forall2 (λ w q, phase_of w = Some q) states ps ∧ run Pending ps) ∧
  (validateCompactTransitions values = Ok r →
   ∃ q, phase_of r = Some q ∧ final_phase (Z.of_nat (length values)) q ∧
     ∀ rnd n b, q = Fulfilled rnd n b →
       ∃ first states, mapM normalizeCompactWitness values = Ok (first :: states) ∧
         Forall (λ w, randomness w = VBig rnd) states).
Proof.
  split; [apply validate_run|]. intros (first & states & ps & Hm & -> & _ & Hp & Hps & Hrun)%validate_run.
  pose proof (length_mapM_Ok _ _ _ Hm) as Hl. cbn in Hl. pose proof (Forall2_length _ _ _ Hps) as Hlen.
  destruct (decide (ps = [])) as [->|Hne].
  { destruct states; [|done]. exists Pending. split_and!; [done|cbn in *; lia|]. done. }
  apply last_is_Some in Hne as [q Hq]. rewrite last_lookup in Hq.
  destruct (Forall2_lookup_r _ _ _ _ _ Hps Hq) as (w & Hw & Hwq).
  assert (last states = Some w) as -> by by rewrite last_lookup, Hlen.
  exists q. split; [done|]. apply lookup_lt_Some in Hq as Hlt.
  destruct (run_pending _ _ _ Hrun Hq) as [[-> ->]|(r & b & -> & _ & Hall)].
  - split; [cbn in *; lia|done].
  - split; [cbn; lia|]. intros rnd n b' [= <- _ _]. exists first, states. split; [done|].
    apply Forall_lookup. intros j w' Hw'. destruct (Forall2_lookup_l _ _ _ _ _ Hps Hw') as (q' & Hq' & Hwq').
    destruct (Hall j q' Hq') as [b'' ->]. apply phase_of_spec in Hwq'. tauto.
Qed.
End histories.

(** ** Witnesses at concrete inputs *)
Section samples.
#[local] Existing Instance sample_ethers.
#[local] Existing Instance sample_ethers_laws.

Definition sample_address (c : ascii) : string := "0x" +:+ of_chars (replicate 40 c).
Definition sample_bytes32 (c : ascii) : string := "0x" +:+ of_chars (replicate 64 c).
(** A request at a point of its life. *)
Definition sample_witness (state attempts rnd : Z) (succeeded : bool) : value :=
  VObj ((λ f : string * string,
    (f.2, if decide (f.2 = "status") then VStr (print_int state)
          else if decide (f.2 = "callbackAttempts") then VNum attempts
          else if decide (f.2 = "randomness") then VBig rnd
          else if decide (f.2 = "callbackSucceeded") then VBool succeeded
          else if decide (f.1 = "address") then VStr (sample_address "A"%char)
          else if decide (f.1 = "bytes32") then VStr (sample_bytes32 "B"%char)
          else if decide (f.1 = "bool") then VBool true
          else VNum 7)) <$> COMPACT_FIELDS).
Definition sample_normal : value :=
  Eval vm_compute in match normalizeCompactWitness (sample_witness 1 0 0 false) with Ok w => w | Throw _ => VNull end.

Lemma compact_witness_roundtrip_witness :
  normalizeCompactWitness (sample_witness 1 0 0 false) = Ok sample_normal ∧
  normalizeCompactWitness sample_normal = Ok sample_normal.
Proof.
  assert (normalizeCompactWitness (sample_witness 1 0 0 false) = Ok sample_normal) as Hn by vm_refl.
  split; [exact Hn|]. exact (proj1 (proj2 (compact_witness_roundtrip _ _ Hn))).
Defined.

Definition sample_life : list value :=
  [sample_witness 1 0 0 false; sample_witness 2 1 99 false; sample_witness 2 2 99 true].
Definition sample_final : value :=
  Eval vm_compute in match normalizeCompactWitness (sample_witness 2 2 99 true) with Ok w => w | Throw _ => VNull end.
Lemma compact_history_refines_witness :
  validateCompactTransitions sample_life = Ok sample_final ∧
  ∃ q, phase_of sample_final = Some q ∧ final_phase 3 q.
Proof.
  assert (validateCompactTransitions sample_life = Ok sample_final) as Hv by vm_refl.
  split; [exact Hv|]. destruct (proj2 (compact_history_refines sample_life sample_final) Hv) as (q & Hq & Hf & _).
  exists q. exact (conj Hq Hf).
Defined.
End samples.
