(* ===== verification/CompactConsensus.v ===== *)
(** * What the endpoints of the compact protocol agree on ([compact-protocol.mjs])

    A state that is returned was committed to by every endpoint, at a block that
    each of them had before and after; the history it is recovered from is the same
    at each; and a transaction is prepared for such a state alone. *)

From S2P Require Import Prelude Js Hex CanonicalJson Json JsonText Vendor Policies Compact CompactSafety Samples.

Open Scope Z_scope.

(** ** Calls in their order *)
Section consensus.
Context `{EthersLaws, UrlApi, CompactInterface, RpcSend}.

Lemma forward_send p method params : forward (send p method params).
Proof. intros n r n' [= _ <-]. lia. Qed.

#[local] Hint Resolve forward_send : vrf.
Lemma forward_readHead chainId p : forward (readHead chainId p).
Proof. unfold readHead. forward. Qed.
Lemma forward_readBlock tag p : forward (readBlock tag p).
Proof. unfold readBlock. forward. Qed.
Lemma forward_view address a method args p : forward (view address a method args p).
Proof. unfold view. forward. Qed.
Lemma forward_readWindow o l p from : forward (readWindow o l p from).
Proof. unfold readWindow. forward. Qed.
#[local] Hint Resolve forward_readHead forward_readBlock forward_view forward_readWindow : vrf.
Lemma forward_readHistory o start l p : forward (readHistory o start l p).
Proof. unfold readHistory. forward. Qed.
Lemma forward_anchorFor ps chainId : forward (anchorFor ps chainId).
Proof. unfold anchorFor. forward. Qed.
Lemma forward_assertAnchor ps a : forward (assertAnchor ps a).
Proof. unfold assertAnchor. forward. Qed.
Lemma forward_readSeed ps o a w : forward (readSeed ps o a w).
Proof. unfold readSeed. forward. Qed.
Lemma forward_authenticatedState ps o a w : forward (authenticatedState ps o a w).
Proof. unfold authenticatedState, readSeed. forward. Qed.
Lemma forward_withProviders {A} o (body : list string → eff nat A) :
  (∀ ps, forward (body ps)) → forward (withProviders o body).
Proof. intros Hb. unfold withProviders. forward. Qed.
#[local] Hint Resolve forward_readHistory forward_anchorFor forward_assertAnchor forward_authenticatedState : vrf.
Lemma forward_recover o : forward (recoverCompactRequest o).
Proof. apply forward_withProviders. intros ps. unfold recover. forward. Qed.
Lemma forward_verify o : forward (verifyCompactWitnessConsensus o).
Proof. apply forward_withProviders. intros ps. forward. Qed.
Lemma forward_proveCompact o st : forward (proveCompact o st).
Proof. unfold proveCompact. forward. intros n r n' [= _ <-]. lia. Qed.
#[local] Hint Resolve forward_recover forward_verify forward_proveCompact : vrf.
Lemma forward_simulate t a p : forward (simulate t a p).
Proof. apply forward_send. Qed.
#[local] Hint Resolve forward_simulate : vrf.
Lemma forward_prepare o : forward (prepareCompactTransaction o).
Proof. unfold prepareCompactTransaction. forward. Qed.

(** ** What an endpoint answered *)

Definition answered (n n' : nat) (p method : string) (params : list value) (v : value) : Prop :=
  ∃ i, (n <= i < n')%nat ∧ rpc_send i p method params = Ok v.
Definition on_chain (n n' : nat) (chainId : value) (p : string) : Prop :=
  ∃ v z, answered n n' p "eth_chainId" [] v ∧ to_bigint v = Ok z ∧ to_bigint chainId = Ok z.
(** The endpoint has the block of the anchor. *)
Definition anchored (n n' : nat) (a : anchor) (p : string) : Prop :=
  ∃ b, answered n n' p "eth_getBlockByNumber" [VStr (a_tag a); VBool false] b ∧
       strict_eq (prop_opt b "hash") (a_hash a) = true.
(** What a view of the coordinator returned at the anchor. *)
Definition viewed (n n' : nat) (address : string) (a : anchor) (method : string) (args : list value)
    (v : value) (p : string) : Prop :=
  ∃ data raw, encodeFunctionData method args = Ok data ∧
    answered n n' p "eth_call" [VObj [("to", VStr address); ("data", VStr data)]; VStr (a_tag a)] raw ∧
    decodeFunctionResult method raw = Ok v.

(** A state that every endpoint committed to at the anchor, which it had before and
    after. *)
Record authentic (n n' : nat) (providers : list string) (o : compact_options) (st : compact_state) : Prop := {
  au_normal : normal_witness (st_request st);
  au_id : compactRequestId (st_request st) = Ok (st_requestId st);
  au_asked : to_bigint (co_requestId o) = Ok (st_requestId st);
  au_key : truthy (co_keyHash o) = true →
    ∃ k, to_lower (co_keyHash o) = Ok k ∧ prop_opt (st_request st) "keyHash" = VStr k;
  au_commitment : compactCommitment (st_request st) (co_chainId o) (co_coordinatorAddress o) = Ok (st_commitment st);
  au_endpoints : ∃ m m', (n <= m <= m')%nat ∧ (m' <= n')%nat ∧
    Forall (λ p,
      on_chain n m (co_chainId o) p ∧ anchored n m (st_anchor st) p ∧
      viewed m m' (co_coordinatorAddress o) (st_anchor st) "commitments" [VBig (st_requestId st)]
        (VStr (st_commitment st)) p ∧
      anchored m' n' (st_anchor st) p ∧
      (co_includeSeed o = true →
       status (st_request st) = VBig 1 ∧
       ∃ v, strict_eq v (st_actualSeed st) = true ∧
         viewed m m' (co_coordinatorAddress o) (st_anchor st) "requestSeed" [st_request st] v p)) providers
}.

(** The endpoints that are used. *)
Definition endpoints (o : compact_options) (providers : list string) : Prop :=
  NoDup providers ∧ 2 <= Z.of_nat (length providers) ∧
  (co_providers o = Some providers ∨
   co_providers o = None ∧
   normalizeRpcUrls (co_rpcUrls o)
     {| minimum := 2; label := "compact protocol"; allowSharedOrigin := co_allowSharedOrigin o |} = Ok providers).

Lemma withProviders_Ok {A} o (body : list string → eff nat A) n a n' :
  withProviders o body n = (Ok a, n') →
  ∃ providers, endpoints o providers ∧ body providers n = (Ok a, n').
Proof.
  unfold withProviders. intros (Hboth & Hr)%eff_require_bind_Ok.
  apply eff_lift_bind_Ok in Hr as (providers & Hp & Hr). apply eff_require_bind_Ok in Hr as (Hd & Hr).
  apply andb_true_iff in Hd as [Hl%Z.leb_le Hd%all_distinct_spec]. exists providers. split; [|done].
  split_and!; [done..|]. destruct (co_providers o) as [l|] eqn:E; [left; congruence|by right].
Qed.

(** ** The steps of a read *)

Lemma answered_weaken n n' m m' p method params v :
  (m <= n)%nat → (n' <= m')%nat → answered n n' p method params v → answered m m' p method params v.
Proof. intros ? ? (i & ? & ?). exists i. split; [lia|done]. Qed.
Lemma send_Ok p method params n v n' :
  send p method params n = (Ok v, n') → answered n n' p method params v ∧ (n <= n')%nat.
Proof. intros [= Hv <-]. split; [|lia]. exists n. split; [lia|done]. Qed.

Lemma readHead_Ok chainId p n z n' :
  readHead chainId p n = (Ok z, n') → on_chain n n' chainId p ∧ 0 <= z ∧ safe_integer z = true.
Proof.
  intros Hr. unfold readHead in Hr. apply eff_bind_Ok in Hr as (v & n1 & [Hv Hn1]%send_Ok & Hr).
  apply eff_lift_bind_Ok in Hr as (z1 & Hz1 & Hr). apply eff_lift_bind_Ok in Hr as (z2 & Hz2 & Hr).
  apply eff_require_bind_Ok in Hr as (->%Z.eqb_eq & Hr).
  apply eff_bind_Ok in Hr as (h & n2 & [_ Hn2]%send_Ok & Hr). apply eff_lift_bind_Ok in Hr as (z3 & _ & Hr).
  apply eff_require_bind_Ok in Hr as ([Hs Hz]%andb_true_iff & [= -> ->]). apply Z.leb_le in Hz. split; [|done].
  exists v, z2. split; [|done]. eapply answered_weaken; [| |exact Hv]; lia.
Qed.

(** Blocks read of every endpoint, with the hash of the anchor. *)
Lemma readBlocks_anchored tag ps n blocks n' a :
  mapM (readBlock tag) ps n = (Ok blocks, n') → a_tag a = tag →
  Forall (λ b, strict_eq (prop_opt b "hash") (a_hash a) = true) blocks →
  (n <= n')%nat ∧ Forall (anchored n n' a) ps.
Proof.
  intros [Hle Hall]%eff_mapM_Ok Htag Hb; [|intros; apply forward_readBlock]. split; [done|].
  revert Hb. induction Hall as [|p b ps blocks (i & j & Hi & Hj & Hr) _ IH]; intros Hb; [constructor|].
  apply Forall_cons in Hb as [Hb Hbs]. constructor; [|by apply IH].
  exists b. split; [|done]. apply send_Ok in Hr as [Hr _]. rewrite Htag. by eapply answered_weaken.
Qed.

Lemma check_anchor_blocks number hash blocks :
  forM_ (check_anchor_block number hash) blocks = Ok tt →
  Forall (λ b, strict_eq (prop_opt b "hash") hash = true) blocks.
Proof.
  intros Hf%forM_Ok. eapply Forall_impl; [exact Hf|]. intros b Hb.
  by apply bind_Ok in Hb as (? & ?%require_Ok & _).
Qed.

Lemma anchorFor_Ok ps chainId n a n' :
  anchorFor ps chainId n = (Ok a, n') →
  (n <= n')%nat ∧ Forall (λ p, on_chain n n' chainId p ∧ anchored n n' a p) ps.
Proof.
  intros Hr. pose proof (forward_anchorFor _ _ _ _ _ Hr) as Hle. split; [done|].
  unfold anchorFor in Hr. apply eff_bind_Ok in Hr as (heads & n1 & Hheads & Hr).
  apply eff_bind_Ok in Hr as (blocks & n2 & Hblocks & Hr). apply eff_require_bind_Ok in Hr as (_ & Hr).
  apply eff_lift_bind_Ok in Hr as ([] & Hc%check_anchor_blocks & [= <- <-]).
  apply eff_mapM_Ok in Hheads as [Hle1 Hheads]; [|intros; apply forward_readHead].
  match goal with |- context [anchored _ _ ?a] => apply (readBlocks_anchored _ _ _ _ _ a) in Hblocks as [Hle2 Hblocks] end;
    [|done|exact Hc].
  rewrite Forall_forall in Hblocks. apply Forall_forall. intros p Hp. split.
  - apply list_elem_of_lookup in Hp as [i Hi]. destruct (Forall2_lookup_l _ _ _ _ _ Hheads Hi) as (z & _ & k & j & ? & ? & Hz).
    apply readHead_Ok in Hz as [(v & c & Hv & ?) _]. exists v, c. split; [|done]. eapply answered_weaken; [| |exact Hv]; lia.
  - destruct (Hblocks p Hp) as (b & Hb & ?). exists b. split; [|done]. eapply answered_weaken; [| |exact Hb]; lia.
Qed.

Lemma assertAnchor_Ok ps a n u n' :
  assertAnchor ps a n = (Ok u, n') → (n <= n')%nat ∧ Forall (anchored n n' a) ps.
Proof.
  intros Hr. unfold assertAnchor in Hr. apply eff_bind_Ok in Hr as (blocks & n1 & Hblocks & Hr).
  apply eff_require_Ok in Hr as [Hall ->]. apply forallb_Forall in Hall.
  by eapply readBlocks_anchored.
Qed.

Lemma view_Ok address a method args p n v n' :
  view address a method args p n = (Ok v, n') → viewed n n' address a method args v p.
Proof.
  intros Hr. unfold view in Hr. apply eff_lift_bind_Ok in Hr as (data & Hd & Hr).
  apply eff_bind_Ok in Hr as (raw & n1 & [Ha _]%send_Ok & [Hv ->]%eff_lift_Ok). by exists data, raw.
Qed.
(** Views of every endpoint that pass a test. *)
Lemma views_Ok address a method args (test : value → bool) ps n vs n' :
  mapM (view address a method args) ps n = (Ok vs, n') → forallb test vs = true →
  (n <= n')%nat ∧ Forall (λ p, ∃ v, test v = true ∧ viewed n n' address a method args v p) ps.
Proof.
  intros [Hle Hall]%eff_mapM_Ok Ht%forallb_Forall; [|intros; apply forward_view]. split; [done|].
  revert Ht. induction Hall as [|p v ps vs (i & j & ? & ? & Hr) _ IH]; intros Ht; [constructor|].
  apply Forall_cons in Ht as [Hv Ht]. constructor; [|by apply IH]. exists v. split; [done|].
  apply view_Ok in Hr as (data & raw & Hd & Hraw & Hdec). exists data, raw. split_and!; [done| |done].
  eapply answered_weaken; [| |exact Hraw]; lia.
Qed.

Lemma readSeed_Ok ps o a w n seed n' :
  readSeed ps o a w n = (Ok seed, n') →
  (n <= n')%nat ∧
  (co_includeSeed o = true → status w = VBig 1 ∧
   Forall (λ p, ∃ v, strict_eq v seed = true ∧
     viewed n n' (co_coordinatorAddress o) a "requestSeed" [w] v p) ps).
Proof.
  intros Hr. pose proof (forward_readSeed _ _ _ _ _ _ _ Hr) as Hle. split; [done|]. intros Hs.
  unfold readSeed in Hr. rewrite Hs in Hr. apply eff_require_bind_Ok in Hr as (Hp%is_big_spec & Hr).
  apply eff_bind_Ok in Hr as (seeds & n1 & Hv & Hr). apply eff_require_bind_Ok in Hr as (Ht & [= <- <-]).
  split; [done|]. exact (proj2 (views_Ok _ _ _ _ (λ v, strict_eq v _) _ _ _ _ Hv Ht)).
Qed.

Lemma authenticatedState_Ok ps o a witness n0 n st n1 n2 u :
  (n0 <= n)%nat → Forall (λ p, on_chain n0 n (co_chainId o) p ∧ anchored n0 n a p) ps →
  authenticatedState ps o a witness n = (Ok st, n1) → assertAnchor ps a n1 = (Ok u, n2) →
  authentic n0 n2 ps o st ∧ normalizeCompactWitness witness = Ok (st_request st) ∧ st_anchor st = a.
Proof.
  intros Hn0 Hbefore Hr [Hle2 Hafter]%assertAnchor_Ok. unfold authenticatedState in Hr.
  apply eff_lift_bind_Ok in Hr as (w & Hw & Hr). apply eff_lift_bind_Ok in Hr as (id & Hid & Hr).
  apply eff_lift_bind_Ok in Hr as (asked & Hasked & Hr). apply eff_require_bind_Ok in Hr as (->%Z.eqb_eq & Hr).
  apply eff_bind_Ok in Hr as (uk & nk & Hkey & Hr).
  assert (nk = n ∧ (truthy (co_keyHash o) = true → ∃ k, to_lower (co_keyHash o) = Ok k ∧ prop_opt w "keyHash" = VStr k))
    as [-> Hkey'].
  { destruct (truthy (co_keyHash o)); [|by injection Hkey].
    apply eff_lift_bind_Ok in Hkey as (k & Hk & [Heq ->]%eff_require_Ok). split; [done|]. intros _. exists k.
    split; [done|]. destruct (prop_opt w "keyHash"); try done. cbn in Heq. apply bool_decide_eq_true in Heq. by rewrite Heq. }
  apply eff_lift_bind_Ok in Hr as (commitment & Hc & Hr).
  apply eff_bind_Ok in Hr as (committed & m & Hv & Hr). apply eff_require_bind_Ok in Hr as (Ht & Hr).
  apply eff_bind_Ok in Hr as (seed & m' & [Hle1 Hseed]%readSeed_Ok & [= <- <-]).
  destruct (views_Ok _ _ _ _ (λ v, strict_eq v _) _ _ _ _ Hv Ht) as [Hle Hviews]. clear Hv.
  split; [|done]. split; cbn; try done.
  - by eapply normalize_normal.
  - exists n, m'. split; [lia|]. split; [lia|]. rewrite Forall_forall in Hbefore, Hafter, Hviews.
    apply Forall_forall. intros p Hp. destruct (Hbefore p Hp) as [? ?]. split_and!; [done|done| |by apply Hafter|].
    + destruct (Hviews p Hp) as (v & Heq & data & raw & Hd & Hraw & Hdec).
      assert (v = VStr commitment) as -> by (destruct v; try done; cbn in Heq; apply bool_decide_eq_true in Heq; by rewrite Heq).
      exists data, raw. split_and!; [done| |done]. eapply answered_weaken; [| |exact Hraw]; lia.
    + intros Hs. destruct (Hseed Hs) as [Hpend Hall]. split; [done|]. rewrite Forall_forall in Hall.
      destruct (Hall p Hp) as (v & Heq & data & raw & Hd & Hraw & Hdec). exists v. split; [done|]. exists data, raw.
      split_and!; [done| |done]. eapply answered_weaken; [| |exact Hraw]; lia.
Qed.

Lemma verify_Ok o n st n' :
  verifyCompactWitnessConsensus o n = (Ok st, n') →
  ∃ providers, endpoints o providers ∧ authentic n n' providers o st ∧
    normalizeCompactWitness (co_witness o) = Ok (st_request st) ∧ (n <= n')%nat.
Proof.
  intros (ps & Hps & Hr)%withProviders_Ok. exists ps. split; [done|].
  apply eff_bind_Ok in Hr as (a & n1 & [Hle Ha]%anchorFor_Ok & Hr).
  apply eff_bind_Ok in Hr as (st' & n2 & Hst & Hr). apply eff_bind_Ok in Hr as (u & n3 & Hu & [= -> ->]).
  pose proof (forward_assertAnchor _ _ _ _ _ Hu).
  destruct (authenticatedState_Ok _ _ _ _ n n1 _ _ _ _ Hle Ha Hst Hu) as (Hau & Hw & _).
  pose proof (forward_authenticatedState _ _ _ _ _ _ _ Hst).
  split_and!; [done..|lia].
Qed.

(** ** Histories *)

(** The windows cover the blocks of the scan. *)
Lemma windows_cover start last b :
  start <= b <= last →
  ∃ from, from ∈ window_starts start last ∧ from <= b <= Z.min (from + (SCAN_RANGE - 1)) last.
Proof.
  intros Hb. unfold window_starts, SCAN_RANGE. exists (start + (b - start) / 2000 * 2000).
  pose proof (Z.div_mod (b - start) 2000 ltac:(lia)) as E. pose proof (Z.mod_pos_bound (b - start) 2000 ltac:(lia)).
  split; [|lia]. apply list_elem_of_fmap. exists ((b - start) / 2000). split; [done|]. apply elem_of_seqZ.
  split; [apply Z.div_pos; lia|]. pose proof (Z.div_le_mono (b - start) (last - start) 2000 ltac:(lia) ltac:(lia)). lia.
Qed.

Definition log_filter (o : compact_options) (last from : Z) (topic : string) : list value :=
  [VObj [("address", VStr (co_coordinatorAddress o)); ("fromBlock", VStr (toQuantity from));
         ("toBlock", VStr (toQuantity (Z.min (from + (SCAN_RANGE - 1)) last)));
         ("topics", VArr [VStr topicHash; VNull; VStr topic])]].
(** The events of one window: those of all the logs that the endpoint answered. *)
Definition window_events (n n' : nat) (o : compact_options) (last : Z) (p : string) (from : Z)
    (events : list compact_event) : Prop :=
  ∃ topic answer logs, toBeHex32 (co_requestId o) = Ok topic ∧
    answered n n' p "eth_getLogs" (log_filter o last from topic) answer ∧ iterate answer = Ok logs ∧
    Forall2 (λ log e, readLog o from (Z.min (from + (SCAN_RANGE - 1)) last) log = Ok e) logs events.
(** The history that an endpoint served: its logs of all windows, in the order of the
    chain. *)
Definition served (n n' : nat) (o : compact_options) (start last : Z) (history : list compact_event) (p : string)
    : Prop :=
  Sorted event_le history ∧ duplicate_events history = false ∧
  ∃ windows, history ≡ₚ concat windows ∧
    Forall2 (window_events n n' o last p) (window_starts start last) windows.

Lemma readLog_normal o from upto log e : readLog o from upto log = Ok e → normal_witness (e_witness e).
Proof.
  unfold readLog. intros Hr. do 3 (apply bind_Ok in Hr as (? & _ & Hr)). apply bind_Ok in Hr as (? & _ & Hr).
  apply bind_Ok in Hr as (? & _ & Hr). apply bind_Ok in Hr as (parsed & _ & Hr).
  apply bind_Ok in Hr as (w & Hw%normalize_normal & Hr). do 3 (apply bind_Ok in Hr as (? & _ & Hr)).
  apply bind_Ok in Hr as ([data topics] & _ & Hr). by apply bind_Ok in Hr as (? & _ & [= <-]).
Qed.

#[local] Instance event_le_total : Total event_le.
Proof. intros a b. unfold event_le. lia. Qed.

Lemma readHistory_Ok o start last p n history n' :
  readHistory o start last p n = (Ok history, n') →
  served n n' o start last history p ∧
  ∃ r, validateCompactTransitions (e_witness <$> history) = Ok r.
Proof.
  unfold readHistory. intros Hr. apply eff_bind_Ok in Hr as (windows & n1 & Hw & Hr).
  apply eff_require_bind_Ok in Hr as (Hd%negb_true_iff & Hr). apply eff_lift_bind_Ok in Hr as (r & Hv & [= <- <-]).
  apply eff_mapM_Ok in Hw as [Hle Hw]; [|intros; apply forward_readWindow].
  assert (Forall2 (window_events n n1 o last p) (window_starts start last) windows) as Hwin.
  { eapply Forall2_impl; [exact Hw|]. intros from events (i & j & Hi & Hj & Hf). unfold readWindow in Hf.
    apply eff_lift_bind_Ok in Hf as (topic & Ht & Hf). apply eff_bind_Ok in Hf as (answer & j1 & [Ha _]%send_Ok & Hf).
    apply eff_lift_bind_Ok in Hf as (logs & Hl & [He ->]%eff_lift_Ok). exists topic, answer, logs.
    split_and!; [done| |done|by apply mapM_Ok]. eapply answered_weaken; [| |exact Ha]; lia. }
  split; [|by exists r]. split_and!; [apply Sorted_merge_sort, _|done|]. exists windows.
  split; [apply merge_sort_Permutation|done].
Qed.

(** Two histories that are described alike are one. *)
Lemma describe_inj h h' d :
  Forall (λ e, normal_witness (e_witness e)) h → Forall (λ e, normal_witness (e_witness e)) h' →
  describe h = Ok d → describe h' = Ok d → h = h'.
Proof.
  intros Hn Hn' Hd%mapM_Ok Hd'%mapM_Ok. revert h' Hn Hn' Hd'.
  induction Hd as [|e x h d Hx _ IH]; intros h' Hn Hn' Hd'; inversion Hd' as [|e' x' h1 d' Hx' Hd'']; subst; [done|].
  apply Forall_cons in Hn as [He Hn]. apply Forall_cons in Hn' as [He' Hn']. f_equal; [|by apply IH].
  apply bind_Ok in Hx as (f & Hf & [= <-]). apply bind_Ok in Hx' as (f' & Hf' & [= E1 E2 E3 E4 ->]).
  pose proof (fingerprint_inj _ _ _ _ (normalize_idem _ He) Hf Hf') as Hw. rewrite (normalize_idem _ He') in Hw.
  destruct e, e'. cbn in *. congruence.
Qed.

(** An accepted history of normal witnesses ends in the last of them. *)
Lemma validate_last ws w r :
  Forall normal_witness ws → validateCompactTransitions ws = Ok r → last ws = Some w → r = w.
Proof.
  intros Hn (first & states & ps & Hm & -> & _)%validate_run Hl.
  assert (mapM normalizeCompactWitness ws = Ok ws) as Hm'.
  { apply mapM_Ok. clear -Hn H0. induction Hn; constructor; [by apply normalize_idem|done]. }
  rewrite Hm' in Hm. injection Hm as ->. rewrite last_cons in Hl. destruct (last states); cbn in *; congruence.
Qed.

Lemma same_histories hs ds h0 d :
  Forall (λ e, normal_witness (e_witness e)) h0 → describe h0 = Ok d →
  Forall (Forall (λ e, normal_witness (e_witness e))) hs → Forall2 (λ h d, describe h = Ok d) hs ds →
  Forall (λ d', d' = d) ds → Forall (λ h, h = h0) hs.
Proof.
  intros Hn0 Hd0 Hn Hds. revert Hn. induction Hds as [|h d' hs ds Hd _ IH]; intros Hn Hs; [constructor|].
  apply Forall_cons in Hn as [Hh Hn]. apply Forall_cons in Hs as [-> Hs]. constructor; [by eapply describe_inj|by apply IH].
Qed.

Lemma served_weaken n n' m m' o start last h p :
  (m <= n)%nat → (n' <= m')%nat → served n n' o start last h p → served m m' o start last h p.
Proof.
  intros ? ? (? & ? & ws & ? & Hws). split_and!; [done..|]. exists ws. split; [done|].
  eapply Forall2_impl; [exact Hws|]. intros from evs (topic & answer & logs & ? & Hans & ? & ?).
  exists topic, answer, logs. split_and!; [done| |done|done]. by eapply answered_weaken.
Qed.
Lemma served_normal n n' o start last h p :
  served n n' o start last h p → Forall (λ e, normal_witness (e_witness e)) h.
Proof.
  intros (_ & _ & windows & -> & Hwin). apply Forall_concat.
  induction Hwin as [|from events ws wss Hf _ IH]; constructor; [|done].
  destruct Hf as (? & ? & logs & _ & _ & _ & Hl). clear -Hl. induction Hl; constructor; [|done]. by eapply readLog_normal.
Qed.

(** The histories that are read of all endpoints, described alike, are one. *)
Lemma histories_agree o start last ps n histories n' ds :
  mapM (readHistory o start last) ps n = (Ok histories, n') → mapM describe histories = Ok ds →
  forallb (λ d, bool_decide (Some d = head ds)) ds = true → ps ≠ [] →
  ∃ history r, head histories = Some history ∧ Forall (served n n' o start last history) ps ∧
    validateCompactTransitions (e_witness <$> history) = Ok r ∧ (n <= n')%nat.
Proof.
  intros [Hle Hh]%eff_mapM_Ok Hds%mapM_Ok Hsame%forallb_Forall Hne; [|intros; apply forward_readHistory].
  assert (Forall2 (λ p h, served n n' o start last h p ∧ ∃ r, validateCompactTransitions (e_witness <$> h) = Ok r)
    ps histories) as Hserved.
  { eapply Forall2_impl; [exact Hh|]. intros p h (i & j & ? & ? & [Hs Hv]%readHistory_Ok). split; [|done].
    eapply served_weaken; [..|exact Hs]; lia. }
  assert (Forall (Forall (λ e, normal_witness (e_witness e))) histories) as Hn.
  { clear -Hserved. induction Hserved as [|p h ps hs [Hs _] _ IH]; constructor; [by eapply served_normal|done]. }
  destruct Hserved as [|p0 h0 ps hs [Hs0 [r Hr]] Hserved]; [done|]. exists h0, r. split_and!; [done| |done..].
  inversion Hds as [|? d0 ? ds' Hd0 Hds']; subst. apply Forall_cons in Hn as [Hn0 Hn]. apply Forall_cons in Hsame as [_ Hsame].
  assert (Forall (λ h, h = h0) hs) as Hall.
  { eapply same_histories; [exact Hn0|exact Hd0|exact Hn|exact Hds'|]. eapply Forall_impl; [exact Hsame|].
    intros d E. apply bool_decide_eq_true in E. by injection E. }
  constructor; [done|]. clear -Hserved Hall. induction Hserved as [|p h ps hs [Hs _] _ IH]; [constructor|].
  apply Forall_cons in Hall as [-> Hall]. constructor; [done|by apply IH].
Qed.

Lemma recover_Ok o n st k n' :
  recoverCompactRequest o n = (Ok (st, k), n') →
  ∃ providers start history, endpoints o providers ∧ authentic n n' providers o st ∧
    co_fromBlock o = VNum start ∧ 0 <= start <= a_number (st_anchor st) ∧
    k = Z.of_nat (length history) ∧
    validateCompactTransitions (e_witness <$> history) = Ok (st_request st) ∧
    Forall (served n n' o start (a_number (st_anchor st)) history) providers.
Proof.
  intros (ps & Hps & Hr)%withProviders_Ok. exists ps. unfold recover in Hr.
  apply eff_bind_Ok in Hr as (a & n1 & [Hle1 Ha]%anchorFor_Ok & Hr).
  apply eff_lift_bind_Ok in Hr as (start & Hstart & Hr). destruct (co_fromBlock o) as [| | |z| | | | |] eqn:Ef; try done.
  apply bind_Ok in Hstart as (? & Hrange%require_Ok & [= ->]).
  apply andb_true_iff in Hrange as [[_ Hlow%Z.leb_le]%andb_true_iff Hhigh%Z.leb_le].
  apply eff_bind_Ok in Hr as (histories & n2 & Hh & Hr). apply eff_lift_bind_Ok in Hr as (ds & Hds & Hr).
  apply eff_require_bind_Ok in Hr as (Hsame & Hr).
  assert (ps ≠ []) as Hne by (destruct Hps as (_ & Hl & _); intros ->; by apply Hl).
  destruct (histories_agree _ _ _ _ _ _ _ _ Hh Hds Hsame Hne) as (history & r & Hhead & Hserved & Hv & Hle2).
  rewrite Hhead in Hr. cbn [default] in Hr. apply eff_lift_bind_Ok in Hr as (final & Hfinal & Hr).
  apply eff_bind_Ok in Hr as (st' & n3 & Hst & Hr). apply eff_bind_Ok in Hr as (u & n4 & Hu & [= -> <- ->]).
  pose proof (forward_assertAnchor _ _ _ _ _ Hu).
  pose proof (forward_authenticatedState _ _ _ _ _ _ _ Hst) as Hle3.
  destruct (authenticatedState_Ok ps o a final n n2 st n3 n' u ltac:(lia)) as (Hau & Hw & Ea); [|done..|].
  { eapply Forall_impl; [exact Ha|]. intros p [(v & c & Hc & ?) (b & Hb & ?)].
    split; [exists v, c|exists b]; (split; [eapply answered_weaken; [..|done]; lia|done]). }
  apply from_option_or_Ok in Hfinal. rewrite Ea. exists start, history. split_and!; try done.
  - assert (Forall normal_witness (e_witness <$> history)) as Hn.
    { apply Forall_fmap. destruct ps as [|p ps]; [done|]. apply Forall_cons in Hserved as [Hs _]. by eapply served_normal. }
    assert (last (e_witness <$> history) = Some final) as Hlast by by rewrite fmap_last.
    pose proof (validate_last _ _ _ Hn Hv Hlast) as ->. rewrite Hv. f_equal.
    rewrite Forall_forall in Hn. rewrite normalize_idem in Hw; [congruence|]. apply Hn.
    by apply last_Some_elem_of.
  - eapply Forall_impl; [exact Hserved|]. intros p Hs. eapply served_weaken; [..|exact Hs]; lia.
Qed.

(** C23: a request that is recovered is the last state of one history, which each of
    at least two distinct endpoints served: all its logs of the windows from the
    deployment to the anchor, in the order of the chain and without duplicates, and a
    run of the machine.  Every endpoint is on the chain, committed to that state at
    the anchor, and had the block of the anchor before and after; the identifier is
    the one asked for. *)
Theorem recovered_request_authentic o n st k n' :
  recoverCompactRequest o n = (Ok (st, k), n') →
  ∃ providers start history, endpoints o providers ∧ authentic n n' providers o st ∧
    co_fromBlock o = VNum start ∧ k = Z.of_nat (length history) ∧
    validateCompactTransitions (e_witness <$> history) = Ok (st_request st) ∧
    Forall (served n n' o start (a_number (st_anchor st)) history) providers ∧
    ∀ block, start <= block <= a_number (st_anchor st) →
      ∃ from, from ∈ window_starts start (a_number (st_anchor st)) ∧
        from <= block <= Z.min (from + (SCAN_RANGE - 1)) (a_number (st_anchor st)).
Proof.
  intros (ps & start & h & ? & ? & ? & ? & ? & ? & ?)%recover_Ok. exists ps, start, h.
  split_and!; try done. intros block Hb. by apply windows_cover.
Qed.

(** ** Prepared transactions *)

Lemma authentic_weaken n n' m m' ps o st :
  (m <= n)%nat → (n' <= m')%nat → authentic n n' ps o st → authentic m m' ps o st.
Proof.
  intros ? ? [? ? ? ? ? (k & k' & ? & ? & Hall)]. split; try done. exists k, k'. split; [lia|]. split; [lia|].
  eapply Forall_impl; [exact Hall|]. intros p ((v & c & Hv & Hc) & (b & Hb & ?) & Hview & (b' & Hb' & ?) & Hseed).
  split_and!; [|exists b|done|exists b'|done].
  - exists v, c. split; [|done]. eapply answered_weaken; [..|exact Hv]; lia.
  - split; [|done]. eapply answered_weaken; [..|exact Hb]; lia.
  - split; [|done]. eapply answered_weaken; [..|exact Hb']; lia.
Qed.

Lemma proveCompact_Ok o st n v n' :
  proveCompact o st n = (Ok v, n') →
  (n <= n')%nat ∧ ∃ a, getAddress (co_from o) = Some a ∧ prop_opt (st_request st) "fulfiller" = VStr (lower a).
Proof.
  intros Hr. unfold proveCompact in Hr. apply eff_require_bind_Ok in Hr as (_ & Hr).
  apply eff_lift_bind_Ok in Hr as (a & Ha%from_option_or_Ok & Hr). apply eff_require_bind_Ok in Hr as (Heq & Hr).
  apply eff_lift_bind_Ok in Hr as (p & _ & Hr). apply eff_lift_bind_Ok in Hr as (w & _ & Hr).
  apply eff_bind_Ok in Hr as (res & n1 & Hres & Hr). apply eff_lift_bind_Ok in Hr as (d & _ & [= _ <-]).
  injection Hres as _ <-. split; [lia|]. exists a. split; [done|].
  destruct (prop_opt (st_request st) "fulfiller"); try done. cbn in Heq. apply bool_decide_eq_true in Heq. by rewrite Heq.
Qed.

Definition simulated (n n' : nat) (t : compact_transaction) (a : anchor) (v : value) (p : string) : Prop :=
  ∃ i, (n <= i < n')%nat ∧ simulate t a p i = (Ok v, S i).

Lemma authentic_witness n n' ps o w st : authentic n n' ps (with_witness o w) st → authentic n n' ps o st.
Proof. by intros [? ? ? ? ? ?]. Qed.
Lemma authentic_le n n' ps o st : authentic n n' ps o st → (n <= n')%nat.
Proof. intros [_ _ _ _ _ (m & m' & ? & ? & _)]. lia. Qed.
(** Endpoints that are given are the ones that are used. *)
Lemma endpoints_given o ps ps' : co_providers o = Some ps → endpoints o ps' → ps' = ps.
Proof. intros Ho (_ & _ & [E|[E _]]); congruence. Qed.

Definition prepared_for (o : compact_options) (n : nat) (pr : prepared) (n' : nat) : Prop :=
  let action := default "fulfillRandomWords" (co_action o) in
  let fulfils := bool_decide (action = "fulfillRandomWords") in
  let t := pr_transaction pr in
  let request := st_request (pr_snapshot pr) in
  action ∈ COMPACT_ACTIONS ∧
  ∃ providers, endpoints o providers ∧
    (∃ m, (m <= n')%nat ∧ authentic n m providers (scoped o providers fulfils) (pr_snapshot pr) ∧
      Forall (λ p, ∃ v, strict_eq v (pr_simulation pr) = true ∧ simulated m n' t (st_anchor (pr_snapshot pr)) v p)
        providers) ∧
    0 < ct_gasPrice t ∧ 0 < ct_gasLimit t ∧
    getAddress (co_coordinatorAddress o) = Some (ct_to t) ∧ getAddress (co_from o) = Some (ct_from t) ∧
    to_bigint (co_chainId o) = Ok (ct_chainId t) ∧
    (∃ args, encodeFunctionData action (request :: args) = Ok (ct_data t)) ∧
    (action = "fulfillRandomWords" →
      status request = VBig 1 ∧ ct_gasPrice t <= big_of (prop_opt request "maxGasPriceWei") ∧
      prop_opt request "fulfiller" = VStr (lower (ct_from t))).
Lemma prepare_Ok o n pr n' : prepareCompactTransaction o n = (Ok pr, n') → prepared_for o n pr n'.
Proof.
  intros Hr. unfold prepared_for. set (action := default "fulfillRandomWords" (co_action o)).
  set (fulfils := bool_decide (action = "fulfillRandomWords")). set (t := pr_transaction pr).
  set (request := st_request (pr_snapshot pr)). unfold prepareCompactTransaction in Hr. fold action fulfils in Hr.
  apply eff_require_bind_Ok in Hr as (Haction%bool_decide_eq_true & Hr). split; [done|].
  apply withProviders_Ok in Hr as (ps & Hps & Hr). exists ps. split; [done|]. set (so := scoped o ps fulfils) in *.
  apply eff_bind_Ok in Hr as ([recovered k] & n1 & Hrec & Hr).
  apply eff_bind_Ok in Hr as (proofData & n2 & Hproof & Hr).
  apply eff_lift_bind_Ok in Hr as (gasPrice & _ & Hr). apply eff_lift_bind_Ok in Hr as (gasLimit & _ & Hr).
  apply eff_require_bind_Ok in Hr as (Hgas & Hr).
  apply eff_bind_Ok in Hr as (fresh & n3 & Hfresh & Hr). apply eff_lift_bind_Ok in Hr as (data & Hdata & Hr).
  apply eff_lift_bind_Ok in Hr as (to & Hto%from_option_or_Ok & Hr).
  apply eff_lift_bind_Ok in Hr as (from & Hfrom%from_option_or_Ok & Hr).
  apply eff_lift_bind_Ok in Hr as (chainId & Hchain & Hr).
  apply eff_bind_Ok in Hr as (sims & n4 & Hsims & Hr). apply eff_require_bind_Ok in Hr as (Hsame & Hr).
  apply eff_bind_Ok in Hr as (u & n5 & [Hle5 _]%assertAnchor_Ok & [= <- <-]).
  pose proof Hrec as (ps1 & _ & _ & Hps1 & Hau1 & _)%recover_Ok. apply (endpoints_given _ ps) in Hps1 as ->; [|done].
  apply verify_Ok in Hfresh as (ps2 & Hps2 & Hau2%authentic_witness & Hw & _).
  apply (endpoints_given _ ps) in Hps2 as ->; [|done].
  assert (st_request fresh = st_request recovered) as Heq.
  { cbn in Hw. rewrite (normalize_idem _ (au_normal _ _ _ _ _ Hau1)) in Hw. congruence. }
  pose proof (authentic_le _ _ _ _ _ Hau1). pose proof (authentic_le _ _ _ _ _ Hau2).
  apply eff_mapM_Ok in Hsims as [Hle4 Hsims]; [|intros; apply forward_send].
  assert ((n1 <= n2)%nat ∧ (fulfils = true →
    ∃ a, getAddress (co_from o) = Some a ∧ prop_opt (st_request recovered) "fulfiller" = VStr (lower a))) as [Hle2 Hful].
  { destruct fulfils; [|injection Hproof as _ <-; split; [lia|done]]. apply proveCompact_Ok in Hproof as [? ?]. by split. }
  apply andb_true_iff in Hgas as [[Hg1%Z.ltb_lt Hg2%Z.ltb_lt]%andb_true_iff Hprice%negb_true_iff].
  subst t request. cbn [pr_transaction pr_snapshot pr_simulation ct_gasPrice ct_gasLimit ct_to ct_from ct_chainId ct_data].
  split_and!; try done.
  - exists n3. split; [lia|]. split; [eapply authentic_weaken; [..|exact Hau2]; lia|].
    apply forallb_Forall in Hsame. apply Forall_forall. intros p [i Hi]%list_elem_of_lookup.
    destruct (Forall2_lookup_l _ _ _ _ _ Hsims Hi) as (v & Hv & j & j' & ? & ? & Hs). exists v. split.
    + rewrite Forall_forall in Hsame. apply Hsame. by eapply list_elem_of_lookup_2.
    + exists j. pose proof Hs as [= _ <-]. split; [lia|done].
  - eauto.
  - intros Ha. assert (fulfils = true) as Hf by by apply bool_decide_eq_true. rewrite Hf in Hprice. cbn in Hprice.
    apply Z.ltb_ge in Hprice. rewrite Heq. destruct (Hful Hf) as (a & Hfa & Hfp). change (getAddress (co_from o) = Some from) in Hfrom. split_and!; [|done|congruence].
    destruct (au_endpoints _ _ _ _ _ Hau2) as (m & m' & _ & _ & Hall). destruct Hps as (_ & Hlen & _).
    destruct ps as [|p ps]; [cbn in Hlen; lia|]. apply Forall_cons in Hall as [(_ & _ & _ & _ & Hseed) _].
    rewrite <-Heq. by apply Hseed.
Qed.

(** C24: a transaction that is prepared is for a state that every endpoint committed to
    at a fresh anchor, goes to the coordinator, carries the action and that state, has
    positive gas bounds, and had the same outcome when each endpoint simulated it at
    that anchor.  One that fulfils is prepared only for a pending request, at no more
    than the price of its lane, and from the fulfiller that the request pinned. *)
Theorem prepared_transaction_bound o n pr n' :
  prepareCompactTransaction o n = (Ok pr, n') →
  let action := default "fulfillRandomWords" (co_action o) in
  let fulfils := bool_decide (action = "fulfillRandomWords") in
  let t := pr_transaction pr in
  let request := st_request (pr_snapshot pr) in
  action ∈ COMPACT_ACTIONS ∧
  ∃ providers, endpoints o providers ∧
    (∃ m, (m <= n')%nat ∧ authentic n m providers (scoped o providers fulfils) (pr_snapshot pr) ∧
      Forall (λ p, ∃ v, strict_eq v (pr_simulation pr) = true ∧ simulated m n' t (st_anchor (pr_snapshot pr)) v p)
        providers) ∧
    0 < ct_gasPrice t ∧ 0 < ct_gasLimit t ∧
    getAddress (co_coordinatorAddress o) = Some (ct_to t) ∧ getAddress (co_from o) = Some (ct_from t) ∧
    to_bigint (co_chainId o) = Ok (ct_chainId t) ∧
    (∃ args, encodeFunctionData action (request :: args) = Ok (ct_data t)) ∧
    (action = "fulfillRandomWords" →
      status request = VBig 1 ∧ ct_gasPrice t <= big_of (prop_opt request "maxGasPriceWei") ∧
      prop_opt request "fulfiller" = VStr (lower (ct_from t))).
Proof. apply prepare_Ok. Qed.
End consensus.

(** ** Two endpoints that serve one pending request *)
Section samples.
#[local] Existing Instance sample_ethers.
#[local] Existing Instance sample_ethers_laws.
#[local] Existing Instance sample_url.

Definition sample_chain : value := VNum 46630.
Definition sample_coordinator : string := sample_address "a"%char.
Definition sample_id : Z :=
  Eval vm_compute in match compactRequestId sample_normal with Ok z => z | Throw _ => 0 end.
Definition sample_commitment : string :=
  Eval vm_compute in match compactCommitment sample_normal sample_chain sample_coordinator with Ok s => s | Throw _ => "" end.

#[local] Instance sample_interface : CompactInterface := {|
  encodeFunctionData := λ method _, Ok method;
  decodeFunctionResult := λ _ raw, Ok raw;
  parseLog := λ log, Ok {| l_keyHash := sample_bytes32 "b"%char; l_requestId := sample_id;
                           l_consumer := sample_address "a"%char; l_request := prop_opt log "request" |};
  encodeEventLog := λ k _ _ w, Ok (stringify_fields ((λ kv, (kv.1, serialize_leaf kv.2)) <$> object_fields w), [k]);
  topicHash := sample_bytes32 "e"%char;
  toQuantity := λ z, print_int z;
  toBeHex32 := λ v, Ok (to_str v)
|}.
Definition sample_log : value :=
  VObj [("blockNumber", VStr "95"); ("logIndex", VStr "0"); ("address", VStr sample_coordinator);
        ("blockHash", VStr (sample_bytes32 "d"%char)); ("transactionHash", VStr (sample_bytes32 "f"%char));
        ("data", VStr (match fingerprint sample_normal with Ok t => t | Throw _ => "" end));
        ("topics", VArr [VStr (sample_bytes32 "b"%char)]); ("request", sample_witness 1 0 0 false)].
#[local] Instance sample_send_rpc : RpcSend := {|
  rpc_send := λ _ _ method params,
    if decide (method = "eth_chainId") then Ok (VStr "46630")
    else if decide (method = "eth_blockNumber") then Ok (VStr "100")
    else if decide (method = "eth_getBlockByNumber")
    then Ok (VObj [("hash", VStr (sample_bytes32 "c"%char)); ("number", VStr "100")])
    else if decide (method = "eth_getLogs") then Ok (VArr [sample_log])
    else
      let data := prop_opt (default VUndef (head params)) "data" in
      if decide (data = VStr "commitments") then Ok (VStr sample_commitment)
      else if decide (data = VStr "requestSeed") then Ok (VBig 5)
      else Ok (VStr "0x01")
|}.
Definition sample_compact_options : compact_options :=
  {| co_providers := Some ["a"; "b"]; co_rpcUrls := VUndef; co_allowSharedOrigin := false;
     co_chainId := sample_chain; co_coordinatorAddress := sample_coordinator; co_requestId := VBig sample_id;
     co_keyHash := VStr (sample_bytes32 "B"%char); co_includeSeed := false; co_witness := VUndef;
     co_fromBlock := VNum 90; co_action := None;
     co_proofProvider := Some {| cp_mode := VUndef; cp_prove := λ _ _, Ok (VObj [("proofData", VStr "0x02")]) |};
     co_from := sample_address "a"%char; co_gasPriceWei := VNum 7; co_gasLimit := VUndef |}.

Definition sample_recovered : compact_state * Z :=
  ({| st_request := sample_normal; st_requestId := sample_id; st_commitment := sample_commitment;
      st_actualSeed := VUndef;
      st_anchor := {| a_number := 100; a_tag := "100"; a_hash := VStr (sample_bytes32 "c"%char) |} |}, 1).

Lemma recovered_request_witness : ∃ providers start history,
  endpoints sample_compact_options providers ∧
  validateCompactTransitions (e_witness <$> history) = Ok sample_normal ∧
  Forall (served 0 12 sample_compact_options start 100 history) providers.
Proof.
  assert (recoverCompactRequest sample_compact_options 0%nat = (Ok (sample_recovered.1, sample_recovered.2), 12%nat)) as Hr
    by vm_refl.
  destruct (recovered_request_authentic _ _ _ _ _ Hr) as (ps & start & h & Hps & _ & _ & _ & Hv & Hs & _).
  exists ps, start, h. exact (conj Hps (conj Hv Hs)).
Defined.

Definition sample_prepared : prepared :=
  {| pr_transaction := {| ct_to := sample_coordinator; ct_from := sample_address "a"%char;
       ct_data := "fulfillRandomWords"; ct_gasPrice := 7; ct_gasLimit := 3000000; ct_chainId := 46630 |};
     pr_snapshot := {| st_request := sample_normal; st_requestId := sample_id; st_commitment := sample_commitment;
       st_actualSeed := VBig 5; st_anchor := st_anchor sample_recovered.1 |};
     pr_simulation := VStr "0x01" |}.
Lemma prepared_transaction_witness : status sample_normal = VBig 1 ∧ 7 <= big_of (prop_opt sample_normal "maxGasPriceWei").
Proof.
  destruct (prepareCompactTransaction sample_compact_options 0%nat) as [r n] eqn:E.
  assert (r = Ok sample_prepared) as -> 
    by (apply (f_equal fst) in E; cbn [fst] in E; rewrite <-E; vm_refl).
  destruct (prepared_transaction_bound sample_compact_options 0%nat sample_prepared n E)
    as (_ & ps & _ & _ & _ & _ & _ & _ & _ & _ & Hful).
  destruct (Hful eq_refl) as (Hs & Hp & _). exact (conj Hs Hp).
Defined.
End samples.
