(* ===== verification/ThresholdNode.v ===== *)
(** * A threshold signing node ([threshold-node.mjs])

    The partial response a node signs and its check by the combiner, the
    resolution of the canonical request over independent RPC endpoints, the
    signing state and the audit log on disk, and the handler of the HTTP server.
    The state file holds a JSON document and the audit log one document per line:
    the text of the files is not modelled, a line that is not JSON is [None]. *)

From S2P Require Import Prelude Js Hex CanonicalJson Json Vendor ScalarField ThresholdCrypto ThresholdGroup DkgShares DkgCeremony Policies.

Open Scope Z_scope.

Definition PARTIAL_RESPONSE_FORMAT : string := "robinhood-proof-vrf-threshold-partial/v1".
Definition STATE_FORMAT : string := "robinhood-proof-vrf-threshold-signing-state/v1".
Definition AUDIT_FORMAT : string := "robinhood-proof-vrf-threshold-audit/v1".
Definition ZERO_HASH : string := "0x" +:+ of_chars (replicate 64 "0"%char).

(** What the combiner, or the audit, expects a response to be bound to. *)
Record expected_response := {
  e_manifestHash : value;
  e_keyHash : value;
  e_requestId : value;
  e_message : value
}.

(** A request as the coordinator's [getRequest] returns it, ABI-decoded: the
    addresses and hashes as hex strings, the numbers as integers. *)
Record chain_request := {
  r_consumer : string; r_verifier : string; r_verifierCodeHash : string;
  r_fulfiller : string; r_payee : string; r_keyHash : string;
  r_subscriptionId : Z; r_preSeed : Z; r_reservedPayment : Z; r_randomness : Z;
  r_minimumFeeWei : Z; r_requestBlock : Z; r_expiresAtBlock : Z; r_maxGasPriceWei : Z;
  r_verificationGasLimit : Z; r_proofDataLength : Z; r_callbackGasLimit : Z;
  r_numWords : Z; r_callbackAttempts : Z; r_fulfillmentOverheadGas : Z;
  r_confirmations : Z; r_premiumBps : Z; r_operatorPremiumShareBps : Z; r_status : Z;
  r_sponsored : bool; r_waiveMinimumFee : bool; r_callbackSucceeded : bool
}.

(** What one RPC endpoint answers: the chain, the coordinator's request and seed,
    the adapter's message. *)
Record rpc_endpoint := {
  getNetwork : result Z;
  getRequest : value → result chain_request;
  requestSeed : value → result Z;
  messageFor : string → Z → Z → result string
}.
Class RpcApi := { rpc : string → rpc_endpoint }.
(** ethers decodes a [bytes32] result as a 32-byte hex string. *)
Class RpcLaws `{Ethers, RpcApi} : Prop := {
  messageFor_bytes32 url k s p m : messageFor (rpc url) k s p = Ok m → isHexString m 32 = true
}.

Record canonical_request := {
  c_request : chain_request;
  c_actualSeed : Z;
  c_message : string;
  c_normalized : string
}.

(** ** The disk of a node *)
Record audit_file := {
  private_file : bool;                   (* a regular file with mode 0600 *)
  audit_lines : list (option value)
}.
Record node_disk := {
  state_file : option (result value);
  audit_log : option audit_file
}.

(** [v[k] = x] on an object. *)
Definition set_prop (v : value) (k : string) (x : value) : value :=
  match v with VObj fs => VObj (assoc_set k x fs) | _ => v end.

Definition mapping (v : value) (field key : string) : value := prop_opt (prop_opt v field) key.
Definition set_mapping (v : value) (field key : string) (x : value) : value :=
  set_prop v field (set_prop (prop_opt v field) key x).

Section node.
Context `{Ethers, NobleBls, !NodeCrypto, UrlApi, !SealCrypto, !KeyStorage, RpcApi}.

Definition responseHash (body : value) : result string :=
  text ← canonicalJson body; Ok (keccak256 (toUtf8Bytes text)).

(** [getBytes(v)] *)
Definition value_bytes (v : value) : result bytes :=
  from_option_or "invalid BytesLike value" (as_string v ≫= getBytes).

(** [v.toLowerCase() !== expected.toLowerCase()], negated. *)
Definition same_lower (v expected : value) : result bool :=
  a ← to_lower v; b ← to_lower expected; Ok (bool_decide (a = b)).

Definition verifyPartialResponse (response : value) (p : participant) (expected : expected_response)
    : result value :=
  let body := prop_opt response "body" in
  let bound := "partial response from " +:+ p_id p +:+ " is bound to the wrong request" in
  _ ← require (strict_eq (prop_opt body "format") (VStr PARTIAL_RESPONSE_FORMAT)
               && strict_eq (prop_opt body "participantId") (VStr (p_id p))
               && strict_eq (prop_opt body "index") (VNum (p_index p))) bound;
  same ← same_lower (prop_opt body "manifestHash") (e_manifestHash expected);
  _ ← require same bound;
  same ← same_lower (prop_opt body "keyHash") (e_keyHash expected);
  _ ← require same bound;
  _ ← require (bool_decide (to_str (prop_opt body "requestId") = to_str (e_requestId expected))) bound;
  same ← same_lower (prop_opt body "message") (e_message expected);
  _ ← require same bound;
  let invalid := "partial response from " +:+ p_id p +:+ " has an invalid identity signature" in
  signature ← value_bytes (prop_opt response "identitySignature");
  _ ← require (length signature =? 64)%nat invalid;
  hash ← responseHash body;
  data ← hexBytes hash;
  key ← hexBytes (p_identityPublicKey p);
  _ ← require (ed_verify data key signature) invalid;
  _ ← require (verifyPartialSignature (JsVal (prop_opt body "message"))
                 (JsVal (VStr (p_sharePublicKey p))) (JsVal (prop_opt body "signature")))
        ("partial response from " +:+ p_id p +:+ " has an invalid BLS share");
  Ok body.

Definition partialBody (p : participant) (manifestHash keyHash requestId message signature : string)
    : value :=
  VObj [("format", VStr PARTIAL_RESPONSE_FORMAT); ("participantId", VStr (p_id p));
        ("index", VNum (p_index p)); ("manifestHash", VStr manifestHash);
        ("keyHash", VStr keyHash); ("requestId", VStr requestId); ("message", VStr message);
        ("signature", VStr signature)].

Definition buildPartialResponse (p : participant) (manifestHash keyHash requestId message : string)
    (secretShare : value) (identityPrivateKey : ed_private) : result value :=
  key ← publicKeyForShare secretShare;
  _ ← require (bool_decide (lower key = lower (p_sharePublicKey p)))
        "secret share does not match the manifest share public key";
  signature ← signPartial (JsVal (VStr message)) secretShare;
  let body := partialBody p manifestHash keyHash requestId message signature in
  hash ← responseHash body;
  data ← hexBytes hash;
  Ok (VObj [("body", body);
            ("identitySignature", VStr (hexlify (ed_sign data identityPrivateKey)))]).

(** ** The canonical request *)

Definition normalizeCanonicalRequest (r : chain_request) (actualSeed : Z) (message : string)
    : result string :=
  let text := λ s, VStr (lower s) in
  let big := λ z, VStr (print_int z) in
  canonicalJson (VObj
    [("consumer", text (r_consumer r)); ("verifier", text (r_verifier r));
     ("verifierCodeHash", text (r_verifierCodeHash r)); ("fulfiller", text (r_fulfiller r));
     ("payee", text (r_payee r)); ("keyHash", text (r_keyHash r));
     ("subscriptionId", big (r_subscriptionId r)); ("preSeed", big (r_preSeed r));
     ("reservedPayment", big (r_reservedPayment r)); ("randomness", big (r_randomness r));
     ("minimumFeeWei", big (r_minimumFeeWei r)); ("requestBlock", big (r_requestBlock r));
     ("expiresAtBlock", big (r_expiresAtBlock r)); ("maxGasPriceWei", big (r_maxGasPriceWei r));
     ("verificationGasLimit", VNum (r_verificationGasLimit r));
     ("proofDataLength", VNum (r_proofDataLength r));
     ("callbackGasLimit", VNum (r_callbackGasLimit r)); ("numWords", VNum (r_numWords r));
     ("callbackAttempts", VNum (r_callbackAttempts r));
     ("fulfillmentOverheadGas", VNum (r_fulfillmentOverheadGas r));
     ("confirmations", VNum (r_confirmations r)); ("premiumBps", VNum (r_premiumBps r));
     ("operatorPremiumShareBps", VNum (r_operatorPremiumShareBps r));
     ("status", VNum (r_status r)); ("sponsored", VBool (r_sponsored r));
     ("waiveMinimumFee", VBool (r_waiveMinimumFee r));
     ("callbackSucceeded", VBool (r_callbackSucceeded r));
     ("actualSeed", big actualSeed); ("message", text message)]).

(** What one endpoint says about a request. *)
Definition readCanonical (g : group) (requestId : value) (url : string)
    : result canonical_request :=
  let provider := rpc url in
  chainId ← getNetwork provider;
  _ ← require (chainId =? b_chainId (g_body g))
        ("RPC chain " +:+ print_int chainId +:+ " does not match the threshold manifest");
  request ← getRequest provider requestId;
  _ ← require (r_status request =? 1) "request is not pending";
  _ ← require (bool_decide (lower (r_keyHash request) = lower (g_keyHash g)))
        "request keyHash does not match the threshold group";
  _ ← require (bool_decide (lower (r_verifier request) = lower (b_verifierAdapter (g_body g))))
        "request verifier does not match the threshold adapter";
  actualSeed ← requestSeed provider requestId;
  message ← messageFor provider (g_keyHash g) actualSeed (r_preSeed request);
  normalized ← normalizeCanonicalRequest request actualSeed message;
  Ok {| c_request := request; c_actualSeed := actualSeed; c_message := message;
        c_normalized := normalized |}.

Definition SIGNING_POLICY : rpc_policy :=
  {| minimum := 2; label := "threshold signing"; allowSharedOrigin := false |}.

Definition resolveCanonicalRequest (rpcUrls : value) (g : group) (requestId : value)
    : result canonical_request :=
  endpoints ← normalizeRpcUrls rpcUrls SIGNING_POLICY;
  states ← mapM (readCanonical g requestId) endpoints;
  match states with
  | [] => Throw TYPE_ERROR
  | first :: _ =>
      _ ← require (forallb (λ s, bool_decide (c_normalized s = c_normalized first)) states)
            "independent RPC endpoints disagree on the canonical request";
      Ok first
  end.

(** ** State and audit log *)

Definition atomicWrite (v : value) : eff node_disk unit :=
  eff_modify (λ d, {| state_file := Some (Ok v); audit_log := audit_log d |}).

Definition initialState (manifestHash : string) : value :=
  VObj [("format", VStr STATE_FORMAT); ("manifestHash", VStr manifestHash);
        ("signedRequests", VObj []); ("auditedRequests", VObj []);
        ("auditHead", VStr ZERO_HASH)].

(** [state.k ??= d] *)
Definition default_prop (v : value) (k : string) (d : value) : value :=
  match prop_opt v k with VUndef | VNull => set_prop v k d | _ => v end.

Definition loadSigningState (d : node_disk) (manifestHash : string) : result value :=
  match state_file d with
  | None => Ok (initialState manifestHash)
  | Some contents =>
      let mismatch := "threshold signing state does not match this manifest" in
      state ← contents;
      format ← prop state "format";
      _ ← require (strict_eq format (VStr STATE_FORMAT)) mismatch;
      stored ← to_lower (prop_opt state "manifestHash");
      _ ← require (bool_decide (stored = lower manifestHash)
                   && truthy (prop_opt state "signedRequests")
                   && bool_decide (typeof (prop_opt state "signedRequests") = "object")) mismatch;
      Ok (default_prop (default_prop state "auditedRequests" (VObj [])) "auditHead"
            (VStr ZERO_HASH))
  end.

(** The identity the audit log is checked against. *)
Record node_identity := {
  n_participant : participant;
  n_manifestHash : string;
  n_keyHash : string
}.

(** The head of the chain and the audited requests so far. *)
Record audit_progress := { head_hash : string; audited : list (string * value) }.

Definition checkAuditRecord (state : value) (n : node_identity) (acc : audit_progress)
    (line : option value) : result audit_progress :=
  record ← from_option_or "SyntaxError" line;
  let invalid := "threshold audit log contains an invalid or duplicate record" in
  let requestId := to_str (prop_opt record "requestId") in
  let message := prop_opt record "message" in
  format ← prop record "format";
  _ ← require (strict_eq format (VStr AUDIT_FORMAT) && all_digits requestId
               && hex_string 64 (to_str message)
               && hex_string 192 (to_str (prop_opt record "signature"))
               && hex_string 128 (to_str (prop_opt record "identitySignature"))
               && negb (truthy (default VUndef (assoc requestId (audited acc))))) invalid;
  linked ← match prop_opt record "previousHash" with
           | VUndef | VNull => Ok false
           | v => p ← to_lower v; Ok (bool_decide (p = lower (head_hash acc)))
           end;
  _ ← require linked "threshold audit log hash chain is broken";
  let body := VObj (assoc_delete "eventHash" (match record with VObj fs => fs | _ => [] end)) in
  calculated ← responseHash body;
  matches ← match prop_opt record "eventHash" with
            | VUndef | VNull => Ok false
            | v => h ← to_lower v; Ok (bool_decide (lower calculated = h))
            end;
  _ ← require matches "threshold audit log event hash is invalid";
  let signed := mapping state "signedRequests" requestId in
  let conflict := "threshold audit log conflicts with anti-equivocation state" in
  _ ← require (truthy signed) conflict;
  same ← same_lower signed message;
  _ ← require same conflict;
  _ ← verifyPartialResponse
        (VObj [("body", VObj
           [("format", VStr PARTIAL_RESPONSE_FORMAT);
            ("participantId", prop_opt record "participantId");
            ("index", VNum (p_index (n_participant n)));
            ("manifestHash", prop_opt record "manifestHash");
            ("keyHash", prop_opt record "keyHash"); ("requestId", VStr requestId);
            ("message", message); ("signature", prop_opt record "signature")]);
          ("identitySignature", prop_opt record "identitySignature")])
        (n_participant n)
        {| e_manifestHash := VStr (n_manifestHash n); e_keyHash := VStr (n_keyHash n);
           e_requestId := prop_opt record "requestId"; e_message := message |};
  Ok {| head_hash := to_str (prop_opt record "eventHash");
        audited := assoc_set requestId (prop_opt record "eventHash") (audited acc) |}.

Definition UNSAFE_LOG : string := "threshold audit log must be a mode-0600 regular file".

(** The state after reading the log; an absent log changes nothing. *)
Definition loadAuditLog (state : value) (n : node_identity) : eff node_disk value := λ d,
  match audit_log d with
  | None => (Ok state, d)
  | Some file =>
      (_ ← eff_require (private_file file) UNSAFE_LOG;
       progress ← eff_lift (foldM (checkAuditRecord state n)
                     {| head_hash := ZERO_HASH; audited := [] |} (audit_lines file));
       let state := set_prop (set_prop state "auditedRequests" (VObj (audited progress)))
                      "auditHead" (VStr (head_hash progress)) in
       _ ← atomicWrite state;
       mret state) d
  end.

Definition append_line (v : value) : eff node_disk unit :=
  eff_modify (λ d, {|
    state_file := state_file d;
    audit_log := match audit_log d with
      | Some f => Some {| private_file := private_file f; audit_lines := audit_lines f ++ [Some v] |}
      | None => Some {| private_file := true; audit_lines := [Some v] |}
      end |}).

(** The record of an audited response: its fields, the head of the chain and the
    hash of both. *)
Definition auditRecord (state body : value) : result value :=
  let record := set_prop body "previousHash" (prop_opt state "auditHead") in
  eventHash ← responseHash record;
  Ok (set_prop record "eventHash" (VStr eventHash)).

(** [appendAuditRecord]: the state with the new head. *)
Definition appendAuditRecord (state body : value) : eff node_disk value := λ d,
  (_ ← eff_require (match audit_log d with Some f => private_file f | None => true end) UNSAFE_LOG;
   record ← eff_lift (auditRecord state body);
   _ ← append_line record;
   let eventHash := prop_opt record "eventHash" in
   mret (set_mapping (set_prop state "auditHead" eventHash) "auditedRequests"
           (to_str (prop_opt body "requestId")) eventHash)) d.

(** ** The node *)
Record node := {
  n_group : group;
  n_identity : node_identity;
  n_secretShare : value;
  n_identityKey : ed_private
}.

Record node_options := {
  o_manifest : value;
  o_groupOptions : group_options;
  o_keystore : value;
  o_password : string;
  o_bearerToken : string;                (* empty when none is configured *)
  o_rpcUrls : value;
  o_host : string;
  o_statePath : string;
  o_auditPath : string
}.

(** The checks of [startThresholdNode] before it reads the disk. *)
Definition openNode (o : node_options) : result node :=
  _ ← require (negb (bool_decide (o_statePath o = ""))) "threshold signing state path is required";
  _ ← require (negb (bool_decide (o_auditPath o = "")))
        "threshold append-only audit log path is required";
  _ ← require (negb (allowLoopback (o_groupOptions o))
               || bool_decide (o_host o ∈ LOOPBACK_HOSTS))
        "plaintext threshold mode may bind only to a loopback host";
  g ← validateGroupManifest (o_manifest o) (o_groupOptions o);
  loaded ← loadKeystore (o_keystore o) (o_password o);
  bound ← match prop_opt (secret loaded) "thresholdManifestHash" with
          | VUndef | VNull => Ok false
          | v => h ← to_lower v; Ok (bool_decide (h = lower (g_manifestHash g)))
          end;
  _ ← require bound "threshold share keystore is not bound to this manifest";
  p ← from_option_or "threshold share owner is not in the manifest"
        (find_first (λ p, strict_eq (VStr (p_id p)) (prop_opt (o_keystore o) "participantId"))
           (b_participants (g_body g)));
  let share := prop_opt (secret loaded) "thresholdShare" in
  _ ← require (truthy share) "threshold keystore has no secret share";
  let mismatch := "threshold keystore identity or share does not match the manifest" in
  identity ← to_lower (prop_opt (o_keystore o) "identityPublicKey");
  _ ← require (bool_decide (lower (p_identityPublicKey p) = identity)) mismatch;
  transport ← to_lower (prop_opt (o_keystore o) "transportPublicKey");
  _ ← require (bool_decide (lower (p_transportPublicKey p) = transport)) mismatch;
  key ← publicKeyForShare share;
  _ ← require (bool_decide (lower key = lower (p_sharePublicKey p))) mismatch;
  Ok {| n_group := g;
        n_identity := {| n_participant := p; n_manifestHash := g_manifestHash g;
                         n_keyHash := g_keyHash g |};
        n_secretShare := share; n_identityKey := identityPrivateKey loaded |}.

(** The signing state a node starts with, from the disk. *)
Definition loadNode (n : node) : eff node_disk value := λ d,
  (state ← eff_lift (loadSigningState d (n_manifestHash (n_identity n)));
   loadAuditLog state (n_identity n)) d.

(** ** The section of the queue that signs a request

    The handlers of concurrent requests interleave only at their awaits, and the
    queue runs one section at a time; a section is synchronous.  Its state is the
    signing state in memory and the disk. *)
Record node_world := { memory : value; disk : node_disk }.

Definition on_disk {A} (m : eff node_disk A) : eff node_world A := λ w,
  let '(r, d) := m (disk w) in (r, {| memory := memory w; disk := d |}).
Definition set_memory (v : value) : eff node_world unit :=
  eff_modify (λ w, {| memory := v; disk := disk w |}).
Definition get_memory : eff node_world value := λ w, (Ok (memory w), w).

(** Refusal of a conflicting message, and the durable reservation of this one. *)
Definition reserveMessage (requestId message : string) : eff node_world unit :=
  state ← get_memory;
  let previous := mapping state "signedRequests" requestId in
  _ ← (if truthy previous then
         same ← eff_lift (same_lower previous (VStr message));
         eff_require same "refusing to sign a conflicting message for this requestId"
       else mret tt);
  let state := set_mapping state "signedRequests" requestId (VStr message) in
  _ ← set_memory state;
  on_disk (atomicWrite state).

Definition auditBody (n : node_identity) (requestId message signedAt : string) (response : value)
    : value :=
  VObj [("format", VStr AUDIT_FORMAT); ("signedAt", VStr signedAt);
        ("participantId", VStr (p_id (n_participant n)));
        ("manifestHash", VStr (n_manifestHash n)); ("keyHash", VStr (n_keyHash n));
        ("requestId", VStr requestId); ("message", VStr message);
        ("signature", prop_opt (prop_opt response "body") "signature");
        ("identitySignature", prop_opt response "identitySignature")].

(** The append to the audit log, up to the write of the state that follows it. *)
Definition auditResponse (n : node) (requestId message signedAt : string) (response : value)
    : eff node_world unit :=
  state ← get_memory;
  state ← on_disk (appendAuditRecord state
            (auditBody (n_identity n) requestId message signedAt response));
  set_memory state.

Definition signSection (n : node) (requestId message signedAt : string) : eff node_world value :=
  _ ← reserveMessage requestId message;
  response ← eff_lift (buildPartialResponse (n_participant (n_identity n))
     (n_manifestHash (n_identity n)) (n_keyHash (n_identity n)) requestId message
     (n_secretShare n) (n_identityKey n));
  state ← get_memory;
  _ ← (if truthy (mapping state "auditedRequests" requestId) then mret tt
       else
         _ ← auditResponse n requestId message signedAt response;
         state ← get_memory;
         on_disk (atomicWrite state));
  mret response.

(** ** The handler *)
Record http_request := {
  authorization : value;
  method : string;
  url_path : string;
  http_body : result value               (* [readBody]: the JSON document, or its error *)
}.
Record http_response := { statusCode : Z; payload : value }.

(** [readBody]: the chunks of the request, refused above 4096 bytes. *)
Definition readBody (chunks : list bytes) : result value :=
  _ ← foldM (λ length chunk,
        let length := length + Z.of_nat (List.length chunk) in
        if 4096 <? length then Throw "request body is too large" else Ok length) 0 chunks;
  JSON_parse (utf8_decode (concat chunks)).

Definition error_response (code : Z) (message : string) : http_response :=
  {| statusCode := code; payload := VObj [("error", VStr message)] |}.

Definition signRequest (n : node) (o : node_options) (signedAt : string) (request : http_request)
    : eff node_world value :=
  body ← eff_lift (http_body request);
  requestId ← eff_lift (prop body "requestId");
  _ ← eff_require (all_digits (to_str requestId)) "requestId must be an integer";
  canonical ← eff_lift (resolveCanonicalRequest (o_rpcUrls o) (n_group n) requestId);
  signSection n (to_str requestId) (c_message canonical) signedAt.

Definition handler (n : node) (o : node_options) (signedAt : string) (request : http_request)
    : eff node_world http_response :=
  if negb (bool_decide (o_bearerToken o = ""))
     && negb (strict_eq (authorization request) (VStr ("Bearer " +:+ o_bearerToken o)))
  then mret (error_response 401 "unauthorized")
  else if bool_decide (method request = "GET") && bool_decide (url_path request = "/v1/status")
  then mret {| statusCode := 200; payload := VObj
         [("status", VStr "ready"); ("participantId", VStr (p_id (n_participant (n_identity n))));
          ("index", VNum (p_index (n_participant (n_identity n))));
          ("manifestHash", VStr (n_manifestHash (n_identity n)));
          ("keyHash", VStr (n_keyHash (n_identity n)));
          ("epoch", VNum (b_epoch (g_body (n_group n))))] |}
  else if negb (bool_decide (method request = "POST"))
          || negb (bool_decide (url_path request = "/v1/partial"))
  then mret (error_response 404 "not found")
  else eff_catch
    (response ← signRequest n o signedAt request;
     mret {| statusCode := 200; payload := response |})
    (λ message, mret (error_response 400 message)).
End node.
