(* ===== verification/NodeSafety.v ===== *)
(** * What a signing node guarantees across crashes ([threshold-node.mjs])

    A node is a machine with a signing state in memory while its process runs, a
    disk, and the responses it has sent.  It starts, answers requests, and may
    stop at any point between two writes.  Each request sees its own answers of
    the RPC endpoints. *)

From S2P Require Import Prelude Js Hex CanonicalJson Json Vendor ScalarField ThresholdCrypto ThresholdGroup DkgShares DkgCeremony Policies ThresholdNode Samples.

Open Scope Z_scope.

Record machine := Machine {
  up : option value;                     (* the signing state of a running process *)
  on : node_disk;
  sent : list http_response
}.

(** ** Documents with a map of signed requests *)

Definition signed_object (v : value) : Prop := ∃ fs, prop_opt v "signedRequests" = VObj fs.

(** The state reserves the message for the request, up to case. *)
Definition reserved (v : value) (requestId message : string) : Prop :=
  ∃ s, mapping v "signedRequests" requestId = VStr s ∧ s ≠ "" ∧ lower s = lower message.

Definition extends (v v' : value) : Prop :=
  signed_object v → signed_object v' ∧ ∀ r x, reserved v r x → reserved v' r x.

#[export] Instance extends_preorder : PreOrder extends.
Proof.
  split.
  - intros v Hv. done.
  - intros u v w Huv Hvw [Hv Hr]%Huv. apply Hvw in Hv as [Hw Hr']. auto.
Qed.

Lemma extends_same v v' :
  prop_opt v' "signedRequests" = prop_opt v "signedRequests" → extends v v'.
Proof.
  intros E Hv. unfold signed_object, reserved, mapping in *. rewrite E. auto.
Qed.

Lemma prop_opt_set_prop_ne v k k' x : k' ≠ k → prop_opt (set_prop v k x) k' = prop_opt v k'.
Proof. intros Hk. destruct v; try done. cbn. by rewrite assoc_assoc_set_ne. Qed.

Lemma prop_opt_set_prop fs k x : prop_opt (set_prop (VObj fs) k x) k = x.
Proof. cbn. by rewrite assoc_assoc_set. Qed.

Lemma extends_set_prop v k x : k ≠ "signedRequests" → extends v (set_prop v k x).
Proof. intros Hk. apply extends_same, prop_opt_set_prop_ne. done. Qed.

Lemma extends_set_mapping v f k x : f ≠ "signedRequests" → extends v (set_mapping v f k x).
Proof. intros Hk. by apply extends_set_prop. Qed.

Lemma extends_default_prop v k x : k ≠ "signedRequests" → extends v (default_prop v k x).
Proof.
  intros Hk. unfold default_prop. case_match; try reflexivity; by apply extends_set_prop.
Qed.

Lemma signed_object_obj v : signed_object v → ∃ fs, v = VObj fs.
Proof. intros [fs E]. destruct v; try done. eauto. Qed.

(** Entering a message that does not contradict the one reserved. *)
Lemma mapping_set_mapping v k x :
  signed_object v → mapping (set_mapping v "signedRequests" k x) "signedRequests" k = x.
Proof.
  intros Hv. destruct (signed_object_obj v Hv) as [vs ->]. destruct Hv as [fs E].
  unfold mapping, set_mapping. rewrite prop_opt_set_prop, E. apply prop_opt_set_prop.
Qed.

Lemma extends_sign v r x :
  (truthy (mapping v "signedRequests" r) = true →
   same_lower (mapping v "signedRequests" r) (VStr x) = Ok true) →
  extends v (set_mapping v "signedRequests" r (VStr x)).
Proof.
  intros Hc Hv. pose proof (mapping_set_mapping v r (VStr x) Hv) as Hx.
  destruct (signed_object_obj v Hv) as [vs ->]. destruct Hv as [fs E]. split.
  { exists (assoc_set r (VStr x) fs). unfold set_mapping. by rewrite prop_opt_set_prop, E. }
  intros r' x' (s & Hs & Hne & Hl). destruct (decide (r' = r)) as [->|Hr].
  - exists x. rewrite Hx. rewrite Hs in Hc.
    assert (same_lower (VStr s) (VStr x) = Ok true) as Hsame.
    { apply Hc. cbn. by rewrite bool_decide_false. }
    cbn in Hsame. injection Hsame as Hsame%bool_decide_eq_true. split_and!; [done| |congruence].
    intros ->. apply Hne, chars_inj.
    apply (f_equal String.length) in Hsame. rewrite !length_lower in Hsame. by destruct s.
  - exists s. split; [|done]. rewrite <-Hs. unfold mapping, set_mapping.
    rewrite prop_opt_set_prop, E. by apply prop_opt_set_prop_ne.
Qed.

(** ** The sections a process runs *)

Definition on_state (w : node_world) : option (result value) := state_file (disk w).

(** What running changes: the reservations in memory grow, and the state file
    is left alone or holds a state with at least those of the memory. *)
Definition advances (w w' : node_world) : Prop :=
  extends (memory w) (memory w') ∧
  (on_state w' = on_state w ∨ ∃ v, on_state w' = Some (Ok v) ∧ extends (memory w) v).

#[export] Instance advances_preorder : PreOrder advances.
Proof.
  split.
  - intros w. split; [reflexivity|auto].
  - intros w1 w2 w3 [H12 D12] [H23 D23]. split; [by trans (memory w2)|].
    destruct D23 as [->|(v & E & Hv)]; [done|]. right. exists v. split; [done|].
    by trans (memory w2).
Qed.

(** A message is reserved in memory and on the disk. *)
Definition holds (w : node_world) (r x : string) : Prop :=
  reserved (memory w) r x ∧ ∃ v, on_state w = Some (Ok v) ∧ reserved v r x.

Lemma advances_holds w w' r x :
  signed_object (memory w) → advances w w' → holds w r x → holds w' r x.
Proof.
  intros Ho [[_ Hm]%(λ f : extends _ _, f Ho) Hd] (Hr & v & E & Hv). split; [by apply Hm|].
  destruct Hd as [->|(v' & -> & [_ Hv']%(λ f : extends _ _, f Ho))]; eauto.
Qed.

Section sections.
Context `{Ethers, NobleBls, !NodeCrypto, UrlApi, !SealCrypto, !KeyStorage}.
Implicit Types w : node_world.

Lemma wp_get_memory_bind {A} (f : value → eff node_world A) Q w :
  wp (f (memory w)) Q w → wp (get_memory ≫= f) Q w.
Proof. done. Qed.

(** The world after the reservation of a message. *)
Definition reserve_in (w : node_world) (r x : string) : node_world :=
  let state := set_mapping (memory w) "signedRequests" r (VStr x) in
  {| memory := state;
     disk := {| state_file := Some (Ok state); audit_log := audit_log (disk w) |} |}.

Lemma reserveMessage_cases r x w :
  wp (reserveMessage r x) (λ res w',
    match res with
    | Ok _ => w' = reserve_in w r x ∧
        (truthy (mapping (memory w) "signedRequests" r) = true →
         same_lower (mapping (memory w) "signedRequests" r) (VStr x) = Ok true)
    | Throw _ => w' = w
    end) w.
Proof.
  unfold reserveMessage. apply wp_get_memory_bind, wp_bind.
  set (previous := mapping (memory w) "signedRequests" r).
  eapply (wp_mono _ (λ res w', w' = w ∧
    (res = Ok tt → truthy previous = true → same_lower previous (VStr x) = Ok true))).
  - destruct (truthy previous); [|by apply wp_ret].
    apply wp_lift_bind; [|done]. intros [] E; by apply wp_lift.
  - intros [[]|e] w' [-> Hc]; [|done]. split; [done|]. by apply Hc.
Qed.

Lemma reserve_in_advances w r x :
  (truthy (mapping (memory w) "signedRequests" r) = true →
   same_lower (mapping (memory w) "signedRequests" r) (VStr x) = Ok true) →
  advances w (reserve_in w r x).
Proof. intros Hext%extends_sign. split; [done|]. right. by eexists. Qed.

Lemma reserveMessage_wp r x w :
  signed_object (memory w) →
  wp (reserveMessage r x) (λ res w', advances w w' ∧
    (res = Ok tt → mapping (memory w') "signedRequests" r = VStr x ∧
                   on_state w' = Some (Ok (memory w')))) w.
Proof.
  intros Hw. eapply wp_mono; [apply reserveMessage_cases|].
  intros [[]|e] w'; [|by intros ->].
  intros [-> Hc]. split; [by apply reserve_in_advances|]. intros _.
  split; [by apply mapping_set_mapping|done].
Qed.

Lemma wp_on_disk {A} (m : eff node_disk A) Q w :
  wp m (λ r d, Q r {| memory := memory w; disk := d |}) (disk w) → wp (on_disk m) Q w.
Proof. unfold wp, on_disk. by destruct (m (disk w)). Qed.

Lemma appendAuditRecord_wp state body d :
  wp (appendAuditRecord state body) (λ res d', state_file d' = state_file d ∧
    ∀ v, res = Ok v → extends state v) d.
Proof.
  unfold appendAuditRecord, wp at 1. destruct (match audit_log d with Some f => _ | None => _ end).
  2: { by split. }
  cbn -[set_mapping set_prop]. unfold eff_lift.
  destruct (auditRecord state body) as [record|]; cbn -[set_mapping set_prop]; [|by split].
  split; [done|]. intros v [= <-].
  etrans; [by apply (extends_set_prop _ "auditHead")|by apply extends_set_mapping].
Qed.

Lemma auditResponse_wp n r x at_ response w :
  wp (auditResponse n r x at_ response) (λ _ w', advances w w') w.
Proof.
  unfold auditResponse. apply wp_get_memory_bind, wp_bind, wp_on_disk.
  eapply wp_mono; [apply appendAuditRecord_wp|]. intros [v|e] d [E Hv]; split; cbn.
  - by apply Hv.
  - left. by unfold on_state.
  - done.
  - left. by unfold on_state.
Qed.

(** The responses of a section, by the request they answer. *)
Definition answers (response : value) (r x : string) : Prop :=
  mapping response "body" "requestId" = VStr r ∧ mapping response "body" "message" = VStr x.

Lemma buildPartialResponse_answers p mh kh r x share key response :
  buildPartialResponse p mh kh r x share key = Ok response →
  answers response r x ∧ is_Some (getBytes x).
Proof.
  unfold buildPartialResponse. intros Hb. apply bind_Ok in Hb as (? & _ & Hb).
  apply bind_Ok in Hb as (? & _ & Hb). apply bind_Ok in Hb as (sig & Hsig & Hb).
  apply bind_Ok in Hb as (? & _ & Hb). apply bind_Ok in Hb as (? & _ & [= <-]).
  split; [done|]. unfold signPartial in Hsig. apply bind_Ok in Hsig as (? & _ & Hsig).
  apply bind_Ok in Hsig as (? & _ & Hsig). apply bind_Ok in Hsig as (m & Hm & _).
  apply from_option_or_Ok in Hm. eauto.
Qed.
End sections.

Section handling.
Context `{Ethers, !EthersLaws, NobleBls, !NodeCrypto, UrlApi, !SealCrypto, !KeyStorage}.
Implicit Types w : node_world.

Lemma getBytes_nonempty x : is_Some (getBytes x) → x ≠ "".
Proof. intros [b Hb%getBytes_spec] ->. discriminate. Qed.

Lemma signSection_wp n r x at_ w :
  signed_object (memory w) →
  wp (signSection n r x at_) (λ res w', advances w w' ∧
    ∀ response, res = Ok response → answers response r x ∧ holds w' r x) w.
Proof.
  intros Hw. unfold signSection. apply wp_bind.
  eapply wp_mono; [by apply reserveMessage_wp|]. intros [[]|e] w1 [A1 Hok]; [|by split].
  destruct (Hok eq_refl) as [Hm Hd]. clear Hok.
  assert (signed_object (memory w1)) as Hw1 by (destruct A1 as [A1 _]; by apply A1).
  apply wp_lift_bind; [|by split]. intros response Hr.
  apply buildPartialResponse_answers in Hr as [Ha Hx%getBytes_nonempty].
  assert (holds w1 r x) as Hh by (split; [by exists x|]; exists (memory w1); split; [done|by exists x]).
  apply wp_get_memory_bind, wp_bind.
  eapply (wp_mono _ (λ _ w', advances w1 w')).
  - destruct (truthy _); [by apply wp_ret|]. apply wp_bind.
    eapply wp_mono; [apply auditResponse_wp|]. intros [[]|e] w2 A2; [|done].
    apply wp_get_memory_bind. unfold wp. trans w2; [done|]. split; [done|].
    right. by exists (memory w2).
  - intros [[]|e] w2 A2; cbn; (split; [by trans w1|]); [|done].
    intros ? [= <-]. split; [done|]. by apply (advances_holds w1).
Qed.

Lemma handler_wp `{RpcApi} n o at_ request w :
  signed_object (memory w) →
  wp (handler n o at_ request) (λ res w', advances w w' ∧
    ∀ response r x, res = Ok response → answers (payload response) r x → holds w' r x) w.
Proof.
  intros Hw. unfold handler.
  assert (∀ c e r x, ¬ answers (payload (error_response c e)) r x) as He by (by intros ???? []).
  repeat case_match; try (apply wp_ret; split; [reflexivity|];
    intros ? r x [= <-] Ha; by first [destruct (He _ _ _ _ Ha)|destruct Ha]).
  apply wp_catch, wp_bind. unfold signRequest.
  assert (∀ e, wp (mret (error_response 400 e)) (λ res w', advances w w' ∧
    ∀ response r x, res = Ok response → answers (payload response) r x → holds w' r x) w) as Hthrow.
  { intros e. apply wp_ret. split; [reflexivity|]. intros ? r x [= <-] Ha. by destruct (He _ _ _ _ Ha). }
  apply wp_lift_bind; [|intros; apply Hthrow]. intros body _.
  apply wp_lift_bind; [|intros; apply Hthrow]. intros requestId _.
  apply wp_require_bind; [|intros; apply Hthrow]. intros _.
  apply wp_lift_bind; [|intros; apply Hthrow]. intros canonical _.
  eapply wp_mono; [by apply signSection_wp|]. intros [response|e] w' [A Hr].
  - apply wp_ret. split; [done|]. intros ? r x [= <-] [Hid Hm]. cbn in Hid, Hm.
    destruct (Hr _ eq_refl) as [[Hid' Hm'] Hh]. congruence.
  - apply wp_ret. split; [done|]. intros ? r x [= <-] Ha. by destruct (He _ _ _ _ Ha).
Qed.

Lemma loadSigningState_extends d mh v :
  loadSigningState d mh = Ok v →
  match state_file d with
  | Some (Ok u) => extends u v
  | Some (Throw _) => False
  | None => signed_object v
  end.
Proof.
  unfold loadSigningState. destruct (state_file d) as [[u|]|]; [|done|].
  - cbn. intros Hl. apply bind_Ok in Hl as (? & _ & Hl). apply bind_Ok in Hl as (? & _ & Hl).
    apply bind_Ok in Hl as (? & _ & Hl). apply bind_Ok in Hl as (? & _ & [= <-]).
    etrans; [by apply (extends_default_prop _ "auditedRequests")|by apply extends_default_prop].
  - intros [= <-]. by eexists.
Qed.

(** Starting keeps every reservation of the state file. *)
Lemma loadNode_wp n d :
  wp (loadNode n) (λ res d',
    (state_file d' = state_file d ∨
     ∃ u v, loadSigningState d (n_manifestHash (n_identity n)) = Ok u ∧ extends u v ∧
            state_file d' = Some (Ok v)) ∧
    ∀ v, res = Ok v → ∃ u, loadSigningState d (n_manifestHash (n_identity n)) = Ok u ∧ extends u v) d.
Proof.
  unfold loadNode, wp, mbind, eff_bind, eff_lift.
  destruct (loadSigningState d _) as [u|] eqn:Hu; [|split; [by left|done]].
  assert (∀ x y, extends u (set_prop (set_prop u "auditedRequests" x) "auditHead" y)) as Hv.
  { intros x y. etrans; [by apply (extends_set_prop u "auditedRequests")|].
    by apply extends_set_prop. }
  unfold loadAuditLog. destruct (audit_log d) as [file|]; cbn.
  2: { split; [by left|]. intros ? [= <-]. by exists u. }
  destruct (private_file file); cbn; [|split; [by left|done]].
  destruct (foldM _ _ _) as [progress|]; cbn; [|split; [by left|done]].
  split.
  - right. eexists u, _. split_and!; [done|apply Hv|done].
  - intros ? [= <-]. exists u. split; [done|apply Hv].
Qed.
End handling.

(** ** The machine *)
Section machine.
Context `{Ethers, NobleBls, !NodeCrypto, UrlApi, !SealCrypto, !KeyStorage}.
Context (n : node) (o : node_options) (tearing : bool).

Definition running (m : machine) (state : value) : node_world :=
  {| memory := state; disk := on m |}.

(** One step of the process or of its environment.  A crash loses the memory; it
    falls before, between or after the writes of a section, or, when writes can
    tear, in the middle of an append. *)
Inductive machine_step : machine → machine → Prop :=
| start_step m state d :
    loadNode n (on m) = (Ok state, d) → machine_step m (Machine (Some state) d (sent m))
| refuse_step m e d :
    loadNode n (on m) = (Throw e, d) → machine_step m (Machine None d (sent m))
| handle_step (api : RpcApi) m state signedAt request response w :
    RpcLaws → up m = Some state →
    handler n o signedAt request (running m state) = (Ok response, w) →
    machine_step m (Machine (Some (memory w)) (disk w) (response :: sent m))
| crash_step m : machine_step m (Machine None (on m) (sent m))
| crash_reserved_step m state requestId message w :
    up m = Some state → all_digits requestId = true → isHexString message 32 = true →
    reserveMessage requestId message (running m state) = (Ok tt, w) →
    machine_step m (Machine None (disk w) (sent m))
| crash_audited_step m state requestId message signedAt response w1 w2 :
    up m = Some state → all_digits requestId = true → isHexString message 32 = true →
    reserveMessage requestId message (running m state) = (Ok tt, w1) →
    buildPartialResponse (n_participant (n_identity n)) (n_manifestHash (n_identity n))
      (n_keyHash (n_identity n)) requestId message (n_secretShare n) (n_identityKey n)
      = Ok response →
    truthy (mapping (memory w1) "auditedRequests" requestId) = false →
    auditResponse n requestId message signedAt response w1 = (Ok tt, w2) →
    machine_step m (Machine None (disk w2) (sent m))
| tear_step m file :
    tearing = true → audit_log (on m) = Some file →
    machine_step m (Machine None
      {| state_file := state_file (on m);
         audit_log := Some {| private_file := private_file file;
                              audit_lines := audit_lines file ++ [None] |} |} (sent m)).

(** A node that has answered nothing, on a disk without a state file or with a
    state file that maps requests to messages. *)
Definition fresh (m : machine) : Prop :=
  up m = None ∧ sent m = [] ∧ ∀ v, state_file (on m) = Some (Ok v) → signed_object v.

Definition machine_ok (m : machine) : Prop :=
  (∀ v, state_file (on m) = Some (Ok v) → signed_object v) ∧
  (∀ v, up m = Some v → signed_object v) ∧
  ∀ response r x, response ∈ sent m → answers (payload response) r x →
    (∃ v, state_file (on m) = Some (Ok v) ∧ reserved v r x) ∧
    ∀ v, up m = Some v → reserved v r x.
End machine.

(** Runs as functions, for concrete executions. *)
Section runs.
Context `{Ethers, NobleBls, !NodeCrypto, UrlApi, !SealCrypto, !KeyStorage}.
Context (n : node) (o : node_options) (tearing : bool).

Definition run_start (m : machine) : machine :=
  match loadNode n (on m) with
  | (Ok state, d) => Machine (Some state) d (sent m)
  | (Throw _, d) => Machine None d (sent m)
  end.
Definition run_handle (api : RpcApi) (signedAt : string) (request : http_request) (m : machine)
    : machine :=
  match up m with
  | Some state =>
      match handler n o signedAt request (running m state) with
      | (Ok response, w) => Machine (Some (memory w)) (disk w) (response :: sent m)
      | (Throw _, _) => m
      end
  | None => m
  end.
Definition run_crash (m : machine) : machine := Machine None (on m) (sent m).

Lemma run_start_step m : machine_step n o tearing m (run_start m).
Proof. unfold run_start. destruct (loadNode n (on m)) as [[] d] eqn:E; by econstructor. Qed.
Lemma run_handle_steps api at_ request m :
  RpcLaws → rtc (machine_step n o tearing) m (run_handle api at_ request m).
Proof.
  intros Hapi. unfold run_handle. destruct (up m) as [state|] eqn:Hu; [|done].
  destruct (handler _ _ _ _ _) as [[] w] eqn:E; [|done]. by eapply rtc_once, handle_step.
Qed.
Lemma run_crash_step m : machine_step n o tearing m (run_crash m).
Proof. constructor. Qed.
End runs.

Section safety.
Context `{Ethers, !EthersLaws, NobleBls, !NodeCrypto, UrlApi, !SealCrypto, !KeyStorage}.
Context (n : node) (o : node_options) (tearing : bool).

Lemma fresh_ok m : fresh m → machine_ok m.
Proof. intros (Hu & Hs & Hd). split_and!; [done|by rewrite Hu|]. rewrite Hs. set_solver. Qed.

(** A process whose section has advanced, up or crashed. *)
Lemma advances_ok m state w u :
  machine_ok m → up m = Some state → advances (running m state) w →
  u = None ∨ u = Some (memory w) → machine_ok (Machine u (disk w) (sent m)).
Proof.
  intros (Hd & Hm & Hs) Hu [Hmem Hdisk] Hup. cbn in *. pose proof (Hm _ Hu) as Hst.
  destruct (Hmem Hst) as [Hst' Hgrow]. split_and!; cbn.
  - intros v E. destruct Hdisk as [E'|(v' & E' & Hv')]; unfold on_state in *.
    + apply Hd. by etrans; [symmetry; exact E'|].
    + replace v with v' by congruence. by apply Hv'.
  - intros v E. by destruct Hup as [->| ->]; simplify_eq.
  - intros response r x Hin Ha. destruct (Hs _ _ _ Hin Ha) as [(v & E & Hv) Hr]. split.
    + destruct Hdisk as [E'|(v' & E' & Hv')]; unfold on_state in *.
      * exists v. split; [|done]. by etrans; [exact E'|].
      * exists v'. split; [done|]. destruct (Hv' Hst) as [_ Hv'']. auto.
    + intros v' Ev. destruct Hup as [->| ->]; simplify_eq. auto.
Qed.

Lemma load_ok m d res u :
  machine_ok m → loadNode n (on m) = (res, d) →
  u = None ∨ res = Ok (default VUndef u) → machine_ok (Machine u d (sent m)).
Proof.
  intros (Hd & _ & Hs) Hl Hu.
  pose proof (wp_intro _ _ _ _ _ (loadNode_wp n (on m)) Hl) as [Hdisk Hres].
  assert (∀ a b, loadSigningState (on m) (n_manifestHash (n_identity n)) = Ok a → extends a b →
    signed_object b ∧ ∀ v r x, state_file (on m) = Some (Ok v) → reserved v r x → reserved b r x) as Hgrow.
  { intros a b Ha Hab. apply loadSigningState_extends in Ha.
    destruct (state_file (on m)) as [[v|]|]; [|done|].
    - destruct (Ha (Hd _ eq_refl)) as [Ho Hr]. destruct (Hab Ho) as [Ho' Hr'].
      split; [done|]. intros ??? [= <-]. auto.
    - split; [by apply Hab|]. intros ??? [=]. }
  assert (∀ v, u = Some v → ∃ a, loadSigningState (on m) (n_manifestHash (n_identity n)) = Ok a
    ∧ extends a v) as Hup.
  { intros v ->. destruct Hu as [|E]; [done|]. by apply Hres. }
  split_and!; cbn.
  - intros v E. destruct Hdisk as [E'|(a & b & Ha & Hab & E')].
    + apply Hd. by rewrite <-E'.
    + replace v with b by congruence. by eapply Hgrow.
  - intros v (a & Ha & Hav)%Hup. by eapply Hgrow.
  - intros response r x Hin Hans. destruct (Hs _ _ _ Hin Hans) as [(v & E & Hv) _]. split.
    + destruct Hdisk as [E'|(a & b & Ha & Hab & E')].
      * exists v. by rewrite E'.
      * exists b. split; [done|]. destruct (Hgrow a b Ha Hab) as [_ Hr]. eauto.
    + intros v' (a & Ha & Hav)%Hup. destruct (Hgrow a v' Ha Hav) as [_ Hr]. eauto.
Qed.

Lemma machine_step_ok m m' : machine_ok m → machine_step n o tearing m m' → machine_ok m'.
Proof.
  intros Hm. destruct 1 as [m state d Hl|m e d Hl|api m state at_ request response w _ Hu Hh
    |m|m state r x w Hu _ _ Hr|m state r x at_ response w1 w2 Hu _ _ Hr _ _ Ha|m file _ Hf].
  - eapply load_ok; [done..|by right].
  - eapply load_ok; [done..|by left].
  - pose proof Hm as (_ & Ho & _). apply Ho in Hu as Hst.
    pose proof (wp_intro _ _ _ _ _ (handler_wp n o at_ request (running m state) Hst) Hh) as [A Hr].
    destruct (advances_ok m state w _ Hm Hu A (or_intror eq_refl)) as (Hd & Hup & Hs).
    split_and!; [done..|]. intros response' r x Hin Hans. cbn in *.
    apply elem_of_cons in Hin as [->|Hin]; [|by eapply Hs].
    destruct (Hr _ r x eq_refl Hans) as [Hmem Hdisk]. split; [done|]. by intros ? [= <-].
  - destruct Hm as (Hd & _ & Hs). split_and!; [done..|].
    intros response r x Hin Ha. split; [|done]. by eapply Hs.
  - pose proof Hm as (_ & Ho & _). apply Ho in Hu as Hst.
    pose proof (wp_intro _ _ _ _ _ (reserveMessage_wp r x (running m state) Hst) Hr) as [A _].
    eapply advances_ok; [done..|by left].
  - pose proof Hm as (_ & Ho & _). apply Ho in Hu as Hst.
    pose proof (wp_intro _ _ _ _ _ (reserveMessage_wp r x (running m state) Hst) Hr) as [A _].
    pose proof (wp_intro _ _ _ _ _ (auditResponse_wp n r x at_ response w1) Ha) as A2.
    eapply advances_ok; [done..|by trans w1|by left].
  - destruct Hm as (Hd & _ & Hs). split_and!; [done..|].
    intros response r x Hin Ha. split; [|done]. by eapply Hs.
Qed.

Lemma reachable_ok m m' : fresh m → rtc (machine_step n o tearing) m m' → machine_ok m'.
Proof.
  intros Hm%fresh_ok Hs. induction Hs as [|m1 m2 m3 H12 _ IH]; [done|].
  apply IH. by eapply machine_step_ok.
Qed.

(** C9: however often a node crashes, between which writes it does, and whatever
    its RPC endpoints answer each time, every response it has ever sent stays
    reserved on its disk, and two of its responses to one request are for one
    message. *)
Theorem no_equivocation m0 m a b r x y :
  fresh m0 → rtc (machine_step n o tearing) m0 m →
  a ∈ sent m → b ∈ sent m → answers (payload a) r x → answers (payload b) r y →
  lower x = lower y ∧ ∃ v, state_file (on m) = Some (Ok v) ∧ reserved v r x.
Proof.
  intros Hfresh (_ & _ & Hs)%reachable_ok Ha Hb Hax Hby; [|done].
  destruct (Hs _ _ _ Ha Hax) as [(v & E & Hv) _].
  destruct (Hs _ _ _ Hb Hby) as [(v' & E' & Hv') _]. split; [|by exists v].
  destruct Hv as (s & Hs1 & _ & <-), Hv' as (s' & Hs2 & _ & <-).
  replace v' with v in Hs2 by congruence. congruence.
Qed.
End safety.

(** ** A node that crashes between two responses *)
Section examples.
#[local] Existing Instances sample_ethers sample_ethers_laws sample_bls sample_crypto sample_seal sample_storage
  sample_url.

Definition node_message (s : string) : string := "0x" +:+ of_chars (replicate 61 "1"%char) +:+ s.
Definition sample_node : node := {|
  n_group := sample_group_record;
  n_identity := {| n_participant := sample_participant 1;
                   n_manifestHash := sample_manifest_hash sample_body;
                   n_keyHash := b_keyHash sample_body |};
  n_secretShare := VBig 49; n_identityKey := sample_identity 1
|}.
Definition sample_node_options : node_options := {|
  o_manifest := sample_manifest; o_groupOptions := sample_options; o_keystore := VUndef;
  o_password := ""; o_bearerToken := ""; o_rpcUrls := VStr "https://a,https://b";
  o_host := ""; o_statePath := "state.json"; o_auditPath := "audit.log"
|}.

Definition sample_request : chain_request := {|
  r_consumer := "0x"; r_verifier := b_verifierAdapter sample_body; r_verifierCodeHash := "0x";
  r_fulfiller := "0x"; r_payee := "0x"; r_keyHash := b_keyHash sample_body;
  r_subscriptionId := 1; r_preSeed := 2; r_reservedPayment := 3; r_randomness := 0;
  r_minimumFeeWei := 1; r_requestBlock := 10; r_expiresAtBlock := 99; r_maxGasPriceWei := 5;
  r_verificationGasLimit := 1; r_proofDataLength := 1; r_callbackGasLimit := 1;
  r_numWords := 1; r_callbackAttempts := 0; r_fulfillmentOverheadGas := 1;
  r_confirmations := 1; r_premiumBps := 0; r_operatorPremiumShareBps := 0; r_status := 1;
  r_sponsored := false; r_waiveMinimumFee := false; r_callbackSucceeded := false
|}.
(** Endpoints that agree on the request and on the message. *)
Definition sample_api (message : string) : RpcApi := {| rpc := λ _, {|
  getNetwork := Ok (b_chainId sample_body); getRequest := λ _, Ok sample_request;
  requestSeed := λ _, Ok 7; messageFor := λ _ _ _, Ok message |} |}.
Definition sample_post : http_request := {|
  authorization := VUndef; method := "POST"; url_path := "/v1/partial";
  http_body := Ok (VObj [("requestId", VStr "7")]) |}.

Lemma sample_api_laws s :
  isHexString (node_message s) 32 = true → @RpcLaws _ (sample_api (node_message s)).
Proof. intros Hs. split. by intros ????? [= <-]. Qed.

Definition off : machine := Machine None {| state_file := None; audit_log := None |} [].
Definition first_life : machine :=
  run_handle sample_node sample_node_options (sample_api (node_message "abc")) "t1" sample_post
    (run_start sample_node off).
Definition second_life : machine :=
  run_handle sample_node sample_node_options (sample_api (node_message "ABC")) "t2" sample_post
    (run_start sample_node (run_crash first_life)).

Lemma first_life_reached :
  rtc (machine_step sample_node sample_node_options false) off first_life.
Proof.
  unfold first_life. set (n := sample_node). set (o := sample_node_options).
  etrans; [apply rtc_once, (run_start_step n o false)|].
  by apply run_handle_steps, sample_api_laws.
Qed.
Lemma second_life_reached :
  rtc (machine_step sample_node sample_node_options false) off second_life.
Proof.
  etrans; [apply first_life_reached|].
  unfold second_life. set (n := sample_node). set (o := sample_node_options).
  etrans; [apply rtc_once, (run_crash_step n o false)|].
  etrans; [apply rtc_once, (run_start_step n o false)|].
  by apply run_handle_steps, sample_api_laws.
Qed.

Definition response_pair (r : http_response) : value * value :=
  (mapping (payload r) "body" "requestId", mapping (payload r) "body" "message").
Lemma response_pairs l r x y :
  response_pair <$> l = [(VStr r, VStr y); (VStr r, VStr x)] →
  ∃ a b, a ∈ l ∧ b ∈ l ∧ answers (payload a) r x ∧ answers (payload b) r y.
Proof.
  destruct l as [|b [|a [|]]]; try done. intros [= Hb Hb' Ha Ha'].
  exists a, b. split_and!; [set_solver..| |]; by split.
Qed.
Lemma second_life_responses :
  response_pair <$> sent second_life =
    [(VStr "7", VStr (node_message "ABC")); (VStr "7", VStr (node_message "abc"))].
Proof. vm_compute. reflexivity. Qed.

Lemma no_equivocation_witness :
  ∃ a b, a ∈ sent second_life ∧ b ∈ sent second_life ∧
    answers (payload a) "7" (node_message "abc") ∧ answers (payload b) "7" (node_message "ABC") ∧
    lower (node_message "abc") = lower (node_message "ABC").
Proof.
  destruct (response_pairs _ _ _ _ second_life_responses) as (a & b & Ia & Ib & Ha & Hb).
  exists a, b. split; [exact Ia|]. split; [exact Ib|]. split; [exact Ha|]. split; [exact Hb|].
  assert (fresh off) as Hoff by (split; [reflexivity|]; split; [reflexivity|]; intros v [=]).
  exact (proj1 (no_equivocation sample_node sample_node_options false off second_life a b
    "7" _ _ Hoff second_life_reached Ia Ib Ha Hb)).
Defined.
End examples.
