(* ===== verification/NodeRecovery.v ===== *)
(** * Responses, their audit and the restart of a node ([threshold-node.mjs])

    A response the node builds passes the check of the combiner; the log of the
    responses it has sent passes the check of its own start, wherever the process
    stopped. *)

From S2P Require Import Prelude Js Hex CanonicalJson Json Vendor ScalarField ThresholdCrypto ThresholdGroup DkgShares DkgCeremony Policies ThresholdNode NodeSafety Samples.
From Stdlib Require Import Zmod.

Open Scope Z_scope.

(** ** Hex strings of a fixed length *)
Section hex_strings.
Context `{Ethers, !EthersLaws}.

Lemma isHexString_hex_string s n : isHexString s n = true → hex_string (n * 2) s = true.
Proof.
  intros (b & l & Hs & Hb & <-)%isHexString_spec. unfold hex_string. rewrite Hs.
  apply getBytes_hex in Hb. apply (f_equal chars) in Hb. rewrite hexlify_chars in Hb.
  unfold lower in Hb. rewrite chars_of_chars, Hs in Hb. injection Hb as Hb.
  rewrite <-(forallb_lower l), <-(length_fmap lower_char l).
  change (list_fmap _ _ lower_char l) with (lower_char <$> l) in Hb.
  rewrite Hb, concat_hex_digits, length_concat_hex, Nat.eqb_refl. done.
Qed.

Lemma hexlify_hex_string b n : length b = n → hex_string (n * 2) (hexlify b) = true.
Proof. intros <-. apply isHexString_hex_string, isHexString_hexlify. Qed.
End hex_strings.

(** ** Responses *)
Section responses.
Context `{Ethers, !EthersLaws, NobleBls, !BlsLaws, !NodeCrypto, !NodeCryptoLaws}.

(** No message hashes to the point at infinity. *)
Definition hash_nonzero : Prop := ∀ m M, hashToCurve m BLS_DST = Ok M → M ≠ c_zero.

(** The private key signs for the participant. *)
Definition signs_for (key : ed_private) (p : participant) : Prop :=
  getBytes (p_identityPublicKey p) = Some (ed_public key).

Definition expects (mh kh r x : string) : expected_response := {|
  e_manifestHash := VStr mh; e_keyHash := VStr kh; e_requestId := VStr r; e_message := VStr x
|}.

(** A response, its body hash and signatures. *)
Lemma buildPartialResponse_Ok p mh kh r x share key response :
  buildPartialResponse p mh kh r x share key = Ok response ↔
  ∃ s M hash data, to_bigint share = Ok s ∧ s mod order ≠ 0 ∧
    lower (wireHex (smul s base2)) = lower (p_sharePublicKey p) ∧
    message_point (JsVal (VStr x)) M ∧
    let body := partialBody p mh kh r x (wireHex (smul s M)) in
    responseHash body = Ok hash ∧ hexBytes hash = Ok data ∧
    response = VObj [("body", body); ("identitySignature", VStr (hexlify (ed_sign data key)))].
Proof.
  unfold buildPartialResponse. split.
  - intros Hb. apply bind_Ok in Hb as (pk & (s & Hs & Hs0 & ->)%publicKeyForShare_Ok & Hb).
    apply bind_Ok in Hb as (? & Hk%require_Ok%bool_decide_eq_true & Hb).
    apply bind_Ok in Hb as (sig & (s' & M & Hs' & _ & HM & ->)%signPartial_Ok & Hb).
    replace s' with s in * by congruence.
    apply bind_Ok in Hb as (hash & Hh & Hb). apply bind_Ok in Hb as (data & Hd & [= <-]).
    by exists s, M, hash, data.
  - intros (s & M & hash & data & Hs & Hs0 & Hk & HM & Hh & Hd & ->).
    assert (publicKeyForShare share = Ok (wireHex (smul s base2))) as ->
      by (apply publicKeyForShare_Ok; eauto).
    cbn [mbind result_bind]. rewrite bool_decide_true by done. cbn [require mbind result_bind].
    assert (signPartial (JsVal (VStr x)) share = Ok (wireHex (smul s M))) as ->
      by (apply signPartial_Ok; eauto 10).
    cbn [mbind result_bind]. rewrite Hh. cbn [mbind result_bind]. by rewrite Hd.
Qed.

Lemma getBytes_lower_eq s t : lower s = lower t → getBytes s = getBytes t.
Proof.
  intros E. apply option_eq. intros b. by rewrite !getBytes_spec, E.
Qed.

(** What a combiner accepts from the participant whose share is [s]. *)
Lemma verifyPartialResponse_share p s M mh kh r x sig signature data hash :
  getBytes (p_sharePublicKey p) = Some (c_encode (smul s base2)) → s mod order ≠ 0 →
  message_point (JsVal (VStr x)) M → M ≠ c_zero → getBytes sig = Some (c_encode (smul s M)) →
  responseHash (partialBody p mh kh r x sig) = Ok hash → hexBytes hash = Ok data →
  length signature = 64%nat →
  from_option (λ key, ed_verify data key signature) false (getBytes (p_identityPublicKey p)) = true →
  verifyPartialResponse (VObj [("body", partialBody p mh kh r x sig);
      ("identitySignature", VStr (hexlify signature))]) p (expects mh kh r x)
  = Ok (partialBody p mh kh r x sig).
Proof.
  intros Hpk Hs HM HMz Hsig Hhash Hdata Hlen Hid. unfold verifyPartialResponse.
  set (response := VObj _). change (prop_opt response "body") with (partialBody p mh kh r x sig).
  set (body := partialBody p mh kh r x sig) in *.
  change (prop_opt body "format") with (VStr PARTIAL_RESPONSE_FORMAT).
  change (prop_opt body "participantId") with (VStr (p_id p)).
  change (prop_opt body "index") with (VNum (p_index p)).
  change (prop_opt body "manifestHash") with (VStr mh).
  change (prop_opt body "keyHash") with (VStr kh).
  change (prop_opt body "requestId") with (VStr r).
  change (prop_opt body "message") with (VStr x).
  change (prop_opt body "signature") with (VStr sig).
  change (prop_opt response "identitySignature") with (VStr (hexlify signature)).
  cbn [strict_eq expects e_manifestHash e_keyHash e_requestId e_message same_lower to_lower
       mbind result_bind to_str].
  rewrite !bool_decide_true, Z.eqb_refl by done. cbn [andb require mbind result_bind].
  assert (value_bytes (VStr (hexlify signature)) = Ok signature) as ->
    by (unfold value_bytes; cbn; by rewrite getBytes_hexlify).
  cbn [mbind result_bind]. rewrite Hlen.
  cbn [Nat.eqb require mbind result_bind]. rewrite Hhash. cbn [mbind result_bind].
  rewrite Hdata. cbn [mbind result_bind]. unfold hexBytes.
  destruct (getBytes (p_identityPublicKey p)) as [key|]; [|done]. cbn in Hid.
  cbn [from_option_or mbind result_bind]. rewrite Hid. cbn [require mbind result_bind].
  assert (verifyPartialSignature (JsVal (VStr x)) (JsVal (VStr (p_sharePublicKey p)))
    (JsVal (VStr sig)) = true) as ->; [|done].
  apply verifyPartialSignature_spec. apply (pairing_check_secret _ _ _ s); [done|]. eauto.
Qed.

Lemma built_response_verifies p mh kh r x share key response :
  hash_nonzero → signs_for key p →
  buildPartialResponse p mh kh r x share key = Ok response →
  verifyPartialResponse response p (expects mh kh r x) = Ok (prop_opt response "body").
Proof.
  intros Hz Hkey (s & M & hash & data & Hs & Hs0 & Hk & HM & Hh & Hd & ->)%buildPartialResponse_Ok.
  apply (verifyPartialResponse_share p s M mh kh r x _ _ data hash); try done.
  - rewrite <-(getBytes_lower_eq _ _ Hk). apply wireHex_bytes.
  - destruct HM as (m & _ & HM). by eapply Hz.
  - apply wireHex_bytes.
  - apply ed_sign_length.
  - rewrite Hkey. apply ed_verify_sign.
Qed.

Lemma same_lower_Ok v s : same_lower v (VStr s) = Ok true ↔ ∃ t, v = VStr t ∧ lower t = lower s.
Proof.
  destruct v as [| | | | | |t| |]; try (split; [done|by intros (? & ? & _)]).
  cbn. split.
  - intros [= Hb%bool_decide_eq_true]. eauto.
  - intros (? & [= <-] & E). by rewrite bool_decide_true.
Qed.

Lemma verifyPartialResponse_Ok p mh kh r x response body :
  verifyPartialResponse response p (expects mh kh r x) = Ok body →
  body = prop_opt response "body" ∧ to_str (prop_opt body "requestId") = r ∧
  ∃ m, prop_opt body "message" = VStr m ∧ lower m = lower x ∧
    pairing_check (JsVal (VStr m)) (JsVal (VStr (p_sharePublicKey p)))
      (JsVal (prop_opt body "signature")).
Proof.
  unfold verifyPartialResponse. set (b := prop_opt response "body"). intros Hv.
  apply bind_Ok in Hv as (? & _ & Hv).
  do 2 (apply bind_Ok in Hv as (? & _ & Hv); apply bind_Ok in Hv as (? & _ & Hv)).
  apply bind_Ok in Hv as (? & Hr%require_Ok%bool_decide_eq_true & Hv).
  apply bind_Ok in Hv as (same & Hm & Hv). apply bind_Ok in Hv as (? & ->%require_Ok & Hv).
  apply same_lower_Ok in Hm as (m & Hm & Hl).
  do 6 (apply bind_Ok in Hv as (? & _ & Hv)).
  apply bind_Ok in Hv as (? & Hp%require_Ok%verifyPartialSignature_spec & [= <-]).
  split_and!; [done..|]. exists m. by rewrite Hm in Hp.
Qed.

(** The combiner accepts the response a node builds with the share and the
    identity of a participant; and a response it accepts from that participant, by
    whomever it was made, answers the expected request and carries the one
    signature of the expected message that the share makes. *)
Theorem partial_response_exact p mh kh r x share key response body :
  hash_nonzero → signs_for key p →
  (∃ pk, publicKeyForShare share = Ok pk ∧ lower pk = lower (p_sharePublicKey p)) →
  (buildPartialResponse p mh kh r x share key = Ok response →
   verifyPartialResponse response p (expects mh kh r x) = Ok (prop_opt response "body")) ∧
  (verifyPartialResponse response p (expects mh kh r x) = Ok body →
   body = prop_opt response "body" ∧ to_str (prop_opt body "requestId") = r ∧
   ∃ m sig w, prop_opt body "message" = VStr m ∧ lower m = lower x ∧
     prop_opt body "signature" = VStr sig ∧
     signPartial (JsVal (VStr x)) share = Ok w ∧ getBytes sig = getBytes w).
Proof.
  intros Hz Hkey (pk & (s & Hs & Hs0 & ->)%publicKeyForShare_Ok & Hl).
  split; [by apply built_response_verifies|].
  intros (-> & Hr & m & Hm & Hmx & Hp)%verifyPartialResponse_Ok.
  split_and!; [done..|]. apply (pairing_check_secret _ _ _ s) in Hp as (_ & M & HM & _ & Hsig).
  2: { cbn. rewrite <-(getBytes_lower_eq _ _ Hl). apply wireHex_bytes. }
  destruct (prop_opt _ "signature") as [| | | | | |sig| |]; try done.
  exists m, sig, (wireHex (smul s M)). split_and!; [done..| |].
  - apply signPartial_Ok. exists s, M. split_and!; [done..| |done].
    destruct HM as (b & Hb & HM). exists b. cbn in *. by rewrite <-(getBytes_lower_eq _ _ Hmx).
  - etrans; [exact Hsig|]. symmetry. apply wireHex_bytes.
Qed.
End responses.

(** ** The audit log *)
Section log.
Context `{Ethers, !EthersLaws, NobleBls, !BlsLaws, !NodeCrypto, !NodeCryptoLaws, UrlApi, !SealCrypto, !KeyStorage}.
Context (n : node).
Context (Hhash : hash_nonzero) (Hkey : signs_for (n_identityKey n) (n_participant (n_identity n))).

(** The response of the node to a request. *)
Definition builds (r x : string) (response : value) : Prop :=
  buildPartialResponse (n_participant (n_identity n)) (n_manifestHash (n_identity n))
    (n_keyHash (n_identity n)) r x (n_secretShare n) (n_identityKey n) = Ok response.

Definition audit_fields (at_ r x sig idsig head : string) : list (string * value) :=
  let i := n_identity n in
  [("format", VStr AUDIT_FORMAT); ("signedAt", VStr at_);
   ("participantId", VStr (p_id (n_participant i))); ("manifestHash", VStr (n_manifestHash i));
   ("keyHash", VStr (n_keyHash i)); ("requestId", VStr r); ("message", VStr x);
   ("signature", VStr sig); ("identitySignature", VStr idsig); ("previousHash", VStr head)].

Definition init_progress : audit_progress := {| head_hash := ZERO_HASH; audited := [] |}.

(** The record of an append passes the check of a later start. *)
Lemma checkAuditRecord_fields st acc at_ r x sig idsig h :
  all_digits r = true → isHexString x 32 = true →
  hex_string 192 sig = true → hex_string 128 idsig = true →
  truthy (default VUndef (assoc r (audited acc))) = false →
  responseHash (VObj (audit_fields at_ r x sig idsig (head_hash acc))) = Ok h →
  reserved st r x →
  is_ok (verifyPartialResponse (VObj [("body", partialBody (n_participant (n_identity n))
      (n_manifestHash (n_identity n)) (n_keyHash (n_identity n)) r x sig);
      ("identitySignature", VStr idsig)]) (n_participant (n_identity n))
    (expects (n_manifestHash (n_identity n)) (n_keyHash (n_identity n)) r x)) = true →
  checkAuditRecord st (n_identity n) acc
    (Some (VObj (audit_fields at_ r x sig idsig (head_hash acc) ++ [("eventHash", VStr h)])))
  = Ok {| head_hash := h; audited := assoc_set r (VStr h) (audited acc) |}.
Proof.
  intros Hr Hx Hsig Hid Hnew Hh (s & Hs & Hne & Hl) Hv.
  set (record := VObj _). unfold checkAuditRecord. cbn [from_option_or mbind result_bind].
  change (prop record "format") with (Ok (VStr AUDIT_FORMAT)).
  change (prop_opt record "requestId") with (VStr r).
  change (prop_opt record "message") with (VStr x).
  change (prop_opt record "signature") with (VStr sig).
  change (prop_opt record "identitySignature") with (VStr idsig).
  change (prop_opt record "previousHash") with (VStr (head_hash acc)).
  change (prop_opt record "eventHash") with (VStr h).
  change (prop_opt record "participantId") with (VStr (p_id (n_participant (n_identity n)))).
  change (prop_opt record "manifestHash") with (VStr (n_manifestHash (n_identity n))).
  change (prop_opt record "keyHash") with (VStr (n_keyHash (n_identity n))).
  cbn [to_str to_lower mbind result_bind]. rewrite Hr, Hsig, Hid, Hnew.
  pose proof (isHexString_hex_string x 32 Hx) as Hx64. change (32 * 2)%nat with 64%nat in Hx64.
  rewrite Hx64. cbn [strict_eq].
  rewrite !bool_decide_true by done. cbn [andb negb require mbind result_bind].
  lazymatch goal with |- context [responseHash ?b] =>
    change b with (VObj (audit_fields at_ r x sig idsig (head_hash acc))) end.
  rewrite Hh. cbn [mbind result_bind]. rewrite !bool_decide_true by done.
  cbn [require mbind result_bind]. rewrite Hs. cbn [truthy same_lower to_lower mbind result_bind].
  rewrite (bool_decide_false (s = "")), bool_decide_true by done.
  cbn [negb require mbind result_bind]. apply is_ok_true in Hv as [b Hv].
  unfold partialBody, expects in Hv. by rewrite Hv.
Qed.

Lemma checkAuditRecord_built st st' acc at_ r x response record :
  builds r x response → all_digits r = true → isHexString x 32 = true → reserved st r x →
  truthy (default VUndef (assoc r (audited acc))) = false →
  prop_opt st' "auditHead" = VStr (head_hash acc) →
  auditRecord st' (auditBody (n_identity n) r x at_ response) = Ok record →
  ∃ h, prop_opt record "eventHash" = VStr h ∧
    checkAuditRecord st (n_identity n) acc (Some record)
    = Ok {| head_hash := h; audited := assoc_set r (VStr h) (audited acc) |}.
Proof.
  intros Hb Hr Hx Hres Hnew Hhead Ha. pose proof Hb as Hv. apply built_response_verifies in Hv; [|done..].
  apply buildPartialResponse_Ok in Hb as (s & M & hash & data & _ & _ & _ & _ & _ & _ & ->).
  unfold auditRecord in Ha. rewrite Hhead in Ha. apply bind_Ok in Ha as (h & Hh & [= <-]).
  exists h. split; [done|]. set (sig := wireHex (smul s M)) in *.
  set (idsig := hexlify (ed_sign data (n_identityKey n))) in *.
  apply (checkAuditRecord_fields st acc at_ r x sig idsig h); try done.
  - apply (hexlify_hex_string _ 96), encode1_length.
  - apply (hexlify_hex_string _ 64), ed_sign_length.
  - apply is_ok_true. eauto.
Qed.

(** A record accepted against a state is accepted against a later one. *)
Lemma checkAuditRecord_extends st st' acc line acc' :
  signed_object st → extends st st' →
  checkAuditRecord st (n_identity n) acc line = Ok acc' →
  checkAuditRecord st' (n_identity n) acc line = Ok acc'.
Proof.
  intros Ho Hext. unfold checkAuditRecord. intros Hc. apply bind_Ok in Hc as (record & Hl & Hc).
  rewrite Hl. cbn [mbind result_bind]. apply bind_Ok in Hc as (f & Hf & Hc). rewrite Hf.
  cbn [mbind result_bind].
  do 4 (apply bind_Ok in Hc as (? & -> & Hc); cbn [mbind result_bind]).
  do 2 (apply bind_Ok in Hc as (? & -> & Hc); cbn [mbind result_bind]).
  set (r := to_str (prop_opt record "requestId")) in *. set (message := prop_opt record "message") in *.
  set (signed := mapping st "signedRequests" r) in *.
  apply bind_Ok in Hc as (? & Ht%require_Ok & Hc). apply bind_Ok in Hc as (same & Hs & Hc).
  apply bind_Ok in Hc as (? & ->%require_Ok & Hc).
  assert (∃ m, message = VStr m) as [m Em].
  { apply bind_Ok in Hs as (? & _ & Hs). destruct message; try done. eauto. }
  rewrite Em in *. apply same_lower_Ok in Hs as (t & Es & Ht').
  assert (reserved st r m) as Hres.
  { exists t. split_and!; [done| |done]. intros ->. by rewrite Es in Ht. }
  destruct (Hext Ho) as [_ Hr]. apply Hr in Hres as (t' & Et' & Hne & Hl').
  rewrite Et'. cbn [truthy same_lower to_lower mbind result_bind].
  rewrite (bool_decide_false (t' = "")), bool_decide_true by done.
  cbn [negb require mbind result_bind]. exact Hc.
Qed.

Lemma audit_fold_extends st st' acc l acc' :
  signed_object st → extends st st' →
  foldM (checkAuditRecord st (n_identity n)) acc l = Ok acc' →
  foldM (checkAuditRecord st' (n_identity n)) acc l = Ok acc'.
Proof.
  intros Ho Hext. revert acc. induction l as [|line l IH]; intros acc Hf; [done|].
  cbn [foldM] in *. apply bind_Ok in Hf as (acc1 & Hc & Hf).
  rewrite (checkAuditRecord_extends st st' acc line acc1) by done. by apply IH.
Qed.

(** ** What a stopped node leaves on its disk *)

Definition doc_ok (v : value) : Prop :=
  prop_opt v "format" = VStr STATE_FORMAT ∧
  (∃ s, prop_opt v "manifestHash" = VStr s ∧ lower s = lower (n_manifestHash (n_identity n))) ∧
  signed_object v.

(** The log passes the check against a state, with the progress it ends at. *)
Definition log_ok (st : value) (d : node_disk) (progress : audit_progress) : Prop :=
  match audit_log d with
  | None => progress = init_progress
  | Some f => private_file f = true ∧
      foldM (checkAuditRecord st (n_identity n)) init_progress (audit_lines f) = Ok progress
  end.

Definition fits (st : value) (progress : audit_progress) : Prop :=
  prop_opt st "auditedRequests" = VObj (audited progress) ∧
  prop_opt st "auditHead" = VStr (head_hash progress).

Definition disk_ok (d : node_disk) : Prop :=
  match state_file d with
  | None => audit_log d = None
  | Some (Throw _) => False
  | Some (Ok st) => doc_ok st ∧ ∃ progress, log_ok st d progress ∧
      (audit_log d = None → fits st progress)
  end.

Definition world_ok (w : node_world) : Prop :=
  doc_ok (memory w) ∧ disk_ok (disk w) ∧
  ∃ progress, log_ok (memory w) (disk w) progress ∧ fits (memory w) progress.

Lemma doc_ok_same v v' :
  doc_ok v → extends v v' → prop_opt v' "format" = prop_opt v "format" →
  prop_opt v' "manifestHash" = prop_opt v "manifestHash" → doc_ok v'.
Proof.
  intros (Hf & Hm & Ho) He Ef Em. unfold doc_ok. rewrite Ef, Em. split_and!; [done..|]. by apply He.
Qed.

Lemma doc_ok_set_prop v k x :
  k ≠ "signedRequests" → k ≠ "format" → k ≠ "manifestHash" → doc_ok v → doc_ok (set_prop v k x).
Proof.
  intros. by apply (doc_ok_same v); [|apply extends_set_prop|apply prop_opt_set_prop_ne..].
Qed.

Lemma log_ok_extends st st' d progress :
  signed_object st → extends st st' → log_ok st d progress → log_ok st' d progress.
Proof.
  unfold log_ok. destruct (audit_log d) as [f|]; [|done]. intros Ho He [Hp Hf].
  split; [done|]. by apply (audit_fold_extends st).
Qed.

Lemma doc_set_prop v k x : signed_object v → prop_opt (set_prop v k x) k = x.
Proof. intros (fs & ->)%signed_object_obj. apply prop_opt_set_prop. Qed.

(** Saving the memory. *)
Lemma world_ok_save w :
  doc_ok (memory w) → (∃ progress, log_ok (memory w) (disk w) progress ∧ fits (memory w) progress) →
  world_ok {| memory := memory w;
              disk := {| state_file := Some (Ok (memory w)); audit_log := audit_log (disk w) |} |}.
Proof.
  intros Hd (progress & Hl & Hf). split; [done|]. split.
  - split; [done|]. exists progress. by split.
  - by exists progress.
Qed.

Lemma world_ok_reserve w r x :
  world_ok w →
  (truthy (mapping (memory w) "signedRequests" r) = true →
   same_lower (mapping (memory w) "signedRequests" r) (VStr x) = Ok true) →
  world_ok (reserve_in w r x).
Proof.
  intros (Hd & _ & progress & Hl & Hf) Hc%extends_sign.
  set (w' := {| memory := set_mapping (memory w) "signedRequests" r (VStr x); disk := disk w |}).
  apply (world_ok_save w').
  - apply (doc_ok_same (memory w)); [done..| |]; by apply prop_opt_set_prop_ne.
  - exists progress. split; [eapply log_ok_extends; [apply Hd|done..]|].
    destruct Hf as [Ha Hh]. split; [rewrite <-Ha|rewrite <-Hh]; by apply prop_opt_set_prop_ne.
Qed.

Lemma reserveMessage_ok r x w :
  world_ok w → wp (reserveMessage r x) (λ res w', world_ok w' ∧
    (res = Ok tt → mapping (memory w') "signedRequests" r = VStr x ∧
       state_file (disk w') = Some (Ok (memory w')))) w.
Proof.
  intros Hw. eapply wp_mono; [apply reserveMessage_cases|].
  intros [[]|e] w'; [|by intros ->]. intros [-> Hc]. split; [by apply world_ok_reserve|].
  intros _. split; [|done]. apply mapping_set_mapping. apply Hw.
Qed.

(** The world after an append to the log. *)
Definition append_in (d : node_disk) (record : value) : node_disk := {|
  state_file := state_file d;
  audit_log := match audit_log d with
    | Some f => Some {| private_file := private_file f; audit_lines := audit_lines f ++ [Some record] |}
    | None => Some {| private_file := true; audit_lines := [Some record] |}
    end
|}.

Definition log_private (d : node_disk) : bool :=
  match audit_log d with Some f => private_file f | None => true end.

Lemma appendAuditRecord_cases state body d :
  appendAuditRecord state body d =
  if log_private d then
    match auditRecord state body with
    | Ok record =>
        let h := prop_opt record "eventHash" in
        (Ok (set_mapping (set_prop state "auditHead" h) "auditedRequests"
               (to_str (prop_opt body "requestId")) h), append_in d record)
    | Throw e => (Throw e, d)
    end
  else (Throw UNSAFE_LOG, d).
Proof.
  unfold appendAuditRecord, mbind, eff_bind, eff_require, eff_lift. fold (log_private d).
  destruct (log_private d); cbn [require]; [|done].
  by destruct (auditRecord state body).
Qed.

Lemma auditResponse_cases r x at_ response w :
  wp (auditResponse n r x at_ response) (λ res w',
    match res with
    | Ok _ => ∃ record h,
        auditRecord (memory w) (auditBody (n_identity n) r x at_ response) = Ok record ∧
        h = prop_opt record "eventHash" ∧
        w' = {| memory := set_mapping (set_prop (memory w) "auditHead" h) "auditedRequests" r h;
                disk := append_in (disk w) record |}
    | Throw _ => w' = w
    end) w.
Proof.
  unfold auditResponse. apply wp_get_memory_bind, wp_bind, wp_on_disk. unfold wp.
  rewrite appendAuditRecord_cases. destruct (log_private (disk w)); [|by destruct w].
  destruct (auditRecord _ _) as [record|] eqn:E; [|by destruct w].
  eexists record, _. by split_and!.
Qed.

Lemma log_ok_append st d progress record progress' :
  log_ok st d progress → checkAuditRecord st (n_identity n) progress (Some record) = Ok progress' →
  log_ok st (append_in d record) progress'.
Proof.
  unfold log_ok, append_in. cbn [audit_log]. destruct (audit_log d) as [f|]; cbn [private_file audit_lines].
  - intros [Hp Hf] Hc. split; [done|]. rewrite foldM_app, Hf. cbn [mbind result_bind foldM].
    by rewrite Hc.
  - intros -> Hc. split; [done|]. cbn [foldM]. by rewrite Hc.
Qed.

Lemma auditResponse_ok r x at_ response w :
  world_ok w → mapping (memory w) "signedRequests" r = VStr x →
  state_file (disk w) = Some (Ok (memory w)) → builds r x response →
  all_digits r = true → isHexString x 32 = true →
  truthy (mapping (memory w) "auditedRequests" r) = false →
  wp (auditResponse n r x at_ response) (λ _ w', world_ok w') w.
Proof.
  intros Hw Hm Hd Hb Hr Hx Hnew. eapply wp_mono; [apply auditResponse_cases|].
  intros [[]|e] w'; [|by intros ->]. intros (record & h & Hrec & Hh & ->).
  destruct Hw as (Hdoc & _ & progress & Hl & [Haud Hhead]).
  assert (reserved (memory w) r x) as Hres.
  { exists x. split_and!; [done| |done]. apply getBytes_nonempty.
    apply isHexString_bytes in Hx as (b & Hb' & _). eauto. }
  unfold mapping in Hnew. rewrite Haud in Hnew.
  destruct (checkAuditRecord_built (memory w) (memory w) progress at_ r x response record)
    as (hash & Hhash' & Hc); [done..|].
  rewrite Hhash' in Hh. subst h. clear Hhash'. pose proof Hdoc as (_ & _ & Ho).
  set (st := set_mapping _ _ _ _). assert (extends (memory w) st) as Hext.
  { etrans; [by apply (extends_set_prop _ "auditHead")|by apply extends_set_mapping]. }
  pose proof (log_ok_append _ _ _ _ _ Hl Hc) as Hl'. split_and!; cbn [memory disk].
  - by repeat apply doc_ok_set_prop.
  - unfold disk_ok. change (state_file (append_in (disk w) record)) with (state_file (disk w)).
    rewrite Hd. split; [done|]. eexists. split; [exact Hl'|].
    unfold append_in. cbn [audit_log]. by destruct (audit_log (disk w)).
  - eexists. split; [by apply (log_ok_extends (memory w))|].
    destruct (signed_object_obj _ Ho) as [fs E]. subst st. rewrite E in *. split; cbn [audited head_hash].
    + unfold set_mapping. change (set_prop (VObj fs) "auditHead" (VStr hash)) with
        (VObj (assoc_set "auditHead" (VStr hash) fs)). rewrite prop_opt_set_prop.
      change (VObj (assoc_set "auditHead" (VStr hash) fs)) with
        (set_prop (VObj fs) "auditHead" (VStr hash)).
      by rewrite prop_opt_set_prop_ne, Haud.
    + unfold set_mapping. rewrite prop_opt_set_prop_ne by done. apply prop_opt_set_prop.
Qed.

Lemma signSection_ok r x at_ w :
  world_ok w → all_digits r = true → isHexString x 32 = true →
  wp (signSection n r x at_) (λ _ w', world_ok w') w.
Proof.
  intros Hw Hr Hx. unfold signSection. apply wp_bind.
  eapply wp_mono; [by apply reserveMessage_ok|]. intros [[]|e] w1 [Hw1 Hok]; [|done].
  destruct (Hok eq_refl) as [Hm Hd].
  apply wp_lift_bind; [|done]. intros response Hb. apply wp_get_memory_bind, wp_bind.
  destruct (truthy _) eqn:Hnew; [by apply wp_ret|]. apply wp_bind.
  eapply wp_mono; [by apply auditResponse_ok|]. intros [[]|e] w2 Hw2; [|done].
  apply wp_get_memory_bind. unfold wp. destruct Hw2 as (Hdoc & _ & Hprog).
  by apply (world_ok_save w2).
Qed.

Lemma handler_ok `{RpcApi, !RpcLaws} o at_ request w :
  world_ok w → wp (handler n o at_ request) (λ _ w', world_ok w') w.
Proof.
  intros Hw. unfold handler. repeat case_match; try by apply wp_ret.
  apply wp_catch, wp_bind. unfold signRequest.
  assert (∀ e, wp (mret (error_response 400 e)) (λ _ w', world_ok w') w) as Hthrow by (intros; by apply wp_ret).
  apply wp_lift_bind; [|intros; apply Hthrow]. intros body _.
  apply wp_lift_bind; [|intros; apply Hthrow]. intros requestId _.
  apply wp_require_bind; [|intros; apply Hthrow]. intros Hr.
  apply wp_lift_bind; [|intros; apply Hthrow]. intros canonical Hc.
  eapply wp_mono.
  - apply signSection_ok; [done..|]. unfold resolveCanonicalRequest in Hc.
    apply bind_Ok in Hc as (urls & _ & Hc). apply bind_Ok in Hc as (states & Hs%mapM_Ok & Hc).
    destruct Hs as [|url first urls states Hs _]; [done|].
    apply bind_Ok in Hc as (? & _ & [= <-]). unfold readCanonical in Hs.
    repeat (apply bind_Ok in Hs as (? & ? & Hs)). injection Hs as <-. cbn.
    by eapply messageFor_bytes32.
  - by intros [response|e] w' Hw'; apply wp_ret.
Qed.

Lemma default_prop_set v k d : (∃ x, prop_opt v k = VObj x) ∨ (∃ x, prop_opt v k = VStr x) →
  default_prop v k d = v.
Proof. unfold default_prop. by intros [[x ->]|[x ->]]. Qed.

Lemma doc_ok_default_prop v k d :
  k ≠ "signedRequests" → k ≠ "format" → k ≠ "manifestHash" → doc_ok v → doc_ok (default_prop v k d).
Proof. intros. unfold default_prop. case_match; by try apply doc_ok_set_prop. Qed.

Lemma loadSigningState_ok d :
  disk_ok d → ∃ st progress, loadSigningState d (n_manifestHash (n_identity n)) = Ok st ∧
    doc_ok st ∧ log_ok st d progress ∧ (audit_log d = None → fits st progress).
Proof.
  unfold disk_ok, loadSigningState. destruct (state_file d) as [[st|]|] eqn:E; [|done|].
  - intros (Hdoc & progress & Hl & Hf). pose proof Hdoc as (Hfmt & (s & Hs & Hsl) & Ho).
    destruct (signed_object_obj _ Ho) as [fs ->]. pose proof Ho as [gs Hgs].
    cbn [mbind result_bind prop]. rewrite Hfmt, Hs, Hgs. cbn [to_lower mbind result_bind].
    unfold strict_eq. rewrite !bool_decide_true by done. cbn [require truthy andb mbind result_bind].
    eexists _, progress. split; [done|].
    assert (extends (VObj fs) (default_prop (default_prop (VObj fs) "auditedRequests" (VObj []))
      "auditHead" (VStr ZERO_HASH))) as Hext.
    { etrans; [by apply (extends_default_prop _ "auditedRequests")|by apply extends_default_prop]. }
    split_and!.
    + by repeat apply doc_ok_default_prop.
    + by apply (log_ok_extends (VObj fs)).
    + intros Hn. destruct (Hf Hn) as [Ha Hh].
      rewrite !default_prop_set; [done|left; eauto|right].
      rewrite default_prop_set by (left; eauto). eauto.
  - intros Hn. exists (initialState (n_manifestHash (n_identity n))), init_progress.
    split_and!; [done| | |done].
    + split_and!; [done|by eexists|by eexists].
    + unfold log_ok. by rewrite Hn.
Qed.

(** A node starts on the disk it left. *)
Lemma loadNode_ok d :
  disk_ok d → ∃ st d', loadNode n d = (Ok st, d') ∧ world_ok {| memory := st; disk := d' |}.
Proof.
  intros Hd. pose proof (loadSigningState_ok d Hd) as (st & progress & Hst & Hdoc & Hl & Hf).
  unfold loadNode, mbind, eff_bind, eff_lift. rewrite Hst. unfold loadAuditLog.
  unfold log_ok in Hl. destruct (audit_log d) as [f|] eqn:E.
  - destruct Hl as [Hp Hl]. rewrite Hp. unfold eff_require, eff_lift, mbind, eff_bind.
    cbn [require]. change (Build_audit_progress ZERO_HASH []) with init_progress. rewrite Hl.
    set (st' := set_prop _ _ _). pose proof Hdoc as (_ & _ & Ho).
    assert (extends st st') as Hext.
    { etrans; [by apply (extends_set_prop _ "auditedRequests")|by apply extends_set_prop]. }
    eexists st', _. split; [reflexivity|].
    apply (world_ok_save {| memory := st'; disk := d |}); cbn [memory disk].
    + by repeat apply doc_ok_set_prop.
    + exists progress. unfold log_ok. rewrite E. split; [split; [done|]|].
      * by apply (audit_fold_extends st).
      * destruct (signed_object_obj _ Ho) as [fs ->]. split.
        -- unfold st'. rewrite prop_opt_set_prop_ne by done. apply prop_opt_set_prop.
        -- apply (doc_set_prop (set_prop (VObj fs) "auditedRequests" (VObj (audited progress)))).
           by apply (extends_set_prop (VObj fs) "auditedRequests").
  - subst progress. exists st, d. split; [done|]. split_and!; cbn [memory disk]; [done..|].
    exists init_progress. unfold log_ok. rewrite E. auto.
Qed.

(** ** Every reachable node restarts *)
Context (o : node_options).

Definition blank (m : machine) : Prop :=
  up m = None ∧ state_file (on m) = None ∧ audit_log (on m) = None.

Definition recoverable (m : machine) : Prop :=
  disk_ok (on m) ∧ ∀ st, up m = Some st → world_ok (running m st).

Lemma machine_step_recoverable m m' :
  recoverable m → machine_step n o false m m' → recoverable m'.
Proof.
  intros [Hd Hu]. destruct 1 as [m state d Hl|m e d Hl|api m state at_ request response w Hapi Hup Hh
    |m|m state r x w Hup Hr Hx Hres|m state r x at_ response w1 w2 Hup Hr Hx Hres Hb Hnew Ha|m file [=] _].
  - destruct (loadNode_ok _ Hd) as (st & d' & E & Hw). rewrite E in Hl. simplify_eq.
    split; [apply Hw|]. by intros ? [= <-].
  - destruct (loadNode_ok _ Hd) as (st & d' & E & _). by rewrite E in Hl.
  - pose proof (wp_intro _ _ _ _ _ (handler_ok o at_ request _ (Hu _ Hup)) Hh) as Hw.
    split; [apply Hw|]. intros ? [= <-]. by destruct w.
  - by split.
  - pose proof (wp_intro _ _ _ _ _ (reserveMessage_ok r x _ (Hu _ Hup)) Hres) as [Hw _].
    split; [apply Hw|done].
  - pose proof (wp_intro _ _ _ _ _ (reserveMessage_ok r x _ (Hu _ Hup)) Hres) as [Hw Hok].
    destruct (Hok eq_refl) as [Hm Hs].
    pose proof (wp_intro _ _ _ _ _ (auditResponse_ok r x at_ response w1 Hw Hm Hs Hb Hr Hx Hnew) Ha)
      as Hw2.
    split; [apply Hw2|done].
Qed.

Lemma reachable_recoverable m0 m :
  blank m0 → rtc (machine_step n o false) m0 m → recoverable m.
Proof.
  intros (Hup & Hs & Ha). assert (recoverable m0) as Hm0.
  { unfold recoverable, disk_ok. by rewrite Hs, Hup. }
  clear Hup Hs Ha. induction 1 as [|m1 m2 m3 H12 _ IH]; [done|].
  apply IH. by eapply machine_step_recoverable.
Qed.

(** C10: from an empty disk, wherever the process stopped between its writes,
    the node starts again: its check of the state file and of the whole audit
    log, every signature in it included, accepts what it left behind, and the
    state it resumes with keeps every reservation of the file. *)
Theorem node_restarts m0 m :
  blank m0 → rtc (machine_step n o false) m0 m →
  ∃ st d, loadNode n (on m) = (Ok st, d) ∧
    ∀ v r x, state_file (on m) = Some (Ok v) → reserved v r x → reserved st r x.
Proof.
  intros Hm0 [Hd _]%(reachable_recoverable m0); [|done].
  destruct (loadNode_ok _ Hd) as (st & d & E & _). exists st, d. split; [done|].
  intros v r x Hv Hr. pose proof (wp_intro _ _ _ _ _ (loadNode_wp n (on m)) E) as [_ Hres].
  destruct (Hres st eq_refl) as (u & Hu & Hext). apply loadSigningState_extends in Hu.
  unfold disk_ok in Hd. rewrite Hv in Hu, Hd. destruct Hd as ((_ & _ & Ho) & _).
  assert (extends v st) as Hvs by (by trans u). destruct (Hvs Ho) as [_ Hr']. auto.
Qed.
End log.

Section examples.
#[local] Existing Instances sample_ethers sample_ethers_laws sample_bls sample_bls_laws
  sample_crypto sample_crypto_laws sample_seal sample_storage sample_url.

Lemma sample_hash_nonzero : hash_nonzero.
Proof.
  intros m M [= <-]. cbn. intros E. apply (f_equal Zmod.to_Z) in E.
  rewrite Zmod.to_Z_of_Z in E. change (Zmod.to_Z Zmod.zero) with 0 in E.
  pose proof (Z.mod_pos_bound (foldl (λ h c, h * 31 + code c) 7 m) 100 ltac:(lia)).
  rewrite Z.mod_small in E by lia. lia.
Qed.

Lemma partial_response_witness :
  ∃ response, verifyPartialResponse response (sample_participant 1)
      (expects (sample_manifest_hash sample_body) (b_keyHash sample_body) "7" (node_message "abc"))
    = Ok (prop_opt response "body").
Proof.
  assert (is_ok (buildPartialResponse (sample_participant 1) (sample_manifest_hash sample_body)
    (b_keyHash sample_body) "7" (node_message "abc") (VBig 49) (sample_identity 1)) = true)
    as [response Hb]%is_ok_true by (vm_compute; reflexivity).
  exists response.
  apply (partial_response_exact (sample_participant 1) (sample_manifest_hash sample_body)
    (b_keyHash sample_body) "7" (node_message "abc") (VBig 49) (n_identityKey sample_node)
    response VNull).
  - apply sample_hash_nonzero.
  - vm_compute. reflexivity.
  - exists (sample_key 49). split; vm_compute; reflexivity.
  - exact Hb.
Defined.

Lemma node_restarts_witness :
  ∃ st d, loadNode sample_node (on second_life) = (Ok st, d).
Proof.
  assert (signs_for (n_identityKey sample_node) (n_participant (n_identity sample_node))) as Hk
    by (vm_compute; reflexivity).
  assert (blank off) as Hoff by (split; [reflexivity|split; reflexivity]).
  destruct (node_restarts sample_node sample_hash_nonzero Hk sample_node_options off second_life
    Hoff second_life_reached) as (st & d & E & _).
  exists st, d. exact E.
Defined.
End examples.
