(* ===== verification/CanonicalRequest.v ===== *)
(** * The request a signing node signs ([threshold-node.mjs], [rpc-policy.mjs])

    A node signs the message of a request only when every configured endpoint,
    and at least two of them on different origins, describe one request. *)

From S2P Require Import Prelude Js Hex CanonicalJson Json Vendor ScalarField ThresholdCrypto ThresholdGroup DkgShares DkgCeremony Policies ThresholdNode NodeSafety Samples.

Open Scope Z_scope.

(** A request up to the case of its hex strings. *)
Definition lower_request (r : chain_request) : chain_request := {|
  r_consumer := lower (r_consumer r); r_verifier := lower (r_verifier r);
  r_verifierCodeHash := lower (r_verifierCodeHash r); r_fulfiller := lower (r_fulfiller r);
  r_payee := lower (r_payee r); r_keyHash := lower (r_keyHash r);
  r_subscriptionId := r_subscriptionId r; r_preSeed := r_preSeed r;
  r_reservedPayment := r_reservedPayment r; r_randomness := r_randomness r;
  r_minimumFeeWei := r_minimumFeeWei r; r_requestBlock := r_requestBlock r;
  r_expiresAtBlock := r_expiresAtBlock r; r_maxGasPriceWei := r_maxGasPriceWei r;
  r_verificationGasLimit := r_verificationGasLimit r; r_proofDataLength := r_proofDataLength r;
  r_callbackGasLimit := r_callbackGasLimit r; r_numWords := r_numWords r;
  r_callbackAttempts := r_callbackAttempts r;
  r_fulfillmentOverheadGas := r_fulfillmentOverheadGas r; r_confirmations := r_confirmations r;
  r_premiumBps := r_premiumBps r; r_operatorPremiumShareBps := r_operatorPremiumShareBps r;
  r_status := r_status r; r_sponsored := r_sponsored r; r_waiveMinimumFee := r_waiveMinimumFee r;
  r_callbackSucceeded := r_callbackSucceeded r
|}.
(** Two requests that differ at most in that case. *)
Definition same_request (r r' : chain_request) : Prop := lower_request r = lower_request r'.
#[export] Instance same_request_equiv : Equivalence same_request.
Proof. unfold same_request. split; repeat intro; congruence. Qed.

Section canonical.
Context `{Ethers, NobleBls, !NodeCrypto, UrlApi}.

(** The canonical text determines the request, the seed and the message. *)
Lemma normalizeCanonicalRequest_inj r seed m r' seed' m' s :
  normalizeCanonicalRequest r seed m = Ok s → normalizeCanonicalRequest r' seed' m' = Ok s →
  same_request r r' ∧ seed = seed' ∧ lower m = lower m'.
Proof.
  unfold normalizeCanonicalRequest, same_request. intros Hs Hs'.
  pose proof (canonicalJson_inj _ _ _ Hs Hs') as E. clear Hs Hs'.
  apply norm_fields in E; [|done|by apply all_distinct_spec].
  destruct r, r'. cbn in E. repeat (apply Forall2_cons in E as [[_ ?] E]). clear E. cbn in *.
  simplify_eq. unfold lower_request. cbn.
  repeat match goal with Hp : print_int _ = print_int _ |- _ => apply print_int_inj in Hp end.
  subst. repeat match goal with Hp : @eq string _ _ |- _ => rewrite Hp; clear Hp end.
  split; [reflexivity|]. split; [reflexivity|done].
Qed.

(** What an endpoint must have answered for the node to go on. *)
Definition describes `{api : RpcApi} (g : group) (requestId : value) (c : canonical_request)
    (url : string) : Prop :=
  ∃ request seed message,
    getNetwork (rpc url) = Ok (b_chainId (g_body g)) ∧
    getRequest (rpc url) requestId = Ok request ∧ r_status request = 1 ∧
    lower (r_keyHash request) = lower (g_keyHash g) ∧
    lower (r_verifier request) = lower (b_verifierAdapter (g_body g)) ∧
    requestSeed (rpc url) requestId = Ok seed ∧
    messageFor (rpc url) (g_keyHash g) seed (r_preSeed request) = Ok message ∧
    same_request request (c_request c) ∧ seed = c_actualSeed c ∧
    lower message = lower (c_message c).

Lemma readCanonical_Ok `{api : RpcApi} g requestId url c c0 :
  readCanonical g requestId url = Ok c → c_normalized c = c_normalized c0 →
  (∃ r s m, normalizeCanonicalRequest r s m = Ok (c_normalized c0) ∧
     c_request c0 = r ∧ c_actualSeed c0 = s ∧ c_message c0 = m) →
  describes g requestId c0 url.
Proof.
  unfold readCanonical. intros Hr Hn (r & s & m & Hc0 & Er & Es & Em).
  apply bind_Ok in Hr as (chain & Hchain & Hr). apply bind_Ok in Hr as (? & ->%require_Ok%Z.eqb_eq & Hr).
  apply bind_Ok in Hr as (request & Hreq & Hr). apply bind_Ok in Hr as (? & Hst%require_Ok%Z.eqb_eq & Hr).
  apply bind_Ok in Hr as (? & Hk%require_Ok%bool_decide_eq_true & Hr).
  apply bind_Ok in Hr as (? & Hv%require_Ok%bool_decide_eq_true & Hr).
  apply bind_Ok in Hr as (seed & Hseed & Hr). apply bind_Ok in Hr as (message & Hm & Hr).
  apply bind_Ok in Hr as (normalized & Hnorm & [= <-]). cbn in Hn. subst normalized.
  destruct (normalizeCanonicalRequest_inj _ _ _ _ _ _ _ Hnorm Hc0) as (E1 & E2 & E3).
  exists request, seed, message. rewrite Er, Es, Em. split_and!; done.
Qed.

Lemma readCanonical_normalized `{api : RpcApi} g requestId url c :
  readCanonical g requestId url = Ok c →
  ∃ r s m, normalizeCanonicalRequest r s m = Ok (c_normalized c) ∧
    c_request c = r ∧ c_actualSeed c = s ∧ c_message c = m.
Proof.
  unfold readCanonical. intros Hr. do 8 (apply bind_Ok in Hr as (? & _ & Hr)).
  apply bind_Ok in Hr as (normalized & Hnorm & [= <-]).
  eexists _, _, _. by split_and!.
Qed.

(** A request resolved for signing was described alike, pending, on the
    chain, key and adapter of the manifest, by every one of at least two distinct
    endpoints on distinct origins; they agree on its seed and message. *)
Theorem canonical_request_agreed `{api : RpcApi} rpcUrls g requestId c :
  resolveCanonicalRequest rpcUrls g requestId = Ok c →
  ∃ parsed, 2 <= Z.of_nat (length parsed) ∧ NoDup (url_origin <$> parsed) ∧
    Forall (λ u, describes g requestId c (url_href u)) parsed.
Proof.
  unfold resolveCanonicalRequest. intros Hr. apply bind_Ok in Hr as (urls & Hurls & Hr).
  apply bind_Ok in Hr as (states & Hs & Hr). destruct states as [|first states]; [done|].
  apply bind_Ok in Hr as (? & Hall%require_Ok & [= <-]).
  apply normalizeRpcUrls_Ok in Hurls as (_ & Hmin & parsed & -> & _ & Ho).
  exists parsed. rewrite length_fmap in Hmin. split_and!; [done|by apply Ho|].
  apply mapM_Ok in Hs. rewrite forallb_forall in Hall.
  assert (∃ r s m, normalizeCanonicalRequest r s m = Ok (c_normalized first) ∧
    c_request first = r ∧ c_actualSeed first = s ∧ c_message first = m) as Hf.
  { inversion Hs; subst. by eapply readCanonical_normalized. }
  rewrite Forall_forall. intros u Hu.
  apply (list_elem_of_fmap_2 url_href) in Hu.
  apply list_elem_of_lookup in Hu as [i Hi].
  destruct (Forall2_lookup_l _ _ _ _ _ Hs Hi) as (c & Hc & Hread).
  apply (readCanonical_Ok _ _ _ c); [done| |done].
  apply list_elem_of_lookup_2, list_elem_of_In in Hc. apply Hall in Hc.
  by apply bool_decide_eq_true in Hc.
Qed.
End canonical.

Section examples.
#[local] Existing Instances sample_ethers sample_bls sample_crypto sample_url.

Lemma canonical_request_witness :
  ∃ c parsed, c_actualSeed c = 7 ∧ 2 <= Z.of_nat (length parsed) ∧
    Forall (λ u, describes (api := sample_api (node_message "abc")) sample_group_record (VStr "7")
      c (url_href u)) parsed.
Proof.
  pose (api := sample_api (node_message "abc")).
  assert (is_ok (resolveCanonicalRequest (VStr "https://a,https://b") sample_group_record (VStr "7"))
    = true) as [c Hc]%is_ok_true by (vm_compute; reflexivity).
  destruct (canonical_request_agreed (VStr "https://a,https://b") sample_group_record (VStr "7") c Hc)
    as (parsed & Hmin & _ & HF).
  exists c, parsed. split; [|split; [exact Hmin|exact HF]].
  assert (c_actualSeed <$> resolveCanonicalRequest (VStr "https://a,https://b") sample_group_record
    (VStr "7") = Ok 7) as E by (vm_compute; reflexivity).
  rewrite Hc in E. injection E as E. exact E.
Defined.
End examples.
