(* ===== verification/OperatorStore.v ===== *)
(** * The operator's database ([postgres-store.mjs])

    The tables of the schema as maps from their primary keys, and the statements
    of each method of [PostgresOperatorStore] as functions on them.  [now()] is
    the time of the transaction, in seconds; a [numeric] or [bigint] column is an
    integer; a statement is atomic, and so is a method that runs its statements in
    a transaction.  The [updated_at] columns, which nothing reads, are left out. *)

From S2P Require Import Prelude Js.

Open Scope Z_scope.

(** ** Rows *)

Record instance_row := { started_at : Z; heartbeat_at : Z; metadata : value }.

Record scan_row := {
  deployment_block : Z;
  next_block : Z;
  scan_lease_owner : option string;
  scan_lease_expires_at : option Z
}.

Record request_row := {
  pre_seed : Z;
  request_block : Z;
  expires_at_block : Z;
  event_block_number : Z;
  event_block_hash : string;
  request_tx_hash : string;
  attempts : Z;
  next_attempt_at : Z;
  lease_owner : option string;
  lease_expires_at : option Z;
  last_error : option string;
  orphaned : bool
}.

Record transaction_row := {
  chain_id : string;
  tx_relayer : string;
  tx_nonce : Z;
  tx_request_id : option Z;
  transaction_kind : string;
  gas_price_wei : Z;
  tx_instance_id : string;
  tx_status : string;
  block_number : option Z;
  created_at : Z
}.

(** The columns that tell operators apart: chain, coordinator, key. *)
Definition operator_key : Type := string * string * string.

Record database := {
  instances : gmap string instance_row;
  scan_state : gmap operator_key scan_row;
  requests : gmap (operator_key * Z) request_row;
  transactions : gmap string transaction_row;
  advisory_locks : gset string
}.

Definition set_scan (f : gmap operator_key scan_row → gmap operator_key scan_row)
    (d : database) : database :=
  {| instances := instances d; scan_state := f (scan_state d); requests := requests d;
     transactions := transactions d; advisory_locks := advisory_locks d |}.
Definition set_requests (f : gmap (operator_key * Z) request_row → gmap (operator_key * Z) request_row)
    (d : database) : database :=
  {| instances := instances d; scan_state := scan_state d; requests := f (requests d);
     transactions := transactions d; advisory_locks := advisory_locks d |}.
Definition set_transactions (f : gmap string transaction_row → gmap string transaction_row)
    (d : database) : database :=
  {| instances := instances d; scan_state := scan_state d; requests := requests d;
     transactions := f (transactions d); advisory_locks := advisory_locks d |}.
Definition set_instances (f : gmap string instance_row → gmap string instance_row)
    (d : database) : database :=
  {| instances := f (instances d); scan_state := scan_state d; requests := requests d;
     transactions := transactions d; advisory_locks := advisory_locks d |}.
Definition set_locks (f : gset string → gset string) (d : database) : database :=
  {| instances := instances d; scan_state := scan_state d; requests := requests d;
     transactions := transactions d; advisory_locks := f (advisory_locks d) |}.

(** ** Identity and block numbers *)

Definition safeBlockNumber (v : Z) (name : string) : result Z :=
  if negb (safe_integer v) || (v <? 0)
  then Throw (name +:+ " is outside the JavaScript safe integer range")
  else Ok v.

Record operator_identity := {
  chainId : string; coordinator : string; keyHash : string; deploymentBlock : Z
}.

Definition normalizeIdentity (identity : operator_identity) : result operator_identity :=
  block ← safeBlockNumber (deploymentBlock identity) "deploymentBlock";
  Ok {| chainId := chainId identity; coordinator := lower (coordinator identity);
        keyHash := lower (keyHash identity); deploymentBlock := block |}.

Definition key_of (i : operator_identity) : operator_key := (chainId i, coordinator i, keyHash i).

(** [lease_owner IS NULL OR lease_expires_at < now()]: a comparison with [NULL]
    is not true. *)
Definition lease_free (owner : option string) (expires : option Z) (now : Z) : bool :=
  match owner with None => true | Some _ => match expires with Some e => e <? now | None => false end end.

(** An event of the coordinator, as a scan hands it to the store. *)
Record scan_event := {
  requestId : Z; preSeed : Z; requestBlock : Z; expiresAtBlock : Z;
  eventBlockNumber : Z; eventBlockHash : string; transactionHash : string
}.

Record scan_window := { fromBlock : Z; toBlock : Z }.

Record claimed_request := { c_event : scan_event; c_attempts : Z }.

Section store.
Context (i : operator_identity).

Definition initialize : eff database unit :=
  _ ← eff_modify (set_scan (λ t,
        match t !! key_of i with
        | Some _ => t
        | None => <[key_of i := {| deployment_block := deploymentBlock i;
                                   next_block := deploymentBlock i;
                                   scan_lease_owner := None; scan_lease_expires_at := None |}]> t
        end));
  d ← eff_get;
  match scan_state d !! key_of i with
  | None => eff_throw "failed to initialize PostgreSQL scan state"
  | Some row =>
      stored ← eff_lift (safeBlockNumber (deployment_block row) "stored deployment block");
      eff_require (stored =? deploymentBlock i)
        "PostgreSQL deployment block does not match this operator"
  end.

Definition heartbeat (instanceId : string) (data : value) (now : Z) : eff database unit :=
  eff_modify (set_instances (λ t,
    <[instanceId := {| started_at := from_option started_at now (t !! instanceId);
                       heartbeat_at := now; metadata := data |}]> t)).

(** ** Scanning *)

(** The range a scan covers, from the stored cursor. *)
Definition scanRange (cursor latest rangeSize reorgLookback : Z) : scan_window :=
  let from := Z.max (deploymentBlock i) (Z.min cursor latest - reorgLookback) in
  {| fromBlock := from; toBlock := Z.min latest (from + rangeSize - 1) |}.

Definition claimScan (instanceId : string) (latest rangeSize reorgLookback leaseSeconds now : Z)
    : eff database (option scan_window) :=
  d ← eff_get;
  match scan_state d !! key_of i with
  | Some row =>
      if (next_block row <=? latest)
         && (lease_free (scan_lease_owner row) (scan_lease_expires_at row) now
             || bool_decide (scan_lease_owner row = Some instanceId))
      then
        _ ← eff_modify (set_scan (<[key_of i := {|
              deployment_block := deployment_block row; next_block := next_block row;
              scan_lease_owner := Some instanceId;
              scan_lease_expires_at := Some (now + leaseSeconds) |}]>));
        cursor ← eff_lift (safeBlockNumber (next_block row) "scan cursor");
        mret (Some (scanRange cursor latest rangeSize reorgLookback))
      else mret None
  | None => mret None
  end.

(** [UPDATE ... SET orphaned = true ... WHERE event_block_number >= from] *)
Definition mark_orphaned (from : Z) (kr : operator_key * Z) (row : request_row) : request_row :=
  if bool_decide (kr.1 = key_of i) && (from <=? event_block_number row)
  then {| pre_seed := pre_seed row; request_block := request_block row;
          expires_at_block := expires_at_block row; event_block_number := event_block_number row;
          event_block_hash := event_block_hash row; request_tx_hash := request_tx_hash row;
          attempts := attempts row; next_attempt_at := next_attempt_at row;
          lease_owner := lease_owner row; lease_expires_at := lease_expires_at row;
          last_error := last_error row; orphaned := true |}
  else row.

(** [INSERT ... ON CONFLICT DO UPDATE] of one event. *)
Definition event_row (e : scan_event) (now : Z) (old : option request_row) : request_row := {|
  pre_seed := preSeed e; request_block := requestBlock e; expires_at_block := expiresAtBlock e;
  event_block_number := eventBlockNumber e; event_block_hash := eventBlockHash e;
  request_tx_hash := transactionHash e;
  attempts := from_option attempts 0 old;
  next_attempt_at := from_option next_attempt_at now old;
  lease_owner := old ≫= lease_owner; lease_expires_at := old ≫= lease_expires_at;
  last_error := old ≫= last_error; orphaned := false
|}.
Definition upsert_event (now : Z) (t : gmap (operator_key * Z) request_row) (e : scan_event)
    : gmap (operator_key * Z) request_row :=
  <[(key_of i, requestId e) := event_row e now (t !! (key_of i, requestId e))]> t.

(** The three statements of a commit on the requests. *)
Definition commit_requests (from : Z) (requested : list scan_event) (finalizedRequestIds : list Z)
    (now : Z) (t : gmap (operator_key * Z) request_row) : gmap (operator_key * Z) request_row :=
  let t := map_imap (λ kr row, Some (mark_orphaned from kr row)) t in
  let t := foldl (upsert_event now) t requested in
  let t := filter (λ '(kr, _), ¬ (kr.1 = key_of i ∧ kr.2 ∈ finalizedRequestIds)) t in
  filter (λ '(kr, row), ¬ (kr.1 = key_of i ∧ orphaned row = true ∧
            lease_free (lease_owner row) (lease_expires_at row) now = true)) t.

(** A throw rolls the transaction back. *)
Definition transaction {A} (m : eff database A) : eff database A := λ d,
  match m d with (Ok a, d') => (Ok a, d') | (Throw e, _) => (Throw e, d) end.

Definition commitScan (instanceId : string) (w : scan_window) (requested : list scan_event)
    (finalizedRequestIds : list Z) (now : Z) : eff database unit :=
  transaction
    (d ← eff_get;
     match scan_state d !! key_of i with
     | Some row =>
         _ ← eff_require (bool_decide (scan_lease_owner row = Some instanceId))
               "scan lease was lost before commit";
         _ ← eff_modify (set_requests
               (commit_requests (fromBlock w) requested finalizedRequestIds now));
         storedCursor ← eff_lift (safeBlockNumber (next_block row) "scan cursor");
         eff_modify (set_scan (<[key_of i := {|
           deployment_block := deployment_block row;
           next_block := Z.max storedCursor (toBlock w + 1);
           scan_lease_owner := None; scan_lease_expires_at := None |}]>))
     | None => eff_throw "scan lease was lost before commit"
     end).

Definition releaseScan (instanceId : string) : eff database unit :=
  eff_modify (set_scan (alter (λ row,
    if bool_decide (scan_lease_owner row = Some instanceId)
    then {| deployment_block := deployment_block row; next_block := next_block row;
            scan_lease_owner := None; scan_lease_expires_at := None |}
    else row) (key_of i))).

(** ** Requests *)

(** The [WHERE] of the candidate. *)
Definition claimable (now : Z) (kr : operator_key * Z) (row : request_row) : bool :=
  bool_decide (kr.1 = key_of i) && (next_attempt_at row <=? now) && negb (orphaned row)
  && lease_free (lease_owner row) (lease_expires_at row) now.

(** [ORDER BY request_block, request_id LIMIT 1] *)
Definition before (a b : operator_key * Z * request_row) : bool :=
  (request_block a.2 <? request_block b.2)
  || ((request_block a.2 =? request_block b.2) && (a.1.2 <=? b.1.2)).
Definition pick (best : option (operator_key * Z * request_row)) (x : operator_key * Z * request_row)
    : option (operator_key * Z * request_row) :=
  match best with Some b => if before b x then Some b else Some x | None => Some x end.
Definition candidate (now : Z) (t : gmap (operator_key * Z) request_row)
    : option (operator_key * Z * request_row) :=
  foldl pick None (filter (λ x, claimable now x.1 x.2 = true) (map_to_list t)).

Definition row_event (id : Z) (row : request_row) : scan_event := {|
  requestId := id; preSeed := pre_seed row; requestBlock := request_block row;
  expiresAtBlock := expires_at_block row; eventBlockNumber := event_block_number row;
  eventBlockHash := event_block_hash row; transactionHash := request_tx_hash row
|}.

Definition with_lease (row : request_row) (owner : option string) (expires : option Z)
    : request_row := {|
  pre_seed := pre_seed row; request_block := request_block row;
  expires_at_block := expires_at_block row; event_block_number := event_block_number row;
  event_block_hash := event_block_hash row; request_tx_hash := request_tx_hash row;
  attempts := attempts row; next_attempt_at := next_attempt_at row;
  lease_owner := owner; lease_expires_at := expires;
  last_error := last_error row; orphaned := orphaned row
|}.

Definition claimRequest (instanceId : string) (leaseSeconds now : Z)
    : eff database (option claimed_request) :=
  d ← eff_get;
  match candidate now (requests d) with
  | None => mret None
  | Some (kr, row) =>
      _ ← eff_modify (set_requests
            (<[kr := with_lease row (Some instanceId) (Some (now + leaseSeconds))]>));
      _ ← eff_lift (safeBlockNumber (event_block_number row) "event block");
      mret (Some {| c_event := row_event kr.2 row; c_attempts := attempts row |})
  end.

Definition completeRequest (id : Z) (instanceId : string) : eff database unit :=
  eff_modify (set_requests (λ t,
    match t !! (key_of i, id) with
    | Some row => if bool_decide (lease_owner row = Some instanceId)
                  then delete (key_of i, id) t else t
    | None => t
    end)).

(** [left(s, n)] *)
Definition sql_left (n : nat) (s : string) : string := of_chars (take n (chars s)).

Definition retryRequest (id : Z) (instanceId error : string) (retrySeconds now : Z)
    : eff database unit :=
  eff_modify (set_requests (alter (λ row,
    if bool_decide (lease_owner row = Some instanceId)
    then {| pre_seed := pre_seed row; request_block := request_block row;
            expires_at_block := expires_at_block row;
            event_block_number := event_block_number row;
            event_block_hash := event_block_hash row; request_tx_hash := request_tx_hash row;
            attempts := attempts row + 1; next_attempt_at := now + retrySeconds;
            lease_owner := None; lease_expires_at := None;
            last_error := Some (sql_left 4000 error); orphaned := orphaned row |}
    else row) (key_of i, id))).

Record store_summary := { cursor : Z; pending : Z; oldestRequestBlock : option Z }.

Definition own_rows (t : gmap (operator_key * Z) request_row) : list request_row :=
  (filter (λ x, x.1.1 = key_of i) (map_to_list t)).*2.

Definition summary (d : database) : result store_summary :=
  row ← from_option_or TYPE_ERROR (scan_state d !! key_of i);
  let rows := own_rows (requests d) in
  cursor ← safeBlockNumber (next_block row) "scan cursor";
  oldest ← match rows with
           | [] => Ok None
           | r :: rs => Some <$> safeBlockNumber (foldr Z.min (request_block r) (request_block <$> rs))
                                  "oldest request block"
           end;
  Ok {| cursor := cursor; pending := Z.of_nat (length rows); oldestRequestBlock := oldest |}.

(** ** The transaction journal *)

Definition lock_name (relayer : string) : string :=
  "proof-vrf:" +:+ chainId i +:+ ":" +:+ lower relayer.

(** [pg_try_advisory_lock], [pg_advisory_unlock] *)
Definition try_lock (name : string) : eff database bool := λ d,
  if bool_decide (name ∈ advisory_locks d) then (Ok false, d)
  else (Ok true, set_locks (λ s, {[name]} ∪ s) d).
Definition unlock (name : string) : eff database unit :=
  eff_modify (set_locks (λ s, s ∖ {[name]})).

Record broadcast_record := {
  br_transactionHash : string; br_nonce : Z; br_requestId : option Z;
  br_transactionKind : string; br_gasPriceWei : Z
}.

Definition recordBroadcast (relayer instanceId : string) (b : broadcast_record) (now : Z)
    : eff database unit :=
  eff_modify (set_transactions (λ t,
    match t !! br_transactionHash b with
    | Some _ => t
    | None => <[br_transactionHash b := {|
        chain_id := chainId i; tx_relayer := lower relayer; tx_nonce := br_nonce b;
        tx_request_id := br_requestId b; transaction_kind := br_transactionKind b;
        gas_price_wei := br_gasPriceWei b; tx_instance_id := instanceId;
        tx_status := "broadcast"; block_number := None; created_at := now |}]> t
    end)).

Definition with_status (status : string) (block : option Z) (row : transaction_row)
    : transaction_row := {|
  chain_id := chain_id row; tx_relayer := tx_relayer row; tx_nonce := tx_nonce row;
  tx_request_id := tx_request_id row; transaction_kind := transaction_kind row;
  gas_price_wei := gas_price_wei row; tx_instance_id := tx_instance_id row;
  tx_status := status; block_number := block; created_at := created_at row
|}.

Definition markMined (transactionHash : string) (blockNumber : Z) : eff database unit :=
  eff_modify (set_transactions (alter (with_status "mined" (Some blockNumber)) transactionHash)).

(** [WHERE chain_id = $1 AND relayer = $2 AND status = 'broadcast'] *)
Definition is_unresolved (relayer : string) (row : transaction_row) : bool :=
  bool_decide (chain_id row = chainId i) && bool_decide (tx_relayer row = lower relayer)
  && bool_decide (tx_status row = "broadcast").

(** [ORDER BY nonce, created_at] *)
Definition journal_le (a b : string * transaction_row) : Prop :=
  tx_nonce a.2 < tx_nonce b.2 ∨
  (tx_nonce a.2 = tx_nonce b.2 ∧ created_at a.2 <= created_at b.2).
#[export] Instance journal_le_dec a b : Decision (journal_le a b).
Proof. unfold journal_le. apply _. Defined.

Record unresolved_transaction := {
  u_transactionHash : string; u_nonce : Z; u_requestId : option Z;
  u_transactionKind : string; u_gasPriceWei : Z
}.
Definition unresolved_of (x : string * transaction_row) : result unresolved_transaction :=
  nonce ← safeBlockNumber (tx_nonce x.2) "transaction nonce";
  Ok {| u_transactionHash := x.1; u_nonce := nonce; u_requestId := tx_request_id x.2;
        u_transactionKind := transaction_kind x.2; u_gasPriceWei := gas_price_wei x.2 |}.
Definition listUnresolvedTransactions (relayer : string) (d : database)
    : result (list unresolved_transaction) :=
  mapM unresolved_of
    (merge_sort journal_le
       (filter (λ x, is_unresolved relayer x.2 = true) (map_to_list (transactions d)))).

Definition resolve_rows (relayer : string) (nonce : Z) (status : string)
    (t : gmap string transaction_row) : gmap string transaction_row :=
  (λ row, if is_unresolved relayer row && (tx_nonce row =? nonce)
          then with_status status (block_number row) row else row) <$> t.

(** [mined] is the hash and the block of the transaction that was mined. *)
Definition resolveNonce (relayer : string) (nonce : Z) (status : string) (mined : option (string * Z))
    : eff database unit :=
  _ ← eff_require (bool_decide (status ∈ ["dropped"; "consumed"; "replaced"]))
        "invalid transaction journal resolution status";
  transaction
    (_ ← eff_modify (set_transactions (resolve_rows relayer nonce status));
     match mined with
     | Some (transactionHash, blockNumber) =>
         eff_modify (set_transactions
           (alter (with_status "mined" (Some blockNumber)) transactionHash))
     | None => mret tt
     end).
End store.
