(* ===== verification/StoreLeases.v ===== *)
(** * Leases on requests ([postgres-store.mjs])

    Any number of operators, for any number of keys, run the methods of the store
    against one database, in any order.  A request that one of them has claimed
    stays its own until the lease expires. *)

From S2P Require Import Prelude Js OperatorStore.

Open Scope Z_scope.

(** A method call of an operator on the database. *)
Inductive store_op :=
| Initialize
| Heartbeat (data : value)
| ClaimScan (latest rangeSize reorgLookback leaseSeconds : Z)
| CommitScan (w : scan_window) (requested : list scan_event) (finalizedRequestIds : list Z)
| ReleaseScan
| ClaimRequest (leaseSeconds : Z)
| CompleteRequest (id : Z)
| RetryRequest (id : Z) (error : string) (retrySeconds : Z)
| RecordBroadcast (relayer : string) (b : broadcast_record)
| MarkMined (transactionHash : string) (blockNumber : Z)
| ResolveNonce (relayer : string) (nonce : Z) (status : string) (mined : option (string * Z)).

Record store_call := {
  caller : operator_identity; instance : string; at_time : Z; call : store_op
}.

(** What a call returns, when it is a claim of a request. *)
Definition run_call (c : store_call) : eff database (option claimed_request) :=
  let i := caller c in
  let nothing (m : eff database unit) := _ ← m; mret None in
  match call c with
  | Initialize => nothing (initialize i)
  | Heartbeat data => nothing (heartbeat (instance c) data (at_time c))
  | ClaimScan latest range lookback lease =>
      _ ← claimScan i (instance c) latest range lookback lease (at_time c); mret None
  | CommitScan w requested finalized =>
      nothing (commitScan i (instance c) w requested finalized (at_time c))
  | ReleaseScan => nothing (releaseScan i (instance c))
  | ClaimRequest lease => claimRequest i (instance c) lease (at_time c)
  | CompleteRequest id => nothing (completeRequest i id (instance c))
  | RetryRequest id error secs => nothing (retryRequest i id (instance c) error secs (at_time c))
  | RecordBroadcast relayer b => nothing (recordBroadcast i relayer (instance c) b (at_time c))
  | MarkMined hash block => nothing (markMined hash block)
  | ResolveNonce relayer nonce status mined => nothing (resolveNonce i relayer nonce status mined)
  end.

Fixpoint run_calls (cs : list store_call) (d : database)
    : list (store_call * result (option claimed_request)) * database :=
  match cs with
  | [] => ([], d)
  | c :: cs =>
      let '(r, d) := run_call c d in
      let '(rs, d) := run_calls cs d in ((c, r) :: rs, d)
  end.

(** The row is leased to an instance until a time. *)
Definition leased (t : gmap (operator_key * Z) request_row) (kr : operator_key * Z)
    (owner : string) (until : Z) : Prop :=
  ∃ row, t !! kr = Some row ∧ lease_owner row = Some owner ∧ lease_expires_at row = Some until.

(** A call by which the owner gives the request up, or a scan that has seen its
    end on the chain. *)
Definition ends_lease (kr : operator_key * Z) (owner : string) (c : store_call) : Prop :=
  key_of (caller c) = kr.1 ∧
  match call c with
  | CompleteRequest id | RetryRequest id _ _ => id = kr.2 ∧ instance c = owner
  | CommitScan _ _ finalized => kr.2 ∈ finalized
  | _ => False
  end.

(** ** The candidate of a claim *)

Lemma pick_fold l best :
  (∀ x, x ∈ l ∨ best = Some x → ∃ b, foldl pick best l = Some b) ∧
  ∀ b, foldl pick best l = Some b →
    (b ∈ l ∨ best = Some b) ∧ ∀ x, x ∈ l ∨ best = Some x → before b x = true.
Proof.
  revert best. induction l as [|y l IH]; intros best; cbn [foldl].
  - split; [intros x [Hx| ->]; [set_solver|eauto]|]. intros b ->. split; [by right|].
    intros x [Hx|[= <-]]; [set_solver|]. unfold before. rewrite Z.eqb_refl, Z.leb_refl.
    by rewrite orb_true_r.
  - assert (∀ a b, before a b = false → before b a = true) as Htotal.
    { unfold before. intros a b Hab. apply orb_false_iff in Hab as [H1%Z.ltb_ge H2].
      apply orb_true_iff. rewrite Z.ltb_lt. destruct (Z.lt_ge_cases (request_block b.2) (request_block a.2));
        [by left|right]. rewrite (proj2 (Z.eqb_eq (request_block b.2) (request_block a.2))) by lia.
      rewrite (proj2 (Z.eqb_eq (request_block a.2) (request_block b.2))) in H2 by lia. cbn in *.
      apply Z.leb_gt in H2. apply Z.leb_le. lia. }
    assert (∀ a b c, before a b = true → before b c = true → before a c = true) as Htrans.
    { unfold before. intros a b c Hab Hbc. rewrite orb_true_iff, andb_true_iff, Z.ltb_lt, Z.eqb_eq, Z.leb_le in *. lia. }
    assert (∃ b0, pick best y = Some b0) as [b0 Eb0].
    { unfold pick. repeat case_match; eauto. }
    assert ((b0 = y ∨ best = Some b0) ∧ ∀ x, x = y ∨ best = Some x → before b0 x = true) as [Hb0 Hmin].
    { unfold pick in Eb0. destruct best as [b|].
      - destruct (before b y) eqn:E; simplify_eq.
        + split; [by right|]. intros x [->|[= ->]]; [done|]. unfold before.
          by rewrite Z.eqb_refl, Z.leb_refl, orb_true_r.
        + split; [by left|]. intros x [->|[= ->]]; [|by apply Htotal]. unfold before.
          by rewrite Z.eqb_refl, Z.leb_refl, orb_true_r.
      - simplify_eq. split; [by left|]. intros x [->|[=]]. unfold before.
        by rewrite Z.eqb_refl, Z.leb_refl, orb_true_r. }
    rewrite Eb0. destruct (IH (Some b0)) as [Hex Hall]. split.
    + intros x _. apply (Hex b0). by right.
    + intros b [Hin Hb]%Hall. split.
      * destruct Hin as [|[= ->]]; [left; set_solver|]. destruct Hb0 as [->|]; [left; set_solver|by right].
      * intros x [[->|Hx]%elem_of_cons|Hx]; [|by apply Hb; left|].
        -- eapply Htrans; [apply Hb; by right|]. apply Hmin. by left.
        -- eapply Htrans; [apply Hb; by right|]. apply Hmin. by right.
Qed.

(** A claim picks the oldest row that can be claimed, and finds one when there is. *)
Lemma candidate_Some i now t kr row :
  candidate i now t = Some (kr, row) →
  t !! kr = Some row ∧ claimable i now kr row = true ∧
  ∀ kr' row', t !! kr' = Some row' → claimable i now kr' row' = true →
    before (kr, row) (kr', row') = true.
Proof.
  unfold candidate. set (l := filter _ _). intros [Hin Hmin]%(pick_fold l None).
  assert (∀ k r, (k, r) ∈ l ↔ t !! k = Some r ∧ claimable i now k r = true) as Hl.
  { intros k r. unfold l. rewrite list_elem_of_filter, elem_of_map_to_list. naive_solver. }
  destruct Hin as [[??]%Hl|[=]]. split_and!; [done..|].
  intros kr' row' Ht Hc. apply Hmin. left. by apply Hl.
Qed.
Lemma candidate_None i now t :
  candidate i now t = None → ∀ kr row, t !! kr = Some row → claimable i now kr row = false.
Proof.
  unfold candidate. set (l := filter _ _). intros Hn kr row Ht.
  apply not_true_is_false. intros Hc.
  destruct (proj1 (pick_fold l None) (kr, row)) as [b Hb]; [|congruence].
  left. unfold l. rewrite list_elem_of_filter, elem_of_map_to_list. done.
Qed.

(** ** What a call does to a leased row *)

Lemma lease_held_not_free row owner until now :
  lease_owner row = Some owner → lease_expires_at row = Some until → now <= until →
  lease_free (lease_owner row) (lease_expires_at row) now = false.
Proof. intros -> -> ?. cbn. by apply Z.ltb_ge. Qed.

Lemma upsert_fold_leased i now es t kr owner until :
  leased t kr owner until → leased (foldl (upsert_event i now) t es) kr owner until.
Proof.
  revert t. induction es as [|e es IH]; intros t Ht; [done|]. apply IH.
  destruct Ht as (row & Hrow & Ho & He). unfold upsert_event, leased.
  destruct (decide (kr = (key_of i, requestId e))) as [->|Hne].
  - rewrite lookup_insert_eq. eexists. split; [done|]. rewrite Hrow. cbn. done.
  - rewrite lookup_insert_ne by done. eauto.
Qed.

Lemma commit_requests_leased i from requested finalized now t kr owner until :
  leased t kr owner until → now <= until → ¬ (kr.1 = key_of i ∧ kr.2 ∈ finalized) →
  leased (commit_requests i from requested finalized now t) kr owner until.
Proof.
  intros Ht Hnow Hfin. unfold commit_requests.
  assert (leased (map_imap (λ kr row, Some (mark_orphaned i from kr row)) t) kr owner until) as H1.
  { destruct Ht as (row & Hrow & Ho & He). unfold leased.
    rewrite map_lookup_imap, Hrow. cbn. eexists. split; [done|].
    unfold mark_orphaned. by case_match. }
  apply (upsert_fold_leased i now requested) in H1. destruct H1 as (row & Hrow & Ho & He).
  exists row. split; [|done]. apply map_lookup_filter_Some. split.
  - apply map_lookup_filter_Some. done.
  - intros (_ & _ & Hfree). by rewrite (lease_held_not_free row owner until) in Hfree.
Qed.

Lemma transaction_cases {A} (m : eff database A) d :
  (∃ a, m d = (Ok a, (transaction m d).2) ∧ (transaction m d).1 = Ok a) ∨
  (∃ e, (transaction m d) = (Throw e, d)).
Proof. unfold transaction. destruct (m d) as [[a|e] d']; [left|right]; eauto. Qed.

Lemma commitScan_requests i inst w requested finalized now d :
  requests (commitScan i inst w requested finalized now d).2 = requests d ∨
  requests (commitScan i inst w requested finalized now d).2
    = commit_requests i (fromBlock w) requested finalized now (requests d).
Proof.
  unfold commitScan, transaction, mbind, eff_bind, eff_get.
  destruct (scan_state d !! key_of i) as [row|]; [|by left].
  unfold eff_require, eff_lift, eff_modify. destruct (bool_decide _); cbn [require]; [|by left].
  destruct (safeBlockNumber _ _); [by right|by left].
Qed.

Lemma nothing_run {A} (m : eff database A) d :
  ((m ≫= λ _, mret (None : option claimed_request)) d).2 = (m d).2 ∧
  ∀ r, ((m ≫= λ _, mret None) d).1 ≠ Ok (Some r : option claimed_request).
Proof. unfold mbind, eff_bind. by destruct (m d) as [[] ?]. Qed.

Lemma initialize_requests i d : requests (initialize i d).2 = requests d.
Proof.
  unfold initialize, mbind, eff_bind, eff_modify, eff_get.
  destruct (scan_state (set_scan _ _) !! _) as [row|]; [|done].
  unfold eff_lift. by destruct (safeBlockNumber _ _).
Qed.
Lemma claimScan_requests i inst latest range lookback lease now d :
  requests (claimScan i inst latest range lookback lease now d).2 = requests d.
Proof.
  unfold claimScan, mbind, eff_bind, eff_get. destruct (scan_state d !! _) as [row|]; [|done].
  destruct (_ && _); [|done]. unfold eff_modify, eff_lift. by destruct (safeBlockNumber _ _).
Qed.
Lemma resolveNonce_requests i relayer nonce status mined d :
  requests (resolveNonce i relayer nonce status mined d).2 = requests d.
Proof.
  unfold resolveNonce, mbind, eff_bind, eff_require, eff_lift, transaction.
  destruct (bool_decide _); [|done]. by destruct mined as [[]|].
Qed.

Lemma leased_insert t kr kr' row owner until :
  kr' ≠ kr → leased t kr owner until → leased (<[kr':=row]> t) kr owner until.
Proof. unfold leased. intros. by rewrite lookup_insert_ne. Qed.

Lemma claimRequest_cases i inst lease now d :
  (candidate i now (requests d) = None ∧ claimRequest i inst lease now d = (Ok None, d)) ∨
  ∃ kr row, candidate i now (requests d) = Some (kr, row) ∧
    (claimRequest i inst lease now d).2
    = set_requests (<[kr := with_lease row (Some inst) (Some (now + lease))]>) d ∧
    ∀ r, (claimRequest i inst lease now d).1 = Ok r →
      r = Some {| c_event := row_event kr.2 row; c_attempts := attempts row |}.
Proof.
  unfold claimRequest, mbind, eff_bind, eff_get.
  destruct (candidate i now (requests d)) as [[kr row]|]; [right|by left].
  exists kr, row. split; [done|]. unfold eff_modify, eff_lift.
  destruct (safeBlockNumber _ _); split; try done. intros r [= <-]. done.
Qed.

(** No call of another, and no claim, moves a leased row while the lease lasts. *)
Lemma call_keeps_lease kr owner until c d :
  leased (requests d) kr owner until → at_time c <= until → ¬ ends_lease kr owner c →
  leased (requests (run_call c d).2) kr owner until ∧
  ∀ r, (run_call c d).1 = Ok (Some r) → (key_of (caller c), requestId (c_event r)) ≠ kr.
Proof.
  intros Ht Htime Hend. destruct c as [i inst now op].
  unfold run_call, ends_lease in *; cbn [caller call instance at_time] in *.
  destruct op as [| | |w requested finalized| |lease|id|id error secs| | |]; cbv zeta.
  6: {
    destruct (claimRequest_cases i inst lease now d)
      as [[_ ->]|(kr' & row & Hc & -> & Hr)]; [by split|].
    apply candidate_Some in Hc as (Hrow & Hc & _). unfold claimable in Hc. reflect_bool_hyps.
    assert (kr' ≠ kr) as Hne.
    { intros ->. destruct Ht as (row' & Hrow' & Ho & He). replace row' with row in * by congruence.
      by rewrite (lease_held_not_free row owner until) in *. }
    split; [by apply leased_insert|]. intros r [= ->]%Hr. cbn. by destruct kr'; cbn in *; subst. }
  all: match goal with |- context [?m ≫= _] => destruct (nothing_run m d) as [-> Hno] end.
  all: split; [|intros r Hr; by destruct (Hno r)].
  all: try exact Ht.
  - by rewrite initialize_requests.
  - by rewrite claimScan_requests.
  - destruct (commitScan_requests i inst w requested finalized now d) as [->| ->]; [done|].
    apply commit_requests_leased; [done..|]. naive_solver.
  - unfold completeRequest, eff_modify. cbn [snd requests set_requests].
    destruct (requests d !! (key_of i, id)) as [row|] eqn:Hrow; [|done].
    case_bool_decide as Ho; [|done]. unfold leased. rewrite lookup_delete_ne; [done|]. intros <-.
    apply Hend. destruct Ht as (row' & Hrow' & Ho' & _). split; [done|]. split; [done|congruence].
  - unfold retryRequest, eff_modify. cbn [snd requests set_requests].
    destruct Ht as (row & Hrow & Ho & He). unfold leased.
    destruct (decide ((key_of i, id) = kr)) as [<-|Hne].
    + rewrite lookup_alter_eq, Hrow. cbn. case_bool_decide as Hi; [|eauto].
      destruct Hend. split; [done|]. split; [done|congruence].
    + rewrite lookup_alter_ne by done. eauto.
  - by rewrite resolveNonce_requests.
Qed.

(** A claim leases the oldest claimable request of its key. *)
Lemma claimRequest_claims i inst lease now d r d' :
  claimRequest i inst lease now d = (Ok (Some r), d') →
  leased (requests d') (key_of i, requestId (c_event r)) inst (now + lease) ∧
  (∃ row, requests d !! (key_of i, requestId (c_event r)) = Some row ∧ orphaned row = false ∧
     next_attempt_at row <= now ∧ c_event r = row_event (requestId (c_event r)) row) ∧
  ∀ id row, requests d !! (key_of i, id) = Some row →
    claimable i now (key_of i, id) row = true →
    requestBlock (c_event r) < request_block row ∨
    (requestBlock (c_event r) = request_block row ∧ requestId (c_event r) <= id).
Proof.
  intros E. destruct (claimRequest_cases i inst lease now d) as [[_ Hn]|(kr & row & Hc & Hd & Hr)];
    [congruence|].
  rewrite E in Hd, Hr. cbn [fst snd] in *. injection (Hr _ eq_refl) as ->. subst d'.
  apply candidate_Some in Hc as (Hrow & Hc & Hmin). unfold claimable in Hc. reflect_bool_hyps.
  destruct kr as [k id]. cbn in *. subst k. split_and!.
  - unfold leased. rewrite lookup_insert_eq. by eexists.
  - exists row. done.
  - intros id' row' Hrow' Hc'. specialize (Hmin _ _ Hrow' Hc'). unfold before in Hmin. cbn in Hmin.
    rewrite orb_true_iff, andb_true_iff, Z.ltb_lt, Z.eqb_eq, Z.leb_le in Hmin. lia.
Qed.

Lemma run_keeps_lease kr owner until cs d rs d' :
  leased (requests d) kr owner until →
  Forall (λ c, at_time c <= until ∧ ¬ ends_lease kr owner c) cs →
  run_calls cs d = (rs, d') →
  leased (requests d') kr owner until ∧
  Forall (λ cr : store_call * result (option claimed_request), ∀ r, cr.2 = Ok (Some r) →
    (key_of (caller cr.1), requestId (c_event r)) ≠ kr) rs.
Proof.
  intros Hl Hcs. revert d rs d' Hl.
  induction Hcs as [|c cs [Ht He] _ IH]; intros d rs d' Hl E; cbn [run_calls] in E.
  { injection E as <- <-. split; [done|constructor]. }
  pose proof (call_keeps_lease kr owner until c d Hl Ht He) as [Hl' Hr].
  destruct (run_call c d) as [r d1]. cbn [fst snd] in *.
  destruct (run_calls cs d1) as [rs1 d2] eqn:E1. injection E as <- <-.
  destruct (IH _ _ _ Hl' E1) as [??]. split; [done|]. by constructor.
Qed.


Section examples.
Definition sample_operator : operator_identity :=
  {| chainId := "46630"; coordinator := "0xc0"; keyHash := "0xf0"; deploymentBlock := 100 |}.
Definition sample_event (id block : Z) : scan_event := {|
  requestId := id; preSeed := id; requestBlock := block; expiresAtBlock := block + 50;
  eventBlockNumber := block; eventBlockHash := "0xb0"; transactionHash := "0xa0" |}.
Definition empty_database : database := {|
  instances := ∅; scan_state := ∅; requests := ∅; transactions := ∅; advisory_locks := ∅ |}.
Definition sample_call (inst : string) (t : Z) (op : store_op) : store_call :=
  {| caller := sample_operator; instance := inst; at_time := t; call := op |}.

(** Two requests found by a scan. *)
Definition sample_database : database := (run_calls
  [ sample_call "a" 0 Initialize; sample_call "a" 0 (ClaimScan 120 2000 32 60);
    sample_call "a" 1 (CommitScan {| fromBlock := 100; toBlock := 120 |}
      [sample_event 8 111; sample_event 7 110] []) ] empty_database).2.
(** What another instance does during the lease. *)
Definition sample_rivals : list store_call :=
  [ sample_call "b" 20 (ClaimRequest 60); sample_call "b" 25 (ClaimRequest 60);
    sample_call "b" 30 (CompleteRequest 7); sample_call "b" 31 (RetryRequest 7 "error" 1);
    sample_call "b" 40 (ClaimScan 140 2000 32 60);
    sample_call "b" 41 (CommitScan {| fromBlock := 100; toBlock := 140 |} [] [8]) ].

End examples.
