(* ===== verification/Scanner.v ===== *)
(** * Scanning the coordinator's events ([cli.mjs], [postgres-store.mjs])

    The scan of the file-backed operator and of the operators that share a
    database, an abstract tracker that both implement, and what a tracker knows of
    a chain whose last blocks may be reorganised. *)

From S2P Require Import Prelude Js OperatorStore StoreLeases.

Open Scope Z_scope.

(** The coordinator's [queryFilter] on its three events, over a block range. *)
Class EventsApi := {
  queryRequested : scan_window → result (list scan_event);
  queryFulfilled : scan_window → result (list Z);
  queryExpired : scan_window → result (list Z)
}.

(** The state of a file-backed operator: its requests by their identifiers. *)
Record service_state := {
  s_deploymentBlock : Z;
  s_cursor : Z;
  s_requests : gmap Z scan_event
}.
(** The state in memory and the state in the file. *)
Record service_store := { in_memory : service_state; in_file : option service_state }.

Definition set_in_memory (s : service_state) : eff service_store unit :=
  eff_modify (λ st, {| in_memory := s; in_file := in_file st |}).
Definition writeJsonAtomic : eff service_store unit :=
  eff_modify (λ st, {| in_memory := in_memory st; in_file := Some (in_memory st) |}).

Definition add_event (m : gmap Z scan_event) (e : scan_event) : gmap Z scan_event :=
  <[requestId e := e]> m.
Definition drop_ids (m : gmap Z scan_event) (ids : list Z) : gmap Z scan_event :=
  foldl (λ m id, delete id m) m ids.
(** [for (...) if (request.eventBlockNumber >= fromBlock) delete ...] *)
Definition drop_from (from : Z) (m : gmap Z scan_event) : gmap Z scan_event :=
  filter (λ '(_, e), eventBlockNumber e < from) m.

Section scan.
Context `{EventsApi}.

(** The range of the file-backed scan. *)
Definition fileScanRange (s : service_state) (latest rangeSize reorgLookback : Z) : scan_window :=
  let from := Z.max (s_deploymentBlock s) (Z.min (s_cursor s) latest - reorgLookback) in
  {| fromBlock := from; toBlock := Z.min latest (from + rangeSize - 1) |}.

Definition scanServiceEvents (latest rangeSize reorgLookback : Z) : eff service_store unit :=
  st ← eff_get;
  let s := in_memory st in
  if latest <? s_cursor s then mret tt
  else
    let w := fileScanRange s latest rangeSize reorgLookback in
    let dropped := drop_from (fromBlock w) (s_requests s) in
    _ ← set_in_memory {| s_deploymentBlock := s_deploymentBlock s; s_cursor := s_cursor s;
                         s_requests := dropped |};
    requested ← eff_lift (queryRequested w);
    fulfilled ← eff_lift (queryFulfilled w);
    expired ← eff_lift (queryExpired w);
    _ ← set_in_memory {| s_deploymentBlock := s_deploymentBlock s;
          s_cursor := Z.max (s_cursor s) (toBlock w + 1);
          s_requests := drop_ids (foldl add_event dropped requested) (fulfilled ++ expired) |};
    writeJsonAtomic.

Definition scanServiceEventsPostgres (i : operator_identity) (instanceId : string) (w : scan_window)
    (now : Z) : eff database unit :=
  requested ← eff_lift (queryRequested w);
  fulfilled ← eff_lift (queryFulfilled w);
  expired ← eff_lift (queryExpired w);
  commitScan i instanceId w requested (fulfilled ++ expired) now.
End scan.

(** ** The abstract tracker *)

Record tracker := { t_cursor : Z; t_pending : gmap Z scan_event }.

(** A scan forgets what it saw from its first block on, learns the requests of
    its range and forgets those that ended there. *)
Definition scan_step (w : scan_window) (requested : list scan_event) (finalized : list Z)
    (t : tracker) : tracker := {|
  t_cursor := Z.max (t_cursor t) (toBlock w + 1);
  t_pending := filter (λ '(id, _), id ∉ finalized)
    (foldl add_event (drop_from (fromBlock w) (t_pending t)) requested)
|}.

(** The tracker a file-backed operator is. *)
Definition service_tracker (s : service_state) : tracker :=
  {| t_cursor := s_cursor s; t_pending := s_requests s |}.

(** The live request of a database row. *)
Definition live (t : gmap (operator_key * Z) request_row) (k : operator_key) (id : Z)
    : option scan_event :=
  row ← t !! (k, id); if orphaned row then None else Some (row_event id row).

(** A database implements a tracker for the operators of a key. *)
Definition implements (i : operator_identity) (d : database) (t : tracker) : Prop :=
  (next_block <$> scan_state d !! key_of i) = Some (t_cursor t) ∧
  ∀ id, live (requests d) (key_of i) id = t_pending t !! id.

Lemma drop_ids_lookup m ids id :
  drop_ids m ids !! id = if decide (id ∈ ids) then None else m !! id.
Proof.
  unfold drop_ids. revert m. induction ids as [|x ids IH]; intros m; cbn [foldl].
  - rewrite decide_False; [done|set_solver].
  - rewrite IH. destruct (decide (id ∈ ids)) as [Hin|Hin].
    + by rewrite decide_True by set_solver.
    + destruct (decide (id = x)) as [->|Hne].
      * by rewrite decide_True, lookup_delete_eq by set_solver.
      * rewrite decide_False by set_solver. by rewrite lookup_delete_ne.
Qed.

Lemma drop_ids_filter m ids : drop_ids m ids = filter (λ '(id, _), id ∉ ids) m.
Proof.
  apply map_eq. intros id. rewrite drop_ids_lookup. apply option_eq. intros e.
  rewrite map_lookup_filter_Some. case_decide; naive_solver.
Qed.

(** ** Both scans implement the step *)
Section refinement.
Context (i : operator_identity).

Lemma live_mark_orphaned from t id :
  live (map_imap (λ kr row, Some (mark_orphaned i from kr row)) t) (key_of i) id
  = (e ← live t (key_of i) id; if eventBlockNumber e <? from then Some e else None).
Proof.
  unfold live. rewrite map_lookup_imap. destruct (t !! (key_of i, id)) as [row|]; [|done].
  cbn. unfold mark_orphaned. cbn. rewrite bool_decide_true by done. cbn.
  destruct (Z.leb_spec from (event_block_number row)); cbn; destruct (orphaned row); try done; cbn.
  - by rewrite (proj2 (Z.ltb_ge _ _)).
  - by rewrite (proj2 (Z.ltb_lt _ _)).
Qed.

Lemma live_upsert now t e id :
  live (upsert_event i now t e) (key_of i) id
  = if decide (id = requestId e) then Some e else live t (key_of i) id.
Proof.
  unfold live, upsert_event. destruct (decide (id = requestId e)) as [->|Hne].
  - rewrite lookup_insert_eq. cbn. by destruct e.
  - rewrite lookup_insert_ne by congruence. done.
Qed.

Lemma live_upserts now es t m :
  (∀ id, live t (key_of i) id = m !! id) →
  ∀ id, live (foldl (upsert_event i now) t es) (key_of i) id = foldl add_event m es !! id.
Proof.
  revert t m. induction es as [|e es IH]; intros t m Htm; [done|].
  apply IH. intros id. rewrite live_upsert. unfold add_event.
  destruct (decide (id = requestId e)) as [->|]; [by rewrite lookup_insert_eq|].
  by rewrite lookup_insert_ne.
Qed.

Lemma live_filter (P : (operator_key * Z) * request_row → Prop) `{∀ x, Decision (P x)} t id :
  live (filter P t) (key_of i) id
  = (row ← t !! (key_of i, id);
     if decide (P ((key_of i, id), row)) then (if orphaned row then None else Some (row_event id row))
     else None).
Proof.
  unfold live. rewrite map_lookup_filter. destruct (t !! (key_of i, id)) as [row|]; [|done].
  cbn. destruct (decide (P _)); [by rewrite option_guard_True|by rewrite option_guard_False].
Qed.

Lemma live_commit from requested finalized now t m :
  (∀ id, live t (key_of i) id = m !! id) →
  ∀ id, live (commit_requests i from requested finalized now t) (key_of i) id
        = filter (λ '(id, _), id ∉ finalized) (foldl add_event (drop_from from m) requested) !! id.
Proof.
  intros Htm id. unfold commit_requests.
  set (t1 := map_imap _ t). set (t2 := foldl _ t1 requested).
  assert (∀ id, live t2 (key_of i) id = foldl add_event (drop_from from m) requested !! id) as H2.
  { apply live_upserts. intros id'. unfold t1. rewrite live_mark_orphaned, Htm. unfold drop_from.
    rewrite map_lookup_filter. destruct (m !! id') as [e|]; [|done]. cbn.
    destruct (Z.ltb_spec (eventBlockNumber e) from).
    - by rewrite option_guard_True.
    - rewrite option_guard_False by lia. done. }
  rewrite live_filter, map_lookup_filter, map_lookup_filter. rewrite <-(H2 id). unfold live.
  destruct (t2 !! (key_of i, id)) as [row|]; [|done]. cbn.
  destruct (decide (id ∈ finalized)) as [Hin|Hin].
  - rewrite option_guard_False by tauto. destruct (orphaned row); [done|]. cbn.
    by rewrite option_guard_False by tauto.
  - rewrite option_guard_True by tauto. cbn. destruct (orphaned row) eqn:Ho; cbn.
    + by case_decide.
    + rewrite decide_True by naive_solver. by rewrite option_guard_True.
Qed.
End refinement.

Lemma implements_commitScan i inst w requested finalized now d t d' :
  implements i d t → commitScan i inst w requested finalized now d = (Ok tt, d') →
  implements i d' (scan_step w requested finalized t).
Proof.
  intros [Hc Hl]. unfold commitScan, transaction, mbind, eff_bind, eff_get.
  destruct (scan_state d !! key_of i) as [row|] eqn:Hrow; [|done]. injection Hc as Hc.
  unfold eff_require, eff_lift, eff_modify. destruct (bool_decide _); cbn [require]; [|done].
  destruct (safeBlockNumber (next_block row) "scan cursor") as [c|] eqn:Hs; [|done]. intros [= <-].
  assert (c = next_block row) as ->.
  { unfold safeBlockNumber in Hs. by case_match; simplify_eq. }
  split.
  - cbn [scan_state set_scan]. rewrite lookup_insert_eq. cbn. by rewrite Hc.
  - intros id. cbn [requests set_scan set_requests scan_step t_pending].
    by apply live_commit.
Qed.

Lemma claimScan_window i inst latest range lookback lease now d w d' t :
  implements i d t → claimScan i inst latest range lookback lease now d = (Ok (Some w), d') →
  t_cursor t <= latest ∧ w = scanRange i (t_cursor t) latest range lookback ∧ implements i d' t.
Proof.
  intros [Hc Hl]. unfold claimScan, mbind, eff_bind, eff_get.
  destruct (scan_state d !! key_of i) as [row|] eqn:Hrow; [|done]. injection Hc as Hc.
  destruct (_ && _) eqn:Hb; [|done]. unfold eff_modify, eff_lift, safeBlockNumber.
  destruct (negb _ || _); [done|]. intros [= <- <-]. rewrite Hc. apply andb_true_iff in Hb as [Hb _].
  apply Z.leb_le in Hb. split; [lia|]. split; [done|]. split.
  - cbn [scan_state set_scan]. by rewrite lookup_insert_eq.
  - exact Hl.
Qed.

Section claims.
Context `{EventsApi}.

Lemma scanServiceEvents_step latest range lookback st st' :
  s_cursor (in_memory st) <= latest →
  scanServiceEvents latest range lookback st = (Ok tt, st') →
  let w := fileScanRange (in_memory st) latest range lookback in
  ∃ requested fulfilled expired,
    queryRequested w = Ok requested ∧ queryFulfilled w = Ok fulfilled ∧
    queryExpired w = Ok expired ∧
    service_tracker (in_memory st')
    = scan_step w requested (fulfilled ++ expired) (service_tracker (in_memory st)) ∧
    in_file st' = Some (in_memory st').
Proof.
  unfold scanServiceEvents, mbind at 1, eff_bind at 1, eff_get. intros Hle.
  rewrite (proj2 (Z.ltb_ge _ _)) by done. cbv zeta. set (w := fileScanRange _ _ _ _).
  intros Hs. apply eff_bind_Ok in Hs as (? & st1 & [= <- <-] & Hs).
  apply eff_lift_bind_Ok in Hs as (requested & Hr & Hs).
  apply eff_lift_bind_Ok in Hs as (fulfilled & Hf & Hs).
  apply eff_lift_bind_Ok in Hs as (expired & He & Hs).
  apply eff_bind_Ok in Hs as (? & st2 & [= <- <-] & Hs). injection Hs as <-.
  exists requested, fulfilled, expired. split_and!; [done..| |done].
  unfold service_tracker, scan_step. cbn. by rewrite drop_ids_filter.
Qed.

(** C12: the scan that operators share through the database and the scan of the
    file-backed operator implement one abstract step: from the same cursor they
    read the same range, and a database that implements a tracker, like the state
    in memory and in the file, goes to the tracker the step computes from the
    events of the range. *)
Theorem scan_refines_tracker i inst latest range lookback lease now now' d d1 d2 w t st st' :
  implements i d t → deploymentBlock i = s_deploymentBlock (in_memory st) →
  service_tracker (in_memory st) = t →
  claimScan i inst latest range lookback lease now d = (Ok (Some w), d1) →
  scanServiceEventsPostgres i inst w now' d1 = (Ok tt, d2) →
  scanServiceEvents latest range lookback st = (Ok tt, st') →
  ∃ requested fulfilled expired,
    queryRequested w = Ok requested ∧ queryFulfilled w = Ok fulfilled ∧
    queryExpired w = Ok expired ∧
    let t' := scan_step w requested (fulfilled ++ expired) t in
    implements i d2 t' ∧ service_tracker (in_memory st') = t' ∧ in_file st' = Some (in_memory st').
Proof.
  intros Himp Hdep Ht Hclaim Hpg Hfile.
  destruct (claimScan_window _ _ _ _ _ _ _ _ _ _ _ Himp Hclaim) as (Hle & -> & Himp1).
  set (w := scanRange i (t_cursor t) latest range lookback) in *.
  assert (w = fileScanRange (in_memory st) latest range lookback) as Hw.
  { unfold w, scanRange, fileScanRange. rewrite <-Ht. cbn. by rewrite Hdep. }
  unfold scanServiceEventsPostgres in Hpg.
  apply eff_bind_Ok in Hpg as (requested & ? & [Hr ->]%eff_lift_Ok & Hpg).
  apply eff_bind_Ok in Hpg as (fulfilled & ? & [Hf ->]%eff_lift_Ok & Hpg).
  apply eff_bind_Ok in Hpg as (expired & ? & [He ->]%eff_lift_Ok & Hpg).
  exists requested, fulfilled, expired. do 3 (split; [done|]). cbv zeta. split_and!.
  - by eapply implements_commitScan.
  - rewrite Hw in Hr, Hf, He. rewrite <-Ht in Hle.
    destruct (scanServiceEvents_step _ _ _ _ _ Hle Hfile) as (r & f & e & Hr' & Hf' & He' & E & _).
    rewrite <-Hw in Hr', Hf', He', E. rewrite <-Hw in Hr, Hf, He. rewrite E, <-Ht. congruence.
  - rewrite <-Ht in Hle. by destruct (scanServiceEvents_step _ _ _ _ _ Hle Hfile)
      as (? & ? & ? & _ & _ & _ & _ & ?).
Qed.
End claims.

(** ** Chains *)

(** The requests a chain holds and the ends of requests, with their blocks. *)
Record chain := { c_requested : list scan_event; c_finalized : list (Z * Z) }.

(** Identifiers are used once, and a request ends no earlier than it is made. *)
Definition chain_ok (c : chain) : Prop :=
  NoDup (requestId <$> c_requested c) ∧
  ∀ e b, e ∈ c_requested c → (requestId e, b) ∈ c_finalized c → eventBlockNumber e <= b.

(** Two chains with the same blocks below [b]. *)
Definition agree_below (b : Z) (c c' : chain) : Prop :=
  (∀ e, eventBlockNumber e < b → e ∈ c_requested c ↔ e ∈ c_requested c') ∧
  ∀ id n, n < b → (id, n) ∈ c_finalized c ↔ (id, n) ∈ c_finalized c'.

(** What a scan of the chain reads in a range. *)
Definition chain_requested (c : chain) (w : scan_window) : list scan_event :=
  filter (λ e, fromBlock w <= eventBlockNumber e <= toBlock w) (c_requested c).
Definition chain_finalized (c : chain) (w : scan_window) : list Z :=
  (filter (λ f, fromBlock w <= f.2 <= toBlock w) (c_finalized c)).*1.

(** The request is open at the end of the blocks below [cursor]. *)
Definition open_request (c : chain) (dep cursor : Z) (e : scan_event) : Prop :=
  e ∈ c_requested c ∧ dep <= eventBlockNumber e < cursor ∧
  ∀ b, (requestId e, b) ∈ c_finalized c → ¬ (dep <= b < cursor).

(** The tracker holds the requests of the chain open below its cursor. *)
Definition tracks (c : chain) (dep : Z) (t : tracker) : Prop :=
  ∀ id e, t_pending t !! id = Some e ↔ requestId e = id ∧ open_request c dep (t_cursor t) e.

Lemma add_events_lookup m es id e :
  NoDup (requestId <$> es) →
  foldl add_event m es !! id = Some e ↔
  (e ∈ es ∧ requestId e = id) ∨ (m !! id = Some e ∧ id ∉ requestId <$> es).
Proof.
  revert m. induction es as [|x es IH]; intros m Hnd; cbn [foldl].
  { set_solver. }
  rewrite fmap_cons in *. apply NoDup_cons in Hnd as [Hx Hnd].
  rewrite IH by done. unfold add_event. destruct (decide (requestId x = id)) as [<-|Hne].
  - rewrite lookup_insert_eq. split.
    + intros [[Hin E]|[[= ->] _]]; left; split; set_solver.
    + intros [[[->|Hin]%elem_of_cons E]|[_ Hn]]; [by right|by left|set_solver].
  - rewrite lookup_insert_ne by done. split.
    + intros [[Hin E]|[Hm Hn]]; [left; set_solver|right]. split; [done|]. set_solver.
    + intros [[[->|Hin]%elem_of_cons E]|[Hm Hn]]; [done|by left|right]. split; [done|]. set_solver.
Qed.

Lemma chain_requested_NoDup c w : chain_ok c → NoDup (requestId <$> chain_requested c w).
Proof.
  intros [Hnd _]. unfold chain_requested. induction (c_requested c) as [|x l IH]; [constructor|].
  rewrite fmap_cons in Hnd. apply NoDup_cons in Hnd as [Hx Hnd]. rewrite filter_cons.
  case_decide; [|by apply IH]. rewrite fmap_cons. apply NoDup_cons. split; [|by apply IH].
  intros Hin. apply Hx. apply list_elem_of_fmap in Hin as (y & -> & Hy).
  apply list_elem_of_filter in Hy as [_ Hy]. by apply list_elem_of_fmap_2.
Qed.

Lemma chain_ok_inj c e e' :
  chain_ok c → e ∈ c_requested c → e' ∈ c_requested c → requestId e = requestId e' → e = e'.
Proof.
  intros [Hnd _] He He' E. apply list_elem_of_lookup in He as [n Hn], He' as [n' Hn'].
  assert (n = n') as ->; [|congruence].
  eapply NoDup_lookup; [exact Hnd| |]; rewrite list_lookup_fmap.
  - by rewrite Hn.
  - by rewrite Hn', E.
Qed.

(** The range reaches past the cursor exactly when it is longer than the
    lookback. *)
Lemma scanRange_reaches i cursor latest range lookback :
  deploymentBlock i <= cursor - lookback → cursor <= latest →
  let w := scanRange i cursor latest range lookback in
  fromBlock w = cursor - lookback ∧ (cursor <= toBlock w ↔ lookback < range).
Proof.
  intros Hdep Hle. cbn. rewrite (Z.min_l cursor latest), Z.max_r by lia. split; [done|]. lia.
Qed.

Lemma scanRange_past i cursor latest range lookback :
  deploymentBlock i <= cursor <= latest → 0 <= lookback < range →
  let w := scanRange i cursor latest range lookback in
  deploymentBlock i <= fromBlock w <= cursor ∧ cursor <= toBlock w.
Proof. intros Hc Hr. cbn. rewrite (Z.min_l cursor latest) by lia. lia. Qed.


(** ** Progress *)

(** The cursor after a scan; none is made when the cursor is past [latest]. *)
Definition next_cursor (i : operator_identity) (latest range lookback cursor : Z) : Z :=
  if latest <? cursor then cursor
  else t_cursor (scan_step (scanRange i cursor latest range lookback) [] []
                   {| t_cursor := cursor; t_pending := ∅ |}).

Lemma next_cursor_past i latest range lookback cursor :
  deploymentBlock i <= cursor <= latest → 0 <= lookback < range →
  cursor < next_cursor i latest range lookback cursor <= latest + 1.
Proof.
  intros Hc Hr. unfold next_cursor. rewrite (proj2 (Z.ltb_ge _ _)) by lia.
  destruct (scanRange_past i cursor latest range lookback Hc Hr) as [Hf Ht].
  cbn in *. lia.
Qed.

Lemma iter_next_cursor i latest range lookback n cursor :
  deploymentBlock i <= cursor <= latest + 1 → 0 <= lookback < range →
  latest + 1 - cursor <= Z.of_nat n →
  Nat.iter n (next_cursor i latest range lookback) cursor = latest + 1.
Proof.
  intros Hc Hr. revert cursor Hc. induction n as [|n IH]; intros cursor Hc Hn; [cbn; lia|].
  rewrite Nat.iter_succ_r. destruct (Z.lt_ge_cases latest cursor).
  - assert (next_cursor i latest range lookback cursor = cursor) as ->
      by (unfold next_cursor; by rewrite (proj2 (Z.ltb_lt latest cursor))).
    apply IH; lia.
  - pose proof (next_cursor_past i latest range lookback cursor ltac:(lia) Hr).
    apply IH; lia.
Qed.

(** When the range is longer than the lookback, repeated scans bring the
    cursor past the latest block, in at most as many scans as there are blocks;
    when it is not, a cursor the lookback beyond the deployment never moves again,
    however many scans are made. *)
Theorem scan_catches_up i latest range lookback cursor :
  deploymentBlock i <= cursor <= latest + 1 → 0 <= lookback →
  (lookback < range →
   Nat.iter (Z.to_nat (latest + 1 - cursor)) (next_cursor i latest range lookback) cursor
   = latest + 1) ∧
  (range <= lookback → deploymentBlock i <= cursor - lookback →
   ∀ n, Nat.iter n (next_cursor i latest range lookback) cursor = cursor).
Proof.
  intros Hc Hl. split.
  - intros Hr. apply iter_next_cursor; lia.
  - intros Hr Hd n. induction n as [|n IH]; [done|].
    change (Nat.iter (S n) ?f cursor) with (f (Nat.iter n f cursor)). rewrite IH.
    unfold next_cursor. destruct (Z.ltb_spec latest cursor); [done|]. cbn. lia.
Qed.

(** With a range that is not longer than the lookback, a scan also forgets the
    open requests between its last block and the cursor. *)
Lemma short_range_forgets i c latest range lookback t e :
  let w := scanRange i (t_cursor t) latest range lookback in
  deploymentBlock i <= t_cursor t - lookback → t_cursor t <= latest → range <= lookback →
  chain_ok c → tracks c (deploymentBlock i) t →
  open_request c (deploymentBlock i) (t_cursor t) e → toBlock w < eventBlockNumber e → fromBlock w <= eventBlockNumber e →
  t_pending (scan_step w (chain_requested c w) (chain_finalized c w) t) !! requestId e = None.
Proof.
  intros w Hd Hle Hr Hok Ht (He & Hb & _) Hto Hfrom. apply eq_None_not_Some. intros [y Hy].
  cbn [scan_step t_pending] in Hy. apply map_lookup_filter_Some in Hy as [Hy _].
  apply add_events_lookup in Hy; [|by apply chain_requested_NoDup].
  destruct Hy as [[[Hyb Hyc]%list_elem_of_filter E]|[Hy _]].
  - assert (y = e) as -> by (by eapply chain_ok_inj). lia.
  - unfold drop_from in Hy. apply map_lookup_filter_Some in Hy as [[E (Hyc & _)]%Ht Hlt].
    assert (y = e) as -> by (by eapply chain_ok_inj). lia.
Qed.

(** A reorganisation that undoes the end of a request made before the range is
    not noticed: the request stays forgotten. *)
Lemma undone_end_forgotten :
  ∃ i c c' t latest, let w := scanRange i (t_cursor t) latest 2000 32 in
    chain_ok c ∧ chain_ok c' ∧ agree_below (fromBlock w) c c' ∧
    tracks c (deploymentBlock i) t ∧
    ∃ e, open_request c' (deploymentBlock i) (toBlock w + 1) e ∧
      t_pending (scan_step w (chain_requested c' w) (chain_finalized c' w) t) !! requestId e = None.
Proof.
  exists sample_operator, {| c_requested := [sample_event 7 100]; c_finalized := [(7, 140)] |},
    {| c_requested := [sample_event 7 100]; c_finalized := [] |},
    {| t_cursor := 141; t_pending := ∅ |}, 150. cbn.
  split_and!.
  - split; [by apply all_distinct_spec|]. intros e b ->%list_elem_of_singleton Hb.
    apply list_elem_of_singleton in Hb. injection Hb as ->. cbn. lia.
  - split; [by apply all_distinct_spec|]. intros e b _ ?. set_solver.
  - split; [done|]. intros id n Hn. split; [|set_solver].
    intros Hin%list_elem_of_singleton. injection Hin as -> ->. lia.
  - intros id e. split; [done|]. intros (_ & ->%list_elem_of_singleton & _ & Hopen).
    exfalso. apply (Hopen 140); [by apply list_elem_of_singleton|cbn; lia].
  - exists (sample_event 7 100). split; [|done].
    split; [by apply list_elem_of_singleton|]. split; [cbn; lia|]. intros b ?. set_solver.
Qed.

Section examples.
Definition sample_chain : chain := {|
  c_requested := [sample_event 7 105; sample_event 8 110]; c_finalized := [(8, 112)] |}.
(** The same chain after its last blocks were reorganised. *)
Definition sample_reorg : chain := {|
  c_requested := [sample_event 7 105; sample_event 9 115]; c_finalized := [] |}.
#[local] Instance sample_events : EventsApi := {|
  queryRequested := λ w, Ok (chain_requested sample_chain w);
  queryFulfilled := λ w, Ok (chain_finalized sample_chain w);
  queryExpired := λ _, Ok []
|}.

Definition initial_database : database :=
  (run_calls [sample_call "a" 0 Initialize] empty_database).2.
Definition initial_service : service_store := {|
  in_memory := {| s_deploymentBlock := 100; s_cursor := 100; s_requests := ∅ |}; in_file := None |}.

Definition run_value {S A} (d : A) (r : result A * S) : A :=
  match r with (Ok a, _) => a | (Throw _, _) => d end.
Definition claimed_window : scan_window := {| fromBlock := 100; toBlock := 120 |}.

Lemma scan_refines_witness :
  ∃ t', t_cursor t' = 121 ∧
    implements sample_operator (scanServiceEventsPostgres sample_operator "a" claimed_window 1
      (claimScan sample_operator "a" 120 2000 32 60 0 initial_database).2).2 t' ∧
    service_tracker (in_memory (scanServiceEvents 120 2000 32 initial_service).2) = t'.
Proof.
  destruct (claimScan sample_operator "a" 120 2000 32 60 0 initial_database) as [r d1] eqn:E1.
  assert (r = Ok (Some claimed_window)) as -> by (apply (f_equal fst) in E1; cbn [fst] in E1;
    rewrite <-E1; vm_compute; reflexivity).
  cbn [snd].
  destruct (scanServiceEventsPostgres sample_operator "a" claimed_window 1 d1) as [r2 d2] eqn:E2.
  assert (r2 = Ok tt) as ->.
  { apply (f_equal fst) in E2. apply (f_equal snd) in E1. cbn [fst snd] in E1, E2.
    rewrite <-E2, <-E1. vm_compute. reflexivity. }
  destruct (scanServiceEvents 120 2000 32 initial_service) as [r3 st'] eqn:E3.
  assert (r3 = Ok tt) as -> by (apply (f_equal fst) in E3; cbn [fst] in E3;
    rewrite <-E3; vm_compute; reflexivity).
  assert (implements sample_operator initial_database (service_tracker (in_memory initial_service)))
    as Himp.
  { split; [vm_compute; reflexivity|]. intros id. unfold live.
    assert (requests initial_database = ∅) as -> by (vm_compute; reflexivity).
    by rewrite !lookup_empty. }
  destruct (scan_refines_tracker sample_operator "a" 120 2000 32 60 0 1 initial_database d1 d2
    claimed_window (service_tracker (in_memory initial_service)) initial_service st'
    Himp eq_refl eq_refl E1 E2 E3) as (requested & fulfilled & expired & Hr & Hf & He & Hi & Ht & _).
  eexists. split; [|split; [exact Hi|exact Ht]]. reflexivity.
Defined.

Lemma tracks_empty c dep : tracks c dep {| t_cursor := dep; t_pending := ∅ |}.
Proof.
  intros id e. cbn. rewrite lookup_empty. split; [done|]. intros (_ & _ & Hb & _). lia.
Qed.


Lemma scan_catches_up_witness :
  Nat.iter 5 (next_cursor sample_operator 150 10 32) 140 = 140 ∧
  Nat.iter 11 (next_cursor sample_operator 150 2000 32) 140 = 151.
Proof.
  split.
  - apply (scan_catches_up sample_operator 150 10 32 140); cbn; lia.
  - apply (scan_catches_up sample_operator 150 2000 32 140); cbn; lia.
Defined.
End examples.
