(* ===== verification/ErrorText.v ===== *)
(** * Error texts ([errors.mjs])

    What an error may show in a log, a health file or the database: URLs, bearer
    tokens, secrets given by name and long hex strings are cut out. *)

From S2P Require Import Prelude Js Hex.

Open Scope Z_scope.

(** ** Replacement by pattern

    A pattern looks at the front of the text and, when it matches there, gives the
    replacement and the text after the match. *)
Definition pattern : Type := list ascii → option (list ascii * list ascii).

(** [s.replace(pattern, ...)] with the flag [g]; a match is never empty, so the
    fuel, the length of the text, is enough. *)
Fixpoint replace_go (p : pattern) (fuel : nat) (l : list ascii) : list ascii :=
  match fuel with
  | O => l
  | S fuel =>
      match p l with
      | Some (replacement, rest) => replacement ++ replace_go p fuel rest
      | None => match l with [] => [] | c :: l => c :: replace_go p fuel l end
      end
  end.
Definition replace_all (p : pattern) (s : string) : string :=
  of_chars (replace_go p (length (chars s)) (chars s)).

(** The longest prefix of characters that satisfy a test, and the rest. *)
Fixpoint span (f : ascii → bool) (l : list ascii) : list ascii * list ascii :=
  match l with
  | c :: l => if f c then let '(a, b) := span f l in (c :: a, b) else ([], c :: l)
  | [] => ([], [])
  end.

(** A literal, whatever its case: the text it matched and the rest. *)
Fixpoint literal (word l : list ascii) : option (list ascii * list ascii) :=
  match word, l with
  | [], _ => Some ([], l)
  | w :: word, c :: l =>
      if Ascii.eqb (lower_char c) w then '(m, r) ← literal word l; Some (c :: m, r) else None
  | _ :: _, [] => None
  end.
(** The first of the alternatives that matches and lets the rest match. *)
Fixpoint first_of (words : list string) (l : list ascii)
    (k : list ascii → list ascii → option (list ascii * list ascii))
    : option (list ascii * list ascii) :=
  match words with
  | [] => None
  | w :: words =>
      match ('(m, r) ← literal (chars w) l; k m r) with
      | Some x => Some x
      | None => first_of words l k
      end
  end.

Definition one_of (s : string) (c : ascii) : bool := existsb (Ascii.eqb c) (chars s).
Definition double_quote : ascii := char_of 34.
(** [[^\s''<>]] and [[^\s'',;}]], with both quotes. *)
Definition url_char (c : ascii) : bool :=
  negb (is_space c || Ascii.eqb c double_quote || one_of "'<>" c).
Definition word_char (c : ascii) : bool :=
  negb (is_space c || Ascii.eqb c double_quote || one_of "',;}" c).

(** One character or more. *)
Definition some_of (f : ascii → bool) (replacement l : list ascii)
    : option (list ascii * list ascii) :=
  let '(m, r) := span f l in
  match m with [] => None | _ => Some (replacement, r) end.

Definition url_pattern : pattern := λ l,
  first_of ["https://"; "http://"; "wss://"; "ws://"; "postgresql://"; "postgres://"] l
    (λ _ r, some_of url_char (chars "[redacted-url]") r).

Definition bearer_pattern : pattern := λ l,
  first_of ["bearer"] l (λ _ r,
    match span is_space r with
    | ([], _) => None
    | (_, r) => some_of word_char (chars "Bearer [redacted]") r
    end).

Definition secret_pattern : pattern := λ l,
  first_of ["private_key"; "private-key"; "privatekey"; "password"; "token"; "api_key"; "api-key";
            "apikey"; "authorization"] l (λ m r,
    let '(s1, r) := span is_space r in
    match r with
    | c :: r =>
        if one_of "=:" c then
          let '(s2, r) := span is_space r in
          some_of word_char (m ++ s1 ++ [c] ++ s2 ++ chars "[redacted]") r
        else None
    | [] => None
    end).

Definition hex_pattern : pattern := λ l,
  first_of ["0x"] l (λ _ r,
    let '(m, r) := span is_hex_digit r in
    if (64 <=? length m)%nat then Some (chars "[redacted-hex]", r) else None).

(** [s.slice(0, n)] *)
Definition slice0 (n : nat) (s : string) : string := of_chars (take n (chars s)).

Definition redactText (v : value) : string :=
  slice0 1200 (replace_all hex_pattern (replace_all secret_pattern
    (replace_all bearer_pattern (replace_all url_pattern (to_str v))))).

(** ** Error objects *)

Definition DETAIL_FIELDS : list string :=
  ["code"; "shortMessage"; "message"; "reason"; "errno"; "syscall"].

(** The fields of one object, entered at its depth. *)
Definition visit_field (depth : nat) (v : value) (details : list (string * string)) (field : string)
    : list (string * string) :=
  let x := prop_opt v field in
  if bool_decide (typeof x ∈ ["string"; "number"]) then
    let key := match depth with
               | O => field
               | _ => "cause" +:+ print_int (Z.of_nat depth) +:+ "_" +:+ field
               end in
    match assoc key details with
    | None => assoc_set key (redactText x) details
    | Some _ => details
    end
  else details.

(** [/^[a-zA-Z][a-zA-Z0-9_]{0,79}$/] *)
Definition method_name (s : string) : bool :=
  head_tail (λ c, is_upper c || is_lower c)
    (λ c, is_upper c || is_lower c || is_digit c || Ascii.eqb c "_") 0 79 s.

Definition visit_method (v : value) (details : list (string * string)) : list (string * string) :=
  let direct := prop_opt (prop_opt v "payload") "method" in
  let found := if truthy direct then direct
               else prop_opt (prop_opt (prop_opt v "info") "payload") "method" in
  match found with
  | VStr s => if method_name s then assoc_set "rpcMethod" s details else details
  | _ => details
  end.

(** [visit] of an object that no other field of the error refers to; [levels] more
    levels may be visited. *)
Fixpoint visit (levels depth : nat) (v : value) (details : list (string * string))
    : list (string * string) :=
  match levels with
  | O => details
  | S levels =>
      if negb (truthy v) || negb (bool_decide (typeof v = "object")) then details
      else
        let details := foldl (visit_field depth v) details DETAIL_FIELDS in
        let details := visit_method v details in
        let details := visit levels (S depth) (prop_opt v "error") details in
        let details := visit levels (S depth) (prop_opt (prop_opt v "info") "error") details in
        visit levels (S depth) (prop_opt v "cause") details
  end.

(** [depth > 3] stops a visit: four levels. *)
Definition errorDetails (error : value) : list (string * string) :=
  let details := visit 4 0 error [] in
  match details with [] => [("message", redactText error)] | _ => details end.

(** [/message|reason/i.test(key)] *)
Fixpoint contains_lower (word l : list ascii) : bool :=
  match literal word l with
  | Some _ => true
  | None => match l with [] => false | _ :: l => contains_lower word l end
  end.
Definition mentions (words : list string) (s : string) : bool :=
  existsb (λ w, contains_lower (chars w) (chars s)) words.

Definition errorMessage (error : value) : string :=
  let texts := (filter (λ kv, mentions ["message"; "reason"] kv.1 = true) (errorDetails error)).*2 in
  let joined := join " | " (js_set texts) in
  if bool_decide (joined = "") then
    let code := prop_opt error "code" in
    redactText (if truthy code then code else VStr "unknown error")
  else joined.

(** ** No long hex string is shown *)

(** [0x] and 64 hex digits at the front of the text, somewhere in the text. *)
Definition key_here (l : list ascii) : bool :=
  match l with
  | a :: b :: l => Ascii.eqb a "0" && Ascii.eqb (lower_char b) "x"
                   && (64 <=? length (span is_hex_digit l).1)%nat
  | _ => false
  end.
Fixpoint key_inside (l : list ascii) : bool :=
  key_here l || match l with [] => false | _ :: l => key_inside l end.

Lemma span_rest f l : (length (span f l).2 ≤ length l)%nat.
Proof.
  induction l as [|c l IH]; cbn; [lia|]. destruct (f c); [|cbn; lia].
  destruct (span f l). cbn in *. lia.
Qed.

Lemma hex_pattern_None l :
  hex_pattern l = None → key_here l = false.
Proof.
  unfold hex_pattern. change (chars "0x") with ["0"%char; "x"%char].
  destruct l as [|a [|b l]]; [done..|]. cbn [first_of literal chars key_here].
  change (chars "0x") with ["0"%char; "x"%char]. cbn [literal].
  assert (Ascii.eqb (lower_char a) "0" = Ascii.eqb a "0") as -> by (by_all_chars a).
  destruct (Ascii.eqb a "0"); [|done]. destruct (Ascii.eqb (lower_char b) "x"); [|done].
  cbn -[Nat.leb]. destruct (span is_hex_digit l) as [m r]. cbn -[Nat.leb].
  destruct (64 <=? length m)%nat; done.
Qed.

Lemma hex_pattern_out l replacement rest :
  hex_pattern l = Some (replacement, rest) →
  replacement = chars "[redacted-hex]" ∧ (length rest < length l)%nat.
Proof.
  unfold hex_pattern. change (chars "0x") with ["0"%char; "x"%char].
  destruct l as [|a [|b l]]; [done|cbn; by destruct (Ascii.eqb _ _)|]. cbn [first_of].
  change (chars "0x") with ["0"%char; "x"%char]. cbn [literal].
  destruct (Ascii.eqb (lower_char a) "0"); [|done]. destruct (Ascii.eqb (lower_char b) "x"); [|done].
  cbn -[Nat.leb]. pose proof (span_rest is_hex_digit l) as Hs.
  destruct (span is_hex_digit l) as [m r]. cbn -[Nat.leb] in *.
  destruct (64 <=? length m)%nat; [|done]. intros [= <- <-]. split; [done|]. lia.
Qed.

(** A cut-out is not joined with what follows it. *)
Lemma key_inside_redacted l :
  key_inside l = false → key_inside (chars "[redacted-hex]" ++ l) = false.
Proof. intros Hl. cbn -[Nat.leb span]. rewrite Hl. by destruct l. Qed.

Lemma span_prefix_le f l k : (length (span f (take k l)).1 ≤ length (span f l).1)%nat.
Proof.
  revert k. induction l as [|c l IH]; intros [|k]; cbn; try lia.
  destruct (f c); cbn; [|lia]. specialize (IH k).
  destruct (span f (take k l)), (span f l). cbn in *. lia.
Qed.

Lemma key_here_take k l : key_here (take k l) = true → key_here l = true.
Proof.
  destruct k as [|[|k]], l as [|a [|b l]]; try done. cbn [take key_here].
  rewrite !andb_true_iff, !Nat.leb_le. pose proof (span_prefix_le is_hex_digit l k). intuition lia.
Qed.

Lemma key_inside_take k l : key_inside (take k l) = true → key_inside l = true.
Proof.
  revert k. induction l as [|c l IH]; intros k; [by destruct k|].
  destruct k as [|k]; [done|]. cbn [take key_inside]. rewrite !orb_true_iff.
  intros [H|H]; [left; by apply (key_here_take (S k))|right; eauto].
Qed.

(** The hex digits at the front of the output were at the front of the text. *)
Lemma replace_hex_span fuel l :
  (length l ≤ fuel)%nat →
  (length (span is_hex_digit (replace_go hex_pattern fuel l)).1 ≤ length (span is_hex_digit l).1)%nat.
Proof.
  revert l. induction fuel as [|fuel IH]; intros l Hl; [destruct l; cbn in *; lia|].
  cbn [replace_go]. destruct (hex_pattern l) as [[replacement rest]|] eqn:E.
  - apply hex_pattern_out in E as [-> _].
    assert (∀ x, (span is_hex_digit (chars "[redacted-hex]" ++ x)).1 = []) as -> by reflexivity.
    cbn. lia.
  - destruct l as [|c l]; [cbn; lia|]. cbn [span]. destruct (is_hex_digit c); [|cbn; lia].
    specialize (IH l ltac:(cbn in Hl; lia)).
    destruct (span is_hex_digit (replace_go hex_pattern fuel l)), (span is_hex_digit l). cbn in *. lia.
Qed.

Lemma replace_hex_clean fuel l :
  (length l ≤ fuel)%nat → key_inside (replace_go hex_pattern fuel l) = false.
Proof.
  revert l. induction fuel as [|fuel IH]; intros l Hl; [by destruct l; cbn in *; [|lia]|].
  cbn [replace_go]. destruct (hex_pattern l) as [[replacement rest]|] eqn:E.
  - apply hex_pattern_out in E as [-> Hrest]. cbn -[key_here key_inside replace_go].
    assert (key_inside (replace_go hex_pattern fuel rest) = false) as Hr by (apply IH; lia).
    by apply (key_inside_redacted (replace_go hex_pattern fuel rest)).
  - destruct l as [|c l]; [done|]. cbn in Hl. cbn [key_inside].
    rewrite (IH l), orb_false_r by lia. apply hex_pattern_None in E.
    destruct (key_here (c :: replace_go hex_pattern fuel l)) eqn:Hk; [|done].
    destruct fuel as [|fuel]; [destruct l; [done|cbn in Hl; lia]|]. cbn [replace_go] in Hk.
    destruct (hex_pattern l) as [[replacement rest]|] eqn:E'.
    + apply hex_pattern_out in E' as [-> _]. cbn in Hk. by rewrite andb_false_r in Hk.
    + destruct l as [|b l]; [done|]. cbn [key_here] in Hk, E. cbn in Hl.
      pose proof (replace_hex_span fuel l ltac:(lia)).
      apply andb_true_iff in Hk as [Hab Hk%Nat.leb_le]. rewrite Hab in E. cbn -[Nat.leb] in E.
      apply Nat.leb_gt in E. lia.
Qed.

(** The text of an error never shows a hex string of 32 bytes or more, such
    as a private key or a share, and is at most 1200 characters long. *)
Theorem redacted_text_shows_no_key v :
  key_inside (chars (redactText v)) = false ∧ str_length (redactText v) <= 1200.
Proof.
  unfold redactText, slice0, str_length. rewrite chars_of_chars, length_of_chars. split.
  - apply not_true_is_false. intros Hk%key_inside_take.
    unfold replace_all at 1 in Hk. rewrite chars_of_chars, replace_hex_clean in Hk; done.
  - rewrite length_take. lia.
Qed.
