(* ===== verification/Relayer.v ===== *)
(** * Sending transactions ([cli.mjs], [postgres-store.mjs])

    The replacement of a transaction under a gas price limit, the journal of
    broadcasts, its reconciliation with the chain, and the work on one claimed
    request.  The network and the proof provider are parameters, and may answer
    each call differently: an answer depends on the number of the call.  Calls that
    the code makes together are one call here. *)

From S2P Require Import Prelude Js Hex Vendor Policies OperatorStore StoreLeases Scanner ErrorText.

Open Scope Z_scope.

Record tx_request := { tx_to : string; tx_data : bytes }.
Record receipt := {
  rc_hash : string; rc_blockHash : string; rc_status : Z; rc_blockNumber : Z
}.

(** A populated transaction, as the wallet signs it. *)
Record populated := {
  po_request : tx_request; po_nonce : Z; po_gasLimit : Z; po_gasPrice : Z
}.

(** What [transaction.wait()] or the timer gives: a receipt, the timeout, the
    receipt of another transaction that took the nonce, or another error. *)
Inductive wait_outcome :=
| Mined (r : receipt)
| TimedOut
| TransactionReplaced (r : receipt)
| WaitFailed (message : string).

Class Network := {
  time_at : nat → Z;
  estimateGas : nat → tx_request → result Z;
  getFeeData : nat → result (option Z * option Z);        (* gasPrice, maxFeePerGas *)
  getNonce : nat → string → result Z;
  populateTransaction : nat → populated → result unit;
  sign_transaction : populated → bytes;
  broadcastTransaction : nat → bytes → result string;     (* the hash the RPC returns *)
  wait_for : nat → string → Z → wait_outcome;             (* hash, timeout *)
  lease_alive : nat → bool;
  getTransactionReceipt : nat → string → string → result (option receipt);  (* provider, hash *)
  getTransaction : nat → string → string → result bool;
  latestCount : nat → string → string → result Z;         (* provider, address *)
  pendingCount : nat → string → string → result value
}.

(** The world of a relayer: the database, what it has broadcast, the calls made so
    far, and whether the connection that holds the nonce lock was lost. *)
Record relay_world := {
  store : database;
  broadcasts : list populated;
  calls : nat;
  lost : bool
}.

Definition on_store {A} (m : eff database A) : eff relay_world A := λ w,
  let '(r, d) := m (store w) in
  (r, {| store := d; broadcasts := broadcasts w; calls := calls w; lost := lost w |}).
Definition ask {A} (f : nat → result A) : eff relay_world A := λ w,
  (f (calls w), {| store := store w; broadcasts := broadcasts w; calls := S (calls w); lost := lost w |}).
Definition set_lost (b : bool) : eff relay_world unit :=
  eff_modify (λ w, {| store := store w; broadcasts := broadcasts w; calls := calls w; lost := b |}).
Definition add_broadcast (p : populated) : eff relay_world unit :=
  eff_modify (λ w, {| store := store w; broadcasts := broadcasts w ++ [p]; calls := calls w;
                      lost := lost w |}).

(** What is known of a broadcast before it is made. *)
Record broadcast_info := {
  bi_transactionHash : string; bi_nonce : Z; bi_gasLimit : Z; bi_gasPriceWei : Z; bi_attempt : Z
}.

Record send_options := {
  so_address : string;
  so_request : tx_request;
  so_maxGasPrice : Z;
  so_timeoutMs : Z;
  so_maximumAttempts : Z;
  so_nonce : option Z;
  so_assertLease : option (eff relay_world unit);
  so_beforeBroadcast : option (broadcast_info → eff relay_world unit);
  so_onBroadcast : option (broadcast_info → eff relay_world unit)
}.

Definition optional {A} (f : option A) (k : A → eff relay_world unit) : eff relay_world unit :=
  match f with Some f => k f | None => mret tt end.

Section relayer.
Context `{Ethers, Network}.

Definition now : eff relay_world Z := λ w, (Ok (time_at (calls w)), w).

(** [waitForReceipt], and what the caller makes of its errors: the receipt, or
    [None] after the timeout. *)
Definition waitForReceipt (hash : string) (timeoutMs : Z) : eff relay_world (option receipt) :=
  outcome ← ask (λ n, Ok (wait_for n hash timeoutMs));
  match outcome with
  | Mined r => mret (Some r)
  | TransactionReplaced r => mret (Some r)
  | TimedOut => mret None
  | WaitFailed message => eff_throw message
  end.

(** One attempt: populate, sign, record, broadcast, wait.  The wallet fills in only
    what [p] leaves out, or fails. *)
Definition attempt_broadcast (o : send_options) (p : populated) (attempt : Z)
    : eff relay_world (option receipt) :=
  _ ← ask (λ n, populateTransaction n p);
  let signedTransaction := sign_transaction p in
  let hash := keccak256 signedTransaction in
  let info := {| bi_transactionHash := hash; bi_nonce := po_nonce p;
                 bi_gasLimit := po_gasLimit p; bi_gasPriceWei := po_gasPrice p;
                 bi_attempt := attempt |} in
  _ ← optional (so_assertLease o) id;
  _ ← optional (so_beforeBroadcast o) (λ f, f info);
  _ ← optional (so_onBroadcast o) (λ f, f info);
  _ ← optional (so_assertLease o) id;
  _ ← add_broadcast p;
  returned ← ask (λ n, broadcastTransaction n signedTransaction);
  _ ← eff_require (bool_decide (lower returned = lower hash))
        "RPC returned a transaction hash that differs from the signed transaction";
  waitForReceipt hash (so_timeoutMs o).

Definition bump (gasPrice : Z) : Z := (gasPrice * 9) `quot` 8 + 1.

(** The loop over the attempts; [remaining] is how many may still be made. *)
Fixpoint attempts_loop (o : send_options) (nonce gasLimit gasPrice attempt : Z) (lastHash : string)
    (remaining : nat) : eff relay_world receipt :=
  let failed h := eff_throw ("transaction not confirmed before replacement limit: " +:+ h) in
  match remaining with
  | O => failed lastHash
  | S remaining =>
      let p := {| po_request := so_request o; po_nonce := nonce; po_gasLimit := gasLimit;
                  po_gasPrice := gasPrice |} in
      let hash := keccak256 (sign_transaction p) in
      outcome ← attempt_broadcast o p attempt;
      match outcome with
      | Some r => mret r
      | None =>
          let bumped := bump gasPrice in
          if (so_maxGasPrice o <? bumped) || (attempt =? so_maximumAttempts o) then failed hash
          else attempts_loop o nonce gasLimit bumped (attempt + 1) hash remaining
      end
  end.

Definition sendWithReplacement (o : send_options) : eff relay_world receipt :=
  estimated ← ask (λ n, estimateGas n (so_request o));
  let gasLimit := (estimated * 120) `quot` 100 in
  feeData ← ask getFeeData;
  gasPrice ← eff_lift (from_option_or "RPC did not return a gas price"
               (match feeData.1 with Some g => Some g | None => feeData.2 end));
  _ ← eff_require (negb (so_maxGasPrice o <? gasPrice))
        ("GasPriceAboveLane:" +:+ print_int gasPrice +:+ ":" +:+ print_int (so_maxGasPrice o));
  nonce ← match so_nonce o with
          | Some n => mret n
          | None => ask (λ n, getNonce n (so_address o))
          end;
  attempts_loop o nonce gasLimit gasPrice 1 "undefined" (Z.to_nat (so_maximumAttempts o)).

(** ** The nonce lock *)

(** [assertHeld]: a session that is lost has given its lock back. *)
Definition assertHeld (name : string) : eff relay_world unit := λ w,
  (if lost w then eff_throw "RelayerNonceLeaseLost"
   else
     alive ← ask (λ n, Ok (lease_alive n));
     if alive : bool then mret tt
     else _ ← on_store (unlock name); _ ← set_lost true; eff_throw "RelayerNonceLeaseLost") w.

(** [try { m } finally { f }], for an [f] that does not throw. *)
Definition finally {A} (m : eff relay_world A) (f : relay_world → relay_world) : eff relay_world A :=
  λ w, let '(r, w) := m w in (r, f w).

Definition withRelayerNonceLock {A} (i : operator_identity) (relayer : string)
    (operation : eff relay_world unit → eff relay_world A) : eff relay_world A :=
  let name := lock_name i relayer in
  _ ← set_lost false;
  locked ← on_store (try_lock name);
  if locked : bool then
    finally (operation (assertHeld name))
      (λ w, if lost w then w else (on_store (unlock name) w).2)
  else eff_throw "RelayerNonceLeaseBusy".

(** ** Reconciliation *)

(** The transactions by nonce, the nonces in the order they were met. *)
Fixpoint add_by_nonce (t : unresolved_transaction) (groups : list (Z * list unresolved_transaction))
    : list (Z * list unresolved_transaction) :=
  match groups with
  | [] => [(u_nonce t, [t])]
  | (n, ts) :: groups =>
      if n =? u_nonce t then (n, ts ++ [t]) :: groups else (n, ts) :: add_by_nonce t groups
  end.
Definition by_nonce (l : list unresolved_transaction) : list (Z * list unresolved_transaction) :=
  foldl (λ groups t, add_by_nonce t groups) [] l.

Definition same_receipt (a b : receipt) : bool :=
  bool_decide (lower (rc_blockHash a) = lower (rc_blockHash b)) && (rc_status a =? rc_status b).

(** What the providers say of one transaction: its receipt when all have it, none
    when none has. *)
Definition observe (rpcProviders : list string) (nonce : Z) (t : unresolved_transaction)
    : eff relay_world (option receipt) :=
  receipts ← ask (λ n, mapM (λ p, getTransactionReceipt n p (u_transactionHash t)) rpcProviders);
  let observed := omap id receipts in
  let disagreement := "RpcReceiptDisagreement:" +:+ print_int nonce in
  let all := bool_decide (length observed = length receipts) in
  _ ← eff_require (negb (bool_decide (observed ≠ []) && negb all)) disagreement;
  _ ← eff_require (negb (all && existsb (λ r, negb (from_option (same_receipt r) true (head observed)))
                          observed)) disagreement;
  if all then eff_lift (Some <$> from_option_or TYPE_ERROR (head observed)) else mret None.

Fixpoint find_mined (rpcProviders : list string) (nonce : Z) (ts : list unresolved_transaction)
    : eff relay_world (option (string * receipt)) :=
  match ts with
  | [] => mret None
  | t :: ts =>
      observed ← observe rpcProviders nonce t;
      match observed with
      | Some r => mret (Some (u_transactionHash t, r))
      | None => find_mined rpcProviders nonce ts
      end
  end.

Definition reconcileNonce (i : operator_identity) (rpcProviders : list string) (relayer : string)
    (group : Z * list unresolved_transaction) : eff relay_world unit :=
  let '(nonce, ts) := group in
  mined ← find_mined rpcProviders nonce ts;
  match mined with
  | Some (hash, r) =>
      on_store (resolveNonce i relayer nonce "replaced" (Some (hash, rc_blockNumber r)))
  | None =>
      pending ← ask (λ n, mapM (λ tp : unresolved_transaction * string,
                    getTransaction n tp.2 (u_transactionHash tp.1))
                  (t ← ts; p ← rpcProviders; [(t, p)]));
      _ ← eff_require (negb (existsb id pending)) ("RelayerTransactionPending:" +:+ print_int nonce);
      latestNonces ← ask (λ n, mapM (λ p, latestCount n p relayer) rpcProviders);
      let allConsumed := forallb (λ latest, nonce <? latest) latestNonces in
      let allReusable := forallb (λ latest, latest <=? nonce) latestNonces in
      _ ← eff_require (allConsumed || allReusable) ("RpcNonceDisagreement:" +:+ print_int nonce);
      on_store (resolveNonce i relayer nonce (if allConsumed then "consumed" else "dropped") None)
  end.

Definition reconcileRelayerTransactions (i : operator_identity) (rpcProviders : list string)
    (relayer : string) : eff relay_world unit :=
  w ← eff_get;
  unresolved ← eff_lift (listUnresolvedTransactions i relayer (store w));
  eff_forM (reconcileNonce i rpcProviders relayer) (by_nonce unresolved).

(** ** Sending with the journal *)

Record journal_options := {
  jo_instanceId : string; jo_relayer : string; jo_request : tx_request; jo_maxGasPrice : Z;
  jo_timeoutMs : Z; jo_maximumAttempts : Z; jo_requestId : option Z; jo_kind : string;
  jo_rpcProviders : list string;
  jo_beforeBroadcast : option (broadcast_info → eff relay_world unit)
}.

Definition record_info (i : operator_identity) (o : journal_options) (b : broadcast_info)
    : eff relay_world unit :=
  t ← now;
  on_store (recordBroadcast i (jo_relayer o) (jo_instanceId o)
    {| br_transactionHash := bi_transactionHash b; br_nonce := bi_nonce b;
       br_requestId := jo_requestId o; br_transactionKind := jo_kind o;
       br_gasPriceWei := bi_gasPriceWei b |} t).

Definition sendPostgresTransaction (i : operator_identity) (o : journal_options)
    : eff relay_world receipt :=
  r ← withRelayerNonceLock i (jo_relayer o) (λ held,
    _ ← reconcileRelayerTransactions i (jo_rpcProviders o) (jo_relayer o);
    nonce ← ask (λ n, pendingNonceConsensus
                        ((λ p, pendingCount n p (jo_relayer o)) <$> jo_rpcProviders o));
    sendWithReplacement
      {| so_address := jo_relayer o; so_request := jo_request o; so_maxGasPrice := jo_maxGasPrice o;
         so_timeoutMs := jo_timeoutMs o; so_maximumAttempts := jo_maximumAttempts o;
         so_nonce := Some nonce; so_assertLease := Some held;
         so_beforeBroadcast := jo_beforeBroadcast o; so_onBroadcast := Some (record_info i o) |});
  _ ← on_store (markMined (rc_hash r) (rc_blockNumber r));
  mret r.
End relayer.
