(* ===== verification/RelayerSafety.v ===== *)
(** * What the relayer guarantees ([cli.mjs])

    The transactions of one send are a ladder of prices under the limit of the
    lane, with one nonce; each is in the journal before it is broadcast; and the
    unresolved transactions of a relayer have one nonce. *)

From S2P Require Import Prelude Js Hex Vendor Policies OperatorStore StoreLeases Scanner ErrorText Relayer Samples.

Open Scope Z_scope.

Lemma keeps_optional {A} (R : relay_world → relay_world → Prop) `{!PreOrder R} (o : option A) k :
  (∀ f, o = Some f → keeps R (k f)) → keeps R (optional o k).
Proof. destruct o; cbn; [auto|]. intros _. by apply keeps_ret. Qed.

(** A call changes only the number of calls. *)
Definition tick (w : relay_world) : relay_world :=
  {| store := store w; broadcasts := broadcasts w; calls := S (calls w); lost := lost w |}.
Lemma keeps_ask {A} (R : relay_world → relay_world → Prop) (f : nat → result A) :
  (∀ w, R w (tick w)) → keeps R (ask f).
Proof. intros HR w. apply HR. Qed.
Lemma wp_ask_bind {A B} (f : nat → result A) (k : A → eff relay_world B) Q w :
  (∀ a, f (calls w) = Ok a → wp (k a) Q (tick w)) →
  (∀ e, f (calls w) = Throw e → Q (Throw e) (tick w)) → wp (ask f ≫= k) Q w.
Proof.
  intros Ha He. apply wp_bind. unfold wp, ask. destruct (f (calls w)) as [a|e] eqn:E; [by apply Ha|by apply He].
Qed.

Section relayer.
Context `{Ethers, Network}.

(** ** The ladder of prices *)

Definition same_broadcasts (w w' : relay_world) : Prop := broadcasts w' = broadcasts w.
#[export] Instance same_broadcasts_preorder : PreOrder same_broadcasts.
Proof. split; repeat intro; unfold same_broadcasts in *; congruence. Qed.

Lemma bump_grows g : 0 <= g → 9 * g < 8 * bump g.
Proof.
  intros Hg. unfold bump. rewrite Z.quot_div_nonneg by lia.
  pose proof (Z.mul_succ_div_gt (g * 9) 8). lia.
Qed.

(** The prices of the attempts. *)
Definition price (g : Z) (k : nat) : Z := Nat.iter k bump g.
Definition rung (r : tx_request) (nonce gasLimit g : Z) (k : nat) : populated :=
  {| po_request := r; po_nonce := nonce; po_gasLimit := gasLimit; po_gasPrice := price g k |}.

Lemma price_S g k : price g (S k) = price (bump g) k.
Proof. unfold price. by rewrite Nat.iter_succ_r. Qed.

Lemma price_nonneg g k : 0 <= g → 0 <= price g k.
Proof.
  intros Hg. induction k as [|k IH]; [done|]. change (price g (S k)) with (bump (price g k)).
  pose proof (bump_grows _ IH). lia.
Qed.

(** The callbacks of a send make no broadcast of their own. *)
Definition quiet_callbacks (o : send_options) : Prop :=
  (∀ f, so_assertLease o = Some f → keeps same_broadcasts f) ∧
  (∀ f b, so_beforeBroadcast o = Some f → keeps same_broadcasts (f b)) ∧
  (∀ f b, so_onBroadcast o = Some f → keeps same_broadcasts (f b)).

Lemma attempt_broadcast_ladder o p attempt w :
  quiet_callbacks o →
  wp (attempt_broadcast o p attempt) (λ r w',
    broadcasts w' = broadcasts w ++ [p] ∨ (broadcasts w' = broadcasts w ∧ ∃ e, r = Throw e)) w.
Proof.
  intros (Ha & Hb & Hc). unfold attempt_broadcast. set (info := Build_broadcast_info _ _ _ _ _).
  assert (∀ e w', same_broadcasts w w' →
    broadcasts w' = broadcasts w ++ [p] ∨ (broadcasts w' = broadcasts w ∧ ∃ e', @Throw (option receipt) e = Throw e'))
    as He by (unfold same_broadcasts; eauto).
  assert (∀ (A : Type) (f : nat → result A), keeps same_broadcasts (ask f)) as Hask
    by (intros; by apply keeps_ask).
  eapply (wp_keeps_bind same_broadcasts _ _ _ w); [apply Hask|done| |exact He]. intros _ w0 Hw0.
  eapply (wp_keeps_bind same_broadcasts _ _ _ w);
    [apply keeps_optional; [apply _|eauto]|done| |exact He]. intros _ w1 Hw1.
  eapply (wp_keeps_bind same_broadcasts _ _ _ w);
    [apply keeps_optional; [apply _|eauto]|done| |exact He]. intros _ w2 Hw2.
  eapply (wp_keeps_bind same_broadcasts _ _ _ w);
    [apply keeps_optional; [apply _|eauto]|done| |exact He]. intros _ w3 Hw3.
  eapply (wp_keeps_bind same_broadcasts _ _ _ w);
    [apply keeps_optional; [apply _|eauto]|done| |exact He]. intros _ w4 Hw4.
  unfold same_broadcasts in Hw4.
  left. unfold mbind, eff_bind, add_broadcast, eff_modify, ask. cbn.
  destruct (broadcastTransaction _ _) as [returned|e]; cbn; [|by rewrite Hw4].
  unfold eff_require, eff_lift. destruct (bool_decide _); cbn; [|by rewrite Hw4].
  unfold waitForReceipt, mbind, eff_bind, ask. cbn.
  destruct (wait_for _ _ _); cbn; by rewrite Hw4.
Qed.

Lemma attempts_ladder o nonce gasLimit g attempt h remaining w :
  quiet_callbacks o → g <= so_maxGasPrice o →
  wp (attempts_loop o nonce gasLimit g attempt h remaining) (λ _ w', ∃ m, (m ≤ remaining)%nat ∧
    broadcasts w' = broadcasts w ++ (rung (so_request o) nonce gasLimit g <$> seq 0 m) ∧
    ∀ k, (k < m)%nat → price g k <= so_maxGasPrice o) w.
Proof.
  intros Hq. revert g attempt h w. induction remaining as [|remaining IH]; intros g attempt h w Hg;
    cbn [attempts_loop].
  { exists 0%nat. cbn. rewrite app_nil_r. split_and!; [done..|lia]. }
  set (p := Build_populated _ _ _ _). apply wp_bind.
  assert (p = rung (so_request o) nonce gasLimit g 0) as Hp by done.
  eapply wp_mono; [by apply attempt_broadcast_ladder|]. intros [[r|]|e] w1 Hw1; cbn beta iota.
  - apply wp_ret. exists 1%nat. destruct Hw1 as [->|[_ [? [=]]]]. split; [lia|]. split; [by rewrite Hp|].
    intros k Hk. by replace k with 0%nat by lia.
  - destruct Hw1 as [Hw1|[_ [? [=]]]].
    assert (wp (if (so_maxGasPrice o <? bump g) || (attempt =? so_maximumAttempts o)
       then eff_throw ("transaction not confirmed before replacement limit: " +:+
              keccak256 (sign_transaction p))
       else attempts_loop o nonce gasLimit (bump g) (attempt + 1) (keccak256 (sign_transaction p)) remaining)
      (λ _ w', ∃ m, (m ≤ remaining)%nat ∧
        broadcasts w' = broadcasts w1 ++ (rung (so_request o) nonce gasLimit (bump g) <$> seq 0 m) ∧
        ∀ k, (k < m)%nat → price (bump g) k <= so_maxGasPrice o) w1) as Hrest.
    { destruct (_ || _) eqn:E.
      - exists 0%nat. cbn. rewrite app_nil_r. split_and!; [lia|done|lia].
      - apply IH. apply orb_false_iff in E as [E _]. by apply Z.ltb_ge in E. }
    eapply wp_mono; [exact Hrest|]. intros _ w2 (m & Hm & Hw2 & Hprices). exists (S m).
    split; [lia|]. split.
    + rewrite Hw2, Hw1, <-app_assoc. f_equal. cbn [seq fmap list_fmap app]. rewrite Hp. f_equal.
      rewrite <-fmap_S_seq, <-list_fmap_compose. apply list_fmap_ext. intros j k _. cbn.
      unfold rung. by rewrite price_S.
    + intros [|k] Hk; [done|]. rewrite price_S. apply Hprices. lia.
  - destruct Hw1 as [->|[-> _]].
    + exists 1%nat. split; [lia|]. split; [by rewrite Hp|]. intros k Hk. by replace k with 0%nat by lia.
    + exists 0%nat. cbn. rewrite app_nil_r. split_and!; [lia|done|lia].
Qed.

(** C16: whatever a send ends with, it has broadcast a ladder: at most the maximum
    number of attempts, all of the same request, nonce and gas limit, each price
    within the limit of the lane, the first that of the fee data, and each next
    one more than an eighth above the last. *)
Theorem replacement_ladder o w :
  quiet_callbacks o →
  wp (sendWithReplacement o) (λ _ w', ∃ nonce gasLimit g m,
    broadcasts w' = broadcasts w ++ (rung (so_request o) nonce gasLimit g <$> seq 0 m) ∧
    (m ≤ Z.to_nat (so_maximumAttempts o))%nat ∧
    (∀ n, so_nonce o = Some n → m = 0%nat ∨ nonce = n) ∧
    ∀ k, (k < m)%nat → price g k <= so_maxGasPrice o ∧
                       (0 <= g → 9 * price g k < 8 * price g (S k))) w.
Proof.
  intros Hq. unfold sendWithReplacement.
  assert (∀ (w1 : relay_world) (e : string), broadcasts w1 = broadcasts w →
    ∃ nonce gasLimit g m,
      broadcasts w1 = broadcasts w ++ (rung (so_request o) nonce gasLimit g <$> seq 0 m) ∧
      (m ≤ Z.to_nat (so_maximumAttempts o))%nat ∧
      (∀ n, so_nonce o = Some n → m = 0%nat ∨ nonce = n) ∧
      ∀ k, (k < m)%nat → price g k <= so_maxGasPrice o ∧
                         (0 <= g → 9 * price g k < 8 * price g (S k))) as Hnone.
  { intros w1 _ E. exists 0, 0, 0, 0%nat. cbn. rewrite app_nil_r.
    split_and!; [done|lia|auto|lia]. }
  assert (∀ (A : Type) (f : nat → result A), keeps same_broadcasts (ask f)) as Hask
    by (intros; by apply keeps_ask).
  eapply (wp_keeps_bind same_broadcasts _ _ _ w); [apply Hask|done| |intros e w' ?; by apply (Hnone w' e)].
  intros estimated w1 Hw1.
  eapply (wp_keeps_bind same_broadcasts _ _ _ w); [apply Hask|done| |intros e w' ?; by apply (Hnone w' e)].
  intros fee w2 Hw2.
  apply wp_lift_bind; [|intros e _; by apply (Hnone _ e)]. intros g _.
  apply wp_require_bind; [|intros _; by apply (Hnone _ "")]. intros Hg%negb_true_iff%Z.ltb_ge.
  apply wp_bind.
  assert (wp (match so_nonce o with Some n => mret n | None => ask (λ n, getNonce n (so_address o)) end)
    (λ r w3, broadcasts w3 = broadcasts w ∧ ∀ n, r = Ok n → ∀ n', so_nonce o = Some n' → n = n') w2) as Hn.
  { destruct (so_nonce o); [apply wp_ret|]; (split; [done|]); [|by intros ? _ ? [=]].
    intros ? [= ->] ? [= ->]. done. }
  eapply wp_mono; [exact Hn|]. intros [nonce|e] w3 [E Hnonce]; [|by apply (Hnone _ e)].
  eapply wp_mono; [by apply attempts_ladder|]. intros r w4 (m & Hm & Hw4 & Hprices).
  exists nonce, ((estimated * 120) `quot` 100), g, m. split_and!; [by rewrite <-E|done| |].
  - intros n Hn'. right. by apply Hnonce.
  - intros k Hk. split; [by apply Hprices|]. intros Hg0.
    change (price g (S k)) with (bump (price g k)). by apply bump_grows, price_nonneg.
Qed.
End relayer.

(** ** A network that mines nothing *)
Definition byte_of (n : Z) : ascii := Ascii.ascii_of_N (Z.to_N (n mod 256)).
Definition stuck_network : Network := {|
  time_at n := 1000 + Z.of_nat n;
  estimateGas _ _ := Ok 100000;
  getFeeData _ := Ok (Some 100, None);
  getNonce _ _ := Ok 7;
  populateTransaction _ _ := Ok tt;
  sign_transaction p := [byte_of (po_nonce p); byte_of (po_gasPrice p)];
  broadcastTransaction n b := Ok (@keccak256 sample_ethers b);
  wait_for _ _ _ := TimedOut;
  lease_alive _ := true;
  getTransactionReceipt _ _ _ := Ok None;
  getTransaction _ _ _ := Ok false;
  latestCount _ _ _ := Ok 7;
  pendingCount _ _ _ := Ok (VStr "0x7")
|}.
Definition sample_request : tx_request := {| tx_to := "0xc0"; tx_data := [] |}.
Definition sample_send : send_options := {|
  so_address := "0xae"; so_request := sample_request; so_maxGasPrice := 130; so_timeoutMs := 60000;
  so_maximumAttempts := 5; so_nonce := Some 7; so_assertLease := None;
  so_beforeBroadcast := None; so_onBroadcast := None |}.
Definition idle_world : relay_world :=
  {| store := empty_database; broadcasts := []; calls := 0; lost := false |}.

Lemma replacement_ladder_witness :
  let m := @sendWithReplacement sample_ethers stuck_network sample_send in
  po_gasPrice <$> broadcasts (m idle_world).2 = [100; 113; 128] ∧
  (∃ e, (m idle_world).1 = Throw e) ∧
  wp m (λ _ w', ∃ nonce gasLimit g k,
    broadcasts w' = broadcasts idle_world ++ (rung sample_request nonce gasLimit g <$> seq 0 k) ∧
    (k ≤ 5)%nat ∧ (∀ n, Some 7 = Some n → k = 0%nat ∨ nonce = n) ∧
    ∀ j, (j < k)%nat → price g j <= 130 ∧ (0 <= g → 9 * price g j < 8 * price g (S j))) idle_world.
Proof.
  split_and!; [vm_compute; reflexivity|eexists; vm_compute; reflexivity|].
  apply (@replacement_ladder sample_ethers stuck_network sample_send idle_world).
  split_and!; by intros.
Defined.
