(* ===== verification/Journal.v ===== *)
(** * The journal of broadcasts ([cli.mjs], [postgres-store.mjs])

    A send records each transaction before it broadcasts it, under the nonce lock
    of the relayer.  Whatever it ends with, every broadcast is in the journal, the
    unresolved transactions of the relayer have one nonce, and the lock is free
    again; so a restarted relayer finds in the journal all that may yet be mined. *)

From S2P Require Import Prelude Js Hex Vendor Policies OperatorStore StoreLeases Scanner ErrorText Relayer Samples RelayerSafety.

Open Scope Z_scope.

Lemma Forall2_elem {A B} (P : A → B → Prop) l k x :
  Forall2 P l k → x ∈ l → ∃ y, y ∈ k ∧ P x y.
Proof.
  intros HP [n Hn]%list_elem_of_lookup_1. destruct (Forall2_lookup_l _ _ _ _ _ HP Hn) as (y & Hy & Hxy).
  exists y. split; [by eapply list_elem_of_lookup_2|done].
Qed.

(** ** Rows that are resolved one by one *)
Section journal.
Context (i : operator_identity) (relayer : string).

Definition unresolved (d : database) (h : string) (n : Z) : Prop :=
  ∃ row, transactions d !! h = Some row ∧ is_unresolved i relayer row = true ∧ tx_nonce row = n.

(** All the unresolved transactions of the relayer have one nonce. *)
Definition one_nonce (d : database) : Prop :=
  ∀ h h' n n', unresolved d h n → unresolved d h' n' → n = n'.

(** Nothing of the database changes but the journal and the locks. *)
Definition same_tables (d d' : database) : Prop :=
  instances d' = instances d ∧ requests d' = requests d ∧ scan_state d' = scan_state d.

(** Each row stays as it is or is resolved. *)
Definition row_settles (a b : option transaction_row) : Prop :=
  b = a ∨ (is_Some a ∧ ∃ row, b = Some row ∧ is_unresolved i relayer row = false).
Definition settles (d d' : database) : Prop :=
  same_tables d d' ∧ advisory_locks d' = advisory_locks d ∧
  ∀ h, row_settles (transactions d !! h) (transactions d' !! h).
#[export] Instance settles_preorder : PreOrder settles.
Proof.
  split.
  - intros d. split; [done|]. split; [done|]. intros h. by left.
  - intros d1 d2 d3 ((?&?&?)&?&H12) ((?&?&?)&?&H23). split; [split_and!; congruence|].
    split; [congruence|]. intros h. specialize (H12 h). specialize (H23 h).
    destruct H23 as [->|[[row Ha] Hb]]; [done|]. right. split; [|done].
    destruct H12 as [E|[HS _]]; [|done]. rewrite <-E, Ha. by eexists.
Qed.

Lemma settles_unresolved d d' h n : settles d d' → unresolved d' h n → unresolved d h n.
Proof.
  intros (_&_&Hr) (row & Hrow & Hu & Hn). exists row. split; [|done].
  destruct (Hr h) as [E|(_ & row' & E & Hres)]; congruence.
Qed.
Lemma settles_dom d d' h :
  settles d d' → is_Some (transactions d !! h) → is_Some (transactions d' !! h).
Proof.
  intros (_&_&Hr) HS. destruct (Hr h) as [->|(_ & row' & -> & _)]; [done|by eexists].
Qed.

Lemma with_status_resolved st b row :
  st ≠ "broadcast" → is_unresolved i relayer (with_status st b row) = false.
Proof.
  intros Hst. unfold is_unresolved, with_status. cbn.
  by rewrite (bool_decide_false (st = "broadcast")), andb_false_r.
Qed.

Lemma settles_alter h b d :
  settles d (set_transactions (alter (with_status "mined" (Some b)) h) d).
Proof.
  split; [done|]. split; [done|]. intros h'. cbn. destruct (decide (h' = h)) as [->|].
  - rewrite lookup_alter_eq. destruct (transactions d !! h) as [row|]; cbn; [|by left].
    right. split; [by eexists|]. eexists. split; [done|]. by apply with_status_resolved.
  - rewrite lookup_alter_ne by done. by left.
Qed.

Lemma settles_resolve nonce st d :
  st ≠ "broadcast" → settles d (set_transactions (resolve_rows i relayer nonce st) d).
Proof.
  intros Hst. split; [done|]. split; [done|]. intros h. cbn. unfold resolve_rows. rewrite lookup_fmap.
  destruct (transactions d !! h) as [row|]; cbn; [|by left].
  destruct (_ && _); [|by left]. right. split; [by eexists|].
  eexists. split; [done|]. by apply with_status_resolved.
Qed.

(** The row of a transaction after its nonce was resolved. *)
Definition verdict (h status : string) (mined : option (string * Z)) (row : transaction_row) : Prop :=
  match mined with
  | Some (h', block) =>
      if decide (h' = h) then tx_status row = "mined" ∧ block_number row = Some block
      else tx_status row = status
  | None => tx_status row = status
  end.

Lemma resolveNonce_rows nonce st mined d d' h row :
  resolveNonce i relayer nonce st mined d = (Ok tt, d') → transactions d !! h = Some row →
  (is_unresolved i relayer row = true → tx_nonce row = nonce →
     ∃ row', transactions d' !! h = Some row' ∧ tx_nonce row' = nonce ∧ verdict h st mined row') ∧
  (tx_nonce row ≠ nonce → (∀ b, mined ≠ Some (h, b)) → transactions d' !! h = Some row).
Proof.
  unfold resolveNonce, eff_require. unfold mbind at 1, eff_bind at 1, eff_lift at 1. cbn [require].
  destruct (bool_decide _); [|done]. cbn [require].
  unfold transaction, mbind, eff_bind, eff_modify. cbv beta iota. intros Hd Hrow.
  set (d1 := set_transactions (resolve_rows i relayer nonce st) d) in Hd.
  assert (transactions d1 !! h = Some (if is_unresolved i relayer row && (tx_nonce row =? nonce)
    then with_status st (block_number row) row else row)) as H1.
  { cbn. unfold resolve_rows. by rewrite lookup_fmap, Hrow. }
  assert (transactions d' !! h = match mined with
    | Some (h', b) => (if decide (h' = h) then with_status "mined" (Some b) else id) <$> transactions d1 !! h
    | None => transactions d1 !! h end) as ->.
  { destruct mined as [[h' b]|]; injection Hd as <-; [|done]. cbn.
    destruct (decide (h' = h)) as [->|]; [by rewrite lookup_alter_eq|].
    rewrite lookup_alter_ne by done. by destruct (resolve_rows _ _ _ _ _ !! h). }
  rewrite H1. split.
  - intros Hu Hn. rewrite Hu, Hn, Z.eqb_refl. cbn [andb]. unfold verdict.
    destruct mined as [[h' b]|]; [|by eexists]. destruct (decide (h' = h)); cbn; by eexists.
  - intros Hn Hm. replace (tx_nonce row =? nonce) with false by lia. rewrite andb_false_r.
    destruct mined as [[h' b]|]; [|done]. rewrite decide_False; [done|]. intros ->. by apply (Hm b).
Qed.

(** [resolveNonce] resolves the transactions of the nonce, and throws on nothing
    else than a bad status. *)
Lemma resolveNonce_settles nonce st mined d :
  st ∈ ["dropped"; "consumed"; "replaced"] →
  wp (resolveNonce i relayer nonce st mined) (λ r d',
    r = Ok tt ∧ settles d d' ∧ ∀ h, ¬ unresolved d' h nonce) d.
Proof.
  intros Hst. assert (st ≠ "broadcast") as Hb by (intros ->; set_solver).
  set (d1 := set_transactions (resolve_rows i relayer nonce st) d).
  assert (settles d d1) as H1 by by apply settles_resolve.
  assert (∀ h, ¬ unresolved d1 h nonce) as Hnone.
  { intros h (row & Hrow & Hu & Hn). cbn in Hrow. unfold resolve_rows in Hrow.
    rewrite lookup_fmap in Hrow. destruct (transactions d !! h) as [row0|]; [|done]. cbn in Hrow.
    injection Hrow as <-. destruct (is_unresolved i relayer row0) eqn:E; cbn in *; [|congruence].
    destruct (tx_nonce row0 =? nonce) eqn:E2; [|lia]. by rewrite with_status_resolved in Hu. }
  unfold resolveNonce. apply wp_require_bind; rewrite bool_decide_eq_true || rewrite bool_decide_eq_false; [|done].
  intros _. unfold wp, transaction, mbind, eff_bind, eff_modify. cbv beta iota. fold d1.
  destruct mined as [[h b]|]; cbn [mret eff_ret].
  - split; [done|]. split; [etrans; [exact H1|apply settles_alter]|].
    intros h' Hu. apply (Hnone h'). eapply settles_unresolved; [apply settles_alter|exact Hu].
  - done.
Qed.

(** Every unresolved transaction is listed. *)
Lemma listUnresolved_all d l h n :
  listUnresolvedTransactions i relayer d = Ok l → unresolved d h n →
  ∃ t, t ∈ l ∧ u_transactionHash t = h ∧ u_nonce t = n.
Proof.
  unfold listUnresolvedTransactions. intros Hl (row & Hrow & Hu & Hn).
  set (rows := merge_sort _ _) in Hl.
  assert ((h, row) ∈ rows) as Hin.
  { unfold rows. rewrite merge_sort_Permutation, list_elem_of_filter. split; [done|].
    by apply elem_of_map_to_list. }
  apply mapM_Ok in Hl. destruct (Forall2_elem _ _ _ _ Hl Hin) as (t & Ht & E).
  exists t. split; [done|]. unfold unresolved_of in E. apply bind_Ok in E as (z & Hz & [= <-]).
  unfold safeBlockNumber in Hz. cbn in *. destruct (_ || _); [done|]. injection Hz as <-. by split.
Qed.

(** No other transaction is listed. *)
Lemma listUnresolved_only d l t :
  listUnresolvedTransactions i relayer d = Ok l → t ∈ l →
  unresolved d (u_transactionHash t) (u_nonce t).
Proof.
  unfold listUnresolvedTransactions. intros Hl%mapM_Ok Ht. apply Forall2_flip in Hl.
  destruct (Forall2_elem _ _ _ _ Hl Ht) as ([h row] & Hin & E).
  rewrite merge_sort_Permutation, list_elem_of_filter in Hin. destruct Hin as [Hu Hin%elem_of_map_to_list].
  unfold unresolved_of in E. apply bind_Ok in E as (z & Hz & [= <-]). cbn in *.
  exists row. unfold safeBlockNumber in Hz. destruct (_ || _); [done|]. by injection Hz as <-.
Qed.

(** The groups have the transactions of their nonce. *)
Definition grouped (l : list unresolved_transaction) (groups : list (Z * list unresolved_transaction)) : Prop :=
  NoDup groups.*1 ∧
  (∀ n ts t, (n, ts) ∈ groups → t ∈ ts → t ∈ l ∧ u_nonce t = n) ∧
  ∀ t, t ∈ l → ∃ ts, (u_nonce t, ts) ∈ groups ∧ t ∈ ts.

Lemma add_by_nonce_nonces t groups n :
  n ∈ (add_by_nonce t groups).*1 ↔ n = u_nonce t ∨ n ∈ groups.*1.
Proof.
  induction groups as [|[n' ts] groups IH]; cbn [add_by_nonce].
  { rewrite fmap_cons, elem_of_cons. done. }
  destruct (n' =? u_nonce t) eqn:E; rewrite !fmap_cons, !elem_of_cons; cbn.
  - apply Z.eqb_eq in E as ->. naive_solver.
  - rewrite IH. naive_solver.
Qed.

Lemma add_by_nonce_grouped t l groups :
  grouped l groups → grouped (l ++ [t]) (add_by_nonce t groups).
Proof.
  intros (Hnd & Hin & Hall). split; [|split].
  - clear -Hnd. induction groups as [|[n' ts] groups IH]; cbn [add_by_nonce];
      [apply NoDup_singleton|]. rewrite fmap_cons in Hnd. apply NoDup_cons in Hnd as [Hn Hnd].
    destruct (n' =? u_nonce t) eqn:E; rewrite fmap_cons; apply NoDup_cons; split; auto.
    cbn. rewrite add_by_nonce_nonces. intros [->|?]; [lia|done].
  - clear Hall Hnd. induction groups as [|[n' ts'] groups IH]; cbn [add_by_nonce]; intros n ts x.
    + rewrite list_elem_of_singleton. intros [= -> ->] ->%list_elem_of_singleton. set_solver.
    + destruct (n' =? u_nonce t) eqn:E; intros [[= -> ->]|Hg]%elem_of_cons Hx.
      * apply elem_of_app in Hx as [Hx| ->%list_elem_of_singleton]; [|set_solver by lia].
        destruct (Hin n' ts' x); set_solver.
      * destruct (Hin n ts x); set_solver.
      * destruct (Hin n' ts' x); set_solver.
      * eapply IH; [|exact Hg|exact Hx]. intros n2 ts2 x2 ??. apply (Hin n2 ts2); set_solver.
  - intros x Hx. apply elem_of_app in Hx. clear Hin Hnd.
    assert (x = t ∨ ∃ ts, (u_nonce x, ts) ∈ groups ∧ x ∈ ts) as Hx'.
    { destruct Hx as [Hx| ->%list_elem_of_singleton]; [right; by apply Hall|by left]. }
    clear Hx Hall. induction groups as [|[n' ts'] groups IH]; cbn [add_by_nonce].
    + destruct Hx' as [->|(? & ?%not_elem_of_nil & _)]; [|done]. exists [t]. set_solver.
    + destruct (n' =? u_nonce t) eqn:E; destruct Hx' as [->|(ts & [[= -> ->]|Hg]%elem_of_cons & Hx)].
      * exists (ts' ++ [t]). replace (u_nonce t) with n' by lia. set_solver.
      * exists (ts' ++ [t]). set_solver.
      * exists ts. set_solver.
      * destruct IH as (ts & ? & ?); [by left|]. exists ts. set_solver.
      * exists ts'. set_solver.
      * destruct IH as (ts2 & ? & ?); [right; by exists ts|]. exists ts2. set_solver.
Qed.

Lemma by_nonce_grouped l : grouped l (by_nonce l).
Proof.
  unfold by_nonce.
  assert (∀ l l0 groups, grouped l0 groups →
    grouped (l0 ++ l) (foldl (λ groups t, add_by_nonce t groups) groups l)) as Hgo.
  { clear l. induction l as [|t l IH]; intros l0 groups Hg; cbn; [by rewrite app_nil_r|].
    replace (l0 ++ t :: l) with ((l0 ++ [t]) ++ l) by (by rewrite <-app_assoc).
    by apply IH, add_by_nonce_grouped. }
  apply (Hgo l []). split; [apply NoDup_nil_2|]. split; set_solver.
Qed.
End journal.

(** ** Reconciliation *)
Section reconcile.
Context `{Network} (i : operator_identity) (relayer : string) (rpcProviders : list string).

(** All the providers gave this receipt of the transaction. *)
Definition agreed (hash : string) (r : receipt) : Prop :=
  ∃ n, ∀ p, p ∈ rpcProviders → ∃ r', getTransactionReceipt n p hash = Ok (Some r') ∧
                                      same_receipt r' r = true.
(** No provider knew the transaction. *)
Definition unknown (hash : string) : Prop :=
  ∃ n, ∀ p, p ∈ rpcProviders → getTransaction n p hash = Ok false.
Definition counted (P : Z → Prop) : Prop :=
  ∃ n, ∀ p, p ∈ rpcProviders → ∃ latest, latestCount n p relayer = Ok latest ∧ P latest.

(** What a nonce may be resolved to. *)
Definition justified (nonce : Z) (ts : list unresolved_transaction) (status : string)
    (mined : option (string * Z)) : Prop :=
  match mined with
  | Some (hash, block) => status = "replaced" ∧
      ∃ t r, t ∈ ts ∧ u_transactionHash t = hash ∧ agreed hash r ∧ rc_blockNumber r = block
  | None => (∀ t, t ∈ ts → unknown (u_transactionHash t)) ∧
      ((status = "consumed" ∧ counted (λ latest, nonce < latest)) ∨
       (status = "dropped" ∧ counted (λ latest, latest <= nonce)))
  end.

Definition same_world (w w' : relay_world) : Prop :=
  store w' = store w ∧ broadcasts w' = broadcasts w ∧ lost w' = lost w.
#[export] Instance same_world_preorder : PreOrder same_world.
Proof. split; repeat intro; unfold same_world in *; intuition congruence. Qed.

Lemma observe_agreed nonce t w :
  wp (observe rpcProviders nonce t) (λ r w', same_world w w' ∧
    ∀ x, r = Ok (Some x) → agreed (u_transactionHash t) x) w.
Proof.
  unfold observe. apply wp_ask_bind; [|done]. intros receipts Hreceipts.
  apply mapM_Ok in Hreceipts. apply wp_require_bind; [|done]. intros _.
  apply wp_require_bind; [|done]. intros Hsame%negb_true_iff.
  destruct (bool_decide _) eqn:Hall; [|by split]. apply bool_decide_eq_true in Hall.
  split; [done|]. intros x Hx. destruct (omap id receipts) as [|x' observed] eqn:Eobs; [done|].
  cbn in Hx. injection Hx as ->. cbn [head from_option] in Hsame.
  rewrite andb_true_l in Hsame. exists (calls w). intros p Hp.
  destruct (Forall2_elem _ _ _ _ Hreceipts Hp) as (y & Hy & E).
  assert (∀ l : list (option receipt), (length (omap id l) ≤ length l)%nat) as Hle.
  { intros l. induction l as [|[]]; cbn; lia. }
  assert (∀ l : list (option receipt), length (omap id l) = length l →
    ∀ y, y ∈ l → ∃ r, y = Some r ∧ r ∈ omap id l) as Hsome.
  { intros l. induction l as [|[r|] l IH]; cbn; intros El y' Hy'.
    - by apply not_elem_of_nil in Hy'.
    - apply elem_of_cons in Hy' as [->|Hy']; [exists r; split; [done|by left]|].
      destruct (IH ltac:(lia) y' Hy') as (r' & -> & Hr'). exists r'. split; [done|by right].
    - specialize (Hle l). cbn in *. lia. }
  rewrite <-Eobs in Hall, Hsame. destruct (Hsome _ Hall _ Hy) as (r & -> & Hr). exists r. split; [done|].
  destruct (same_receipt r x) eqn:Exr; [done|].
  assert (existsb (λ r, negb (same_receipt r x)) (omap id receipts) = true); [|congruence].
  apply existsb_exists. exists r. split; [by apply list_elem_of_In|by rewrite Exr].
Qed.

Lemma find_mined_agreed nonce ts w :
  wp (find_mined rpcProviders nonce ts) (λ r w', same_world w w' ∧
    ∀ h x, r = Ok (Some (h, x)) → ∃ t, t ∈ ts ∧ u_transactionHash t = h ∧ agreed h x) w.
Proof.
  revert w. induction ts as [|t ts IH]; intros w; cbn [find_mined]; [by apply wp_ret|].
  apply wp_bind. eapply wp_mono; [apply observe_agreed|]. intros [[r|]|e] w1 [Hw Hr]; [| |done].
  - apply wp_ret. split; [done|]. intros ? ? [= <- <-]. exists t. split; [by left|]. split; [done|].
    by apply Hr.
  - eapply wp_mono; [apply IH|]. intros r w2 [Hw2 Hr2]. split; [by etrans|]. intros h x ->.
    destruct (Hr2 h x eq_refl) as (t' & Hin & Ht'). exists t'. split; [by right|done].
Qed.

Lemma unknown_of n ts pending :
  mapM (λ tp : unresolved_transaction * string, getTransaction n tp.2 (u_transactionHash tp.1))
    (t ← ts; p ← rpcProviders; [(t, p)]) = Ok pending →
  existsb id pending = false → ∀ t, t ∈ ts → unknown (u_transactionHash t).
Proof.
  intros Hm%mapM_Ok Hex t Ht. exists n. intros p Hp.
  assert ((t, p) ∈ (t ← ts; p ← rpcProviders; [(t, p)])) as Hin.
  { apply list_elem_of_bind. exists t. split; [|done]. apply list_elem_of_bind. exists p.
    split; [by left|done]. }
  destruct (Forall2_elem _ _ _ _ Hm Hin) as ([] & Hb & E); [|done].
  assert (existsb id pending = true); [|congruence].
  apply existsb_exists. exists true. split; [by apply list_elem_of_In|done].
Qed.

Lemma counted_of n latest (P : Z → Prop) (b : Z → bool) :
  mapM (λ p, latestCount n p relayer) rpcProviders = Ok latest →
  forallb b latest = true → (∀ z, b z = true → P z) → counted P.
Proof.
  intros Hm%mapM_Ok Hall HP. exists n. intros p Hp.
  destruct (Forall2_elem _ _ _ _ Hm Hp) as (z & Hz & E). exists z. split; [done|].
  rewrite forallb_forall in Hall. by apply HP, Hall, list_elem_of_In.
Qed.

(** One nonce: resolved for a reason, or the database is as it was. *)
Lemma reconcileNonce_spec nonce ts w :
  wp (reconcileNonce i rpcProviders relayer (nonce, ts)) (λ r w',
    broadcasts w' = broadcasts w ∧ lost w' = lost w ∧
    match r with
    | Ok _ => (∀ h, ¬ unresolved i relayer (store w') h nonce) ∧
        ∃ status mined, justified nonce ts status mined ∧
          resolveNonce i relayer nonce status mined (store w) = (Ok tt, store w')
    | Throw _ => store w' = store w
    end) w.
Proof.
  assert (∀ w1 status mined, same_world w w1 → justified nonce ts status mined →
    wp (on_store (resolveNonce i relayer nonce status mined)) (λ r w',
      broadcasts w' = broadcasts w ∧ lost w' = lost w ∧
      match r with
      | Ok _ => (∀ h, ¬ unresolved i relayer (store w') h nonce) ∧
          ∃ status mined, justified nonce ts status mined ∧
            resolveNonce i relayer nonce status mined (store w) = (Ok tt, store w')
      | Throw _ => store w' = store w
      end) w1) as Hdone.
  { intros w1 status mined (E1 & E2 & E3) Hj. unfold wp, on_store. rewrite E1.
    assert (status ∈ ["dropped"; "consumed"; "replaced"]) as Hst.
    { destruct mined as [[]|]; [destruct Hj as [-> _]|destruct Hj as [_ [[-> _]|[-> _]]]]; set_solver. }
    pose proof (resolveNonce_settles i relayer nonce status mined (store w) Hst) as Hr.
    unfold wp in Hr. destruct (resolveNonce _ _ _ _ _ _) as [r d] eqn:E. cbn in Hr. destruct Hr as (-> & _ & Hr).
    split; [done|]. split; [done|]. split; [exact Hr|]. by exists status, mined. }
  unfold reconcileNonce. apply wp_bind. eapply wp_mono; [apply find_mined_agreed|].
  intros [[[h x]|]|e] w1 [Hw Hx].
  - apply Hdone; [done|]. split; [done|]. destruct (Hx h x eq_refl) as (t & Ht & Hh & Hagreed).
    by exists t, x.
  - apply wp_ask_bind; [|by destruct Hw as (?&?&?)]. intros pending Hpending.
    apply wp_require_bind; [|by destruct Hw as (?&?&?)]. intros Hnone%negb_true_iff.
    apply wp_ask_bind; [|by destruct Hw as (?&?&?)]. intros latest Hlatest.
    apply wp_require_bind; [|by destruct Hw as (?&?&?)]. intros Hcount%orb_true_iff.
    apply Hdone; [done|]. split; [by eapply unknown_of|].
    destruct (forallb (λ latest, nonce <? latest) latest) eqn:Eall.
    + left. split; [done|]. eapply counted_of; [done|exact Eall|]. intros z. cbn. lia.
    + right. destruct Hcount as [|Hcount]; [done|]. split; [done|].
      eapply counted_of; [done|exact Hcount|]. intros z. cbn. lia.
  - by destruct Hw as (?&?&?).
Qed.

(** What became of a transaction that was unresolved. *)
Definition settled_as (d : database) (h : string) (nonce : Z) (ts : list unresolved_transaction) : Prop :=
  ∃ row status mined, transactions d !! h = Some row ∧ tx_nonce row = nonce ∧
    justified nonce ts status mined ∧ verdict h status mined row.

(** The nonces one after the other. *)
Lemma reconcile_groups groups w :
  NoDup (groups.*1) →
  (∀ nonce ts t, (nonce, ts) ∈ groups → t ∈ ts →
     unresolved i relayer (store w) (u_transactionHash t) nonce) →
  wp (eff_forM (reconcileNonce i rpcProviders relayer) groups) (λ r w',
    settles i relayer (store w) (store w') ∧ broadcasts w' = broadcasts w ∧ lost w' = lost w ∧
    (∀ h row, transactions (store w) !! h = Some row → tx_nonce row ∉ groups.*1 →
       transactions (store w') !! h = Some row) ∧
    (r = Ok tt → (∀ h n, unresolved i relayer (store w') h n → n ∉ groups.*1) ∧
       ∀ nonce ts t, (nonce, ts) ∈ groups → t ∈ ts →
         settled_as (store w') (u_transactionHash t) nonce ts)) w.
Proof.
  revert w. induction groups as [|[nonce ts] groups IH]; intros w Hnd Hun; cbn [eff_forM].
  { apply wp_ret. split; [done|]. split; [done|]. split; [done|]. split; [done|]. intros _.
    split; [by intros ? ? _ ?%not_elem_of_nil|by intros ? ? ? ?%not_elem_of_nil]. }
  rewrite fmap_cons in Hnd. apply NoDup_cons in Hnd as [Hnew Hnd]. apply wp_bind.
  eapply wp_mono; [apply reconcileNonce_spec|]. intros [[]|e] w1 (Hb & Hl & Hr).
  2: { rewrite Hr. split; [done|]. split; [done|]. split; [done|]. split; [auto|done]. }
  destruct Hr as (Hgone & status & mined & Hj & Hres).
  assert (∀ h row, transactions (store w) !! h = Some row → tx_nonce row ≠ nonce →
    transactions (store w1) !! h = Some row) as Hframe.
  { intros h row Hrow Hn. eapply resolveNonce_rows; [exact Hres|exact Hrow|exact Hn|].
    intros b ->. destruct Hj as (_ & t & r & Ht & <- & _).
    destruct (Hun nonce ts t ltac:(by left) Ht) as (row' & Hrow' & _ & Hn'). congruence. }
  assert (settles i relayer (store w) (store w1)) as Hsettles.
  { assert (status ∈ ["dropped"; "consumed"; "replaced"]) as Hst.
    { destruct mined as [[]|]; [destruct Hj as [-> _]|destruct Hj as [_ [[-> _]|[-> _]]]]; set_solver. }
    pose proof (resolveNonce_settles i relayer nonce status mined (store w) Hst) as Hw.
    unfold wp in Hw. rewrite Hres in Hw. apply Hw. }
  eapply wp_mono; [apply IH; [done|]|].
  { intros n ts' t Hin Ht. destruct (Hun n ts' t ltac:(by right) Ht) as (row & Hrow & Hu & Hn).
    exists row. split; [|done]. apply Hframe; [done|]. rewrite Hn. intros ->. apply Hnew.
    apply list_elem_of_fmap. by exists (nonce, ts'). }
  intros r w2 (Hs2 & Hb2 & Hl2 & Hf2 & Hr2). split; [by etrans|]. split; [congruence|].
  split; [congruence|]. split.
  { intros h row Hrow Hn. rewrite fmap_cons in Hn. apply not_elem_of_cons in Hn as [Hn Hn'].
    apply Hf2; [|done]. by apply Hframe. }
  intros ->. destruct (Hr2 eq_refl) as [Hgone2 Hset]. split.
  { intros h n Hu. rewrite fmap_cons. apply not_elem_of_cons. split; [|by eapply Hgone2].
    intros ->. apply (Hgone h). by eapply settles_unresolved. }
  intros n ts' t [[= -> ->]|Hin]%elem_of_cons Ht; [|by eapply Hset].
  destruct (Hun nonce ts t ltac:(by left) Ht) as (row & Hrow & Hu & Hn).
  destruct (proj1 (resolveNonce_rows _ _ _ _ _ _ _ _ _ Hres Hrow) Hu Hn) as (row' & Hrow' & Hn' & Hv).
  exists row', status, mined. split; [|done]. apply Hf2; [done|]. by rewrite Hn'.
Qed.

(** Whatever the reconciliation ends with, it only resolves rows. *)
Lemma reconcile_spec w :
  wp (reconcileRelayerTransactions i rpcProviders relayer) (λ r w',
    settles i relayer (store w) (store w') ∧ broadcasts w' = broadcasts w ∧ lost w' = lost w ∧
    (r = Ok tt → (∀ h n, ¬ unresolved i relayer (store w') h n) ∧
       ∀ h n, unresolved i relayer (store w) h n →
         ∃ ts, (∀ t, t ∈ ts → unresolved i relayer (store w) (u_transactionHash t) n) ∧
               (∃ t, t ∈ ts ∧ u_transactionHash t = h) ∧ settled_as (store w') h n ts)) w.
Proof.
  unfold reconcileRelayerTransactions. apply wp_bind. unfold wp at 1, eff_get. cbv beta iota.
  apply wp_lift_bind; [|intros e _; by split_and!]. intros l Hl.
  destruct (by_nonce_grouped l) as (Hnd & Hin & Hall).
  assert (∀ t, t ∈ l → unresolved i relayer (store w) (u_transactionHash t) (u_nonce t)) as Hrows
    by (intros t; by eapply listUnresolved_only).
  eapply wp_mono; [apply reconcile_groups; [done|]|].
  { intros nonce ts t Hg Ht. destruct (Hin _ _ _ Hg Ht) as [Htl <-]. by apply Hrows. }
  intros r w' (Hs & Hb & Hlost & _ & Hr). split; [done|]. split; [done|]. split; [done|].
  intros Hok. destruct (Hr Hok) as [Hgone Hset].
  assert (∀ h n, unresolved i relayer (store w) h n → ∃ t ts, u_transactionHash t = h ∧
    (n, ts) ∈ by_nonce l ∧ t ∈ ts) as Hfind.
  { intros h n Hu. destruct (listUnresolved_all _ _ _ _ _ _ Hl Hu) as (t & Ht & <- & <-).
    destruct (Hall t Ht) as (ts & Hg & Hts). by exists t, ts. }
  split.
  - intros h n Hu. apply (Hgone h n Hu). destruct (Hfind h n) as (t & ts & _ & Hg & _);
      [by eapply settles_unresolved|]. apply list_elem_of_fmap. by exists (n, ts).
  - intros h n Hu. destruct (Hfind h n Hu) as (t & ts & <- & Hg & Ht). exists ts.
    split; [|split; [by exists t|by eapply Hset]]. intros t' Ht'.
    destruct (Hin _ _ _ Hg Ht') as [? <-]. by apply Hrows.
Qed.

(** C15: when a reconciliation succeeds, the journal has no unresolved transaction of
    the relayer, and each that it had was resolved as all providers agree: with
    the block of a receipt that all of them gave, as replaced by another
    transaction of its nonce that all of them gave a receipt for, or, when none of
    them knew any transaction of the nonce, as consumed if all count past it and
    dropped if none does.  Whatever it ends with, nothing is broadcast and only
    unresolved rows of the journal are changed, to resolved ones. *)
Theorem reconciliation_is_unanimous w :
  let '(r, w') := reconcileRelayerTransactions i rpcProviders relayer w in
  settles i relayer (store w) (store w') ∧ broadcasts w' = broadcasts w ∧
  match r with
  | Ok _ => (∀ h n, ¬ unresolved i relayer (store w') h n) ∧
      ∀ h n, unresolved i relayer (store w) h n →
        ∃ ts, (∀ t, t ∈ ts → unresolved i relayer (store w) (u_transactionHash t) n) ∧
               (∃ t, t ∈ ts ∧ u_transactionHash t = h) ∧ settled_as (store w') h n ts
  | Throw _ => True
  end.
Proof.
  pose proof (reconcile_spec w) as Hw. unfold wp in Hw.
  destruct (reconcileRelayerTransactions _ _ _ w) as [[[]|e] w']; cbn in Hw; naive_solver.
Qed.
End reconcile.

(** ** Sending *)
Section send.
Context `{Ethers, Network} (i : operator_identity) (relayer : string).

Abbreviation name := (lock_name i relayer).

(** Every broadcast is in the journal. *)
Definition journaled (w : relay_world) : Prop :=
  ∀ p, p ∈ broadcasts w → is_Some (transactions (store w) !! keccak256 (sign_transaction p)).

(** The lock is held on top of the locks [L], or the session that held it is gone. *)
Definition holds (L : gset string) (w : relay_world) : Prop :=
  (name ∉ L) ∧ ((lost w = false ∧ advisory_locks (store w) = {[name]} ∪ L) ∨
              (lost w = true ∧ advisory_locks (store w) = L)).

(** What a step of a send with this nonce may do. *)
Record moves (L : gset string) (nonce : option Z) (w w' : relay_world) : Prop := {
  mv_tables : same_tables (store w) (store w');
  mv_dom h : is_Some (transactions (store w) !! h) → is_Some (transactions (store w') !! h);
  mv_unresolved h n : unresolved i relayer (store w') h n →
    unresolved i relayer (store w) h n ∨ nonce = Some n;
  mv_journaled : journaled w → journaled w';
  mv_holds : holds L w → holds L w'
}.
#[export] Instance moves_preorder L nonce : PreOrder (moves L nonce).
Proof.
  split.
  - intros w. split; auto. done.
  - intros w1 w2 w3 [T1 D1 U1 J1 H1] [T2 D2 U2 J2 H2]. split; auto.
    + destruct T1 as (?&?&?), T2 as (?&?&?). split_and!; congruence.
    + intros h n Hu. destruct (U2 h n Hu); auto.
Qed.

Lemma moves_same_world L nonce w w' : same_world w w' → moves L nonce w w'.
Proof.
  intros (Es & Eb & El). split; unfold journaled, holds; rewrite Es, ?Eb, ?El; auto. done.
Qed.
Lemma moves_ask {A} L nonce (f : nat → result A) : keeps (moves L nonce) (ask f).
Proof. apply keeps_ask. intros w. by apply moves_same_world. Qed.

Lemma moves_settles L nonce w w' :
  settles i relayer (store w) (store w') → broadcasts w' = broadcasts w → lost w' = lost w →
  moves L nonce w w'.
Proof.
  intros Hs Eb El. pose proof Hs as (Ht & Ek & _). split; [done| | | |].
  - intros h. by apply settles_dom with i relayer.
  - intros h n Hu. left. by eapply settles_unresolved.
  - intros Hj p. rewrite Eb. intros Hp. eapply settles_dom; [done|by apply Hj].
  - unfold holds. by rewrite Ek, El.
Qed.

Lemma assertHeld_moves L nonce : keeps (moves L nonce) (assertHeld name).
Proof.
  intros w. unfold assertHeld. destruct (lost w) eqn:Hl; [done|].
  unfold mbind, eff_bind, ask. cbv beta iota. destruct (lease_alive (calls w)); cbv beta iota;
    [by apply moves_same_world|].
  split; cbn; [done|auto|auto|auto|]. intros [Hn [[_ HL]|[HL _]]]; [|congruence].
  split; [done|]. right. split; [done|]. cbn. rewrite HL. set_solver.
Qed.

Lemma record_info_moves L o b w :
  jo_relayer o = relayer →
  moves L (Some (bi_nonce b)) w (record_info i o b w).2 ∧
  (record_info i o b w).1 = Ok tt ∧
  is_Some (transactions (store (record_info i o b w).2) !! bi_transactionHash b).
Proof.
  intros Hrel. unfold record_info, now, on_store, recordBroadcast, eff_modify, mbind, eff_bind. cbn.
  set (row := Build_transaction_row _ _ _ _ _ _ _ _ _ _).
  split; [|split; [done|]].
  - split; cbn; [done| | | |done].
    + intros h Hh. destruct (transactions (store w) !! bi_transactionHash b); [done|].
      by apply lookup_insert_is_Some'; right.
    + intros h n (row' & Hrow & Hu & Hn). cbn in Hrow.
      destruct (transactions (store w) !! bi_transactionHash b) eqn:E; [left; by exists row'|].
      apply lookup_insert_Some in Hrow as [[<- <-]|[_ Hrow]]; [right; by rewrite <-Hn|left; by exists row'].
    + intros Hj p Hp. cbn in *. destruct (transactions (store w) !! bi_transactionHash b); [by apply Hj|].
      apply lookup_insert_is_Some'. right. by apply Hj.
  - destruct (transactions (store w) !! bi_transactionHash b) eqn:E; [by rewrite E; eexists|].
    rewrite lookup_insert_eq. by eexists.
Qed.

(** The broadcast itself, once the transaction is recorded. *)
Lemma add_broadcast_moves L nonce p w :
  is_Some (transactions (store w) !! keccak256 (sign_transaction p)) →
  moves L nonce w (add_broadcast p w).2.
Proof.
  intros Hp. split; cbn; [done|auto|auto| |auto].
  intros Hj q. cbn. intros [Hq|Hq%list_elem_of_singleton]%elem_of_app; [by apply Hj|by subst].
Qed.

(** A callback that makes no broadcast and does not touch the database. *)
Definition observes (o : journal_options) : Prop :=
  ∀ f b, jo_beforeBroadcast o = Some f → keeps same_world (f b).

Definition send_of (o : journal_options) (nonce : Z) : send_options := {|
  so_address := jo_relayer o; so_request := jo_request o; so_maxGasPrice := jo_maxGasPrice o;
  so_timeoutMs := jo_timeoutMs o; so_maximumAttempts := jo_maximumAttempts o;
  so_nonce := Some nonce; so_assertLease := Some (assertHeld name);
  so_beforeBroadcast := jo_beforeBroadcast o; so_onBroadcast := Some (record_info i o) |}.

Lemma attempt_moves L o p attempt :
  jo_relayer o = relayer → observes o →
  keeps (moves L (Some (po_nonce p))) (attempt_broadcast (send_of o (po_nonce p)) p attempt).
Proof.
  intros Hrel Hobs w. set (R := moves L (Some (po_nonce p))).
  change (wp (attempt_broadcast (send_of o (po_nonce p)) p attempt) (λ _ w', R w w') w).
  unfold attempt_broadcast. set (info := Build_broadcast_info _ _ _ _ _).
  eapply (wp_keeps_bind R _ _ _ w); [apply moves_ask|done| |done]. intros _ w1 H1.
  eapply (wp_keeps_bind R _ _ _ w); [apply assertHeld_moves|exact H1| |done]. intros _ w2 H2.
  eapply (wp_keeps_bind R _ _ _ w);
    [apply keeps_optional; [apply _|intros f Hf w'; by apply moves_same_world, Hobs]|exact H2| |done].
  intros _ w3 H3. destruct (record_info_moves L o info w3 Hrel) as (Hm & _ & Hin).
  eapply (wp_step_bind R _ _ _ w); [exact Hm|exact H3| |done]. intros [] w4 E4 H4.
  cbn [so_onBroadcast send_of optional] in E4. rewrite E4 in Hin. cbn [snd] in Hin.
  pose proof (assertHeld_moves L (Some (po_nonce p)) w4) as Hheld.
  eapply (wp_step_bind R _ _ _ w); [exact Hheld|exact H4| |done]. intros [] w5 E5 H5.
  change (assertHeld name w4 = (Ok tt, w5)) in E5. rewrite E5 in Hheld. apply (mv_dom _ _ _ _ Hheld) in Hin.
  eapply (wp_step_bind R _ _ _ w); [by apply add_broadcast_moves|exact H5| |done]. intros _ w6 _ H6.
  eapply (wp_keeps_bind R _ _ _ w); [apply moves_ask|exact H6| |done].
  intros returned w7 H7. apply wp_require_bind; [|done]. intros _. unfold waitForReceipt.
  eapply (wp_keeps_bind R _ _ _ w); [apply moves_ask|exact H7| |done].
  by intros [].
Qed.

Lemma attempts_moves L o nonce gasLimit gasPrice attempt h remaining :
  jo_relayer o = relayer → observes o →
  keeps (moves L (Some nonce)) (attempts_loop (send_of o nonce) nonce gasLimit gasPrice attempt h remaining).
Proof.
  intros Hrel Hobs. revert gasPrice attempt h.
  induction remaining as [|remaining IH]; intros gasPrice attempt h; cbn [attempts_loop];
    [by apply keeps_lift; apply _|].
  apply keeps_bind; [apply _|by apply (attempt_moves L o (Build_populated _ nonce _ _))|].
  intros [r|]; [by apply keeps_ret; apply _|].
  destruct (_ || _); [by apply keeps_lift; apply _|apply IH].
Qed.

Lemma sendWithReplacement_moves L o nonce :
  jo_relayer o = relayer → observes o →
  keeps (moves L (Some nonce)) (sendWithReplacement (send_of o nonce)).
Proof.
  intros Hrel Hobs. unfold sendWithReplacement.
  do 4 (apply keeps_bind; [apply _|first [apply moves_ask|apply keeps_lift; apply _]|intros ?]).
  by apply (attempts_moves L o nonce).
Qed.

(** What is true after a send that began so. *)
Definition safe (w : relay_world) : Prop := journaled w ∧ one_nonce i relayer (store w).

Lemma moves_safe L nonce w w' :
  moves L nonce w w' → journaled w → (∀ h n, unresolved i relayer (store w) h n → nonce = Some n) →
  safe w'.
Proof.
  intros Hm Hj Hn. split; [by apply Hm|]. intros h h' n n' Hu Hu'.
  assert (∀ h n, unresolved i relayer (store w') h n → nonce = Some n) as Hall.
  { intros h1 n1 H1. destruct (mv_unresolved _ _ _ _ Hm h1 n1 H1); [by eapply Hn|done]. }
  apply Hall in Hu, Hu'. congruence.
Qed.

(** The part under the lock. *)
Lemma locked_send_spec L o w :
  jo_relayer o = relayer → observes o →
  wp (_ ← reconcileRelayerTransactions i (jo_rpcProviders o) (jo_relayer o);
      nonce ← ask (λ n, pendingNonceConsensus
                          ((λ p, pendingCount n p (jo_relayer o)) <$> jo_rpcProviders o));
      sendWithReplacement (send_of o nonce))
    (λ _ w', (safe w → safe w') ∧ (holds L w → holds L w') ∧ same_tables (store w) (store w')) w.
Proof.
  intros Hrel Hobs. rewrite Hrel. apply wp_bind.
  eapply wp_mono; [apply reconcile_spec|]. intros r w1 (Hs & Hb & Hl & Hr).
  assert (moves L None w w1) as Hm1 by by apply moves_settles.
  assert (∀ h n, unresolved i relayer (store w1) h n → unresolved i relayer (store w) h n) as Hold
    by (intros h n; by apply settles_unresolved).
  assert (safe w → safe w1) as Hs1.
  { intros [Hj H1]. split; [by apply Hm1|]. intros h h' n n' Hu Hu'. eapply H1; by apply Hold. }
  destruct r as [[]|e]; [|split_and!; [done|apply Hm1..]].
  destruct (Hr eq_refl) as [Hnone _]. clear Hr.
  assert (∀ nonce w', moves L nonce w1 w' →
    (safe w → safe w') ∧ (holds L w → holds L w') ∧ same_tables (store w) (store w')) as Hdone.
  { intros nonce w' Hm. split_and!.
    - intros Hsw. eapply moves_safe; [exact Hm|by apply Hs1|]. intros h n Hu. by apply Hnone in Hu.
    - intros HL. by apply Hm, Hm1.
    - destruct Hm as [(?&?&?) _ _ _ _], Hm1 as [(?&?&?) _ _ _ _]. split_and!; congruence. }
  apply wp_ask_bind; [|intros e _; by apply (Hdone None), moves_same_world].
  intros nonce _. apply (Hdone (Some nonce)). etrans; [|by apply sendWithReplacement_moves].
  by apply moves_same_world.
Qed.
End send.

Section theorem.
Context `{Ethers, Network}.

(** The session's end gives the lock back, if it still has it. *)
Definition released (name : string) (w : relay_world) : relay_world :=
  if lost w then w else (on_store (unlock name) w).2.

Lemma wp_withRelayerNonceLock {A} i relayer (op : eff relay_world unit → eff relay_world A) Q w :
  let name := lock_name i relayer in
  let begin d := {| store := d; broadcasts := broadcasts w; calls := calls w; lost := false |} in
  (name ∈ advisory_locks (store w) → Q (Throw "RelayerNonceLeaseBusy") (begin (store w))) →
  (name ∉ advisory_locks (store w) →
     wp (op (assertHeld name)) (λ r w', Q r (released name w'))
       (begin (set_locks (λ s, {[name]} ∪ s) (store w)))) →
  wp (withRelayerNonceLock i relayer op) Q w.
Proof.
  intros name begin Hbusy Hfree.
  unfold wp, withRelayerNonceLock, mbind, eff_bind, set_lost, eff_modify, on_store, try_lock.
  cbn [store broadcasts calls lost]. fold name.
  destruct (decide (name ∈ advisory_locks (store w))) as [Hin|Hout].
  - rewrite (bool_decide_true (name ∈ _)) by done. by apply Hbusy.
  - rewrite (bool_decide_false (name ∈ _)) by done. specialize (Hfree Hout).
    unfold wp in Hfree. unfold finally. fold (begin (set_locks (λ s, {[name]} ∪ s) (store w))).
    by destruct (op (assertHeld name) (begin (set_locks (λ s, {[name]} ∪ s) (store w)))).
Qed.

Lemma released_spec i relayer L w :
  holds i relayer L w →
  let w' := released (lock_name i relayer) w in
  same_world {| store := set_locks (λ _, L) (store w); broadcasts := broadcasts w;
                calls := calls w; lost := lost w |} w'.
Proof.
  intros [Hn Hl]. unfold released, same_world. destruct Hl as [[E Hl]|[E Hl]]; rewrite E; cbn.
  - split; [|done]. unfold set_locks. rewrite Hl. f_equal. apply set_eq. set_solver.
  - split; [|done]. unfold set_locks. rewrite <-Hl. by destruct (store w).
Qed.

(** What a send does to the tables, the journal and the locks. *)
Definition sent i o (w : relay_world) (r : result receipt) (w' : relay_world) : Prop :=
  (safe i (jo_relayer o) w → safe i (jo_relayer o) w') ∧ same_tables (store w) (store w') ∧
  advisory_locks (store w') = advisory_locks (store w) ∧
  (lock_name i (jo_relayer o) ∈ advisory_locks (store w) →
     r = Throw "RelayerNonceLeaseBusy" ∧ store w' = store w ∧ broadcasts w' = broadcasts w).

Lemma sendPostgresTransaction_spec i o w :
  observes o → wp (sendPostgresTransaction i o) (sent i o w) w.
Proof.
  intros Hobs. set (name := lock_name i (jo_relayer o)).
  unfold sendPostgresTransaction. apply wp_bind, wp_withRelayerNonceLock; fold name.
  { intros Hin. by split. }
  intros Hout. set (w0 := Build_relay_world _ _ _ _).
  eapply wp_mono; [by apply (locked_send_spec i (jo_relayer o) (advisory_locks (store w)) o)|].
  intros r w1 (Hs & Hholds & Ht). specialize (Hholds ltac:(split; [done|by left])).
  pose proof (released_spec _ _ _ _ Hholds) as (Es & Eb & _). fold name in Es, Eb.
  set (w2 := released name w1) in *.
  assert (sent i o w (Throw "") w2) as (Hs2 & Ht2 & Hk2 & _).
  { split; [|split; [|split; [by rewrite Es|by intros ?]]].
    - intros Hsafe. destruct (Hs Hsafe) as [Hj H1]. split.
      + intros p. rewrite Eb, Es. apply Hj.
      + rewrite Es. exact H1.
    - rewrite Es. exact Ht. }
  destruct r as [r|e]; [|split; [exact Hs2|by split]].
  set (w3 := (on_store (markMined (rc_hash r) (rc_blockNumber r)) w2).2).
  assert (moves i (jo_relayer o) ∅ None w2 w3) as Hm by (apply moves_settles; [apply settles_alter|done..]).
  change (wp (mret r) (sent i o w) w3). apply wp_ret.
  split; [|split; [exact Ht2|split; [exact Hk2|by intros ?]]].
  intros Hsafe. destruct (Hs2 Hsafe) as [Hj2 H2]. split; [by apply Hm|]. intros h h' n n' Hu Hu'. apply H2 with h h'.
  - by destruct (mv_unresolved _ _ _ _ _ _ Hm _ _ Hu) as [|[=]].
  - by destruct (mv_unresolved _ _ _ _ _ _ Hm _ _ Hu') as [|[=]].
Qed.

(** C14: a send of a relayer keeps the journal safe, whatever it ends with: every
    transaction that was broadcast is in the journal, and the unresolved ones of
    the relayer have one nonce; so at most one of them can be mined.  It leaves the
    requests and the scan state alone and gives the nonce lock back, also when it
    throws or loses the session that holds it; and while another holds the lock,
    it broadcasts and changes nothing. *)
Theorem sends_are_journaled i o w :
  observes o → safe i (jo_relayer o) w →
  let '(r, w') := sendPostgresTransaction i o w in
  safe i (jo_relayer o) w' ∧ same_tables (store w) (store w') ∧
  advisory_locks (store w') = advisory_locks (store w) ∧
  (lock_name i (jo_relayer o) ∈ advisory_locks (store w) →
     r = Throw "RelayerNonceLeaseBusy" ∧ store w' = store w ∧ broadcasts w' = broadcasts w).
Proof.
  intros Hobs Hsafe. pose proof (sendPostgresTransaction_spec i o w Hobs) as Hwp. unfold wp in Hwp.
  destruct (sendPostgresTransaction i o w) as [r w']. destruct Hwp as (Hs & Ht & Hk & Hbusy).
  split; [by apply Hs|]. by split.
Qed.
End theorem.

(** ** A relayer on a network that mines nothing *)
Definition sample_journal : journal_options := {|
  jo_instanceId := "a"; jo_relayer := "0xAE"; jo_request := sample_request; jo_maxGasPrice := 130;
  jo_timeoutMs := 60000; jo_maximumAttempts := 5; jo_requestId := Some 3; jo_kind := "store";
  jo_rpcProviders := ["0"; "1"]; jo_beforeBroadcast := None |}.
Definition sample_relay : eff relay_world receipt :=
  @sendPostgresTransaction sample_ethers stuck_network sample_operator sample_journal.
(** The price and the status of each row of the journal. *)
Definition journal_of (w : relay_world) : list (Z * string) :=
  (λ x : string * transaction_row, (gas_price_wei x.2, tx_status x.2)) <$>
    map_to_list (transactions (store w)).

Lemma idle_safe : @safe sample_ethers stuck_network sample_operator "0xAE" idle_world.
Proof. split; [by intros p ?%not_elem_of_nil|]. intros h h' n n' (row & [=] & _). Qed.

Lemma sends_are_journaled_witness :
  journal_of (sample_relay idle_world).2 = [(113, "broadcast"); (100, "broadcast"); (128, "broadcast")] ∧
  let '(r, w') := sample_relay idle_world in
  @safe sample_ethers stuck_network sample_operator "0xAE" w' ∧
  same_tables (store idle_world) (store w') ∧
  advisory_locks (store w') = advisory_locks (store idle_world) ∧
  (lock_name sample_operator "0xAE" ∈ advisory_locks (store idle_world) →
     r = Throw "RelayerNonceLeaseBusy" ∧ store w' = store idle_world ∧
     broadcasts w' = broadcasts idle_world).
Proof.
  split; [vm_compute; reflexivity|].
  refine (@sends_are_journaled sample_ethers stuck_network sample_operator sample_journal idle_world _ idle_safe).
  intros f b Hf. discriminate Hf.
Defined.

(** A second send finds the three transactions unknown to the network and drops
    them; then it signs the same three again, and their rows stay dropped: the
    transactions that are on their way are no longer unresolved. *)
Lemma rebroadcast_stays_dropped :
  let w' := (sample_relay (sample_relay idle_world).2).2 in
  length (broadcasts w') = 6%nat ∧
  journal_of w' = [(113, "dropped"); (100, "dropped"); (128, "dropped")] ∧
  listUnresolvedTransactions sample_operator "0xAE" (store w') = Ok [].
Proof. split_and!; vm_compute; reflexivity. Qed.
