(* ===== verification/Service.v ===== *)
(** * The service loop ([cli.mjs])

    What the operators that share a database do in one turn of their loop: the
    scan, and the work on the requests they claim.  The chain and the proof provider
    are parameters; an answer depends on the number of the call.  What the loop
    prints and its health file are left out. *)

From S2P Require Import Prelude Js Hex CanonicalJson JsonText Vendor ThresholdNode Policies OperatorStore StoreLeases Scanner ErrorText Relayer Samples RelayerSafety.

Open Scope Z_scope.

(** What the proof provider gives: bytes of its own, or a proof to encode. *)
Record proof_result := { proofData : option bytes; proof : value; output : Z }.

Class ServiceApi := {
  getBlockNumber : nat → result Z;
  contextBlockNumber : nat → result Z;
  getServiceRequest : nat → Z → result chain_request;
  blockhashes : nat → Z → result string;
  populateStore : nat → Z → result tx_request;
  providerRequest : nat → string → Z → result chain_request;   (* provider, request *)
  providerSeed : nat → string → Z → result Z;
  prove : nat → Z → Z → Z → result proof_result;               (* seed, preSeed, request *)
  populateFulfill : nat → Z → bytes → result tx_request
}.

(** ** Texts *)

(** [/word/.test(s)], for a word. *)
Fixpoint contains_at (word l : list ascii) : bool :=
  bool_decide (take (length word) l = word)
  || match l with [] => false | _ :: l => contains_at word l end.
Definition contains_any (words : list string) (s : string) : bool :=
  existsb (λ w, contains_at (chars w) (chars s)) words.

Definition retryDelaySeconds (message : string) (attempts : Z) : Z :=
  if contains_any ["RelayerNonceLeaseBusy"; "RpcNonceDisagreement"] message then 1
  else if contains_any ["RelayerTransactionPending"] message then 10
  else if contains_any ["ConfirmationsPending"; "BlockhashUnavailable"] message then 5
  else if contains_any ["GasPriceAboveLane"] message then 30
  else Z.min 300 (2 ^ Z.min (attempts + 1) 8).

(** The [message] of what was thrown. *)
Definition thrown_message (e : string) : string := errorMessage (VObj [("message", VStr e)]).

(** ** The canonical request *)

Definition fingerprint_fields (r : chain_request) (actualSeed : Z) : list (string * value) :=
  let text := λ s, VStr (lower s) in
  let big := λ z, VStr (print_int z) in
  [("consumer", text (r_consumer r)); ("verifier", text (r_verifier r));
   ("verifierCodeHash", text (r_verifierCodeHash r)); ("fulfiller", text (r_fulfiller r));
   ("payee", text (r_payee r)); ("keyHash", text (r_keyHash r));
   ("subscriptionId", big (r_subscriptionId r)); ("preSeed", big (r_preSeed r));
   ("reservedPayment", big (r_reservedPayment r)); ("randomness", big (r_randomness r));
   ("minimumFeeWei", big (r_minimumFeeWei r)); ("requestBlock", big (r_requestBlock r));
   ("expiresAtBlock", big (r_expiresAtBlock r)); ("maxGasPriceWei", big (r_maxGasPriceWei r));
   ("verificationGasLimit", VNum (r_verificationGasLimit r));
   ("proofDataLength", VNum (r_proofDataLength r));
   ("callbackGasLimit", VNum (r_callbackGasLimit r)); ("numWords", VNum (r_numWords r));
   ("callbackAttempts", VNum (r_callbackAttempts r));
   ("fulfillmentOverheadGas", VNum (r_fulfillmentOverheadGas r));
   ("confirmations", VNum (r_confirmations r)); ("premiumBps", VNum (r_premiumBps r));
   ("operatorPremiumShareBps", VNum (r_operatorPremiumShareBps r));
   ("status", VNum (r_status r)); ("sponsored", VBool (r_sponsored r));
   ("waiveMinimumFee", VBool (r_waiveMinimumFee r));
   ("callbackSucceeded", VBool (r_callbackSucceeded r)); ("actualSeed", big actualSeed)].
Definition requestFingerprint (r : chain_request) (actualSeed : Z) : string :=
  stringify_fields (fingerprint_fields r actualSeed).

Record request_state := { rs_request : chain_request; rs_actualSeed : Z; rs_fingerprint : string }.

(** ** The options of the service *)
Record service_options := {
  sv_instanceId : string; sv_relayer : string; sv_keyHash : string; sv_identity : operator_identity;
  sv_rpcProviders : list string;
  sv_blockRange : Z; sv_reorgLookback : Z; sv_eventConfirmations : Z;
  sv_scanLeaseSeconds : Z; sv_requestLeaseSeconds : Z; sv_workLimit : nat;
  sv_replacementMs : Z; sv_replacementAttempts : Z; sv_archiveAfterBlocks : Z
}.

Definition PROOF_TYPE : string :=
  "tuple(uint256[2] pk,uint256[2] gamma,uint256 c,uint256 s,uint256 seed,address uWitness,uint256[2] cGammaWitness,uint256[2] sHashWitness,uint256 zInv)".
Definition ZERO_BLOCKHASH : string := "0x" +:+ of_chars (replicate 64 "0"%char).

Section service.
Context `{Ethers, Network, ServiceApi}.

(** One provider's account of the request. *)
Definition readState (n : nat) (o : service_options) (requestId : Z) (p : string) : result request_state :=
  request ← providerRequest n p requestId;
  actualSeed ← providerSeed n p requestId;
  _ ← require ((r_status request =? 1) && bool_decide (lower (r_keyHash request) = lower (sv_keyHash o)))
        "RPC returned a non-pending request or the wrong keyHash";
  Ok {| rs_request := request; rs_actualSeed := actualSeed;
        rs_fingerprint := requestFingerprint request actualSeed |}.

(** All agree with the first; without providers there is no first. *)
Definition agreeing (states : list request_state) : result request_state :=
  match states with
  | [] => Throw TYPE_ERROR
  | s :: _ =>
      _ ← require (forallb (λ t, bool_decide (rs_fingerprint t = rs_fingerprint s)) states)
            "independent RPC endpoints disagree on the canonical request";
      Ok s
  end.
Definition readRequestConsensus (o : service_options) (requestId : Z) : eff relay_world request_state :=
  states ← ask (λ n, mapM (readState n o requestId) (sv_rpcProviders o));
  eff_lift (agreeing states).

(** ** The work on a request *)

Definition send_options_of (o : service_options) (requestId maxGasPrice : Z) (kind : string)
    (tx : tx_request) : journal_options := {|
  jo_instanceId := sv_instanceId o; jo_relayer := sv_relayer o; jo_request := tx;
  jo_maxGasPrice := maxGasPrice; jo_timeoutMs := sv_replacementMs o;
  jo_maximumAttempts := sv_replacementAttempts o; jo_requestId := Some requestId; jo_kind := kind;
  jo_rpcProviders := sv_rpcProviders o; jo_beforeBroadcast := None |}.
Definition send (o : service_options) (requestId maxGasPrice : Z) (kind : string) (tx : tx_request)
    : eff relay_world receipt :=
  sendPostgresTransaction (sv_identity o) (send_options_of o requestId maxGasPrice kind tx).

(** The blockhash of an old request is stored first, when it is not stored yet. *)
Definition archiveBlockhash (o : service_options) (contextBlock : Z) (e : scan_event) (maxGasPrice : Z)
    : eff relay_world unit :=
  if requestBlock e + sv_archiveAfterBlocks o <=? contextBlock then
    storedHash ← ask (λ n, blockhashes n (requestBlock e));
    if bool_decide (storedHash = ZERO_BLOCKHASH) then
      archiveTransaction ← ask (λ n, populateStore n (requestBlock e));
      _ ← send o (requestId e) maxGasPrice "blockhash-archive" archiveTransaction;
      mret tt
    else mret tt
  else mret tt.

Definition proof_bytes (r : proof_result) : bytes :=
  match proofData r with Some b => b | None => abi_encode [PROOF_TYPE] [proof r] end.

Definition fulfill (o : service_options) (e : scan_event) (maxGasPrice : Z) : eff relay_world receipt :=
  state ← readRequestConsensus o (requestId e);
  proofResult ← ask (λ n, prove n (rs_actualSeed state) (preSeed e) (requestId e));
  fulfillmentTransaction ← ask (λ n, populateFulfill n (requestId e) (proof_bytes proofResult));
  send o (requestId e) maxGasPrice "fulfillment" fulfillmentTransaction.

Definition complete (o : service_options) (id : Z) : eff relay_world unit :=
  on_store (completeRequest (sv_identity o) id (sv_instanceId o)).

(** The [try] block. *)
Definition tryPending (o : service_options) (contextBlock : Z) (e : scan_event) : eff relay_world unit :=
  request ← ask (λ n, getServiceRequest n (requestId e));
  if r_status request =? 1 then
    _ ← archiveBlockhash o contextBlock e (r_maxGasPriceWei request);
    _ ← fulfill o e (r_maxGasPriceWei request);
    complete o (requestId e)
  else complete o (requestId e).

(** The [catch] block: whether the request is finalized is asked again, and an
    error of that question means that it is not. *)
Definition isFinalized (id : Z) : eff relay_world bool :=
  eff_catch (request ← ask (λ n, getServiceRequest n id); mret (negb (r_status request =? 1)))
    (λ _, mret false).
Definition processPending (o : service_options) (contextBlock : Z) (pending : claimed_request)
    : eff relay_world unit :=
  let e := c_event pending in
  eff_catch (tryPending o contextBlock e) (λ error,
    let message := thrown_message error in
    finalized ← isFinalized (requestId e);
    if finalized : bool then complete o (requestId e)
    else
      t ← now;
      on_store (retryRequest (sv_identity o) (requestId e) (sv_instanceId o) message
                  (retryDelaySeconds message (c_attempts pending)) t)).

(** Up to [limit] requests. *)
Fixpoint work (o : service_options) (contextBlock : Z) (limit : nat) : eff relay_world unit :=
  match limit with
  | O => mret tt
  | S limit =>
      t ← now;
      pending ← on_store (claimRequest (sv_identity o) (sv_instanceId o) (sv_requestLeaseSeconds o) t);
      match pending with
      | None => mret tt
      | Some pending =>
          _ ← processPending o contextBlock pending;
          work o contextBlock limit
      end
  end.

(** ** One turn of the loop *)
Context `{EventsApi}.

Definition heartbeat_data (o : service_options) (head : Z) : value :=
  VObj [("chainId", VStr (chainId (sv_identity o))); ("coordinator", VStr (coordinator (sv_identity o)));
        ("keyHash", VStr (sv_keyHash o)); ("head", VNum head)].

Definition scanOnce (o : service_options) (latest : Z) : eff relay_world unit :=
  let i := sv_identity o in
  t ← now;
  scan ← on_store (claimScan i (sv_instanceId o) latest (sv_blockRange o) (sv_reorgLookback o)
                     (sv_scanLeaseSeconds o) t);
  match scan with
  | None => mret tt
  | Some w =>
      eff_catch (t ← now; on_store (scanServiceEventsPostgres i (sv_instanceId o) w t))
        (λ e, _ ← on_store (releaseScan i (sv_instanceId o)); eff_throw e)
  end.

(** What a turn reports: the head it saw, and the summary of the store after it. *)
Definition serviceTurn (o : service_options) : eff relay_world (Z * store_summary) :=
  let i := sv_identity o in
  head ← ask getBlockNumber;
  let latest := Z.max (deploymentBlock i) (head - sv_eventConfirmations o) in
  t ← now;
  _ ← on_store (heartbeat (sv_instanceId o) (heartbeat_data o head) t);
  _ ← scanOnce o latest;
  contextBlock ← ask contextBlockNumber;
  _ ← work o contextBlock (sv_workLimit o);
  w ← eff_get;
  s ← eff_lift (summary i (store w));
  mret (head, s).
End service.
