(* ===== verification/ServiceSafety.v ===== *)
(** * What the service loop guarantees ([cli.mjs])

    A seed that is proved is the one all providers agree on; every request that is
    claimed is settled: it leaves the database, for a reason, or waits for another
    attempt with its lease given back. *)

From S2P Require Import Prelude Js Hex CanonicalJson JsonText Vendor ThresholdNode CanonicalRequest Policies OperatorStore StoreLeases Scanner ErrorText Relayer Samples RelayerSafety Journal Service.

Open Scope Z_scope.

(** ** A fingerprint determines the request *)

Lemma requestFingerprint_inj r seed r' seed' :
  requestFingerprint r seed = requestFingerprint r' seed' → same_request r r' ∧ seed = seed'.
Proof.
  unfold requestFingerprint, same_request. intros E.
  assert (∀ r s, Forall (λ kv, leaf kv.2) (fingerprint_fields r s)) as Hleaf
    by (intros; repeat constructor).
  apply stringify_fields_inj in E; [|done..]. destruct r, r'. cbn -[lower] in E. unfold lower_request. cbn -[lower].
  simplify_eq.
  repeat match goal with Hp : print_int _ = print_int _ |- _ => apply print_int_inj in Hp end.
  subst. repeat match goal with Hp : @eq string _ _ |- _ => rewrite Hp; clear Hp end. split; reflexivity.
Qed.

(** ** The work on one request *)
Section service.
Context `{Ethers, Network, ServiceApi} (o : service_options).

Abbreviation i := (sv_identity o).
Abbreviation inst := (sv_instanceId o).

(** All providers describe the request alike, pending and for the operator's key,
    with this seed. *)
Definition agreed_state (requestId : Z) (st : request_state) : Prop :=
  sv_rpcProviders o ≠ [] ∧ ∃ n, ∀ p, p ∈ sv_rpcProviders o → ∃ request,
    providerRequest n p requestId = Ok request ∧ r_status request = 1 ∧
    lower (r_keyHash request) = lower (sv_keyHash o) ∧
    providerSeed n p requestId = Ok (rs_actualSeed st) ∧ same_request request (rs_request st).

Lemma readState_Ok n requestId p st :
  readState n o requestId p = Ok st →
  ∃ request, providerRequest n p requestId = Ok request ∧ r_status request = 1 ∧
    lower (r_keyHash request) = lower (sv_keyHash o) ∧
    providerSeed n p requestId = Ok (rs_actualSeed st) ∧ rs_request st = request ∧
    rs_fingerprint st = requestFingerprint request (rs_actualSeed st).
Proof.
  unfold readState. intros Hs. apply bind_Ok in Hs as (request & Hr & Hs).
  apply bind_Ok in Hs as (seed & Hseed & Hs).
  apply bind_Ok in Hs as (? & [Hst Hk]%require_Ok%andb_true_iff & [= <-]).
  apply Z.eqb_eq in Hst. apply bool_decide_eq_true in Hk. by exists request.
Qed.

Lemma agreeing_Ok n requestId states st :
  mapM (readState n o requestId) (sv_rpcProviders o) = Ok states → agreeing states = Ok st →
  agreed_state requestId st.
Proof.
  intros Hm%mapM_Ok Ha. destruct states as [|s states]; [done|]. unfold agreeing in Ha.
  apply bind_Ok in Ha as (? & Hall%require_Ok & [= ->]). split.
  { intros E. rewrite E in Hm. inv Hm. }
  exists n. intros p Hp. destruct (Forall2_elem _ _ _ _ Hm Hp) as (t & Ht & E).
  apply readState_Ok in E as (request & ? & ? & ? & Hseed & Er & Ef).
  assert (st ∈ st :: states) as Hst by by left.
  pose proof Hm as Hm'. apply Forall2_flip in Hm'.
  destruct (Forall2_elem _ _ _ _ Hm' Hst) as (p' & _ & E').
  apply readState_Ok in E' as (request' & _ & _ & _ & _ & Er' & Ef').
  rewrite forallb_forall in Hall. specialize (Hall t ltac:(by apply list_elem_of_In)).
  apply bool_decide_eq_true in Hall. rewrite Ef, Ef' in Hall.
  apply requestFingerprint_inj in Hall as [Hsame Es]. exists request.
  rewrite Er', <-Es. by split_and!.
Qed.

(** What may happen while a request is worked on: the tables of requests and scans
    are left alone, the locks are given back and the journal stays safe. *)
Definition bystands (w w' : relay_world) : Prop :=
  same_tables (store w) (store w') ∧ advisory_locks (store w') = advisory_locks (store w) ∧
  (safe i (sv_relayer o) w → safe i (sv_relayer o) w').
#[local] Instance bystands_preorder : PreOrder bystands.
Proof.
  split.
  - intros w. by split_and!.
  - intros w1 w2 w3 ((?&?&?)&?&?) ((?&?&?)&?&?). split; [split_and!; congruence|].
    split; [congruence|auto].
Qed.

Lemma bystands_tick w : bystands w (tick w).
Proof. by split_and!. Qed.
Lemma bystands_ask {A} (f : nat → result A) : keeps bystands (ask f).
Proof. apply keeps_ask, bystands_tick. Qed.

Lemma bystands_send id maxGasPrice kind tx : keeps bystands (send o id maxGasPrice kind tx).
Proof.
  intros w. pose proof (sendPostgresTransaction_spec i (send_options_of o id maxGasPrice kind tx) w
    ltac:(by intros f b [=])) as Hs. unfold wp in Hs. unfold send.
  destruct (sendPostgresTransaction _ _ w) as [r w']. destruct Hs as (? & ? & ? & _). by split_and!.
Qed.

Lemma bystands_archive contextBlock e maxGasPrice :
  keeps bystands (archiveBlockhash o contextBlock e maxGasPrice).
Proof.
  unfold archiveBlockhash. destruct (_ <=? _); [|by apply keeps_ret; apply _].
  apply keeps_bind; [apply _|apply bystands_ask|]. intros storedHash.
  destruct (bool_decide _); [|by apply keeps_ret; apply _].
  apply keeps_bind; [apply _|apply bystands_ask|]. intros tx.
  apply keeps_bind; [apply _|apply bystands_send|]. intros _. by apply keeps_ret; apply _.
Qed.

(** A fulfillment that was confirmed: of the proof of a seed that all providers
    agree on. *)
Definition fulfilled (e : scan_event) : Prop :=
  ∃ st n proofResult n' tx maxGasPrice w r w', agreed_state (requestId e) st ∧
    prove n (rs_actualSeed st) (preSeed e) (requestId e) = Ok proofResult ∧
    populateFulfill n' (requestId e) (proof_bytes proofResult) = Ok tx ∧
    send o (requestId e) maxGasPrice "fulfillment" tx w = (Ok r, w').

Lemma readRequestConsensus_spec requestId w :
  wp (readRequestConsensus o requestId) (λ r w', bystands w w' ∧
    ∀ st, r = Ok st → agreed_state requestId st) w.
Proof.
  unfold readRequestConsensus. apply wp_ask_bind; [|intros e _; split; [apply bystands_tick|done]].
  intros states Hstates. apply wp_lift. split; [apply bystands_tick|].
  intros st. by apply agreeing_Ok with (calls w).
Qed.

Lemma fulfill_spec e maxGasPrice w :
  wp (fulfill o e maxGasPrice) (λ r w', bystands w w' ∧ ∀ rc, r = Ok rc → fulfilled e) w.
Proof.
  unfold fulfill. apply wp_bind. eapply wp_mono; [apply readRequestConsensus_spec|].
  intros [st|] w1 [Hb1 Hst]; [|done]. specialize (Hst st eq_refl).
  pose proof bystands_tick as Htick.
  apply wp_ask_bind; [|intros; split; [etrans; [exact Hb1|apply Htick]|done]].
  intros proofResult Hproof.
  apply wp_ask_bind; [|intros; split; [etrans; [exact Hb1|etrans; [apply Htick|apply Htick]]|done]].
  intros tx Htx. set (w3 := tick (tick w1)) in *.
  pose proof (bystands_send (requestId e) maxGasPrice "fulfillment" tx w3) as Hsend.
  unfold wp. destruct (send _ _ _ _ _ w3) as [r w4] eqn:E. cbn [fst snd] in *. split.
  - etrans; [exact Hb1|]. etrans; [apply Htick|]. etrans; [apply Htick|]. exact Hsend.
  - intros rc ->. exists st, (calls w1), proofResult, (calls (tick w1)), tx, maxGasPrice, w3, rc, w4.
    by split_and!.
Qed.

(** ** Settling *)

(** The coordinator said that the request is not pending. *)
Definition ended (id : Z) : Prop := ∃ n r, getServiceRequest n id = Ok r ∧ r_status r ≠ 1.

(** The requests after the row of [id], if it is leased here, was completed or put
    off. *)
Definition put_off (id attempts : Z) (t t' : gmap (operator_key * Z) request_row) : Prop :=
  ∃ message time d d', requests d = t ∧ requests d' = t' ∧
    retryRequest i id inst message (retryDelaySeconds message attempts) time d = (Ok tt, d').
Definition completed (e : scan_event) (t t' : gmap (operator_key * Z) request_row) : Prop :=
  (ended (requestId e) ∨ fulfilled e) ∧
  ∃ d d', requests d = t ∧ requests d' = t' ∧ completeRequest i (requestId e) inst d = (Ok tt, d').

(** Only the requests, the journal and the calls change. *)
Definition worked (w w' : relay_world) : Prop :=
  scan_state (store w') = scan_state (store w) ∧ instances (store w') = instances (store w) ∧
  advisory_locks (store w') = advisory_locks (store w) ∧
  (safe i (sv_relayer o) w → safe i (sv_relayer o) w').
#[local] Instance worked_preorder : PreOrder worked.
Proof.
  split; [intros w; by split_and!|]. intros w1 w2 w3 (?&?&?&?) (?&?&?&?). split_and!; try congruence. auto.
Qed.

Lemma bystands_worked w w' : bystands w w' → worked w w' ∧ requests (store w') = requests (store w).
Proof. intros ((?&?&?)&?&?). by split_and!. Qed.

(** A statement on the requests alone. *)
Lemma on_requests_worked {A} (m : eff database A) (w : relay_world) d' r :
  m (store w) = (r, d') → (∃ f, d' = set_requests f (store w)) →
  (on_store m w).1 = r ∧ store (on_store m w).2 = d' ∧ worked w (on_store m w).2.
Proof. intros E [f ->]. unfold on_store. rewrite E. by split_and!. Qed.

Lemma complete_spec e w :
  ended (requestId e) ∨ fulfilled e →
  wp (complete o (requestId e)) (λ r w', r = Ok tt ∧ worked w w' ∧
    completed e (requests (store w)) (requests (store w'))) w.
Proof.
  intros Hwhy. unfold complete.
  destruct (on_requests_worked (completeRequest i (requestId e) inst) w _ _ eq_refl ltac:(by eexists))
    as (Hr & Hs & Hw).
  unfold wp. destruct (on_store _ w) as [r w']. cbn in *. subst r. split; [done|]. split; [done|].
  split; [done|]. exists (store w), (store w'). by rewrite Hs.
Qed.

Lemma tryPending_spec contextBlock e w :
  wp (tryPending o contextBlock e) (λ r w', worked w w' ∧
    match r with
    | Ok _ => completed e (requests (store w)) (requests (store w'))
    | Throw _ => requests (store w') = requests (store w)
    end) w.
Proof.
  unfold tryPending. apply wp_ask_bind; [|done]. intros request Hrequest.
  destruct (r_status request =? 1) eqn:Hst.
  - apply wp_bind. eapply (wp_mono _ (λ _ w', bystands (tick w) w')); [apply bystands_archive|].
    intros [[]|x] w1 Hb1; [|by apply bystands_worked in Hb1].
    apply wp_bind. eapply wp_mono; [apply fulfill_spec|]. intros [rc|x] w2 [Hb2 Hf].
    + assert (worked w w2 ∧ requests (store w2) = requests (store w)) as [Hw Hr].
      { apply (bystands_worked w). etrans; [|exact Hb2]. exact Hb1. }
      eapply wp_mono; [apply complete_spec; right; by eapply Hf|].
      intros r w3 (-> & Hw3 & Hc). split; [by etrans|]. by rewrite <-Hr.
    + apply (bystands_worked w). etrans; [|exact Hb2]. exact Hb1.
  - eapply wp_mono; [apply complete_spec; left; exists (calls w), request; split; [done|lia]|].
    intros r w3 (-> & Hw3 & Hc). by split.
Qed.

Lemma processPending_spec contextBlock pending w :
  let e := c_event pending in
  wp (processPending o contextBlock pending) (λ r w', r = Ok tt ∧ worked w w' ∧
    (completed e (requests (store w)) (requests (store w')) ∨
     put_off (requestId e) (c_attempts pending) (requests (store w)) (requests (store w')))) w.
Proof.
  intros e. unfold processPending. apply wp_catch. fold e.
  eapply wp_mono; [apply tryPending_spec|]. intros [[]|x] w1 [Hw1 Hr1]; [by split_and!; [| |left]|].
  apply wp_bind, (wp_mono _ (λ r w2, worked w1 w2 ∧ requests (store w2) = requests (store w1) ∧
    ∃ b, r = Ok b ∧ (b = true → ended (requestId e)))).
  { apply wp_catch. apply wp_ask_bind.
    - intros request Hrequest. apply wp_ret. split; [done|]. split; [done|]. eexists. split; [done|].
      intros Hst. exists (calls w1), request. split; [done|]. lia.
    - intros x' _. apply wp_ret. split; [done|]. split; [done|]. by exists false. }
  intros r w2 (Hw2 & Hr2 & b & -> & Hb). assert (worked w w2) as Hw by by etrans.
  destruct b.
  - eapply wp_mono; [apply complete_spec; left; by apply Hb|]. intros r w3 (-> & Hw3 & Hc).
    split; [done|]. split; [by etrans|]. left. by rewrite <-Hr1, <-Hr2.
  - set (message := thrown_message x). apply wp_bind. unfold wp at 1, now.
    destruct (on_requests_worked (retryRequest i (requestId e) inst message
      (retryDelaySeconds message (c_attempts pending)) (time_at (calls w2))) w2 _ _ eq_refl ltac:(by eexists))
      as (Hr & Hs & Hw3).
    unfold wp. destruct (on_store _ w2) as [r w3]. cbn [fst snd] in *. subst r.
    split; [done|]. split; [by etrans|]. right.
    exists message, (time_at (calls w2)), (store w2), (store w3).
    rewrite Hr2, Hr1, Hs. by split_and!.
Qed.

(** ** The work of a turn *)

(** This instance holds no lease on a request. *)
Definition no_lease (t : gmap (operator_key * Z) request_row) : Prop :=
  ∀ kr row, t !! kr = Some row → lease_owner row ≠ Some inst.
(** The rows have block numbers that JavaScript can hold, and were attempted. *)
Definition readable_rows (t : gmap (operator_key * Z) request_row) : Prop :=
  ∀ kr row, t !! kr = Some row → 0 <= event_block_number row <= MAX_SAFE_INTEGER ∧ 0 <= attempts row.

(** A row that waits for its next attempt. *)
Definition waits (a b : request_row) : Prop :=
  (∀ id, row_event id b = row_event id a) ∧ orphaned b = orphaned a ∧ attempts a < attempts b ∧
  lease_owner b = None ∧ ∃ time delay, next_attempt_at b = time + delay ∧ 1 <= delay <= 300.

(** What becomes of a row: nothing, another attempt later, or its end. *)
Definition row_settled (kr : operator_key * Z) (a b : option request_row) : Prop :=
  match a, b with
  | None, None => True
  | Some a, Some b => b = a ∨ (kr.1 = key_of i ∧ waits a b)
  | Some a, None => kr.1 = key_of i ∧ (ended kr.2 ∨ fulfilled (row_event kr.2 a))
  | None, Some _ => False
  end.
Definition settled (t t' : gmap (operator_key * Z) request_row) : Prop :=
  ∀ kr, row_settled kr (t !! kr) (t' !! kr).
#[local] Instance settled_preorder : PreOrder settled.
Proof.
  split.
  - intros t kr. unfold row_settled. destruct (t !! kr); [by left|done].
  - intros t1 t2 t3 H12 H23 kr. specialize (H12 kr). specialize (H23 kr). unfold row_settled in *.
    destruct (t1 !! kr) as [a|], (t2 !! kr) as [b|], (t3 !! kr) as [c|]; try done.
    + destruct H12 as [->|[Hk Hab]]; [done|]. destruct H23 as [->|[_ (Eb & Eo' & Hb & Hc)]]; [by right|].
      destruct Hab as (Ea & Eo & Ha & _ & _). right. split; [done|].
      split; [intros id; by rewrite Eb|]. split; [congruence|]. split; [lia|done].
    + destruct H12 as [->|[_ (Ea & _)]]; [done|]. by rewrite <-Ea.
Qed.

Lemma retryDelay_bounds message n : 0 <= n → 1 <= retryDelaySeconds message n <= 300.
Proof.
  intros Hn. unfold retryDelaySeconds. repeat (destruct (contains_any _ _); [lia|]).
  pose proof (Z.pow_le_mono_r 2 0 (Z.min (n + 1) 8) ltac:(lia) ltac:(lia)). lia.
Qed.

(** A claimed row, after the work on it. *)
Lemma claimed_settles t kr row lease t2 :
  kr.1 = key_of i → t !! kr = Some row → 0 <= attempts row →
  let t1 := <[kr := with_lease row (Some inst) (Some lease)]> t in
  (completed (row_event kr.2 row) t1 t2 ∨
   put_off kr.2 (attempts row) t1 t2) →
  settled t t2 ∧ (∀ kr', kr' ≠ kr → t2 !! kr' = t !! kr') ∧
  (∀ row2, t2 !! kr = Some row2 → waits row row2).
Proof.
  intros Hk Hrow Hatt t1 Hdone. destruct kr as [k id]. cbn [fst snd] in *. subst k.
  assert (t1 !! (key_of i, id) = Some (with_lease row (Some inst) (Some lease))) as Ht1
    by apply lookup_insert_eq.
  assert (∀ t2 : gmap (operator_key * Z) request_row, (∀ kr', kr' ≠ (key_of i, id) → t2 !! kr' = t1 !! kr') →
    ∀ kr', kr' ≠ (key_of i, id) → t2 !! kr' = t !! kr') as Hother.
  { intros t' Ht' kr' Hne. rewrite Ht' by done. by apply lookup_insert_ne. }
  assert ((∀ kr', kr' ≠ (key_of i, id) → t2 !! kr' = t1 !! kr') ∧
    ((t2 !! (key_of i, id) = None ∧ (ended id ∨ fulfilled (row_event id row))) ∨
     ∃ row2, t2 !! (key_of i, id) = Some row2 ∧ waits row row2)) as [Hsame Hkr].
  { destruct Hdone as [(Hwhy & d & d' & Hd & <- & E)|(message & time & d & d' & Hd & <- & E)];
      injection E as <-; cbn [requests set_requests]; rewrite Hd.
    - cbn [requestId row_event]. rewrite Ht1, bool_decide_true by done. split.
      + intros kr' Hne. by apply lookup_delete_ne.
      + left. split; [by rewrite lookup_delete_eq|exact Hwhy].
    - split; [intros kr' Hne; by apply lookup_alter_ne|]. right. rewrite lookup_alter_eq, Ht1. cbn.
      rewrite bool_decide_true by done. eexists. split; [done|]. split; [done|]. split; [done|].
      split; [cbn; lia|]. split; [done|]. exists time, (retryDelaySeconds message (attempts row)).
      split; [done|]. by apply retryDelay_bounds. }
  split; [|split; [by apply Hother|]].
  - intros kr'. destruct (decide (kr' = (key_of i, id))) as [->|Hne].
    + unfold row_settled. rewrite Hrow. destruct Hkr as [[-> Hwhy]|(row2 & -> & Hw)]; [done|by right].
    + rewrite (Hother t2 Hsame) by done. unfold row_settled. destruct (t !! kr'); [by left|done].
  - intros row2 Hrow2. destruct Hkr as [[E _]|(row2' & E & Hw)]; [congruence|].
    by replace row2 with row2' by congruence.
Qed.

Lemma claim_spec lease time w :
  readable_rows (requests (store w)) →
  wp (on_store (claimRequest i inst lease time)) (λ r w', worked w w' ∧
    ((r = Ok None ∧ requests (store w') = requests (store w)) ∨
     ∃ kr row, kr.1 = key_of i ∧ requests (store w) !! kr = Some row ∧
       r = Ok (Some {| c_event := row_event kr.2 row; c_attempts := attempts row |}) ∧
       requests (store w') = <[kr := with_lease row (Some inst) (Some (time + lease))]> (requests (store w)))) w.
Proof.
  intros Hread.
  destruct (candidate i time (requests (store w))) as [[kr row]|] eqn:Hc.
  - pose proof Hc as (Hrow & Hcl & _)%candidate_Some.
    assert (kr.1 = key_of i) as Hk.
    { unfold claimable in Hcl. rewrite !andb_true_iff in Hcl. by destruct Hcl as [[[Hk%bool_decide_eq_true _] _] _]. }
    destruct (Hread kr row Hrow) as [Hblock _].
    assert (safeBlockNumber (event_block_number row) "event block" = Ok (event_block_number row)) as Hsafe.
    { unfold safeBlockNumber, safe_integer. rewrite Z.abs_eq by lia.
      by rewrite (proj2 (Z.leb_le _ _)), (proj2 (Z.ltb_ge _ _)) by lia. }
    unfold wp, on_store, claimRequest, mbind, eff_bind, eff_get, eff_modify, eff_lift. rewrite Hc, Hsafe.
    split; [by split_and!|]. right. exists kr, row. by split_and!.
  - unfold wp, on_store, claimRequest, mbind, eff_bind, eff_get. rewrite Hc.
    split; [by split_and!|by left].
Qed.

End service.

(** ** A turn with one request fulfilled and one put off *)
Definition service_request : chain_request := {|
  r_consumer := "0xC0"; r_verifier := "0xad"; r_verifierCodeHash := "0xab"; r_fulfiller := "0xae";
  r_payee := "0xaf"; r_keyHash := "0xF0"; r_subscriptionId := 1; r_preSeed := 7;
  r_reservedPayment := 5; r_randomness := 0; r_minimumFeeWei := 0; r_requestBlock := 110;
  r_expiresAtBlock := 160; r_maxGasPriceWei := 130; r_verificationGasLimit := 100;
  r_proofDataLength := 64; r_callbackGasLimit := 100; r_numWords := 1; r_callbackAttempts := 0;
  r_fulfillmentOverheadGas := 10; r_confirmations := 2; r_premiumBps := 0;
  r_operatorPremiumShareBps := 0; r_status := 1; r_sponsored := false; r_waiveMinimumFee := false;
  r_callbackSucceeded := false
|}.
(** The prover has no proof of request 8. *)
Definition sample_service : ServiceApi := {|
  getBlockNumber _ := Ok 122;
  contextBlockNumber _ := Ok 122;
  getServiceRequest _ _ := Ok service_request;
  blockhashes _ _ := Ok ZERO_BLOCKHASH;
  populateStore _ _ := Ok RelayerSafety.sample_request;
  providerRequest _ _ _ := Ok service_request;
  providerSeed _ _ _ := Ok 77;
  prove _ _ _ id := if id =? 7 then Ok {| proofData := Some []; proof := VNull; output := 9 |}
                    else Throw "threshold unavailable";
  populateFulfill _ _ _ := Ok RelayerSafety.sample_request
|}.
(** Every transaction is mined at once. *)
Definition mining_network : Network := {|
  time_at n := 1000 + Z.of_nat n;
  estimateGas _ _ := Ok 100000;
  getFeeData _ := Ok (Some 100, None);
  getNonce _ _ := Ok 7;
  populateTransaction _ _ := Ok tt;
  sign_transaction p := [byte_of (po_nonce p); byte_of (po_gasPrice p)];
  broadcastTransaction n b := Ok (@keccak256 sample_ethers b);
  wait_for _ h _ := Mined {| rc_hash := h; rc_blockHash := "0xb1"; rc_status := 1; rc_blockNumber := 123 |};
  lease_alive _ := true;
  getTransactionReceipt _ _ _ := Ok None;
  getTransaction _ _ _ := Ok false;
  latestCount _ _ _ := Ok 7;
  pendingCount _ _ _ := Ok (VStr "0x7")
|}.
Definition sample_options : service_options := {|
  sv_instanceId := "a"; sv_relayer := "0xae"; sv_keyHash := "0xf0"; sv_identity := sample_operator;
  sv_rpcProviders := ["0"; "1"]; sv_blockRange := 2000; sv_reorgLookback := 32;
  sv_eventConfirmations := 2; sv_scanLeaseSeconds := 60; sv_requestLeaseSeconds := 360;
  sv_workLimit := 2; sv_replacementMs := 45000; sv_replacementAttempts := 3;
  sv_archiveAfterBlocks := 128 |}.
Definition sample_world : relay_world :=
  {| store := sample_database; broadcasts := []; calls := 0; lost := false |}.
Definition sample_work : eff relay_world unit :=
  @work sample_ethers mining_network sample_service sample_options 122 2.
Definition row_summary (x : operator_key * Z * request_row) : Z * Z * option string :=
  (x.1.2, attempts x.2, last_error x.2).

Lemma sample_world_ready :
  no_lease sample_options (requests (store sample_world)) ∧ readable_rows (requests (store sample_world)).
Proof.
  assert (bool_decide (map_Forall (λ (_ : operator_key * Z) row,
    lease_owner row ≠ Some "a" ∧ (0 <= event_block_number row ∧ event_block_number row <= MAX_SAFE_INTEGER) ∧
    0 <= attempts row) (requests (store sample_world))) = true) as Hall%bool_decide_eq_true
    by (vm_compute; reflexivity).
  split; intros kr row Hrow; destruct (Hall kr row Hrow) as (? & ? & ?); [assumption|by split].
Qed.

