(* ===== verification/Ecvrf.v ===== *)
(** * The elliptic-curve VRF ([proof.mjs])

    Proof generation on secp256k1.  noble-curves, the hash functions and the ABI
    encoder are parameters; the arithmetic modulo the field and the group order is
    that of the code, on integers.  The two primes come with the curve. *)

From S2P Require Import Prelude Js Hex Vendor ScalarField.

Open Scope Z_scope.

(** noble's [secp256k1.ProjectivePoint], with the primes of the curve.  [p_mul] is
    the multiple of a point, for any integer; [multiply] throws out of range. *)
Class Secp256k1 := {
  FIELD_SIZE : Z;
  GROUP_ORDER : Z;
  point : Type;
  BASE : point;
  p_add : point → point → point;
  p_mul : Z → point → point;
  multiply : Z → point → result point;
  toAffine : point → Z * Z;
  fromAffine : Z * Z → result point
}.
(** The primes of secp256k1.  The definitions below take the two from the class: the
    theorems hold for every curve [y^2 = x^3 + 7] of that kind, and small ones can be
    computed with. *)
Definition SECP256K1_FIELD_SIZE : Z := 0xFFFFFFFFFFFFFFFFFFFFFFFFFFFFFFFFFFFFFFFFFFFFFFFFFFFFFFFEFFFFFC2F.
Definition SECP256K1_GROUP_ORDER : Z := 0xFFFFFFFFFFFFFFFFFFFFFFFFFFFFFFFEBAAEDCE6AF48A03BBFD25E8CD0364141.

(** node's [createHmac("sha256", key).update(input)]. *)
Class HmacApi := { hmac_sha256 : bytes → bytes → bytes }.

(** ** Integers *)

Definition mod_ (value modulus : Z) : Z :=
  let r := Z.rem value modulus in if 0 <=? r then r else r + modulus.

(** The loop of [modPow]; an exponent of [n] bits needs fuel [n]. *)
Fixpoint modPow_loop (fuel : nat) (result x power modulus : Z) : option Z :=
  if 0 <? power then
    match fuel with
    | O => None
    | S fuel =>
        let result := if Z.odd power then Z.rem (result * x) modulus else result in
        modPow_loop fuel result (Z.rem (x * x) modulus) (Z.shiftr power 1) modulus
    end
  else Some result.
Definition modPow_fuel (exponent : Z) : nat := Z.to_nat (Z.log2_up (exponent + 1)).
Definition modPow (base exponent modulus : Z) : Z :=
  default 0 (modPow_loop (modPow_fuel exponent) 1 (mod_ base modulus) exponent modulus).

(** The loop of [modInverse]: the last non-zero remainder and its coefficient. *)
Fixpoint inverse_loop (fuel : nat) (oldR r oldS s : Z) : option (Z * Z) :=
  if r =? 0 then Some (oldR, oldS)
  else
    match fuel with
    | O => None
    | S fuel =>
        let quotient := oldR `quot` r in
        inverse_loop fuel r (oldR - quotient * r) s (oldS - quotient * s)
    end.
Definition inverse_fuel (modulus : Z) : nat := Z.to_nat (2 * Z.log2_up modulus + 4).
Definition modInverse (value modulus : Z) : result Z :=
  '(r, s) ← from_option_or "fuel" (inverse_loop (inverse_fuel modulus) (mod_ value modulus) modulus 1 0);
  _ ← require (r =? 1) "value has no modular inverse";
  Ok (mod_ s modulus).

(** ** Bytes *)

(** [getBytes(zeroPadValue(toBeHex(value), 32))], for [0 <= value < 2^256]. *)
Definition word (value : Z) : bytes :=
  (λ i, char_of (Z.shiftr value (8 * (31 - i)) mod 256)) <$> seqZ 0 32.

Section ecvrf.
Context `{Ethers, Secp256k1, HmacApi}.

Definition coordinate_bytes (p : Z * Z) : bytes := word p.1 ++ word p.2.
Definition pointBytes (p : point) : bytes := coordinate_bytes (toAffine p).

Definition hashBig (b : bytes) : Z := default 0 (string_to_bigint (keccak256 b)).

(** The [while] loops that hash until a value is found end when the hash chain
    meets one; [None] when the fuel runs out before. *)
Fixpoint below_field (fuel : nat) (v : Z) : option Z :=
  if FIELD_SIZE <=? v then
    match fuel with O => None | S fuel => below_field fuel (hashBig (word v)) end
  else Some v.
Definition fieldHash (fuel : nat) (b : bytes) : option Z := below_field fuel (hashBig b).

Definition ySquared (x : Z) : Z := mod_ (x * x * x + 7) FIELD_SIZE.
Definition isSquare (v : Z) : bool :=
  if v =? 0 then true else modPow v ((FIELD_SIZE - 1) `quot` 2) FIELD_SIZE =? 1.

Fixpoint square_x (fuel : nat) (x : Z) : option Z :=
  if isSquare (ySquared x) then Some x
  else match fuel with O => None | S fuel' => x' ← fieldHash fuel (word x); square_x fuel' x' end.

Definition evenY (x : Z) : Z :=
  let y := modPow (ySquared x) ((FIELD_SIZE + 1) `quot` 4) FIELD_SIZE in
  if Z.odd y then FIELD_SIZE - y else y.

Definition hashToCurve (fuel : nat) (publicKey : point) (seed : Z) : option (result point) :=
  x ← fieldHash fuel (word 1 ++ pointBytes publicKey ++ word seed);
  x ← square_x fuel x;
  Some (fromAffine (x, evenY x)).

(** [`0x${digest.slice(-40)}`] *)
Definition last40 (s : string) : string := of_chars (drop (length (chars s) - 40) (chars s)).
Definition coordinate_address (p : Z * Z) : string :=
  "0x" +:+ last40 (keccak256 (coordinate_bytes p)).
Definition ethereumAddress (p : point) : string := coordinate_address (toAffine p).

Definition address_bytes (a : string) : bytes := default [] (getBytes a).
Definition scalarFromCurvePoints (hash publicKey gamma : point) (uWitness : string) (v : point) : Z :=
  hashBig (word 2 ++ pointBytes hash ++ pointBytes publicKey ++ pointBytes gamma ++ pointBytes v
           ++ address_bytes uWitness).

(** ** The sum of two points in projective coordinates *)

Definition projectiveSub (x1 z1 x2 z2 : Z) : Z * Z :=
  let numerator1 := mod_ (z2 * x1) FIELD_SIZE in
  let numerator2 := mod_ ((FIELD_SIZE - x2) * z1) FIELD_SIZE in
  (mod_ (numerator1 + numerator2) FIELD_SIZE, mod_ (z1 * z2) FIELD_SIZE).
Definition projectiveMul (x1 z1 x2 z2 : Z) : Z * Z :=
  (mod_ (x1 * x2) FIELD_SIZE, mod_ (z1 * z2) FIELD_SIZE).
Definition projectiveECAdd_coordinates (p q : Z * Z) : Z * Z * Z :=
  let '(px, py) := p in
  let '(qx, qy) := q in
  let lx := mod_ (qy - py) FIELD_SIZE in
  let lz := mod_ (qx - px) FIELD_SIZE in
  let '(sx, dx) := projectiveMul lx lz lx lz in
  let '(sx, dx) := projectiveSub sx dx px 1 in
  let '(sx, dx) := projectiveSub sx dx qx 1 in
  let '(sy, dy) := projectiveSub px 1 sx dx in
  let '(sy, dy) := projectiveMul sy dy lx lz in
  let '(sy, dy) := projectiveSub sy dy py 1 in
  if dx =? dy then (sx, sy, dx)
  else (mod_ (sx * dy) FIELD_SIZE, mod_ (sy * dx) FIELD_SIZE, mod_ (dx * dy) FIELD_SIZE).
Definition projectiveECAdd (first second : point) : Z * Z * Z :=
  projectiveECAdd_coordinates (toAffine first) (toAffine second).

(** ** Keys and outputs *)

Definition NONCE_DOMAIN : bytes := chars "ROBINHOOD_ECVRF_PROOF_NONCE_V1".
Definition big_endian (b : bytes) : Z := foldl (λ n c, 256 * n + code c) 0 b.
Definition deterministicScalar (privateKey seed attempt : Z) : Z :=
  big_endian (hmac_sha256 (word privateKey) (NONCE_DOMAIN ++ word seed ++ word attempt)).

Definition valid_secret (secret : Z) : bool := negb ((secret <=? 0) || (GROUP_ORDER <=? secret)).
Definition publicKeyFor (secret : Z) : result (Z * Z) :=
  _ ← require (valid_secret secret) "invalid VRF private key";
  p ← multiply secret BASE; Ok (toAffine p).

Definition coordinates_value (p : Z * Z) : value := VArr [VBig p.1; VBig p.2].
Definition SERVICE_SCHEME_ID : string := keccak256 (toUtf8Bytes "SECP256K1_ECVRF_V1").
Definition publicKeyHash (publicKey : Z * Z) : string :=
  keccak256 (abi_encode ["uint256[2]"] [coordinates_value publicKey]).
Definition serviceKeyHash (publicKey : Z * Z) : string :=
  keccak256 (abi_encode ["bytes32"; "uint256[2]"] [VStr SERVICE_SCHEME_ID; coordinates_value publicKey]).

(** [BigInt] of two coordinates given in an array. *)
Definition array_point (v : value) (message : string) : result (Z * Z) :=
  match v with
  | VArr [x; y] => x ← to_bigint x; y ← to_bigint y; Ok (x, y)
  | _ => Throw message
  end.
Definition addressForPublicKey (publicKey : value) : result string :=
  c ← array_point publicKey "public key must contain x and y coordinates";
  p ← fromAffine c; Ok (ethereumAddress p).
Definition outputForProof (proof : value) : result Z :=
  c ← array_point (prop_opt proof "gamma") "proof gamma must contain x and y coordinates";
  gamma ← fromAffine c; Ok (hashBig (word 3 ++ pointBytes gamma)).

(** ** Proofs *)

Record vrf_proof := {
  pk : Z * Z; gamma : Z * Z; c : Z; s : Z; seed : Z; uWitness : string;
  cGammaWitness : Z * Z; sHashWitness : Z * Z; zInv : Z
}.
Record generated := {
  g_proof : vrf_proof; g_output : Z; g_publicKey : Z * Z; g_keyHash : string; g_serviceKeyHash : string
}.

(** What one attempt with a nonce in range ends with. *)
Inductive attempt_result := Generated (g : generated) | Retry (message : string).

Definition attempt (secret wireSeed proofNonce : Z) (publicKeyPoint hash gammaPoint : point)
    : result attempt_result :=
  u ← multiply proofNonce BASE;
  let uWitness := ethereumAddress u in
  v ← multiply proofNonce hash;
  let c := scalarFromCurvePoints hash publicKeyPoint gammaPoint uWitness v in
  let s := mod_ (proofNonce - mod_ (c * secret) GROUP_ORDER) GROUP_ORDER in
  if (c =? 0) || (s =? 0) then Ok (Retry "deterministic nonce produced a zero proof scalar")
  else
    cGammaPoint ← multiply (mod_ c GROUP_ORDER) gammaPoint;
    sHashPoint ← multiply s hash;
    if (toAffine cGammaPoint).1 =? (toAffine sHashPoint).1
    then Ok (Retry "deterministic nonce produced equal witnesses")
    else
      let '(_, _, z) := projectiveECAdd cGammaPoint sHashPoint in
      zInv ← modInverse z FIELD_SIZE;
      let publicKey := toAffine publicKeyPoint in
      Ok (Generated {|
        g_proof := {| pk := publicKey; gamma := toAffine gammaPoint; c := c; s := s; seed := wireSeed;
                      uWitness := uWitness; cGammaWitness := toAffine cGammaPoint;
                      sHashWitness := toAffine sHashPoint; zInv := zInv |};
        g_output := hashBig (word 3 ++ pointBytes gammaPoint);
        g_publicKey := publicKey; g_keyHash := publicKeyHash publicKey;
        g_serviceKeyHash := serviceKeyHash publicKey |}).

(** The attempts from [n] on; a nonce of the caller is tried once. *)
Fixpoint attempts_from (fuel : nat) (nonce : option Z) (secret seed wireSeed n : Z)
    (publicKeyPoint hash gammaPoint : point) : option (result generated) :=
  match fuel with
  | O => None
  | S fuel =>
      let again message :=
        match nonce with
        | Some _ => Some (Throw message)
        | None => attempts_from fuel nonce secret seed wireSeed (n + 1) publicKeyPoint hash gammaPoint
        end in
      let proofNonce := default (deterministicScalar secret seed n) nonce in
      if (proofNonce <=? 0) || (GROUP_ORDER <=? proofNonce) then again "invalid proof nonce"
      else
        match attempt secret wireSeed proofNonce publicKeyPoint hash gammaPoint with
        | Ok (Generated g) => Some (Ok g)
        | Ok (Retry message) => again message
        | Throw e => Some (Throw e)
        end
  end.

Definition is_uint256 (n : Z) : bool := negb ((n <? 0) || (Z.shiftl 1 256 <=? n)).

Definition generateProof (fuel : nat) (secret seed wireSeed : Z) (nonce : option Z)
    : option (result generated) :=
  let checks :=
    _ ← require (valid_secret secret) "invalid VRF private key";
    _ ← require (is_uint256 seed) "actual seed is not uint256";
    _ ← require (is_uint256 wireSeed) "pre-seed is not uint256";
    multiply secret BASE in
  match checks with
  | Throw e => Some (Throw e)
  | Ok publicKeyPoint =>
      hash ← hashToCurve fuel publicKeyPoint seed;
      match (h ← hash; g ← multiply secret h; Ok (h, g)) with
      | Throw e => Some (Throw e)
      | Ok (hash, gammaPoint) =>
          attempts_from fuel nonce secret seed wireSeed 0 publicKeyPoint hash gammaPoint
      end
  end.
End ecvrf.
