(* ===== verification/VrfContract.v ===== *)
(** * The verifier of the contracts ([VRF.sol], [Secp256k1ECVRFVerifier.sol])

    What the coordinator checks of a proof on the chain, as the library it uses
    computes it.  The two precompiles of the EVM are parameters: [ecrecover], and
    modular exponentiation, which is the power it computes.  A function that
    reverts throws; the loops that hash until a value is found take fuel. *)

From S2P Require Import Prelude Js Hex Vendor ScalarField Ecvrf.

Open Scope Z_scope.

(** [ecrecover(hash, v, r, s)]: an address as a hex string, [None] for zero. *)
Class Evm := { ecrecover : Z → Z → Z → Z → option string }.

Section contract.
Context `{Ethers, Secp256k1, Evm}.

Definition mulmod (a b m : Z) : Z := (a * b) mod m.
Definition addmod (a b m : Z) : Z := (a + b) mod m.
Definition _bigModExp (base exponent : Z) : Z := base ^ exponent mod FIELD_SIZE.

Definition _ySquared (x : Z) : Z :=
  addmod (mulmod x (mulmod x x FIELD_SIZE) FIELD_SIZE) 7 FIELD_SIZE.
Definition _isOnCurve (p : Z * Z) : result bool :=
  _ ← require (p.1 <? FIELD_SIZE) "invalid x-ordinate";
  _ ← require (p.2 <? FIELD_SIZE) "invalid y-ordinate";
  Ok (_ySquared p.1 =? mulmod p.2 p.2 FIELD_SIZE).

Fixpoint _below_field (fuel : nat) (x : Z) : option Z :=
  if FIELD_SIZE <=? x then
    match fuel with O => None | S fuel => _below_field fuel (hashBig (word x)) end
  else Some x.
Definition _fieldHash (fuel : nat) (b : bytes) : option Z := _below_field fuel (hashBig b).

Definition _squareRoot (x : Z) : Z := _bigModExp x (Z.shiftr (FIELD_SIZE + 1) 2).
Definition _newCandidateSecp256k1Point (fuel : nat) (b : bytes) : option (Z * Z) :=
  x ← _fieldHash fuel b;
  let y := _squareRoot (_ySquared x) in
  Some (x, if y mod 2 =? 1 then FIELD_SIZE - y else y).

Fixpoint _until_on_curve (fuel : nat) (p : Z * Z) : option (result (Z * Z)) :=
  match _isOnCurve p with
  | Throw e => Some (Throw e)
  | Ok true => Some (Ok p)
  | Ok false =>
      match fuel with
      | O => None
      | S fuel' => p' ← _newCandidateSecp256k1Point fuel (word p.1); _until_on_curve fuel' p'
      end
  end.
Definition _hashToCurve (fuel : nat) (pk : Z * Z) (input : Z) : option (result (Z * Z)) :=
  p ← _newCandidateSecp256k1Point fuel (word 1 ++ coordinate_bytes pk ++ word input);
  _until_on_curve fuel p.

Definition ZERO_ADDRESS : string := "0x" +:+ of_chars (replicate 40 "0"%char).
(** [v] tells the parity of the second coordinate. *)
Definition parity_v (y : Z) : Z := if y mod 2 =? 0 then 27 else 28.

Definition _ecmulVerify (multiplicand : Z * Z) (scalar : Z) (product : Z * Z) : result bool :=
  _ ← require (negb (scalar =? 0)) "zero scalar";
  let x := multiplicand.1 in
  let actual := ecrecover 0 (parity_v multiplicand.2) x (mulmod scalar x GROUP_ORDER) in
  Ok (bool_decide (default ZERO_ADDRESS actual = coordinate_address product)).

Definition _projectiveSub (x1 z1 x2 z2 : Z) : Z * Z :=
  let num1 := mulmod z2 x1 FIELD_SIZE in
  let num2 := mulmod (FIELD_SIZE - x2) z1 FIELD_SIZE in
  (addmod num1 num2 FIELD_SIZE, mulmod z1 z2 FIELD_SIZE).
Definition _projectiveMul (x1 z1 x2 z2 : Z) : Z * Z :=
  (mulmod x1 x2 FIELD_SIZE, mulmod z1 z2 FIELD_SIZE).
Definition _projectiveECAdd (px py qx qy : Z) : Z * Z * Z :=
  let lx := addmod qy (FIELD_SIZE - py) FIELD_SIZE in
  let lz := addmod qx (FIELD_SIZE - px) FIELD_SIZE in
  let '(sx, dx) := _projectiveMul lx lz lx lz in
  let '(sx, dx) := _projectiveSub sx dx px 1 in
  let '(sx, dx) := _projectiveSub sx dx qx 1 in
  let '(sy, dy) := _projectiveSub px 1 sx dx in
  let '(sy, dy) := _projectiveMul sy dy lx lz in
  let '(sy, dy) := _projectiveSub sy dy py 1 in
  if dx =? dy then (sx, sy, dx)
  else (mulmod sx dy FIELD_SIZE, mulmod sy dx FIELD_SIZE, mulmod dx dy FIELD_SIZE).
Definition _affineECAdd (p1 p2 : Z * Z) (invZ : Z) : result (Z * Z) :=
  let '(x, y, z) := _projectiveECAdd p1.1 p1.2 p2.1 p2.2 in
  _ ← require (mulmod z invZ FIELD_SIZE =? 1) "invZ must be inverse of z";
  Ok (mulmod x invZ FIELD_SIZE, mulmod y invZ FIELD_SIZE).

Definition _verifyLinearCombinationWithGenerator (c : Z) (p : Z * Z) (s : Z) (lcWitness : string)
    : result bool :=
  _ ← require (negb (bool_decide (lcWitness = ZERO_ADDRESS))) "bad witness";
  let pseudoHash := GROUP_ORDER - mulmod p.1 s GROUP_ORDER in
  let pseudoSignature := mulmod c p.1 GROUP_ORDER in
  let computed := ecrecover pseudoHash (parity_v p.2) p.1 pseudoSignature in
  Ok (bool_decide (default ZERO_ADDRESS computed = lcWitness)).

Definition _linearCombination (c : Z) (p1 cp1Witness : Z * Z) (s : Z) (p2 sp2Witness : Z * Z) (zInv : Z)
    : result (Z * Z) :=
  _ ← require (negb (cp1Witness.1 mod FIELD_SIZE =? sp2Witness.1 mod FIELD_SIZE))
        "points in sum must be distinct";
  first ← _ecmulVerify p1 c cp1Witness;
  _ ← require first "First mul check failed";
  second ← _ecmulVerify p2 s sp2Witness;
  _ ← require second "Second mul check failed";
  _affineECAdd cp1Witness sp2Witness zInv.

Definition _scalarFromCurvePoints (hash pk gamma : Z * Z) (uWitness : string) (v : Z * Z) : Z :=
  hashBig (word 2 ++ coordinate_bytes hash ++ coordinate_bytes pk ++ coordinate_bytes gamma
           ++ coordinate_bytes v ++ address_bytes uWitness).

Definition check_on_curve (p : Z * Z) (message : string) : result unit :=
  b ← _isOnCurve p; require b message.

Definition _verifyVRFProof (fuel : nat) (p : vrf_proof) (actualSeed : Z) : option (result unit) :=
  let points :=
    _ ← check_on_curve (pk p) "public key is not on curve";
    _ ← check_on_curve (gamma p) "gamma is not on curve";
    _ ← check_on_curve (cGammaWitness p) "cGammaWitness is not on curve";
    _ ← check_on_curve (sHashWitness p) "sHashWitness is not on curve";
    b ← _verifyLinearCombinationWithGenerator (c p) (pk p) (s p) (uWitness p);
    require b "addr(c*pk+s*g)!=_uWitness" in
  match points with
  | Throw e => Some (Throw e)
  | Ok _ =>
      hash ← _hashToCurve fuel (pk p) actualSeed;
      Some (hash ← hash;
            v ← _linearCombination (c p) (gamma p) (cGammaWitness p) (s p) hash (sHashWitness p) (zInv p);
            require (c p =? _scalarFromCurvePoints hash (pk p) (gamma p) (uWitness p) v) "invalid proof")
  end.

(** [verify] of the adapter, on a decoded proof. *)
Definition verify (fuel : nat) (expectedKeyHash : string) (actualSeed expectedPreSeed : Z) (p : vrf_proof)
    : option (result Z) :=
  if negb (seed p =? expectedPreSeed) then Some (Throw "InvalidPreSeed")
  else if negb (bool_decide (serviceKeyHash (pk p) = expectedKeyHash))
  then Some (Throw "InvalidKeyCommitment")
  else
    checked ← _verifyVRFProof fuel p actualSeed;
    Some (_ ← checked; Ok (hashBig (word 3 ++ coordinate_bytes (gamma p)))).
End contract.
