(* ===== verification/EcvrfMath.v ===== *)
(** * Arithmetic of the elliptic-curve VRF

    The modular power and inverse of [proof.mjs], square roots in the field, and
    the affine sum that the projective formula of [proof.mjs] and of [VRF.sol]
    computes. *)

From S2P Require Import Prelude Js Hex Vendor ScalarField Ecvrf VrfContract.
From Stdlib Require Import Zdiv Znumtheory.

Open Scope Z_scope.

Lemma mod_spec a m : 0 < m → mod_ a m = a mod m.
Proof.
  intros Hm. unfold mod_. pose proof (Z.quot_rem a m ltac:(lia)) as E.
  pose proof (Z.rem_bound_abs a m ltac:(lia)) as Hb.
  destruct (Z.leb_spec 0 (Z.rem a m)).
  - apply (Z.mod_unique _ _ (a ÷ m)); lia.
  - apply (Z.mod_unique _ _ (a ÷ m - 1)); lia.
Qed.

(** ** Powers *)

Lemma modPow_loop_spec fuel result x power m :
  1 < m → 0 <= result < m → 0 <= x → 0 <= power < 2 ^ Z.of_nat fuel →
  modPow_loop fuel result x power m = Some ((result * x ^ power) mod m).
Proof.
  intros Hm. revert result x power. induction fuel as [|fuel IH]; intros result x power Hr Hx Hp; cbn [modPow_loop].
  - assert (power = 0) as -> by (cbn in Hp; lia). cbn. by rewrite Z.mul_1_r, Z.mod_small.
  - destruct (Z.ltb_spec 0 power) as [Hpos|]; [|assert (power = 0) as -> by lia; by rewrite Z.mul_1_r, Z.mod_small].
    rewrite Nat2Z.inj_succ, Z.pow_succ_r in Hp by lia.
    rewrite !Z.rem_mod_nonneg by nia. rewrite (Z.shiftr_div_pow2 power 1) by lia. change (2 ^ 1) with 2.
    assert (0 <= power / 2 < 2 ^ Z.of_nat fuel) as Hhalf
      by (split; [apply Z.div_pos; lia|apply Z.div_lt_upper_bound; lia]).
    assert (x ^ power = (if Z.odd power then x else 1) * (x * x) ^ (power / 2)) as Epow.
    { rewrite <-Z.pow_2_r, <-Z.pow_mul_r by lia. pose proof (Z.div_mod power 2 ltac:(lia)) as E.
      rewrite Zmod_odd in E. destruct (Z.odd power).
      - rewrite E at 1. by rewrite Z.pow_add_r, Z.pow_1_r, Z.mul_comm by lia.
      - rewrite E at 1. by rewrite Z.add_0_r, Z.mul_1_l. }
    pose proof (Z.mod_pos_bound (x * x) m ltac:(lia)).
    destruct (Z.odd power).
    + rewrite IH; [|apply Z.mod_pos_bound; lia|lia|done]. f_equal.
      rewrite Epow, Zmult_mod_idemp_l, Z.mul_assoc.
      by rewrite <-Zmult_mod_idemp_r, Z.mod_pow_l, Zmult_mod_idemp_r.
    + rewrite IH; [|lia..]. f_equal. rewrite Epow, Z.mul_1_l.
      by rewrite <-Zmult_mod_idemp_r, Z.mod_pow_l, Zmult_mod_idemp_r.
Qed.

(** The power is the power. *)
Lemma modPow_spec b e m : 1 < m → 0 <= e → modPow b e m = b ^ e mod m.
Proof.
  intros Hm He. unfold modPow. rewrite mod_spec by lia. pose proof (Z.mod_pos_bound b m ltac:(lia)).
  rewrite modPow_loop_spec; [|lia..|].
  - cbn [default]. by rewrite Z.mul_1_l, Z.mod_pow_l.
  - unfold modPow_fuel. rewrite Z2Nat.id by apply Z.log2_up_nonneg.
    destruct (decide (e = 0)) as [->|]; [done|]. pose proof (Z.log2_up_spec (e + 1) ltac:(lia)). lia.
Qed.

(** ** Inverses *)

Lemma inverse_loop_total fuel oldR r oldS s :
  0 <= r < oldR → Z.log2 (oldR * r) + 2 <= Z.of_nat fuel →
  ∃ x, inverse_loop fuel oldR r oldS s = Some x.
Proof.
  revert oldR r oldS s. induction fuel as [|fuel IH]; intros oldR r oldS s Hr Hf.
  { pose proof (Z.log2_nonneg (oldR * r)). lia. }
  cbn [inverse_loop]. destruct (Z.eqb_spec r 0); [eauto|].
  rewrite Z.quot_div_nonneg by lia. replace (oldR - oldR / r * r) with (oldR mod r)
    by (rewrite Z.mod_eq; lia).
  pose proof (Z.mod_pos_bound oldR r ltac:(lia)) as Hb. apply IH; [lia|].
  destruct (decide (oldR mod r = 0)) as [->|Hne].
  - rewrite Z.mul_0_r. cbn. pose proof (Z.log2_nonneg (oldR * r)).
    assert (2 <= Z.of_nat fuel); [|lia].
    assert (1 <= Z.log2 (oldR * r)); [|lia]. apply (Z.log2_le_mono 2). nia.
  - assert (2 * (r * (oldR mod r)) < oldR * r) as Hhalf.
    { pose proof (euclid_halves r oldR ltac:(lia) ltac:(lia)). lia. }
    pose proof (Z.log2_double (r * (oldR mod r)) ltac:(nia)) as E.
    pose proof (Z.log2_le_mono (2 * (r * (oldR mod r))) (oldR * r) ltac:(lia)). lia.
Qed.

Lemma inverse_loop_spec m v fuel oldR r oldS s g t :
  (oldS * v) mod m = oldR mod m → (s * v) mod m = r mod m →
  inverse_loop fuel oldR r oldS s = Some (g, t) → (t * v) mod m = g mod m.
Proof.
  revert oldR r oldS s. induction fuel as [|fuel IH]; intros oldR r oldS s Ho Hs; cbn [inverse_loop];
    destruct (r =? 0); try (intros [= <- <-]; done).
  apply IH; [done|]. rewrite Z.mul_sub_distr_r, Zminus_mod, Ho, <-Z.mul_assoc.
  by rewrite <-(Zmult_mod_idemp_r (s * v)), Hs, Zmult_mod_idemp_r, <-Zminus_mod.
Qed.

Lemma modInverse_Ok v m i :
  1 < m → modInverse v m = Ok i → (v * i) mod m = 1 ∧ 0 <= i < m.
Proof.
  intros Hm Hi. unfold modInverse in Hi. apply bind_Ok in Hi as ([r t] & Hl%from_option_or_Ok & Hi).
  apply bind_Ok in Hi as (? & ->%require_Ok%Z.eqb_eq & [= <-]).
  rewrite mod_spec in * by lia. split; [|apply Z.mod_pos_bound; lia].
  apply (inverse_loop_spec m v) in Hl.
  - by rewrite Zmult_mod_idemp_r, Z.mul_comm, Hl, Z.mod_small by lia.
  - by rewrite Z.mul_1_l, Zmod_mod.
  - rewrite Z.mul_0_l, Z.mod_same, Z.mod_0_l; lia.
Qed.

Lemma inverse_loop_gcd fuel oldR r oldS s g t :
  0 <= oldR → 0 <= r → inverse_loop fuel oldR r oldS s = Some (g, t) → g = Z.gcd oldR r.
Proof.
  revert oldR r oldS s. induction fuel as [|fuel IH]; intros oldR r oldS s Ho Hr; cbn [inverse_loop];
    destruct (Z.eqb_spec r 0) as [->|Hne]; try done;
    try (intros [= <- _]; rewrite Z.gcd_0_r; lia).
  rewrite Z.quot_div_nonneg by lia. replace (oldR - oldR / r * r) with (oldR mod r)
    by (rewrite Z.mod_eq; lia).
  pose proof (Z.mod_pos_bound oldR r ltac:(lia)). intros E%IH; [|lia..].
  by rewrite E, Z.gcd_comm, Z.gcd_mod, Z.gcd_comm by lia.
Qed.

(** The loop ends, and throws exactly on what has no inverse. *)
Lemma modInverse_total v m :
  1 < m → (Z.gcd v m = 1 → ∃ i, modInverse v m = Ok i) ∧
          (Z.gcd v m ≠ 1 → modInverse v m = Throw "value has no modular inverse").
Proof.
  intros Hm. unfold modInverse. rewrite mod_spec by lia.
  pose proof (Z.mod_pos_bound v m ltac:(lia)) as Hv.
  assert (∃ x, inverse_loop (inverse_fuel m) (v mod m) m 1 0 = Some x) as [[g t] Hl].
  { unfold inverse_fuel. pose proof (Z.log2_up_nonneg m).
    replace (Z.to_nat (2 * Z.log2_up m + 4)) with (S (Z.to_nat (2 * Z.log2_up m + 3))) by lia.
    cbn [inverse_loop]. destruct (Z.eqb_spec m 0); [lia|].
    rewrite Z.quot_div_nonneg, Z.div_small by lia. rewrite Z.mul_0_l, Z.sub_0_r.
    apply inverse_loop_total; [lia|].
    assert (Z.log2 (m * (v mod m)) <= 2 * Z.log2_up m); [|lia].
    destruct (decide (v mod m = 0)) as [->|]; [rewrite Z.mul_0_r; cbn; lia|].
    pose proof (Z.log2_up_spec m ltac:(lia)) as [_ Hup].
    transitivity (Z.log2 (2 ^ Z.log2_up m * 2 ^ Z.log2_up m)); [apply Z.log2_le_mono; nia|].
    rewrite <-Z.pow_add_r, Z.log2_pow2 by lia. lia. }
  rewrite Hl. cbn [from_option_or mbind result_bind].
  apply inverse_loop_gcd in Hl; [|lia..]. rewrite Z.gcd_mod, Z.gcd_comm in Hl by lia. subst g. split.
  - intros ->. cbn. eauto.
  - intros Hg. destruct (Z.eqb_spec (Z.gcd v m) 1); [done|]. done.
Qed.

(** C21: the extended Euclidean loop of [modInverse] always ends, in a number of
    rounds that its fuel (twice the bits of the modulus) covers, and it is exact:
    it returns [i] if and only if [i] is the inverse of the value, reduced, and it
    throws if and only if there is none. *)
Theorem modInverse_exact v m :
  1 < m →
  (∀ i, modInverse v m = Ok i ↔ 0 <= i < m ∧ (v * i) mod m = 1) ∧
  (∀ e, modInverse v m = Throw e ↔ e = "value has no modular inverse" ∧ ∀ i, (v * i) mod m ≠ 1).
Proof.
  intros Hm. destruct (modInverse_total v m Hm) as [Hok Hthrow].
  assert (∀ i, (v * i) mod m = 1 → Z.gcd v m = 1) as Hgcd.
  { intros i Hi. apply Z.bezout_1_gcd. exists i, (- (v * i / m)).
    pose proof (Z.div_mod (v * i) m ltac:(lia)) as E. rewrite Hi in E. nia. }
  destruct (decide (Z.gcd v m = 1)) as [Hg|Hg].
  - destruct (Hok Hg) as [i Hi]. rewrite Hi. destruct (modInverse_Ok _ _ _ Hm Hi) as [Hvi Hr]. split.
    + intros j. split; [by intros [= <-]|]. intros [Hj Hvj]. f_equal.
      rewrite <-(Z.mod_small i m), <-(Z.mod_small j m), <-(Z.mul_1_l i), <-(Z.mul_1_l j) by lia.
      rewrite <-Hvj at 1. rewrite <-Hvi. rewrite !Zmult_mod_idemp_l. f_equal. ring.
    + intros e. split; [done|]. intros [_ Hno]. by destruct (Hno i).
  - rewrite (Hthrow Hg). split.
    + intros i. split; [done|]. intros [_ Hi%Hgcd]. done.
    + intros e. split; [intros [= <-]; split; [done|]; by intros i Hi%Hgcd|by intros [-> _]].
Qed.
Lemma modInverse_exact_witness :
  modInverse 5 67 = Ok 27 ∧ modInverse 134 67 = Throw "value has no modular inverse".
Proof.
  split.
  - apply (modInverse_exact 5 67); [lia|]. split; [lia|reflexivity].
  - apply (modInverse_exact 134 67); [lia|]. split; [reflexivity|].
    intros i. replace (134 * i) with (i * 2 * 67) by ring. by rewrite Z.mod_mul.
Defined.

(** The numbers of secp256k1 are odd, of the size of a word, and the field has the
    square roots that one power computes. *)
Lemma secp256k1_numbers :
  SECP256K1_FIELD_SIZE mod 4 = 3 ∧ Z.odd SECP256K1_GROUP_ORDER = true ∧
  0 < SECP256K1_GROUP_ORDER < SECP256K1_FIELD_SIZE ∧ SECP256K1_FIELD_SIZE < 2 ^ 256.
Proof. by vm_compute. Qed.

(** ** The curve *)

(** A group of prime order, of the points [y^2 = x^3 + 7] over a prime field and a
    point at infinity, with the chord rule for the sum of two points; noble's
    [multiply] takes scalars between one and the order. *)
Definition infinity `{Secp256k1} : point := p_mul 0 BASE.
Definition affine_on_curve `{Secp256k1} (p : Z * Z) : Prop :=
  (0 <= p.1 < FIELD_SIZE ∧ 0 <= p.2 < FIELD_SIZE) ∧
  (p.2 * p.2) mod FIELD_SIZE = (p.1 * p.1 * p.1 + 7) mod FIELD_SIZE.
(** [r] is on the chord through [p] and [q], reflected. *)
Definition chord_sum (m : Z) (p q r : Z * Z) : Prop :=
  ((q.1 - p.1) * (q.1 - p.1) * (r.1 + p.1 + q.1)) mod m = ((q.2 - p.2) * (q.2 - p.2)) mod m ∧
  ((q.1 - p.1) * (r.2 + p.2)) mod m = ((q.2 - p.2) * (p.1 - r.1)) mod m.

Class Secp256k1Laws `{Secp256k1} : Prop := {
  field_prime : Z.prime FIELD_SIZE;
  field_mod4 : FIELD_SIZE mod 4 = 3;
  group_prime : Z.prime GROUP_ORDER;
  p_mul_infinity k : p_mul k infinity = infinity;
  p_mul_0 P : p_mul 0 P = infinity;
  p_mul_1 P : p_mul 1 P = P;
  p_mul_mod k P : p_mul (k mod GROUP_ORDER) P = p_mul k P;
  p_mul_add a b P : p_mul (a + b) P = p_add (p_mul a P) (p_mul b P);
  p_mul_mul a b P : p_mul a (p_mul b P) = p_mul (a * b) P;
  base_finite : BASE ≠ infinity;
  multiply_in k P : 0 < k < GROUP_ORDER → multiply k P = Ok (p_mul k P);
  multiply_out k P : ¬ (0 < k < GROUP_ORDER) → ∃ e, multiply k P = Throw e;
  toAffine_on_curve P : P ≠ infinity → affine_on_curve (toAffine P);
  fromAffine_on_curve p : affine_on_curve p →
    ∃ P, fromAffine p = Ok P ∧ P ≠ infinity ∧ toAffine P = p;
  fromAffine_toAffine P : P ≠ infinity → fromAffine (toAffine P) = Ok P;
  p_add_chord P Q : P ≠ infinity → Q ≠ infinity → (toAffine P).1 ≠ (toAffine Q).1 →
    chord_sum FIELD_SIZE (toAffine P) (toAffine Q) (toAffine (p_add P Q))
}.

Section curve.
Context `{Secp256k1Laws}.

Lemma field_pos : 2 < FIELD_SIZE.
Proof.
  pose proof field_prime as [Hp _]. pose proof field_mod4 as H4.
  destruct (decide (FIELD_SIZE = 2)) as [E|]; [by rewrite E in H4|lia].
Qed.
Lemma field_pos0 : 0 < FIELD_SIZE.
Proof. pose proof field_pos. lia. Qed.
Lemma group_pos : 1 < GROUP_ORDER.
Proof. pose proof group_prime as [Hp _]. lia. Qed.

Lemma p_mul_congr a b P : a mod GROUP_ORDER = b mod GROUP_ORDER → p_mul a P = p_mul b P.
Proof. intros E. by rewrite <-(p_mul_mod a), E, p_mul_mod. Qed.

(** A scalar has an inverse modulo the order, and a finite point has that order. *)
Lemma scalar_inverse k : k mod GROUP_ORDER ≠ 0 → ∃ i, (i * k) mod GROUP_ORDER = 1.
Proof.
  intros Hk. pose proof group_pos. destruct (modInverse_total k GROUP_ORDER group_pos) as [Hinv _].
  destruct Hinv as [i Hi].
  - rewrite Z.gcd_comm. apply Z.coprime_prime_l; [apply group_prime|]. intros Hd. apply Hk.
    by apply Z.mod_divide; [lia|].
  - exists i. apply modInverse_Ok in Hi as [Hi _]; [|lia]. by rewrite Z.mul_comm.
Qed.

Lemma p_mul_finite k P : P ≠ infinity → k mod GROUP_ORDER ≠ 0 → p_mul k P ≠ infinity.
Proof.
  intros HP [i Hi]%scalar_inverse E. apply HP. pose proof group_pos.
  rewrite <-(p_mul_1 P), <-(p_mul_congr (i * k) 1), <-p_mul_mul, E by (rewrite Hi, Z.mod_small; lia).
  apply p_mul_infinity.
Qed.

Lemma multiply_Ok k P Q : multiply k P = Ok Q → 0 < k < GROUP_ORDER ∧ Q = p_mul k P.
Proof.
  intros Hm. destruct (decide (0 < k < GROUP_ORDER)) as [Hk|Hk].
  - split; [done|]. rewrite multiply_in in Hm by done. congruence.
  - destruct (multiply_out k P Hk) as [e E]. congruence.
Qed.

(** ** The projective formula *)

#[local] Existing Instance eqm_setoid.
#[local] Existing Instance Zplus_eqm.
#[local] Existing Instance Zminus_eqm.
#[local] Existing Instance Zmult_eqm.

Lemma eqm_mod_ m a : 0 < m → eqm m (mod_ a m) a.
Proof. intros Hm. rewrite mod_spec by done. apply Zmod_eqm. Qed.

Lemma eqm_complement a : eqm FIELD_SIZE (FIELD_SIZE - a) (- a).
Proof.
  unfold eqm. replace (FIELD_SIZE - a) with (- a + 1 * FIELD_SIZE) by ring. apply Z_mod_plus_full.
Qed.

Lemma projectiveSub_eqm x1 z1 x2 z2 :
  eqm FIELD_SIZE (projectiveSub x1 z1 x2 z2).1 (z2 * x1 - x2 * z1) ∧
  eqm FIELD_SIZE (projectiveSub x1 z1 x2 z2).2 (z1 * z2).
Proof.
  pose proof field_pos. unfold projectiveSub. cbn [fst snd]. rewrite !eqm_mod_ by lia. split; [|done].
  rewrite eqm_complement. replace (z2 * x1 - x2 * z1) with (z2 * x1 + - x2 * z1) by ring. done.
Qed.
Lemma projectiveMul_eqm x1 z1 x2 z2 :
  eqm FIELD_SIZE (projectiveMul x1 z1 x2 z2).1 (x1 * x2) ∧
  eqm FIELD_SIZE (projectiveMul x1 z1 x2 z2).2 (z1 * z2).
Proof. pose proof field_pos. unfold projectiveMul. cbn [fst snd]. by rewrite !eqm_mod_ by lia. Qed.

(** The projective sum is the point on the chord, times its last coordinate. *)
Lemma projectiveECAdd_chord p q r :
  chord_sum FIELD_SIZE p q r →
  let '(x, y, z) := projectiveECAdd_coordinates p q in
  eqm FIELD_SIZE x (r.1 * z) ∧ eqm FIELD_SIZE y (r.2 * z).
Proof.
  pose proof field_pos as HF. destruct p as [px py], q as [qx qy], r as [rx ry].
  unfold chord_sum. cbn [fst snd]. intros [Hx Hy].
  change (eqm FIELD_SIZE ((qx - px) * (qx - px) * (rx + px + qx)) ((qy - py) * (qy - py))) in Hx.
  change (eqm FIELD_SIZE ((qx - px) * (ry + py)) ((qy - py) * (px - rx))) in Hy.
  unfold projectiveECAdd_coordinates.
  pose proof (eqm_mod_ FIELD_SIZE (qy - py) field_pos0) as Hlx.
  pose proof (eqm_mod_ FIELD_SIZE (qx - px) field_pos0) as Hlz.
  set (lx := mod_ (qy - py) _) in *. set (lz := mod_ (qx - px) _) in *.
  destruct (projectiveMul_eqm lx lz lx lz) as [H1 H1'].
  destruct (projectiveMul lx lz lx lz) as [sx1 dx1]. cbn [fst snd] in *.
  destruct (projectiveSub_eqm sx1 dx1 px 1) as [H2 H2'].
  destruct (projectiveSub sx1 dx1 px 1) as [sx2 dx2]. cbn [fst snd] in *.
  destruct (projectiveSub_eqm sx2 dx2 qx 1) as [H3 H3'].
  destruct (projectiveSub sx2 dx2 qx 1) as [sx dx]. cbn [fst snd] in *.
  destruct (projectiveSub_eqm px 1 sx dx) as [H4 H4'].
  destruct (projectiveSub px 1 sx dx) as [sy1 dy1]. cbn [fst snd] in *.
  destruct (projectiveMul_eqm sy1 dy1 lx lz) as [H5 H5'].
  destruct (projectiveMul sy1 dy1 lx lz) as [sy2 dy2]. cbn [fst snd] in *.
  destruct (projectiveSub_eqm sy2 dy2 py 1) as [H6 H6'].
  destruct (projectiveSub sy2 dy2 py 1) as [sy dy]. cbn [fst snd] in *.
  set (a := qx - px) in *. set (b := qy - py) in *.
  assert (eqm FIELD_SIZE dx (a * a)) as Hdx.
  { rewrite H3', H2', H1', Hlz. by replace (a * a * 1 * 1) with (a * a) by ring. }
  assert (eqm FIELD_SIZE sx (rx * (a * a))) as Hsx.
  { rewrite H3, H2, H2', H1, H1', Hlx, Hlz, <-Hx.
    by replace (1 * (1 * (a * a * (rx + px + qx)) - px * (a * a)) - qx * (a * a * 1))
      with (rx * (a * a)) by ring. }
  assert (eqm FIELD_SIZE dy (a * a * a)) as Hdy.
  { rewrite H6', H5', H4', Hdx, Hlz. by replace (1 * (a * a) * a * 1) with (a * a * a) by ring. }
  assert (eqm FIELD_SIZE sy (ry * (a * a * a))) as Hsy.
  { rewrite H6, H5, H5', H4, H4', Hsx, Hdx, Hlx, Hlz.
    replace (1 * ((a * a * px - rx * (a * a) * 1) * b) - py * (1 * (a * a) * a))
      with (a * a * (b * (px - rx)) - py * (a * a * a)) by ring.
    rewrite <-Hy. by replace (a * a * (a * (ry + py)) - py * (a * a * a)) with (ry * (a * a * a)) by ring. }
  destruct (Z.eqb_spec dx dy) as [E|_].
  - split; [by rewrite Hsx, Hdx|]. by rewrite Hsy, E, Hdy.
  - rewrite !eqm_mod_ by lia. rewrite Hsx, Hsy, Hdx, Hdy.
    split; [by replace (rx * (a * a) * (a * a * a)) with (rx * (a * a * (a * a * a))) by ring|].
    by replace (ry * (a * a * a) * (a * a)) with (ry * (a * a * (a * a * a))) by ring.
Qed.

(** With the inverse of that coordinate, it is the point. *)
Lemma projectiveECAdd_affine p q r x y z i :
  chord_sum FIELD_SIZE p q r → 0 <= r.1 < FIELD_SIZE → 0 <= r.2 < FIELD_SIZE →
  projectiveECAdd_coordinates p q = (x, y, z) → (z * i) mod FIELD_SIZE = 1 →
  (x * i) mod FIELD_SIZE = r.1 ∧ (y * i) mod FIELD_SIZE = r.2.
Proof.
  intros Hr H1 H2 E Hz. pose proof (projectiveECAdd_chord _ _ _ Hr) as Hc. rewrite E in Hc.
  destruct Hc as [Hx Hy]. pose proof field_pos.
  assert (∀ u v, 0 <= v < FIELD_SIZE → eqm FIELD_SIZE u (v * z) → (u * i) mod FIELD_SIZE = v) as Hgo.
  { intros u v Hv Hu. change ((u * i) mod FIELD_SIZE) with ((u * i) mod FIELD_SIZE).
    assert (eqm FIELD_SIZE (u * i) v) as Hui.
    { rewrite Hu, <-Z.mul_assoc. assert (eqm FIELD_SIZE (z * i) 1) as ->
        by (unfold eqm; rewrite Hz, Z.mod_small; lia). by rewrite Z.mul_1_r. }
    unfold eqm in Hui. by rewrite Hui, Z.mod_small. }
  split; by apply Hgo.
Qed.
End curve.
