(* ===== verification/EcvrfProof.v ===== *)
(** * Generated proofs are accepted on the chain ([proof.mjs], [VRF.sol])

    A proof that the operator generates passes every check of the contract, and
    both derive the same output, which depends on the key and the seed alone. *)

From S2P Require Import Prelude Js Hex Vendor ScalarField Ecvrf VrfContract EcvrfMath Samples.
From Stdlib Require Import Zdiv Znumtheory.

Open Scope Z_scope.

(** [ecrecover] gives the address of the point that solves its equation: of [Q], when
    [x Q = s R - h B], for the point [R] of first coordinate [x]. *)
Class EvmLaws `{Ethers, Secp256k1, Evm} : Prop := {
  ecrecover_spec h R s Q :
    R ≠ infinity → Q ≠ infinity → 0 < (toAffine R).1 < GROUP_ORDER → 0 < s < GROUP_ORDER →
    p_mul (toAffine R).1 Q = p_add (p_mul s R) (p_mul (- h) BASE) →
    ecrecover h (parity_v (toAffine R).2) (toAffine R).1 s = Some (ethereumAddress Q)
}.

(** ** Square roots *)
Section roots.
Context `{Secp256k1Laws}.

Lemma root_exponent : Z.shiftr (FIELD_SIZE + 1) 2 = (FIELD_SIZE + 1) `quot` 4.
Proof.
  pose proof field_pos. rewrite Z.shiftr_div_pow2 by lia. change (2 ^ 2) with 4.
  by rewrite Z.quot_div_nonneg by lia.
Qed.

(** Both powers come from one: [FIELD_SIZE = 4 k + 3]. *)
Lemma field_quarter : ∃ k, 0 <= k ∧ FIELD_SIZE = 4 * k + 3 ∧
  (FIELD_SIZE + 1) `quot` 4 = k + 1 ∧ (FIELD_SIZE - 1) `quot` 2 = 2 * k + 1.
Proof.
  pose proof field_pos. pose proof field_mod4 as H4. exists (FIELD_SIZE / 4).
  pose proof (Z.div_mod FIELD_SIZE 4 ltac:(lia)) as E. rewrite H4 in E.
  assert (0 <= FIELD_SIZE / 4) by (apply Z.div_pos; lia). split; [done|]. split; [lia|].
  rewrite !Z.quot_div_nonneg by lia. set (k := FIELD_SIZE / 4) in *. split.
  - symmetry. apply (Z.div_unique_pos _ _ _ 0); lia.
  - symmetry. apply (Z.div_unique_pos _ _ _ 0); lia.
Qed.

(** The candidate root squares to [v] exactly when the test finds [v] a square. *)
Lemma isSquare_root v :
  0 <= v < FIELD_SIZE →
  let r := _squareRoot v in (r * r) mod FIELD_SIZE = v ↔ isSquare v = true.
Proof.
  intros Hv r. destruct field_quarter as (k & Hk & EF & Eq4 & Eq2). pose proof field_pos.
  unfold r, _squareRoot, _bigModExp, isSquare. rewrite root_exponent, Eq4, Eq2.
  rewrite <-Zmult_mod, <-Z.pow_add_r by lia. replace (k + 1 + (k + 1)) with (Z.succ (2 * k + 1)) by lia.
  rewrite Z.pow_succ_r by lia. destruct (Z.eqb_spec v 0) as [->|Hne].
  { rewrite Z.mul_0_l, Z.mod_0_l by lia. done. }
  rewrite modPow_spec by lia. rewrite Z.eqb_eq. set (w := v ^ (2 * k + 1)). split.
  - intros E. assert ((v * (w - 1)) mod FIELD_SIZE = 0) as Ez.
    { rewrite Z.mul_sub_distr_l, Zminus_mod, E, Z.mul_1_r, (Z.mod_small v) by done.
      by rewrite Z.sub_diag. }
    apply Z.mod_divide in Ez; [|lia]. apply Z.divide_prime_mul in Ez; [|apply field_prime].
    destruct Ez as [[q Hq]|Hd].
    + exfalso. assert (q = 0 ∨ 1 <= q ∨ q <= -1) as [->|[?|?]] by lia; nia.
    + apply Z.mod_divide in Hd; [|lia]. replace w with (w - 1 + 1) by lia.
      rewrite Zplus_mod, Hd, Z.add_0_l, Zmod_mod. apply Z.mod_small. lia.
  - intros E. by rewrite <-Zmult_mod_idemp_r, E, Z.mul_1_r, Z.mod_small.
Qed.

Lemma ySquared_contract x : _ySquared x = ySquared x.
Proof.
  pose proof field_pos0. unfold _ySquared, ySquared, addmod, mulmod. rewrite mod_spec by done.
  by rewrite Zmult_mod_idemp_r, Zplus_mod_idemp_l, Z.mul_assoc.
Qed.
Lemma ySquared_range x : 0 <= ySquared x < FIELD_SIZE.
Proof. unfold ySquared. pose proof field_pos0. rewrite mod_spec by done. by apply Z.mod_pos_bound. Qed.

(** The even root: in range, and a root when there is one. *)
Lemma evenY_contract x :
  (let y := _squareRoot (_ySquared x) in if y mod 2 =? 1 then FIELD_SIZE - y else y) = evenY x.
Proof.
  pose proof field_pos. destruct field_quarter as (k & Hk & EF & Eq4 & _).
  unfold evenY, _squareRoot, _bigModExp. rewrite root_exponent, ySquared_contract, modPow_spec by lia.
  cbv zeta. rewrite Zmod_odd. by destruct (Z.odd _).
Qed.
Lemma evenY_range x : 0 <= evenY x < FIELD_SIZE.
Proof.
  pose proof field_pos. rewrite <-evenY_contract. cbv zeta. set (y := _squareRoot _).
  assert (0 <= y < FIELD_SIZE) by (apply Z.mod_pos_bound; lia).
  destruct (Z.eqb_spec (y mod 2) 1) as [E|_]; [|done].
  destruct (decide (y = 0)) as [->|]; [by rewrite Z.mod_0_l in E by lia|lia].
Qed.

Lemma evenY_square x :
  (evenY x * evenY x) mod FIELD_SIZE = ySquared x ↔ isSquare (ySquared x) = true.
Proof.
  rewrite <-isSquare_root by apply ySquared_range. rewrite <-evenY_contract, ySquared_contract. cbv zeta.
  set (y := _squareRoot (ySquared x)). destruct (_ =? 1); [|done].
  replace ((FIELD_SIZE - y) * (FIELD_SIZE - y)) with (y * y + (FIELD_SIZE - 2 * y) * FIELD_SIZE) by ring.
  by rewrite Z_mod_plus_full.
Qed.

Lemma candidate_on_curve x :
  0 <= x < FIELD_SIZE → _isOnCurve (x, evenY x) = Ok (isSquare (ySquared x)).
Proof.
  intros Hx. pose proof (evenY_range x). unfold _isOnCurve. cbn [fst snd].
  rewrite !(proj2 (Z.ltb_lt _ _)) by lia. cbn. f_equal. rewrite ySquared_contract. unfold mulmod.
  pose proof (evenY_square x) as Hsq. destruct (isSquare (ySquared x)).
  - apply Z.eqb_eq. symmetry. by apply Hsq.
  - apply Z.eqb_neq. intros E. symmetry in E. by apply Hsq in E.
Qed.
Lemma candidate_affine x :
  0 <= x < FIELD_SIZE → isSquare (ySquared x) = true → affine_on_curve (x, evenY x).
Proof.
  intros Hx Hsq%evenY_square. split; [split; [done|apply evenY_range]|]. cbn [fst snd]. rewrite Hsq.
  unfold ySquared. pose proof field_pos0. by rewrite mod_spec.
Qed.
End roots.

(** ** The hash to the curve *)

Lemma hashBig_nonneg `{EthersLaws} b : 0 <= hashBig b.
Proof.
  pose proof (keccak_hex b) as (bs & l & Hc & Hb & _)%isHexString_spec.
  apply getBytes_spec in Hb. rewrite keccak_lower in Hb. unfold hashBig. rewrite Hb.
  destruct (string_to_bigint (hex_of_bytes bs)) as [z|] eqn:Hz; [|done]. cbn.
  unfold string_to_bigint in Hz. rewrite trim_id in Hz.
  - rewrite chars_hex_of_bytes in Hz. cbn in Hz. by apply parse_digits_nonneg in Hz.
  - rewrite chars_hex_of_bytes. repeat constructor. eapply Forall_impl; [apply concat_digit_values|].
    apply digit_not_space.
Qed.

Section curve_hash.
Context `{EthersLaws, Secp256k1Laws}.

Lemma below_field_range fuel v x :
  0 <= v → below_field fuel v = Some x → 0 <= x < FIELD_SIZE.
Proof.
  revert v. induction fuel as [|fuel IH]; intros v Hv; cbn [below_field];
    destruct (Z.leb_spec FIELD_SIZE v); try done; try (intros [= <-]; lia).
  apply IH, hashBig_nonneg.
Qed.
Lemma fieldHash_range fuel b x : fieldHash fuel b = Some x → 0 <= x < FIELD_SIZE.
Proof. apply below_field_range, hashBig_nonneg. Qed.

Lemma fieldHash_contract fuel b : _fieldHash fuel b = fieldHash fuel b.
Proof.
  unfold _fieldHash, fieldHash. generalize (hashBig b).
  induction fuel as [|fuel IH]; intros v; cbn; [done|]. by rewrite IH.
Qed.

Lemma candidate_contract fuel b :
  _newCandidateSecp256k1Point fuel b = (x ← fieldHash fuel b; Some (x, evenY x)).
Proof.
  unfold _newCandidateSecp256k1Point. rewrite fieldHash_contract.
  destruct (fieldHash fuel b) as [x|]; [|done]. cbn [mbind option_bind]. f_equal. f_equal. apply evenY_contract.
Qed.

(** Both loops find the same point. *)
Lemma until_on_curve_contract fuel x :
  0 <= x < FIELD_SIZE →
  _until_on_curve fuel (x, evenY x) = (λ x', Ok (x', evenY x')) <$> square_x fuel x.
Proof.
  revert x. induction fuel as [|fuel IH]; intros x Hx; cbn [_until_on_curve square_x];
    rewrite candidate_on_curve by done; destruct (isSquare (ySquared x)); try done.
  cbn [fst]. rewrite candidate_contract. destruct (fieldHash (S fuel) (word x)) as [x'|] eqn:Hf; [|done].
  cbn [mbind option_bind]. by apply IH, (fieldHash_range _ _ _ Hf).
Qed.
Lemma square_x_found fuel x x' :
  0 <= x < FIELD_SIZE → square_x fuel x = Some x' →
  0 <= x' < FIELD_SIZE ∧ isSquare (ySquared x') = true.
Proof.
  revert x. induction fuel as [|fuel IH]; intros x Hx; cbn [square_x];
    destruct (isSquare (ySquared x)) eqn:Hs; try done; try (by intros [= <-]).
  destruct (fieldHash (S fuel) (word x)) as [x1|] eqn:Hf; [|done]. cbn [mbind option_bind].
  apply IH, (fieldHash_range _ _ _ Hf).
Qed.

(** More fuel finds the same value. *)
Lemma below_field_mono fuel fuel' v x :
  (fuel ≤ fuel')%nat → below_field fuel v = Some x → below_field fuel' v = Some x.
Proof.
  revert fuel' v. induction fuel as [|fuel IH]; intros [|fuel'] v Hle; cbn [below_field];
    destruct (FIELD_SIZE <=? v); try done; [lia|]. apply IH. lia.
Qed.
Lemma square_x_mono fuel fuel' x y :
  (fuel ≤ fuel')%nat → square_x fuel x = Some y → square_x fuel' x = Some y.
Proof.
  revert fuel' x. induction fuel as [|fuel IH]; intros [|fuel'] x Hle; cbn [square_x];
    destruct (isSquare (ySquared x)); try done; [lia|].
  destruct (fieldHash (S fuel) (word x)) as [x'|] eqn:Hf; [|done].
  unfold fieldHash in *. rewrite (below_field_mono _ (S fuel') _ _ Hle Hf). cbn [mbind option_bind].
  apply IH. lia.
Qed.
Lemma hashToCurve_mono fuel fuel' publicKey seed r :
  (fuel ≤ fuel')%nat → hashToCurve fuel publicKey seed = Some r → hashToCurve fuel' publicKey seed = Some r.
Proof.
  intros Hle. unfold hashToCurve. destruct (fieldHash fuel _) as [x|] eqn:Hf; [|done].
  unfold fieldHash in *. rewrite (below_field_mono _ fuel' _ _ Hle Hf). cbn [mbind option_bind].
  destruct (square_x fuel x) as [y|] eqn:Hx; [|done]. by rewrite (square_x_mono _ fuel' _ _ Hle Hx).
Qed.
Lemma hashToCurve_fuel fuel fuel' publicKey seed r r' :
  hashToCurve fuel publicKey seed = Some r → hashToCurve fuel' publicKey seed = Some r' → r = r'.
Proof.
  intros Hr Hr'. destruct (Nat.le_ge_cases fuel fuel') as [Hle|Hle].
  - apply (hashToCurve_mono _ _ _ _ _ Hle) in Hr. congruence.
  - apply (hashToCurve_mono _ _ _ _ _ Hle) in Hr'. congruence.
Qed.

Lemma hashToCurve_contract fuel publicKey seed r :
  hashToCurve fuel publicKey seed = Some r →
  ∃ hash, r = Ok hash ∧ hash ≠ infinity ∧
    _hashToCurve fuel (toAffine publicKey) seed = Some (Ok (toAffine hash)).
Proof.
  unfold hashToCurve, _hashToCurve. rewrite candidate_contract. fold (pointBytes publicKey).
  destruct (fieldHash fuel _) as [x|] eqn:Hf; [|done]. cbn [mbind option_bind].
  apply fieldHash_range in Hf. rewrite until_on_curve_contract by done.
  destruct (square_x fuel x) as [x'|] eqn:Hx; [|done]. cbn [mbind option_bind fmap option_fmap option_map].
  intros [= <-]. destruct (square_x_found _ _ _ Hf Hx) as [Hr Hs].
  destruct (fromAffine_on_curve (x', evenY x')) as (hash & -> & Hfin & E); [by apply candidate_affine|].
  exists hash. by rewrite E.
Qed.
End curve_hash.

(** ** One attempt *)
Section proofs.
Context `{EthersLaws, Secp256k1Laws, !HmacApi, Evm, !EvmLaws}.

#[local] Existing Instance eqm_setoid.
#[local] Existing Instance Zplus_eqm.
#[local] Existing Instance Zminus_eqm.
#[local] Existing Instance Zmult_eqm.
#[local] Existing Instance Zopp_eqm.

(** The points and scalars behind a proof. *)
Record behind (secret wireSeed : Z) (hash : point) (g : generated) (k : Z) : Prop := {
  bh_secret : 0 < secret < GROUP_ORDER;
  bh_nonce : 0 < k < GROUP_ORDER;
  bh_pk : pk (g_proof g) = toAffine (p_mul secret BASE);
  bh_gamma : gamma (g_proof g) = toAffine (p_mul secret hash);
  bh_seed : seed (g_proof g) = wireSeed;
  bh_address : uWitness (g_proof g) = ethereumAddress (p_mul k BASE);
  bh_c : c (g_proof g) = scalarFromCurvePoints hash (p_mul secret BASE) (p_mul secret hash)
                           (ethereumAddress (p_mul k BASE)) (p_mul k hash);
  bh_c_nonzero : c (g_proof g) mod GROUP_ORDER ≠ 0;
  bh_s : 0 < s (g_proof g) < GROUP_ORDER;
  bh_s_eqm : eqm GROUP_ORDER (s (g_proof g)) (k - c (g_proof g) * secret);
  bh_cGamma : cGammaWitness (g_proof g) = toAffine (p_mul (c (g_proof g)) (p_mul secret hash));
  bh_sHash : sHashWitness (g_proof g) = toAffine (p_mul (s (g_proof g)) hash);
  bh_distinct : (cGammaWitness (g_proof g)).1 ≠ (sHashWitness (g_proof g)).1;
  bh_zInv : ∃ x y z, projectiveECAdd_coordinates (cGammaWitness (g_proof g)) (sHashWitness (g_proof g))
                     = (x, y, z) ∧ (z * zInv (g_proof g)) mod FIELD_SIZE = 1;
  bh_output : g_output g = hashBig (word 3 ++ coordinate_bytes (gamma (g_proof g)));
  bh_key : g_serviceKeyHash g = serviceKeyHash (pk (g_proof g));
  bh_publicKey : g_publicKey g = pk (g_proof g) ∧ g_keyHash g = publicKeyHash (pk (g_proof g))
}.

Lemma attempt_Generated secret wireSeed k hash g :
  0 < secret < GROUP_ORDER →
  attempt secret wireSeed k (p_mul secret BASE) hash (p_mul secret hash) = Ok (Generated g) →
  behind secret wireSeed hash g k.
Proof.
  intros Hsecret Ha. pose proof group_pos. pose proof field_pos. unfold attempt in Ha.
  apply bind_Ok in Ha as (u & [Hk ->]%multiply_Ok & Ha). apply bind_Ok in Ha as (v & [_ ->]%multiply_Ok & Ha).
  cbv zeta in Ha. set (cc := scalarFromCurvePoints _ _ _ _ _) in Ha. set (ss := mod_ _ _) in Ha.
  destruct ((cc =? 0) || (ss =? 0)) eqn:Ezero; [discriminate Ha|].
  apply bind_Ok in Ha as (cG & [Hc ->]%multiply_Ok & Ha). apply bind_Ok in Ha as (sH & [Hs ->]%multiply_Ok & Ha).
  rewrite mod_spec in Hc, Ha by lia. rewrite p_mul_mod in Ha.
  destruct (_ =? _) eqn:Ex in Ha; [discriminate Ha|]. apply Z.eqb_neq in Ex.
  destruct (projectiveECAdd _ _) as [[x y] z] eqn:Esum.
  apply bind_Ok in Ha as (zi & [Hzi _]%modInverse_Ok & [= <-]); [|lia].
  split; cbn; try done; [lia| |by exists x, y, z].
  unfold ss. rewrite !mod_spec by lia. by rewrite !Zmod_eqm.
Qed.

Lemma attempts_from_Ok fuel nonce secret seed wireSeed n Y hash gammaPoint g :
  attempts_from fuel nonce secret seed wireSeed n Y hash gammaPoint = Some (Ok g) →
  ∃ k, attempt secret wireSeed k Y hash gammaPoint = Ok (Generated g).
Proof.
  revert n. induction fuel as [|fuel IH]; intros n; cbn [attempts_from]; [done|]. cbv zeta.
  set (k := default _ nonce). destruct (_ || _).
  { destruct nonce; [discriminate|apply IH]. }
  destruct (attempt secret wireSeed k Y hash gammaPoint) as [[g'|message]|e] eqn:E; [| |discriminate].
  - intros [= <-]. by exists k.
  - destruct nonce; [discriminate|apply IH].
Qed.

Lemma generateProof_behind fuel secret seed wireSeed nonce g :
  generateProof fuel secret seed wireSeed nonce = Some (Ok g) →
  ∃ hash k, hash ≠ infinity ∧ behind secret wireSeed hash g k ∧
    hashToCurve fuel (p_mul secret BASE) seed = Some (Ok hash) ∧
    _hashToCurve fuel (pk (g_proof g)) seed = Some (Ok (toAffine hash)).
Proof.
  unfold generateProof. intros Hg.
  destruct (_ ← require (valid_secret secret) _; _) as [Y|e] eqn:Hchecks; [|discriminate Hg].
  apply bind_Ok in Hchecks as (? & _ & Hchecks). apply bind_Ok in Hchecks as (? & _ & Hchecks).
  apply bind_Ok in Hchecks as (? & _ & [Hsecret ->]%multiply_Ok).
  destruct (hashToCurve fuel (p_mul secret BASE) seed) as [r|] eqn:Hh; [|discriminate Hg].
  pose proof Hh as (hash & -> & Hfin & Hcontract)%hashToCurve_contract. cbn [mbind option_bind result_bind] in Hg.
  rewrite multiply_in in Hg by done. apply attempts_from_Ok in Hg as [k Hk].
  apply attempt_Generated in Hk; [|done]. exists hash, k. split; [done|]. split; [done|]. split; [done|].
  by rewrite (bh_pk _ _ _ _ _ Hk).
Qed.

(** ** The checks of the contract *)

Lemma scalar_product_nonzero a b :
  a mod GROUP_ORDER ≠ 0 → b mod GROUP_ORDER ≠ 0 → 0 < (a * b) mod GROUP_ORDER < GROUP_ORDER.
Proof.
  intros Ha Hb. pose proof group_pos. assert (0 < GROUP_ORDER) as Hpos by lia.
  pose proof (Z.mod_pos_bound (a * b) GROUP_ORDER Hpos).
  destruct (decide ((a * b) mod GROUP_ORDER = 0)) as [E|]; [|lia].
  apply Z.mod_divide in E; [|lia]. apply Z.divide_prime_mul in E; [|apply group_prime].
  destruct E as [E|E]; apply Z.mod_divide in E; lia.
Qed.
Lemma in_range_nonzero k : 0 < k < GROUP_ORDER → k mod GROUP_ORDER ≠ 0.
Proof. intros Hk. rewrite Z.mod_small by lia. lia. Qed.

Lemma p_add_infinity k P : p_add (p_mul k P) infinity = p_mul k P.
Proof. by rewrite <-(p_mul_0 P), <-p_mul_add, Z.add_0_r. Qed.

Lemma ecmulVerify_ok P k :
  P ≠ infinity → 0 < (toAffine P).1 < GROUP_ORDER → k mod GROUP_ORDER ≠ 0 →
  _ecmulVerify (toAffine P) k (toAffine (p_mul k P)) = Ok true.
Proof.
  intros HP Hx Hk. pose proof group_pos. unfold _ecmulVerify.
  destruct (Z.eqb_spec k 0) as [->|_]; [by rewrite Z.mod_0_l in Hk by lia|]. cbn [negb require mbind result_bind].
  unfold mulmod. rewrite (ecrecover_spec 0 P _ (p_mul k P)); [cbn; by rewrite bool_decide_true|done| |done| |].
  - by apply p_mul_finite.
  - apply scalar_product_nonzero; [done|by apply in_range_nonzero].
  - rewrite p_mul_mod, p_mul_mul. change (- 0) with 0. rewrite (p_mul_0 BASE), p_add_infinity. by rewrite Z.mul_comm.
Qed.

Lemma eqm_group_mod a : eqm GROUP_ORDER (a mod GROUP_ORDER) a.
Proof. apply Zmod_eqm. Qed.

Lemma linear_combination_ok secret k cc ss :
  0 < secret < GROUP_ORDER → 0 < k < GROUP_ORDER → cc mod GROUP_ORDER ≠ 0 →
  eqm GROUP_ORDER ss (k - cc * secret) →
  0 < (toAffine (p_mul secret BASE)).1 < GROUP_ORDER →
  ethereumAddress (p_mul k BASE) ≠ ZERO_ADDRESS →
  _verifyLinearCombinationWithGenerator cc (toAffine (p_mul secret BASE)) ss
    (ethereumAddress (p_mul k BASE)) = Ok true.
Proof.
  intros Hsecret Hk Hc Hs Hx Ha. unfold _verifyLinearCombinationWithGenerator.
  rewrite (bool_decide_false (_ = ZERO_ADDRESS)) by exact Ha. cbn [negb require mbind result_bind].
  unfold mulmod. rewrite (ecrecover_spec _ (p_mul secret BASE) _ (p_mul k BASE)).
  - cbn. by rewrite bool_decide_true.
  - apply p_mul_finite; [apply base_finite|by apply in_range_nonzero].
  - apply p_mul_finite; [apply base_finite|by apply in_range_nonzero].
  - exact Hx.
  - apply scalar_product_nonzero; [done|by apply in_range_nonzero].
  - set (x := (toAffine (p_mul secret BASE)).1) in *. rewrite !p_mul_mul, <-p_mul_add. apply p_mul_congr.
    change (eqm GROUP_ORDER (x * k)
      ((cc * x) mod GROUP_ORDER * secret + - (GROUP_ORDER - (x * ss) mod GROUP_ORDER))).
    rewrite (eqm_group_mod (cc * x)).
    assert (eqm GROUP_ORDER (- (GROUP_ORDER - (x * ss) mod GROUP_ORDER)) (x * (k - cc * secret))) as ->.
    { replace (- (GROUP_ORDER - (x * ss) mod GROUP_ORDER)) with ((x * ss) mod GROUP_ORDER + -1 * GROUP_ORDER) by ring.
      unfold eqm at 1. rewrite Z_mod_plus_full. fold (eqm GROUP_ORDER ((x * ss) mod GROUP_ORDER) (x * (k - cc * secret))).
      by rewrite eqm_group_mod, Hs. }
    by replace (cc * x * secret + x * (k - cc * secret)) with (x * k) by ring.
Qed.

Lemma on_curve_ok P message : P ≠ infinity → check_on_curve (toAffine P) message = Ok tt.
Proof.
  intros HP. destruct (toAffine_on_curve P HP) as [[Hx Hy] E]. unfold check_on_curve, _isOnCurve.
  rewrite !(proj2 (Z.ltb_lt _ _)) by lia. cbn [require mbind result_bind].
  rewrite ySquared_contract. unfold ySquared, mulmod. pose proof field_pos0.
  by rewrite mod_spec, E, Z.eqb_refl by done.
Qed.

(** The two formulas for the projective sum agree. *)
Lemma projectiveECAdd_contract p q :
  _projectiveECAdd p.1 p.2 q.1 q.2 = projectiveECAdd_coordinates p q.
Proof.
  destruct p as [px py], q as [qx qy]. pose proof field_pos0 as HF.
  unfold _projectiveECAdd, projectiveECAdd_coordinates. cbn [fst snd].
  assert (∀ a b, addmod a (FIELD_SIZE - b) FIELD_SIZE = mod_ (a - b) FIELD_SIZE) as Hsub.
  { intros a b. rewrite mod_spec by done. unfold addmod.
    replace (a + (FIELD_SIZE - b)) with (a - b + 1 * FIELD_SIZE) by ring. apply Z_mod_plus_full. }
  assert (∀ x1 z1 x2 z2, _projectiveSub x1 z1 x2 z2 = projectiveSub x1 z1 x2 z2) as Hs.
  { intros. unfold _projectiveSub, projectiveSub, addmod, mulmod. by rewrite !mod_spec by done. }
  assert (∀ x1 z1 x2 z2, _projectiveMul x1 z1 x2 z2 = projectiveMul x1 z1 x2 z2) as Hm.
  { intros. unfold _projectiveMul, projectiveMul, mulmod. by rewrite !mod_spec by done. }
  rewrite !Hsub, Hm. destruct (projectiveMul _ _ _ _) as [sx1 dx1]. rewrite Hs.
  destruct (projectiveSub sx1 dx1 px 1) as [sx2 dx2]. rewrite Hs.
  destruct (projectiveSub sx2 dx2 qx 1) as [sx dx]. rewrite Hs.
  destruct (projectiveSub px 1 sx dx) as [sy1 dy1]. rewrite Hm.
  destruct (projectiveMul sy1 dy1 _ _) as [sy2 dy2]. rewrite Hs.
  destruct (projectiveSub sy2 dy2 py 1) as [sy dy]. unfold mulmod. by rewrite !mod_spec by done.
Qed.

Lemma affineECAdd_ok P Q x y z i :
  P ≠ infinity → Q ≠ infinity → p_add P Q ≠ infinity → (toAffine P).1 ≠ (toAffine Q).1 →
  projectiveECAdd_coordinates (toAffine P) (toAffine Q) = (x, y, z) → (z * i) mod FIELD_SIZE = 1 →
  _affineECAdd (toAffine P) (toAffine Q) i = Ok (toAffine (p_add P Q)).
Proof.
  intros HP HQ HR Hne E Hi. destruct (toAffine_on_curve _ HR) as [[Hrx Hry] _].
  destruct (projectiveECAdd_affine _ _ _ _ _ _ _ (p_add_chord P Q HP HQ Hne) Hrx Hry E Hi) as [Ex Ey].
  unfold _affineECAdd. rewrite projectiveECAdd_contract, E. unfold mulmod. rewrite Hi, Ex, Ey.
  by destruct (toAffine (p_add P Q)).
Qed.

(** The first coordinates that [ecrecover] takes are below the group order, and no
    address is zero: [VRF.sol] rejects all other proofs. *)
Definition recoverable (fuel : nat) (actualSeed : Z) (p : vrf_proof) : Prop :=
  0 < (pk p).1 < GROUP_ORDER ∧ 0 < (gamma p).1 < GROUP_ORDER ∧ uWitness p ≠ ZERO_ADDRESS ∧
  ∀ h, _hashToCurve fuel (pk p) actualSeed = Some (Ok h) → 0 < h.1 < GROUP_ORDER.

Lemma behind_verifies fuel actualSeed secret wireSeed hash g k :
  behind secret wireSeed hash g k → hash ≠ infinity →
  _hashToCurve fuel (pk (g_proof g)) actualSeed = Some (Ok (toAffine hash)) →
  recoverable fuel actualSeed (g_proof g) →
  _verifyVRFProof fuel (g_proof g) actualSeed = Some (Ok tt).
Proof.
  intros [] Hfin Hhash (Hpk & Hgamma & Haddress & Hx). specialize (Hx _ Hhash).
  destruct (g_proof g) as [pk gamma cc ss sd uw cG sH zi]. cbn in *. subst pk gamma uw cG sH.
  pose proof group_pos.
  assert (p_mul secret BASE ≠ infinity) as HY by (apply p_mul_finite; [apply base_finite|by apply in_range_nonzero]).
  assert (p_mul secret hash ≠ infinity) as HG by (apply p_mul_finite; [done|by apply in_range_nonzero]).
  assert (p_mul cc (p_mul secret hash) ≠ infinity) as HcG by by apply p_mul_finite.
  assert (p_mul ss hash ≠ infinity) as HsH by (apply p_mul_finite; [done|by apply in_range_nonzero]).
  assert (p_add (p_mul cc (p_mul secret hash)) (p_mul ss hash) = p_mul k hash) as Hsum.
  { rewrite p_mul_mul, <-p_mul_add. apply p_mul_congr. change (eqm GROUP_ORDER (cc * secret + ss) k).
    rewrite bh_s_eqm0. by replace (cc * secret + (k - cc * secret)) with k by ring. }
  assert (p_mul k hash ≠ infinity) as Hv by (apply p_mul_finite; [done|by apply in_range_nonzero]).
  destruct bh_zInv0 as (x & y & z & Ez & Hzi).
  unfold _verifyVRFProof. cbn [Ecvrf.pk Ecvrf.gamma c s uWitness cGammaWitness sHashWitness zInv].
  rewrite !on_curve_ok by done. cbn [mbind result_bind].
  rewrite (linear_combination_ok secret k) by done. cbn [mbind result_bind option_bind require].
  rewrite Hhash. cbn [mbind result_bind option_bind]. unfold _linearCombination.
  destruct (toAffine_on_curve _ HcG) as [[HcGx _] _]. destruct (toAffine_on_curve _ HsH) as [[HsHx _] _].
  rewrite !(Z.mod_small (toAffine _).1) by done. rewrite (proj2 (Z.eqb_neq _ _)) by done.
  cbn [negb require mbind result_bind]. rewrite !ecmulVerify_ok by (done || by apply in_range_nonzero).
  cbn [require mbind result_bind].
  rewrite (affineECAdd_ok _ _ x y z) by (done || by rewrite Hsum). cbn [mbind result_bind].
  rewrite Hsum. change (_scalarFromCurvePoints _ _ _ _ _) with
    (scalarFromCurvePoints hash (p_mul secret BASE) (p_mul secret hash) (ethereumAddress (p_mul k BASE)) (p_mul k hash)).
  by rewrite <-bh_c0, Z.eqb_refl.
Qed.

(** The output of a proof is read off its point [gamma]. *)
Lemma behind_output secret wireSeed hash g k v :
  behind secret wireSeed hash g k → hash ≠ infinity →
  prop_opt v "gamma" = coordinates_value (gamma (g_proof g)) → outputForProof v = Ok (g_output g).
Proof.
  intros Hb Hfin Hv. rewrite (bh_output _ _ _ _ _ Hb). unfold outputForProof, coordinates_value in *.
  rewrite Hv, (bh_gamma _ _ _ _ _ Hb).
  assert (p_mul secret hash ≠ infinity) as HG
    by (apply p_mul_finite; [done|]; apply in_range_nonzero; apply Hb).
  cbn. rewrite <-(surjective_pairing (toAffine (p_mul secret hash))), fromAffine_toAffine by done. done.
Qed.

(** What the contract makes of a generated proof. *)
Lemma generated_verifies fuel secret actualSeed wireSeed nonce g :
  generateProof fuel secret actualSeed wireSeed nonce = Some (Ok g) →
  recoverable fuel actualSeed (g_proof g) →
  verify fuel (g_serviceKeyHash g) actualSeed wireSeed (g_proof g) = Some (Ok (g_output g)).
Proof.
  intros (hash & k & Hfin & Hb & _ & Hhash)%generateProof_behind Hrec.
  pose proof (behind_verifies _ _ _ _ _ _ _ Hb Hfin Hhash Hrec) as Hver.
  unfold verify. rewrite (bh_seed _ _ _ _ _ Hb), Z.eqb_refl, (bh_key _ _ _ _ _ Hb), bool_decide_true by done.
  cbn [negb]. rewrite Hver. cbn [mbind option_bind result_bind]. by rewrite (bh_output _ _ _ _ _ Hb).
Qed.

(** C20: a proof that the operator generates is accepted by the verifier of the
    contracts for the key hash, the seed and the pre-seed it was generated for,
    whatever nonce was used, and the contract derives the output that the operator
    reported, which is also the one [outputForProof] reads off the proof.  This
    holds but for the coordinates and the addresses that [ecrecover] cannot take.
    Every proof for the key and the seed has that output: the nonce cannot choose
    it. *)
Theorem generated_proof_accepted fuel secret actualSeed wireSeed nonce g :
  generateProof fuel secret actualSeed wireSeed nonce = Some (Ok g) →
  recoverable fuel actualSeed (g_proof g) →
  verify fuel (g_serviceKeyHash g) actualSeed wireSeed (g_proof g) = Some (Ok (g_output g)) ∧
  outputForProof (VObj [("gamma", coordinates_value (gamma (g_proof g)))]) = Ok (g_output g) ∧
  ∀ fuel' wireSeed' nonce' g', generateProof fuel' secret actualSeed wireSeed' nonce' = Some (Ok g') →
    g_output g' = g_output g ∧ g_serviceKeyHash g' = g_serviceKeyHash g.
Proof.
  intros Hg Hrec. pose proof Hg as (hash & k & Hfin & Hb & Hjs & Hhash)%generateProof_behind. split; [|split].
  - by apply (generated_verifies _ _ _ _ _ _ Hg).
  - by apply (behind_output _ _ _ _ _ _ Hb).
  - intros fuel' wireSeed' nonce' g' (hash' & k' & _ & Hb' & Hjs' & _)%generateProof_behind.
    pose proof (hashToCurve_fuel _ _ _ _ _ _ Hjs Hjs') as [= <-].
    rewrite (bh_output _ _ _ _ _ Hb), (bh_output _ _ _ _ _ Hb'), (bh_key _ _ _ _ _ Hb), (bh_key _ _ _ _ _ Hb').
    by rewrite (bh_gamma _ _ _ _ _ Hb), (bh_gamma _ _ _ _ _ Hb'), (bh_pk _ _ _ _ _ Hb), (bh_pk _ _ _ _ _ Hb').
Qed.
End proofs.
