(* ===== verification/EcvrfSample.v ===== *)
(** * A small curve for the elliptic-curve VRF

    The points of [y^2 = x^3 + 7] over the field of 67 elements: a group of prime
    order 79, as multiples of one base point.  Its laws are checked on all points
    and all pairs. *)

From S2P Require Import Prelude Js Hex Vendor ScalarField Ecvrf VrfContract EcvrfMath EcvrfProof Samples.
From Stdlib Require Import Zmod.

Open Scope Z_scope.

Abbreviation toy_point := (Zmod 79).

(** The multiples of the base point, by the chord and tangent rules. *)
Definition toy_sum (p q : Z * Z) : Z * Z :=
  let slope :=
    if p.1 =? q.1 then (3 * p.1 * p.1 * (2 * p.2) ^ 65) mod 67
    else ((q.2 - p.2) * ((q.1 - p.1) mod 67) ^ 65) mod 67 in
  let x := (slope * slope - p.1 - q.1) mod 67 in
  (x, (slope * (p.1 - x) - p.2) mod 67).
Definition toy_table : list (Z * Z) :=
  Eval vm_compute in imap (λ i _, Nat.iter i (toy_sum (2, 22)) (2, 22)) (replicate 78 tt).
Definition toy_affine (i : Z) : Z * Z := default (0, 0) (toy_table !! Z.to_nat (i - 1)).
Definition toy_index (p : Z * Z) : option Z :=
  List.find (λ i, bool_decide (toy_affine i = p)) (seqZ 1 78).

#[global] Instance toy_curve : Secp256k1 := {|
  FIELD_SIZE := 67;
  GROUP_ORDER := 79;
  point := toy_point;
  BASE := Zmod.one;
  p_add := Zmod.add;
  p_mul := λ k P, Zmod.mul (Zmod.of_Z 79 k) P;
  multiply := λ k P,
    if (0 <? k) && (k <? 79) then Ok (Zmod.mul (Zmod.of_Z 79 k) P) else Throw "invalid scalar";
  toAffine := λ P, toy_affine (Zmod.to_Z P);
  fromAffine := λ p,
    match toy_index p with
    | Some i => Ok (Zmod.of_Z 79 i)
    | None => Throw "Point is not on curve"
    end
|}.

(** ** Finite checks *)

Lemma toy_index_bound (P : toy_point) : P ≠ Zmod.zero → 1 <= Zmod.to_Z P <= 78.
Proof.
  intros HP. pose proof (Zmod.unsigned_pos_bound P ltac:(lia)).
  assert (Zmod.to_Z P ≠ 0); [|lia]. intros E. apply HP. by apply Zmod.to_Z_inj.
Qed.

(** What holds of the finite points, and of their pairs, by evaluation. *)
Lemma toy_all (f : Z → bool) :
  forallb f (seqZ 1 78) = true → ∀ i, 1 <= i <= 78 → f i = true.
Proof.
  intros Hall i Hi. rewrite forallb_forall in Hall. apply Hall.
  apply list_elem_of_In, elem_of_seqZ. lia.
Qed.
Lemma toy_all_pairs (f : Z → Z → bool) :
  forallb (λ i, forallb (f i) (seqZ 1 78)) (seqZ 1 78) = true →
  ∀ i j, 1 <= i <= 78 → 1 <= j <= 78 → f i j = true.
Proof. intros Hall i j Hi Hj. apply (toy_all (f i)); [|done]. by apply (toy_all (λ i, forallb (f i) _)). Qed.

Definition on_toy_curve (p : Z * Z) : bool :=
  (p.2 * p.2) mod 67 =? (p.1 * p.1 * p.1 + 7) mod 67.
Definition in_toy_field (p : Z * Z) : bool :=
  (0 <=? p.1) && (p.1 <? 67) && ((0 <=? p.2) && (p.2 <? 67)).

Lemma toy_affine_on_curve i : 1 <= i <= 78 →
  on_toy_curve (toy_affine i) && in_toy_field (toy_affine i) = true.
Proof. apply (toy_all (λ i, on_toy_curve (toy_affine i) && in_toy_field (toy_affine i))). vm_refl. Qed.

Lemma toy_index_affine i : 1 <= i <= 78 → toy_index (toy_affine i) = Some i.
Proof.
  intros Hi.
  assert (forallb (λ i, bool_decide (toy_index (toy_affine i) = Some i)) (seqZ 1 78) = true) as Hall by vm_refl.
  apply toy_all with (i := i) in Hall; [|done]. by apply bool_decide_eq_true_1 in Hall.
Qed.
Lemma toy_index_Some p i : toy_index p = Some i → toy_affine i = p ∧ 1 <= i <= 78.
Proof.
  unfold toy_index. intros [Hin E]%find_some. apply bool_decide_eq_true_1 in E.
  apply list_elem_of_In, elem_of_seqZ in Hin. split; [done|lia].
Qed.

Lemma toy_affine_all p :
  in_toy_field p = true → on_toy_curve p = true → is_Some (toy_index p).
Proof.
  destruct p as [x y]. unfold in_toy_field. cbn [fst snd]. rewrite !andb_true_iff, !Z.leb_le, !Z.ltb_lt.
  intros [[Hx0 Hx] [Hy0 Hy]] Hc.
  assert (forallb (λ x, forallb (λ y, negb (on_toy_curve (x, y)) || bool_decide (is_Some (toy_index (x, y))))
    (seqZ 0 67)) (seqZ 0 67) = true) as Hall by vm_refl.
  rewrite forallb_forall in Hall. specialize (Hall x). rewrite forallb_forall in Hall.
  specialize (Hall ltac:(apply list_elem_of_In, elem_of_seqZ; lia) y
    ltac:(apply list_elem_of_In, elem_of_seqZ; lia)).
  rewrite Hc in Hall. by apply bool_decide_eq_true_1 in Hall.
Qed.

Definition toy_chord (i j : Z) : bool :=
  let '(p, q, r) := (toy_affine i, toy_affine j, toy_affine ((i + j) mod 79)) in
  (p.1 =? q.1) ||
  ((((q.1 - p.1) * (q.1 - p.1) * (r.1 + p.1 + q.1)) mod 67 =? ((q.2 - p.2) * (q.2 - p.2)) mod 67) &&
   (((q.1 - p.1) * (r.2 + p.2)) mod 67 =? ((q.2 - p.2) * (p.1 - r.1)) mod 67)).
Lemma toy_chords i j : 1 <= i <= 78 → 1 <= j <= 78 → toy_chord i j = true.
Proof. apply toy_all_pairs. vm_refl. Qed.

Lemma toy_curve_laws : Secp256k1Laws.
Proof.
  assert (Zmod.mul (Zmod.of_Z 79 0) Zmod.one = (Zmod.zero : toy_point)) as Einf by done.
  split; unfold infinity; cbn [p_mul BASE toy_curve point p_add GROUP_ORDER FIELD_SIZE toAffine fromAffine multiply];
    rewrite ?Einf.
  - apply prime_by_division; [lia|vm_refl].
  - done.
  - apply prime_by_division; [lia|vm_refl].
  - intros k. apply Zmod.mul_0_r.
  - intros P. change (Zmod.of_Z 79 0) with (Zmod.zero : toy_point). apply Zmod.mul_0_l.
  - intros P. apply Zmod.mul_1_l.
  - intros k P. f_equal. apply Zmod.of_Z_inj. by rewrite Z.mod_mod.
  - intros a b P. by rewrite Zmod.of_Z_add, Zmod.mul_add_l.
  - intros a b P. by rewrite Zmod.of_Z_mul, Zmod.mul_assoc.
  - done.
  - intros k P Hk. by rewrite (proj2 (Z.ltb_lt 0 k)), (proj2 (Z.ltb_lt k 79)) by lia.
  - intros k P Hk. destruct (Z.ltb_spec 0 k), (Z.ltb_spec k 79); cbn; eauto. lia.
  - intros P HP%toy_index_bound%toy_affine_on_curve. unfold on_toy_curve, in_toy_field in HP.
    rewrite !andb_true_iff, !Z.leb_le, !Z.ltb_lt, Z.eqb_eq in HP. split; cbn [FIELD_SIZE toy_curve]; tauto.
  - intros p [[Hx Hy] E]. cbn [FIELD_SIZE toy_curve] in *.
    destruct (toy_affine_all p) as [i Hi].
    { unfold in_toy_field. rewrite !andb_true_iff, !Z.leb_le, !Z.ltb_lt. lia. }
    { by apply Z.eqb_eq. }
    rewrite Hi. apply toy_index_Some in Hi as [Hp Hi]. exists (Zmod.of_Z 79 i).
    rewrite Zmod.to_Z_of_Z, Z.mod_small by lia. split_and!; [done| |done].
    intros E0. apply (f_equal Zmod.to_Z) in E0. rewrite Zmod.to_Z_of_Z, Z.mod_small in E0 by lia.
    change (Zmod.to_Z Zmod.zero) with 0 in E0. lia.
  - intros P HP%toy_index_bound. rewrite toy_index_affine by done. by rewrite Zmod.of_Z_to_Z.
  - intros P Q HP%toy_index_bound HQ%toy_index_bound Hne. rewrite Zmod.unsigned_add.
    pose proof (toy_chords _ _ HP HQ) as Hc. unfold toy_chord in Hc.
    rewrite (proj2 (Z.eqb_neq _ _)) in Hc by done. cbn [orb] in Hc.
    rewrite andb_true_iff, !Z.eqb_eq in Hc. exact Hc.
Qed.
#[global] Existing Instance toy_curve_laws.

(** ** The precompile and the hash functions *)

(** The point of a first coordinate and a parity, and the address of the solution
    of [x Q = s R - h B]. *)
Definition toy_lift (v x : Z) : option Z :=
  List.find (λ i, bool_decide ((toy_affine i).1 = x ∧ parity_v (toy_affine i).2 = v)) (seqZ 1 78).
Definition toy_solution (x n : Z) : Z := (x ^ 77 * n) mod 79.

#[global] Existing Instance sample_ethers.
#[global] Existing Instance sample_ethers_laws.
#[global] Instance toy_evm : Evm := {|
  ecrecover := λ h v x s,
    r ← toy_lift v x; Some (ethereumAddress (Zmod.of_Z 79 (toy_solution x (s * r - h)) : point))
|}.
#[global] Instance toy_hmac : HmacApi := {|
  hmac_sha256 := λ key input,
    replicate 31 "000"%char ++ [char_of (foldl (λ h c, (h * 31 + code c) mod 127) 7 (key ++ input))]
|}.

Lemma toy_lift_affine i : 1 <= i <= 78 → toy_lift (parity_v (toy_affine i).2) (toy_affine i).1 = Some i.
Proof.
  intros Hi.
  assert (forallb (λ i, bool_decide (toy_lift (parity_v (toy_affine i).2) (toy_affine i).1 = Some i))
    (seqZ 1 78) = true) as Hall by vm_refl.
  apply toy_all with (i := i) in Hall; [|done]. by apply bool_decide_eq_true_1 in Hall.
Qed.
Lemma toy_solution_unique x q n :
  1 <= x <= 78 → (x * q) mod 79 = n mod 79 → toy_solution x n mod 79 = q mod 79.
Proof.
  intros Hx E. assert (forallb (λ x, (x ^ 77 * x) mod 79 =? 1) (seqZ 1 78) = true) as Hall by vm_refl.
  apply toy_all with (i := x) in Hall; [|done]. apply Z.eqb_eq in Hall.
  unfold toy_solution. rewrite Z.mod_mod by lia. generalize dependent (x ^ 77). intros y Hy.
  rewrite <-Zdiv.Zmult_mod_idemp_r, <-E, Zdiv.Zmult_mod_idemp_r, Z.mul_assoc.
  by rewrite <-Zdiv.Zmult_mod_idemp_l, Hy, Z.mul_1_l.
Qed.

Lemma toy_evm_laws : EvmLaws.
Proof.
  split. intros h R s Q HR%toy_index_bound _ Hx Hs E.
  change (toAffine R) with (toy_affine (Zmod.to_Z R)) in *.
  cbn [ecrecover toy_evm]. rewrite toy_lift_affine by done. cbn [mbind option_bind]. f_equal. f_equal.
  set (x := (toy_affine (Zmod.to_Z R)).1) in *. cbn [GROUP_ORDER toy_curve] in Hx.
  change (Zmod.mul (Zmod.of_Z 79 x) Q =
    Zmod.add (Zmod.mul (Zmod.of_Z 79 s) R) (Zmod.mul (Zmod.of_Z 79 (- h)) Zmod.one)) in E.
  rewrite Zmod.mul_1_r in E. rewrite <-(Zmod.of_Z_to_Z Q), <-(Zmod.of_Z_to_Z R) in E.
  rewrite <-!Zmod.of_Z_mul, <-Zmod.of_Z_add in E. apply Zmod.of_Z_inj in E.
  rewrite <-(Zmod.of_Z_to_Z Q). apply Zmod.of_Z_inj.
  apply toy_solution_unique; [lia|]. by rewrite E, Z.add_opp_r.
Qed.
#[global] Existing Instance toy_evm_laws.

(** ** A proof on the small curve *)

Definition toy_generated : option generated :=
  Eval vm_compute in
    match generateProof 20 5 7 6 None with Some (Ok g) => Some g | _ => None end.

Lemma toy_recoverable g : toy_generated = Some g → recoverable 20 7 (g_proof g).
Proof.
  intros [= <-]. refine (conj (conj eq_refl eq_refl) (conj (conj eq_refl eq_refl) (conj _ _))).
  - intros E. discriminate E.
  - assert (_hashToCurve 20 (46, 40) 7 = Some (Ok (27, 40))) as E by vm_refl.
    intros h Hh. cbn [g_proof pk] in Hh. rewrite E in Hh. injection Hh as <-. exact (conj eq_refl eq_refl).
Qed.

Lemma generated_proof_accepted_witness : ∃ g,
  toy_generated = Some g ∧
  verify 20 (g_serviceKeyHash g) 7 6 (g_proof g) = Some (Ok (g_output g)) ∧ g_output g = 128.
Proof.
  destruct toy_generated as [g|] eqn:E; [|discriminate E]. exists g. split; [exact eq_refl|].
  pose proof (toy_recoverable g E) as Hr.
  assert (generateProof 20 5 7 6 None = Some (Ok g)) as Hg by (injection E as <-; vm_refl).
  split; [|injection E as <-; vm_refl].
  exact (proj1 (generated_proof_accepted 20 5 7 6 None g Hg Hr)).
Defined.
