(* ===== verification/ProofProvider.v ===== *)
(** * Where proofs come from ([proof-provider.mjs])

    The operator obtains a proof from an encrypted key of its own, from a remote
    prover, or from the signing nodes of a threshold group.  The answer to an HTTP
    request depends on the number of the call; the body of an answer is the
    document it parses to, [None] when it is not JSON.  Files are given as the
    result of reading them. *)

From S2P Require Import Prelude Js Hex CanonicalJson Json JsonText Vendor ScalarField ThresholdCrypto ThresholdGroup DkgShares DkgCeremony Policies Compact ThresholdNode ErrorText Ecvrf.

Open Scope Z_scope.

(** ** HTTP *)

(** The contents of the files of a mutual TLS connection. *)
Record tls_files := {
  clientCertificate : option bytes; clientKey : option bytes; caCertificate : option bytes
}.
Record http_call := {
  hc_url : string; hc_method : string; hc_headers : list (string * string);
  hc_body : option value; hc_tls : option tls_files
}.
Inductive http_answer :=
  | TimedOut
  | NoAnswer (message : string)
  | Answered (status length : Z) (body : option value).
(** [fetch], [http.request] and [https.request]. *)
Class HttpApi := { http : nat → http_call → http_answer }.

(** ethers' encrypted keys. *)
Record wallet := { w_privateKey : string; w_address : string }.
Class WalletApi := { fromEncryptedJson : value → string → result wallet }.

(** What a proof is asked for. *)
Record proof_query := {
  q_actualSeed : value; q_preSeed : value; q_requestId : value; q_coordinator : value;
  q_chainId : value; q_compactWitness : value
}.

Record request_options := {
  ro_method : option string; ro_bearerToken : option string; ro_tls : tls_files
}.

(** [Promise.allSettled] of one promise: its outcome is a value. *)
Definition outcome {S A} (m : eff S A) : eff S (result A) := λ s,
  let '(r, s') := m s in (Ok r, s').
(** A path that may be configured, and what reading the file gives. *)
Definition read_optional {A} (path : option (result A)) : result (option A) :=
  match path with None => Ok None | Some contents => a ← contents; Ok (Some a) end.
(** [a && b && c], negated, of three files. *)
Definition incomplete (t : tls_files) : bool :=
  negb (bool_decide (is_Some (clientCertificate t)) && bool_decide (is_Some (clientKey t))
        && bool_decide (is_Some (caCertificate t))).
Definition some_file (t : tls_files) : bool :=
  bool_decide (is_Some (clientCertificate t)) || bool_decide (is_Some (clientKey t))
  || bool_decide (is_Some (caCertificate t)).

Definition remoteHttpError (status : Z) (body : option value) : string :=
  let error := prop_opt (default VUndef body) "error" in
  "remote proof endpoint returned HTTP " +:+ print_int status +:+ ": "
  +:+ redactText (if truthy error then error else VStr "request failed").

Definition ok_status (status : Z) : bool := (200 <=? status) && (status <? 300).

Section provider.
Context `{Ethers, NobleBls, !NodeCrypto, UrlApi, Secp256k1, HmacApi, HttpApi, WalletApi}.

Definition send_http (call : http_call) : eff nat http_answer := λ n, (Ok (http n call), S n).

Definition bearer (token : option string) : list (string * string) :=
  match nonempty token with Some t => [("authorization", "Bearer " +:+ t)] | None => [] end.

Definition requestThresholdJson (url : string) (body : option value) (o : request_options)
    : eff nat value :=
  parsed ← eff_lift (from_option_or TYPE_ERROR (parse_url url));
  answer ← send_http {|
    hc_url := url; hc_method := default "POST" (nonempty (ro_method o));
    hc_headers := ("accept", "application/json")
      :: (match body with None => [] | Some _ => [("content-type", "application/json")] end)
      ++ bearer (ro_bearerToken o);
    hc_body := body;
    hc_tls := if bool_decide (url_protocol parsed = "https:") then Some (ro_tls o) else None |};
  eff_lift (match answer with
            | TimedOut => Throw "threshold node request timed out"
            | NoAnswer message => Throw message
            | Answered status length body =>
                _ ← require (length <=? 1000000) "threshold node response is too large";
                _ ← require (ok_status status) (remoteHttpError status body);
                from_option_or "threshold node returned invalid JSON" body
            end).

Definition fetchJson (call : http_call) : eff nat value :=
  answer ← send_http call;
  eff_lift (match answer with
            | TimedOut => Throw "TimeoutError"
            | NoAnswer message => Throw message
            | Answered status _ body =>
                _ ← require (ok_status status) (remoteHttpError status body);
                from_option_or "SyntaxError" body
            end).

(** [`${baseUrl.replace(/\/$/, "")}${path}`] *)
Definition endpoint_url (baseUrl path : string) : string := strip_slash baseUrl +:+ path.

Definition assertRemoteUrl (v : value) : result string :=
  url ← from_option_or TYPE_ERROR (parse_url (to_str v));
  let local := bool_decide (url_hostname url ∈ LOOPBACK_HOSTS) in
  _ ← require (bool_decide (url_protocol url = "https:")
               || (local && bool_decide (url_protocol url = "http:")))
        "remote prover must use HTTPS (HTTP is allowed only for loopback testing)";
  Ok (strip_slash (url_href url)).

(** ** Proofs as values *)

Definition normalizePublicKey (v : value) : result (Z * Z) :=
  array_point v "prover public key must contain two coordinates".
Definition normalizePair (v : value) (name : string) : result (Z * Z) :=
  array_point v (name +:+ " must contain two coordinates").

Definition normalizeProof (v : value) (expectedPreSeed : value) : result vrf_proof :=
  _ ← require (truthy v && bool_decide (typeof v = "object")) "remote prover returned no proof";
  pk ← normalizePair (prop_opt v "pk") "proof.pk";
  gamma ← normalizePair (prop_opt v "gamma") "proof.gamma";
  c ← to_bigint (prop_opt v "c");
  s ← to_bigint (prop_opt v "s");
  seed ← to_bigint (prop_opt v "seed");
  let uWitness := to_str (prop_opt v "uWitness") in
  cGammaWitness ← normalizePair (prop_opt v "cGammaWitness") "proof.cGammaWitness";
  sHashWitness ← normalizePair (prop_opt v "sHashWitness") "proof.sHashWitness";
  zInv ← to_bigint (prop_opt v "zInv");
  _ ← require (bool_decide (is_Some (getAddress uWitness)))
        "remote prover returned an invalid uWitness";
  expected ← to_bigint expectedPreSeed;
  _ ← require (seed =? expected) "remote prover proof seed does not match the request pre-seed";
  Ok {| pk := pk; gamma := gamma; c := c; s := s; seed := seed; uWitness := uWitness;
        cGammaWitness := cGammaWitness; sHashWitness := sHashWitness; zInv := zInv |}.

(** The object that a proof is. *)
Definition proof_value (p : vrf_proof) : value :=
  VObj [("pk", coordinates_value (pk p)); ("gamma", coordinates_value (gamma p));
        ("c", VBig (c p)); ("s", VBig (s p)); ("seed", VBig (seed p));
        ("uWitness", VStr (uWitness p)); ("cGammaWitness", coordinates_value (cGammaWitness p));
        ("sHashWitness", coordinates_value (sHashWitness p)); ("zInv", VBig (zInv p))].

(** ** A key of the operator's own *)

Record local_provider := {
  lp_wallet : wallet; lp_publicKey : Z * Z; lp_keyHash : string; lp_proofKeyAddress : string
}.

Definition newLocalProvider (w : wallet) : result local_provider :=
  secret ← to_bigint (VStr (w_privateKey w));
  publicKey ← publicKeyFor secret;
  Ok {| lp_wallet := w; lp_publicKey := publicKey; lp_keyHash := serviceKeyHash publicKey;
        lp_proofKeyAddress := w_address w |}.

(** [hash && hash.toLowerCase() !== expected], negated. *)
Definition absent_or_same (hash : value) (expected : string) : result bool :=
  if truthy hash then h ← to_lower hash; Ok (bool_decide (h = expected)) else Ok true.

Definition loadLocalProvider (keyFile : option (result value)) (password : option string)
    : result local_provider :=
  _ ← require (bool_decide (is_Some keyFile)) "--keystore is required for a local proof provider";
  password ← from_option_or "VRF_KEY_PASSWORD is required" (nonempty password);
  payload ← default (Throw TYPE_ERROR) keyFile;
  format ← prop payload "format";
  _ ← require (strict_eq format (VStr "proof-vrf-keystore-v1")) "unsupported VRF keystore format";
  w ← fromEncryptedJson (prop_opt payload "encryptedKey") password;
  provider ← newLocalProvider w;
  same ← absent_or_same (prop_opt payload "serviceKeyHash") (lp_keyHash provider);
  _ ← require same "keystore service key hash does not match its encrypted key";
  Ok provider.

(** [generateProof] of the code takes its arguments through [BigInt]; the fuel is
    that of its hash loops. *)
Definition localProve (fuel : nat) (p : local_provider) (q : proof_query) : option (result generated) :=
  match (secret ← to_bigint (VStr (w_privateKey (lp_wallet p)));
         seed ← to_bigint (q_actualSeed q);
         wireSeed ← to_bigint (q_preSeed q); Ok (secret, seed, wireSeed)) with
  | Ok (secret, seed, wireSeed) => generateProof fuel secret seed wireSeed None
  | Throw e => Some (Throw e)
  end.

(** ** A remote prover *)

Record remote_options := {
  rp_baseUrl : value; rp_bearerToken : option string;
  rp_clientCertificatePath : option (result bytes); rp_clientKeyPath : option (result bytes);
  rp_caCertificatePath : option (result bytes)
}.
Record remote_provider := { r_baseUrl : string; r_bearerToken : option string; r_tls : tls_files }.
(** What [initialize] adds. *)
Record remote_key := { rk_publicKey : Z * Z; rk_keyHash : string; rk_proofKeyAddress : string }.

Definition newRemoteProvider (o : remote_options) : result remote_provider :=
  baseUrl ← assertRemoteUrl (rp_baseUrl o);
  certificate ← read_optional (rp_clientCertificatePath o);
  key ← read_optional (rp_clientKeyPath o);
  ca ← read_optional (rp_caCertificatePath o);
  Ok {| r_baseUrl := baseUrl; r_bearerToken := rp_bearerToken o;
        r_tls := {| clientCertificate := certificate; clientKey := key; caCertificate := ca |} |}.

Definition headers (p : remote_provider) (extra : list (string * string)) : list (string * string) :=
  ("accept", "application/json") :: bearer (r_bearerToken p) ++ extra.

Definition remoteRequest (p : remote_provider) (path : string) (body : option value) : eff nat value :=
  let url := endpoint_url (r_baseUrl p) path in
  let method := match body with None => "GET" | Some _ => "POST" end in
  if some_file (r_tls p) then
    _ ← eff_require (negb (incomplete (r_tls p)))
          "remote prover mTLS requires client certificate, key, and CA";
    requestThresholdJson url body
      {| ro_method := Some method; ro_bearerToken := r_bearerToken p; ro_tls := r_tls p |}
  else
    fetchJson {| hc_url := url; hc_method := method;
                 hc_headers := headers p (match body with
                                          | None => []
                                          | Some _ => [("content-type", "application/json")]
                                          end);
                 hc_body := body; hc_tls := None |}.

(** The key that a status tells. *)
Definition statusKey (status : value) (expectedKeyHash : option string) : result remote_key :=
  publicKey ← prop status "publicKey";
  publicKey ← normalizePublicKey publicKey;
  let keyHash := serviceKeyHash publicKey in
  address ← addressForPublicKey (coordinates_value publicKey);
  same ← absent_or_same (prop_opt status "serviceKeyHash") keyHash;
  _ ← require same "remote prover status contains an inconsistent service key hash";
  same ← absent_or_same (match expectedKeyHash with Some h => VStr h | None => VUndef end) keyHash;
  _ ← require same "remote prover key does not match --proof-key-hash";
  Ok {| rk_publicKey := publicKey; rk_keyHash := keyHash; rk_proofKeyAddress := address |}.
Definition initializeRemote (p : remote_provider) (expectedKeyHash : option string) : eff nat remote_key :=
  status ← remoteRequest p "/v1/status" None;
  eff_lift (statusKey status expectedKeyHash).

Definition proofPayload (k : remote_key) (q : proof_query) : result value :=
  witness ← match q_compactWitness q with
            | VUndef => Ok []
            | w => s ← serializeCompactWitness w; Ok [("compactWitness", s)]
            end;
  Ok (VObj ([("scheme", VStr "SECP256K1_ECVRF_V1"); ("serviceKeyHash", VStr (rk_keyHash k));
             ("requestId", VStr (to_str (q_requestId q))); ("coordinator", q_coordinator q);
             ("chainId", VStr (to_str (q_chainId q)))] ++ witness)).

Record remote_result := {
  rr_proof : vrf_proof; rr_output : Z; rr_publicKey : Z * Z; rr_serviceKeyHash : string
}.

(** What [prove] makes of an answer. *)
Definition checkRemoteProof (k : remote_key) (q : proof_query) (answer : value) : result remote_result :=
  hash ← prop answer "serviceKeyHash";
  same ← match hash with
         | VUndef | VNull => Ok false
         | h => h ← to_lower h; Ok (bool_decide (h = rk_keyHash k))
         end;
  _ ← require same "remote prover response key does not match the configured key";
  let different := "remote prover resolved a different canonical request seed" in
  a ← to_bigint (prop_opt answer "actualSeed");
  b ← to_bigint (q_actualSeed q);
  _ ← require (a =? b) different;
  a ← to_bigint (prop_opt answer "preSeed");
  b ← to_bigint (q_preSeed q);
  _ ← require (a =? b) different;
  proof ← normalizeProof (prop_opt answer "proof") (q_preSeed q);
  _ ← require (bool_decide (serviceKeyHash (pk proof) = rk_keyHash k))
        "remote prover proof public key does not match the configured key";
  output ← outputForProof (proof_value proof);
  Ok {| rr_proof := proof; rr_output := output; rr_publicKey := rk_publicKey k;
        rr_serviceKeyHash := rk_keyHash k |}.

Definition remoteProve (p : remote_provider) (k : remote_key) (q : proof_query) : eff nat remote_result :=
  payload ← eff_lift (proofPayload k q);
  answer ← remoteRequest p "/v1/proofs" (Some payload);
  eff_lift (checkRemoteProof k q answer).

(** ** The signing nodes of a group *)

Definition THRESHOLD_MESSAGE_DOMAIN : string :=
  keccak256 (toUtf8Bytes "ROBINHOOD_PROOF_VRF_THRESHOLD_BLS_MESSAGE_V1").
Definition THRESHOLD_OUTPUT_DOMAIN : string :=
  keccak256 (toUtf8Bytes "ROBINHOOD_PROOF_VRF_THRESHOLD_BLS_OUTPUT_V1").

Record threshold_options := {
  to_manifestPath : result value; to_previousManifestPath : option (result value);
  to_trustedPreviousManifestHash : value; to_allowLoopback : bool;
  to_bearerToken : option string;
  to_clientCertificatePath : option (result bytes); to_clientKeyPath : option (result bytes);
  to_caCertificatePath : option (result bytes)
}.
Record threshold_provider := {
  tp_group : group; tp_bearerToken : option string; tp_tls : tls_files
}.

Definition newThresholdProvider (o : threshold_options) : result threshold_provider :=
  manifest ← to_manifestPath o;
  previous ← read_optional (to_previousManifestPath o);
  g ← validateGroupManifest manifest {|
    allowLoopback := to_allowLoopback o; previousManifest := default VUndef previous;
    trustedPreviousManifestHash := to_trustedPreviousManifestHash o |};
  certificate ← read_optional (to_clientCertificatePath o);
  key ← read_optional (to_clientKeyPath o);
  ca ← read_optional (to_caCertificatePath o);
  let files := {| clientCertificate := certificate; clientKey := key; caCertificate := ca |} in
  _ ← require (to_allowLoopback o || negb (incomplete files))
        "threshold aggregation requires a client certificate, key, and CA";
  Ok {| tp_group := g; tp_bearerToken := to_bearerToken o; tp_tls := files |}.

Definition thresholdMessage (p : threshold_provider) (q : proof_query) : string :=
  keccak256 (abi_encode ["bytes32"; "uint256"; "address"; "bytes32"; "uint256"; "uint256"]
    [VStr THRESHOLD_MESSAGE_DOMAIN; q_chainId q; VStr (b_verifierAdapter (g_body (tp_group p)));
     VStr (ThresholdGroup.g_keyHash (tp_group p)); q_actualSeed q; q_preSeed q]).

(** A verified share, with the participant it came from. *)
Record valid_share := { v_participantId : string; v_index : Z; v_publicKey : string; v_signature : value }.

Definition askParticipant (p : threshold_provider) (requestId : value) (message : string)
    (participant : participant) : eff nat valid_share :=
  response ← requestThresholdJson (p_endpoint participant +:+ "/v1/partial")
    (Some (VObj [("requestId", VStr (to_str requestId))]))
    {| ro_method := None; ro_bearerToken := tp_bearerToken p; ro_tls := tp_tls p |};
  body ← eff_lift (verifyPartialResponse response participant
    {| e_manifestHash := VStr (g_manifestHash (tp_group p)); e_keyHash := VStr (ThresholdGroup.g_keyHash (tp_group p));
       e_requestId := requestId; e_message := VStr message |});
  mret {| v_participantId := p_id participant; v_index := p_index participant;
          v_publicKey := p_sharePublicKey participant; v_signature := prop_opt body "signature" |}.

(** The outcomes of the requests to all participants, in their order. *)
Definition gatherShares (p : threshold_provider) (requestId : value) (message : string)
    : eff nat (list (result valid_share)) :=
  mapM (λ participant, outcome (askParticipant p requestId message participant))
    (b_participants (g_body (tp_group p))).

Definition share_le (a b : valid_share) : Prop := v_index a <= v_index b.
#[export] Instance share_le_dec a b : Decision (share_le a b).
Proof. unfold share_le. apply _. Defined.

Definition fulfilled_values {A} (results : list (result A)) : list A :=
  omap (λ r, match r with Ok a => Some a | Throw _ => None end) results.
(** [reason?.message || String(reason)] of an error *)
Definition reasons {A} (results : list (result A)) : list string :=
  omap (λ r, match r with
             | Ok _ => None
             | Throw e => Some (if bool_decide (e = "") then "Error" else e)
             end) results.

Record threshold_result := {
  tr_proofData : bytes; tr_output : Z; tr_signature : string; tr_message : string;
  tr_shareIndexes : list string; tr_manifestHash : string
}.

Definition aggregate_share (v : valid_share) : share := {|
  share_index := VNum (v_index v); share_publicKey := JsVal (VStr (v_publicKey v));
  share_signature := JsVal (v_signature v)
|}.

Definition proofDataOf (groupPublicKey signature : string) : bytes :=
  abi_encode ["bytes"; "bytes"] [VStr groupPublicKey; VStr signature].
Definition thresholdOutput (message signature : string) : result Z :=
  hash ← keccak256_hex signature;
  Ok (hashBig (abi_encode ["bytes32"; "bytes32"; "bytes32"]
                 [VStr THRESHOLD_OUTPUT_DOMAIN; VStr message; VStr hash])).

(** What the provider makes of the outcomes. *)
Definition combineShares (g : group) (message : string) (results : list (result valid_share))
    : result threshold_result :=
  let threshold := b_threshold (g_body g) in
  let valid := merge_sort share_le (fulfilled_values results) in
  _ ← require (threshold <=? Z.of_nat (length valid))
        ("received " +:+ print_int (Z.of_nat (length valid)) +:+ "/" +:+ print_int threshold
         +:+ " valid shares: " +:+ join "; " (reasons results));
  aggregate ← aggregateThresholdShares (JsVal (VStr message))
    (JsVal (VStr (b_groupPublicKey (g_body g)))) (VNum threshold)
    (Some (aggregate_share <$> take (Z.to_nat threshold) valid));
  output ← thresholdOutput message aggregate.1;
  Ok {| tr_proofData := proofDataOf (b_groupPublicKey (g_body g)) aggregate.1; tr_output := output;
        tr_signature := aggregate.1; tr_message := message; tr_shareIndexes := aggregate.2;
        tr_manifestHash := g_manifestHash g |}.

Definition thresholdProve (p : threshold_provider) (q : proof_query) : eff nat threshold_result :=
  chainId ← eff_lift (to_bigint (q_chainId q));
  _ ← eff_require (chainId =? b_chainId (g_body (tp_group p)))
        "operator chain does not match the threshold manifest";
  let message := thresholdMessage p q in
  results ← gatherShares p (q_requestId q) message;
  eff_lift (combineShares (tp_group p) message results).

(** ** The provider an operator is configured with *)

Record provider_options := {
  po_keyPath : option (result value); po_password : option string;
  po_proverUrl : option string; po_bearerToken : option string;
  po_proverClientCertificatePath : option (result bytes);
  po_proverClientKeyPath : option (result bytes); po_proverCaCertificatePath : option (result bytes);
  po_expectedKeyHash : option string;
  po_threshold : option threshold_options     (* given with the path of a manifest *)
}.
Inductive proof_provider :=
  | LocalKeystore (p : local_provider)
  | RemoteProver (p : remote_provider) (k : remote_key)
  | ThresholdBls (p : threshold_provider).

Definition createProofProvider (o : provider_options) : eff nat proof_provider :=
  let hasLocal := bool_decide (is_Some (po_keyPath o)) in
  let hasRemote := bool_decide (is_Some (nonempty (po_proverUrl o))) in
  let hasThreshold := bool_decide (is_Some (po_threshold o)) in
  _ ← eff_require (Z.b2z hasLocal + Z.b2z hasRemote + Z.b2z hasThreshold =? 1)
        "configure exactly one of --keystore, --prover-url, or --threshold-manifest";
  match po_keyPath o, po_threshold o with
  | Some _, _ => p ← eff_lift (loadLocalProvider (po_keyPath o) (po_password o)); mret (LocalKeystore p)
  | None, Some options => p ← eff_lift (newThresholdProvider options); mret (ThresholdBls p)
  | None, None =>
      p ← eff_lift (newRemoteProvider {|
        rp_baseUrl := VStr (default "" (po_proverUrl o)); rp_bearerToken := po_bearerToken o;
        rp_clientCertificatePath := po_proverClientCertificatePath o;
        rp_clientKeyPath := po_proverClientKeyPath o;
        rp_caCertificatePath := po_proverCaCertificatePath o |});
      k ← initializeRemote p (po_expectedKeyHash o);
      mret (RemoteProver p k)
  end.
End provider.
