(* ===== verification/ThresholdProof.v ===== *)
(** * The threshold provider always makes the group's one proof ([proof-provider.mjs])

    Whatever answers the nodes of a group give, the provider makes the signature
    of the group's secret if enough answers verify, and refuses otherwise. *)

From S2P Require Import Prelude Js Hex CanonicalJson Json JsonText Vendor Interpolation ScalarField ThresholdCrypto ThresholdGroup DkgShares DkgCeremony Policies Compact ThresholdNode NodeSafety NodeRecovery ErrorText Ecvrf ProofProvider Samples.

Open Scope Z_scope.

(** ** Settled promises *)

Lemma outcome_eq {S A} (m : eff S A) s : outcome m s = (Ok (m s).1, (m s).2).
Proof. unfold outcome. by destruct (m s). Qed.

Lemma mapM_outcome {S A B} (f : A → eff S B) l s :
  ∃ rs s', mapM (λ x, outcome (f x)) l s = (Ok rs, s') ∧
    Forall2 (λ x r, ∃ u, (f x u).1 = r) l rs.
Proof.
  revert s. induction l as [|x l IH]; intros s; [by exists [], s|].
  destruct (IH (f x s).2) as (rs & s' & E & Hrs). exists ((f x s).1 :: rs), s'.
  split; [|constructor; eauto].
  apply eff_bind_Ok. eexists _, _. split; [apply outcome_eq|].
  apply eff_bind_Ok. eexists _, _. split; [exact E|done].
Qed.

Lemma fulfilled_values_cons {A} (r : result A) rs :
  fulfilled_values (r :: rs) = match r with Ok a => a :: fulfilled_values rs | Throw _ => fulfilled_values rs end.
Proof. by destruct r. Qed.

(** The shares that verify, in the order of the participants. *)
Lemma fulfilled_sublist {A B} (P : A → B → Prop) (l : list A) (rs : list (result B)) :
  Forall2 (λ x r, ∀ b, r = Ok b → P x b) l rs →
  ∃ k, k `sublist_of` l ∧ Forall2 P k (fulfilled_values rs).
Proof.
  induction 1 as [|x r l rs Hx _ (k & Hk & HP)]; [by exists []|].
  rewrite fulfilled_values_cons. destruct r as [b|e].
  - exists (x :: k). split; [by constructor|]. constructor; auto.
  - exists k. split; [by constructor|done].
Qed.

Lemma sublist_StronglySorted {A} (R : A → A → Prop) l k :
  k `sublist_of` l → StronglySorted R l → StronglySorted R k.
Proof.
  induction 1 as [|x l k Hk IH|x l k Hk IH]; intros Hs; [done|..].
  - apply StronglySorted_inv in Hs as [Hs Hx]. constructor; [by apply IH|].
    rewrite Forall_forall in *. intros y Hy. apply Hx. by eapply elem_of_submseteq, sublist_submseteq.
  - apply StronglySorted_inv in Hs as [Hs _]. by apply IH.
Qed.

(** Outcomes that are values for [k] are at least that many values. *)
Lemma fulfilled_length {A B} (l k : list A) (rs : list (result B)) (Q : A → result B → Prop) :
  Forall2 Q l rs → k `sublist_of` l → Forall (λ x, ∀ r, Q x r → ∃ b, r = Ok b) k →
  (length k ≤ length (fulfilled_values rs))%nat.
Proof.
  intros Hrs. revert k. induction Hrs as [|x r l rs Hx Hrs IH]; intros k Hk Hok.
  - apply sublist_nil_r in Hk as ->. done.
  - apply sublist_cons_r in Hk as [Hk|(k' & -> & Hk)].
    + specialize (IH k Hk Hok). rewrite fulfilled_values_cons. destruct r; cbn; lia.
    + apply Forall_cons in Hok as [Hr Hok]. destruct (Hr r Hx) as [b ->].
      rewrite fulfilled_values_cons. specialize (IH k' Hk Hok). cbn. lia.
Qed.

Lemma StronglySorted_fmap {A} (f : A → Z) l :
  StronglySorted Z.lt (f <$> l) ↔ StronglySorted (λ a b, f a < f b) l.
Proof.
  induction l as [|x l IH]; cbn; [split; constructor|]. split.
  - intros [Hs Hx]%StronglySorted_inv. constructor; [by apply IH|]. exact (proj1 (Forall_fmap _ _ _) Hx).
  - intros [Hs Hx]%StronglySorted_inv. constructor; [by apply IH|]. exact (proj2 (Forall_fmap _ _ _) Hx).
Qed.

Lemma StronglySorted_lt_NoDup (l : list Z) : StronglySorted Z.lt l → NoDup l.
Proof.
  induction 1 as [|x l _ IH Hx]; constructor; [|done]. rewrite Forall_forall in Hx.
  intros Hin. specialize (Hx x Hin). lia.
Qed.

Lemma StronglySorted_impl {A} (R S : A → A → Prop) l :
  (∀ a b, R a b → S a b) → StronglySorted R l → StronglySorted S l.
Proof.
  intros HRS. induction 1 as [|x l _ IH Hx]; [constructor|]. constructor; [done|].
  eapply Forall_impl; [exact Hx|]. auto.
Qed.

(** Sorting shares that are in the order of their indexes changes nothing. *)
Lemma merge_sort_shares l : StronglySorted Z.lt (v_index <$> l) → merge_sort share_le l = l.
Proof.
  intros Hs. pose proof (StronglySorted_lt_NoDup _ Hs) as Hnd.
  assert (Total share_le) by (intros a b; unfold share_le; lia).
  assert (Transitive share_le) by (intros a b d; unfold share_le; lia).
  apply (Sorted_unique_strong share_le).
  - intros a b Ha Hb Hab Hba. rewrite merge_sort_Permutation in Ha.
    apply list_elem_of_lookup in Ha as [i Ha], Hb as [j Hb].
    assert (i = j) as ->; [|congruence]. unfold share_le in *.
    eapply (NoDup_lookup (v_index <$> l)); [done|rewrite list_lookup_fmap, Ha; reflexivity|].
    rewrite list_lookup_fmap, Hb. cbn. f_equal. lia.
  - by apply Sorted_merge_sort.
  - apply StronglySorted_Sorted. eapply StronglySorted_impl; [|by apply StronglySorted_fmap].
    unfold share_le. lia.
  - apply merge_sort_Permutation.
Qed.

Section combine.
Context `{Ethers, !EthersLaws, NobleBls, !BlsLaws, !NodeCrypto, UrlApi}.

(** The participants of a manifest are in the order of their indexes. *)
Lemma roster_sorted Cs t ps : wf_participants Cs t ps → StronglySorted Z.lt (p_index <$> ps).
Proof.
  intros Hwf. assert (p_index <$> ps = seqZ 1 (Z.of_nat (length ps))) as ->.
  { apply list_eq. intros i. rewrite list_lookup_fmap. destruct (ps !! i) as [p|] eqn:E; cbn.
    - pose proof (lookup_lt_Some _ _ _ E). symmetry. apply lookup_seqZ.
      destruct (wf_index _ _ _ Hwf i p E) as [-> _]. lia.
    - symmetry. apply lookup_ge_None in E. apply lookup_ge_None. rewrite length_seqZ. lia. }
  generalize 1. induction (length ps) as [|n IH]; intros z; [constructor|].
  rewrite Nat2Z.inj_succ, seqZ_cons by lia. rewrite Z.pred_succ. constructor; [apply IH|].
  apply Forall_forall. intros x Hx%elem_of_seqZ. lia.
Qed.

(** A share that the provider accepted of a participant. *)
Definition accepted_share (message : string) (p : participant) (v : valid_share) : Prop :=
  v_participantId v = p_id p ∧ v_index v = p_index p ∧ v_publicKey v = p_sharePublicKey p ∧
  pairing_check (JsVal (VStr message)) (JsVal (VStr (p_sharePublicKey p))) (JsVal (v_signature v)).

Context (g : group) (c : list Z).
Context (Hwf : wf_body ((λ a, smul a base2) <$> c) (g_body g)).

Lemma accepted_honest message p v :
  p ∈ b_participants (g_body g) → accepted_share message p v →
  honest_share (JsVal (VStr message)) c (v_index v) (aggregate_share v).
Proof.
  intros Hp (_ & Hi & Hk & Hv). pose proof (wf_members _ _ Hwf) as Hm.
  apply list_elem_of_lookup in Hp as Hl. destruct Hl as [i Hl].
  destruct (wf_index _ _ _ Hm i p Hl) as [Hix Hio]. destruct (wf_share _ _ _ Hm p Hp) as [Hs _].
  split_and!; cbn.
  - done.
  - lia.
  - lia.
  - rewrite Hk, Hs, Hi, point_eval_smul. apply wireHex_bytes.
  - rewrite Hk. by apply verifyPartialSignature_spec.
Qed.

Lemma group_secret :
  zpeval c 0 mod order ≠ 0 ∧
  source_bytes (JsVal (VStr (b_groupPublicKey (g_body g)))) = Some (c_encode (smul (zpeval c 0) base2)).
Proof.
  pose proof order_pos. destruct (wf_key _ _ Hwf) as (K & HK & HKz & ->).
  destruct c as [|a c']; [done|]. cbn in HK. injection HK as <-.
  assert (smul (zpeval (a :: c') 0) base2 = smul a base2) as E.
  { apply smul_congr. cbn. by rewrite Z.mul_0_l, Z.add_0_r. }
  rewrite E. split; [|apply wireHex_bytes]. intros Hz. apply HKz. rewrite <-E.
  rewrite (smul_congr _ 0), smul_0; [done|lia|]. by rewrite Hz, Z.mod_0_l by lia.
Qed.

(** What the provider makes of the outcomes: the one proof, or a refusal. *)
Lemma combineShares_exact message results :
  Forall2 (λ p r, ∀ v, r = Ok v → accepted_share message p v) (b_participants (g_body g)) results →
  let t := b_threshold (g_body g) in
  let valid := fulfilled_values results in
  if decide (t <= Z.of_nat (length valid)) then
    ∃ sig output, signPartial (JsVal (VStr message)) (VBig (zpeval c 0)) = Ok sig ∧
      thresholdOutput message sig = Ok output ∧
      combineShares g message results = Ok {|
        tr_proofData := proofDataOf (b_groupPublicKey (g_body g)) sig; tr_output := output;
        tr_signature := sig; tr_message := message;
        tr_shareIndexes := print_int <$> take (Z.to_nat t) (v_index <$> valid);
        tr_manifestHash := g_manifestHash g |}
  else ∃ e, combineShares g message results = Throw e.
Proof.
  intros Hr t valid. destruct (fulfilled_sublist _ _ _ Hr) as (ps & Hps & Hv). fold valid in Hv.
  destruct (wf_threshold _ _ Hwf) as [Ht Hsafe]. fold t in Ht, Hsafe.
  pose proof (roster_sorted _ _ _ (wf_members _ _ Hwf)) as Hroster.
  assert (StronglySorted Z.lt (v_index <$> valid)) as Hsorted.
  { assert (v_index <$> valid = p_index <$> ps) as ->.
    { symmetry. apply list_eq_Forall2, Forall2_fmap_2. eapply Forall2_impl; [exact Hv|].
      by intros p v (_ & -> & _). }
    apply StronglySorted_fmap. apply (StronglySorted_fmap p_index) in Hroster.
    by eapply sublist_StronglySorted. }
  unfold combineShares. fold t valid. rewrite merge_sort_shares by done.
  case_decide as Hle.
  2: { rewrite (proj2 (Z.leb_gt _ _)) by lia. by eexists. }
  rewrite (proj2 (Z.leb_le _ _)) by done. cbn [require mbind result_bind].
  set (chosen := take (Z.to_nat t) valid).
  destruct group_secret as [Hsec Hkey].
  assert (Z.of_nat (length chosen) = t) as Hlen by (unfold chosen; rewrite length_take; lia).
  destruct (aggregate_honest_shares (JsVal (VStr message))
    (JsVal (VStr (b_groupPublicKey (g_body g)))) t c (v_index <$> chosen)
    (aggregate_share <$> chosen)) as (sig & Hagg & Hsign).
  - apply Forall2_fmap_2, Forall_Forall2_diag, Forall_take, Forall_forall. intros v Hin.
    apply list_elem_of_lookup in Hin as [i Hi].
    destruct (Forall2_lookup_r _ _ _ _ _ Hv Hi) as (p & Hp & Ha).
    apply (accepted_honest _ p); [|done]. eapply elem_of_submseteq; [|by apply sublist_submseteq].
    by eapply list_elem_of_lookup_2.
  - unfold chosen. rewrite fmap_take. apply StronglySorted_lt_NoDup.
    eapply sublist_StronglySorted; [|exact Hsorted]. apply sublist_take.
  - rewrite length_fmap. lia.
  - done.
  - rewrite <-(length_fmap (λ a, smul a base2)). rewrite (wf_degree _ _ Hwf). done.
  - done.
  - done.
  - apply signPartial_Ok in Hsign as Hs. destruct Hs as (s & M & _ & _ & _ & Hsig).
    assert (∃ output, thresholdOutput message sig = Ok output) as [output Hout].
    { unfold thresholdOutput, keccak256_hex. rewrite Hsig. unfold wireHex.
      rewrite getBytes_hexlify. by eexists. }
    exists sig, output. split; [done|]. split; [done|]. rewrite Hagg. cbn [mbind result_bind fst snd].
    rewrite Hout. cbn [mbind result_bind]. unfold chosen. by rewrite fmap_take.
Qed.
End combine.

(** ** The provider *)
Section provider.
Context `{Ethers, !EthersLaws, NobleBls, !BlsLaws, !NodeCrypto, UrlApi, HttpApi}.
Context (p : threshold_provider) (q : proof_query) (c : list Z).

(** The provider was made from a manifest that was validated, and [c] is the
    polynomial behind its commitments. *)
Definition provider_of (m : value) (o : group_options) : Prop :=
  validateGroupManifest m o = Ok (tp_group p) ∧
  b_publicCoefficients (g_body (tp_group p)) = (λ a, wireHex (smul a base2)) <$> c.

Lemma provider_wf m o : provider_of m o → wf_body ((λ a, smul a base2) <$> c) (g_body (tp_group p)).
Proof.
  intros [(Hb & _)%validateGroupManifest_Ok Hc]. destruct (normalizeBody_wf _ _ _ Hb) as [Cs Hwf].
  rewrite (wf_commitments _ _ Hwf) in Hc.
  assert (Cs = (λ a, smul a base2) <$> c) as ->; [|done]. clear Hwf Hb.
  revert Cs Hc. induction c as [|a c' IH]; intros [|C Cs] E; try done. injection E as EC E.
  cbn. f_equal; [by apply wireHex_inj|by apply IH].
Qed.

(** A share that is returned was accepted. *)
Lemma askParticipant_accepted r message participant n v :
  (askParticipant p r message participant n).1 = Ok v → accepted_share message participant v.
Proof.
  intros Ha. destruct (askParticipant p r message participant n) as [res n'] eqn:E. cbn in Ha. subst res.
  apply eff_bind_Ok in E as (response & n1 & _ & E). apply eff_lift_bind_Ok in E as (body & Hb & E).
  injection E as <- _.
  assert (verifyPartialResponse response participant (expects (g_manifestHash (tp_group p))
    (ThresholdGroup.g_keyHash (tp_group p)) (to_str r) message) = Ok body) as Hv by exact Hb.
  apply verifyPartialResponse_Ok in Hv as (_ & _ & m & Hm & Hl & Hp). split_and!; [done..|].
  cbn [v_signature]. destruct Hp as (M & S & K & t & (b & Hbm & HM) & Hp).
  exists M, S, K, t. split; [|done]. exists b. split; [|done]. cbn in *.
  by rewrite <-(getBytes_lower_eq _ _ Hl).
Qed.

Lemma gatherShares_settles r message n :
  ∃ results n', gatherShares p r message n = (Ok results, n') ∧
    Forall2 (λ participant res, ∃ u, (askParticipant p r message participant u).1 = res)
      (b_participants (g_body (tp_group p))) results.
Proof. apply mapM_outcome. Qed.

Lemma results_accepted r message results :
  Forall2 (λ participant res, ∃ u, (askParticipant p r message participant u).1 = res)
    (b_participants (g_body (tp_group p))) results →
  Forall2 (λ participant res, ∀ v, res = Ok v → accepted_share message participant v)
    (b_participants (g_body (tp_group p))) results.
Proof.
  intros Hr. eapply Forall2_impl; [exact Hr|]. cbn. intros participant res [u <-] v.
  apply askParticipant_accepted.
Qed.

Lemma thresholdProve_run results r n n' :
  to_bigint (q_chainId q) = Ok (b_chainId (g_body (tp_group p))) →
  gatherShares p (q_requestId q) (thresholdMessage p q) n = (Ok results, n') →
  combineShares (tp_group p) (thresholdMessage p q) results = r → thresholdProve p q n = (r, n').
Proof.
  intros Hchain E <-. unfold thresholdProve, mbind, eff_bind, eff_require, eff_lift. rewrite Hchain.
  rewrite Z.eqb_refl. cbn [require]. cbv beta iota. by rewrite E.
Qed.

(** C25: whatever the signing nodes answer, and whichever of them answer, a
    provider of a validated manifest makes a proof if and only if the answers of at
    least [threshold] participants verify; the proof is then the one signature of
    the group's secret over the message, its output depends on nothing else, and
    the shares that made it are those of the first verified participants. *)
Theorem threshold_proof_exact m o n :
  provider_of m o → to_bigint (q_chainId q) = Ok (b_chainId (g_body (tp_group p))) →
  let message := thresholdMessage p q in
  let t := b_threshold (g_body (tp_group p)) in
  ∃ results n', gatherShares p (q_requestId q) message n = (Ok results, n') ∧
    let valid := fulfilled_values results in
    if decide (t <= Z.of_nat (length valid)) then
      ∃ sig output, signPartial (JsVal (VStr message)) (VBig (zpeval c 0)) = Ok sig ∧
        thresholdOutput message sig = Ok output ∧
        thresholdProve p q n = (Ok {|
          tr_proofData := proofDataOf (b_groupPublicKey (g_body (tp_group p))) sig;
          tr_output := output; tr_signature := sig; tr_message := message;
          tr_shareIndexes := print_int <$> take (Z.to_nat t) (v_index <$> valid);
          tr_manifestHash := g_manifestHash (tp_group p) |}, n')
    else ∃ e, thresholdProve p q n = (Throw e, n').
Proof.
  intros Hp Hchain message t.
  destruct (gatherShares_settles (q_requestId q) message n) as (results & n' & E & Hr).
  exists results, n'. split; [done|]. intros valid.
  pose proof (combineShares_exact (tp_group p) c (provider_wf m o Hp) message results
    (results_accepted _ _ _ Hr)) as Hc. cbn zeta in Hc.
  fold t valid in Hc. case_decide.
  - destruct Hc as (sig & output & ? & ? & Hc). exists sig, output.
    split_and!; [done..|]. by apply (thresholdProve_run results).
  - destruct Hc as [e Hc]. exists e. by apply (thresholdProve_run results).
Qed.

(** ** Honest nodes *)
Context `{!NodeCryptoLaws}.

(** A node that answers each call with the response it builds from its share. *)
Definition honest_node (share : value) (key : ed_private) (participant : participant) : Prop :=
  signs_for key participant ∧
  is_Some (parse_url (p_endpoint participant +:+ "/v1/partial")) ∧
  ∃ response length, length <= 1000000 ∧
    buildPartialResponse participant (g_manifestHash (tp_group p))
      (ThresholdGroup.g_keyHash (tp_group p)) (to_str (q_requestId q)) (thresholdMessage p q) share key
    = Ok response ∧
    ∀ n call, hc_url call = p_endpoint participant +:+ "/v1/partial" →
      http n call = Answered 200 length (Some response).

Lemma honest_node_answers share key participant u :
  hash_nonzero → honest_node share key participant →
  ∃ v, (askParticipant p (q_requestId q) (thresholdMessage p q) participant u).1 = Ok v.
Proof.
  intros Hz (Hkey & [url Hurl] & response & len & Hlen & Hb & Hhttp).
  pose proof (built_response_verifies _ _ _ _ _ _ _ _ Hz Hkey Hb) as Hv.
  unfold askParticipant, requestThresholdJson, mbind, eff_bind, eff_lift. rewrite Hurl.
  cbn [from_option_or send_http]. unfold send_http. rewrite Hhttp by done.
  rewrite (proj2 (Z.leb_le _ _) Hlen). cbn [require mbind result_bind].
  change (ok_status 200) with true. cbn [require mbind result_bind from_option_or].
  change (verifyPartialResponse response participant _) with
    (verifyPartialResponse response participant (expects (g_manifestHash (tp_group p))
       (ThresholdGroup.g_keyHash (tp_group p)) (to_str (q_requestId q)) (thresholdMessage p q))).
  rewrite Hv. by eexists.
Qed.

End provider.

(** ** The theorems at a group of which one node is down *)
Section examples.
#[local] Existing Instances sample_ethers sample_ethers_laws sample_bls sample_bls_laws
  sample_crypto sample_crypto_laws sample_url.

Definition sample_provider : threshold_provider := {|
  tp_group := sample_group_record; tp_bearerToken := None;
  tp_tls := {| clientCertificate := Some []; clientKey := Some []; caCertificate := Some [] |}
|}.
Definition sample_query : proof_query := {|
  q_actualSeed := VBig 99; q_preSeed := VBig 5; q_requestId := VBig 7; q_coordinator := VUndef;
  q_chainId := VNum 46630; q_compactWitness := VUndef
|}.
Definition sample_answer (i : nat) : value :=
  result_or VNull (buildPartialResponse (sample_participant i) (g_manifestHash sample_group_record)
    (ThresholdGroup.g_keyHash sample_group_record) "7" (thresholdMessage sample_provider sample_query)
    (VBig (zpeval sample_group_poly (Z.of_nat i))) (sample_identity i)).
Definition sample_http : HttpApi := {|
  http _ call :=
    if decide (hc_url call = "https://node1/v1/partial") then Answered 200 900 (Some (sample_answer 1))
    else if decide (hc_url call = "https://node3/v1/partial") then Answered 200 900 (Some (sample_answer 3))
    else NoAnswer "connect ECONNREFUSED"
|}.
#[local] Existing Instance sample_http.

Lemma sample_provider_of : provider_of sample_provider [42; 7] sample_manifest sample_options.
Proof. split; [exact sample_manifest_valid|vm_refl]. Qed.

Lemma sample_honest i url :
  p_endpoint (sample_participant i) +:+ "/v1/partial" = url →
  (∀ n call, hc_url call = url → http n call = Answered 200 900 (Some (sample_answer i))) →
  is_ok (buildPartialResponse (sample_participant i) (g_manifestHash sample_group_record)
    (ThresholdGroup.g_keyHash sample_group_record) "7" (thresholdMessage sample_provider sample_query)
    (VBig (zpeval sample_group_poly (Z.of_nat i))) (sample_identity i)) = true →
  getBytes (p_identityPublicKey (sample_participant i)) = Some (sample_identity i) →
  bool_decide (is_Some (parse_url url)) = true →
  honest_node sample_provider sample_query (VBig (zpeval sample_group_poly (Z.of_nat i)))
    (sample_identity i) (sample_participant i).
Proof.
  intros Hurl Hhttp Hb Hs Hp. split; [exact Hs|].
  rewrite Hurl. split; [exact (bool_decide_eq_true_1 _ Hp)|].
  exists (sample_answer i), 900. split; [lia|]. split; [|exact Hhttp].
  unfold sample_answer. apply is_ok_true in Hb as [r Hr].
  change (to_str (q_requestId sample_query)) with "7". change (tp_group sample_provider) with sample_group_record.
  by rewrite Hr.
Qed.

Lemma threshold_proof_exact_witness :
  ∃ sig output n', thresholdProve sample_provider sample_query 0%nat = (Ok {|
    tr_proofData := proofDataOf (b_groupPublicKey sample_body) sig; tr_output := output;
    tr_signature := sig; tr_message := thresholdMessage sample_provider sample_query;
    tr_shareIndexes := ["1"; "3"]; tr_manifestHash := g_manifestHash sample_group_record |}, n').
Proof.
  destruct (threshold_proof_exact sample_provider sample_query [42; 7] sample_manifest sample_options 0%nat
    sample_provider_of eq_refl) as (results & n' & E & Hd).
  assert (v_index <$> fulfilled_values (result_or [] (gatherShares sample_provider (q_requestId sample_query)
    (thresholdMessage sample_provider sample_query) 0%nat).1) = [1; 3]) as Hv by vm_refl.
  rewrite E in Hv. cbn [result_or fst] in Hv.
  assert (length (fulfilled_values results) = 2%nat) as Hl
    by (rewrite <-(length_fmap v_index), Hv; reflexivity).
  cbn zeta in Hd. rewrite Hl, Hv in Hd. rewrite decide_True in Hd by (cbn; lia).
  destruct Hd as (sig & output & _ & _ & Hd). exists sig, output, n'. exact Hd.
Defined.

End examples.
