(* ===== verification/ProverServer.v ===== *)
(** * The remote prover ([prover-server.mjs])

    A server with one encrypted key: it resolves a request over independent RPC
    endpoints, or a compact witness, and answers with the proof of its seed.  The
    answer of an endpoint for a request that is not compact is that of the
    configured coordinator; the hash loops of the proof take fuel. *)

From S2P Require Import Prelude Js Hex CanonicalJson JsonText Json Vendor ScalarField ThresholdCrypto ThresholdGroup DkgShares DkgCeremony Policies Compact ThresholdNode ErrorText Ecvrf VrfContract EcvrfMath EcvrfProof ProofProvider.

Open Scope Z_scope.

Record prover_options := {
  s_keystore : result value;             (* the parsed file at [keystorePath] *)
  s_password : string; s_bearerToken : option string; s_coordinator : string; s_chainId : value;
  s_rpcUrls : value; s_allowSharedRpcOrigin : bool; s_host : string; s_allowHttpLoopback : bool;
  s_tlsKeyPath : option (result bytes); s_tlsCertPath : option (result bytes);
  s_tlsCaPath : option (result bytes)
}.
Record prover := { pv_wallet : wallet; pv_publicKey : Z * Z; pv_keyHash : string }.
(** What is used of a resolved request. *)
Record resolved_request := { rs_actualSeed : value; rs_preSeed : value }.

Definition serializable_leaf (v : value) : value :=
  match v with
  | VArr l => VArr ((λ x, VStr (to_str x)) <$> l)
  | VBig z => VStr (print_int z)
  | v => v
  end.
Definition serializableProof (proof : value) : value :=
  VObj ((λ kv, (kv.1, serializable_leaf kv.2)) <$> object_fields proof).

Definition PROOF_KEYS : list string :=
  ["scheme"; "serviceKeyHash"; "requestId"; "coordinator"; "chainId"].

Section server.
Context `{Ethers, UrlApi, RpcApi, CompactInterface, RpcSend, Secp256k1, HmacApi, WalletApi}.

Definition normalizedRequest (r : chain_request) (actualSeed : Z) : string :=
  let text := λ s, VStr (lower s) in
  let big := λ z, VStr (print_int z) in
  stringify_fields
    [("consumer", text (r_consumer r)); ("verifier", text (r_verifier r));
     ("verifierCodeHash", text (r_verifierCodeHash r)); ("fulfiller", text (r_fulfiller r));
     ("payee", text (r_payee r)); ("keyHash", text (r_keyHash r));
     ("subscriptionId", big (r_subscriptionId r)); ("preSeed", big (r_preSeed r));
     ("reservedPayment", big (r_reservedPayment r)); ("randomness", big (r_randomness r));
     ("minimumFeeWei", big (r_minimumFeeWei r)); ("requestBlock", big (r_requestBlock r));
     ("expiresAtBlock", big (r_expiresAtBlock r)); ("maxGasPriceWei", big (r_maxGasPriceWei r));
     ("verificationGasLimit", VNum (r_verificationGasLimit r));
     ("proofDataLength", VNum (r_proofDataLength r));
     ("callbackGasLimit", VNum (r_callbackGasLimit r)); ("numWords", VNum (r_numWords r));
     ("callbackAttempts", VNum (r_callbackAttempts r));
     ("fulfillmentOverheadGas", VNum (r_fulfillmentOverheadGas r));
     ("confirmations", VNum (r_confirmations r)); ("premiumBps", VNum (r_premiumBps r));
     ("operatorPremiumShareBps", VNum (r_operatorPremiumShareBps r));
     ("status", VNum (r_status r)); ("sponsored", VBool (r_sponsored r));
     ("waiveMinimumFee", VBool (r_waiveMinimumFee r));
     ("callbackSucceeded", VBool (r_callbackSucceeded r));
     ("actualSeed", big actualSeed)].

Record proof_state := { ps_request : chain_request; ps_actualSeed : Z; ps_normalized : string }.

(** What one endpoint says about a request. *)
Definition readProofState (chainId : value) (keyHash : string) (requestId : value) (rpcUrl : string)
    : result proof_state :=
  network ← getNetwork (rpc rpcUrl);
  expected ← to_bigint chainId;
  _ ← require (network =? expected) "RPC chainId mismatch";
  request ← getRequest (rpc rpcUrl) requestId;
  _ ← require (r_status request =? 1) "request is not pending";
  _ ← require (bool_decide (lower (r_keyHash request) = lower keyHash))
        "request keyHash does not match the prover key";
  actualSeed ← requestSeed (rpc rpcUrl) requestId;
  Ok {| ps_request := request; ps_actualSeed := actualSeed;
        ps_normalized := normalizedRequest request actualSeed |}.

(** The request as the endpoints agree on it. *)
Definition resolveCoordinatorRequest (o : prover_options) (keyHash : string) (requestId : value)
    : result proof_state :=
  endpoints ← normalizeRpcUrls (s_rpcUrls o)
    {| minimum := 2; label := "remote prover"; allowSharedOrigin := s_allowSharedRpcOrigin o |};
  states ← mapM (readProofState (s_chainId o) keyHash requestId) endpoints;
  match states with
  | [] => Throw TYPE_ERROR
  | first :: _ =>
      _ ← require (forallb (λ s, bool_decide (ps_normalized s = ps_normalized first)) states)
            "independent RPC endpoints disagree on the canonical request";
      Ok first
  end.

Definition compactOptions (o : prover_options) (keyHash : string) (requestId witness : value)
    : compact_options := {|
  co_providers := None; co_rpcUrls := s_rpcUrls o; co_allowSharedOrigin := s_allowSharedRpcOrigin o;
  co_chainId := s_chainId o; co_coordinatorAddress := s_coordinator o; co_requestId := requestId;
  co_keyHash := VStr keyHash; co_includeSeed := true; co_witness := witness; co_fromBlock := VUndef;
  co_action := None; co_proofProvider := None; co_from := ""; co_gasPriceWei := VUndef;
  co_gasLimit := VUndef
|}.

Definition resolveProofRequest (o : prover_options) (keyHash : string)
    (requestId compactWitness : value) : eff nat resolved_request :=
  match compactWitness with
  | VUndef =>
      s ← eff_lift (resolveCoordinatorRequest o keyHash requestId);
      mret {| rs_actualSeed := VBig (ps_actualSeed s); rs_preSeed := VBig (r_preSeed (ps_request s)) |}
  | witness =>
      st ← verifyCompactWitnessConsensus (compactOptions o keyHash requestId witness);
      mret {| rs_actualSeed := st_actualSeed st; rs_preSeed := prop_opt (st_request st) "preSeed" |}
  end.

(** ** The handler *)

(** The keys of a request; a value that is not an object has others. *)
Definition own_keys (v : value) : result (list string) :=
  match v with
  | VUndef | VNull => Throw TYPE_ERROR
  | VObj fs => Ok (keys fs)
  | _ => Ok []
  end.

(** The check that a request is bound to this service. *)
Definition checkProofRequest (pv : prover) (o : prover_options) (body : value) : result unit :=
  let unbound := "proof request is not bound to this configured service" in
  names ← own_keys body;
  let exactKeys := PROOF_KEYS ++ (if bool_decide ("compactWitness" ∈ names) then ["compactWitness"] else []) in
  _ ← require (bool_decide (join "," (js_sort names) = join "," (js_sort exactKeys))
               && strict_eq (prop_opt body "scheme") (VStr "SECP256K1_ECVRF_V1")) unbound;
  hash ← to_lower (prop_opt body "serviceKeyHash");
  _ ← require (bool_decide (hash = lower (pv_keyHash pv))) unbound;
  coordinator ← to_lower (prop_opt body "coordinator");
  _ ← require (bool_decide (coordinator = lower (s_coordinator o))) unbound;
  chainId ← to_bigint (prop_opt body "chainId");
  expected ← to_bigint (s_chainId o);
  require ((chainId =? expected) && all_digits (to_str (prop_opt body "requestId"))) unbound.

(** The answer to a request whose seeds were resolved. *)
Definition proveResolved (fuel : nat) (pv : prover) (r : resolved_request) : option (result value) :=
  match (secret ← to_bigint (VStr (w_privateKey (pv_wallet pv)));
         seed ← to_bigint (rs_actualSeed r);
         preSeed ← to_bigint (rs_preSeed r); Ok (secret, seed, preSeed)) with
  | Throw e => Some (Throw e)
  | Ok (secret, seed, preSeed) =>
      g ← generateProof fuel secret seed preSeed None;
      Some (g ← g;
            Ok (VObj [("serviceKeyHash", VStr (pv_keyHash pv));
                      ("actualSeed", VStr (to_str (rs_actualSeed r)));
                      ("preSeed", VStr (to_str (rs_preSeed r)));
                      ("proof", serializableProof (proof_value (g_proof g)))]))
  end.

Definition proveRequest (fuel : nat) (pv : prover) (o : prover_options) (request : http_request)
    : eff nat (option (result value)) :=
  body ← eff_lift (http_body request);
  _ ← eff_lift (checkProofRequest pv o body);
  canonical ← resolveProofRequest o (pv_keyHash pv) (prop_opt body "requestId")
                (prop_opt body "compactWitness");
  mret (proveResolved fuel pv canonical).

(** The error an exception carries is its message. *)
Definition prover_error (message : string) : http_response :=
  let error := VObj [("message", VStr message)] in
  {| statusCode := 400; payload := VObj [("error", VStr (errorMessage error));
       ("details", VObj ((λ kv, (kv.1, VStr kv.2)) <$> errorDetails error))] |}.

Definition handleProof (fuel : nat) (pv : prover) (o : prover_options) (request : http_request)
    : eff nat (option http_response) :=
  if bool_decide (is_Some (nonempty (s_bearerToken o)))
     && negb (strict_eq (authorization request) (VStr ("Bearer " +:+ default "" (s_bearerToken o))))
  then mret (Some (error_response 401 "unauthorized"))
  else if bool_decide (method request = "GET") && bool_decide (url_path request = "/v1/status")
  then mret (Some {| statusCode := 200; payload := VObj
         [("publicKey", serializable_leaf (coordinates_value (pv_publicKey pv)));
          ("serviceKeyHash", VStr (pv_keyHash pv))] |})
  else if negb (bool_decide (method request = "POST"))
          || negb (bool_decide (url_path request = "/v1/proofs"))
  then mret (Some (error_response 404 "not found"))
  else eff_catch
    (answer ← proveRequest fuel pv o request;
     mret ((λ r, match r with
                 | Ok v => {| statusCode := 200; payload := v |}
                 | Throw e => prover_error e
                 end) <$> answer))
    (λ e, mret (Some (prover_error e))).

(** What [startProverServer] checks before it listens. *)
Definition startProverServer (o : prover_options) : result prover :=
  _ ← require (negb (s_allowHttpLoopback o) || bool_decide (s_host o ∈ LOOPBACK_HOSTS))
        "plaintext prover mode may bind only to a loopback host";
  payload ← s_keystore o;
  format ← prop payload "format";
  _ ← require (strict_eq format (VStr "proof-vrf-keystore-v1")) "unsupported VRF keystore";
  w ← fromEncryptedJson (prop_opt payload "encryptedKey") (s_password o);
  secret ← to_bigint (VStr (w_privateKey w));
  publicKey ← publicKeyFor secret;
  let keyHash := serviceKeyHash publicKey in
  same ← match prop_opt payload "serviceKeyHash" with
         | VUndef | VNull => Ok false
         | h => h ← to_lower h; Ok (bool_decide (h = lower keyHash))
         end;
  _ ← require same "VRF keystore key commitment mismatch";
  _ ← (if s_allowHttpLoopback o then Ok tt
       else
         _ ← require (bool_decide (is_Some (s_tlsKeyPath o)) && bool_decide (is_Some (s_tlsCertPath o))
                      && bool_decide (is_Some (s_tlsCaPath o)))
               "production prover requires TLS key, certificate, and client CA";
         _ ← read_optional (s_tlsKeyPath o); _ ← read_optional (s_tlsCertPath o);
         _ ← read_optional (s_tlsCaPath o); Ok tt);
  Ok {| pv_wallet := w; pv_publicKey := publicKey; pv_keyHash := keyHash |}.
End server.
