(* ===== verification/ProverSafety.v ===== *)
(** * What a remote prover proves, and what the operator accepts of it
    ([prover-server.mjs], [proof-provider.mjs])

    The server proves only requests that its endpoints agree on; the operator's
    provider accepts a server's answer exactly when the two resolved the same
    seeds, and then holds the very proof that was generated. *)

From S2P Require Import Prelude Js Hex CanonicalJson JsonText Json Vendor ScalarField ThresholdCrypto ThresholdGroup DkgShares DkgCeremony Policies Compact CompactSafety CompactConsensus ThresholdNode CanonicalRequest ErrorText Ecvrf VrfContract EcvrfMath EcvrfProof EcvrfSample ProofProvider ProverServer Samples.

Open Scope Z_scope.

(** ** Requests *)
Section requests.
Context `{Ethers, UrlApi, RpcApi, CompactInterface, RpcSend, Secp256k1, HmacApi, WalletApi}.

Lemma normalizedRequest_inj r seed r' seed' :
  normalizedRequest r seed = normalizedRequest r' seed' → same_request r r' ∧ seed = seed'.
Proof.
  unfold normalizedRequest, same_request. intros E.
  apply stringify_fields_inj in E; [|by repeat constructor..].
  destruct r, r'. cbn in E. simplify_eq. unfold lower_request. cbn.
  repeat match goal with Hp : print_int _ = print_int _ |- _ => apply print_int_inj in Hp end.
  subst. repeat match goal with Hp : @eq string _ _ |- _ => rewrite Hp; clear Hp end.
  split; reflexivity.
Qed.

(** What an endpoint must have answered for the server to prove. *)
Definition describes_proof (o : prover_options) (keyHash : string) (requestId : value) (s : proof_state)
    (url : string) : Prop :=
  ∃ request chainId,
    getNetwork (rpc url) = Ok chainId ∧ to_bigint (s_chainId o) = Ok chainId ∧
    getRequest (rpc url) requestId = Ok request ∧ r_status request = 1 ∧
    lower (r_keyHash request) = lower keyHash ∧
    requestSeed (rpc url) requestId = Ok (ps_actualSeed s) ∧ same_request request (ps_request s).

Lemma readProofState_Ok o keyHash requestId url s s0 :
  readProofState (s_chainId o) keyHash requestId url = Ok s →
  ps_normalized s = normalizedRequest (ps_request s0) (ps_actualSeed s0) →
  describes_proof o keyHash requestId s0 url.
Proof.
  unfold readProofState. intros Hr Hn.
  apply bind_Ok in Hr as (network & Hnet & Hr). apply bind_Ok in Hr as (expected & Hexp & Hr).
  apply bind_Ok in Hr as (? & ->%require_Ok%Z.eqb_eq & Hr).
  apply bind_Ok in Hr as (request & Hreq & Hr). apply bind_Ok in Hr as (? & Hst%require_Ok%Z.eqb_eq & Hr).
  apply bind_Ok in Hr as (? & Hk%require_Ok%bool_decide_eq_true & Hr).
  apply bind_Ok in Hr as (seed & Hseed & [= <-]). cbn in Hn.
  apply normalizedRequest_inj in Hn as [Hsame ->]. exists request, expected. by split_and!.
Qed.

Lemma resolveCoordinatorRequest_Ok o keyHash requestId s :
  resolveCoordinatorRequest o keyHash requestId = Ok s →
  ∃ urls, 2 <= Z.of_nat (length urls) ∧ NoDup urls ∧
    normalizeRpcUrls (s_rpcUrls o) {| minimum := 2; label := "remote prover";
      allowSharedOrigin := s_allowSharedRpcOrigin o |} = Ok urls ∧
    Forall (describes_proof o keyHash requestId s) urls.
Proof.
  unfold resolveCoordinatorRequest. intros Hr. apply bind_Ok in Hr as (urls & Hurls & Hr).
  apply bind_Ok in Hr as (states & Hs%mapM_Ok & Hr). destruct states as [|first states]; [done|].
  apply bind_Ok in Hr as (? & Hall%require_Ok & [= <-]). exists urls.
  pose proof (normalizeRpcUrls_Ok _ _ _ Hurls) as (Hnd & Hmin & _). split_and!; [done..|].
  assert (∃ url, readProofState (s_chainId o) keyHash requestId url = Ok first) as [url0 Hfirst]
    by (inversion Hs; eauto).
  assert (ps_normalized first = normalizedRequest (ps_request first) (ps_actualSeed first)) as Hn.
  { unfold readProofState in Hfirst. do 6 (apply bind_Ok in Hfirst as (? & _ & Hfirst)).
    by apply bind_Ok in Hfirst as (? & _ & [= <-]). }
  rewrite forallb_forall in Hall. apply Forall_forall. intros url Hu.
  apply list_elem_of_lookup in Hu as [i Hi].
  destruct (Forall2_lookup_l _ _ _ _ _ Hs Hi) as (s & Hsi & Hread).
  apply (readProofState_Ok _ _ _ _ s); [done|]. rewrite <-Hn.
  apply list_elem_of_lookup_2, list_elem_of_In in Hsi. apply Hall in Hsi.
  by apply bool_decide_eq_true in Hsi.
Qed.

(** The contract interface decodes a seed to an integer. *)
Definition seeds_decode : Prop :=
  ∀ raw v, decodeFunctionResult "requestSeed" raw = Ok v → ∃ z, v = VBig z.

(** How the seeds of an answer were resolved. *)
Definition resolved_by (n n' : nat) (o : prover_options) (keyHash : string)
    (requestId compactWitness : value) (seed preSeed : Z) : Prop :=
  match compactWitness with
  | VUndef =>
      ∃ s urls, seed = ps_actualSeed s ∧ preSeed = r_preSeed (ps_request s) ∧
        2 <= Z.of_nat (length urls) ∧ NoDup urls ∧
        normalizeRpcUrls (s_rpcUrls o) {| minimum := 2; label := "remote prover";
          allowSharedOrigin := s_allowSharedRpcOrigin o |} = Ok urls ∧
        Forall (describes_proof o keyHash requestId s) urls
  | witness =>
      ∃ st urls, let co := compactOptions o keyHash requestId witness in
        st_actualSeed st = VBig seed ∧ prop_opt (st_request st) "preSeed" = VBig preSeed ∧
        endpoints co urls ∧ authentic n n' urls co st ∧ status (st_request st) = VBig 1 ∧
        normalizeCompactWitness witness = Ok (st_request st)
  end.

Lemma resolveProofRequest_Ok o keyHash requestId witness n r n' :
  seeds_decode → resolveProofRequest o keyHash requestId witness n = (Ok r, n') →
  ∃ seed preSeed, r = {| rs_actualSeed := VBig seed; rs_preSeed := VBig preSeed |} ∧
    resolved_by n n' o keyHash requestId witness seed preSeed.
Proof.
  intros Hdec Hr. assert (witness = VUndef ∨ witness ≠ VUndef) as [->|Hw]
    by (destruct witness; [by left|by right..]).
  - apply eff_lift_bind_Ok in Hr as (s & Hs & [= <- <-]).
    apply resolveCoordinatorRequest_Ok in Hs as (urls & ? & ? & ? & ?).
    eexists _, _. split; [done|]. by exists s, urls.
  - assert (∃ st, verifyCompactWitnessConsensus (compactOptions o keyHash requestId witness) n = (Ok st, n') ∧
      r = {| rs_actualSeed := st_actualSeed st; rs_preSeed := prop_opt (st_request st) "preSeed" |})
      as (st & Hst & ->).
    { destruct witness; try done; apply eff_bind_Ok in Hr as (st & n1 & Hst & [= <- <-]); eauto. }
    apply verify_Ok in Hst as (urls & Hurls & Hau & Hnorm & _).
    destruct (au_endpoints _ _ _ _ _ Hau) as (m & m' & _ & _ & Hall).
    destruct urls as [|url urls]; [by destruct Hurls as (_ & Hl & _)|].
    apply Forall_cons in Hall as [(_ & _ & _ & _ & Hseed) _].
    destruct (Hseed eq_refl) as (Hpending & v & Hv & data & raw & _ & _ & Hd).
    apply Hdec in Hd as [seed ->]. destruct (st_actualSeed st) as [| | | | |z| | |] eqn:Es; try done.
    cbn in Hv. apply Z.eqb_eq in Hv as ->.
    destruct (normal_uint (st_request st) "uint256" "preSeed") as [preSeed Hpre].
    { apply Hau. }
    { by apply (bool_decide_eq_true_1 _). }
    1-3: done.
    exists z, preSeed. rewrite Hpre. split; [done|]. unfold resolved_by.
    destruct witness; try done; by eexists st, (url :: urls).
Qed.
End requests.

(** ** Answers *)
Section answers.
Context `{Ethers, !EthersLaws, UrlApi, RpcApi, CompactInterface, RpcSend, !Secp256k1, !Secp256k1Laws,
  HmacApi, WalletApi}.

(** The answer that carries a proof. *)
Definition answer_of (pv : prover) (seed preSeed : Z) (g : generated) : value :=
  VObj [("serviceKeyHash", VStr (pv_keyHash pv)); ("actualSeed", VStr (print_int seed));
        ("preSeed", VStr (print_int preSeed)); ("proof", serializableProof (proof_value (g_proof g)))].

Lemma handleProof_Ok fuel pv o request n resp n' :
  seeds_decode → handleProof fuel pv o request n = (Ok (Some resp), n') →
  statusCode resp = 200 → method request = "POST" →
  ∃ body secret seed preSeed g,
    http_body request = Ok body ∧ checkProofRequest pv o body = Ok tt ∧
    to_bigint (VStr (w_privateKey (pv_wallet pv))) = Ok secret ∧
    generateProof fuel secret seed preSeed None = Some (Ok g) ∧
    payload resp = answer_of pv seed preSeed g ∧
    resolved_by n n' o (pv_keyHash pv) (prop_opt body "requestId") (prop_opt body "compactWitness")
      seed preSeed.
Proof.
  intros Hdec Hh Hstatus Hpost. unfold handleProof in Hh.
  destruct (_ && _) in Hh; [by injection Hh as <- _|].
  rewrite Hpost in Hh. cbn [andb] in Hh. rewrite bool_decide_false in Hh by done. cbn [andb] in Hh.
  destruct (negb _ || _) in Hh; [by injection Hh as <- _|].
  apply eff_catch_Ok in Hh as [E|(e & n1 & _ & [= <- _])]; [|done].
  apply eff_bind_Ok in E as (answer & n2 & E & Ea). unfold proveRequest in E.
  apply eff_lift_bind_Ok in E as (body & Hbody & E). apply eff_lift_bind_Ok in E as ([] & Hcheck & E).
  apply eff_bind_Ok in E as (canonical & n3 & Hcan & [= <- ->]).
  apply resolveProofRequest_Ok in Hcan as (seed & preSeed & -> & Hres); [|done].
  destruct (proveResolved _ _ _) as [r|] eqn:Ep in Ea; [|discriminate Ea].
  injection Ea as <- <-. unfold proveResolved in Ep. cbn [rs_actualSeed rs_preSeed] in Ep.
  destruct (to_bigint (VStr (w_privateKey (pv_wallet pv)))) as [secret|e] eqn:Es.
  2: { injection Ep as <-. discriminate Hstatus. }
  cbn [to_bigint mbind result_bind option_bind] in Ep.
  destruct (generateProof fuel secret seed preSeed None) as [[g|e]|] eqn:Eg; [|by injection Ep as <-|done].
  injection Ep as <-. by exists body, secret, seed, preSeed, g.
Qed.

(** What the check of a request says of its body. *)
Definition bound_body (pv : prover) (o : prover_options) (body : value) : Prop :=
  prop_opt body "scheme" = VStr "SECP256K1_ECVRF_V1" ∧
  (∃ h, prop_opt body "serviceKeyHash" = VStr h ∧ lower h = lower (pv_keyHash pv)) ∧
  (∃ a, prop_opt body "coordinator" = VStr a ∧ lower a = lower (s_coordinator o)) ∧
  (∃ id, to_bigint (prop_opt body "chainId") = Ok id ∧ to_bigint (s_chainId o) = Ok id) ∧
  all_digits (to_str (prop_opt body "requestId")) = true.

Lemma to_lower_Ok v s : to_lower v = Ok s ↔ ∃ t, v = VStr t ∧ s = lower t.
Proof. destruct v; naive_solver. Qed.

Lemma checkProofRequest_Ok pv o body : checkProofRequest pv o body = Ok tt → bound_body pv o body.
Proof.
  unfold checkProofRequest. intros Hc. apply bind_Ok in Hc as (names & _ & Hc).
  apply bind_Ok in Hc as (? & [_ Hs]%require_Ok%andb_true_iff & Hc).
  apply bind_Ok in Hc as (h & (th & Hh & ->)%to_lower_Ok & Hc).
  apply bind_Ok in Hc as (? & Hl%require_Ok%bool_decide_eq_true & Hc).
  apply bind_Ok in Hc as (a & (ta & Ha & ->)%to_lower_Ok & Hc).
  apply bind_Ok in Hc as (? & Hla%require_Ok%bool_decide_eq_true & Hc).
  apply bind_Ok in Hc as (id & Hid & Hc). apply bind_Ok in Hc as (expected & Hexp & Hc).
  apply require_Ok, andb_true_iff in Hc as [->%Z.eqb_eq Hd].
  split_and!; [|by eauto..|done].
  destruct (prop_opt body "scheme"); try done. cbn in Hs. by apply bool_decide_eq_true in Hs as ->.
Qed.

(** C27: an answer with a proof was asked for this key, coordinator and chain, and
    carries the generated proof of the seed that every endpoint of at least two
    distinct ones gives to the request: of a pending request of the key that all of
    them describe alike, or of a compact witness that all of them committed to at
    one block. *)
Theorem proof_request_bound fuel pv o request n resp n' :
  seeds_decode → handleProof fuel pv o request n = (Ok (Some resp), n') →
  statusCode resp = 200 → method request = "POST" →
  ∃ body secret seed preSeed g,
    http_body request = Ok body ∧ bound_body pv o body ∧
    resolved_by n n' o (pv_keyHash pv) (prop_opt body "requestId") (prop_opt body "compactWitness")
      seed preSeed ∧
    to_bigint (VStr (w_privateKey (pv_wallet pv))) = Ok secret ∧
    generateProof fuel secret seed preSeed None = Some (Ok g) ∧ payload resp = answer_of pv seed preSeed g.
Proof.
  intros Hdec Hh Hs Hp. destruct (handleProof_Ok _ _ _ _ _ _ _ Hdec Hh Hs Hp)
    as (body & secret & seed & preSeed & g & ? & ?%checkProofRequest_Ok & ? & ? & ? & ?).
  by exists body, secret, seed, preSeed, g.
Qed.

(** ** The provider reads the server's answers *)

Lemma coordinate_address_valid c : is_Some (getAddress (coordinate_address c)).
Proof.
  unfold coordinate_address. set (h := keccak256 _).
  destruct (isHexString_bytes h 32 (keccak_hex _)) as (b & Hb & Hl).
  apply getBytes_spec in Hb. unfold h in Hb. rewrite keccak_lower in Hb. fold h in Hb.
  assert ("0x" +:+ last40 h = hex_of_bytes (drop 12 b)) as ->; [|].
  { apply chars_inj. rewrite chars_app, chars_hex_of_bytes. unfold last40. rewrite chars_of_chars, Hb.
    rewrite chars_hex_of_bytes. cbn [length app]. f_equal. f_equal.
    rewrite length_concat_hex, Hl. do 32 (destruct b as [|? b]; [done|]). by destruct b. }
  apply getAddress_bytes. rewrite length_drop, Hl. done.
Qed.

Lemma bigint_text z : to_bigint (VStr (print_int z)) = Ok z.
Proof. cbn. by rewrite string_to_bigint_print_int. Qed.

Lemma array_point_text p message : array_point (serializable_leaf (coordinates_value p)) message = Ok p.
Proof. unfold coordinates_value, array_point. cbn. rewrite !string_to_bigint_print_int. by destruct p. Qed.

(** The text of a proof is read back as the proof. *)
Lemma normalizeProof_serializable p preSeed :
  is_Some (getAddress (uWitness p)) → to_bigint preSeed = Ok (seed p) →
  normalizeProof (serializableProof (proof_value p)) preSeed = Ok p.
Proof.
  intros Haddress Hseed. set (v := serializableProof (proof_value p)). unfold normalizeProof, normalizePair.
  change (prop_opt v "pk") with (serializable_leaf (coordinates_value (pk p))).
  change (prop_opt v "gamma") with (serializable_leaf (coordinates_value (gamma p))).
  change (prop_opt v "c") with (VStr (print_int (c p))).
  change (prop_opt v "s") with (VStr (print_int (s p))).
  change (prop_opt v "seed") with (VStr (print_int (seed p))).
  change (prop_opt v "uWitness") with (VStr (uWitness p)).
  change (prop_opt v "cGammaWitness") with (serializable_leaf (coordinates_value (cGammaWitness p))).
  change (prop_opt v "sHashWitness") with (serializable_leaf (coordinates_value (sHashWitness p))).
  change (prop_opt v "zInv") with (VStr (print_int (zInv p))).
  change (truthy v && bool_decide (typeof v = "object")) with true.
  rewrite !array_point_text, !bigint_text, Hseed. cbn [require mbind result_bind to_str].
  rewrite bool_decide_true, Z.eqb_refl by done. cbn [require mbind result_bind]. by destruct p.
Qed.

Lemma startProverServer_Ok o pv secret :
  startProverServer o = Ok pv → to_bigint (VStr (w_privateKey (pv_wallet pv))) = Ok secret →
  pv_keyHash pv = serviceKeyHash (pv_publicKey pv) ∧ pv_publicKey pv = toAffine (p_mul secret BASE).
Proof.
  unfold startProverServer. intros Hs Hsecret. do 3 (apply bind_Ok in Hs as (? & _ & Hs)).
  apply bind_Ok in Hs as (? & _ & Hs). apply bind_Ok in Hs as (w & _ & Hs).
  apply bind_Ok in Hs as (secret' & Hw & Hs). apply bind_Ok in Hs as (key & Hkey & Hs).
  apply bind_Ok in Hs as (? & _ & Hs). apply bind_Ok in Hs as (? & _ & Hs).
  apply bind_Ok in Hs as (? & _ & [= <-]). cbn [pv_wallet pv_keyHash pv_publicKey] in *.
  rewrite Hw in Hsecret. injection Hsecret as <-. split; [done|].
  unfold publicKeyFor in Hkey. apply bind_Ok in Hkey as (? & _ & Hkey).
  by apply bind_Ok in Hkey as (P & [_ ->]%multiply_Ok & [= <-]).
Qed.

(** The status of a server tells its key. *)
Lemma status_key fuel pv o request n status n' expected k :
  handleProof fuel pv o request n = (Ok (Some status), n') → statusCode status = 200 →
  method request = "GET" → statusKey (payload status) expected = Ok k →
  rk_publicKey k = pv_publicKey pv ∧ rk_keyHash k = serviceKeyHash (pv_publicKey pv).
Proof.
  intros Hh Hs Hget Hk. unfold handleProof in Hh. rewrite Hget in Hh.
  destruct (_ && _) in Hh; [by injection Hh as <- _|].
  rewrite bool_decide_true, (bool_decide_false ("GET" = "POST")) in Hh by done. cbn [andb orb negb] in Hh.
  destruct (bool_decide (url_path request = "/v1/status")); [|by injection Hh as <- _].
  injection Hh as <- _. cbn [payload] in Hk. unfold statusKey in Hk.
  change (prop _ "publicKey") with
    (Ok (serializable_leaf (coordinates_value (pv_publicKey pv))) : result value) in Hk.
  cbn [mbind result_bind] in Hk. unfold normalizePublicKey in Hk.
  rewrite array_point_text in Hk. cbn [mbind result_bind] in Hk.
  apply bind_Ok in Hk as (address & _ & Hk). do 4 (apply bind_Ok in Hk as (? & _ & Hk)).
  by injection Hk as <-.
Qed.

(** C28: a prover server and a remote provider that took its key from the server's
    status agree: of every proof the server answers with, the provider accepts the
    answer exactly when it expects the seeds that the server resolved; it then
    holds the generated proof itself, with its output, under its configured key. *)
Theorem remote_proof_roundtrip fuel pv o request n resp n' status m m' statusRequest expected k q a b :
  seeds_decode → startProverServer o = Ok pv →
  handleProof fuel pv o statusRequest m = (Ok (Some status), m') → statusCode status = 200 →
  method statusRequest = "GET" → statusKey (payload status) expected = Ok k →
  handleProof fuel pv o request n = (Ok (Some resp), n') → statusCode resp = 200 →
  method request = "POST" →
  to_bigint (q_actualSeed q) = Ok a → to_bigint (q_preSeed q) = Ok b →
  ∃ secret seed preSeed g,
    to_bigint (VStr (w_privateKey (pv_wallet pv))) = Ok secret ∧
    generateProof fuel secret seed preSeed None = Some (Ok g) ∧
    checkRemoteProof k q (payload resp) =
      if decide (seed = a ∧ preSeed = b) then
        Ok {| rr_proof := g_proof g; rr_output := g_output g; rr_publicKey := pv_publicKey pv;
              rr_serviceKeyHash := pv_keyHash pv |}
      else Throw "remote prover resolved a different canonical request seed".
Proof.
  intros Hdec Hstart Hst Hst200 Hget Hk Hh Hs Hp Ha Hb.
  destruct (handleProof_Ok _ _ _ _ _ _ _ Hdec Hh Hs Hp)
    as (body & secret & seed & preSeed & g & _ & _ & Hsecret & Hg & -> & _).
  exists secret, seed, preSeed, g. split_and!; [done..|].
  assert (pv_keyHash pv = serviceKeyHash (pv_publicKey pv) ∧ pv_publicKey pv = toAffine (p_mul secret BASE))
    as [Hkey Hpk] by by eapply startProverServer_Ok.
  destruct (status_key _ _ _ _ _ _ _ _ _ Hst Hst200 Hget Hk) as [Ekey Ehash]. rewrite <-Hkey in Ehash.
  pose proof (generateProof_behind _ _ _ _ _ _ Hg) as (hash & kk & Hfin & Hbe & _).
  assert (to_lower (VStr (pv_keyHash pv)) = Ok (pv_keyHash pv)) as Hlow.
  { cbn. rewrite Hkey. unfold serviceKeyHash. by rewrite keccak_lower. }
  assert (serviceKeyHash (pk (g_proof g)) = pv_keyHash pv) as Hproof by by rewrite (bh_pk _ _ _ _ _ Hbe), <-Hpk.
  set (answer := answer_of pv seed preSeed g). unfold checkRemoteProof.
  change (prop answer "serviceKeyHash") with (Ok (VStr (pv_keyHash pv)) : result value).
  change (prop_opt answer "actualSeed") with (VStr (print_int seed)).
  change (prop_opt answer "preSeed") with (VStr (print_int preSeed)).
  change (prop_opt answer "proof") with (serializableProof (proof_value (g_proof g))).
  rewrite !bigint_text, Ha, Hb. cbn [mbind result_bind]. rewrite Hlow, Ehash. cbn [mbind result_bind].
  rewrite bool_decide_true by done. cbn [require mbind result_bind].
  destruct (Z.eqb_spec seed a) as [->|Hne]; [|by rewrite decide_False by tauto].
  destruct (Z.eqb_spec preSeed b) as [->|Hne]; [|by rewrite decide_False by tauto].
  rewrite decide_True by done. cbn [require mbind result_bind].
  rewrite normalizeProof_serializable.
  2: { rewrite (bh_address _ _ _ _ _ Hbe). apply coordinate_address_valid. }
  2: { by rewrite (bh_seed _ _ _ _ _ Hbe). }
  cbn [mbind result_bind]. rewrite Hproof, bool_decide_true by done. cbn [require mbind result_bind].
  rewrite (behind_output _ _ _ _ _ (proof_value (g_proof g)) Hbe Hfin eq_refl). cbn [mbind result_bind].
  by rewrite Ekey.
Qed.
End answers.

(** ** A server and a provider on the small curve *)
Section examples.
#[local] Existing Instances sample_ethers sample_ethers_laws sample_url.

Definition toy_key : Z * Z := (46, 40).
Definition toy_key_hash : string := serviceKeyHash toy_key.
Definition toy_request : chain_request := {|
  r_consumer := "0x"; r_verifier := "0x"; r_verifierCodeHash := "0x";
  r_fulfiller := "0x"; r_payee := "0x"; r_keyHash := toy_key_hash;
  r_subscriptionId := 1; r_preSeed := 6; r_reservedPayment := 3; r_randomness := 0;
  r_minimumFeeWei := 1; r_requestBlock := 10; r_expiresAtBlock := 99; r_maxGasPriceWei := 5;
  r_verificationGasLimit := 1; r_proofDataLength := 1; r_callbackGasLimit := 1;
  r_numWords := 1; r_callbackAttempts := 0; r_fulfillmentOverheadGas := 1;
  r_confirmations := 1; r_premiumBps := 0; r_operatorPremiumShareBps := 0; r_status := 1;
  r_sponsored := false; r_waiveMinimumFee := false; r_callbackSucceeded := false
|}.
#[local] Instance toy_rpc : RpcApi := {| rpc _ := {|
  getNetwork := Ok 46630; getRequest _ := Ok toy_request; requestSeed _ := Ok 7;
  messageFor _ _ _ := Throw "no message" |} |}.
#[local] Instance toy_interface : CompactInterface := {|
  encodeFunctionData _ _ := Throw ""; decodeFunctionResult _ _ := Throw ""; parseLog _ := Throw "";
  encodeEventLog _ _ _ _ := Throw ""; topicHash := ""; toQuantity _ := ""; toBeHex32 _ := Throw ""
|}.
#[local] Instance toy_send : RpcSend := {| rpc_send _ _ _ _ := Throw "" |}.
#[local] Instance toy_wallet : WalletApi := {|
  fromEncryptedJson _ _ := Ok {| w_privateKey := "0x05"; w_address := "0x" |} |}.
Definition toy_options : prover_options := {|
  s_keystore := Ok (VObj [("format", VStr "proof-vrf-keystore-v1"); ("encryptedKey", VObj []);
                          ("serviceKeyHash", VStr toy_key_hash)]);
  s_password := "secret"; s_bearerToken := None; s_coordinator := "0xCC"; s_chainId := VNum 46630;
  s_rpcUrls := VStr "https://a,https://b"; s_allowSharedRpcOrigin := false; s_host := "127.0.0.1";
  s_allowHttpLoopback := true; s_tlsKeyPath := None; s_tlsCertPath := None; s_tlsCaPath := None
|}.
Definition toy_prover : prover := {|
  pv_wallet := {| w_privateKey := "0x05"; w_address := "0x" |}; pv_publicKey := toy_key;
  pv_keyHash := toy_key_hash |}.
Definition toy_get : http_request := {|
  authorization := VUndef; method := "GET"; url_path := "/v1/status"; http_body := Throw "SyntaxError" |}.
Definition toy_post : http_request := {|
  authorization := VUndef; method := "POST"; url_path := "/v1/proofs";
  http_body := Ok (VObj [("scheme", VStr "SECP256K1_ECVRF_V1"); ("serviceKeyHash", VStr toy_key_hash);
    ("requestId", VStr "12"); ("coordinator", VStr "0xcc"); ("chainId", VStr "46630")]) |}.
Definition toy_respond (request : http_request) : option http_response :=
  result_or None (handleProof 20 toy_prover toy_options request 0%nat).1.
Definition toy_query (seed : Z) : proof_query := {|
  q_actualSeed := VBig seed; q_preSeed := VBig 6; q_requestId := VBig 12; q_coordinator := VStr "0xcc";
  q_chainId := VNum 46630; q_compactWitness := VUndef
|}.

Lemma toy_seeds : seeds_decode.
Proof. discriminate. Qed.
Lemma toy_answers request resp :
  is_ok (handleProof 20 toy_prover toy_options request 0%nat).1 = true →
  toy_respond request = Some resp →
  handleProof 20 toy_prover toy_options request 0%nat =
    (Ok (Some resp), (handleProof 20 toy_prover toy_options request 0%nat).2).
Proof.
  unfold toy_respond. destruct (handleProof _ _ _ _ _) as [[r|] n]; [|done]. cbn. by intros _ ->.
Qed.

Lemma proof_request_bound_witness :
  ∃ resp secret seed preSeed g, toy_respond toy_post = Some resp ∧
    generateProof 20 secret seed preSeed None = Some (Ok g) ∧
    payload resp = answer_of toy_prover seed preSeed g.
Proof.
  assert (is_ok (handleProof 20 toy_prover toy_options toy_post 0%nat).1 = true) as Hok by vm_refl.
  assert (statusCode <$> toy_respond toy_post = Some 200) as Hs by vm_refl.
  destruct (toy_respond toy_post) as [resp|] eqn:E; [|discriminate Hs]. injection Hs as Hs.
  destruct (proof_request_bound 20 toy_prover toy_options toy_post 0%nat resp _ toy_seeds
    (toy_answers _ _ Hok E) Hs eq_refl) as (body & secret & seed & preSeed & g & _ & _ & _ & _ & Hg & Hp).
  exists resp, secret, seed, preSeed, g. split; [exact eq_refl|]. split; [exact Hg|exact Hp].
Defined.

Definition toy_status : http_response := default (error_response 0 "") (toy_respond toy_get).
Definition toy_answer : http_response := default (error_response 0 "") (toy_respond toy_post).
Definition toy_remote_key : result remote_key := statusKey (payload toy_status) None.

(** The provider accepts the answer for the seed of the request. *)
Lemma remote_proof_roundtrip_witness :
  ∃ k r g, toy_remote_key = Ok k ∧ generateProof 20 5 7 6 None = Some (Ok g) ∧
    checkRemoteProof k (toy_query 7) (payload toy_answer) = Ok r ∧ rr_proof r = g_proof g.
Proof.
  assert (is_ok (handleProof 20 toy_prover toy_options toy_post 0%nat).1 = true) as Hok by vm_refl.
  assert (is_ok (handleProof 20 toy_prover toy_options toy_get 0%nat).1 = true) as Hok' by vm_refl.
  assert (bool_decide (is_Some (toy_respond toy_post)) = true) as E%bool_decide_eq_true_1 by vm_refl.
  assert (bool_decide (is_Some (toy_respond toy_get)) = true) as E'%bool_decide_eq_true_1 by vm_refl.
  assert (toy_respond toy_post = Some toy_answer) as Hp by (unfold toy_answer; destruct E as [? ->]; reflexivity).
  assert (toy_respond toy_get = Some toy_status) as Hg by (unfold toy_status; destruct E' as [? ->]; reflexivity).
  assert (statusCode toy_answer = 200) as Hs by vm_refl.
  assert (statusCode toy_status = 200) as Hs' by vm_refl.
  assert (is_ok toy_remote_key = true) as [k Hk]%is_ok_true by vm_refl.
  assert (startProverServer toy_options = Ok toy_prover) as Hstart by vm_refl.
  destruct (remote_proof_roundtrip 20 toy_prover toy_options toy_post 0%nat toy_answer _ toy_status 0%nat _
    toy_get None k (toy_query 7) 7 6 toy_seeds Hstart (toy_answers _ _ Hok' Hg) Hs' eq_refl Hk
    (toy_answers _ _ Hok Hp) Hs eq_refl eq_refl eq_refl)
    as (secret & seed & preSeed & g & [= <-] & Hgen & Hr).
  assert (is_ok (k ← toy_remote_key; checkRemoteProof k (toy_query 7) (payload toy_answer)) = true) as Hc by vm_refl.
  rewrite Hk in Hc. cbn [mbind result_bind] in Hc. rewrite Hr in Hc.
  destruct (decide (seed = 7 ∧ preSeed = 6)) as [[-> ->]|]; [|discriminate Hc].
  exists k. eexists. exists g. split; [exact Hk|]. split; [exact Hgen|]. split; [exact Hr|reflexivity].
Defined.
End examples.
