(* ===== verification/Archiver.v ===== *)
(** * The archiver of block hashes ([archiver.mjs])

    A process beside the operator stores the hash of a request's block on the
    chain before the chain forgets it, within a budget that a file keeps across
    restarts.  The file holds a JSON document; [atomic] may fail before or after
    the new document is in place.  The answer of an endpoint depends on the number
    of the call; calls that the code makes together follow each other here. *)

From S2P Require Import Prelude Js Hex CanonicalJson JsonText Vendor Policies ErrorText ThresholdNode.

Open Scope Z_scope.

Definition ARCHIVER_FORMAT : string := "proof-vrf-archiver-state/v1".
Definition ZERO : string := "0x" +:+ of_chars (replicate 64 "0"%char).

Definition archiver_consensus (values : list value) (name : string) : result value :=
  let disagreement := "ArchiverRpcDisagreement:" +:+ name in
  match values with
  | [] => Throw disagreement
  | first :: _ =>
      _ ← require (forallb (λ v, bool_decide (json_text v = json_text first)) values) disagreement;
      Ok first
  end.

(** ** The budget *)

(** What a write of the file ends with: the new document is durable, the write
    threw before the file was renamed, or after it. *)
Inductive write_outcome := Durable | NotWritten | NotSynced.
Class StateFile := { write_at : nat → write_outcome }.

(** The [state] of the object, the file, and the number of writes so far. *)
Record budget_world := { bw_state : value; bw_file : option value; bw_writes : nat }.

Record reservation := { re_gasLimit : Z; re_gasPriceWei : Z; re_transactionHash : string; re_at : string }.

(** [l.includes(x)] and [l.push(x)] on a value that is an array. *)
Definition array_includes (l : value) (x : value) : result bool :=
  l ← items l; Ok (existsb (same_value x) l).
Definition array_push (l : value) (x : value) : result value := l ← items l; Ok (VArr (l ++ [x])).

(** [this.state.k = v] *)
Definition set_state (k : string) (v : value) : eff budget_world unit :=
  eff_modify (λ w, {| bw_state := set_prop (bw_state w) k v; bw_file := bw_file w; bw_writes := bw_writes w |}).
Definition get_state (k : string) : eff budget_world value := λ w, (Ok (prop_opt (bw_state w) k), w).

Definition replace_state (v : value) : eff budget_world unit :=
  eff_modify (λ w, {| bw_state := v; bw_file := bw_file w; bw_writes := bw_writes w |}).
Definition get_file : eff budget_world (option value) := λ w, (Ok (bw_file w), w).

Section budget.
Context `{StateFile}.

(** [atomic(this.path, this.state)]; the file is what its reader will find. *)
Definition atomic : eff budget_world unit := λ w,
  let put file := {| bw_state := bw_state w; bw_file := file; bw_writes := S (bw_writes w) |} in
  match write_at (bw_writes w) with
  | Durable => (Ok tt, put (Some (reread (bw_state w))))
  | NotWritten => (Throw "EIO", put (bw_file w))
  | NotSynced => (Throw "EIO", put (Some (reread (bw_state w))))
  end.

Definition initialBudget (identity : value) (maximumWei : Z) : value :=
  VObj [("format", VStr ARCHIVER_FORMAT); ("identity", identity);
        ("maximumWei", VStr (print_int maximumWei)); ("reservedWei", VStr "0");
        ("transactions", VArr []); ("lastHead", VNull); ("coverageGap", VNull)].

(** The state that a file gives, or the first state, which is written. *)
Definition openState (metadata : file_metadata) (identity : value) (maximumWei : Z)
    (file : option value) : eff budget_world unit :=
  match file with
  | Some document =>
      _ ← eff_require (isFile metadata && negb (isSymbolicLink metadata)
                       && (Z.land (mode metadata) 63 =? 0)) "unsafe archive state file";
      _ ← replace_state document;
      format ← eff_lift (prop document "format");
      eff_require (strict_eq format (VStr ARCHIVER_FORMAT)
                   && bool_decide (json_text (prop_opt document "identity") = json_text identity)
                   && strict_eq (prop_opt document "maximumWei") (VStr (print_int maximumWei)))
        "archive identity/budget differs from durable state"
  | None => _ ← replace_state (initialBudget identity maximumWei); atomic
  end.

Definition newArchiveBudget (metadata : file_metadata) (identity : value) (maximumWei : Z)
    : eff budget_world unit :=
  _ ← eff_require (0 <? maximumWei) "archive budget must be positive";
  file ← get_file;
  _ ← openState metadata identity maximumWei file;
  reserved ← get_state "reservedWei";
  reserved ← eff_lift (to_bigint reserved);
  eff_require ((0 <=? reserved) && (reserved <=? maximumWei)) "invalid archived budget".

Definition remaining : eff budget_world Z :=
  maximum ← get_state "maximumWei";
  maximum ← eff_lift (to_bigint maximum);
  reserved ← get_state "reservedWei";
  reserved ← eff_lift (to_bigint reserved);
  mret (maximum - reserved).

Definition reserve (r : reservation) : eff budget_world unit :=
  let cost := re_gasLimit r * re_gasPriceWei r in
  _ ← eff_require ((0 <? re_gasLimit r) && (0 <? re_gasPriceWei r)) "invalid archive fee reservation";
  available ← remaining;
  if available <? cost then
    _ ← set_state "budgetBlocked" (VBool true);
    _ ← atomic;
    (eff_throw "ArchiveBudgetExhausted" : eff budget_world unit)
  else
    reserved ← get_state "reservedWei";
    reserved ← eff_lift (to_bigint reserved);
    _ ← set_state "reservedWei" (VStr (print_int (reserved + cost)));
    transactions ← get_state "transactions";
    transactions ← eff_lift (array_push transactions
      (VObj [("transactionHash", VStr (re_transactionHash r)); ("maximumFeeWei", VStr (print_int cost));
             ("at", VStr (re_at r))]));
    _ ← set_state "transactions" transactions;
    atomic.

(** [lastHead] is a number or null. *)
Definition checkpoint (head : Z) : eff budget_world unit :=
  lastHead ← get_state "lastHead";
  gap ← get_state "coverageGap";
  _ ← match lastHead with
      | VNum last =>
          if (192 <? head - last) && negb (truthy gap)
          then set_state "coverageGap" (VObj [("afterBlock", VNum last); ("resumedBlock", VNum head)])
          else mret tt
      | _ => mret tt
      end;
  _ ← set_state "lastHead" (VNum head);
  atomic.

(** [recordMissed] and [recordReview]: one list each. *)
Definition recordId (k : string) (requestId : value) : eff budget_world unit :=
  ids ← get_state k;
  _ ← (if truthy ids then mret tt else set_state k (VArr []));
  ids ← get_state k;
  known ← eff_lift (array_includes ids requestId);
  if (known : bool) then mret tt
  else
    ids ← eff_lift (array_push ids requestId);
    _ ← set_state k ids;
    atomic.
Definition recordMissed (requestId : value) : eff budget_world unit := recordId "missedRequestIds" requestId.
Definition recordReview (requestId : value) : eff budget_world unit :=
  recordId "reviewRequestIds" (VStr (to_str requestId)).
End budget.

(** ** The decision *)

(** [Number(status) !== 1] for a number. *)
Definition is_one (v : value) : bool := match v with VNum z | VBig z => z =? 1 | _ => false end.

Definition archiveDecision (status requestBlock : value) (storedHash : string) (head archiveAfterBlocks : Z)
    : result string :=
  if negb (is_one status) then Ok "finalized"
  else if negb (bool_decide (storedHash = ZERO)) then Ok "protected"
  else
    block ← to_bigint requestBlock;
    let age := head - block in
    if 256 <? age then Ok "missed-window"
    else Ok (if archiveAfterBlocks <=? age then "archive" else "young").

(** ** The cycle *)

Record request_event := {
  ev_requestId : string; ev_blockNumber : Z; ev_blockHash : string; ev_transactionHash : string;
  ev_index : Z; ev_topics : list string; ev_data : string
}.
Record archive_manifest := {
  am_coordinator : string; am_blockNumber : Z; am_keyHash : string; am_blockhashStore : string
}.
(** What an endpoint answers, by the number of the call and its URL: heights,
    blocks, the coordinator's context, events and requests at a block, and the
    hashes of the store. *)
Class ArchiveRpc := {
  block_number : nat → string → result Z;
  block_at : nat → string → Z → result value;
  context_block : nat → string → string → Z → result Z;
  requested_events : nat → string → string → string → Z → Z → result (list request_event);
  request_at : nat → string → string → string → Z → result chain_request;
  stored_hash : nat → string → string → Z → result string
}.

Record archive_order := { ao_requestId : string; ao_requestBlock : string; ao_maxGasPriceWei : Z }.
Record archive_stats := {
  as_head : Z; as_cursor : Z; as_pending : Z; as_archived : Z; as_protected : Z; as_missedWindow : Z;
  as_errors : list (string * list (string * string))
}.
(** The world of a cycle: the calls made, the budget, the statistics, and the
    orders that were given to [sendArchive] so far. *)
Record cycle_world := {
  cw_calls : nat; cw_budget : budget_world; cw_stats : archive_stats; cw_orders : list archive_order
}.

Definition event_value (e : request_event) : value :=
  VObj [("requestId", VStr (ev_requestId e)); ("blockNumber", VNum (ev_blockNumber e));
        ("blockHash", VStr (ev_blockHash e)); ("transactionHash", VStr (ev_transactionHash e));
        ("index", VNum (ev_index e)); ("topics", VArr (VStr <$> ev_topics e)); ("data", VStr (ev_data e))].
(** [Array.from(request)], in the order of the ABI. *)
Definition request_array (r : chain_request) : value :=
  VArr [VStr (r_consumer r); VStr (r_verifier r); VStr (r_verifierCodeHash r); VStr (r_fulfiller r);
        VStr (r_payee r); VStr (r_keyHash r); VBig (r_subscriptionId r); VBig (r_preSeed r);
        VBig (r_reservedPayment r); VBig (r_randomness r); VBig (r_minimumFeeWei r);
        VBig (r_requestBlock r); VBig (r_expiresAtBlock r); VBig (r_maxGasPriceWei r);
        VBig (r_verificationGasLimit r); VBig (r_proofDataLength r); VBig (r_callbackGasLimit r);
        VBig (r_numWords r); VBig (r_callbackAttempts r); VBig (r_fulfillmentOverheadGas r);
        VBig (r_confirmations r); VBig (r_premiumBps r); VBig (r_operatorPremiumShareBps r);
        VBig (r_status r); VBool (r_sponsored r); VBool (r_waiveMinimumFee r);
        VBool (r_callbackSucceeded r)].
Definition observation_value (r : chain_request) (storedHash : string) : value :=
  VObj [("request", request_array r); ("requestBlock", VStr (print_int (r_requestBlock r)));
        ("status", VNum (r_status r)); ("maxGasPriceWei", VStr (print_int (r_maxGasPriceWei r)));
        ("storedHash", VStr storedHash)].

Definition call {A} (f : nat → result A) : eff nat A := λ n, (f n, S n).
(** [Math.max(...l)] and [Math.min(...l)]; there are endpoints. *)
Definition list_max (l : list Z) : Z := match l with [] => 0 | x :: l => foldl Z.max x l end.
Definition list_min (l : list Z) : Z := match l with [] => 0 | x :: l => foldl Z.min x l end.

Definition on_calls {A} (m : eff nat A) : eff cycle_world A := λ w,
  let '(r, n) := m (cw_calls w) in
  (r, {| cw_calls := n; cw_budget := cw_budget w; cw_stats := cw_stats w; cw_orders := cw_orders w |}).
Definition on_budget {A} (m : eff budget_world A) : eff cycle_world A := λ w,
  let '(r, b) := m (cw_budget w) in
  (r, {| cw_calls := cw_calls w; cw_budget := b; cw_stats := cw_stats w; cw_orders := cw_orders w |}).
Definition count (f : archive_stats → archive_stats) : eff cycle_world unit :=
  eff_modify (λ w, {| cw_calls := cw_calls w; cw_budget := cw_budget w; cw_stats := f (cw_stats w);
                      cw_orders := cw_orders w |}).
Definition give_order (o : archive_order) : eff cycle_world unit :=
  eff_modify (λ w, {| cw_calls := cw_calls w; cw_budget := cw_budget w; cw_stats := cw_stats w;
                      cw_orders := cw_orders w ++ [o] |}).

Definition get_stats : eff cycle_world archive_stats := λ w, (Ok (cw_stats w), w).
Definition add_stats (pending archived protected missed : Z) (errors : list (string * list (string * string)))
    (s : archive_stats) : archive_stats := {|
  as_head := as_head s; as_cursor := as_cursor s; as_pending := as_pending s + pending;
  as_archived := as_archived s + archived; as_protected := as_protected s + protected;
  as_missedWindow := as_missedWindow s + missed; as_errors := as_errors s ++ errors
|}.

Section cycle.
Context `{StateFile, ArchiveRpc}.

Definition readBoundary (m : archive_manifest) (head fromBlock : Z) (provider : string)
    : eff nat (value * list request_event) :=
  boundary ← call (λ n, block_at n provider head);
  context ← call (λ n, context_block n provider (am_coordinator m) head);
  events ← call (λ n, requested_events n provider (am_coordinator m) (am_keyHash m) fromBlock head);
  _ ← eff_require (truthy boundary && (context =? head)) "ArchiverL2BlockContextMismatch";
  mret (prop_opt boundary "hash", events).

Definition boundary_value (r : value * list request_event) : value :=
  VObj [("boundary", r.1); ("events", VArr (event_value <$> r.2))].

Definition snapshot (providers : list string) (m : archive_manifest)
    : eff nat (Z * list request_event) :=
  heads ← mapM (λ p, call (λ n, block_number n p)) providers;
  _ ← eff_require (list_max heads - list_min heads <=? 32) "ArchiverRpcHeadSkew";
  let head := list_min heads - 2 in
  let fromBlock := Z.max (am_blockNumber m) (head - 511) in
  _ ← eff_require (fromBlock <=? head) "ArchiverWaitingForConfirmations";
  results ← mapM (readBoundary m head fromBlock) providers;
  _ ← eff_lift (archiver_consensus (boundary_value <$> results) "recent requests and boundary");
  mret (head, match results with r :: _ => r.2 | [] => [] end).

(** What one endpoint says about a request and its block. *)
Definition observeRequest (m : archive_manifest) (requestId : string) (head : Z) (provider : string)
    : eff nat value :=
  request ← call (λ n, request_at n provider (am_coordinator m) requestId head);
  _ ← eff_require (bool_decide (lower (r_keyHash request) = lower (am_keyHash m))) "ArchiverKeyMismatch";
  hash ← call (λ n, stored_hash n provider (am_blockhashStore m) (r_requestBlock request));
  mret (observation_value request hash).

(** The body of the loop of [archiveCycle], in its [try]. *)
Definition archiveEvent (providers : list string) (m : archive_manifest)
    (sendArchive : archive_order → eff cycle_world unit) (archiveAfterBlocks head : Z)
    (event : request_event) : eff cycle_world unit :=
  observations ← on_calls (mapM (observeRequest m (ev_requestId event) head) providers);
  observed ← eff_lift (archiver_consensus observations "request and archive");
  if negb (strict_eq (prop_opt observed "status") (VNum 1)) then mret tt
  else
    _ ← count (add_stats 1 0 0 0 []);
    heads ← on_calls (mapM (λ p, call (λ n, block_number n p)) providers);
    let freshHead := list_max heads in
    action ← eff_lift (archiveDecision (prop_opt observed "status") (prop_opt observed "requestBlock")
                         (to_str (prop_opt observed "storedHash")) freshHead archiveAfterBlocks);
    _ ← count (add_stats 0 0 (Z.b2z (bool_decide (action = "protected")))
                 (Z.b2z (bool_decide (action = "missed-window"))) []);
    _ ← (if bool_decide (action = "missed-window")
         then on_budget (recordMissed (VStr (ev_requestId event))) else mret tt);
    if bool_decide (action = "archive") then
      price ← eff_lift (to_bigint (prop_opt observed "maxGasPriceWei"));
      let order := {| ao_requestId := ev_requestId event;
                      ao_requestBlock := to_str (prop_opt observed "requestBlock");
                      ao_maxGasPriceWei := price |} in
      _ ← give_order order;
      _ ← sendArchive order;
      count (add_stats 0 1 0 0 [])
    else mret tt.

Definition archiveCycle (providers : list string) (m : archive_manifest)
    (sendArchive : archive_order → eff cycle_world unit) (archiveAfterBlocks : Z)
    : eff cycle_world archive_stats :=
  '(head, events) ← on_calls (snapshot providers m);
  _ ← count (λ _, {| as_head := head; as_cursor := head + 1; as_pending := 0; as_archived := 0;
                     as_protected := 0; as_missedWindow := 0; as_errors := [] |});
  _ ← eff_forM (λ event,
        eff_catch (archiveEvent providers m sendArchive archiveAfterBlocks head event)
          (λ e, count (add_stats 0 0 0 0 [(ev_requestId event, errorDetails (VObj [("message", VStr e)]))]))) events;
  _ ← on_budget (checkpoint head);
  get_stats.
End cycle.
