(* ===== verification/ArchiverSafety.v ===== *)
(** * The archiver keeps its budget and archives in time ([archiver.mjs])

    Over all lifetimes of the process, whatever writes fail and wherever it stops,
    the archives it was allowed to broadcast cost no more than the budget; and it
    archives the block of a request only when all endpoints see the request
    pending and the hash missing, inside the window the chain remembers. *)

From S2P Require Import Prelude Js Hex CanonicalJson JsonText Json Vendor Policies ThresholdNode NodeSafety Archiver.

Open Scope Z_scope.

(** ** The document of a budget *)

(** A journal entry: the hash of the transaction and its highest fee. *)
Definition fee (tx : value) : Z :=
  match to_bigint (prop_opt tx "maximumFeeWei") with Ok z => z | Throw _ => 0 end.
Definition entry (tx : value) : string * Z := (to_str (prop_opt tx "transactionHash"), fee tx).
Definition total (l : list (string * Z)) : Z := foldr Z.add 0 (l.*2).

(** What [reserve] pushes, in memory or read again. *)
Definition is_entry (tx : value) : Prop :=
  ∃ fs h z, tx = VObj fs ∧ prop_opt tx "transactionHash" = VStr h ∧
            prop_opt tx "maximumFeeWei" = VStr (print_int z) ∧ 0 < z.

Record budget_doc (M R : Z) (txs : list value) (v : value) : Prop := {
  bd_object : ∃ fs, v = VObj fs;
  bd_format : prop_opt v "format" = VStr ARCHIVER_FORMAT;
  bd_maximum : prop_opt v "maximumWei" = VStr (print_int M);
  bd_reserved : prop_opt v "reservedWei" = VStr (print_int R);
  bd_transactions : prop_opt v "transactions" = VArr txs;
  bd_sum : R = total (entry <$> txs);
  bd_journal : Forall is_entry txs;
  bd_range : R <= M
}.

Lemma total_app l k : total (l ++ k) = total l + total k.
Proof. unfold total. rewrite fmap_app. induction (l.*2) as [|x xs IH]; cbn; lia. Qed.

Lemma total_sublist l k :
  l `sublist_of` k → Forall (λ e, 0 < e.2) k → 0 <= total l <= total k.
Proof.
  induction 1 as [|x l k _ IH|x l k _ IH]; intros Hk; [done|..];
    apply Forall_cons in Hk as [Hx Hk]; specialize (IH Hk); unfold total in *; cbn; lia.
Qed.

Lemma print_to_bigint z : to_bigint (VStr (print_int z)) = Ok z.
Proof. cbn. by rewrite string_to_bigint_print_int. Qed.

Lemma bd_entries_positive M R txs v : budget_doc M R txs v → Forall (λ e, 0 < e.2) (entry <$> txs).
Proof.
  intros Hd. apply Forall_fmap. eapply Forall_impl; [apply (bd_journal _ _ _ _ Hd)|].
  intros tx (fs & h & z & _ & _ & E & Hz). cbn. unfold fee. by rewrite E, print_to_bigint.
Qed.

(** A document that is read again. *)
Lemma is_entry_reread tx : is_entry tx → is_entry (reread tx) ∧ entry (reread tx) = entry tx.
Proof.
  intros (fs & h & z & -> & Eh & Ez & Hz).
  pose proof (prop_opt_reread _ _ (VStr h) ltac:(done) Eh) as Eh'.
  pose proof (prop_opt_reread _ _ (VStr (print_int z)) ltac:(done) Ez) as Ez'. split.
  - by eexists _, h, z.
  - unfold entry, fee. by rewrite Eh, Ez, Eh', Ez'.
Qed.

Lemma budget_doc_reread M R txs v :
  budget_doc M R txs v →
  budget_doc M R (reread <$> txs) (reread v) ∧ entry <$> (reread <$> txs) = entry <$> txs.
Proof.
  intros [[fs ->] Hf HM HR Ht Hs Hj Hr].
  assert (entry <$> (reread <$> txs) = entry <$> txs) as Ee.
  { rewrite <-list_fmap_compose. apply Forall_fmap_ext_1. eapply Forall_impl; [exact Hj|].
    intros tx Htx. by apply is_entry_reread. }
  split; [|done]. split.
  - by eexists.
  - by apply (prop_opt_reread fs _ (VStr _)).
  - by apply (prop_opt_reread fs _ (VStr _)).
  - by apply (prop_opt_reread fs _ (VStr _)).
  - by apply (prop_opt_reread fs _ (VArr txs)).
  - by rewrite Ee.
  - apply Forall_fmap. eapply Forall_impl; [exact Hj|]. intros tx Htx. by apply is_entry_reread.
  - done.
Qed.

Lemma budget_doc_set M R txs v k x :
  k ∉ ["format"; "maximumWei"; "reservedWei"; "transactions"] →
  budget_doc M R txs v → budget_doc M R txs (set_prop v k x).
Proof.
  intros Hk [[fs ->] ???????]. split; try done; [by eexists|..];
    rewrite prop_opt_set_prop_ne; try done; set_solver.
Qed.

(** ** The world of a budget *)

(** The journal in memory extends that of the file, which tells every transaction
    that was sent. *)
Definition file_ok (M : Z) (txs : list value) (sent : list (string * Z)) (file : option value) : Prop :=
  ∃ d R' txs', file = Some d ∧ budget_doc M R' txs' d ∧ (entry <$> txs') `prefix_of` (entry <$> txs) ∧
    sent `sublist_of` (entry <$> txs').
Definition budget_ok (M : Z) (sent : list (string * Z)) (w : budget_world) : Prop :=
  ∃ R txs, budget_doc M R txs (bw_state w) ∧ file_ok M txs sent (bw_file w).

Lemma file_ok_state M R txs sent v :
  budget_doc M R txs v → sent `sublist_of` (entry <$> txs) → file_ok M txs sent (Some (reread v)).
Proof.
  intros Hd Hs. destruct (budget_doc_reread _ _ _ _ Hd) as [Hd' E].
  exists (reread v), R, (reread <$> txs). rewrite E. by split_and!.
Qed.

Lemma file_ok_sent M txs sent file : file_ok M txs sent file → sent `sublist_of` (entry <$> txs).
Proof.
  intros (d & R' & txs' & _ & _ & [l ->] & Hs). by apply sublist_inserts_r.
Qed.

Section budget.
Context `{StateFile}.

(** A write puts the state in the file or leaves the file. *)
Lemma atomic_cases w :
  wp atomic (λ r w', bw_state w' = bw_state w ∧
    (bw_file w' = Some (reread (bw_state w)) ∨ (bw_file w' = bw_file w ∧ r ≠ Ok tt))) w.
Proof. unfold wp, atomic. destruct (write_at (bw_writes w)); cbn; naive_solver. Qed.

Lemma atomic_ok M sent w :
  budget_ok M sent w → wp atomic (λ _ w', budget_ok M sent w') w.
Proof.
  intros (R & txs & Hd & Hf). eapply wp_mono; [apply atomic_cases|]. cbn.
  intros r w' [Es [Ef|[Ef _]]]; exists R, txs; rewrite Es, Ef; split; try done.
  eapply file_ok_state; [done|]. by eapply file_ok_sent.
Qed.

Lemma set_state_ok M sent k x w (Q : result unit → budget_world → Prop) :
  k ∉ ["format"; "maximumWei"; "reservedWei"; "transactions"] → budget_ok M sent w →
  (∀ w', budget_ok M sent w' → Q (Ok tt) w') → wp (set_state k x) Q w.
Proof.
  intros Hk (R & txs & Hd & Hf) HQ. apply HQ. exists R, txs. split; [|done]. by apply budget_doc_set.
Qed.

(** What every operation keeps, whatever it ends with. *)
Definition keeping (M : Z) (sent : list (string * Z)) (w w' : budget_world) : Prop :=
  budget_ok M sent w → budget_ok M sent w'.
#[local] Instance keeping_preorder M sent : PreOrder (keeping M sent).
Proof. split; unfold keeping; [by intros w|by intros w1 w2 w3; auto]. Qed.

Lemma keeps_get R `{!PreOrder R} k : keeps R (get_state k).
Proof. intros w. reflexivity. Qed.
Lemma keeps_atomic M sent : keeps (keeping M sent) atomic.
Proof. intros w Hw. by apply atomic_ok. Qed.
Lemma keeps_set M sent k x :
  k ∉ ["format"; "maximumWei"; "reservedWei"; "transactions"] → keeps (keeping M sent) (set_state k x).
Proof. intros Hk w Hw. by apply (set_state_ok M sent k x w (λ _, budget_ok M sent)). Qed.

Ltac keeps :=
  repeat first [apply keeps_bind; [apply _| |intros ?]|case_match|apply keeps_atomic
               |solve [apply keeps_get; apply _]|solve [apply keeps_ret; apply _]|solve [apply keeps_lift; apply _]
               |apply keeps_set; by apply (bool_decide_eq_true_1 _)].

Lemma checkpoint_keeps M sent head : keeps (keeping M sent) (checkpoint head).
Proof. unfold checkpoint. keeps. Qed.
Lemma recordMissed_keeps M sent id : keeps (keeping M sent) (recordMissed id).
Proof. unfold recordMissed, recordId. keeps. Qed.
Lemma recordReview_keeps M sent id : keeps (keeping M sent) (recordReview id).
Proof. unfold recordReview, recordId. keeps. Qed.

Lemma remaining_value M R txs w :
  budget_doc M R txs (bw_state w) → remaining w = (Ok (M - R), w).
Proof.
  intros Hd. unfold remaining, mbind, eff_bind, get_state, eff_lift.
  by rewrite (bd_maximum _ _ _ _ Hd), (bd_reserved _ _ _ _ Hd), !print_to_bigint.
Qed.

Definition journal_entry (r : reservation) : value :=
  VObj [("transactionHash", VStr (re_transactionHash r));
        ("maximumFeeWei", VStr (print_int (re_gasLimit r * re_gasPriceWei r))); ("at", VStr (re_at r))].
Definition spends (r : reservation) : string * Z :=
  (re_transactionHash r, re_gasLimit r * re_gasPriceWei r).

Lemma entry_journal r : entry (journal_entry r) = spends r.
Proof.
  unfold entry, fee, spends. change (prop_opt (journal_entry r) "maximumFeeWei") with
    (VStr (print_int (re_gasLimit r * re_gasPriceWei r))). by rewrite print_to_bigint.
Qed.

(** The document after a reservation. *)
Lemma budget_doc_reserve M R txs v r :
  budget_doc M R txs v → 0 < re_gasLimit r * re_gasPriceWei r <= M - R →
  budget_doc M (R + re_gasLimit r * re_gasPriceWei r) (txs ++ [journal_entry r])
    (set_prop (set_prop v "reservedWei" (VStr (print_int (R + re_gasLimit r * re_gasPriceWei r))))
       "transactions" (VArr (txs ++ [journal_entry r]))).
Proof.
  intros [[fs ->] Hf HM HR Ht -> Hp Hr] Hc. set (cost := re_gasLimit r * re_gasPriceWei r) in *.
  pose proof (entry_journal r) as Hentry. split.
  - by eexists.
  - by rewrite !prop_opt_set_prop_ne.
  - by rewrite !prop_opt_set_prop_ne.
  - rewrite prop_opt_set_prop_ne by done. by rewrite prop_opt_set_prop.
  - apply (prop_opt_set_prop (assoc_set "reservedWei" _ fs)).
  - rewrite fmap_app, total_app. cbn [fmap list_fmap]. rewrite Hentry. unfold total at 3. cbn. lia.
  - apply Forall_app. split; [done|]. constructor; [|constructor].
    eexists _, (re_transactionHash r), cost. split; [done|]. split; [done|]. split; [done|lia].
  - lia.
Qed.

(** A reservation inside the budget is one write of the new document. *)
Lemma reserve_eq M R txs r w :
  budget_doc M R txs (bw_state w) → 0 < re_gasLimit r → 0 < re_gasPriceWei r →
  re_gasLimit r * re_gasPriceWei r <= M - R →
  reserve r w = atomic {| bw_state :=
      set_prop (set_prop (bw_state w) "reservedWei" (VStr (print_int (R + re_gasLimit r * re_gasPriceWei r))))
        "transactions" (VArr (txs ++ [journal_entry r]));
    bw_file := bw_file w; bw_writes := bw_writes w |}.
Proof.
  intros Hd Hl Hp Hc. unfold reserve, mbind, eff_bind at 1, eff_require, eff_lift at 1.
  rewrite (proj2 (Z.ltb_lt _ _) Hl), (proj2 (Z.ltb_lt _ _) Hp). cbn [andb require].
  unfold eff_bind at 1. rewrite (remaining_value M R txs) by done. rewrite (proj2 (Z.ltb_ge _ _)) by done.
  unfold eff_bind, get_state, set_state, eff_modify, eff_lift. cbn [bw_state bw_file bw_writes].
  rewrite (bd_reserved _ _ _ _ Hd), print_to_bigint.
  rewrite prop_opt_set_prop_ne, (bd_transactions _ _ _ _ Hd) by done. done.
Qed.

(** A reservation that returns is in the file; one that throws is of nothing sent. *)
Lemma reserve_ok M sent r w :
  budget_ok M sent w →
  wp (reserve r) (λ res w', budget_ok M (match res with Ok _ => sent ++ [spends r] | Throw _ => sent end) w') w.
Proof.
  intros Hw. pose proof Hw as (R & txs & Hd & Hf). pose proof (file_ok_sent _ _ _ _ Hf) as Hsent.
  destruct (decide (0 < re_gasLimit r ∧ 0 < re_gasPriceWei r)) as [[Hl Hp]|Hn].
  2: { unfold reserve. apply wp_require_bind; [|done]. intros [?%Z.ltb_lt ?%Z.ltb_lt]%andb_true_iff. lia. }
  destruct (decide (re_gasLimit r * re_gasPriceWei r <= M - R)) as [Hc|Hc].
  - unfold wp. rewrite (reserve_eq M R txs) by done.
    set (cost := re_gasLimit r * re_gasPriceWei r) in *. set (w2 := Build_budget_world _ _ _).
    assert (budget_doc M (R + cost) (txs ++ [journal_entry r]) (bw_state w2)) as Hd2
      by (apply budget_doc_reserve; [done|nia]).
    assert (sent ++ [spends r] `sublist_of` (entry <$> txs ++ [journal_entry r])) as Hs2.
    { rewrite fmap_app. apply sublist_app; [done|]. cbn [fmap list_fmap]. by rewrite entry_journal. }
    destruct (atomic_cases w2) as [Es Ef]. destruct (atomic w2) as [res w']. cbn [fst snd] in *.
    exists (R + cost), (txs ++ [journal_entry r]). rewrite Es. split; [done|].
    destruct Ef as [->|[-> Hres]].
    + eapply file_ok_state; [done|]. destruct res; [done|]. etrans; [|exact Hs2]. by apply sublist_inserts_r.
    + assert (match res with Ok _ => sent ++ [spends r] | Throw _ => sent end = sent) as ->
        by by destruct res as [[]|].
      destruct Hf as (d & R' & txs' & ? & ? & ? & ?). exists d, R', txs'. split_and!; try done.
      rewrite fmap_app. by apply prefix_app_r.
  - unfold reserve. apply wp_require_bind; [|done]. intros _. apply wp_bind. unfold wp at 1.
    rewrite (remaining_value M R txs) by done. cbn [fst snd]. rewrite (proj2 (Z.ltb_lt _ _)) by lia.
    apply wp_bind. apply (set_state_ok M sent); [by apply (bool_decide_eq_true_1 _)|done|].
    intros w1 Hw1. apply wp_bind. eapply wp_mono; [by apply atomic_ok|]. by intros [a|e] w2 Hw2.
Qed.

(** What the file tells when no process runs. *)
Definition rest_ok (sent : list (string * Z)) (file : option value) : Prop :=
  (file = None ∧ sent = []) ∨
  ∃ M R txs d, file = Some d ∧ budget_doc M R txs d ∧ sent `sublist_of` (entry <$> txs).

Lemma budget_ok_rest M sent w : budget_ok M sent w → rest_ok sent (bw_file w).
Proof.
  intros (R & txs & _ & d & R' & txs' & -> & Hd & _ & Hs). right. by exists M, R', txs', d.
Qed.

Lemma initialBudget_doc identity M : 0 < M → budget_doc M 0 [] (initialBudget identity M).
Proof. intros HM. split; try done; [by eexists|lia]. Qed.

Lemma openState_ok sent metadata identity maximum w :
  0 < maximum → rest_ok sent (bw_file w) →
  wp (openState metadata identity maximum (bw_file w)) (λ r w',
    rest_ok sent (bw_file w') ∧ (r = Ok tt → budget_ok maximum sent w')) w.
Proof.
  intros Hmax Hrest. destruct (bw_file w) as [doc|] eqn:E; unfold openState.
  - apply wp_require_bind; [|intros _; split; [by rewrite E|done]]. intros _. apply wp_bind. unfold wp at 1.
    cbn [replace_state eff_modify fst snd]. apply wp_lift_bind; cbn [bw_file]; rewrite ?E; [|done].
    intros format Hformat. unfold wp, eff_require, eff_lift. cbn [fst snd bw_file]. split; [done|].
    intros [[_ _]%andb_true_iff HM]%require_Ok%andb_true_iff.
    destruct Hrest as [[? _]|(M & R & txs & d & [= <-] & Hd & Hs)]; [done|].
    rewrite (bd_maximum _ _ _ _ Hd) in HM. cbn in HM. apply bool_decide_eq_true, print_int_inj in HM as ->.
    exists R, txs. split; [done|]. exists doc, R, txs. by split_and!.
  - destruct Hrest as [[_ ->]|(M & R & txs & d & ? & _)]; [|done].
    apply wp_bind. unfold wp at 1. cbn [replace_state eff_modify fst snd].
    eapply wp_mono; [apply atomic_cases|]. cbn [bw_state bw_file]. rewrite E.
    pose proof (initialBudget_doc identity maximum Hmax) as Hd.
    intros r w' [Es [Ef|[Ef Hr]]]; rewrite Ef; [|split; [by left|done]].
    split; [right; exists maximum, 0, []; eexists; split_and!; [done|apply (budget_doc_reread _ _ [] _ Hd)|constructor]|]. intros _.
    exists 0, []. rewrite Es, Ef. split; [done|]. eapply file_ok_state; [done|constructor].
Qed.

(** A process that starts has the maximum of the file. *)
Lemma newArchiveBudget_ok sent metadata identity maximum w :
  rest_ok sent (bw_file w) →
  wp (newArchiveBudget metadata identity maximum) (λ r w',
    rest_ok sent (bw_file w') ∧ (r = Ok tt → budget_ok maximum sent w')) w.
Proof.
  intros Hrest. unfold newArchiveBudget. apply wp_require_bind; [|done]. intros Hmax%Z.ltb_lt.
  apply wp_bind. unfold wp at 1. cbn [get_file fst snd]. apply wp_bind.
  eapply wp_mono; [by apply (openState_ok sent)|]. intros [[]|e] w' [Hr Hok]; [|done].
  specialize (Hok eq_refl). apply wp_bind. unfold wp at 1. cbn [get_state fst snd].
  by apply wp_lift_bind.
Qed.
End budget.

(** ** The cycle *)

Lemma archiver_consensus_Ok vs name v :
  archiver_consensus vs name = Ok v → v ∈ vs ∧ Forall (λ w, json_text w = json_text v) vs.
Proof.
  unfold archiver_consensus. destruct vs as [|first vs]; [done|]. cbn [mbind result_bind].
  intros ([] & Hall%require_Ok & [= <-])%bind_Ok. split; [set_solver|].
  apply forallb_Forall in Hall. eapply Forall_impl; [exact Hall|]. intros w. apply bool_decide_eq_true.
Qed.

Lemma list_max_spec l : l ≠ [] → list_max l ∈ l ∧ Forall (λ x, x <= list_max l) l.
Proof.
  destruct l as [|x l]; [done|]. intros _. cbn [list_max]. revert x.
  induction l as [|y l IH]; intros x; cbn [foldl]; [split; [set_solver|repeat constructor; lia]|].
  destruct (IH (Z.max x y)) as [Hin Hall]. apply Forall_cons in Hall as [Hm Hall]. split.
  - apply elem_of_cons in Hin as [E|?]; [|set_solver]. rewrite E. destruct (Z.max_spec x y) as [[_ ->]|[_ ->]]; set_solver.
  - repeat constructor; [lia..|done].
Qed.

(** What the decision to archive needs. *)
Lemma archiveDecision_archive status block h fresh N :
  archiveDecision status block h fresh N = Ok "archive" →
  is_one status = true ∧ h = ZERO ∧ ∃ b, to_bigint block = Ok b ∧ N <= fresh - b <= 256.
Proof.
  unfold archiveDecision. destruct (is_one status); [|done]. cbn [negb].
  destruct (bool_decide (h = ZERO)) eqn:Eh; [|done]. apply bool_decide_eq_true in Eh. cbn [negb].
  intros (b & Hb & Hr)%bind_Ok. split; [done|]. split; [done|]. exists b. split; [done|].
  destruct (256 <? fresh - b) eqn:E; [done|]. apply Z.ltb_ge in E.
  destruct (N <=? fresh - b) eqn:E'; [|done]. apply Z.leb_le in E'. lia.
Qed.

(** Two endpoints that say the same saw the same request. *)
Lemma observation_value_agree r h r' h' :
  json_text (observation_value r h) = json_text (observation_value r' h') →
  r_status r = r_status r' ∧ r_requestBlock r = r_requestBlock r' ∧
  r_maxGasPriceWei r = r_maxGasPriceWei r' ∧ h = h'.
Proof.
  intros E%json_text_inj; [|done..]. unfold observation_value in E. cbn [json_image fmap list_fmap fst snd] in E.
  injection E as _ _ _ _ _ _ _ _ _ _ _ _ _ _ _ _ _ _ _ _ _ _ _ _ _ _ _ Eb Es Eg Eh.
  split_and!; [done|by apply print_int_inj|by apply print_int_inj|done].
Qed.

Section cycle.
Context `{StateFile, ArchiveRpc} (providers : list string) (m : archive_manifest) (N : Z).

(** Between two numbers of calls, every endpoint saw the request pending with this
    block and price, and the hash of the block missing, and the highest of the
    heights they gave is [N] to 256 blocks above the block. *)
Definition warranted (start stop : nat) (o : archive_order) : Prop :=
  ∃ head fresh block,
    ao_requestBlock o = print_int block ∧ N <= fresh - block <= 256 ∧
    (∃ p i, p ∈ providers ∧ (start <= i < stop)%nat ∧ block_number i p = Ok fresh) ∧
    Forall (λ p, (∃ i h, (start <= i < stop)%nat ∧ block_number i p = Ok h ∧ h <= fresh) ∧
      ∃ i r, (start <= i)%nat ∧ (S i < stop)%nat ∧
        request_at i p (am_coordinator m) (ao_requestId o) head = Ok r ∧
        lower (r_keyHash r) = lower (am_keyHash m) ∧ r_status r = 1 ∧ r_requestBlock r = block ∧
        r_maxGasPriceWei r = ao_maxGasPriceWei o ∧
        stored_hash (S i) p (am_blockhashStore m) block = Ok ZERO) providers.

Lemma justified_mono start stop start' stop' o :
  (start' <= start)%nat → (stop <= stop')%nat → warranted start stop o → warranted start' stop' o.
Proof.
  intros Hs Ht (head & fresh & block & Hb & Ha & (p & i & Hp & Hi & E) & Hall).
  exists head, fresh, block. split; [done|]. split; [done|]. split; [exists p, i; split_and!; [done|lia..|done]|].
  eapply Forall_impl; [exact Hall|]. intros q [(j & h & ? & ? & ?) (k & r & ? & ? & ?)].
  split; [exists j, h; split_and!; [lia..|done|done]|exists k, r; split_and!; [lia..|naive_solver|naive_solver|naive_solver|naive_solver|naive_solver|naive_solver]].
Qed.

(** The orders a run adds. *)
Definition ordered (w w' : cycle_world) : Prop :=
  (cw_calls w <= cw_calls w')%nat ∧
  ∃ new, cw_orders w' = cw_orders w ++ new ∧ Forall (warranted (cw_calls w) (cw_calls w')) new.
#[export] Instance ordered_preorder : PreOrder ordered.
Proof.
  split.
  - intros w. split; [done|]. exists []. by rewrite app_nil_r.
  - intros w1 w2 w3 [L1 (n1 & E1 & F1)] [L2 (n2 & E2 & F2)]. split; [lia|]. exists (n1 ++ n2).
    rewrite E2, E1, <-app_assoc. split; [done|]. apply Forall_app.
    split; eapply Forall_impl; [exact F1| |exact F2|]; intros o; by apply justified_mono.
Qed.

Lemma ordered_same w w' : cw_calls w = cw_calls w' → cw_orders w = cw_orders w' → ordered w w'.
Proof. intros E1 E2. split; [lia|]. exists []. by rewrite app_nil_r. Qed.

Lemma ordered_count f : keeps ordered (count f).
Proof. intros w. by apply ordered_same. Qed.
Lemma ordered_budget {A} (b : eff budget_world A) : keeps ordered (on_budget b).
Proof. intros w. unfold on_budget. destruct (b _). by apply ordered_same. Qed.
Lemma ordered_calls {A} (c : eff nat A) : forward c → keeps ordered (on_calls c).
Proof.
  intros Hc w. unfold on_calls. destruct (c _) as [r n] eqn:E. apply Hc in E. split; [done|].
  exists []. by rewrite app_nil_r.
Qed.

Lemma forward_call {A} (f : nat → result A) : forward (call f).
Proof. intros n r n' [= _ <-]. lia. Qed.
#[local] Hint Resolve forward_call : vrf.
Lemma forward_heads : forward (mapM (λ p, call (λ n, block_number n p)) providers).
Proof. forward. Qed.
Lemma forward_observe id head p : forward (observeRequest m id head p).
Proof. unfold observeRequest. forward. Qed.
Lemma forward_snapshot : forward (snapshot providers m).
Proof. unfold snapshot, readBoundary. forward. Qed.

Lemma observeRequest_Ok id head p n v n' :
  observeRequest m id head p n = (Ok v, n') →
  ∃ r h, n' = S (S n) ∧ request_at n p (am_coordinator m) id head = Ok r ∧
    lower (r_keyHash r) = lower (am_keyHash m) ∧
    stored_hash (S n) p (am_blockhashStore m) (r_requestBlock r) = Ok h ∧ v = observation_value r h.
Proof.
  unfold observeRequest. intros (r & n1 & [= Hr <-] & E)%eff_bind_Ok.
  apply eff_require_bind_Ok in E as [Hk%bool_decide_eq_true E].
  apply eff_bind_Ok in E as (h & n2 & [= Hh <-] & [= <- <-]). by exists r, h.
Qed.

(** Equal observations of all endpoints, from calls between the two numbers. *)
Lemma observations_agree id head n obs n' observed name :
  mapM (observeRequest m id head) providers n = (Ok obs, n') →
  archiver_consensus obs name = Ok observed →
  providers ≠ [] ∧ ∃ r h, observed = observation_value r h ∧
    Forall (λ p, ∃ i r', (n <= i)%nat ∧ (S i < n')%nat ∧ request_at i p (am_coordinator m) id head = Ok r' ∧
      lower (r_keyHash r') = lower (am_keyHash m) ∧ r_status r' = r_status r ∧
      r_requestBlock r' = r_requestBlock r ∧ r_maxGasPriceWei r' = r_maxGasPriceWei r ∧
      stored_hash (S i) p (am_blockhashStore m) (r_requestBlock r) = Ok h) providers.
Proof.
  intros Hobs [Hin Hall]%archiver_consensus_Ok.
  apply eff_mapM_Ok in Hobs as [_ Hf]; [|intros p; apply forward_observe].
  split; [by intros ->; inversion Hf; subst; apply elem_of_nil in Hin|].
  apply list_elem_of_lookup in Hin as [k Hk].
  destruct (Forall2_lookup_r _ _ _ _ _ Hf Hk) as (p & _ & i & j & _ & _ & Hv).
  apply observeRequest_Ok in Hv as (r & h & _ & _ & _ & _ & ->). exists r, h. split; [done|].
  apply Forall_lookup. intros k' q Hq.
  destruct (Forall2_lookup_l _ _ _ _ _ Hf Hq) as (v & Hv & i' & j' & Hi & Hj & Ho).
  apply observeRequest_Ok in Ho as (r' & h' & -> & Hr & Hkey & Hs & ->).
  destruct (observation_value_agree _ _ _ _ (Forall_lookup_1 _ _ _ _ Hall Hv)) as (E1 & E2 & E3 & E4).
  exists i', r'. rewrite E2, E4 in Hs. split_and!; [lia|lia|done..].
Qed.

(** The heights, from calls between the two numbers. *)
Lemma heads_spec n heads n' :
  providers ≠ [] → mapM (λ p, call (λ n, block_number n p)) providers n = (Ok heads, n') →
  (∃ p i, p ∈ providers ∧ (n <= i < n')%nat ∧ block_number i p = Ok (list_max heads)) ∧
  Forall (λ p, ∃ i h, (n <= i < n')%nat ∧ block_number i p = Ok h ∧ h <= list_max heads) providers.
Proof.
  intros Hne Hm. apply eff_mapM_Ok in Hm as [_ Hf]; [|intros p; apply forward_call].
  assert (heads ≠ []) as Hh by (intros ->; by inversion Hf; subst).
  destruct (list_max_spec heads Hh) as [Hin Hall]. split.
  - apply list_elem_of_lookup in Hin as [k Hk].
    destruct (Forall2_lookup_r _ _ _ _ _ Hf Hk) as (p & Hp & i & j & Hi & Hj & [= E <-]).
    exists p, i. split_and!; [by eapply list_elem_of_lookup_2|lia|lia|done].
  - apply Forall_lookup. intros k p Hp.
    destruct (Forall2_lookup_l _ _ _ _ _ Hf Hp) as (h & Hh' & i & j & Hi & Hj & [= E <-]).
    exists i, h. split_and!; [lia|lia|done|]. by apply (Forall_lookup_1 _ _ _ _ Hall Hh').
Qed.
Definition at_call (n : nat) (w : cycle_world) : cycle_world :=
  {| cw_calls := n; cw_budget := cw_budget w; cw_stats := cw_stats w; cw_orders := cw_orders w |}.
Lemma wp_on_calls_bind {A B} (c : eff nat A) (k : A → eff cycle_world B) Q w :
  forward c →
  (∀ a n, c (cw_calls w) = (Ok a, n) → (cw_calls w <= n)%nat → wp (k a) Q (at_call n w)) →
  (∀ e n, (cw_calls w <= n)%nat → Q (Throw e) (at_call n w)) → wp (on_calls c ≫= k) Q w.
Proof.
  intros Hc Ha He. apply wp_bind. unfold wp at 1, on_calls.
  destruct (c (cw_calls w)) as [[a|e] n] eqn:E; [apply Ha|apply He]; try done; by eapply Hc.
Qed.
Lemma ordered_at_call n w : (cw_calls w <= n)%nat → ordered w (at_call n w).
Proof. intros Hn. split; [done|]. exists []. by rewrite app_nil_r. Qed.

(** An order that is justified by the calls so far. *)
Lemma wp_give_order_bind {B} o (k : unit → eff cycle_world B) w0 w1 w (Q : result B → cycle_world → Prop) :
  ordered w0 w1 → ordered w1 w → warranted (cw_calls w0) (cw_calls w1) o →
  (∀ w', ordered w0 w' → wp (k tt) Q w') → wp (give_order o ≫= k) Q w.
Proof.
  intros H01 H1 Hj Hk. pose proof (transitivity H01 H1) as [L (new & E & F)]. apply Hk. split; [done|].
  exists (new ++ [o]). cbn. rewrite E, <-app_assoc. split; [done|]. apply Forall_app. split; [done|].
  constructor; [|constructor]. apply (justified_mono (cw_calls w0) (cw_calls w1)); [done|apply H1|done].
Qed.

(** Sending gives no orders of its own. *)
Definition gives_none (w w' : cycle_world) : Prop := (cw_calls w <= cw_calls w')%nat ∧ cw_orders w' = cw_orders w.
Context (send : archive_order → eff cycle_world unit) (send_none : ∀ o, keeps gives_none (send o)).
Lemma ordered_send o : keeps ordered (send o).
Proof. intros w. destruct (send_none o w) as [L E]. split; [done|]. exists []. by rewrite app_nil_r. Qed.

Lemma archiveEvent_ordered head e :
  keeps ordered (archiveEvent providers m send N head e).
Proof.
  intros w. enough (wp (archiveEvent providers m send N head e) (λ _ w', ordered w w') w) by done.
  unfold archiveEvent. apply wp_on_calls_bind;
    [apply forward_mapM; intros; apply forward_observe| |intros; by apply ordered_at_call].
  intros obs n1 Hobs L1. apply wp_lift_bind; [|intros; by apply ordered_at_call]. intros observed Hc.
  destruct (observations_agree _ _ _ _ _ _ _ Hobs Hc) as (Hne & r & h & -> & Hall).
  destruct (negb _) eqn:Es; [by apply ordered_at_call|]. clear Es.
  pose proof (ordered_at_call _ _ L1) as H0'.
  eapply (wp_keeps_bind ordered _ _ _ (at_call n1 w)); [apply ordered_count|done| |intros; by etrans].
  intros _ w1 H1. pose proof (transitivity H0' H1) as H01.
  apply wp_on_calls_bind; [apply forward_heads| |intros e' n Hn; exact (transitivity H01 (ordered_at_call _ _ Hn))].
  intros heads n2 Hheads L2. pose proof (transitivity H01 (ordered_at_call _ _ L2)) as H2.
  apply wp_lift_bind; [|done]. intros action Ha.
  eapply (wp_keeps_bind ordered _ _ _ (at_call n2 w1)); [apply ordered_count|done| |intros; by etrans].
  intros _ w3 H3. eapply (wp_keeps_bind ordered _ _ _ (at_call n2 w1)); [|exact H3| |intros; by etrans].
  { case_bool_decide; [apply ordered_budget|by apply keeps_ret, _]. }
  intros _ w4 H4. case_bool_decide as Eact; [|apply wp_ret; by etrans]. subst action.
  apply wp_lift_bind; [|intros; by etrans]. intros price Hprice.
  apply (wp_give_order_bind _ _ w (at_call n2 w1)); [done|done| |].
  - clear H3 H4. apply archiveDecision_archive in Ha as (Hst & Hz & b & Hb & Hage).
    change (to_bigint (VStr (print_int (r_requestBlock r))) = Ok b) in Hb.
    change (to_bigint (VStr (print_int (r_maxGasPriceWei r))) = Ok price) in Hprice.
    rewrite print_to_bigint in Hb, Hprice. injection Hb as <-. injection Hprice as <-.
    apply Z.eqb_eq in Hst. change (h = ZERO) in Hz. subst h.
    destruct (heads_spec _ _ _ Hne Hheads) as [(p & i & Hp & Hi & Emax) Hlow].
    pose proof (proj1 H1) as L3. pose proof (proj1 H01) as L4. cbn in L3, L4.
    exists head, (list_max heads), (r_requestBlock r). split; [done|]. split; [done|].
    split; [exists p, i; split_and!; [done|lia|cbn; lia|done]|].
    apply Forall_lookup. intros k q Hq. pose proof (Forall_lookup_1 _ _ _ _ Hall Hq) as Hr.
    destruct (Forall_lookup_1 _ _ _ _ Hlow Hq) as (j & x & ? & ? & ?).
    destruct Hr as (i' & r' & ? & ? & ? & ? & ? & ? & ? & ?). split; [exists j, x|exists i', r'].
    + split_and!; [lia|cbn; lia|done|done].
    + split_and!; try done; [cbn; lia|congruence].
  - intros w5 H5. eapply (wp_keeps_bind ordered _ _ _ w); [apply ordered_send|done| |done].
    intros _ w6 H6. exact (transitivity H6 (ordered_count _ w6)).
Qed.
Lemma archiveCycle_ordered w r w' : archiveCycle providers m send N w = (r, w') → ordered w w'.
Proof.
  intros E. enough (keeps ordered (archiveCycle providers m send N)) as Hk by (specialize (Hk w); by rewrite E in Hk).
  unfold archiveCycle. apply keeps_bind; [apply _|apply ordered_calls, forward_snapshot|]. intros [head events].
  apply keeps_bind; [apply _|apply ordered_count|]. intros _.
  apply keeps_bind; [apply _| |].
  { apply keeps_forM; [apply _|]. intros e _.
    apply keeps_catch; [apply _|apply archiveEvent_ordered|]. intros msg. apply ordered_count. }
  intros _. apply keeps_bind; [apply _|apply ordered_budget|]. intros _ w0. unfold get_stats. reflexivity.
Qed.

(** every order of a cycle to archive a block is justified: between the start and
    the end of the cycle each endpoint answered that the request is pending under the
    service's key, with the block and the price of the order, and that the store has
    no hash of the block, and the greatest height that the endpoints then gave is at
    least the waiting time and at most 256 blocks above the block; whatever was
    answered or failed for the other requests. *)
Theorem archive_orders_justified w r w' :
  archiveCycle providers m send N w = (r, w') →
  ∃ new, cw_orders w' = cw_orders w ++ new ∧ Forall (warranted (cw_calls w) (cw_calls w')) new.
Proof.
  intros E. apply (archiveCycle_ordered w r w' E).
Qed.
End cycle.

(** ** The lifetimes of the archiver *)

(** The running process, with its maximum and its state in memory; the file; what
    was allowed to be broadcast. *)
Record archiver_machine := {
  ma_running : option (Z * value); ma_file : option value; ma_sent : list (string * Z)
}.

(** The operations besides reservations. *)
Inductive budget_note := Checkpoint (head : Z) | Missed (id : value) | Review (id : value).
Definition run_note `{StateFile} (n : budget_note) : eff budget_world unit :=
  match n with
  | Checkpoint head => checkpoint head
  | Missed id => recordMissed id
  | Review id => recordReview id
  end.

(** A process starts on the file, or fails to; makes a reservation, after which the
    transaction may be broadcast if it returned; notes something; stops anywhere.
    The writes of each step may fail. *)
Inductive archiver_step : archiver_machine → archiver_machine → Prop :=
  | archiver_start (sf : StateFile) m metadata identity maximum n r w :
      ma_running m = None →
      newArchiveBudget metadata identity maximum
        {| bw_state := VUndef; bw_file := ma_file m; bw_writes := n |} = (r, w) →
      archiver_step m {|
        ma_running := match r with Ok _ => Some (maximum, bw_state w) | Throw _ => None end;
        ma_file := bw_file w; ma_sent := ma_sent m |}
  | archiver_reserve (sf : StateFile) m maximum state n reservation r w :
      ma_running m = Some (maximum, state) →
      reserve reservation {| bw_state := state; bw_file := ma_file m; bw_writes := n |} = (r, w) →
      archiver_step m {|
        ma_running := Some (maximum, bw_state w); ma_file := bw_file w;
        ma_sent := match r with Ok _ => ma_sent m ++ [spends reservation] | Throw _ => ma_sent m end |}
  | archiver_note (sf : StateFile) m maximum state n note r w :
      ma_running m = Some (maximum, state) →
      run_note note {| bw_state := state; bw_file := ma_file m; bw_writes := n |} = (r, w) →
      archiver_step m {|
        ma_running := Some (maximum, bw_state w); ma_file := bw_file w; ma_sent := ma_sent m |}
  | archiver_stop m :
      archiver_step m {| ma_running := None; ma_file := ma_file m; ma_sent := ma_sent m |}.

Definition never_run (m : archiver_machine) : Prop :=
  ma_running m = None ∧ ma_file m = None ∧ ma_sent m = [].

Definition archiver_ok (m : archiver_machine) : Prop :=
  rest_ok (ma_sent m) (ma_file m) ∧
  ∀ maximum state, ma_running m = Some (maximum, state) →
    ∀ n, budget_ok maximum (ma_sent m) {| bw_state := state; bw_file := ma_file m; bw_writes := n |}.

(** The number of writes is no matter. *)
Lemma budget_ok_writes M sent w n :
  budget_ok M sent w → budget_ok M sent {| bw_state := bw_state w; bw_file := bw_file w; bw_writes := n |}.
Proof. done. Qed.

Lemma archiver_step_ok m m' : archiver_ok m → archiver_step m m' → archiver_ok m'.
Proof.
  intros [Hrest Hrun] Hstep. destruct Hstep as [sf m metadata identity maximum n r w Hup E
    |sf m maximum state n rv r w Hup E|sf m maximum state n note r w Hup E|m].
  - pose proof (newArchiveBudget_ok (ma_sent m) metadata identity maximum
      {| bw_state := VUndef; bw_file := ma_file m; bw_writes := n |} Hrest) as Hw.
    apply (wp_intro _ _ _ _ _ Hw) in E as [Hr Hok]. split; [done|]. intros M st Hst n'. cbn in *.
    destruct r as [[]|]; [|done]. injection Hst as <- <-. by apply budget_ok_writes, Hok.
  - apply (wp_intro _ _ _ _ _ (reserve_ok _ _ rv _ (Hrun _ _ Hup n))) in E.
    split; [by eapply budget_ok_rest|]. intros M st [= <- <-] n'. by apply budget_ok_writes.
  - assert (keeps (keeping maximum (ma_sent m)) (run_note note)) as Hk.
    { destruct note; [apply checkpoint_keeps|apply recordMissed_keeps|apply recordReview_keeps]. }
    specialize (Hk _ (Hrun _ _ Hup n)). rewrite E in Hk. cbn [snd] in Hk.
    split; [by eapply budget_ok_rest|]. intros M st [= <- <-] n'. by apply budget_ok_writes.
  - by split.
Qed.

Lemma archiver_reachable_ok m0 m : never_run m0 → rtc archiver_step m0 m → archiver_ok m.
Proof.
  intros (Hup & Hf & Hs). assert (archiver_ok m0) as H0.
  { split; [left; by rewrite Hf, Hs|]. by rewrite Hup. }
  clear Hup Hf Hs. induction 1 as [|m1 m2 m3 H12 _ IH]; [done|]. by eapply IH, archiver_step_ok.
Qed.

(** C29: from the first start on, through all restarts, failed writes and stops,
    every broadcast that was allowed is in the journal of the file, and what all of
    them can cost together is at most the reserved amount of the file, which is
    within the maximum; a running process has that maximum and no other. *)
Theorem archive_budget_kept m0 m :
  never_run m0 → rtc archiver_step m0 m →
  match ma_file m with
  | None => ma_sent m = [] ∧ ma_running m = None
  | Some document =>
      ∃ M R journal,
        prop_opt document "maximumWei" = VStr (print_int M) ∧
        prop_opt document "reservedWei" = VStr (print_int R) ∧
        prop_opt document "transactions" = VArr journal ∧
        ma_sent m `sublist_of` (entry <$> journal) ∧ 0 <= total (ma_sent m) <= R ∧ R <= M ∧
        ∀ maximum state, ma_running m = Some (maximum, state) → maximum = M
  end.
Proof.
  intros H0 Hm. pose proof (archiver_reachable_ok _ _ H0 Hm) as [Hrest Hrun]. clear H0 Hm.
  destruct Hrest as [[Ef ->]|(M & R & txs & d & Ef & Hd & Hs)]; rewrite Ef.
  - split; [done|]. destruct (ma_running m) as [[M st]|] eqn:E; [|done].
    destruct (Hrun _ _ eq_refl 0%nat) as (R & txs & _ & d & R' & txs' & Ed & _). cbn in Ed.
    by rewrite Ef in Ed.
  - pose proof (total_sublist _ _ Hs (bd_entries_positive _ _ _ _ Hd)) as Ht.
    rewrite <- (bd_sum _ _ _ _ Hd) in Ht. exists M, R, txs.
    split_and!; try done; try apply Ht; try apply Hd.
    intros maximum state E. destruct (Hrun _ _ E 0%nat) as (R1 & txs1 & _ & d1 & R2 & txs2 & Ed & Hd2 & _).
    cbn in Ed. rewrite Ef in Ed. injection Ed as <-.
    pose proof (bd_maximum _ _ _ _ Hd2) as EM. rewrite (bd_maximum _ _ _ _ Hd) in EM.
    injection EM as EM. by apply print_int_inj in EM.
Qed.

(** A life: a start with 10 wei, a reservation of 6 that is written but throws, one
    of 2 that is allowed, a crash, a restart, and one that the budget refuses. *)
Definition sample_file : StateFile :=
  {| write_at := λ n, match n with 1%nat => NotSynced | _ => Durable end |}.
Definition sample_metadata : file_metadata := {| isFile := true; isSymbolicLink := false; mode := 384; size := 0 |}.
Definition sample_reservation (gas : Z) : reservation :=
  {| re_gasLimit := gas; re_gasPriceWei := 2; re_transactionHash := "0xaa"; re_at := "2026-01-01" |}.
Definition sample_never : archiver_machine := {| ma_running := None; ma_file := None; ma_sent := [] |}.
Definition sample_up (m : archiver_machine) : archiver_machine :=
  let '(r, w) := newArchiveBudget (H := sample_file) sample_metadata (VStr "chain") 10
    {| bw_state := VUndef; bw_file := ma_file m; bw_writes := 0 |} in
  {| ma_running := match r with Ok _ => Some (10, bw_state w) | Throw _ => None end;
     ma_file := bw_file w; ma_sent := ma_sent m |}.
Definition sample_spend (n : nat) (gas : Z) (m : archiver_machine) : archiver_machine :=
  match ma_running m with
  | None => m
  | Some (maximum, state) =>
      let '(r, w) := reserve (H := sample_file) (sample_reservation gas)
        {| bw_state := state; bw_file := ma_file m; bw_writes := n |} in
      {| ma_running := Some (maximum, bw_state w); ma_file := bw_file w;
         ma_sent := match r with Ok _ => ma_sent m ++ [spends (sample_reservation gas)]
                    | Throw _ => ma_sent m end |}
  end.
Definition sample_down (m : archiver_machine) : archiver_machine :=
  {| ma_running := None; ma_file := ma_file m; ma_sent := ma_sent m |}.
Definition sample_archive_life : archiver_machine :=
  sample_spend 3 5 (sample_up (sample_down (sample_spend 2 1 (sample_spend 1 3 (sample_up sample_never))))).

Lemma sample_up_step m : ma_running m = None → archiver_step m (sample_up m).
Proof.
  intros Hm. unfold sample_up. destruct (newArchiveBudget _ _ _ _) as [r w] eqn:E.
  by eapply (archiver_start sample_file).
Qed.
Lemma sample_spend_step n gas m : ma_running m ≠ None → archiver_step m (sample_spend n gas m).
Proof.
  intros Hm. unfold sample_spend. destruct (ma_running m) as [[maximum state]|] eqn:Em; [|done].
  destruct (reserve _ _) as [r w] eqn:E. by eapply (archiver_reserve sample_file).
Qed.
Lemma sample_life_reached : rtc archiver_step sample_never sample_archive_life.
Proof.
  eapply rtc_l; [apply sample_up_step; reflexivity|].
  eapply rtc_l; [apply (sample_spend_step 1 3); by vm_compute|].
  eapply rtc_l; [apply (sample_spend_step 2 1); by vm_compute|]. eapply rtc_l; [apply archiver_stop|].
  eapply rtc_l; [by apply sample_up_step|]. apply rtc_once, (sample_spend_step 3 5). by vm_compute.
Qed.

Lemma archive_budget_kept_witness :
  ma_sent sample_archive_life = [("0xaa", 2)] ∧ ma_running sample_archive_life ≠ None ∧
  prop_opt (default VUndef (ma_file sample_archive_life)) "budgetBlocked" = VBool true ∧
  ∃ R, prop_opt (default VUndef (ma_file sample_archive_life)) "reservedWei" = VStr (print_int R) ∧
       0 <= total (ma_sent sample_archive_life) <= R.
Proof.
  split; [vm_refl|]. split; [by vm_compute|]. split; [vm_refl|].
  pose proof (archive_budget_kept sample_never sample_archive_life (conj eq_refl (conj eq_refl eq_refl)) sample_life_reached) as Hk.
  destruct (ma_file sample_archive_life) as [document|] eqn:E.
  - destruct Hk as (M & R & journal & _ & HR & _ & _ & Hs & _). exists R. split; [exact HR|exact Hs].
  - exfalso. revert E. by vm_compute.
Defined.

(** ** A cycle with one order *)

Definition sample_archive_rpc : ArchiveRpc := {|
  block_number _ _ := Ok 102; block_at _ _ _ := Ok (VObj [("hash", VStr "0xb1")]);
  context_block _ _ _ head := Ok head;
  requested_events _ _ _ _ _ _ := Ok [{|
    ev_requestId := "7"; ev_blockNumber := 10; ev_blockHash := "0xb0"; ev_transactionHash := "0xaa";
    ev_index := 0; ev_topics := []; ev_data := "0x" |}];
  request_at _ _ _ _ _ := Ok sample_request; stored_hash _ _ _ _ := Ok ZERO
|}.
Definition sample_archive_manifest : archive_manifest := {|
  am_coordinator := "0xc0"; am_blockNumber := 1; am_keyHash := r_keyHash sample_request;
  am_blockhashStore := "0xb5" |}.
Definition sample_cycle_world : cycle_world := {|
  cw_calls := 0;
  cw_budget := {| bw_state := initialBudget (VStr "chain") 10; bw_file := None; bw_writes := 0 |};
  cw_stats := {| as_head := 0; as_cursor := 0; as_pending := 0; as_archived := 0; as_protected := 0;
                 as_missedWindow := 0; as_errors := [] |};
  cw_orders := []
|}.
Definition sample_archive_order : archive_order :=
  {| ao_requestId := "7"; ao_requestBlock := "10"; ao_maxGasPriceWei := 5 |}.
(** The order is sent once its cost is reserved. *)
Definition sample_archive_send (o : archive_order) : eff cycle_world unit :=
  on_budget (reserve (H := sample_file) (sample_reservation 1)).
Lemma sample_send_none o : keeps gives_none (sample_archive_send o).
Proof. intros w. unfold sample_archive_send, on_budget. by destruct (reserve _ _). Qed.
Definition sample_cycle : result archive_stats * cycle_world :=
  archiveCycle (H := sample_file) (H0 := sample_archive_rpc) ["https://a"; "https://b"]
    sample_archive_manifest sample_archive_send 32 sample_cycle_world.

Lemma archive_orders_justified_witness :
  cw_orders sample_cycle.2 = [sample_archive_order] ∧
  warranted (H0 := sample_archive_rpc) ["https://a"; "https://b"] sample_archive_manifest 32
    0 (cw_calls sample_cycle.2) sample_archive_order.
Proof.
  assert (cw_orders sample_cycle.2 = [sample_archive_order]) as Eo by vm_refl. split; [exact Eo|].
  destruct (archive_orders_justified (H := sample_file) (H0 := sample_archive_rpc) ["https://a"; "https://b"]
    sample_archive_manifest 32 sample_archive_send sample_send_none sample_cycle_world sample_cycle.1 sample_cycle.2
    (surjective_pairing _)) as (new & E & F).
  rewrite Eo in E. change (cw_orders sample_cycle_world) with (@nil archive_order) in E. cbn [app] in E.
  rewrite <-E in F. exact (Forall_inv F).
Defined.
