(* ===== verification/CompactWorker.v ===== *)
(** * The worker of the compact coordinator ([compact-worker.mjs], [run-compact.mjs])

    The confirmed head, the scan of the coordinator's events at all endpoints and
    its commit to the shared database, the fulfilment or expiry of a claimed
    request, the archiving of its block, and the turns of the two processes.  What
    an endpoint answers depends on the number of the call; calls that the code
    makes together follow each other here.  Sending a transaction is a parameter:
    the process uses the relayer, with the budget and the balances checked before
    a broadcast. *)

From S2P Require Import Prelude Js Hex CanonicalJson JsonText Vendor Policies OperatorStore ErrorText Archiver Compact.

Open Scope Z_scope.

(** ** The head and the events *)

(** The parts of the deployment manifest that the worker reads. *)
Record worker_manifest := {
  wm_chainId : value; wm_coordinator : string; wm_coordinatorBlock : Z; wm_keyHash : string;
  wm_blockhashStore : string
}.

(** What contracts answer: the block that the coordinator sees at a height, the
    hash of a block in the store. *)
Class WorkerContracts := {
  contextBlock_at : nat → string → string → Z → result Z;
  storedBlockhash : nat → string → string → Z → result string;
  pendingBalance : nat → string → string → result Z;                 (* provider, address *)
  populateArchive : string → Z → result value
}.

Definition compact_equal (values : list value) (label : string) : result value :=
  let disagreement := "CompactRpcDisagreement:" +:+ label in
  match values with
  | [] => Throw disagreement
  | first :: _ =>
      _ ← require (forallb (λ v, bool_decide (json_text v = json_text first)) values) disagreement;
      Ok first
  end.

(** An event of a scan. *)
Record compact_log := {
  cl_requestId : Z; cl_preSeed : Z; cl_requestBlock : Z; cl_expiresAtBlock : Z;
  cl_block : Z; cl_index : Z; cl_blockHash : value; cl_transactionHash : value; cl_witness : value
}.
Definition compact_log_value (e : compact_log) : value :=
  VObj [("requestId", VStr (print_int (cl_requestId e))); ("preSeed", VStr (print_int (cl_preSeed e)));
        ("requestBlock", VStr (print_int (cl_requestBlock e)));
        ("expiresAtBlock", VStr (print_int (cl_expiresAtBlock e)));
        ("eventBlockNumber", VNum (cl_block e)); ("index", VNum (cl_index e));
        ("eventBlockHash", cl_blockHash e); ("transactionHash", cl_transactionHash e);
        ("witness", cl_witness e)].
Definition compact_log_le (a b : compact_log) : Prop :=
  cl_block a < cl_block b ∨ (cl_block a = cl_block b ∧ cl_index a <= cl_index b).
#[global] Instance compact_log_le_dec a b : Decision (compact_log_le a b).
Proof. unfold compact_log_le. apply _. Defined.
Fixpoint duplicate_logs (events : list compact_log) : bool :=
  match events with
  | a :: (b :: _) as rest => ((cl_block b =? cl_block a) && (cl_index b =? cl_index a)) || duplicate_logs rest
  | _ => false
  end.
Definition log_pending (e : compact_log) : bool := strict_eq (prop_opt (cl_witness e) "status") (VStr "1").
(** The events whose requests ended without a successful callback. *)
Definition log_review (e : compact_log) : bool :=
  negb (log_pending e) && negb (truthy (prop_opt (cl_witness e) "callbackSucceeded")).

Section scan.
Context `{Ethers, CompactInterface, RpcSend, WorkerContracts}.

Definition two_distinct (providers : list string) : bool :=
  (2 <=? Z.of_nat (length providers)) && all_distinct providers.

Definition readCompactHead (chainId : value) (p : string) : eff nat Z :=
  chain ← send p "eth_chainId" [];
  chain ← eff_lift (to_bigint chain);
  expected ← eff_lift (to_bigint chainId);
  _ ← eff_require (chain =? expected) "compact chain mismatch";
  height ← send p "eth_blockNumber" [];
  eff_lift (to_bigint height).
Definition compactHead (providers : list string) (chainId : value) : eff nat Z :=
  _ ← eff_require (two_distinct providers) "two distinct RPCs required";
  heads ← mapM (readCompactHead chainId) providers;
  _ ← eff_require (forallb safe_integer heads && (list_max heads - list_min heads <=? 32))
        "compact RPC head skew";
  mret (list_min heads - 2).

Definition readScanLog (m : worker_manifest) (w : scan_window) (log : value) : result compact_log :=
  block ← big_prop log "blockNumber";
  index ← big_prop log "logIndex";
  address ← (if truthy (prop_opt log "removed") then Throw "invalid compact scan log"
             else to_lower (prop_opt log "address"));
  _ ← require (bool_decide (address = lower (wm_coordinator m)) && (fromBlock w <=? block)
               && (block <=? toBlock w) && safe_integer block && safe_integer index && (0 <=? index))
        "invalid compact scan log";
  args ← parseLog log;
  request ← normalizeCompactWitness (l_request args);
  '(data, topics) ← encodeEventLog (l_keyHash args) (l_requestId args) (l_consumer args) request;
  id ← compactRequestId request;
  _ ← require (strict_eq (prop_opt request "keyHash") (VStr (lower (wm_keyHash m)))
               && strict_eq (VStr (lower (l_keyHash args))) (prop_opt request "keyHash")
               && strict_eq (VStr (lower (l_consumer args))) (prop_opt request "consumer")
               && (id =? l_requestId args)
               && bool_decide (json_text (VArr (VStr <$> topics)) = json_text (prop_opt log "topics"))
               && strict_eq (VStr data) (prop_opt log "data"))
        "invalid compact scan witness";
  witness ← serializeCompactWitness request;
  Ok {| cl_requestId := l_requestId args; cl_preSeed := big_of (prop_opt request "preSeed");
        cl_requestBlock := big_of (prop_opt request "requestBlock");
        cl_expiresAtBlock := big_of (prop_opt request "expiresAtBlock");
        cl_block := block; cl_index := index; cl_blockHash := prop_opt log "blockHash";
        cl_transactionHash := prop_opt log "transactionHash"; cl_witness := witness |}.

Definition readScan (m : worker_manifest) (w : scan_window) (p : string) : eff nat (value * list compact_log) :=
  let address := lower (wm_coordinator m) in
  let tag := toQuantity (toBlock w) in
  boundary ← readBlock tag p;
  number ← (if truthy (prop_opt boundary "hash")
            then eff_lift (to_bigint (prop_opt boundary "number"))
            else (eff_throw "missing compact scan anchor" : eff nat Z));
  _ ← eff_require (number =? toBlock w) "missing compact scan anchor";
  context ← call (λ n, contextBlock_at n p address (toBlock w));
  _ ← eff_require (context =? toBlock w) "compact L2 context mismatch";
  logs ← send p "eth_getLogs" [VObj
    [("address", VStr address); ("fromBlock", VStr (toQuantity (fromBlock w))); ("toBlock", VStr tag);
     ("topics", VArr [VStr topicHash; VStr (wm_keyHash m)])]];
  logs ← eff_lift (items logs);
  events ← eff_lift (mapM (readScanLog m w) logs);
  let events := merge_sort compact_log_le events in
  _ ← eff_require (negb (duplicate_logs events)) "duplicate compact scan log";
  after ← readBlock tag p;
  _ ← eff_require (strict_eq (prop_opt after "hash") (prop_opt boundary "hash")) "compact scan reorg";
  mret (prop_opt boundary "hash", events).

Definition scan_value (r : value * list compact_log) : value :=
  VObj [("boundary", r.1); ("events", VArr (compact_log_value <$> r.2))].

Definition compactEvents (providers : list string) (m : worker_manifest) (w : scan_window)
    : eff nat (list compact_log) :=
  _ ← eff_require (two_distinct providers) "two distinct RPCs required";
  _ ← eff_require (safe_integer (fromBlock w) && safe_integer (toBlock w) && (0 <=? fromBlock w)
                   && (fromBlock w <=? toBlock w) && (toBlock w - fromBlock w <? 2000))
        "invalid compact scan range";
  observations ← mapM (readScan m w) providers;
  _ ← eff_lift (compact_equal (scan_value <$> observations) "scan events and boundary");
  mret (match observations with r :: _ => r.2 | [] => [] end).
End scan.

(** ** The database and the world of a worker *)

(** [vrf_compact_witness_events], by chain, coordinator, block hash and index of the
    log. *)
Definition witness_key : Type := string * string * string * Z.
Record witness_row := {
  wr_requestId : Z; wr_eventBlock : Z; wr_transactionHash : string; wr_commitment : string; wr_witness : value
}.

Inductive worker_transaction := Prepared (t : compact_transaction) | Populated (t : value).
Record worker_order := {
  wo_transaction : worker_transaction; wo_requestId : Z; wo_maxGasPriceWei : Z; wo_kind : string
}.
Record worker_receipt := { wr_status : Z; wr_hash : string }.

(** The calls made, the database with the table of witnesses, the budget, and the
    orders given to [send] so far. *)
Record worker_world := {
  wk_calls : nat; wk_store : database; wk_witnesses : gmap witness_key witness_row;
  wk_budget : budget_world; wk_orders : list worker_order
}.
Class WorkerClock := { clock_at : nat → Z }.

Definition on_rpc {A} (m : eff nat A) : eff worker_world A := λ w,
  let '(r, n) := m (wk_calls w) in
  (r, {| wk_calls := n; wk_store := wk_store w; wk_witnesses := wk_witnesses w;
         wk_budget := wk_budget w; wk_orders := wk_orders w |}).
Definition on_database {A} (m : eff database A) : eff worker_world A := λ w,
  let '(r, d) := m (wk_store w) in
  (r, {| wk_calls := wk_calls w; wk_store := d; wk_witnesses := wk_witnesses w;
         wk_budget := wk_budget w; wk_orders := wk_orders w |}).
Definition on_witnesses (f : gmap witness_key witness_row → gmap witness_key witness_row)
    : eff worker_world unit :=
  eff_modify (λ w, {| wk_calls := wk_calls w; wk_store := wk_store w; wk_witnesses := f (wk_witnesses w);
                      wk_budget := wk_budget w; wk_orders := wk_orders w |}).
Definition on_archive_budget {A} (m : eff budget_world A) : eff worker_world A := λ w,
  let '(r, b) := m (wk_budget w) in
  (r, {| wk_calls := wk_calls w; wk_store := wk_store w; wk_witnesses := wk_witnesses w;
         wk_budget := b; wk_orders := wk_orders w |}).
Definition order (o : worker_order) : eff worker_world unit :=
  eff_modify (λ w, {| wk_calls := wk_calls w; wk_store := wk_store w; wk_witnesses := wk_witnesses w;
                      wk_budget := wk_budget w; wk_orders := wk_orders w ++ [o] |}).

(** A text column of a row: [NULL] is refused. *)
Definition sql_text (v : value) : result string :=
  match v with
  | VUndef | VNull => Throw "null value violates not-null constraint"
  | v => Ok (to_str v)
  end.

Record scan_stats := { sc_head : Z; sc_events : Z; sc_reviewRequestIds : option (list Z) }.
Record claim_result := { cr_callbackSucceeded : bool; cr_transactionHash : option string }.
Record compact_archive_stats := { ca_head : Z; ca_pending : Z; ca_archived : Z; ca_missedWindow : Z }.

Section worker.
Context `{Ethers, UrlApi, CompactInterface, RpcSend, WorkerContracts, StateFile, WorkerClock}.
Context (providers : list string) (m : worker_manifest) (i : operator_identity) (instanceId : string)
  (dispatch : worker_order → eff worker_world worker_receipt).

(** [now()] in the database. *)
Definition clock : eff worker_world Z := λ w, (Ok (clock_at (wk_calls w)), w).

Definition saveWitnessEvent (e : compact_log) : eff worker_world unit :=
  commitment ← eff_lift (compactCommitment (cl_witness e) (wm_chainId m) (wm_coordinator m));
  blockHash ← eff_lift (sql_text (cl_blockHash e));
  transactionHash ← eff_lift (sql_text (cl_transactionHash e));
  let key := (to_str (wm_chainId m), lower (wm_coordinator m), blockHash, cl_index e) in
  on_witnesses (λ t,
    match t !! key with
    | Some _ => t
    | None => <[key := {| wr_requestId := cl_requestId e; wr_eventBlock := cl_block e;
                          wr_transactionHash := transactionHash; wr_commitment := commitment;
                          wr_witness := cl_witness e |}]> t
    end).
Definition saveWitnessEvents (events : list compact_log) : eff worker_world unit :=
  eff_forM saveWitnessEvent events.

(** The event as the store takes it. *)
Definition store_event (e : compact_log) : result scan_event :=
  blockHash ← sql_text (cl_blockHash e);
  transactionHash ← sql_text (cl_transactionHash e);
  Ok {| requestId := cl_requestId e; preSeed := cl_preSeed e; requestBlock := cl_requestBlock e;
        expiresAtBlock := cl_expiresAtBlock e; eventBlockNumber := cl_block e;
        eventBlockHash := blockHash; transactionHash := transactionHash |}.
Definition ended_ids (events : list compact_log) : list Z :=
  cl_requestId <$> filter (λ e, log_pending e = false) events.

Definition compactScan : eff worker_world scan_stats :=
  head ← on_rpc (compactHead providers (wm_chainId m));
  t ← clock;
  range ← on_database (claimScan i instanceId head 2000 32 60 t);
  match range with
  | None => mret {| sc_head := head; sc_events := 0; sc_reviewRequestIds := None |}
  | Some w =>
      eff_catch
        (events ← on_rpc (compactEvents providers m w);
         _ ← saveWitnessEvents events;
         requested ← eff_lift (mapM store_event (filter (λ e, log_pending e = true) events));
         t ← clock;
         _ ← on_database (commitScan i instanceId w requested (ended_ids events) t);
         mret {| sc_head := head; sc_events := Z.of_nat (length events);
                 sc_reviewRequestIds := Some (cl_requestId <$> filter (λ e, log_review e = true) events) |})
        (λ e, _ ← on_database (releaseScan i instanceId); eff_throw e)
  end.

(** ** A claimed request *)

(** What is asked about a request, from the block of its event on. *)
Definition claim_options (id fromBlock : Z) : compact_options := {|
  co_providers := Some providers; co_rpcUrls := VUndef; co_allowSharedOrigin := false;
  co_chainId := wm_chainId m; co_coordinatorAddress := wm_coordinator m;
  co_requestId := VStr (print_int id); co_keyHash := VStr (wm_keyHash m); co_includeSeed := false;
  co_witness := VUndef; co_fromBlock := VNum fromBlock; co_action := None; co_proofProvider := None;
  co_from := ""; co_gasPriceWei := VUndef; co_gasLimit := VUndef |}.
(** [{ ...options, action, from, proofProvider, gasPriceWei }] *)
Definition prepare_options (o : compact_options) (action from : string) (proofProvider : option compact_prover)
    (gasPriceWei : Z) : compact_options := {|
  co_providers := co_providers o; co_rpcUrls := co_rpcUrls o;
  co_allowSharedOrigin := co_allowSharedOrigin o; co_chainId := co_chainId o;
  co_coordinatorAddress := co_coordinatorAddress o; co_requestId := co_requestId o;
  co_keyHash := co_keyHash o; co_includeSeed := co_includeSeed o; co_witness := co_witness o;
  co_fromBlock := co_fromBlock o; co_action := Some action; co_proofProvider := proofProvider;
  co_from := from; co_gasPriceWei := VBig gasPriceWei; co_gasLimit := co_gasLimit o |}.

Definition fulfillCompactClaim (pending : scan_event) (from : string) (proofProvider : option compact_prover)
    (gasPriceWei : Z) : eff worker_world claim_result :=
  let options := claim_options (requestId pending) (eventBlockNumber pending) in
  '(recovered, _) ← on_rpc (recoverCompactRequest options);
  if negb (is_big (status (st_request recovered)) 1)
  then mret {| cr_callbackSucceeded := callbackSucceeded (st_request recovered); cr_transactionHash := None |}
  else
    provider ← eff_lift (from_option_or TYPE_ERROR (head providers));
    height ← on_rpc (call (λ n, contextBlock_at n provider (wm_coordinator m) (a_number (st_anchor recovered))));
    let action := if big_of (prop_opt (st_request recovered) "expiresAtBlock") <? height
                  then "expireRequest" else "fulfillRandomWords" in
    prepared ← on_rpc (prepareCompactTransaction (prepare_options options action from proofProvider gasPriceWei));
    let o := {| wo_transaction := Prepared (pr_transaction prepared); wo_requestId := requestId pending;
                wo_maxGasPriceWei := big_of (prop_opt (st_request recovered) "maxGasPriceWei");
                wo_kind := "compact-" +:+ action |} in
    _ ← order o;
    receipt ← dispatch o;
    _ ← eff_require (wr_status receipt =? 1) "compact transaction reverted";
    '(final, _) ← on_rpc (recoverCompactRequest options);
    _ ← eff_require (negb (is_big (status (st_request final)) 1))
          "compact transaction not finalized across RPCs";
    mret {| cr_callbackSucceeded := callbackSucceeded (st_request final);
            cr_transactionHash := Some (wr_hash receipt) |}.

(** ** Archiving *)

Definition add_archive (pending archived missed : Z) (s : compact_archive_stats) : compact_archive_stats :=
  {| ca_head := ca_head s; ca_pending := ca_pending s + pending; ca_archived := ca_archived s + archived;
     ca_missedWindow := ca_missedWindow s + missed |}.

Definition archiveRequest (stats : compact_archive_stats) (e : compact_log) : eff worker_world compact_archive_stats :=
  '(recovered, _) ← on_rpc (recoverCompactRequest (claim_options (cl_requestId e) (cl_block e)));
  let request := st_request recovered in
  if negb (is_big (status request) 1) then mret stats
  else
    let block := big_of (prop_opt request "requestBlock") in
    hashes ← on_rpc (mapM (λ p, call (λ n, storedBlockhash n p (wm_blockhashStore m) block)) providers);
    head ← on_rpc (compactHead providers (wm_chainId m));
    hash ← eff_lift (compact_equal (VStr <$> hashes) "archive hash");
    action ← eff_lift (archiveDecision (status request) (prop_opt request "requestBlock") (to_str hash)
                         (head + 2) 32);
    let stats := add_archive 1 0 0 stats in
    stats ← (if bool_decide (action = "missed-window") then
               _ ← on_archive_budget (recordMissed (VStr (print_int (cl_requestId e))));
               mret (add_archive 0 0 1 stats)
             else mret stats);
    if bool_decide (action = "archive") then
      transaction ← eff_lift (populateArchive (wm_blockhashStore m) block);
      let o := {| wo_transaction := Populated transaction; wo_requestId := cl_requestId e;
                  wo_maxGasPriceWei := big_of (prop_opt request "maxGasPriceWei");
                  wo_kind := "compact-archive" |} in
      _ ← order o;
      receipt ← dispatch o;
      _ ← eff_require (wr_status receipt =? 1) "compact archive reverted";
      mret (add_archive 0 1 0 stats)
    else mret stats.
Fixpoint archiveRequests (stats : compact_archive_stats) (events : list compact_log)
    : eff worker_world compact_archive_stats :=
  match events with
  | [] => mret stats
  | e :: events => stats ← archiveRequest stats e; archiveRequests stats events
  end.

Definition compactArchiveCycle (saveEvents : list compact_log → eff worker_world unit)
    : eff worker_world compact_archive_stats :=
  head ← on_rpc (compactHead providers (wm_chainId m));
  let from := Z.max (wm_coordinatorBlock m) (head - 511) in
  let none := {| ca_head := head; ca_pending := 0; ca_archived := 0; ca_missedWindow := 0 |} in
  if head <? from then mret none
  else
    events ← on_rpc (compactEvents providers m {| fromBlock := from; toBlock := head |});
    _ ← saveEvents events;
    stats ← archiveRequests none (filter (λ e, log_pending e = true) events);
    _ ← on_archive_budget (checkpoint head);
    mret stats.

(** ** The turns of the processes *)

Definition GAS_PRICE_CAP : Z := 15000000.

Definition readGasPrice (p : string) : eff nat Z :=
  price ← Compact.send p "eth_gasPrice" []; eff_lift (to_bigint price).

(** The body of the [try] on a claimed request. *)
Definition settleClaim (pending : scan_event) (from : string) (proofProvider : option compact_prover)
    : eff worker_world unit :=
  gas ← on_rpc (mapM readGasPrice providers);
  let gasPriceWei := list_max gas in
  _ ← eff_require (gasPriceWei <=? GAS_PRICE_CAP) "V3 gas price cap";
  result ← fulfillCompactClaim pending from proofProvider gasPriceWei;
  _ ← (if cr_callbackSucceeded result then mret tt
       else on_archive_budget (recordReview (VStr (print_int (requestId pending)))));
  on_database (completeRequest i (requestId pending) instanceId).

(** [l?.length] is not zero. *)
Definition has_items (v : value) : bool := match v with VArr (_ :: _) => true | _ => false end.
Definition budgetOkay : eff budget_world bool :=
  gap ← get_state "coverageGap";
  blocked ← get_state "budgetBlocked";
  missed ← get_state "missedRequestIds";
  review ← get_state "reviewRequestIds";
  if truthy gap || truthy blocked || has_items missed || has_items review then mret false
  else left ← remaining; mret (0 <? left).
(** The end of a turn: the heartbeat, and whether the process is healthy. *)
Definition beat (mode relayer : string) (stats : list (string * value)) : eff worker_world bool :=
  okay ← on_archive_budget budgetOkay;
  t ← clock;
  _ ← on_database (heartbeat instanceId (VObj
        ([("chainId", VStr (chainId i)); ("coordinator", VStr (coordinator i)); ("keyHash", VStr (keyHash i));
          ("relayer", VStr (lower relayer)); ("mode", VStr mode)] ++ stats)) t);
  mret okay.

Definition id_values (ids : list Z) : value := VArr ((λ id, VStr (print_int id)) <$> ids).
Definition scan_stats_fields (s : scan_stats) (q : store_summary) : list (string * value) :=
  [("head", VNum (sc_head s)); ("events", VNum (sc_events s))]
  ++ match sc_reviewRequestIds s with Some ids => [("reviewRequestIds", id_values ids)] | None => [] end
  ++ [("queue", VObj [("cursor", VNum (cursor q)); ("pending", VNum (OperatorStore.pending q));
        ("oldestRequestBlock", match oldestRequestBlock q with Some b => VNum b | None => VNull end)])].
Definition archive_stats_fields (s : compact_archive_stats) : list (string * value) :=
  [("head", VNum (ca_head s)); ("pending", VNum (ca_pending s)); ("archived", VNum (ca_archived s));
   ("missedWindow", VNum (ca_missedWindow s))].

(** A claimed request; an error puts it off and ends the turn. *)
Definition settlePending (from : string) (proofProvider : option compact_prover) : eff worker_world unit :=
  t ← clock;
  claimed ← on_database (claimRequest i instanceId 360 t);
  match claimed with
  | None => mret tt
  | Some claimed =>
      let pending := c_event claimed in
      eff_catch (settleClaim pending from proofProvider) (λ e,
        t ← clock;
        _ ← on_database (retryRequest i (requestId pending) instanceId
              (json_text (VObj ((λ kv, (kv.1, VStr kv.2)) <$> errorDetails (VObj [("message", VStr e)])))) 10 t);
        eff_throw e)
  end.

(** A turn gives whether the process is healthy, and its statistics. *)
Definition operatorTurn (from : string) (proofProvider : option compact_prover)
    : eff worker_world (bool * list (string * value)) :=
  stats ← compactScan;
  _ ← eff_forM (λ id, on_archive_budget (recordReview (VStr (print_int id))))
        (default [] (sc_reviewRequestIds stats));
  _ ← settlePending from proofProvider;
  w ← eff_get;
  queue ← eff_lift (summary i (wk_store w));
  let fields := scan_stats_fields stats queue in
  okay ← beat "operator" from fields; mret (okay, fields).

Definition archiverTurn (from : string) : eff worker_world (bool * list (string * value)) :=
  stats ← compactArchiveCycle saveWitnessEvents;
  let fields := archive_stats_fields stats in
  okay ← beat "archiver" from fields; mret (okay, fields).

(** ** Sending within the limits of the process *)

Definition RELAYER_FLOOR : Z := 2000000000000000.
Definition value_of (t : worker_transaction) : value :=
  match t with Prepared _ => VUndef | Populated v => prop_opt v "value" end.

(** What [sendPostgresTransaction] is given. *)
Record send_request := {
  sr_transaction : worker_transaction; sr_maxGasPrice : Z; sr_timeoutMs : Z; sr_maximumAttempts : Z;
  sr_requestId : Z; sr_kind : string; sr_beforeBroadcast : reservation → eff worker_world unit
}.
Definition beforeBroadcast (address : string) (tx : reservation) : eff worker_world unit :=
  balances ← on_rpc (mapM (λ p, call (λ n, pendingBalance n p address)) providers);
  _ ← eff_require (forallb (λ b, RELAYER_FLOOR <=? b - re_gasLimit tx * re_gasPriceWei tx) balances)
        "V3 relayer balance floor";
  on_archive_budget (reserve tx).
Definition runtimeSend (address : string) (sendPostgres : send_request → eff worker_world worker_receipt)
    (o : worker_order) : eff worker_world worker_receipt :=
  amount ← eff_lift (if truthy (value_of (wo_transaction o)) then to_bigint (value_of (wo_transaction o)) else Ok 0);
  _ ← eff_require (amount =? 0) "runtime may not transfer value";
  sendPostgres {|
    sr_transaction := wo_transaction o; sr_maxGasPrice := Z.min (wo_maxGasPriceWei o) GAS_PRICE_CAP;
    sr_timeoutMs := 15000; sr_maximumAttempts := 1; sr_requestId := wo_requestId o; sr_kind := wo_kind o;
    sr_beforeBroadcast := beforeBroadcast address |}.
End worker.
