(* ===== verification/CompactWorkerSafety.v ===== *)
(** * What the compact worker commits and sends ([compact-worker.mjs])

    The events of a scan are those that every endpoint served; the database that
    the scan commits to implements the tracker of the other operators; a claim that
    is settled was seen finished by every endpoint; and the worker sends a
    transaction only for a pending request that every endpoint committed to. *)

From S2P Require Import Prelude Js Hex CanonicalJson JsonText Json Vendor Policies OperatorStore StoreLeases Scanner Archiver ArchiverSafety Compact CompactSafety CompactConsensus CompactWorker NodeSafety Samples.

Open Scope Z_scope.

(** The hashes in the answers of an endpoint are texts, or null. *)
Definition text_or_null (v : value) : Prop := v = VUndef ∨ v = VNull ∨ ∃ s, v = VStr s.
Class RpcTexts `{RpcSend} := {
  block_texts n p params b :
    rpc_send n p "eth_getBlockByNumber" params = Ok b → text_or_null (prop_opt b "hash");
  log_texts n p params logs :
    rpc_send n p "eth_getLogs" params = Ok (VArr logs) →
    Forall (λ log, (∃ s, prop_opt log "blockHash" = VStr s) ∧ ∃ s, prop_opt log "transactionHash" = VStr s) logs
}.

(** ** Texts of scans *)

(** A value of strings and numbers is its own image. *)
Definition textual (v : value) : Prop := plain v = true ∧ json_image v = v.

Lemma textual_leaf v : leaf v → textual v.
Proof. by destruct v. Qed.
Lemma textual_object fs : Forall (λ kv : string * value, textual kv.2) fs → textual (VObj fs).
Proof.
  intros Hall. split.
  - cbn. apply forallb_Forall. eapply Forall_impl; [exact Hall|]. by intros [k x] [? ?].
  - cbn. f_equal. rewrite <-(list_fmap_id fs) at 2. apply Forall_fmap_ext_1.
    eapply Forall_impl; [exact Hall|]. intros [k x] [_ E]. cbn in *. by rewrite E.
Qed.
Lemma textual_array l : Forall textual l → textual (VArr l).
Proof.
  intros Hall. split.
  - cbn. apply forallb_Forall. eapply Forall_impl; [exact Hall|]. by intros x [? ?].
  - cbn. f_equal. rewrite <-(list_fmap_id l) at 2. apply Forall_fmap_ext_1.
    eapply Forall_impl; [exact Hall|]. by intros x [_ E].
Qed.
Lemma textual_inj v w : textual v → textual w → json_text v = json_text w → v = w.
Proof. intros [Hv Ev] [Hw Ew] E. apply json_text_inj in E; [congruence|done..]. Qed.

#[global] Instance log_value_inj : Inj (=) (=) compact_log_value.
Proof.
  intros a b.
  destruct a, b. unfold compact_log_value. cbn. intros [= E1 E2 E3 E4 -> -> -> -> ->].
  apply print_int_inj in E1, E2, E3, E4. by subst.
Qed.

Lemma compact_equal_Ok vs name v :
  compact_equal vs name = Ok v → v ∈ vs ∧ Forall (λ w, json_text w = json_text v) vs.
Proof.
  unfold compact_equal. destruct vs as [|first vs]; [done|].
  intros ([] & Hall%require_Ok & [= <-])%bind_Ok. split; [set_solver|].
  apply forallb_Forall in Hall. eapply Forall_impl; [exact Hall|]. intros w. apply bool_decide_eq_true.
Qed.

Lemma two_distinct_spec ps : two_distinct ps = true → NoDup ps ∧ 2 <= Z.of_nat (length ps).
Proof. intros [Hl%Z.leb_le Hd%all_distinct_spec]%andb_true_iff. done. Qed.

#[local] Hint Resolve forward_send forward_call : vrf.

Section scan.
Context `{EthersLaws, CompactInterface, RpcSend, WorkerContracts, !RpcTexts}.

Lemma serialize_textual v w : serializeCompactWitness v = Ok w → textual w.
Proof.
  intros Hw. pose proof (serialized_leaves _ _ Hw) as Hl.
  apply bind_Ok in Hw as (n & _ & [= <-]). apply textual_object. cbn [object_fields] in Hl.
  eapply Forall_impl; [exact Hl|]. intros kv. apply textual_leaf.
Qed.

(** What an endpoint served for a window: the block at its end, with this hash before
    and after, and the logs whose events, in the order of the chain, are these. *)
Definition scanned (n n' : nat) (m : worker_manifest) (w : scan_window) (boundary : value)
    (events : list compact_log) (p : string) : Prop :=
  anchored n n' {| a_number := toBlock w; a_tag := toQuantity (toBlock w); a_hash := boundary |} p ∧
  (∃ i, (n <= i < n')%nat ∧ contextBlock_at i p (lower (wm_coordinator m)) (toBlock w) = Ok (toBlock w)) ∧
  Sorted compact_log_le events ∧ duplicate_logs events = false ∧
  ∃ logs served, events ≡ₚ served ∧ Forall2 (λ log e, readScanLog m w log = Ok e) logs served ∧
    answered n n' p "eth_getLogs" [VObj
      [("address", VStr (lower (wm_coordinator m))); ("fromBlock", VStr (toQuantity (fromBlock w)));
       ("toBlock", VStr (toQuantity (toBlock w)));
       ("topics", VArr [VStr topicHash; VStr (wm_keyHash m)])]] (VArr logs).

Lemma scanned_weaken n n' k k' m w b es p :
  (k <= n)%nat → (n' <= k')%nat → scanned n n' m w b es p → scanned k k' m w b es p.
Proof.
  intros ? ? ((v & Hv & ?) & (i & ? & ?) & ? & ? & logs & served & ? & ? & Hans). split_and!; try done.
  - exists v. split; [|done]. by eapply answered_weaken.
  - exists i. split; [lia|done].
  - exists logs, served. split_and!; [done..|]. by eapply answered_weaken.
Qed.

Lemma forward_readScan m w p : forward (readScan m w p).
Proof. unfold readScan, Compact.readBlock. forward. Qed.
#[local] Hint Resolve forward_readScan : vrf.

#[local] Instance compact_log_le_total : Total compact_log_le.
Proof. intros a b. unfold compact_log_le. lia. Qed.

Lemma readScanLog_textual m w log e :
  readScanLog m w log = Ok e → (∃ s, prop_opt log "blockHash" = VStr s) → (∃ s, prop_opt log "transactionHash" = VStr s) →
  textual (compact_log_value e).
Proof.
  intros Hr [s Hs] [s' Hs']. unfold readScanLog in Hr.
  do 4 (apply bind_Ok in Hr as (? & _ & Hr)). apply bind_Ok in Hr as (args & _ & Hr).
  apply bind_Ok in Hr as (request & _ & Hr). apply bind_Ok in Hr as ([data topics] & _ & Hr).
  apply bind_Ok in Hr as (id & _ & Hr). apply bind_Ok in Hr as (? & _ & Hr).
  apply bind_Ok in Hr as (witness & Hw & [= <-]). apply textual_object. cbn. rewrite Hs, Hs'.
  repeat constructor; try done; by apply (serialize_textual request).
Qed.

Lemma readScan_Ok m w p n r n' :
  readScan m w p n = (Ok r, n') → scanned n n' m w r.1 r.2 p ∧ textual (scan_value r).
Proof.
  unfold readScan. intros Hr. pose proof (forward_readScan m w p _ _ _ Hr) as _.
  apply eff_bind_Ok in Hr as (b & n1 & [Hb L1]%send_Ok & Hr).
  destruct (truthy (prop_opt b "hash")) eqn:Eb; [|by apply eff_bind_Ok in Hr as (? & ? & ? & _)].
  apply eff_lift_bind_Ok in Hr as (number & Hnumber & Hr). apply eff_require_bind_Ok in Hr as (->%Z.eqb_eq & Hr).
  apply eff_bind_Ok in Hr as (context & n2 & [= Hc <-] & Hr). apply eff_require_bind_Ok in Hr as (->%Z.eqb_eq & Hr).
  apply eff_bind_Ok in Hr as (answer & n3 & [Hans L3]%send_Ok & Hr).
  apply eff_lift_bind_Ok in Hr as (logs & Hl & Hr). destruct answer; try done. injection Hl as ->.
  apply eff_lift_bind_Ok in Hr as (served & Hs%mapM_Ok & Hr). apply eff_require_bind_Ok in Hr as (Hd%negb_true_iff & Hr).
  apply eff_bind_Ok in Hr as (after & n4 & [Ha L4]%send_Ok & Hr). apply eff_require_bind_Ok in Hr as (Heq & [= <- <-]).
  cbn [fst snd].
  assert (∃ s, prop_opt b "hash" = VStr s) as [h Hh].
  { destruct Hb as (i & _ & Hb). destruct (block_texts _ _ _ _ Hb) as [E|[E|?]]; [rewrite E in Eb; done..|done]. }
  split.
  - split_and!; try done.
    + exists b. cbn. split; [eapply answered_weaken; [..|exact Hb]; lia|]. rewrite Hh. cbn. by apply bool_decide_eq_true.
    + exists n1. split; [lia|done].
    + apply Sorted_merge_sort, _.
    + exists logs, served. split_and!; [apply merge_sort_Permutation|done|].
      eapply answered_weaken; [..|exact Hans]; lia.
  - apply textual_object. cbn. rewrite Hh. constructor; [done|]. constructor; [|constructor].
    apply textual_array, Forall_fmap. rewrite merge_sort_Permutation.
    destruct Hans as (i & _ & Hans). pose proof (log_texts _ _ _ _ Hans) as Ht.
    clear -Hs Ht H0. induction Hs as [|log e logs served Hr _ IH]; [constructor|].
    apply Forall_cons in Ht as [[Hb Htx] Ht]. constructor; [by eapply readScanLog_textual|by apply IH].
Qed.

Lemma scan_value_inj r r' : textual (scan_value r) → textual (scan_value r') →
  json_text (scan_value r) = json_text (scan_value r') → r = r'.
Proof.
  intros Hr Hr' E. apply textual_inj in E; [|done..]. destruct r as [b es], r' as [b' es'].
  unfold scan_value in E. cbn [fst snd] in E. injection E as -> E. f_equal.
  by apply (inj (fmap compact_log_value)) in E.
Qed.

Lemma forward_compactHead ps chainId : forward (compactHead ps chainId).
Proof. unfold compactHead, readCompactHead. forward. Qed.
Lemma forward_compactEvents ps m w : forward (compactEvents ps m w).
Proof. unfold compactEvents. forward. Qed.

(** The events of a scan are those that each endpoint served. *)
Lemma compactEvents_Ok ps m w n events n' :
  compactEvents ps m w n = (Ok events, n') →
  NoDup ps ∧ 2 <= Z.of_nat (length ps) ∧ 0 <= fromBlock w <= toBlock w ∧
  ∃ boundary, Forall (scanned n n' m w boundary events) ps.
Proof.
  unfold compactEvents. intros Hr. apply eff_require_bind_Ok in Hr as ([Hd Hl]%two_distinct_spec & Hr).
  apply eff_require_bind_Ok in Hr as (Hw & Hr).
  apply eff_bind_Ok in Hr as (obs & n1 & Hobs & Hr). apply eff_lift_bind_Ok in Hr as (v & Hv & [= He <-]).
  reflect_bool_hyps. split_and!; try done.
  apply eff_mapM_Ok in Hobs as [_ Hobs]; [|intros; apply forward_readScan].
  apply compact_equal_Ok in Hv as [_ Hv]. apply Forall_fmap in Hv.
  destruct Hobs as [|p0 r0 ps obs (i0 & j0 & Hi0 & Hj0 & Hr0) Hobs]; [cbn in Hl; lia|].
  subst events. exists r0.1. pose proof (readScan_Ok _ _ _ _ _ _ Hr0) as [Hs0 Ht0].
  apply Forall_cons in Hv as [Hv0 Hv]. unfold compose in Hv0, Hv. constructor.
  { eapply scanned_weaken; [..|exact Hs0]; lia. }
  clear -Hobs Hv Hv0 Ht0 H0 H4. induction Hobs as [|p r ps obs (i & j & Hi & Hj & Hr) _ IH]; [constructor|].
  apply Forall_cons in Hv as [Hvr Hv]. constructor; [|by apply IH].
  apply readScan_Ok in Hr as [Hs Ht]. assert (r = r0) as -> by (apply scan_value_inj; [done..|congruence]).
  eapply scanned_weaken; [..|exact Hs]; lia.
Qed.
End scan.

(** ** The world of a worker *)

Definition rpc_at (n : nat) (w : worker_world) : worker_world :=
  {| wk_calls := n; wk_store := wk_store w; wk_witnesses := wk_witnesses w;
     wk_budget := wk_budget w; wk_orders := wk_orders w |}.
Definition with_store (d : database) (w : worker_world) : worker_world :=
  {| wk_calls := wk_calls w; wk_store := d; wk_witnesses := wk_witnesses w;
     wk_budget := wk_budget w; wk_orders := wk_orders w |}.

Lemma wp_on_rpc_bind {A B} (c : eff nat A) (k : A → eff worker_world B) Q w :
  forward c →
  (∀ a n, c (wk_calls w) = (Ok a, n) → (wk_calls w <= n)%nat → wp (k a) Q (rpc_at n w)) →
  (∀ e n, (wk_calls w <= n)%nat → Q (Throw e) (rpc_at n w)) → wp (on_rpc c ≫= k) Q w.
Proof.
  intros Hc Ha He. apply wp_bind. unfold wp at 1, on_rpc.
  destruct (c (wk_calls w)) as [[a|e] n] eqn:E; [apply Ha|apply He]; try done; by eapply Hc.
Qed.
Lemma wp_on_database_bind {A B} (m : eff database A) (k : A → eff worker_world B) Q w :
  (∀ a d, m (wk_store w) = (Ok a, d) → wp (k a) Q (with_store d w)) →
  (∀ e d, m (wk_store w) = (Throw e, d) → Q (Throw e) (with_store d w)) → wp (on_database m ≫= k) Q w.
Proof.
  intros Ha He. apply wp_bind. unfold wp at 1, on_database.
  destruct (m (wk_store w)) as [[a|e] d] eqn:E; [by apply Ha|by apply He].
Qed.

(** ** A scan and the tracker *)

Lemma claimScan_implements i inst latest range lookback lease now d t :
  implements i d t → implements i (claimScan i inst latest range lookback lease now d).2 t.
Proof.
  intros [Hc Hl]. unfold claimScan, mbind, eff_bind, eff_get, eff_modify, eff_lift, mret, eff_ret.
  destruct (scan_state d !! key_of i) as [row|] eqn:Hrow; [|done].
  destruct (_ && _); [|by split; [cbn; rewrite Hrow|]].
  assert (implements i (set_scan <[key_of i := {|
    deployment_block := deployment_block row; next_block := next_block row;
    scan_lease_owner := Some inst; scan_lease_expires_at := Some (now + lease) |}]> d) t) as Hi.
  { split; [|done]. cbn [scan_state set_scan]. by rewrite lookup_insert_eq. }
  by destruct (safeBlockNumber _ _).
Qed.
Lemma releaseScan_implements i inst d t : implements i d t → implements i (releaseScan i inst d).2 t.
Proof.
  intros [Hc Hl]. split; [|done]. cbn [releaseScan eff_modify snd scan_state set_scan]. rewrite lookup_alter_eq. destruct (scan_state d !! key_of i); [|done].
  cbn in *. by case_bool_decide.
Qed.

Lemma commitScan_throw i inst win requested finalized now d e d' :
  commitScan i inst win requested finalized now d = (Throw e, d') → d' = d.
Proof.
  unfold commitScan, transaction. intros E. by case_match; case_match; simplify_eq.
Qed.

Section scans.
Context `{EthersLaws, CompactInterface, RpcSend, WorkerContracts, !RpcTexts, WorkerClock}.
Context (providers : list string) (m : worker_manifest) (i : operator_identity) (instanceId : string).

(** The row of an event, which is kept as it was first recorded. *)
Definition recorded (e : compact_log) (t : gmap witness_key witness_row) : Prop :=
  ∃ hash row, sql_text (cl_blockHash e) = Ok hash ∧
    t !! (to_str (wm_chainId m), lower (wm_coordinator m), hash, cl_index e) = Some row.
Definition recording (w w' : worker_world) : Prop :=
  wk_calls w' = wk_calls w ∧ wk_store w' = wk_store w ∧ wk_budget w' = wk_budget w ∧
  wk_orders w' = wk_orders w ∧ wk_witnesses w ⊆ wk_witnesses w'.
#[local] Instance recording_preorder : PreOrder recording.
Proof.
  split; [by intros w|]. intros w1 w2 w3 (? & ? & ? & ? & ?) (? & ? & ? & ? & ?).
  split_and!; try congruence. by etrans.
Qed.

Lemma saveWitnessEvent_spec e w :
  wp (saveWitnessEvent m e) (λ r w', recording w w' ∧ (r = Ok tt → recorded e (wk_witnesses w'))) w.
Proof.
  unfold saveWitnessEvent. apply wp_lift_bind; [|by split]. intros commitment _.
  apply wp_lift_bind; [|by split]. intros hash Hh. apply wp_lift_bind; [|by split]. intros tx _.
  unfold wp, on_witnesses, eff_modify. cbn. set (key := (_, _, hash, _)). set (row := Build_witness_row _ _ _ _ _).
  unfold recording, recorded. cbn [wk_calls wk_store wk_witnesses wk_budget wk_orders]. fold key.
  destruct (wk_witnesses w !! key) as [old|] eqn:E.
  - split; [by split_and!|]. intros _. exists hash, old. by split.
  - split; [split_and!; try done; by apply insert_subseteq|]. intros _. exists hash, row. split; [done|].
    apply lookup_insert_eq.
Qed.
Lemma recorded_mono e t t' : t ⊆ t' → recorded e t → recorded e t'.
Proof. intros Ht (h & row & ? & ?). exists h, row. split; [done|]. by eapply lookup_weaken. Qed.

Lemma saveWitnessEvents_spec events w :
  wp (saveWitnessEvents m events) (λ r w',
    recording w w' ∧ (r = Ok tt → Forall (λ e, recorded e (wk_witnesses w')) events)) w.
Proof.
  unfold saveWitnessEvents. revert w. induction events as [|e events IH]; intros w; cbn [eff_forM].
  { apply wp_ret. split; [reflexivity|constructor]. }
  apply wp_bind. eapply wp_mono; [apply saveWitnessEvent_spec|]. intros [[]|err] w1 [Hw1 Hrec]; [|done].
  eapply wp_mono; [apply IH|]. intros r w2 [Hw2 Hall]. split; [by etrans|]. intros Hr. constructor; [|by apply Hall].
  eapply recorded_mono; [|by apply Hrec]. apply Hw2.
Qed.

(** What a scan ends with. *)
Definition scan_outcome (t : tracker) (w : worker_world) (r : result scan_stats) (w' : worker_world) : Prop :=
  wk_budget w' = wk_budget w ∧ wk_orders w' = wk_orders w ∧ wk_witnesses w ⊆ wk_witnesses w' ∧
  match r with
  | Throw _ => implements i (wk_store w') t
  | Ok s =>
      (s = {| sc_head := sc_head s; sc_events := 0; sc_reviewRequestIds := None |} ∧ implements i (wk_store w') t) ∨
      let window := scanRange i (t_cursor t) (sc_head s) 2000 32 in
      ∃ boundary events requested,
        2 <= Z.of_nat (length providers) ∧ NoDup providers ∧
        Forall (scanned (wk_calls w) (wk_calls w') m window boundary events) providers ∧
        sc_events s = Z.of_nat (length events) ∧ Forall (λ e, recorded e (wk_witnesses w')) events ∧
        mapM store_event (filter (λ e, log_pending e = true) events) = Ok requested ∧
        implements i (wk_store w') (scan_step window requested (ended_ids events) t)
  end.

Lemma compactScan_spec t w :
  implements i (wk_store w) t →
  wp (compactScan providers m i instanceId) (λ r w', scan_outcome t w r w') w.
Proof.
  intros Himp. unfold compactScan. apply wp_on_rpc_bind; [apply forward_compactHead| |by intros; split_and!].
  intros head n1 _ L1. apply wp_bind. unfold wp at 1. cbn [clock fst snd wk_calls rpc_at].
  pose proof (claimScan_implements i instanceId head 2000 32 60 (clock_at n1) _ _ Himp) as Hi.
  apply wp_on_database_bind; cbn [wk_store rpc_at];
    [|intros e d E; rewrite E in Hi; by split_and!].
  intros [win|] d Hclaim.
  2: { rewrite Hclaim in Hi. apply wp_ret. split_and!; try done. by left. }
  clear Hi.
  destruct (claimScan_window _ _ _ _ _ _ _ _ _ _ _ Himp Hclaim) as (_ & Hwin & Himp1). clear Hclaim.
  apply wp_catch.
  assert (∀ e w1, wk_budget w1 = wk_budget w → wk_orders w1 = wk_orders w → wk_witnesses w ⊆ wk_witnesses w1 →
    wk_store w1 = d → wp (_ ← on_database (releaseScan i instanceId); eff_throw e) (scan_outcome t w) w1) as Hrel.
  { intros e w1 ??? Hd. apply wp_on_database_bind; [|done]. intros [] d' E. unfold wp. split_and!; try done. cbn.
    pose proof (releaseScan_implements i instanceId _ _ Himp1) as Hi. rewrite <-Hd, E in Hi. exact Hi. }
  apply wp_on_rpc_bind; [apply forward_compactEvents| |intros; by apply Hrel]. cbn [wk_calls with_store rpc_at].
  intros events n2 Hev L2. apply wp_bind. eapply wp_mono; [apply saveWitnessEvents_spec|].
  intros [[]|e] w1 [(E1 & E2 & E3 & E4 & Hsub) Hrec]; [|by apply Hrel]. cbn in E1, E2, E3, E4, Hsub.
  apply wp_lift_bind; [|intros; by apply Hrel]. intros requested Hreq. apply wp_bind. unfold wp at 1. cbn [clock fst snd].
  apply wp_on_database_bind; rewrite E2.
  - intros [] d' Hcommit. apply wp_ret. split_and!; try done. right. subst win.
    destruct (compactEvents_Ok _ _ _ _ _ _ Hev) as (Hd & Hl & _ & boundary & Hsc).
    exists boundary, events, requested. split_and!; try done; [|by apply Hrec|by eapply implements_commitScan].
    eapply Forall_impl; [exact Hsc|]. intros p Hp. cbn [wk_calls with_store]. rewrite E1. apply (scanned_weaken n1 n2); [done|done|exact Hp].
  - intros e d' ->%commitScan_throw. by apply Hrel.
Qed.

(** C31: the operators of the compact coordinator that share a database implement the
    abstract tracker of the scan: a scan that returns with events has them from every
    one of at least two distinct endpoints, which served the same events for the range
    that follows from the cursor and had its last block with one hash before and
    after; the database goes to the tracker that the step computes from the pending
    and the finished of them, and every event is in the table of witnesses, which only
    grows.  A scan that throws anywhere leaves the tracker as it was. *)
Theorem compact_scan_refines t w r w' :
  implements i (wk_store w) t → compactScan providers m i instanceId w = (r, w') →
  wk_budget w' = wk_budget w ∧ wk_orders w' = wk_orders w ∧ wk_witnesses w ⊆ wk_witnesses w' ∧
  match r with
  | Throw _ => implements i (wk_store w') t
  | Ok s =>
      (s = {| sc_head := sc_head s; sc_events := 0; sc_reviewRequestIds := None |} ∧ implements i (wk_store w') t) ∨
      let window := scanRange i (t_cursor t) (sc_head s) 2000 32 in
      ∃ boundary events requested,
        2 <= Z.of_nat (length providers) ∧ NoDup providers ∧
        Forall (scanned (wk_calls w) (wk_calls w') m window boundary events) providers ∧
        sc_events s = Z.of_nat (length events) ∧ Forall (λ e, recorded e (wk_witnesses w')) events ∧
        mapM store_event (filter (λ e, log_pending e = true) events) = Ok requested ∧
        implements i (wk_store w') (scan_step window requested (ended_ids events) t)
  end.
Proof. intros Himp E. exact (wp_intro _ _ _ _ _ (compactScan_spec t w Himp) E). Qed.
End scans.

(** ** What is sent *)
Section orders.
Context `{EthersLaws, UrlApi, CompactInterface, RpcSend, WorkerContracts, StateFile, WorkerClock}.
Context (providers : list string) (m : worker_manifest) (i : operator_identity) (instanceId : string).
Context (dispatch : worker_order → eff worker_world worker_receipt).

(** Between two numbers of calls, every endpoint committed to the request, which is
    pending. *)
Definition seen_pending (start stop : nat) (id fromBlock : Z) (st : compact_state) : Prop :=
  authentic start stop providers (claim_options providers m id fromBlock) st ∧
  is_big (status (st_request st)) 1 = true.

(** A fulfilment, or an expiry when the coordinator is past the last block, that is
    prepared for a claim. *)
Definition sound_claim (start stop : nat) (id fromBlock : Z) (st : compact_state) (o : worker_order)
    (t : compact_transaction) : Prop :=
  ∃ p j height action from prover price pr n n',
    head providers = Some p ∧ (start <= j < stop)%nat ∧
    contextBlock_at j p (wm_coordinator m) (a_number (st_anchor st)) = Ok height ∧
    action = (if big_of (prop_opt (st_request st) "expiresAtBlock") <? height
              then "expireRequest" else "fulfillRandomWords") ∧
    (start <= n)%nat ∧ (n' <= stop)%nat ∧
    prepared_for (prepare_options (claim_options providers m id fromBlock) action from prover price) n pr n' ∧
    t = pr_transaction pr ∧ wo_kind o = "compact-" +:+ action.
(** The archive of a block that no endpoint's store has, in the window of the chain. *)
Definition sound_archive (start stop : nat) (st : compact_state) (o : worker_order) (v : value) : Prop :=
  let block := big_of (prop_opt (st_request st) "requestBlock") in
  populateArchive (wm_blockhashStore m) block = Ok v ∧ wo_kind o = "compact-archive" ∧
  Forall (λ p, ∃ j, (start <= j < stop)%nat ∧ storedBlockhash j p (wm_blockhashStore m) block = Ok ZERO) providers ∧
  ∃ n n' head, (start <= n)%nat ∧ (n' <= stop)%nat ∧
    compactHead providers (wm_chainId m) n = (Ok head, n') ∧ 32 <= head + 2 - block <= 256.
Definition sound (start stop : nat) (o : worker_order) : Prop :=
  ∃ fromBlock st, seen_pending start stop (wo_requestId o) fromBlock st ∧
    wo_maxGasPriceWei o = big_of (prop_opt (st_request st) "maxGasPriceWei") ∧
    match wo_transaction o with
    | Prepared t => sound_claim start stop (wo_requestId o) fromBlock st o t
    | Populated v => sound_archive start stop st o v
    end.

Lemma sound_mono start stop start' stop' o :
  (start' <= start)%nat → (stop <= stop')%nat → sound start stop o → sound start' stop' o.
Proof.
  intros Hs Ht (fb & st & [Hau Hp] & Hprice & Ho). exists fb, st. split; [split; [by eapply authentic_weaken|done]|].
  split; [done|]. destruct (wo_transaction o) as [t|v].
  - destruct Ho as (p & j & height & action & from & prover & price & pr & n & n' & ? & ? & ? & ? & ? & ? & ? & ? & ?).
    exists p, j, height, action, from, prover, price, pr, n, n'. split_and!; try done; lia.
  - destruct Ho as (? & ? & Hall & n & n' & head & ? & ? & ? & ?). split_and!; try done.
    + eapply Forall_impl; [exact Hall|]. intros p (j & ? & ?). exists j. split; [lia|done].
    + exists n, n', head. split_and!; try done; lia.
Qed.

(** The orders a run adds. *)
Definition ordering (w w' : worker_world) : Prop :=
  (wk_calls w <= wk_calls w')%nat ∧
  ∃ new, wk_orders w' = wk_orders w ++ new ∧ Forall (sound (wk_calls w) (wk_calls w')) new.
#[export] Instance ordering_preorder : PreOrder ordering.
Proof.
  split.
  - intros w. split; [done|]. exists []. by rewrite app_nil_r.
  - intros w1 w2 w3 [L1 (n1 & E1 & F1)] [L2 (n2 & E2 & F2)]. split; [lia|]. exists (n1 ++ n2).
    rewrite E2, E1, <-app_assoc. split; [done|]. apply Forall_app.
    split; eapply Forall_impl; [exact F1| |exact F2|]; intros o; by apply sound_mono.
Qed.
Lemma ordering_same w w' : (wk_calls w <= wk_calls w')%nat → wk_orders w' = wk_orders w → ordering w w'.
Proof. intros E1 E2. split; [done|]. exists []. by rewrite app_nil_r. Qed.

Lemma ordering_rpc {A} (c : eff nat A) : forward c → keeps ordering (on_rpc c).
Proof.
  intros Hc w. unfold on_rpc. destruct (c _) as [r n] eqn:E. apply Hc in E. by apply ordering_same.
Qed.
Lemma ordering_database {A} (c : eff database A) : keeps ordering (on_database c).
Proof. intros w. unfold on_database. destruct (c _) as [r d]. by apply ordering_same. Qed.
Lemma ordering_budget {A} (c : eff budget_world A) : keeps ordering (on_archive_budget c).
Proof. intros w. unfold on_archive_budget. destruct (c _) as [r d]. by apply ordering_same. Qed.
Lemma ordering_clock : keeps ordering clock.
Proof. intros w. by apply ordering_same. Qed.
Lemma ordering_saveWitnessEvents events : keeps ordering (saveWitnessEvents m events).
Proof.
  intros w. pose proof (saveWitnessEvents_spec m events w) as Hw. unfold wp in Hw.
  destruct Hw as [(Ec & _ & _ & Eo & _) _]. apply ordering_same; [by rewrite Ec|done].
Qed.

(** A dispatch gives no orders of its own. *)
Definition quiet (w w' : worker_world) : Prop := (wk_calls w <= wk_calls w')%nat ∧ wk_orders w' = wk_orders w.
Hypothesis dispatch_quiet : ∀ o, keeps quiet (dispatch o).

Lemma ordering_dispatch o : keeps ordering (dispatch o).
Proof. intros w. destruct (dispatch_quiet o w). by apply ordering_same. Qed.
Lemma ordering_at n w : (wk_calls w <= n)%nat → ordering w (rpc_at n w).
Proof. intros Hn. by apply ordering_same. Qed.

Lemma wp_order_bind {B} o (k : unit → eff worker_world B) w0 w (Q : result B → worker_world → Prop) :
  ordering w0 w → sound (wk_calls w0) (wk_calls w) o → (∀ w', ordering w0 w' → wp (k tt) Q w') →
  wp (order o ≫= k) Q w.
Proof.
  intros [L (new & E & F)] Ho Hk. apply Hk. split; [done|]. exists (new ++ [o]). cbn.
  rewrite E, <-app_assoc. split; [done|]. apply Forall_app. by split; [|constructor].
Qed.

(** What follows an order keeps the orders. *)
Lemma after_order {A} (c : worker_receipt → eff worker_world A) o w0 w :
  (∀ r, keeps ordering (c r)) → ordering w0 w → wp (r ← dispatch o; c r) (λ _ w', ordering w0 w') w.
Proof.
  intros Hc Hw. unfold wp. etrans; [exact Hw|].
  apply keeps_bind; [apply _|apply ordering_dispatch|exact Hc].
Qed.

Lemma recover_pending id fb n st k n' :
  recoverCompactRequest (claim_options providers m id fb) n = (Ok (st, k), n') →
  is_big (status (st_request st)) 1 = true → seen_pending n n' id fb st ∧ providers ≠ [].
Proof.
  intros (ps & start & history & Hps & Hau & _)%recover_Ok Hp. apply (endpoints_given _ providers) in Hps as E; [|done].
  subst ps. split; [by split|]. destruct Hps as (_ & Hl & _). intros ->. cbn in Hl. lia.
Qed.

Lemma fulfill_ordering pending from prover price :
  keeps ordering (fulfillCompactClaim providers m dispatch pending from prover price).
Proof.
  intros w. enough (wp (fulfillCompactClaim providers m dispatch pending from prover price)
    (λ _ w', ordering w w') w) by done.
  unfold fulfillCompactClaim. apply wp_on_rpc_bind; [apply forward_recover| |intros; by apply ordering_at].
  intros [st k] n1 Hrec L1. destruct (is_big _ _) eqn:Hpend; cbn [negb]; [|by apply ordering_at].
  destruct (recover_pending _ _ _ _ _ _ Hrec Hpend) as [Hseen Hne].
  apply wp_lift_bind; [|intros; by apply ordering_at]. intros p Hp%from_option_or_Ok.
  apply wp_on_rpc_bind; [apply forward_call| |intros e n Hn; apply ordering_same; cbn in *; [lia|done]].
  intros height n2 [= Hheight <-] L2. cbn [wk_calls rpc_at] in *.
  set (action := if _ <? height then _ else _).
  apply wp_on_rpc_bind; [apply forward_prepare| |intros e n Hn; apply ordering_same; cbn in *; [lia|done]].
  intros pr n3 Hpr%prepare_Ok L3. cbn [wk_calls rpc_at] in *.
  apply (wp_order_bind _ _ w); [apply ordering_same; cbn; [lia|done]| |].
  - cbn. exists (eventBlockNumber pending), st. split; [destruct Hseen; split; [|done]; eapply authentic_weaken; [..|done]; lia|].
    split; [done|]. cbn. exists p, n1, height, action, from, prover, price, pr, (S n1), n3. split_and!; try done; lia.
  - intros w' Hw'. apply after_order; [|done]. intros r. apply keeps_bind; [apply _|by apply keeps_lift, _|]. intros _.
    apply keeps_bind; [apply _|apply ordering_rpc, forward_recover|]. intros [final k'].
    apply keeps_bind; [apply _|by apply keeps_lift, _|]. intros _. by apply keeps_ret, _.
Qed.

Lemma archive_hashes block n hashes n' :
  mapM (λ p, call (λ n, storedBlockhash n p (wm_blockhashStore m) block)) providers n = (Ok hashes, n') →
  ∀ hash, compact_equal (VStr <$> hashes) "archive hash" = Ok hash → to_str hash = ZERO →
  Forall (λ p, ∃ j, (n <= j < n')%nat ∧ storedBlockhash j p (wm_blockhashStore m) block = Ok ZERO) providers.
Proof.
  intros [_ Hm]%eff_mapM_Ok hash [Hin Hall]%compact_equal_Ok Hz; [|intros; apply forward_call].
  apply list_elem_of_fmap in Hin as (z & -> & _). cbn in Hz. subst z.
  apply Forall_lookup. intros k p Hp. destruct (Forall2_lookup_l _ _ _ _ _ Hm Hp) as (h & Hh & j & j' & ? & ? & [= E <-]).
  exists j. split; [lia|]. rewrite E. f_equal.
  apply (Forall_lookup_1 _ _ k (VStr h)) in Hall; [|by rewrite list_lookup_fmap, Hh].
  apply textual_inj in Hall; [by injection Hall|done..].
Qed.

Lemma archiveRequest_ordering stats e : keeps ordering (archiveRequest providers m dispatch stats e).
Proof.
  intros w. enough (wp (archiveRequest providers m dispatch stats e) (λ _ w', ordering w w') w) by done.
  unfold archiveRequest. apply wp_on_rpc_bind; [apply forward_recover| |intros; by apply ordering_at].
  intros [st k] n1 Hrec L1. destruct (is_big _ _) eqn:Hpend; cbn [negb]; [|by apply ordering_at].
  destruct (recover_pending _ _ _ _ _ _ Hrec Hpend) as [Hseen Hne].
  set (block := big_of (prop_opt (st_request st) "requestBlock")). apply wp_on_rpc_bind;
    [apply forward_mapM; intros; apply forward_call| |intros err n Hn; apply ordering_same; cbn in *; [lia|done]].
  intros hashes n2 Hhashes L2. cbn [wk_calls rpc_at] in *.
  apply wp_on_rpc_bind; [apply forward_compactHead| |intros err n Hn; apply ordering_same; cbn in *; [lia|done]].
  intros head n3 Hhead L3. cbn [wk_calls rpc_at] in *.
  set (w3 := rpc_at n3 _). assert (ordering w w3) as Hw3 by (apply ordering_same; cbn; [lia|done]).
  apply wp_lift_bind; [|done]. intros hash Hhash. apply wp_lift_bind; [|done]. intros action Haction.
  eapply (wp_keeps_bind ordering _ _ _ w3); [|reflexivity| |intros; by etrans].
  { case_bool_decide; [|by apply keeps_ret, _]. apply keeps_bind; [apply _|apply ordering_budget|].
    intros _. by apply keeps_ret, _. }
  intros stats' w4 Hw4. case_bool_decide as Ea; [|apply wp_ret; by etrans]. subst action.
  apply wp_lift_bind; [|intros; by etrans]. intros tx Htx.
  apply (wp_order_bind _ _ w); [by etrans| |].
  - pose proof (proj1 Hw4) as L4. cbn in L4. apply archiveDecision_archive in Haction as (_ & Hz & b & Hb & Hage).
    assert (b = block) as ->.
    { destruct Hseen as [Hau _]. destruct (normal_uint _ "uint64" "requestBlock" (au_normal _ _ _ _ _ Hau)) as [z Ez]; try done.
      { apply (bool_decide_eq_true_1 _). vm_refl. }
      rewrite Ez in Hb. injection Hb as <-. unfold block. by rewrite Ez. }
    exists (cl_block e), st. cbn [wo_requestId wo_maxGasPriceWei wo_transaction wo_kind].
    split; [destruct Hseen; split; [eapply authentic_weaken; [..|done]; lia|done]|]. split; [done|].
    split_and!; [done|done| |].
    + eapply Forall_impl; [by eapply archive_hashes|]. intros p (j & ? & ?). exists j. split; [lia|done].
    + exists n2, n3, head. split_and!; [lia|lia|done|lia|lia].
  - intros w' Hw'. apply after_order; [|done]. intros r. apply keeps_bind; [apply _|by apply keeps_lift, _|]. intros _.
    by apply keeps_ret, _.
Qed.

Lemma archiveRequests_ordering events stats : keeps ordering (archiveRequests providers m dispatch stats events).
Proof.
  revert stats. induction events as [|e events IH]; intros stats; cbn [archiveRequests]; [by apply keeps_ret, _|].
  apply keeps_bind; [apply _|apply archiveRequest_ordering|apply IH].
Qed.

Lemma archiveCycle_ordering : keeps ordering (compactArchiveCycle providers m dispatch (saveWitnessEvents m)).
Proof.
  unfold compactArchiveCycle. apply keeps_bind; [apply _|apply ordering_rpc, forward_compactHead|].
  intros head. case_match; [by apply keeps_ret, _|].
  apply keeps_bind; [apply _|apply ordering_rpc, forward_compactEvents|]. intros events.
  apply keeps_bind; [apply _|apply ordering_saveWitnessEvents|]. intros _.
  apply keeps_bind; [apply _|apply archiveRequests_ordering|]. intros stats.
  apply keeps_bind; [apply _|apply ordering_budget|]. intros _. by apply keeps_ret, _.
Qed.

Lemma compactScan_ordering : keeps ordering (compactScan providers m i instanceId).
Proof.
  unfold compactScan. apply keeps_bind; [apply _|apply ordering_rpc, forward_compactHead|]. intros head.
  apply keeps_bind; [apply _|apply ordering_clock|]. intros t.
  apply keeps_bind; [apply _|apply ordering_database|]. intros [win|]; [|by apply keeps_ret, _].
  apply keeps_catch; [apply _| |].
  - apply keeps_bind; [apply _|apply ordering_rpc, forward_compactEvents|]. intros events.
    apply keeps_bind; [apply _|apply ordering_saveWitnessEvents|]. intros _.
    apply keeps_bind; [apply _|by apply keeps_lift, _|]. intros requested.
    apply keeps_bind; [apply _|apply ordering_clock|]. intros t'.
    apply keeps_bind; [apply _|apply ordering_database|]. intros _. by apply keeps_ret, _.
  - intros e. apply keeps_bind; [apply _|apply ordering_database|]. intros _. by apply keeps_throw, _.
Qed.

Lemma settleClaim_ordering pending from prover :
  keeps ordering (settleClaim providers m i instanceId dispatch pending from prover).
Proof.
  unfold settleClaim. apply keeps_bind; [apply _| |].
  { apply ordering_rpc. unfold readGasPrice. forward. }
  intros gas. apply keeps_bind; [apply _|by apply keeps_lift, _|]. intros _.
  apply keeps_bind; [apply _|apply fulfill_ordering|]. intros result.
  apply keeps_bind; [apply _| |intros _; apply ordering_database].
  destruct (cr_callbackSucceeded result); [by apply keeps_ret, _|apply ordering_budget].
Qed.

Lemma beat_ordering mode relayer stats : keeps ordering (beat i instanceId mode relayer stats).
Proof.
  unfold beat. apply keeps_bind; [apply _|apply ordering_budget|]. intros okay.
  apply keeps_bind; [apply _|apply ordering_clock|]. intros t.
  apply keeps_bind; [apply _|apply ordering_database|]. intros _. by apply keeps_ret, _.
Qed.

Lemma settlePending_ordering from prover :
  keeps ordering (settlePending providers m i instanceId dispatch from prover).
Proof.
  unfold settlePending. apply keeps_bind; [apply _|apply ordering_clock|]. intros t.
  apply keeps_bind; [apply _|apply ordering_database|]. intros [pending|]; [|by apply keeps_ret, _].
  apply keeps_catch; [apply _|apply settleClaim_ordering|]. intros e.
  apply keeps_bind; [apply _|apply ordering_clock|]. intros t'.
  apply keeps_bind; [apply _|apply ordering_database|]. intros _. by apply keeps_throw, _.
Qed.

Lemma operatorTurn_ordering from prover :
  keeps ordering (operatorTurn providers m i instanceId dispatch from prover).
Proof.
  unfold operatorTurn. apply keeps_bind; [apply _|apply compactScan_ordering|]. intros stats.
  apply keeps_bind; [apply _|apply keeps_forM; [apply _|intros; apply ordering_budget]|]. intros _.
  apply keeps_bind; [apply _|apply settlePending_ordering|]. intros _.
  apply keeps_bind; [apply _|by intros w; reflexivity|]. intros w.
  apply keeps_bind; [apply _|by apply keeps_lift, _|]. intros queue. cbv zeta.
  apply keeps_bind; [apply _|apply beat_ordering|]. intros okay. by apply keeps_ret, _.
Qed.
Lemma archiverTurn_ordering from : keeps ordering (archiverTurn providers m i instanceId dispatch from).
Proof.
  unfold archiverTurn. apply keeps_bind; [apply _|apply archiveCycle_ordering|]. intros stats. cbv zeta.
  apply keeps_bind; [apply _|apply beat_ordering|]. intros okay. by apply keeps_ret, _.
Qed.

(** every transaction that the operator or the archiver hands to the relayer is for
    a request that each of the endpoints committed to as pending, at the price limit
    of that request.  It is either the prepared transaction of a fulfilment, or of an
    expiry when the coordinator is past the last block of the request; or the archive
    of the request's block, which no endpoint's store has and which is 32 to 256
    blocks old; in whatever way the turn ends. *)
Theorem worker_orders_sound from prover w :
  let operator := (operatorTurn providers m i instanceId dispatch from prover w).2 in
  let archiver := (archiverTurn providers m i instanceId dispatch from w).2 in
  (∃ new, wk_orders operator = wk_orders w ++ new ∧
     Forall (sound (wk_calls w) (wk_calls operator)) new) ∧
  (∃ new, wk_orders archiver = wk_orders w ++ new ∧
     Forall (sound (wk_calls w) (wk_calls archiver)) new).
Proof. split; [apply operatorTurn_ordering|apply archiverTurn_ordering]. Qed.

(** ** A claim that is settled *)

Lemma recordId_Ok k id w w' :
  recordId k (VStr id) w = (Ok tt, w') → ∃ l, prop_opt (bw_state w') k = VArr l ∧ VStr id ∈ l.
Proof.
  unfold recordId. intros (v0 & w0 & _ & Hr)%eff_bind_Ok.
  apply eff_bind_Ok in Hr as ([] & w1 & _ & Hr).
  apply eff_bind_Ok in Hr as (ids & w2 & [= <- <-] & Hr).
  apply eff_lift_bind_Ok in Hr as (known & Hknown & Hr). unfold array_includes, array_push in *.
  destruct (prop_opt (bw_state w1) k) as [| | | | | | |l|] eqn:El; try done. injection Hknown as <-.
  destruct (existsb _ l) eqn:Ein.
  - injection Hr as <-. exists l. split; [done|]. apply existsb_exists in Ein as (x & Hx%list_elem_of_In & E).
    unfold same_value in E. destruct x; try done. cbn in E. apply orb_true_iff in E as [E|]; [|done].
    apply bool_decide_eq_true in E. by subst.
  - apply eff_lift_bind_Ok in Hr as (ids & [= <-] & Hr). apply eff_bind_Ok in Hr as (u & w3 & [= _ <-] & Hr).
    unfold atomic in Hr. destruct (write_at _); try done. injection Hr as <-. exists (l ++ [VStr id]).
    split; [|set_solver]. cbn. destruct (bw_state w1); try done. apply prop_opt_set_prop.
Qed.

Definition reviewed (id : Z) (w : worker_world) : Prop :=
  ∃ l, prop_opt (bw_state (wk_budget w)) "reviewRequestIds" = VArr l ∧ VStr (print_int id) ∈ l.

Lemma quiet_trans w1 w2 w3 : quiet w1 w2 → quiet w2 w3 → quiet w1 w3.
Proof. intros [? ?] [? ?]. split; [lia|congruence]. Qed.

Lemma on_rpc_Ok {A} (c : eff nat A) w a w' :
  on_rpc c w = (Ok a, w') → c (wk_calls w) = (Ok a, wk_calls w') ∧ w' = rpc_at (wk_calls w') w.
Proof. unfold on_rpc. destruct (c (wk_calls w)) as [r n]. by intros [= -> <-]. Qed.

Lemma fulfill_Ok pending from prover price w c w' :
  fulfillCompactClaim providers m dispatch pending from prover price w = (Ok c, w') →
  ∃ st k n, (wk_calls w <= n <= wk_calls w')%nat ∧
    recoverCompactRequest (claim_options providers m (requestId pending) (eventBlockNumber pending)) n
      = (Ok (st, k), wk_calls w') ∧
    is_big (status (st_request st)) 1 = false ∧ cr_callbackSucceeded c = callbackSucceeded (st_request st).
Proof.
  unfold fulfillCompactClaim. intros ([st k] & w1 & [Hrec _]%on_rpc_Ok & Hr)%eff_bind_Ok.
  pose proof (forward_recover _ _ _ _ Hrec) as L1.
  destruct (is_big _ _) eqn:Hp; cbn [negb] in Hr.
  2: { injection Hr as <- <-. exists st, k, (wk_calls w). by split_and!. }
  apply eff_lift_bind_Ok in Hr as (p & _ & Hr). apply eff_bind_Ok in Hr as (height & w2 & [[= _ L2] _]%on_rpc_Ok & Hr).
  apply eff_bind_Ok in Hr as (pr & w3 & [L3%forward_prepare _]%on_rpc_Ok & Hr).
  apply eff_bind_Ok in Hr as (u & w4 & [= _ <-] & Hr).
  apply eff_bind_Ok in Hr as (receipt & w5 & Hd & Hr).
  match type of Hd with dispatch ?o ?v = _ => pose proof (proj1 (dispatch_quiet o v)) as L5 end. rewrite Hd in L5. cbn [wk_calls snd] in L5.
  apply eff_require_bind_Ok in Hr as (_ & Hr).
  apply eff_bind_Ok in Hr as ([final k'] & w6 & [Hfin _]%on_rpc_Ok & Hr).
  pose proof (forward_recover _ _ _ _ Hfin) as L6.
  apply eff_require_bind_Ok in Hr as (Hf%negb_true_iff & [= <- <-]).
  exists final, k', (wk_calls w5). split_and!; [lia|done..].
Qed.

(** A claim is settled only when the endpoints, asked in the same turn, recovered
    one history of the request that ends in a state that is not pending, to which
    each of them committed; and when the callback did not succeed, the request is on
    the list for review in the state of the budget. *)
Theorem settled_claim_is_final pending from prover w w' :
  settleClaim providers m i instanceId dispatch pending from prover w = (Ok tt, w') →
  ∃ n st k start history,
    (wk_calls w <= n <= wk_calls w')%nat ∧
    authentic n (wk_calls w') providers
      (claim_options providers m (requestId pending) (eventBlockNumber pending)) st ∧
    validateCompactTransitions (e_witness <$> history) = Ok (st_request st) ∧
    Forall (served n (wk_calls w') (claim_options providers m (requestId pending) (eventBlockNumber pending))
              start (a_number (st_anchor st)) history) providers ∧
    k = Z.of_nat (length history) ∧ is_big (status (st_request st)) 1 = false ∧
    (callbackSucceeded (st_request st) = false → reviewed (requestId pending) w').
Proof.
  unfold settleClaim. intros (gas & w1 & [Hgas _]%on_rpc_Ok & Hr)%eff_bind_Ok.
  assert (wk_calls w <= wk_calls w1)%nat as L1.
  { apply (forward_mapM readGasPrice providers) in Hgas; [done|]. unfold readGasPrice. intros p. forward. }
  apply eff_require_bind_Ok in Hr as (_ & Hr).
  apply eff_bind_Ok in Hr as (c & w2 & (st & k & n & Hn & Hrec & Hfinal & Hc)%fulfill_Ok & Hr).
  apply eff_bind_Ok in Hr as ([] & w3 & Hrev & Hr).
  assert (wk_calls w' = wk_calls w2 ∧ wk_budget w' = wk_budget w3) as [Ec Eb].
  { injection Hr as <-. cbn. destruct (cr_callbackSucceeded c).
    - by injection Hrev as <-.
    - unfold on_archive_budget in Hrev. destruct (recordReview _ _). by injection Hrev as _ <-. }
  pose proof (recover_Ok _ _ _ _ _ Hrec) as (ps & start & history & Hps & Hau & _ & _ & Hk & Hv & Hs).
  apply (endpoints_given _ providers) in Hps as ->; [|done].
  exists n, st, k, start, history. rewrite Ec. split_and!; try done; try lia.
  intros Hcb. rewrite Hc, Hcb in Hrev. unfold on_archive_budget in Hrev.
  destruct (recordReview _ _) as [r b] eqn:E. injection Hrev as -> <-.
  unfold reviewed. rewrite Eb. by apply recordId_Ok in E.
Qed.
End orders.

(** ** Two endpoints, one request that expires *)
Section samples.
#[local] Existing Instance sample_ethers.
#[local] Existing Instance sample_ethers_laws.
#[local] Existing Instance sample_url.
#[local] Existing Instance sample_interface.

Definition sample_ended : value :=
  Eval vm_compute in match normalizeCompactWitness (sample_witness 3 0 0 false) with Ok w => w | Throw _ => VNull end.
Definition ended_commitment : string :=
  Eval vm_compute in match compactCommitment sample_ended sample_chain sample_coordinator with Ok s => s | Throw _ => "" end.
Definition ended_log : value :=
  VObj [("blockNumber", VStr "99"); ("logIndex", VStr "1"); ("address", VStr sample_coordinator);
        ("blockHash", VStr (sample_bytes32 "a"%char)); ("transactionHash", VStr (sample_bytes32 "f"%char));
        ("data", VStr (match fingerprint sample_ended with Ok t => t | Throw _ => "" end));
        ("topics", VArr [VStr (sample_bytes32 "b"%char)]); ("request", sample_witness 3 0 0 false)].
(** From the call 46 on, the request has expired. *)
Definition expiry_call : nat := 46.
#[local] Instance worker_rpc : RpcSend := {|
  rpc_send := λ n p method params,
    let first := default VUndef (head params) in
    if decide (method = "eth_getBlockByNumber")
    then Ok (VObj [("hash", VStr (sample_bytes32 "c"%char)); ("number", first)])
    else if decide (method = "eth_gasPrice") then Ok (VStr "7")
    else if decide (method = "eth_getLogs")
    then Ok (VArr (if (expiry_call <=? n)%nat then [sample_log; ended_log] else [sample_log]))
    else if (expiry_call <=? n)%nat && bool_decide (prop_opt first "data" = VStr "commitments") then Ok (VStr ended_commitment)
    else rpc_send (RpcSend := sample_send_rpc) n p method params
|}.
#[local] Instance worker_texts : RpcTexts.
Proof.
  split.
  - intros n p params b [= <-]. right. right. by eexists.
  - intros n p params logs. unfold rpc_send, worker_rpc. generalize (expiry_call <=? n)%nat.
    intros []; intros [= <-]; repeat constructor; by eexists.
Qed.
#[local] Instance worker_contracts : WorkerContracts := {|
  contextBlock_at _ _ _ b := Ok b; storedBlockhash _ _ _ _ := Ok ZERO;
  pendingBalance _ _ _ := Ok RELAYER_FLOOR; populateArchive _ b := Ok (VObj [("data", VBig b)]) |}.
#[local] Instance worker_clock : WorkerClock := {| clock_at n := Z.of_nat n |}.
#[local] Existing Instance sample_file.
Definition worker_manifest_sample : worker_manifest := {|
  wm_chainId := sample_chain; wm_coordinator := sample_coordinator; wm_coordinatorBlock := 90;
  wm_keyHash := sample_bytes32 "B"%char; wm_blockhashStore := "0xb5" |}.
Definition worker_identity : operator_identity :=
  {| chainId := "46630"; coordinator := sample_coordinator; keyHash := sample_bytes32 "b"%char; deploymentBlock := 90 |}.
Definition worker_start : worker_world := {|
  wk_calls := 0;
  wk_store := (initialize worker_identity empty_database).2;
  wk_witnesses := ∅;
  wk_budget := {| bw_state := initialBudget (VStr "chain") 10; bw_file := None; bw_writes := 0 |};
  wk_orders := []
|}.
Definition worker_dispatch (o : worker_order) : eff worker_world worker_receipt :=
  mret {| wr_status := 1; wr_hash := "0xaa" |}.
Definition worker_providers : list string := ["a"; "b"].
Definition sample_turn : result (bool * list (string * value)) * worker_world :=
  operatorTurn worker_providers worker_manifest_sample worker_identity "op" worker_dispatch
    (sample_address "a"%char) None worker_start.

Definition fresh_tracker : tracker := {| t_cursor := 90; t_pending := ∅ |}.
Definition sample_scan : result scan_stats * worker_world :=
  compactScan worker_providers worker_manifest_sample worker_identity "op" worker_start.
Definition sample_stats : scan_stats := {| sc_head := 98; sc_events := 1; sc_reviewRequestIds := Some [] |}.

Lemma compact_scan_refines_witness :
  ∃ boundary events requested,
    Forall (scanned 0 (wk_calls sample_scan.2) worker_manifest_sample
              {| fromBlock := 90; toBlock := 98 |} boundary events) worker_providers ∧
    length events = 1%nat ∧
    implements worker_identity (wk_store sample_scan.2)
      (scan_step {| fromBlock := 90; toBlock := 98 |} requested (ended_ids events) fresh_tracker).
Proof.
  assert (implements worker_identity (wk_store worker_start) fresh_tracker) as Himp.
  { split; [vm_refl|]. intros id. unfold live. change (requests (wk_store worker_start)) with (requests empty_database).
    cbn [requests empty_database]. by rewrite lookup_empty. }
  assert (sample_scan.1 = Ok sample_stats) as Er by vm_refl.
  destruct (compact_scan_refines worker_providers worker_manifest_sample worker_identity "op"
    fresh_tracker worker_start sample_scan.1 sample_scan.2 Himp (surjective_pairing _)) as (_ & _ & _ & Hr).
  rewrite Er in Hr. destruct Hr as [[E _]|(b & events & requested & _ & _ & Hs & Hl & _ & _ & Hi)].
  - exfalso. injection E as E. discriminate E.
  - exists b, events, requested. split; [exact Hs|]. split; [|exact Hi]. cbn in Hl. apply Nat2Z.inj. by rewrite <-Hl.
Defined.

Lemma worker_quiet o : keeps quiet (worker_dispatch o).
Proof. intros w. by split. Qed.

Lemma worker_orders_sound_witness :
  ∃ o, wo_kind o = "compact-expireRequest" ∧ wk_orders sample_turn.2 = [o] ∧
    sound worker_providers worker_manifest_sample 0 (wk_calls sample_turn.2) o.
Proof.
  destruct (worker_orders_sound worker_providers worker_manifest_sample worker_identity "op"
    worker_dispatch worker_quiet (sample_address "a"%char) None worker_start) as [(new & E & F) _].
  assert (wo_kind <$> wk_orders sample_turn.2 = ["compact-expireRequest"]) as Ek by vm_refl.
  fold sample_turn in E, F. change (wk_orders worker_start) with (@nil worker_order) in E. cbn [app] in E.
  rewrite E in Ek. destruct new as [|o [|]]; [discriminate Ek| |discriminate Ek].
  exists o. split; [by injection Ek|]. split; [exact E|exact (Forall_inv F)].
Defined.

Definition sample_claim : scan_event := {|
  requestId := sample_id; preSeed := 7; requestBlock := 7; expiresAtBlock := 7; eventBlockNumber := 95;
  eventBlockHash := "0x"; transactionHash := "0x" |}.
Lemma run_Ok {S A} (x : result A * S) a : x.1 = Ok a → x = (Ok a, x.2).
Proof. by destruct x as [r w]; cbn; intros ->. Qed.
Lemma settled_claim_witness :
  let run := settleClaim worker_providers worker_manifest_sample worker_identity "op" worker_dispatch
    sample_claim (sample_address "a"%char) None worker_start in
  reviewed sample_id run.2 ∨
  ∃ st, callbackSucceeded (st_request st) = true ∧ is_big (status (st_request st)) 1 = false.
Proof.
  intros run. assert (run.1 = Ok tt) as Er by vm_refl.
  destruct (settled_claim_is_final worker_providers worker_manifest_sample worker_identity "op"
    worker_dispatch worker_quiet sample_claim (sample_address "a"%char) None worker_start run.2 (run_Ok run tt Er))
    as (n & st & k & start & history & _ & _ & _ & _ & _ & Hf & Hrev).
  destruct (callbackSucceeded (st_request st)) eqn:Ec; [right; exact (ex_intro _ st (conj Ec Hf))|left; exact (Hrev eq_refl)].
Defined.
End samples.
