(* ===== verification/FileService.v ===== *)
(** * The file-backed service ([cli.mjs])

    The service of one operator without a database: its requests live in an object
    in memory and in a state file.  One turn scans the events, then works on each
    request that it tracks.  The order of an object's keys is a parameter. *)

From S2P Require Import Prelude Js Hex Vendor ThresholdNode Policies OperatorStore Scanner ErrorText Relayer Service.

Open Scope Z_scope.

(** ** The state file *)

Definition SERVICE_STATE_FORMAT : string := "proof-vrf-service-operator-state-v1".
Record state_document := {
  sd_format : string; sd_chainId : string; sd_coordinator : string; sd_keyHash : string;
  sd_state : service_state
}.

Definition loadServiceState (expected : state_document) (file : option state_document)
    : result state_document :=
  let deployment d := s_deploymentBlock (sd_state d) in
  match file with
  | None => Ok {| sd_format := SERVICE_STATE_FORMAT; sd_chainId := sd_chainId expected;
                  sd_coordinator := sd_coordinator expected; sd_keyHash := sd_keyHash expected;
                  sd_state := {| s_deploymentBlock := deployment expected; s_cursor := deployment expected;
                                 s_requests := ∅ |} |}
  | Some d =>
      let same (f : state_document → string) := bool_decide (lower (f d) = lower (f expected)) in
      let mismatch field := "state file " +:+ field +:+ " does not match this operator" in
      _ ← require (same sd_format) (mismatch "format");
      _ ← require (same sd_chainId) (mismatch "chainId");
      _ ← require (same sd_coordinator) (mismatch "coordinator");
      _ ← require (same sd_keyHash) (mismatch "keyHash");
      _ ← require (deployment d =? deployment expected) (mismatch "deploymentBlock");
      _ ← require (safe_integer (s_cursor (sd_state d))) "invalid operator state file";
      Ok d
  end.

(** What the options say of the operator. *)
Definition expected_document (o : service_options) : state_document := {|
  sd_format := SERVICE_STATE_FORMAT; sd_chainId := chainId (sv_identity o);
  sd_coordinator := coordinator (sv_identity o); sd_keyHash := sv_keyHash o;
  sd_state := {| s_deploymentBlock := deploymentBlock (sv_identity o); s_cursor := 0; s_requests := ∅ |}
|}.

(** ** A turn *)

Record file_world := { fw_relay : relay_world; fw_state : service_store }.
Definition on_relay {A} (m : eff relay_world A) : eff file_world A := λ w,
  let '(r, v) := m (fw_relay w) in (r, {| fw_relay := v; fw_state := fw_state w |}).
Definition on_service_state {A} (m : eff service_store A) : eff file_world A := λ w,
  let '(r, s) := m (fw_state w) in (r, {| fw_relay := fw_relay w; fw_state := s |}).

(** [delete state.requests[requestId]] *)
Definition forget (id : Z) : eff service_store unit :=
  st ← eff_get;
  let s := in_memory st in
  set_in_memory {| s_deploymentBlock := s_deploymentBlock s; s_cursor := s_cursor s;
                   s_requests := delete id (s_requests s) |}.

(** [Object.entries(state.requests)], in the order of the object. *)
Class KeyOrder := {
  entries_of : gmap Z scan_event → list (Z * scan_event);
  entries_perm s : entries_of s ≡ₚ map_to_list s
}.

Section service.
Context `{Ethers, Network, ServiceApi, EventsApi, KeyOrder} (o : service_options).

Definition fileSend (maxGasPrice : Z) (tx : tx_request) : eff relay_world receipt :=
  sendWithReplacement {|
    so_address := sv_relayer o; so_request := tx; so_maxGasPrice := maxGasPrice;
    so_timeoutMs := sv_replacementMs o; so_maximumAttempts := sv_replacementAttempts o;
    so_nonce := None; so_assertLease := None; so_beforeBroadcast := None; so_onBroadcast := None |}.

Definition fileArchive (contextBlock : Z) (e : scan_event) (maxGasPrice : Z) : eff relay_world unit :=
  if requestBlock e + sv_archiveAfterBlocks o <=? contextBlock then
    storedHash ← ask (λ n, blockhashes n (requestBlock e));
    if bool_decide (storedHash = ZERO_BLOCKHASH) then
      archiveTransaction ← ask (λ n, populateStore n (requestBlock e));
      _ ← fileSend maxGasPrice archiveTransaction;
      mret tt
    else mret tt
  else mret tt.

Definition fileFulfill (id : Z) (e : scan_event) (maxGasPrice : Z) : eff relay_world receipt :=
  state ← readRequestConsensus o id;
  proofResult ← ask (λ n, prove n (rs_actualSeed state) (preSeed e) id);
  tx ← ask (λ n, populateFulfill n id (proof_bytes proofResult));
  fileSend maxGasPrice tx.

(** The [try] block of a request. *)
Definition tryFile (contextBlock id : Z) (e : scan_event) : eff file_world unit :=
  request ← on_relay (ask (λ n, getServiceRequest n id));
  if r_status request =? 1 then
    _ ← on_relay (fileArchive contextBlock e (r_maxGasPriceWei request));
    _ ← on_relay (fileFulfill id e (r_maxGasPriceWei request));
    _ ← on_service_state (forget id);
    on_service_state writeJsonAtomic
  else on_service_state (forget id).
(** The [catch] block. *)
Definition fileProblem (id : Z) (message : string) : eff file_world unit :=
  if contains_any ["ConfirmationsPending"; "BlockhashUnavailable"; "GasPriceAboveLane"] message
  then mret tt
  else eff_catch
    (request ← on_relay (ask (λ n, getServiceRequest n id));
     if r_status request =? 1 then mret tt
     else _ ← on_service_state (forget id); on_service_state writeJsonAtomic)
    (λ _, mret tt).
Definition processFile (contextBlock : Z) (entry : Z * scan_event) : eff file_world unit :=
  eff_catch (tryFile contextBlock entry.1 entry.2) (λ e, fileProblem entry.1 (thrown_message e)).

Definition fileTurn : eff file_world Z :=
  head ← on_relay (ask getBlockNumber);
  let latest := Z.max (deploymentBlock (sv_identity o)) (head - sv_eventConfirmations o) in
  _ ← on_service_state (scanServiceEvents latest (sv_blockRange o) (sv_reorgLookback o));
  contextBlock ← on_relay (ask contextBlockNumber);
  w ← eff_get;
  _ ← eff_forM (processFile contextBlock) (entries_of (s_requests (in_memory (fw_state w))));
  mret head.
End service.
