(* ===== verification/FileServiceSafety.v ===== *)
(** * What the file-backed service remembers ([cli.mjs])

    Through restarts the file has the progress of the scan and every request that
    the process tracks; and a turn forgets a request only when the coordinator said
    that it is not pending, or when its proof was sent and confirmed. *)

From S2P Require Import Prelude Js Hex Vendor ThresholdNode Policies OperatorStore StoreLeases Scanner ErrorText Relayer RelayerSafety Service ServiceSafety FileService Samples.

Open Scope Z_scope.

Section service.
Context `{Ethers, Network, ServiceApi, EventsApi, KeyOrder} (o : service_options).

Abbreviation dep := (deploymentBlock (sv_identity o)).

(** A confirmed send of the proof of a seed that all providers agree on. *)
Definition proof_sent (id : Z) (e : scan_event) : Prop :=
  ∃ st n proofResult n' tx maxGasPrice w r w', agreed_state o id st ∧
    prove n (rs_actualSeed st) (preSeed e) id = Ok proofResult ∧
    populateFulfill n' id (proof_bytes proofResult) = Ok tx ∧
    fileSend o maxGasPrice tx w = (Ok r, w').

Lemma fileFulfill_sent id e maxGasPrice w rc w' :
  fileFulfill o id e maxGasPrice w = (Ok rc, w') → proof_sent id e.
Proof.
  unfold fileFulfill. intros (st & w1 & Hst & Hr)%eff_bind_Ok.
  apply eff_bind_Ok in Hr as (proofResult & w2 & [= Hp <-] & Hr).
  apply eff_bind_Ok in Hr as (tx & w3 & [= Htx <-] & Hr).
  unfold readRequestConsensus in Hst. apply eff_bind_Ok in Hst as (states & w4 & [= Hs <-] & Hst).
  apply eff_lift_Ok in Hst as [Hst ->].
  eexists st, _, proofResult, _, tx, maxGasPrice, _, rc, w'.
  split; [exact (agreeing_Ok o _ _ _ _ Hs Hst)|]. by split_and!.
Qed.

(** ** The state in memory and the file *)

Definition initial : service_state := {| s_deploymentBlock := dep; s_cursor := dep; s_requests := ∅ |}.
Definition cursor_in_range (s : service_state) : Prop :=
  s_deploymentBlock s = dep ∧ dep <= s_cursor s <= MAX_SAFE_INTEGER.
(** The file is behind the memory by forgotten requests only. *)
Definition remembers (st : service_store) : Prop :=
  match in_file st with
  | None => in_memory st = initial
  | Some f => cursor_in_range f ∧ s_deploymentBlock (in_memory st) = dep ∧
              s_cursor (in_memory st) = s_cursor f ∧ s_requests (in_memory st) ⊆ s_requests f
  end.

(** What the work on requests does to the state. *)
Definition accounted (w w' : file_world) : Prop :=
  let s := in_memory (fw_state w) in
  let s' := in_memory (fw_state w') in
  s_cursor s' = s_cursor s ∧ s_requests s' ⊆ s_requests s ∧
  (∀ id e, s_requests s !! id = Some e → s_requests s' !! id = Some e ∨ ended id ∨ proof_sent id e) ∧
  (cursor_in_range initial → remembers (fw_state w) → remembers (fw_state w')).
#[local] Instance accounted_preorder : PreOrder accounted.
Proof.
  split.
  - intros w. split_and!; auto.
  - intros w1 w2 w3 (C1 & S1 & A1 & R1) (C2 & S2 & A2 & R2). split_and!; [congruence|by etrans| |auto].
    intros id e He. destruct (A1 id e He) as [He2|?]; [|by right]. by apply A2.
Qed.

Lemma accounted_relay {A} (m : eff relay_world A) : keeps accounted (on_relay m).
Proof. intros w. unfold on_relay. destruct (m _). split_and!; auto. Qed.

Lemma accounted_write : keeps accounted (on_service_state writeJsonAtomic).
Proof.
  intros [rw [mem file]]. split_and!; [done|done|by left|]. unfold remembers. cbn.
  intros Hr. destruct file as [f|].
  - intros ([Hf Hc] & Hd & Ec & _). split; [|done]. by split; [|rewrite Ec].
  - intros ->. by split; [|done].
Qed.

Lemma accounted_forget id w :
  (∀ e, s_requests (in_memory (fw_state w)) !! id = Some e → ended id ∨ proof_sent id e) →
  accounted w (on_service_state (forget id) w).2.
Proof.
  destruct w as [rw [mem file]]. intros Hid. cbn in *. split_and!; [done|apply delete_subseteq| |].
  - intros id' e He. destruct (decide (id' = id)) as [->|Hne]; [right; by apply Hid|left].
    change (delete id (s_requests mem) !! id' = Some e). by rewrite lookup_delete_ne.
  - intros _. unfold remembers. cbn. destruct file as [f|].
    + intros (? & ? & ? & Hsub). split_and!; try done. etrans; [apply delete_subseteq|done].
    + intros ->. unfold initial. by f_equal.
Qed.

Lemma wp_relay_ask_bind {A B} (f : nat → result A) (k : A → eff file_world B) w :
  (∀ a w', f (calls (fw_relay w)) = Ok a → accounted w w' → fw_state w' = fw_state w →
     wp (k a) (λ _ w'', accounted w w'') w') →
  wp (on_relay (ask f) ≫= k) (λ _ w', accounted w w') w.
Proof.
  intros Hk. apply wp_bind. unfold wp at 1. pose proof (accounted_relay (ask f) w) as Ha.
  unfold on_relay, ask in *. cbn in *. destruct (f _) as [a|e] eqn:E; [by apply Hk|done].
Qed.

Lemma wp_relay_bind {A B} (m : eff relay_world A) (k : A → eff file_world B) w0 w :
  accounted w0 w →
  (∀ a w', (∃ v v', m v = (Ok a, v')) → accounted w0 w' → fw_state w' = fw_state w →
     wp (k a) (λ _ w'', accounted w0 w'') w') →
  wp (on_relay m ≫= k) (λ _ w', accounted w0 w') w.
Proof.
  intros Hw0 Hk. apply wp_bind. unfold wp at 1. pose proof (accounted_relay m w) as Ha.
  unfold on_relay in *. destruct (m (fw_relay w)) as [[a|e] v] eqn:E; cbn in *.
  - apply Hk; [by eexists _, _|by etrans|done].
  - by etrans.
Qed.

Lemma tryFile_accounted contextBlock id e w :
  (∀ e', s_requests (in_memory (fw_state w)) !! id = Some e' → e' = e) →
  accounted w (tryFile o contextBlock id e w).2.
Proof.
  intros He. enough (wp (tryFile o contextBlock id e) (λ _ w', accounted w w') w) by done.
  unfold tryFile. apply wp_relay_ask_bind. intros request w1 Hreq Hw1 Es.
  destruct (r_status request =? 1) eqn:Est.
  2: { apply Z.eqb_neq in Est. unfold wp. etrans; [exact Hw1|]. apply accounted_forget.
       intros e' _. left. by exists (calls (fw_relay w)), request. }
  apply (wp_relay_bind _ _ w); [done|]. intros [] w2 _ Hw2 Es2. apply (wp_relay_bind _ _ w); [done|].
  intros rc w3 (v & v' & Hf) Hw3 Es3. unfold wp. apply fileFulfill_sent in Hf.
  assert (accounted w (on_service_state (forget id) w3).2) as Hw4.
  { etrans; [exact Hw3|]. apply accounted_forget. rewrite Es3, Es2, Es. intros e' ->%He. by right. }
  etrans; [exact Hw4|]. apply accounted_write.
Qed.

Lemma fileProblem_accounted id message : keeps accounted (fileProblem id message).
Proof.
  intros w. enough (wp (fileProblem id message) (λ _ w', accounted w w') w) by done.
  unfold fileProblem. destruct (contains_any _ _); [by apply wp_ret|].
  apply wp_catch. apply (wp_mono _ (λ _ w', accounted w w')); [|by intros [[]|e] w' Hw].
  apply wp_relay_ask_bind. intros request w1 Hreq Hw1 Es.
  destruct (r_status request =? 1) eqn:Est; [by apply wp_ret|]. apply Z.eqb_neq in Est. unfold wp.
  assert (accounted w (on_service_state (forget id) w1).2) as Hw4.
  { etrans; [exact Hw1|]. apply accounted_forget. intros e' _. left. by exists (calls (fw_relay w)), request. }
  etrans; [exact Hw4|]. apply accounted_write.
Qed.

Lemma eff_catch_unit {S} (m : eff S unit) s : (eff_catch m (λ _, mret tt) s).1 = Ok tt.
Proof. unfold eff_catch. by destruct (m s) as [[[]|e] s']. Qed.

Lemma processFile_accounted contextBlock entry w :
  (∀ e, s_requests (in_memory (fw_state w)) !! entry.1 = Some e → e = entry.2) →
  accounted w (processFile o contextBlock entry w).2 ∧ (processFile o contextBlock entry w).1 = Ok tt.
Proof.
  intros He. enough (wp (processFile o contextBlock entry) (λ r w', accounted w w' ∧ r = Ok tt) w) by done.
  unfold processFile. apply wp_catch. pose proof (tryFile_accounted contextBlock entry.1 entry.2 w He) as Ht.
  unfold wp at 1. destruct (tryFile _ _ _ _ w) as [[[]|e] w1]; [done|]. cbn in *.
  pose proof (fileProblem_accounted entry.1 (thrown_message e) w1) as Hp. split; [by etrans|].
  unfold fileProblem. destruct (contains_any _ _); [done|apply eff_catch_unit].
Qed.

Lemma work_accounted contextBlock entries w :
  (∀ entry e, entry ∈ entries → s_requests (in_memory (fw_state w)) !! entry.1 = Some e → e = entry.2) →
  accounted w (eff_forM (processFile o contextBlock) entries w).2 ∧
  (eff_forM (processFile o contextBlock) entries w).1 = Ok tt.
Proof.
  revert w. induction entries as [|entry entries IH]; intros w He; cbn [eff_forM]; [by split|].
  destruct (processFile_accounted contextBlock entry w) as [Ha Hr]; [intros e; apply He; set_solver|].
  unfold mbind, eff_bind. destruct (processFile _ _ _ w) as [r w1]. cbn in Ha, Hr. subst r.
  destruct (IH w1) as [Ha1 Hr1].
  { intros entry' e Hin Hl. apply (He entry' e); [set_solver|]. destruct Ha as (_ & Hsub & _). by eapply lookup_weaken. }
  split; [by etrans|done].
Qed.

(** ** The scan *)

Lemma scanServiceEvents_file latest st :
  dep <= latest < MAX_SAFE_INTEGER → cursor_in_range initial → remembers st →
  remembers (scanServiceEvents latest (sv_blockRange o) (sv_reorgLookback o) st).2.
Proof.
  intros Hlatest Hinit Hrem. unfold scanServiceEvents, mbind, eff_bind, eff_get, eff_lift, mret, eff_ret.
  destruct (latest <? s_cursor (in_memory st)) eqn:El; [done|]. apply Z.ltb_ge in El.
  set (w := fileScanRange _ _ _ _). assert (toBlock w <= latest) as Hto by (cbn; lia).
  assert (∀ from, drop_from from (s_requests (in_memory st)) ⊆ s_requests (in_memory st)) as Hsub
    by (intros; apply map_filter_subseteq).
  set (dropped := {| s_deploymentBlock := s_deploymentBlock (in_memory st); s_cursor := s_cursor (in_memory st);
                     s_requests := drop_from (fromBlock w) (s_requests (in_memory st)) |}).
  assert (remembers {| in_memory := dropped; in_file := in_file st |}) as Hdropped.
  { unfold remembers in *. cbn. destruct (in_file st) as [f|].
    - destruct Hrem as (? & ? & ? & ?). split_and!; try done. etrans; [apply Hsub|done].
    - unfold dropped. rewrite Hrem. unfold initial. cbn [s_requests s_cursor s_deploymentBlock]. by f_equal. }
  cbn [set_in_memory eff_modify fst snd]. destruct (queryRequested w) as [requested|]; [|done].
  destruct (queryFulfilled w) as [fulfilled|]; [|done]. destruct (queryExpired w) as [expired|]; [|done].
  cbn. unfold remembers. cbn. assert (s_deploymentBlock (in_memory st) = dep ∧ dep <= s_cursor (in_memory st) <= MAX_SAFE_INTEGER) as [Hd Hc].
  { unfold remembers in Hrem. destruct (in_file st) as [f|]; [destruct Hrem as ([? ?] & ? & -> & _); done|by rewrite Hrem]. }
  split; [|by split_and!]. split; [done|]. cbn. lia.
Qed.

(** ** The lifetimes of the service *)

Definition document_of (s : service_state) : state_document :=
  let e := expected_document o in
  {| sd_format := sd_format e; sd_chainId := sd_chainId e; sd_coordinator := sd_coordinator e;
     sd_keyHash := sd_keyHash e; sd_state := s |}.
Record file_machine := { fm_running : option service_state; fm_file : option service_state }.

(** The process starts on the file, makes a turn, which may throw anywhere, and stops. *)
Inductive file_step : file_machine → file_machine → Prop :=
  | file_start m d :
      fm_running m = None → loadServiceState (expected_document o) (document_of <$> fm_file m) = Ok d →
      file_step m {| fm_running := Some (sd_state d); fm_file := fm_file m |}
  | file_turn m s v r w :
      fm_running m = Some s →
      fileTurn o {| fw_relay := v; fw_state := {| in_memory := s; in_file := fm_file m |} |} = (r, w) →
      file_step m {| fm_running := Some (in_memory (fw_state w)); fm_file := in_file (fw_state w) |}
  | file_stop m : file_step m {| fm_running := None; fm_file := fm_file m |}.

(** The numbers of blocks are safe integers, with room for the next cursor. *)
Context (Hdep : 0 <= dep < MAX_SAFE_INTEGER) (Hconf : 0 <= sv_eventConfirmations o).
Context (Hblocks : ∀ n h, getBlockNumber n = Ok h → h < MAX_SAFE_INTEGER).

Lemma initial_cursor_in_range : cursor_in_range initial.
Proof. split; [done|]. cbn. lia. Qed.

Lemma fileTurn_remembers w : remembers (fw_state w) → remembers (fw_state (fileTurn o w).2).
Proof.
  intros Hrem. enough (wp (fileTurn o) (λ _ w', remembers (fw_state w')) w) by done.
  unfold fileTurn. apply wp_bind. unfold wp at 1, on_relay, ask. cbn [fst snd].
  destruct (getBlockNumber _) as [head|] eqn:Eh; [|done]. apply Hblocks in Eh.
  set (latest := Z.max dep (head - sv_eventConfirmations o)). apply wp_bind. unfold wp at 1, on_service_state. cbn [fw_state].
  pose proof (scanServiceEvents_file latest (fw_state w) ltac:(lia) initial_cursor_in_range Hrem) as Hs.
  destruct (scanServiceEvents _ _ _ _) as [[[]|e] st]; [|done]. cbn [fst snd] in *.
  set (w1 := Build_file_world _ _). assert (remembers (fw_state w1)) as H1' by done.
  apply wp_bind. unfold wp at 1, on_relay, ask. cbn [fst snd]. destruct (contextBlockNumber _) as [b|]; [|done].
  set (w2 := Build_file_world _ _). assert (remembers (fw_state w2)) as H2' by done.
  apply wp_bind. unfold wp at 1, eff_get. cbn [fst snd]. apply wp_bind. unfold wp at 1.
  destruct (work_accounted b (entries_of (s_requests (in_memory (fw_state w2)))) w2) as [Ha Hr].
  { intros [id e] e' Hin. rewrite entries_perm in Hin. apply elem_of_map_to_list in Hin. change (s_requests (in_memory (fw_state w2)) !! id = Some e' → e' = e). congruence. }
  destruct (eff_forM _ _ _) as [r w3]. cbn [fst snd] in *. subst r. unfold wp. cbn.
  destruct Ha as (_ & _ & _ & Hrem3). apply Hrem3; [apply initial_cursor_in_range|done].
Qed.

Definition file_machine_ok (m : file_machine) : Prop :=
  (∀ f, fm_file m = Some f → cursor_in_range f) ∧
  ∀ s, fm_running m = Some s → remembers {| in_memory := s; in_file := fm_file m |}.

Lemma load_state_ok file :
  (∀ f, file = Some f → cursor_in_range f) →
  ∃ d, loadServiceState (expected_document o) (document_of <$> file) = Ok d ∧
    sd_state d = default initial file.
Proof.
  intros Hf. destruct file as [f|]; cbn [fmap option_fmap option_map]; [|by eexists].
  destruct (Hf f eq_refl) as [Ed Hc]. exists (document_of f). split; [|done].
  unfold loadServiceState. cbn [sd_format sd_chainId sd_coordinator sd_keyHash sd_state document_of expected_document].
  rewrite !bool_decide_true by done. cbn [require mbind result_bind]. rewrite Ed. cbn [s_deploymentBlock].
  rewrite Z.eqb_refl. cbn [require]. unfold safe_integer. by rewrite (proj2 (Z.leb_le _ _)) by lia.
Qed.

Lemma file_step_ok m m' : file_machine_ok m → file_step m m' → file_machine_ok m'.
Proof.
  intros [Hf Hrun] Hstep. destruct Hstep as [m d Hup Hload|m s v r w Hup E|m].
  - split; [done|]. intros s [= <-]. destruct (load_state_ok _ Hf) as (d' & Hd' & Es). rewrite Hload in Hd'.
    injection Hd' as <-. rewrite Es. cbn [fm_file]. destruct (fm_file m) as [f|] eqn:Ef; [|done].
    pose proof (Hf f eq_refl) as Hr. unfold remembers. split; [exact Hr|]. by split; [apply Hr|].
  - pose proof (fileTurn_remembers (Build_file_world v {| in_memory := s; in_file := fm_file m |}) (Hrun s Hup)) as Hr.
    rewrite E in Hr. cbn [snd] in Hr. split.
    + cbn. intros f Ef. unfold remembers in Hr. rewrite Ef in Hr. apply Hr.
    + cbn. intros s' [= <-]. by destruct (fw_state w).
  - by split.
Qed.

(** C18: whatever the turns end with and wherever the process stops between them, the
    file-backed service starts again on what it left behind, at the block that the
    scan had reached and with every request that the process was tracking. *)
Theorem file_service_restarts m :
  rtc file_step {| fm_running := None; fm_file := None |} m →
  ∃ d, loadServiceState (expected_document o) (document_of <$> fm_file m) = Ok d ∧
    ∀ s, fm_running m = Some s →
      s_cursor (sd_state d) = s_cursor s ∧ s_requests s ⊆ s_requests (sd_state d).
Proof.
  intros Hm. assert (file_machine_ok m) as [Hf Hrun].
  { assert (file_machine_ok {| fm_running := None; fm_file := None |}) as H0' by done. revert H0'.
    induction Hm as [|m1 m2 m3 H12 _ IH]; [done|]. intros Hok. by eapply IH, file_step_ok. }
  destruct (load_state_ok _ Hf) as (d & Hd & Es). exists d. split; [done|]. intros s Hs. specialize (Hrun s Hs).
  rewrite Es. unfold remembers in Hrun. cbn in Hrun. destruct (fm_file m) as [f|]; cbn.
  - by destruct Hrun as (_ & _ & -> & ?).
  - by rewrite Hrun.
Qed.

Definition turn_accounts (w w' : file_world) : Prop :=
  ∃ st, (st = fw_state w ∨ ∃ latest,
           st = (scanServiceEvents latest (sv_blockRange o) (sv_reorgLookback o) (fw_state w)).2) ∧
    s_cursor (in_memory (fw_state w')) = s_cursor (in_memory st) ∧
    s_requests (in_memory (fw_state w')) ⊆ s_requests (in_memory st) ∧
    ∀ id e, s_requests (in_memory st) !! id = Some e →
      s_requests (in_memory (fw_state w')) !! id = Some e ∨ ended id ∨ proof_sent id e.
(** A turn takes from what it tracks after its scan only requests that the
    coordinator said are not pending, and requests whose proof was sent. *)
Lemma fileTurn_accounts w : turn_accounts w (fileTurn o w).2.
Proof.
  enough (wp (fileTurn o) (λ _ w', turn_accounts w w') w) by done.
  unfold fileTurn. apply wp_bind. unfold wp at 1, on_relay, ask. cbn [fst snd].
  destruct (getBlockNumber _) as [head|]; [|exists (fw_state w); split; [by left|]; split; [done|]; split; [done|by left]].
  set (latest := Z.max dep (head - sv_eventConfirmations o)). apply wp_bind. unfold wp at 1, on_service_state. cbn [fw_state].
  destruct (scanServiceEvents latest _ _ _) as [r st] eqn:Es.
  assert (st = fw_state w ∨ ∃ latest,
           st = (scanServiceEvents latest (sv_blockRange o) (sv_reorgLookback o) (fw_state w)).2) as Hst.
  { right. exists latest. by rewrite Es. }
  assert (∀ w', fw_state w' = st → turn_accounts w w') as Hsame.
  { intros w' Ew. exists st. rewrite Ew. split; [done|]. split; [done|]. split; [done|by left]. }
  destruct r as [[]|e]; cbn [fst snd]; [|by apply Hsame].
  set (w1 := Build_file_world _ _). apply wp_bind. unfold wp at 1, on_relay, ask. cbn [fst snd].
  destruct (contextBlockNumber _) as [b|]; [|by apply Hsame].
  set (w2 := Build_file_world _ _). apply wp_bind. unfold wp at 1, eff_get. cbn [fst snd]. apply wp_bind. unfold wp at 1.
  destruct (work_accounted b (entries_of (s_requests (in_memory (fw_state w2)))) w2) as [Ha Hr].
  { intros [id e] e' Hin. rewrite entries_perm in Hin. apply elem_of_map_to_list in Hin.
    change (s_requests (in_memory (fw_state w2)) !! id = Some e' → e' = e). congruence. }
  destruct (eff_forM _ _ _) as [r w3]. cbn [fst snd] in *. subst r. destruct Ha as (Hc & Hsub & Hids & _).
  exists st. by split_and!.
Qed.
End service.

(** ** A start and a turn *)

#[local] Existing Instance sample_ethers.
#[local] Existing Instance mining_network.
#[local] Existing Instance sample_service.
Definition file_events : EventsApi := {|
  queryRequested _ := Ok [sample_event 7 110; sample_event 8 111]; queryFulfilled _ := Ok []; queryExpired _ := Ok [] |}.
#[local] Existing Instance file_events.
#[refine] Definition file_order : KeyOrder := {| entries_of s := map_to_list s |}.
Proof. done. Defined.
#[local] Existing Instance file_order.
Definition file_relay : relay_world := {| store := empty_database; broadcasts := []; calls := 0; lost := false |}.
Definition file_run : result Z * file_world :=
  fileTurn sample_options {| fw_relay := file_relay;
    fw_state := {| in_memory := initial sample_options; in_file := None |} |}.
Definition file_after : file_machine :=
  {| fm_running := Some (in_memory (fw_state file_run.2)); fm_file := in_file (fw_state file_run.2) |}.

Lemma file_after_reached : rtc (file_step sample_options) {| fm_running := None; fm_file := None |} file_after.
Proof.
  eapply rtc_l; [by apply (file_start _ {| fm_running := None; fm_file := None |})|]. apply rtc_once.
  by apply (file_turn _ _ (initial sample_options) file_relay file_run.1 file_run.2); [|rewrite <-surjective_pairing].
Qed.

Lemma file_service_restarts_witness :
  (map_to_list <$> (s_requests <$> fm_running file_after)) = Some [(8, sample_event 8 111)] ∧
  ∃ d, loadServiceState (expected_document sample_options) (document_of sample_options <$> fm_file file_after) = Ok d ∧
    s_cursor (sd_state d) = 121.
Proof.
  split; [vm_refl|].
  assert (0 <= deploymentBlock (sv_identity sample_options) < MAX_SAFE_INTEGER) as Hd by (by vm_compute).
  assert (0 <= sv_eventConfirmations sample_options) as Hc by (by vm_compute).
  assert (∀ n h, getBlockNumber n = Ok h → h < MAX_SAFE_INTEGER) as Hb by (intros n h [= <-]; by vm_compute).
  destruct (file_service_restarts sample_options Hd Hc Hb file_after file_after_reached) as (d & Hl & Hs).
  exists d. split; [exact Hl|]. destruct (Hs _ eq_refl) as [-> _]. vm_refl.
Defined.
