(* ===== verification/CommandLine.v ===== *)
(** * The command line ([cli.mjs])

    The options that the operator is started with: how the arguments are read, and
    the numbers among them, which are doubles that must be safe integers. *)

From S2P Require Import Prelude Js Hex CanonicalJson Json ErrorText.

Open Scope Z_scope.

(** ** [Number(v)], where it is a safe integer

    The integer a numeral denotes after it is rounded to a double; [None] for
    [NaN], an infinity, a fraction or an integer that is not safe. *)

(** The digits of a decimal numeral and its exponent: [mantissa * 10 ^ exponent]. *)
Definition decimal_exponent (l : list ascii) : option Z :=
  match l with
  | [] => Some 0
  | c :: l =>
      if Ascii.eqb (lower_char c) "e" then
        match l with
        | "-"%char :: l => Z.opp <$> parse_digits 10 l
        | "+"%char :: l => parse_digits 10 l
        | _ => parse_digits 10 l
        end
      else None
  end.
Definition unsigned_decimal (l : list ascii) : option (Z * Z) :=
  let '(whole, rest) := span is_digit l in
  let '(fraction, rest) :=
    match rest with "."%char :: rest => span is_digit rest | _ => ([], rest) end in
  mantissa ← parse_digits 10 (whole ++ fraction);
  exponent ← decimal_exponent rest;
  Some (mantissa, exponent - Z.of_nat (length fraction)).

(** The double next to [m / d] is the integer [z], for a safe [z >= 0]: the ratio
    is within half the distance to the doubles around [z], which are [2 ^ (e - 52)]
    away, and half of that below a power of two; a tie goes to the even mantissa. *)
Definition rounds_to (m d z : Z) : bool :=
  if z =? 0 then m * 2 ^ 1075 <=? d
  else
    let e := Z.log2 z in
    let u := 2 ^ (52 - e) in
    let slack := if z * d <=? m then 2 * u * (m - z * d)
                 else (if z =? 2 ^ e then 4 else 2) * u * (z * d - m) in
    if Z.even (z * u) then slack <=? d else slack <? d.
(** [mantissa * 10 ^ exponent] as a double, when it is a safe integer. *)
Definition decimal_value (mantissa exponent : Z) : option Z :=
  if mantissa =? 0 then Some 0
  else if 0 <=? exponent then
    if exponent <=? 16 then
      let z := mantissa * 10 ^ exponent in if z <=? MAX_SAFE_INTEGER then Some z else None
    else None
  else
    let d := 10 ^ (- exponent) in
    let z := mantissa / d in
    find_first (λ z, (z <=? MAX_SAFE_INTEGER) && rounds_to mantissa d z) [z; z + 1].

Definition safe_number (z : Z) : option Z := if safe_integer z then Some z else None.
(** A numeral with a radix prefix, which takes no sign. *)
Definition radix_of (c : ascii) : option Z :=
  let c := lower_char c in
  if Ascii.eqb c "x" then Some 16 else if Ascii.eqb c "o" then Some 8
  else if Ascii.eqb c "b" then Some 2 else None.
Definition decimal_number (l : list ascii) : option Z :=
  '(mantissa, exponent) ← unsigned_decimal l; decimal_value mantissa exponent.
Definition string_number (s : string) : option Z :=
  match chars (trim s) with
  | [] => Some 0
  | "-"%char :: l => Z.opp <$> decimal_number l
  | "+"%char :: l => decimal_number l
  | l =>
      match l with
      | "0"%char :: c :: digits =>
          match radix_of c with
          | Some base => z ← parse_digits base digits; safe_number z
          | None => decimal_number l
          end
      | _ => decimal_number l
      end
  end.
Definition to_number (v : value) : option Z :=
  match v with
  | VUndef | VFrac _ | VObj _ => None
  | VNull => Some 0
  | VBool b => Some (if b then 1 else 0)
  | VNum z | VBig z => safe_number z
  | VStr s => string_number s
  | VArr l => string_number (to_str (VArr l))
  end.

(** [v ?? fallback] *)
Definition nullish (v fallback : value) : value :=
  match v with VUndef | VNull => fallback | _ => v end.

(** [positiveInteger(value, name, fallback, minimum)] *)
Definition positiveInteger (v : value) (name : string) (fallback : value) (minimum : Z) : result Z :=
  match to_number (nullish v fallback) with
  | Some parsed =>
      _ ← require (minimum <=? parsed) ("invalid --" +:+ name); Ok parsed
  | None => Throw ("invalid --" +:+ name)
  end.

(** ** [parseArgs] *)

(** [s.slice(2)] *)
Definition slice2 (s : string) : string := of_chars (drop 2 (chars s)).
(** [options[k] = s]: a text does not replace the prototype of an object. *)
Definition set_option (k s : string) (options : list (string * value)) : list (string * value) :=
  if bool_decide (k = "__proto__") then options else assoc_set k (VStr s) options.

(** The arguments after the command, two at a time. *)
Fixpoint parseRest (rest : list string) (options : list (string * value))
    : result (list (string * value)) :=
  match rest with
  | [] => Ok options
  | item :: rest =>
      _ ← require (starts_with "--" item) ("unexpected argument: " +:+ item);
      match rest with
      | [] => Throw ("missing value for " +:+ item)
      | v :: rest =>
          _ ← require (negb (starts_with "--" v)) ("missing value for " +:+ item);
          parseRest rest (set_option (slice2 item) v options)
      end
  end.
Record arguments := { command : option string; options : value }.
Definition parseArgs (argv : list string) : result arguments :=
  options ← parseRest (tail argv) [];
  Ok {| command := head argv; options := VObj options |}.

(** ** Lemmas and theorems *)

Lemma safe_Some z n : safe_number z = Some n ↔ safe_integer z = true ∧ n = z.
Proof. unfold safe_number. destruct (safe_integer z); naive_solver. Qed.
Lemma safe_integer_spec z : safe_integer z = true ↔ - MAX_SAFE_INTEGER <= z <= MAX_SAFE_INTEGER.
Proof. unfold safe_integer. rewrite Z.leb_le. lia. Qed.

Lemma parse_digits_nonnegative base l z : 0 <= base → parse_digits base l = Some z → 0 <= z.
Proof.
  intros Hb. unfold parse_digits. destruct l as [|c l]; [done|]. generalize (c :: l). clear c l.
  enough (∀ l a, (∀ z, a = Some z → 0 <= z) → ∀ z, foldl (parse_step base) a l = Some z → 0 <= z) as Hgo.
  { intros l. apply Hgo. by intros ? [= <-]. }
  induction l as [|c l IH]; intros a Ha; cbn [foldl]; [done|]. apply IH. intros z'. unfold parse_step.
  intros (y & Hy & (d & Hd & Hz)%bind_Some)%bind_Some. specialize (Ha _ Hy).
  assert (0 <= d).
  { unfold digit_value, is_digit, in_range in Hd. repeat case_match; simplify_eq; reflect_bool_hyps; lia. }
  case_match; simplify_eq. lia.
Qed.

Lemma decimal_value_range m e z : 0 <= m → decimal_value m e = Some z → 0 <= z <= MAX_SAFE_INTEGER.
Proof.
  intros Hm. unfold decimal_value. destruct (m =? 0) eqn:E0; [by intros [= <-]|].
  destruct (0 <=? e) eqn:Ee.
  - destruct (e <=? 16); [|done]. destruct (_ <=? MAX_SAFE_INTEGER) eqn:Es; [|done]. intros [= <-].
    apply Z.leb_le in Es, Ee. split; [|done]. apply Z.mul_nonneg_nonneg; [done|]. apply Z.pow_nonneg. lia.
  - intros [Hz [Hs _]%andb_true_iff]%find_first_Some. apply Z.leb_le in Hs. split; [|done].
    assert (0 <= m / 10 ^ (- e)).
    { apply Z.div_pos; [done|]. apply Z.pow_pos_nonneg; [lia|]. apply Z.leb_gt in Ee. lia. }
    rewrite !elem_of_cons in Hz. destruct Hz as [->|[->|Hz]]; [lia..|]. by apply elem_of_nil in Hz.
Qed.

Lemma span_spec f l : l = (span f l).1 ++ (span f l).2 ∧ forallb f (span f l).1 = true.
Proof.
  induction l as [|c l [IH1 IH2]]; cbn; [done|]. destruct (f c) eqn:Ef; [|done].
  destruct (span f l) as [a b]. cbn in *. rewrite Ef, IH2. split; [by f_equal|done].
Qed.
Lemma span_all f l : forallb f l = true → span f l = (l, []).
Proof. induction l as [|c l IH]; cbn; [done|]. intros [-> Hl]%andb_true_iff. by rewrite IH. Qed.

Lemma unsigned_decimal_nonneg l m e : unsigned_decimal l = Some (m, e) → 0 <= m.
Proof.
  unfold unsigned_decimal. destruct (span is_digit l) as [whole rest].
  destruct (match rest with "."%char :: rest => span is_digit rest | _ => ([], rest) end) as [fraction rest'].
  intros (m' & Hm & (e' & _ & [= <- _])%bind_Some)%bind_Some.
  by eapply (parse_digits_nonnegative 10).
Qed.

Lemma decimal_number_range l n : decimal_number l = Some n → 0 <= n <= MAX_SAFE_INTEGER.
Proof.
  intros ([m e] & Hm%unsigned_decimal_nonneg & Hn)%bind_Some. by eapply decimal_value_range.
Qed.

Lemma string_number_safe s z : string_number s = Some z → safe_integer z = true.
Proof.
  assert (∀ l n, decimal_number l = Some n → safe_integer n = true) as Hs.
  { intros l n Hn%decimal_number_range. apply safe_integer_spec. lia. }
  assert (∀ l n, Z.opp <$> decimal_number l = Some n → safe_integer n = true) as Ho.
  { intros k n (y & Hy%decimal_number_range & ->)%fmap_Some. apply safe_integer_spec. lia. }
  unfold string_number. destruct (chars (trim s)) as [|c l]; [by intros [= <-]|].
  destruct c as [[] [] [] [] [] [] [] []]; eauto. destruct l as [|c l]; eauto. destruct (radix_of c); eauto.
  intros (y & _ & [Hy ->]%safe_Some)%bind_Some. done.
Qed.

Lemma to_number_safe v z : to_number v = Some z → safe_integer z = true.
Proof.
  destruct v; cbn [to_number]; try done; try (by intros [= <-]);
    try (by intros [? ->]%safe_Some); try apply string_number_safe.
  intros [= <-]. by destruct b.
Qed.

(** An accepted number is a safe integer and not below the minimum. *)
Lemma positiveInteger_range v name fallback minimum n :
  positiveInteger v name fallback minimum = Ok n → minimum <= n <= MAX_SAFE_INTEGER.
Proof.
  unfold positiveInteger. destruct (to_number _) as [parsed|] eqn:E; [|done].
  intros (? & Hm%require_Ok & [= <-])%bind_Ok. apply to_number_safe, safe_integer_spec in E.
  apply Z.leb_le in Hm. lia.
Qed.

Lemma decimal_number_print z :
  0 <= z <= MAX_SAFE_INTEGER → decimal_number (chars (print_base 10 z)) = Some z.
Proof.
  intros Hz. unfold decimal_number, unsigned_decimal.
  rewrite (span_all _ _ (print_base_digits z ltac:(lia))), app_nil_r, parse_print_base by lia.
  cbn [mbind option_bind decimal_exponent length]. unfold decimal_value.
  destruct (Z.eqb_spec z 0) as [->|]; [done|]. change (0 - Z.of_nat 0) with 0. cbn -[Z.mul].
  rewrite Z.mul_1_r. by rewrite (proj2 (Z.leb_le _ _)) by lia.
Qed.

(** The decimal text of a safe integer is that number. *)
Lemma string_number_print z : safe_integer z = true → string_number (print_int z) = Some z.
Proof.
  intros Hz%safe_integer_spec. unfold string_number. rewrite trim_id.
  2: { destruct (print_int_cons z) as (c & l & -> & Hl). apply forallb_Forall in Hl.
       eapply Forall_impl; [done|]. cbn. intros d. apply numeral_char_not_space. }
  unfold print_int. destruct (Z.ltb_spec z 0) as [Hn|Hn].
  - change (chars ("-" +:+ print_base 10 (- z))) with ("-"%char :: chars (print_base 10 (- z))).
    cbv match. rewrite decimal_number_print by lia. cbn. f_equal. lia.
  - pose proof (decimal_number_print z ltac:(lia)) as Hv. pose proof (print_base_digits z Hn) as Hd.
    destruct (print_base_head z Hn) as (c & l & E & Hc). rewrite E in *. cbn [forallb] in Hd.
    apply andb_true_iff in Hd as [Hd _]. destruct (decide (c = "0"%char)) as [->|H0].
    + rewrite (Hc eq_refl) in *. exact Hv.
    + destruct (digit_char_cases c Hd) as (Hm & Hpl & _).
      destruct c as [[] [] [] [] [] [] [] []]; try exact Hv; by exfalso.
Qed.

Lemma positiveInteger_print n name fallback minimum :
  minimum <= n → safe_integer n = true →
  positiveInteger (VStr (print_int n)) name fallback minimum = Ok n.
Proof.
  intros Hm Hs. unfold positiveInteger. cbn [nullish to_number]. rewrite string_number_print by done.
  by rewrite (proj2 (Z.leb_le _ _)) by done.
Qed.

(** Numerals that are not the decimal text of an integer. *)
Example numerals :
  string_number <$> ["1e3"; " 250 "; "0x10"; "2.50e1"; "2.5"; "12abc"; "-7"; "9007199254740993"; ""; "1e-400";
                     "4503599627370495.9999"; "4503599627370496.5"; "4503599627370497.5"; "-0x10"]
  = [Some 1000; Some 250; Some 16; Some 25; None; None; Some (-7); None; Some 0; Some 0;
     Some 4503599627370496; Some 4503599627370496; Some 4503599627370498; None].
Proof. vm_refl. Qed.
