(* ===== verification/Readiness.v ===== *)
(** * Readiness ([readiness.mjs])

    What is checked before an operator starts: its RPC endpoints, its database, its
    proof provider and the contracts and roles it works with.  The endpoints, the
    database and the files are parameters; an answer of an endpoint depends on the
    number of the call, and calls that the code makes together are made in order. *)

From S2P Require Import Prelude Js Hex CanonicalJson Vendor Policies Ecvrf ProofProvider ErrorText CommandLine Archiver.

Open Scope Z_scope.

Record key_config := {
  k_verifier : string; k_verifierCodeHash : string; k_fulfiller : string; k_payee : string;
  k_proofDataLength : Z; k_exists : bool; k_active : bool
}.

(** The endpoints, by their URLs, and what ethers and the database answer. *)
Class ReadinessApi := {
  rd_chainId : nat → string → result Z;                             (* getNetwork *)
  rd_blockNumber : nat → string → result Z;
  rd_code : nat → string → string → result bytes;                   (* getCode of an address *)
  rd_balance : nat → string → string → result Z;
  rd_text : nat → string → string → string → result string;         (* view function of a contract *)
  rd_number : nat → string → string → string → result Z;
  rd_key : nat → string → string → string → result key_config;      (* getKey *)
  rd_serverVersion : nat → string → result value;                   (* SHOW server_version_num *)
  wallet_address : string → result string;                          (* new Wallet(key).address *)
  parseEther : value → result Z;
  formatEther : Z → string;
  search_param : string → string → value                            (* of a URL *)
}.
(** Files, by their paths. *)
Record file_system := { read_json : string → result value; read_bytes : string → result bytes }.

Definition ZERO_OWNER : string := "0x0000000000000000000000000000000000000000".

(** [options[k]], when it is a text that is not empty. *)
Definition option_text (o : value) (k : string) : option string := nonempty (as_string (prop_opt o k)).
Definition secret_value (secret : option string) : value :=
  match secret with Some s => VStr s | None => VUndef end.

Section readiness.
Context `{Ethers, NobleBls, !NodeCrypto, UrlApi, Secp256k1, HmacApi, HttpApi, WalletApi, ReadinessApi}.
Context (e : environment) (files : file_system).

Definition safeUrl (v : value) (kind : string) : result url :=
  parsed ← from_option_or (kind +:+ " URL is invalid") (parse_url (to_str v));
  let loopback := bool_decide (url_hostname parsed ∈ LOOPBACK_HOSTS) in
  _ ← require (negb (bool_decide (kind = "RPC") && negb (bool_decide (url_protocol parsed = "https:"))
                     && negb (loopback && bool_decide (url_protocol parsed = "http:"))))
        "remote RPC endpoints must use HTTPS";
  if bool_decide (kind = "PostgreSQL") then
    _ ← require (bool_decide (url_protocol parsed ∈ ["postgres:"; "postgresql:"]))
          "database URL must use postgresql://";
    let sslMode := search_param (url_href parsed) "sslmode" in
    _ ← require (loopback || bool_decide (sslMode ∈ VStr <$> ["require"; "verify-ca"; "verify-full"]))
          "remote PostgreSQL requires sslmode=require, verify-ca, or verify-full";
    Ok parsed
  else Ok parsed.

(** The messages of this file's [positiveInteger] differ. *)
Definition integerAtLeast (v : value) (name : string) (fallback : value) (minimum : Z) : result Z :=
  let message := name +:+ " must be an integer of at least " +:+ print_int minimum in
  parsed ← from_option_or message (to_number (nullish v fallback));
  _ ← require (minimum <=? parsed) message; Ok parsed.
Definition minimumRelayerBalance (v : value) : result Z := parseEther (nullish v (VStr "0.002")).

(** ** The proof provider of the options *)

Definition provider_options_of (o : value) (timeoutMs : result Z) (allowLoopback : bool)
    : result provider_options :=
  let threshold := option_text o "threshold-manifest" in
  let bytes_at k := read_bytes files <$> option_text o k in
  password ← readSecret e "VRF_KEY_PASSWORD" false;
  bearerToken ← readSecret e (if bool_decide (is_Some threshold) then "VRF_THRESHOLD_NODE_TOKEN"
                              else "VRF_PROVER_BEARER_TOKEN") false;
  _ ← timeoutMs;
  Ok {| po_keyPath := read_json files <$> option_text o "keystore"; po_password := password;
        po_proverUrl := option_text o "prover-url"; po_bearerToken := bearerToken;
        po_proverClientCertificatePath := bytes_at "prover-client-cert";
        po_proverClientKeyPath := bytes_at "prover-client-key";
        po_proverCaCertificatePath := bytes_at "prover-ca";
        po_expectedKeyHash := option_text o "proof-key-hash";
        po_threshold := (λ path, {|
          to_manifestPath := read_json files path;
          to_previousManifestPath := read_json files <$> option_text o "threshold-previous-manifest";
          to_trustedPreviousManifestHash := prop_opt o "threshold-trusted-previous-hash";
          to_allowLoopback := allowLoopback; to_bearerToken := bearerToken;
          to_clientCertificatePath := bytes_at "threshold-client-cert";
          to_clientKeyPath := bytes_at "threshold-client-key";
          to_caCertificatePath := bytes_at "threshold-ca" |}) <$> threshold |}.

Definition provider_keyHash (p : proof_provider) : string :=
  match p with
  | LocalKeystore p => lp_keyHash p
  | RemoteProver _ k => rk_keyHash k
  | ThresholdBls p => ThresholdGroup.g_keyHash (tp_group p)
  end.
(** [proofKeyAddress], which a threshold group has not. *)
Definition provider_address (p : proof_provider) : option string :=
  match p with
  | LocalKeystore p => Some (lp_proofKeyAddress p)
  | RemoteProver _ k => Some (rk_proofKeyAddress k)
  | ThresholdBls _ => None
  end.
(** The relayer does not send with the proof key. *)
Definition separate_keys (p : proof_provider) (relayer : string) : bool :=
  match provider_address p with
  | Some a => bool_decide (a = "") || negb (bool_decide (lower relayer = lower a))
  | None => true
  end.
Definition modes_configured (o : value) : Z :=
  Z.of_nat (length (filter (λ v, truthy v = true)
    [prop_opt o "keystore"; prop_opt o "prover-url"; prop_opt o "threshold-manifest"])).
(** [options[k] ||= v] *)
Definition or_option (o : value) (k : string) (v : value) : value :=
  match o with
  | VObj fs => if truthy (prop_opt o k) then o else VObj (assoc_set k v fs)
  | _ => o
  end.

(** ** The checks *)

Definition TESTNET : Z := 46630.
Definition allow_shared_origin : bool :=
  bool_decide (env e "VRF_ALLOW_SHARED_RPC_ORIGIN" = Some "true").

Definition endpointState (expectedChainId : Z) (url : string) : eff nat Z :=
  chainId ← call (λ n, rd_chainId n url);
  head ← call (λ n, rd_blockNumber n url);
  _ ← eff_require (chainId =? expectedChainId)
        ("RPC returned chain " +:+ print_int chainId +:+ "; expected " +:+ print_int expectedChainId);
  mret head.

Record rpc_endpoints := { ep_urls : list string; ep_heads : list Z }.
Definition readinessEndpoints (o : value) (deploymentBlock expectedChainId : Z) : eff nat rpc_endpoints :=
  minimumRpcCount ← eff_lift (integerAtLeast (prop_opt o "minimum-rpc-count") "minimum-rpc-count" (VNum 2) 1);
  secret ← eff_lift (readSecret e "VRF_RPC_URLS" false);
  rpcUrls ← eff_lift (normalizeRpcUrls (secret_value secret) {|
    minimum := minimumRpcCount; label := "readiness";
    allowSharedOrigin := allow_shared_origin && (expectedChainId =? TESTNET)
                         && negb (truthy (prop_opt o "threshold-manifest")) |});
  heads ← mapM (endpointState expectedChainId) rpcUrls;
  _ ← eff_require (list_max heads - list_min heads <=? 8) "RPC heads differ by more than eight blocks";
  _ ← eff_require (deploymentBlock <=? list_min heads) "from-block is above an RPC head";
  mret {| ep_urls := rpcUrls; ep_heads := heads |}.

(** The database, opened and closed. *)
Definition readinessDatabase (databaseUrl : string) : eff nat Z :=
  database ← eff_lift (safeUrl (VStr databaseUrl) "PostgreSQL");
  answer ← call (λ n, rd_serverVersion n (url_href database));
  let message := "PostgreSQL 14 or newer is required" in
  postgresVersion ← eff_lift (from_option_or message (to_number answer));
  _ ← eff_require (140000 <=? postgresVersion) message;
  mret postgresVersion.

(** What the contracts answer. *)
Record contract_state := {
  ct_owner : string; ct_pendingOwner : string; ct_guardian : string; ct_key : key_config;
  ct_pinnedL1CodeHash : string; ct_pinnedBlockContextCodeHash : string;
  ct_ownerCode : bytes; ct_blockhashCode : bytes; ct_l1Code : bytes; ct_verifierCode : bytes;
  ct_relayerBalance : Z; ct_governanceSafe : string; ct_timelockDelay : Z; ct_minimumTimelockDelay : Z;
  ct_governanceSafeCode : bytes; ct_blockContextCode : bytes
}.

Definition readContracts (url coordinator keyHash relayer : string) : eff nat contract_state :=
  let text contract f := call (λ n, rd_text n url contract f) in
  let number contract f := call (λ n, rd_number n url contract f) in
  let code address := call (λ n, rd_code n url address) in
  owner ← text coordinator "owner";
  pendingOwner ← text coordinator "pendingOwner";
  guardian ← text coordinator "guardian";
  blockhashStore ← text coordinator "blockhashStore";
  l1FeeCalculator ← text coordinator "l1FeeCalculator";
  pinnedL1CodeHash ← text coordinator "l1FeeCalculatorCodeHash";
  key ← call (λ n, rd_key n url coordinator keyHash);
  ownerCode ← code owner;
  blockhashCode ← code blockhashStore;
  l1Code ← code l1FeeCalculator;
  verifierCode ← code (k_verifier key);
  relayerBalance ← call (λ n, rd_balance n url relayer);
  governanceSafe ← text owner "owner";
  timelockDelay ← number owner "delay";
  minimumTimelockDelay ← number owner "MIN_DELAY";
  blockContext ← text blockhashStore "blockContext";
  pinnedBlockContextCodeHash ← text blockhashStore "blockContextCodeHash";
  governanceSafeCode ← code governanceSafe;
  blockContextCode ← code blockContext;
  mret {| ct_owner := owner; ct_pendingOwner := pendingOwner; ct_guardian := guardian; ct_key := key;
          ct_pinnedL1CodeHash := pinnedL1CodeHash;
          ct_pinnedBlockContextCodeHash := pinnedBlockContextCodeHash; ct_ownerCode := ownerCode;
          ct_blockhashCode := blockhashCode; ct_l1Code := l1Code; ct_verifierCode := verifierCode;
          ct_relayerBalance := relayerBalance; ct_governanceSafe := governanceSafe;
          ct_timelockDelay := timelockDelay; ct_minimumTimelockDelay := minimumTimelockDelay;
          ct_governanceSafeCode := governanceSafeCode; ct_blockContextCode := blockContextCode |}.

Definition has_code (code : bytes) : bool := negb (bool_decide (code = [])).
Definition roles (s : contract_state) : list string :=
  lower <$> [ct_owner s; ct_guardian s; k_fulfiller (ct_key s); k_payee (ct_key s)].

Definition checkContracts (o : value) (relayer : string) (s : contract_state) : result unit :=
  let key := ct_key s in
  _ ← require (has_code (ct_ownerCode s) && (ct_minimumTimelockDelay s <=? ct_timelockDelay s)
               && (43200 <=? ct_timelockDelay s))
        "coordinator owner must be a deployed timelock with at least 12 hours delay";
  _ ← require (has_code (ct_governanceSafeCode s))
        "timelock owner must be a deployed governance Safe/multisig";
  _ ← require (bool_decide (ct_pendingOwner s = ZERO_OWNER))
        "coordinator ownership transfer has not been accepted";
  _ ← require (has_code (ct_blockhashCode s) && has_code (ct_blockContextCode s)
               && has_code (ct_l1Code s) && has_code (ct_verifierCode s))
        "a coordinator dependency has no runtime code";
  _ ← require (bool_decide (keccak256 (ct_blockContextCode s) = ct_pinnedBlockContextCodeHash s))
        "block context code hash changed";
  _ ← require (bool_decide (keccak256 (ct_l1Code s) = ct_pinnedL1CodeHash s))
        "L1 fee calculator code hash changed";
  _ ← require (bool_decide (keccak256 (ct_verifierCode s) = k_verifierCodeHash key))
        "verifier code hash changed";
  _ ← require (k_exists key && k_active key) "proof key is missing or inactive";
  _ ← require (k_proofDataLength key =? 416) "registered proof length is not 416 bytes";
  _ ← require (bool_decide (lower (k_fulfiller key) = lower relayer))
        "relayer is not the configured fulfiller";
  _ ← require (all_distinct (roles s)) "timelock, guardian, fulfiller, and payee must be distinct roles";
  minimumBalance ← minimumRelayerBalance (prop_opt o "minimum-relayer-balance-eth");
  require (minimumBalance <=? ct_relayerBalance s)
    ("relayer balance " +:+ formatEther (ct_relayerBalance s) +:+ " ETH is below the minimum").

Record readiness_report := {
  rr_independent : bool;               (* "ready" and not "ready-degraded" *)
  rr_chainId : Z; rr_endpoints : rpc_endpoints; rr_postgresVersion : Z; rr_coordinator : string;
  rr_contracts : contract_state; rr_provider : proof_provider; rr_relayer : string;
  rr_deploymentBlock : Z
}.

Definition checkReadiness (options : value) : eff nat readiness_report :=
  coordinator ← eff_lift (from_option_or "invalid address"
                            (a ← as_string (prop_opt options "coordinator"); getAddress a));
  deploymentBlock ← eff_lift (integerAtLeast (prop_opt options "from-block") "from-block" VUndef 0);
  expectedChainId ← eff_lift (to_bigint (prop_opt options "expected-chain-id"));
  rpc ← readinessEndpoints options deploymentBlock expectedChainId;
  url ← eff_lift (from_option_or TYPE_ERROR (head (ep_urls rpc)));
  databaseUrl ← eff_lift (readSecret e "VRF_DATABASE_URL" true);
  coordinatorCode ← call (λ n, rd_code n url coordinator);
  _ ← eff_require (has_code coordinatorCode) "coordinator has no runtime code";
  postgresVersion ← readinessDatabase (default "" databaseUrl);
  let o := or_option options "prover-url" (secret_value (env e "VRF_PROVER_URL")) in
  _ ← eff_require (modes_configured o =? 1)
        "configure exactly one of --keystore, --prover-url, or --threshold-manifest";
  provider_options ← eff_lift (provider_options_of o
    (integerAtLeast (prop_opt o "prover-timeout-ms") "prover-timeout-ms" (VNum 15000) 100) false);
  proofProvider ← createProofProvider provider_options;
  relayerKey ← eff_lift (readSecret e "VRF_TX_PRIVATE_KEY" true);
  relayer ← eff_lift (wallet_address (default "" relayerKey));
  _ ← eff_require (separate_keys proofProvider relayer) "proof key and relayer key must be different";
  contracts ← readContracts url coordinator (provider_keyHash proofProvider) relayer;
  _ ← eff_lift (checkContracts o relayer contracts);
  originCount ← eff_lift (rpcOriginCount (ep_urls rpc));
  mret {| rr_independent := originCount =? Z.of_nat (length (ep_urls rpc));
          rr_chainId := expectedChainId; rr_endpoints := rpc; rr_postgresVersion := postgresVersion;
          rr_coordinator := coordinator; rr_contracts := contracts; rr_provider := proofProvider;
          rr_relayer := relayer; rr_deploymentBlock := deploymentBlock |}.
End readiness.
