(* ===== verification/NodeStart.v ===== *)
(** * The start of a signing node ([threshold-node.mjs])

    What [main] makes of its options, its files and its secrets, the checks and the
    files of the node, and the kind of server that it listens with; plain HTTP is for
    loopback hosts alone.  Listening itself is outside. *)

From S2P Require Import Prelude Js Hex CanonicalJson Json Vendor ThresholdCrypto ThresholdGroup DkgShares DkgCeremony Policies ThresholdNode CommandLine Readiness.

Open Scope Z_scope.

(** The server: plain, or TLS 1.3 that requires and checks a client's certificate. *)
Inductive server_mode :=
  | PlainHttp
  | MutualTls (key certificate ca : bytes).

Section start.
Context `{Ethers, NobleBls, !NodeCrypto, UrlApi, !SealCrypto, !KeyStorage, RpcApi}.
Context (e : environment) (files : file_system).

Definition path_of (v : value) : result string := from_option_or TYPE_ERROR (as_string v).
Definition nodeOptions (o : value) : result node_options :=
  rpcSecret ← readSecret e "VRF_RPC_URLS" false;
  rpcUrls ← normalizeRpcUrls (secret_value rpcSecret)
              {| minimum := 2; label := "threshold signing"; allowSharedOrigin := false |};
  manifest ← (path ← path_of (prop_opt o "manifest"); read_json files path);
  previous ← (if truthy (prop_opt o "previous")
              then path ← path_of (prop_opt o "previous"); read_json files path else Ok VUndef);
  keystore ← (path ← path_of (prop_opt o "keystore"); read_json files path);
  password ← readSecret e "VRF_THRESHOLD_KEY_PASSWORD" true;
  token ← readSecret e "VRF_THRESHOLD_NODE_TOKEN" false;
  Ok {| o_manifest := manifest;
        o_groupOptions := {| allowLoopback := truthy (prop_opt o "allow-http-loopback"); previousManifest := previous;
                             trustedPreviousManifestHash := prop_opt o "trusted-previous-hash" |};
        o_keystore := keystore; o_password := default "" password; o_bearerToken := default "" token;
        o_rpcUrls := VArr (VStr <$> rpcUrls); o_host := to_str (prop_opt o "host");
        o_statePath := default "" (option_text o "state"); o_auditPath := default "" (option_text o "audit-log") |}.

Definition serverMode (o : value) : result server_mode :=
  if truthy (prop_opt o "allow-http-loopback") then Ok PlainHttp
  else
    match option_text o "tls-key", option_text o "tls-cert", option_text o "tls-ca" with
    | Some key, Some cert, Some ca =>
        key ← read_bytes files key; cert ← read_bytes files cert; ca ← read_bytes files ca; Ok (MutualTls key cert ca)
    | _, _, _ => Throw "production threshold node requires TLS key, certificate, and client CA"
    end.

(** [startThresholdNode] up to listening: the node, its signing state and its server. *)
Record started_node := { sn_options : node_options; sn_node : node; sn_state : value; sn_server : server_mode }.
Definition startThresholdNode (v : value) : eff node_disk started_node :=
  o ← eff_lift (nodeOptions v);
  n ← eff_lift (openNode o);
  state ← loadNode n;
  server ← eff_lift (serverMode v);
  mret {| sn_options := o; sn_node := n; sn_state := state; sn_server := server |}.

Lemma option_text_given o k s : option_text o k = Some s → prop_opt o k = VStr s.
Proof. unfold option_text. destruct (prop_opt o k); try done. cbn. case_bool_decide; [done|]. by intros [= <-]. Qed.

(** A node that starts serves plain HTTP on a loopback host only, and otherwise needs a
    certificate of every client; it has the endpoints of two different origins or
    more, for a validated group, with the key of the share that the manifest gives to
    its participant. *)
Lemma node_start_guarded v s d d' :
  startThresholdNode v d = (Ok s, d') →
  match sn_server s with
  | PlainHttp => o_host (sn_options s) ∈ LOOPBACK_HOSTS
  | MutualTls key cert ca => ∃ k c a, (prop_opt v "tls-key", prop_opt v "tls-cert", prop_opt v "tls-ca") = (VStr k, VStr c, VStr a) ∧
      read_bytes files k = Ok key ∧ read_bytes files c = Ok cert ∧ read_bytes files a = Ok ca
  end ∧
  (∃ urls, o_rpcUrls (sn_options s) = VArr (VStr <$> urls) ∧ NoDup urls ∧ 2 <= Z.of_nat (length urls)) ∧
  validateGroupManifest (o_manifest (sn_options s)) (o_groupOptions (sn_options s)) = Ok (n_group (sn_node s)) ∧
  ∃ key, publicKeyForShare (n_secretShare (sn_node s)) = Ok key ∧
    lower key = lower (p_sharePublicKey (n_participant (n_identity (sn_node s)))).
Proof.
  unfold startThresholdNode. intros (o & Ho & Hr)%eff_lift_bind_Ok. apply eff_lift_bind_Ok in Hr as (n & Hn & Hr).
  apply eff_bind_Ok in Hr as (state & d1 & _ & Hr). apply eff_lift_bind_Ok in Hr as (server & Hs & [= <- _]).
  cbn [sn_server sn_options sn_node].
  unfold openNode in Hn. do 2 (apply bind_Ok in Hn as (? & _ & Hn)). apply bind_Ok in Hn as (? & Hhost%require_Ok & Hn).
  apply bind_Ok in Hn as (g & Hg & Hn). do 2 (apply bind_Ok in Hn as (? & _ & Hn)). apply bind_Ok in Hn as (? & _ & Hn).
  apply bind_Ok in Hn as (p & _ & Hn). cbv zeta in Hn. apply bind_Ok in Hn as (? & _ & Hn).
  do 4 (apply bind_Ok in Hn as (? & _ & Hn)). apply bind_Ok in Hn as (key & Hkey & Hn).
  apply bind_Ok in Hn as (? & Hsame%require_Ok%bool_decide_eq_true & [= <-]). cbn.
  unfold nodeOptions in Ho. apply bind_Ok in Ho as (? & _ & Ho). apply bind_Ok in Ho as (urls & Hurls%normalizeRpcUrls_Ok & Ho).
  do 5 (apply bind_Ok in Ho as (? & _ & Ho)). injection Ho as <-. cbn in *.
  split; [|split_and!; try done; [exists urls; split_and!; try done; apply Hurls|by exists key]].
  unfold serverMode in Hs. destruct (truthy (prop_opt v "allow-http-loopback")).
  - injection Hs as <-. by apply bool_decide_eq_true in Hhost.
  - destruct (option_text v "tls-key") as [k|] eqn:Ek; [|done]. destruct (option_text v "tls-cert") as [c|] eqn:Ec; [|done].
    destruct (option_text v "tls-ca") as [a|] eqn:Ea; [|done]. apply option_text_given in Ek, Ec, Ea. rewrite Ek, Ec, Ea.
    apply bind_Ok in Hs as (kb & Hk & Hs). apply bind_Ok in Hs as (cb & Hc & Hs). apply bind_Ok in Hs as (ab & Ha & [= <-]).
    by eexists _, _, _.
Qed.
End start.
