(* ===== verification/ServiceStart.v ===== *)
(** * The start of the service ([cli.mjs])

    What [run-v2] makes of its options: the numbers of the loop, the endpoints, the
    proof provider and the keys, and the checks that refuse a start.  A service
    with a database has a request lease that its transactions fit in. *)

From S2P Require Import Prelude Js Hex CanonicalJson Vendor ThresholdNode Policies OperatorStore StoreLeases Scanner ErrorText Relayer RelayerSafety Service Ecvrf ProofProvider CommandLine Archiver Readiness.

Open Scope Z_scope.

(** The fallback provider over all endpoints. *)
Class FallbackApi := {
  fb_chainId : nat → list string → result Z;
  fb_blockhashStore : nat → list string → string → result string;      (* of a coordinator *)
  fb_key : nat → list string → string → string → result key_config     (* coordinator, key *)
}.

(** Where the loop keeps its requests. *)
Inductive persistence := StateFile (path : value) | Database (url : value) (maximumConnections : Z).
Record service_plan := {
  sp_options : service_options; sp_pollMs : Z; sp_persistence : persistence;
  sp_provider : proof_provider; sp_blockhashStore : string; sp_report : option readiness_report
}.

Section start.
Context `{Ethers, NobleBls, !NodeCrypto, UrlApi, Secp256k1, HmacApi, HttpApi, WalletApi, ReadinessApi, FallbackApi}.
Context (e : environment) (files : file_system) (host : string).

(** [options[k] ||= readSecret(name)] *)
Definition or_secret (o : value) (k name : string) : result value :=
  if truthy (prop_opt o k) then Ok o
  else secret ← readSecret e name false; Ok (or_option o k (secret_value secret)).
Definition start_options (options : value) : result value :=
  o ← or_secret options "rpc-urls" "VRF_RPC_URLS";
  o ← or_secret o "database-url" "VRF_DATABASE_URL";
  Ok (or_option o "prover-url" (secret_value (env e "VRF_PROVER_URL"))).

(** The numbers of the loop. *)
Record loop_numbers := {
  ln_deploymentBlock : Z; ln_pollMs : Z; ln_blockRange : Z; ln_reorgLookback : Z;
  ln_eventConfirmations : Z; ln_replacementMs : Z; ln_replacementAttempts : Z;
  ln_archiveAfterBlocks : Z
}.
Definition loopNumbers (o : value) : result loop_numbers :=
  let number k fallback minimum := positiveInteger (prop_opt o k) k fallback minimum in
  deploymentBlock ← number "from-block" VUndef 0;
  pollMs ← number "poll-ms" (VNum 4000) 250;
  blockRange ← number "block-range" (VNum 2000) 1;
  reorgLookback ← number "reorg-lookback" (VNum 32) 1;
  eventConfirmations ← number "event-confirmations" (VNum 2) 0;
  replacementMs ← number "replacement-ms" (VNum 45000) 5000;
  replacementAttempts ← number "replacement-attempts" (VNum 3) 1;
  archiveAfterBlocks ← number "archive-after-blocks" (VNum 128) 1;
  _ ← require (archiveAfterBlocks <? 256) "--archive-after-blocks must be below 256";
  Ok {| ln_deploymentBlock := deploymentBlock; ln_pollMs := pollMs; ln_blockRange := blockRange;
        ln_reorgLookback := reorgLookback; ln_eventConfirmations := eventConfirmations;
        ln_replacementMs := replacementMs; ln_replacementAttempts := replacementAttempts;
        ln_archiveAfterBlocks := archiveAfterBlocks |}.

(** What [runServicePostgres] reads of the options.  The product is that of doubles,
    which is exact below 2^53. *)
Record database_numbers := {
  dn_instanceId : string; dn_scanLeaseSeconds : Z; dn_requestLeaseSeconds : Z; dn_workLimit : Z;
  dn_maximumConnections : Z
}.
Definition ceil_div (a b : Z) : Z := - ((- a) / b).
Definition minimumRequestLeaseSeconds (replacementMs replacementAttempts : Z) : Z :=
  ceil_div (2 * replacementMs * replacementAttempts) 1000 + 60.
Definition databaseNumbers (o : value) (n : loop_numbers) : result database_numbers :=
  let number k fallback := positiveInteger (prop_opt o k) k fallback 1 in
  scanLeaseSeconds ← number "scan-lease-seconds" (VNum 60);
  requestLeaseSeconds ← number "request-lease-seconds" (VNum 360);
  let minimum := minimumRequestLeaseSeconds (ln_replacementMs n) (ln_replacementAttempts n) in
  _ ← require (minimum <=? requestLeaseSeconds)
        ("--request-lease-seconds must be at least " +:+ print_int minimum
         +:+ " for the replacement policy");
  workLimit ← number "work-limit" (VNum 25);
  maximumConnections ← number "database-pool-size" (VNum 10);
  Ok {| dn_instanceId := default host (option_text o "instance-id");
        dn_scanLeaseSeconds := scanLeaseSeconds; dn_requestLeaseSeconds := requestLeaseSeconds;
        dn_workLimit := workLimit; dn_maximumConnections := maximumConnections |}.

Definition ROBINHOOD : list Z := [46630; 4663].

(** The options of the loop; the leases and the work limit are those of a database. *)
Definition loop_options (n : loop_numbers) (d : database_numbers) (i : operator_identity)
    (relayer : string) (rpcUrls : list string) : service_options := {|
  sv_instanceId := dn_instanceId d; sv_relayer := relayer; sv_keyHash := keyHash i; sv_identity := i;
  sv_rpcProviders := rpcUrls; sv_blockRange := ln_blockRange n; sv_reorgLookback := ln_reorgLookback n;
  sv_eventConfirmations := ln_eventConfirmations n; sv_scanLeaseSeconds := dn_scanLeaseSeconds d;
  sv_requestLeaseSeconds := dn_requestLeaseSeconds d; sv_workLimit := Z.to_nat (dn_workLimit d);
  sv_replacementMs := ln_replacementMs n; sv_replacementAttempts := ln_replacementAttempts n;
  sv_archiveAfterBlocks := ln_archiveAfterBlocks n |}.
Definition no_database : database_numbers := {|
  dn_instanceId := ""; dn_scanLeaseSeconds := 0; dn_requestLeaseSeconds := 0; dn_workLimit := 0;
  dn_maximumConnections := 0 |}.

(** [run-v2], up to its loop. *)
Definition runService (options : value) : eff nat service_plan :=
  o ← eff_lift (start_options options);
  report ← (if strict_eq (prop_opt o "readiness") (VStr "true")
            then r ← checkReadiness e files o; mret (Some r) else mret None);
  _ ← eff_require (truthy (prop_opt o "rpc-urls") && truthy (prop_opt o "coordinator"))
        "--rpc-urls and --coordinator are required";
  _ ← eff_require (modes_configured o =? 1)
        "configure exactly one of --keystore, --prover-url, or --threshold-manifest";
  _ ← eff_require (xorb (truthy (prop_opt o "state")) (truthy (prop_opt o "database-url")))
        "configure exactly one of --state or --database-url";
  relayerKey ← eff_lift (readSecret e "VRF_TX_PRIVATE_KEY" true);
  n ← eff_lift (loopNumbers o);
  let allowSharedRpcOrigin :=
    allow_shared_origin e && negb (truthy (prop_opt o "threshold-manifest")) in
  rpcUrls ← eff_lift (normalizeRpcUrls (prop_opt o "rpc-urls")
    {| minimum := 1; label := "operator"; allowSharedOrigin := allowSharedRpcOrigin |});
  provider_options ← eff_lift (provider_options_of e files o
    (positiveInteger (prop_opt o "prover-timeout-ms") "prover-timeout-ms" (VNum 15000) 100)
    (strict_eq (prop_opt o "threshold-allow-loopback") (VStr "true")));
  proofProvider ← createProofProvider provider_options;
  chainId ← call (λ k, fb_chainId k rpcUrls);
  _ ← eff_require (negb allowSharedRpcOrigin || (chainId =? TESTNET))
        "shared RPC origin override is permitted only on Robinhood testnet";
  let robinhood := bool_decide (chainId ∈ ROBINHOOD) in
  _ ← eff_require (negb (robinhood && bool_decide (length rpcUrls < 2)%nat))
        "Robinhood service operation requires at least two independent RPC endpoints";
  _ ← eff_require (negb (robinhood && negb (truthy (prop_opt o "database-url"))))
        "Robinhood service operation requires PostgreSQL persistence";
  relayer ← eff_lift (wallet_address (default "" relayerKey));
  _ ← eff_require (separate_keys proofProvider relayer)
        "proof key and relayer transaction key must be different";
  coordinator ← eff_lift (to_lower (prop_opt o "coordinator"));
  blockhashStore ← call (λ k, fb_blockhashStore k rpcUrls coordinator);
  key ← call (λ k, fb_key k rpcUrls coordinator (provider_keyHash proofProvider));
  _ ← eff_require (bool_decide (lower (k_fulfiller key) = lower relayer))
        ("relayer " +:+ relayer +:+ " is not the configured fulfiller " +:+ k_fulfiller key);
  let i := {| chainId := print_int chainId; coordinator := coordinator;
              keyHash := provider_keyHash proofProvider; deploymentBlock := ln_deploymentBlock n |} in
  let plan d p := {|
    sp_options := loop_options n d i relayer rpcUrls; sp_pollMs := ln_pollMs n; sp_persistence := p;
    sp_provider := proofProvider; sp_blockhashStore := blockhashStore; sp_report := report |} in
  if truthy (prop_opt o "database-url") then
    d ← eff_lift (databaseNumbers o n);
    mret (plan d (Database (prop_opt o "database-url") (dn_maximumConnections d)))
  else mret (plan no_database (StateFile (prop_opt o "state"))).
End start.
