(* ===== verification/ServiceStartSafety.v ===== *)
(** * What a started service is ([cli.mjs])

    The work on one claimed request sends at most two transactions with their
    attempts, which the lease of a service that starts has the time for; and what
    the checks of a start establish. *)

From S2P Require Import Prelude Js Hex CanonicalJson Vendor ThresholdNode Policies OperatorStore StoreLeases Scanner ErrorText Relayer Samples RelayerSafety Service ServiceSafety Ecvrf EcvrfSample ProofProvider ProverSafety CommandLine Archiver Readiness ServiceStart.

Open Scope Z_scope.

(** ** How many transactions the work on a request sends *)

Section sends.
Context `{Ethers, Network, ServiceApi}.
Implicit Types w : relay_world.

(** At most [k] transactions were broadcast from [w] to [w']. *)
Definition sends (k : nat) (w w' : relay_world) : Prop :=
  ∃ sent, broadcasts w' = broadcasts w ++ sent ∧ (length sent <= k)%nat.

Lemma sends_same k w w' : same_broadcasts w w' → sends k w w'.
Proof. intros E. exists []. rewrite E, app_nil_r. split; [done|cbn; lia]. Qed.
Lemma sends_trans j k w1 w2 w3 : sends j w1 w2 → sends k w2 w3 → sends (j + k) w1 w3.
Proof.
  intros (s1 & E1 & L1) (s2 & E2 & L2). exists (s1 ++ s2). rewrite E2, E1, app_assoc, length_app. split; [done|lia].
Qed.
Lemma sends_mono j k w w' : (j <= k)%nat → sends j w w' → sends k w w'.
Proof. intros Hle (s & E & L). exists s. split; [done|lia]. Qed.

Lemma sends_bind {A B} j k (m : eff relay_world A) (f : A → eff relay_world B) w :
  wp m (λ _ w', sends j w w') w → (∀ a w', wp (f a) (λ _ w'', sends k w' w'') w') →
  wp (m ≫= f) (λ _ w', sends (j + k) w w') w.
Proof.
  intros Hm Hf. apply wp_bind. eapply wp_mono; [exact Hm|]. intros [a|e] w1 Hw1; cbn.
  - eapply wp_mono; [apply Hf|]. intros r w2 Hw2. by eapply sends_trans.
  - eapply sends_mono, Hw1. lia.
Qed.
Lemma sends_keeps {A} k (m : eff relay_world A) w : keeps same_broadcasts m → wp m (λ _ w', sends k w w') w.
Proof. intros Hm. apply sends_same, Hm. Qed.
(** What follows broadcasts nothing. *)
Lemma sends_then {A B} k (m : eff relay_world A) (f : A → eff relay_world B) w :
  wp m (λ _ w', sends k w w') w → (∀ a, keeps same_broadcasts (f a)) →
  wp (m ≫= f) (λ _ w', sends k w w') w.
Proof.
  intros Hm Hf. eapply wp_mono; [apply (sends_bind k 0); [exact Hm|]|].
  - intros a w'. by apply sends_keeps.
  - intros r w'. by rewrite Nat.add_0_r.
Qed.

Lemma same_on_store {A} (m : eff database A) : keeps same_broadcasts (on_store m).
Proof. intros w. unfold on_store. destruct (m _). done. Qed.
Lemma same_ask {A} (f : nat → result A) : keeps same_broadcasts (ask f).
Proof. by apply keeps_ask. Qed.
Lemma same_lift {A} (m : result A) : keeps same_broadcasts (eff_lift m).
Proof. by intros w. Qed.
Lemma same_throw {A} message : keeps same_broadcasts (eff_throw (A := A) message).
Proof. by intros w. Qed.
Lemma same_get : keeps same_broadcasts (eff_get (S := relay_world)).
Proof. by intros w. Qed.
Lemma same_now : keeps same_broadcasts now.
Proof. by intros w. Qed.
Lemma same_set_lost b : keeps same_broadcasts (set_lost b).
Proof. by intros w. Qed.
End sends.
#[local] Hint Resolve same_on_store same_ask same_lift same_throw same_get same_now same_set_lost : vrf.
#[local] Hint Extern 1 (keeps _ (mret _)) => apply (keeps_ret same_broadcasts) : vrf.
(** The steps of a computation that broadcasts nothing. *)
Ltac quietly :=
  repeat first [solve [auto with vrf]|apply (keeps_bind same_broadcasts); [|intros ?]|apply (keeps_forM same_broadcasts); intros ? _|case_match].

Section sends.
Context `{Ethers, Network, ServiceApi}.
Implicit Types w : relay_world.

Lemma find_mined_quiet ps nonce ts : keeps same_broadcasts (find_mined ps nonce ts).
Proof. induction ts as [|t ts IH]; cbn [find_mined]; unfold observe, eff_require; quietly. Qed.
Lemma reconcile_quiet i ps relayer : keeps same_broadcasts (reconcileRelayerTransactions i ps relayer).
Proof.
  unfold reconcileRelayerTransactions. quietly. unfold reconcileNonce. case_match.
  apply (keeps_bind same_broadcasts); [apply find_mined_quiet|]. intros ?. unfold eff_require. quietly.
Qed.
Lemma assertHeld_quiet name : keeps same_broadcasts (assertHeld name).
Proof. intros w. unfold assertHeld. destruct (lost w); [done|]. revert w. quietly. Qed.
Lemma record_info_quiet i o b : keeps same_broadcasts (record_info i o b).
Proof. unfold record_info. quietly. Qed.

Lemma sends_finally {A} k (m : eff relay_world A) f w :
  (∀ w', same_broadcasts w' (f w')) → wp m (λ _ w', sends k w w') w → wp (finally m f) (λ _ w', sends k w w') w.
Proof.
  unfold wp, finally. intros Hf. destruct (m w) as [r w']. cbn. intros (s & E & L). exists s. by rewrite Hf.
Qed.

(** A send makes at most its number of attempts. *)
Lemma sendWithReplacement_sends o w :
  quiet_callbacks o →
  wp (sendWithReplacement o) (λ _ w', sends (Z.to_nat (so_maximumAttempts o)) w w') w.
Proof.
  intros Hq. unfold sendWithReplacement.
  do 2 (apply (sends_bind 0); [by apply sends_keeps, same_ask|]; intros ? ?).
  apply wp_lift_bind; [|intros; by apply sends_same]. intros g _.
  apply wp_require_bind; [|intros; by apply sends_same]. intros Hg%negb_true_iff%Z.ltb_ge.
  apply (sends_bind 0); [apply sends_keeps; case_match; auto with vrf|]. intros nonce w3.
  eapply wp_mono; [by apply attempts_ladder|]. intros r w4 (m & Hm & E & _).
  exists (rung (so_request o) nonce ((a * 120) `quot` 100) g <$> seq 0 m).
  by rewrite E, length_fmap, length_seq.
Qed.

Lemma sendPostgresTransaction_sends i o w :
  jo_beforeBroadcast o = None →
  wp (sendPostgresTransaction i o) (λ _ w', sends (Z.to_nat (jo_maximumAttempts o)) w w') w.
Proof.
  intros Hb. unfold sendPostgresTransaction. apply sends_then; [|intros; quietly].
  unfold withRelayerNonceLock. apply (sends_bind 0); [by apply sends_keeps, same_set_lost|]. intros _ w1.
  apply (sends_bind 0); [by apply sends_keeps, same_on_store|]. intros [] w2; [|by apply sends_same].
  apply sends_finally; [intros w'; by destruct (lost w')|].
  apply (sends_bind 0); [apply sends_keeps, reconcile_quiet|]. intros _ w3.
  apply (sends_bind 0); [by apply sends_keeps, same_ask|]. intros nonce w4.
  apply (sendWithReplacement_sends (Build_send_options _ _ _ _ _ _ _ _ _)). split_and!; cbn.
  - intros f [= <-]. apply assertHeld_quiet.
  - by rewrite Hb.
  - intros f b [= <-]. apply record_info_quiet.
Qed.

(** The work on a request sends at most two transactions, each with its attempts. *)
Lemma processPending_sends o contextBlock pending w :
  wp (processPending o contextBlock pending)
    (λ _ w', sends (2 * Z.to_nat (sv_replacementAttempts o)) w w') w.
Proof.
  set (k := Z.to_nat (sv_replacementAttempts o)).
  assert (∀ id p kind tx w1, wp (send o id p kind tx) (λ _ w', sends k w1 w') w1) as Hsend.
  { intros. by apply sendPostgresTransaction_sends. }
  unfold processPending. apply wp_catch.
  enough (wp (tryPending o contextBlock (c_event pending)) (λ _ w', sends (2 * k) w w') w) as Ht.
  { eapply wp_mono; [exact Ht|]. intros [a|e] w1 Hw1; cbn beta iota; [done|].
    eapply wp_mono; [apply (sends_keeps 0)|intros r w2 Hw2; rewrite <-(Nat.add_0_r (2 * k)); by eapply sends_trans].
    unfold isFinalized, complete. apply (keeps_bind same_broadcasts); [|intros; quietly].
    apply (keeps_catch same_broadcasts); intros; quietly. }
  unfold tryPending. apply (sends_bind 0 (2 * k)); [by apply sends_keeps, same_ask|]. intros request w1.
  destruct (r_status request =? 1); [|apply sends_keeps, same_on_store].
  replace (2 * k)%nat with (k + k)%nat by lia. apply (sends_bind k k); [|intros _ w2].
  - unfold archiveBlockhash. destruct (_ <=? _); [|by apply sends_same].
    apply (sends_bind 0); [by apply sends_keeps, same_ask|]. intros stored w2.
    destruct (bool_decide _); [|by apply sends_same].
    apply (sends_bind 0); [by apply sends_keeps, same_ask|]. intros tx w3.
    apply sends_then; [apply Hsend|]. intros; quietly.
  - apply sends_then; [|intros; apply same_on_store]. unfold fulfill, readRequestConsensus.
    apply (sends_bind 0); [apply sends_keeps; quietly|]. intros st w3.
    apply (sends_bind 0); [by apply sends_keeps, same_ask|]. intros proofResult w4.
    apply (sends_bind 0); [by apply sends_keeps, same_ask|]. intros tx w5. apply Hsend.
Qed.
End sends.

(** ** What a started service is *)

Section started.
Context `{Ethers, NobleBls, !NodeCrypto, UrlApi, Secp256k1, HmacApi, HttpApi, WalletApi, ReadinessApi, FallbackApi}.
Context (e : environment) (files : file_system) (host : string).

Lemma loopNumbers_Ok o n :
  loopNumbers o = Ok n →
  0 <= ln_deploymentBlock n <= MAX_SAFE_INTEGER ∧ 250 <= ln_pollMs n ∧
  1 <= ln_blockRange n <= MAX_SAFE_INTEGER ∧ 1 <= ln_reorgLookback n <= MAX_SAFE_INTEGER ∧
  0 <= ln_eventConfirmations n <= MAX_SAFE_INTEGER ∧ 5000 <= ln_replacementMs n <= MAX_SAFE_INTEGER ∧
  1 <= ln_replacementAttempts n <= MAX_SAFE_INTEGER ∧ 1 <= ln_archiveAfterBlocks n < 256.
Proof.
  unfold loopNumbers. intros Hn.
  repeat (apply bind_Ok in Hn as (? & ?%positiveInteger_range & Hn)).
  apply bind_Ok in Hn as (? & Ha%require_Ok%Z.ltb_lt & [= <-]). cbn. lia.
Qed.

Lemma ceil_div_le a b : 0 < b → a <= b * ceil_div a b.
Proof. intros Hb. unfold ceil_div. pose proof (Z.mul_div_le (- a) b Hb). lia. Qed.

(** A lease covers twice the attempts of a send, with a minute to spare. *)
Lemma databaseNumbers_Ok o n d :
  databaseNumbers host o n = Ok d →
  2 * ln_replacementMs n * ln_replacementAttempts n + 60000 <= 1000 * dn_requestLeaseSeconds d ∧
  1 <= dn_scanLeaseSeconds d ∧ 1 <= dn_workLimit d ∧ 1 <= dn_maximumConnections d.
Proof.
  unfold databaseNumbers. intros Hd. apply bind_Ok in Hd as (? & Hscan%positiveInteger_range & Hd).
  apply bind_Ok in Hd as (lease & _ & Hd). apply bind_Ok in Hd as (? & Hm%require_Ok%Z.leb_le & Hd).
  apply bind_Ok in Hd as (? & Hwork%positiveInteger_range & Hd).
  apply bind_Ok in Hd as (? & Hmax%positiveInteger_range & [= <-]). cbn. unfold minimumRequestLeaseSeconds in Hm.
  pose proof (ceil_div_le (2 * ln_replacementMs n * ln_replacementAttempts n) 1000 ltac:(lia)). lia.
Qed.

(** What the options, the endpoints and the provider of a start satisfy. *)
Definition start_checked (plan : service_plan) : Prop :=
  let s := sp_options plan in
  ∃ o n d chain k1 k2 key parsed,
    loopNumbers o = Ok n ∧
    s = loop_options n d (sv_identity s) (sv_relayer s) (url_href <$> parsed) ∧
    deploymentBlock (sv_identity s) = ln_deploymentBlock n ∧ sp_pollMs plan = ln_pollMs n ∧
    match sp_persistence plan with
    | Database _ _ => databaseNumbers host o n = Ok d
    | StateFile _ => chain ∉ ROBINHOOD
    end ∧
    NoDup (url_href <$> parsed) ∧ parsed ≠ [] ∧ Forall admitted parsed ∧
    (chain ∈ ROBINHOOD → (2 <= length parsed)%nat) ∧ (chain ≠ TESTNET → NoDup (url_origin <$> parsed)) ∧
    fb_chainId k1 (sv_rpcProviders s) = Ok chain ∧ chainId (sv_identity s) = print_int chain ∧
    fb_key k2 (sv_rpcProviders s) (coordinator (sv_identity s)) (sv_keyHash s) = Ok key ∧
    lower (k_fulfiller key) = lower (sv_relayer s) ∧ sv_keyHash s = provider_keyHash (sp_provider plan) ∧
    separate_keys (sp_provider plan) (sv_relayer s) = true.

Lemma call_bind_Ok {A B} (f : nat → result A) (g : A → eff nat B) n b n' :
  (call f ≫= g) n = (Ok b, n') ↔ ∃ a, f n = Ok a ∧ g a (S n) = (Ok b, n').
Proof. unfold mbind, eff_bind, call. destruct (f n); naive_solver. Qed.

Lemma runService_checked options n plan n' :
  runService e files host options n = (Ok plan, n') → start_checked plan.
Proof.
  unfold runService. intros Hr. apply eff_lift_bind_Ok in Hr as (o & _ & Hr).
  apply eff_bind_Ok in Hr as (report & n1 & _ & Hr). do 3 apply eff_require_bind_Ok in Hr as [_ Hr].
  apply eff_lift_bind_Ok in Hr as (relayerKey & _ & Hr). apply eff_lift_bind_Ok in Hr as (ns & Hns & Hr).
  apply eff_lift_bind_Ok in Hr as (rpcUrls & Hurls & Hr). apply eff_lift_bind_Ok in Hr as (po & _ & Hr).
  apply eff_bind_Ok in Hr as (p & n2 & _ & Hr). apply call_bind_Ok in Hr as (chain & Hchain & Hr).
  apply eff_require_bind_Ok in Hr as [Hshared Hr]. apply eff_require_bind_Ok in Hr as [Htwo Hr].
  apply eff_require_bind_Ok in Hr as [Hdb Hr]. apply eff_lift_bind_Ok in Hr as (relayer & _ & Hr).
  apply eff_require_bind_Ok in Hr as [Hkeys Hr]. apply eff_lift_bind_Ok in Hr as (coordinator & _ & Hr).
  apply call_bind_Ok in Hr as (store & _ & Hr). apply call_bind_Ok in Hr as (key & Hkey & Hr).
  apply eff_require_bind_Ok in Hr as [Hf%bool_decide_eq_true Hr].
  apply normalizeRpcUrls_Ok in Hurls as (Hnd & Hmin & parsed & -> & Hadm & Horigin). cbn in Hmin, Horigin.
  rewrite length_fmap in Hmin. set (urls := url_href <$> parsed) in *.
  assert (parsed ≠ []) as Hne by (intros ->; cbn in Hmin; lia).
  assert (chain ∈ ROBINHOOD → (2 <= length parsed)%nat) as Htwo'.
  { intros Hin. rewrite (bool_decide_true (chain ∈ ROBINHOOD)) in Htwo by done. cbn in Htwo.
    apply negb_true_iff, bool_decide_eq_false in Htwo. unfold urls in Htwo. rewrite length_fmap in Htwo. lia. }
  assert (chain ≠ TESTNET → NoDup (url_origin <$> parsed)) as Hdistinct.
  { intros Hc. apply Horigin. apply orb_true_iff in Hshared as [Hs%negb_true_iff|Hs%Z.eqb_eq]; done. }
  destruct (truthy (prop_opt o "database-url")) eqn:Edb.
  - apply eff_lift_bind_Ok in Hr as (d & Hd & [= <- <-]).
    exists o, ns, d, chain, n2, (S (S n2)), key, parsed. by split_and!.
  - injection Hr as <- <-. exists o, ns, no_database, chain, n2, (S (S n2)), key, parsed. split_and!; try done.
    cbn. intros Hin. rewrite (bool_decide_true (chain ∈ ROBINHOOD)) in Hdb by done. by cbn in Hdb.
Qed.

Lemma separate_keys_apart p relayer a :
  separate_keys p relayer = true → provider_address p = Some a → a ≠ "" → lower a ≠ lower relayer.
Proof.
  unfold separate_keys. intros Hsep Ha Hn. rewrite Ha in Hsep. rewrite (bool_decide_false (a = "")) in Hsep by done.
  apply negb_true_iff, bool_decide_eq_false in Hsep. congruence.
Qed.

(** What a service that starts was checked for: its numbers are safe integers in
    their ranges; its endpoints are admitted, distinct and report its chain, of
    distinct origins but on the test network; on a Robinhood chain there are two or
    more and a database; and it sends with the key that the coordinator expects,
    which is not the proof key. *)
Theorem started_service_sound options n plan n' :
  runService e files host options n = (Ok plan, n') →
  let s := sp_options plan in
  (0 <= deploymentBlock (sv_identity s) <= MAX_SAFE_INTEGER ∧
   1 <= sv_blockRange s <= MAX_SAFE_INTEGER ∧ 1 <= sv_reorgLookback s <= MAX_SAFE_INTEGER ∧
   0 <= sv_eventConfirmations s <= MAX_SAFE_INTEGER ∧ 1 <= sv_archiveAfterBlocks s < 256 ∧
   5000 <= sv_replacementMs s ∧ 1 <= sv_replacementAttempts s ∧ 250 <= sp_pollMs plan) ∧
  (∃ parsed k chain, sv_rpcProviders s = url_href <$> parsed ∧ NoDup (sv_rpcProviders s) ∧
     Forall admitted parsed ∧ fb_chainId k (sv_rpcProviders s) = Ok chain ∧
     chainId (sv_identity s) = print_int chain ∧ (chain ≠ TESTNET → NoDup (url_origin <$> parsed)) ∧
     (chain ∈ ROBINHOOD → (2 <= length parsed)%nat ∧ ∃ url c, sp_persistence plan = Database url c)) ∧
  (∃ k key, fb_key k (sv_rpcProviders s) (coordinator (sv_identity s)) (provider_keyHash (sp_provider plan))
              = Ok key ∧ lower (k_fulfiller key) = lower (sv_relayer s)) ∧
  ∀ a, provider_address (sp_provider plan) = Some a → a ≠ "" → lower a ≠ lower (sv_relayer s).
Proof.
  intros Hr%runService_checked. destruct Hr as (o & ns & d & chain & k1 & k2 & key & parsed & Hr).
  destruct Hr as (Hns%loopNumbers_Ok & Es & Edep & Epoll & Hp & Hnd & Hne & Hadm & Htwo & Horigin & Hr).
  destruct Hr as (Hchain & Eid & Hkey & Hf & Ekey & Hsep).
  assert (sv_rpcProviders (sp_options plan) = url_href <$> parsed) as Eurls by (by rewrite Es).
  split; [|split; [|split]].
  - rewrite Edep, Epoll, Es. cbn. lia.
  - exists parsed, k1, chain. rewrite Eurls in *. split_and!; try done. intros Hin. split; [by apply Htwo|].
    destruct (sp_persistence plan) as [|url c]; [done|by exists url, c].
  - exists k2, key. by rewrite <-Ekey.
  - intros a Ha. by apply (separate_keys_apart (sp_provider plan)).
Qed.

Context `{Network, ServiceApi}.

End started.

(** ** A start on the small curve *)
Section examples.
#[local] Existing Instances sample_ethers sample_bls sample_crypto sample_url toy_wallet.
#[local] Instance idle_http : HttpApi := {| http _ _ := NoAnswer "offline" |}.
Definition toy_key_config (fulfiller : string) : key_config := {|
  k_verifier := "0x"; k_verifierCodeHash := "0x"; k_fulfiller := fulfiller; k_payee := "0x";
  k_proofDataLength := 416; k_exists := true; k_active := true |}.
#[local] Instance no_readiness : ReadinessApi := {|
  rd_chainId _ _ := Throw ""; rd_blockNumber _ _ := Throw ""; rd_code _ _ _ := Throw "";
  rd_balance _ _ _ := Throw ""; rd_text _ _ _ _ := Throw ""; rd_number _ _ _ _ := Throw "";
  rd_key _ _ _ _ := Throw ""; rd_serverVersion _ _ := Throw ""; wallet_address _ := Ok "0xAE";
  parseEther _ := Throw ""; formatEther _ := ""; search_param _ _ := VNull |}.
#[local] Instance toy_fallback : FallbackApi := {|
  fb_chainId _ _ := Ok 46630; fb_blockhashStore _ _ _ := Ok "0xB5"; fb_key _ _ _ _ := Ok (toy_key_config "0xae") |}.

Definition toy_environment : environment := {|
  env name := if bool_decide (name ∈ ["VRF_KEY_PASSWORD"; "VRF_TX_PRIVATE_KEY"]) then Some "secret" else None;
  lstat _ := Throw "ENOENT"; read_file _ := Throw "ENOENT" |}.
Definition toy_files : file_system := {|
  read_json _ := Ok (VObj [("format", VStr "proof-vrf-keystore-v1"); ("encryptedKey", VObj [])]);
  read_bytes _ := Throw "ENOENT" |}.
Definition toy_arguments : list string :=
  ["run-v2"; "--rpc-urls"; "https://a,https://b"; "--coordinator"; "0xCC"; "--keystore"; "key.json";
   "--database-url"; "postgresql://db"; "--from-block"; "100"; "--replacement-ms"; "6e4"; "--instance-id"; "node-1"].
Definition toy_start (argv : list string) : result service_plan * nat :=
  match parseArgs argv with
  | Ok arguments => runService toy_environment toy_files "host:1:0" (options arguments) 0%nat
  | Throw message => (Throw message, 0%nat)
  end.

(** The default lease is below the minimum for replacements after a minute. *)
Example lease_too_short :
  (toy_start (toy_arguments ++ ["--work-limit"; "5"])).1
  = Throw "--request-lease-seconds must be at least 420 for the replacement policy".
Proof. vm_refl. Qed.
Example two_stores :
  (toy_start (toy_arguments ++ ["--state"; "state.json"])).1
  = Throw "configure exactly one of --state or --database-url".
Proof. vm_refl. Qed.

Definition toy_argv : list string := toy_arguments ++ ["--request-lease-seconds"; " 420 "].
Definition toy_plan_options : service_options :=
  match (toy_start toy_argv).1 with Ok plan => sp_options plan | Throw _ => sample_options end.
Lemma toy_started :
  ∃ a plan, parseArgs toy_argv = Ok a ∧ toy_plan_options = sp_options plan ∧
    sp_persistence plan = Database (VStr "postgresql://db") 10 ∧
    runService toy_environment toy_files "host:1:0" (options a) 0%nat = (Ok plan, (toy_start toy_argv).2).
Proof.
  unfold toy_plan_options. assert (is_ok (toy_start toy_argv).1 = true) as Hok by vm_refl.
  assert ((sp_persistence <$> (toy_start toy_argv).1) = Ok (Database (VStr "postgresql://db") 10)) as Hp by vm_refl.
  assert (is_ok (parseArgs toy_argv) = true) as [a Ea]%is_ok_true by vm_refl.
  exists a. unfold toy_start in *. rewrite Ea in *. destruct (runService _ _ _ _ _) as [[plan|message] n']; [|discriminate Hok].
  injection Hp as Hp. exists plan. split; [done|]. split; [done|]. split; [exact Hp|reflexivity].
Qed.

Lemma started_service_sound_witness :
  sv_replacementMs toy_plan_options = 60000 ∧
  (∃ parsed, sv_rpcProviders toy_plan_options = url_href <$> parsed ∧ NoDup (sv_rpcProviders toy_plan_options)).
Proof.
  split; [vm_refl|]. destruct toy_started as (a & plan & _ & -> & _ & Hr).
  destruct (started_service_sound toy_environment toy_files "host:1:0" _ _ _ _ Hr)
    as (_ & (parsed & k & chain & E & Hnd & _) & _). exists parsed. split; [exact E|exact Hnd].
Defined.

End examples.
