(* ===== verification/ReadinessSafety.v ===== *)
(** * What a readiness report says ([readiness.mjs]) *)

From S2P Require Import Prelude Js Hex CanonicalJson Vendor Policies Samples Ecvrf EcvrfSample ErrorText ProofProvider ProverSafety CommandLine Archiver Readiness ServiceStart ServiceStartSafety.

Open Scope Z_scope.

Lemma foldl_max_bound l x y : y ∈ x :: l → y <= foldl Z.max x l.
Proof.
  revert x y. induction l as [|z l IH]; intros x y Hy; cbn [foldl].
  - apply list_elem_of_singleton in Hy as ->. done.
  - rewrite !elem_of_cons in Hy. destruct Hy as [->|[->|Hy]]; [| |apply IH; set_solver].
    + specialize (IH (Z.max x z) (Z.max x z) ltac:(set_solver)). lia.
    + specialize (IH (Z.max x z) (Z.max x z) ltac:(set_solver)). lia.
Qed.
Lemma foldl_min_bound l x y : y ∈ x :: l → foldl Z.min x l <= y.
Proof.
  revert x y. induction l as [|z l IH]; intros x y Hy; cbn [foldl].
  - apply list_elem_of_singleton in Hy as ->. done.
  - rewrite !elem_of_cons in Hy. destruct Hy as [->|[->|Hy]]; [| |apply IH; set_solver].
    + specialize (IH (Z.min x z) (Z.min x z) ltac:(set_solver)). lia.
    + specialize (IH (Z.min x z) (Z.min x z) ltac:(set_solver)). lia.
Qed.
Lemma list_extremes l h : h ∈ l → list_min l <= h <= list_max l.
Proof. destruct l as [|x l]; [by intros ?%elem_of_nil|]. split; [by apply foldl_min_bound|by apply foldl_max_bound]. Qed.

Section readiness.
Context `{Ethers, NobleBls, !NodeCrypto, UrlApi, Secp256k1, HmacApi, HttpApi, WalletApi, ReadinessApi}.
Context (e : environment) (files : file_system).

Lemma endpointState_Ok chain url n h n' :
  endpointState chain url n = (Ok h, n') →
  ∃ i j, rd_chainId i url = Ok chain ∧ rd_blockNumber j url = Ok h.
Proof.
  unfold endpointState. intros (c & Hc & Hr)%call_bind_Ok. apply call_bind_Ok in Hr as (h' & Hh & Hr).
  apply eff_require_bind_Ok in Hr as [->%Z.eqb_eq [= <- <-]]. eauto.
Qed.

Lemma heads_Ok chain urls n heads n' :
  mapM (endpointState chain) urls n = (Ok heads, n') →
  Forall2 (λ url h, ∃ i j, rd_chainId i url = Ok chain ∧ rd_blockNumber j url = Ok h) urls heads.
Proof.
  revert n heads. induction urls as [|url urls IH]; intros n heads; cbn; [intros [= <- <-]; constructor|].
  intros (h & n1 & Hh%endpointState_Ok & Hr)%eff_bind_Ok. apply eff_bind_Ok in Hr as (hs & n2 & Hhs & [= <- <-]).
  constructor; [done|]. by eapply IH.
Qed.

(** The endpoints agree on the chain and are near each other and past the deployment. *)
Definition endpoints_ready (chain deploymentBlock : Z) (p : rpc_endpoints) : Prop :=
  NoDup (ep_urls p) ∧
  Forall2 (λ url h, ∃ i j, rd_chainId i url = Ok chain ∧ rd_blockNumber j url = Ok h) (ep_urls p) (ep_heads p) ∧
  (∀ h h', h ∈ ep_heads p → h' ∈ ep_heads p → deploymentBlock <= h ∧ h - h' <= 8).

Lemma readinessEndpoints_Ok o deploymentBlock chain n p n' :
  readinessEndpoints e o deploymentBlock chain n = (Ok p, n') → endpoints_ready chain deploymentBlock p.
Proof.
  unfold readinessEndpoints. intros (m & _ & Hr)%eff_lift_bind_Ok. apply eff_lift_bind_Ok in Hr as (s & _ & Hr).
  apply eff_lift_bind_Ok in Hr as (urls & Hurls & Hr). apply eff_bind_Ok in Hr as (heads & n1 & Hh%heads_Ok & Hr).
  apply eff_require_bind_Ok in Hr as [Hd%Z.leb_le Hr]. apply eff_require_bind_Ok in Hr as [Hb%Z.leb_le [= <- <-]].
  apply normalizeRpcUrls_Ok in Hurls as (Hnd & _). split; [done|]. split; [done|]. cbn.
  intros h h' Hin%list_extremes Hin'%list_extremes. lia.
Qed.

Lemma integerAtLeast_range v name fallback minimum n :
  integerAtLeast v name fallback minimum = Ok n → minimum <= n.
Proof.
  unfold integerAtLeast. intros (m & _ & Hn)%bind_Ok. by apply bind_Ok in Hn as (? & Hm%require_Ok%Z.leb_le & [= <-]).
Qed.

Lemma readinessDatabase_Ok databaseUrl n v n' : readinessDatabase databaseUrl n = (Ok v, n') → 140000 <= v.
Proof.
  unfold readinessDatabase. intros (u & _ & Hr)%eff_lift_bind_Ok. apply call_bind_Ok in Hr as (a & _ & Hr).
  apply eff_lift_bind_Ok in Hr as (w & _ & Hr). by apply eff_require_bind_Ok in Hr as [Hv%Z.leb_le [= <- <-]].
Qed.

Lemma readContracts_key url coordinator keyHash relayer n s n' :
  readContracts url coordinator keyHash relayer n = (Ok s, n') →
  ∃ k, rd_key k url coordinator keyHash = Ok (ct_key s).
Proof.
  unfold readContracts. intros Hr. do 6 (apply call_bind_Ok in Hr as (? & _ & Hr)).
  apply call_bind_Ok in Hr as (key & Hk & Hr). do 12 (apply call_bind_Ok in Hr as (? & _ & Hr)).
  injection Hr as <- <-. by eexists.
Qed.

(** The contracts are deployed as they were pinned, owned by a timelock of half a day
    with its own owner, and four roles are apart. *)
Record contracts_ready (s : contract_state) (relayer : string) : Prop := {
  cr_deployed : Forall (λ code, code ≠ []) [ct_ownerCode s; ct_governanceSafeCode s; ct_blockhashCode s;
    ct_blockContextCode s; ct_l1Code s; ct_verifierCode s];
  cr_verifier : keccak256 (ct_verifierCode s) = k_verifierCodeHash (ct_key s);
  cr_l1 : keccak256 (ct_l1Code s) = ct_pinnedL1CodeHash s;
  cr_context : keccak256 (ct_blockContextCode s) = ct_pinnedBlockContextCodeHash s;
  cr_delay : 43200 <= ct_timelockDelay s ∧ ct_minimumTimelockDelay s <= ct_timelockDelay s;
  cr_settled : ct_pendingOwner s = ZERO_OWNER;
  cr_key : k_exists (ct_key s) = true ∧ k_active (ct_key s) = true ∧ k_proofDataLength (ct_key s) = 416;
  cr_fulfiller : lower (k_fulfiller (ct_key s)) = lower relayer;
  cr_roles : NoDup (roles s)
}.

Lemma has_code_true code : has_code code = true ↔ code ≠ [].
Proof. unfold has_code. by rewrite negb_true_iff, bool_decide_eq_false. Qed.

Lemma prop_or_option o k v k' : k' ≠ k → prop_opt (or_option o k v) k' = prop_opt o k'.
Proof.
  intros Hne. unfold or_option. destruct o; try done. destruct (truthy _); [done|]. cbn.
  by rewrite assoc_assoc_set_ne.
Qed.

Lemma checkContracts_Ok o relayer s :
  checkContracts o relayer s = Ok tt →
  contracts_ready s relayer ∧
  ∃ minimum, minimumRelayerBalance (prop_opt o "minimum-relayer-balance-eth") = Ok minimum ∧
    minimum <= ct_relayerBalance s.
Proof.
  unfold checkContracts. intros Hc.
  do 11 (apply bind_Ok in Hc as (? & ?%require_Ok & Hc)).
  apply bind_Ok in Hc as (minimum & Hm & Hb%require_Ok). reflect_bool_hyps.
  rewrite !has_code_true in *. split; [|by exists minimum].
  split; try done. repeat constructor; done.
Qed.

(** The expected chain has a default only on the command line of the check itself:
    options without it, as [run-v2] may pass them, get no report. *)
Lemma readiness_needs_chain options n :
  prop_opt options "expected-chain-id" = VUndef → is_ok (checkReadiness e files options n).1 = false.
Proof.
  intros Hu. destruct (checkReadiness e files options n) as [[r|m] n'] eqn:E; [|done]. exfalso.
  unfold checkReadiness in E. apply eff_lift_bind_Ok in E as (? & _ & E). apply eff_lift_bind_Ok in E as (? & _ & E).
  apply eff_lift_bind_Ok in E as (? & Hc & _). rewrite Hu in Hc. discriminate Hc.
Qed.

(** A readiness report is given only for endpoints that agree on the expected
    chain, lie within eight blocks of each other and past the deployment; a database
    of version 14 or later; a coordinator whose dependencies are the pinned ones, as
    its key was found under the hash of the proof provider; and a relayer with the
    minimum balance that is the fulfiller, no other role, and not the proof key. *)
Theorem readiness_sound options n r n' :
  checkReadiness e files options n = (Ok r, n') →
  to_bigint (prop_opt options "expected-chain-id") = Ok (rr_chainId r) ∧
  endpoints_ready (rr_chainId r) (rr_deploymentBlock r) (rr_endpoints r) ∧
  0 <= rr_deploymentBlock r ∧ 140000 <= rr_postgresVersion r ∧
  contracts_ready (rr_contracts r) (rr_relayer r) ∧
  (∃ url k, head (ep_urls (rr_endpoints r)) = Some url ∧
     rd_key k url (rr_coordinator r) (provider_keyHash (rr_provider r)) = Ok (ct_key (rr_contracts r))) ∧
  (∃ minimum, minimumRelayerBalance (prop_opt options "minimum-relayer-balance-eth") = Ok minimum ∧
     minimum <= ct_relayerBalance (rr_contracts r)) ∧
  (∀ a, provider_address (rr_provider r) = Some a → a ≠ "" → lower a ≠ lower (rr_relayer r)).
Proof.
  unfold checkReadiness. intros (coordinator & _ & Hr)%eff_lift_bind_Ok.
  apply eff_lift_bind_Ok in Hr as (block & Hb%integerAtLeast_range & Hr). apply eff_lift_bind_Ok in Hr as (chain & Hc & Hr).
  apply eff_bind_Ok in Hr as (rpc & n1 & Hrpc%readinessEndpoints_Ok & Hr).
  apply eff_lift_bind_Ok in Hr as (url & Hurl%from_option_or_Ok & Hr). apply eff_lift_bind_Ok in Hr as (db & _ & Hr).
  apply call_bind_Ok in Hr as (code & _ & Hr). apply eff_require_bind_Ok in Hr as [_ Hr].
  apply eff_bind_Ok in Hr as (version & n2 & Hv%readinessDatabase_Ok & Hr).
  apply eff_require_bind_Ok in Hr as [_ Hr]. apply eff_lift_bind_Ok in Hr as (po & _ & Hr).
  apply eff_bind_Ok in Hr as (p & n3 & _ & Hr). apply eff_lift_bind_Ok in Hr as (key & _ & Hr).
  apply eff_lift_bind_Ok in Hr as (relayer & _ & Hr). apply eff_require_bind_Ok in Hr as [Hsep Hr].
  apply eff_bind_Ok in Hr as (s & n4 & Hs%readContracts_key & Hr).
  apply eff_lift_bind_Ok in Hr as ([] & [Hready Hmin]%checkContracts_Ok & Hr).
  apply eff_lift_bind_Ok in Hr as (count & _ & [= <- <-]). cbn.
  destruct Hs as [k Hk]. rewrite prop_or_option in Hmin by done. split_and!; try done; [eauto..|].
  intros a Ha. by apply (separate_keys_apart p).
Qed.
End readiness.

(** ** A report on the small curve *)
Section examples.
#[local] Existing Instances sample_ethers sample_bls sample_crypto toy_wallet idle_http.

#[local] Instance ready_url : UrlApi := {|
  parse_url s :=
    if starts_with "postgresql://" s then
      Some {| url_protocol := "postgresql:"; url_hostname := "db"; url_username := ""; url_password := "";
              url_hash := ""; url_href := s; url_origin := "null" |}
    else sample_parse_url s |}.
Definition code_at (address : string) : bytes := chars address.
Definition toy_views (contract f : string) : string :=
  if bool_decide (f = "pendingOwner") then ZERO_OWNER
  else if bool_decide (f = "l1FeeCalculatorCodeHash") then keccak256 (code_at "l1FeeCalculator")
  else if bool_decide (f = "blockContextCodeHash") then keccak256 (code_at "blockContext")
  else if bool_decide (f = "owner" ∧ contract = "owner") then "safe" else f.
#[local] Instance toy_readiness : ReadinessApi := {|
  rd_chainId _ _ := Ok 46630;
  rd_blockNumber n url := Ok (if bool_decide (url = "https://a/") then 205 else 200);
  rd_code _ _ address := Ok (code_at address); rd_balance _ _ _ := Ok 7;
  rd_text _ _ contract f := Ok (toy_views contract f); rd_number _ _ _ _ := Ok 43200;
  rd_key _ _ _ _ := Ok {| k_verifier := "verifier"; k_verifierCodeHash := keccak256 (code_at "verifier");
    k_fulfiller := "0xae"; k_payee := "payee"; k_proofDataLength := 416; k_exists := true; k_active := true |};
  rd_serverVersion _ _ := Ok (VStr "160003"); wallet_address _ := Ok "0xAE";
  parseEther v := Ok 5; formatEther := print_int; search_param _ _ := VStr "require" |}.

Definition ready_environment : environment := {|
  env name :=
    if bool_decide (name ∈ ["VRF_KEY_PASSWORD"; "VRF_TX_PRIVATE_KEY"]) then Some "secret"
    else if bool_decide (name = "VRF_RPC_URLS") then Some "https://a, https://b"
    else if bool_decide (name = "VRF_DATABASE_URL") then Some "postgresql://db" else None;
  lstat _ := Throw "ENOENT"; read_file _ := Throw "ENOENT" |}.
Definition ready_options : value := VObj
  [("coordinator", VStr ("0x" +:+ of_chars (replicate 40 "c"%char))); ("from-block", VStr "100");
   ("expected-chain-id", VStr "46630"); ("keystore", VStr "key.json")].
Definition ready_run : result readiness_report * nat :=
  checkReadiness ready_environment toy_files ready_options 0%nat.

Lemma readiness_sound_witness :
  ∃ r, ready_run.1 = Ok r ∧ ep_heads (rr_endpoints r) = [205; 200] ∧ rr_independent r = true ∧
    endpoints_ready (rr_chainId r) (rr_deploymentBlock r) (rr_endpoints r) ∧
    contracts_ready (rr_contracts r) (rr_relayer r).
Proof.
  assert (is_ok ready_run.1 = true) as Hok by vm_refl.
  assert (((λ r, (ep_heads (rr_endpoints r), rr_independent r)) <$> ready_run.1) = Ok ([205; 200], true)) as Hh by vm_refl.
  destruct ready_run as [[r|m] n'] eqn:E; [|discriminate Hok]. injection Hh as Hh Hi. exists r.
  destruct (readiness_sound ready_environment toy_files ready_options 0%nat r n' E) as (_ & He & _ & _ & Hc & _).
  split; [reflexivity|]. split; [exact Hh|]. split; [exact Hi|]. split; [exact He|exact Hc].
Defined.
End examples.
