(* ===== verification/Health.v ===== *)
(** * The loops of the service and their health record ([cli.mjs], [healthcheck.mjs])

    Each turn of a loop ends with a record of its health: what it saw, or the error
    that it ended with.  The health check reads the record.  A write of the record
    that fails, and what the loops print, are not modelled. *)

From S2P Require Import Prelude Js Hex CanonicalJson JsonText Vendor ThresholdNode Policies OperatorStore Scanner ErrorText Relayer Service FileService CommandLine Readiness.

Open Scope Z_scope.

(** [Date.now], in milliseconds, after a number of calls, and [toISOString]. *)
Class ClockApi := { date_now : nat → Z; iso_string : Z → string }.
Definition MAX_DATE : Z := 8640000000000000.
Class ClockLaws `{DateApi, ClockApi} : Prop := {
  date_parse_iso t : Z.abs t <= MAX_DATE → date_parse (VStr (iso_string t)) = Some t;
  date_now_range n : Z.abs (date_now n) <= MAX_DATE
}.

(** ** The loop *)

(** What a turn that ended well reports. *)
Record turn_report := {
  tr_head : Z; tr_cursor : Z; tr_pending : Z;
  tr_rest : list (string * value)        (* the other fields of the store's summary *)
}.
(** The world of a loop, and the health file. *)
Record loop_world (W : Type) := { lw_world : W; lw_health : option value }.
Arguments lw_world {W} _.
Arguments lw_health {W} _.
Arguments Build_loop_world {W} _ _.

Definition in_loop {W A} (m : eff W A) : eff (loop_world W) A := λ w,
  let '(r, v) := m (lw_world w) in (r, {| lw_world := v; lw_health := lw_health w |}).
(** [if (healthPath) writeJsonAtomic(healthPath, record)] *)
Definition write_health {W} (healthPath record : value) : eff (loop_world W) unit :=
  if truthy healthPath
  then eff_modify (λ w, {| lw_world := lw_world w; lw_health := Some (reread record) |})
  else mret tt.

Section loop.
Context `{ClockApi} {W : Type}.
(** The turn of the loop, the calls made so far, what all records of the loop say of
    the operator, and what those of its errors do. *)
Context (turn : eff W turn_report) (calls_made : W → nat).
Context (identity problem_identity : list (string * value)).
Context (healthPath : value) (once : bool).

Definition updated_at (w : W) : string * value := ("updatedAt", VStr (iso_string (date_now (calls_made w)))).
Definition health_record (r : turn_report) (w : W) : value :=
  VObj (("status", VStr "healthy") :: identity
        ++ [("head", VNum (tr_head r)); ("cursor", VNum (tr_cursor r)); ("pending", VNum (tr_pending r))]
        ++ tr_rest r ++ [updated_at w]).
Definition problem_record (message : string) (w : W) : value :=
  VObj (("status", VStr "unhealthy") :: problem_identity ++ [("message", VStr message); updated_at w]).

(** One turn; whether the loop ends after it. *)
Definition loop_turn : eff (loop_world W) bool :=
  eff_catch
    (r ← in_loop turn;
     w ← eff_get;
     _ ← write_health healthPath (health_record r (lw_world w));
     mret once)
    (λ error,
     w ← eff_get;
     _ ← write_health healthPath (problem_record (thrown_message error) (lw_world w));
     if once then eff_throw error else mret false).

(** [for (;;)], for a number of turns. *)
Fixpoint service_loop (turns : nat) : eff (loop_world W) bool :=
  match turns with
  | O => mret false
  | S turns => stopped ← loop_turn; if (stopped : bool) then mret true else service_loop turns
  end.
End loop.

(** ** The two services *)

Section services.
Context `{Ethers, Network, ServiceApi, EventsApi, KeyOrder, ClockApi} (o : service_options).
(** [network.chainId.toString()] is the chain of the identity. *)
Definition postgres_identity (proofMode : string) : list (string * value) := [
  ("mode", VStr "service-v2-postgres"); ("instanceId", VStr (sv_instanceId o));
  ("chainId", VStr (chainId (sv_identity o))); ("coordinator", VStr (coordinator (sv_identity o)));
  ("keyHash", VStr (sv_keyHash o)); ("proofProvider", VStr proofMode)].
Definition postgres_report (t : Z * store_summary) : turn_report := {|
  tr_head := t.1; tr_cursor := cursor t.2; tr_pending := pending t.2;
  tr_rest := [("oldestRequestBlock", match oldestRequestBlock t.2 with Some b => VNum b | None => VNull end)] |}.
Definition postgres_turn : eff relay_world turn_report := t ← serviceTurn o; mret (postgres_report t).
(** The loop starts when the summary of the store can be read. *)
Definition postgresService (proofMode : string) (healthPath : value) (once : bool) (turns : nat)
    : eff (loop_world relay_world) bool :=
  w ← eff_get;
  _ ← eff_lift (summary (sv_identity o) (store (lw_world w)));
  service_loop postgres_turn calls (postgres_identity proofMode) [("instanceId", VStr (sv_instanceId o))]
    healthPath once turns.

Definition file_identity : list (string * value) := [
  ("mode", VStr "service-v2"); ("chainId", VStr (chainId (sv_identity o)));
  ("coordinator", VStr (coordinator (sv_identity o))); ("keyHash", VStr (sv_keyHash o))].
Definition file_turn : eff file_world turn_report :=
  head ← fileTurn o;
  w ← eff_get;
  let s := in_memory (fw_state w) in
  mret {| tr_head := head; tr_cursor := s_cursor s; tr_pending := Z.of_nat (base.size (s_requests s)); tr_rest := [] |}.
Definition fileService (healthPath : value) (once : bool) (turns : nat) : eff (loop_world file_world) bool :=
  service_loop file_turn (λ w, calls (fw_relay w)) file_identity [] healthPath once turns.
End services.

(** ** The health check *)

Section healthcheck.
Context `{DateApi} (e : environment) (files : file_system).

(** What the command prints. *)
Definition healthcheck (o : value) (now : Z) : result value :=
  _ ← require (truthy (prop_opt o "file")) "--file is required";
  let path := to_str (prop_opt o "file") in
  maximumAgeSeconds ← (match to_number (match prop_opt o "maximum-age-seconds" with VUndef => VStr "30" | v => v end) with
                       | Some z => if 5 <=? z then Ok z else Throw "--maximum-age-seconds must be an integer of at least 5"
                       | None => Throw "--maximum-age-seconds must be an integer of at least 5"
                       end);
  metadata ← lstat e path;
  _ ← require (isFile metadata && negb (isSymbolicLink metadata)) "health file must be a regular file, not a symlink";
  payload ← read_json files path;
  ageSeconds ← validateHealth payload maximumAgeSeconds now;
  Ok (VObj [("status", VStr "healthy"); ("ageSeconds", VNum ageSeconds)]).
End healthcheck.
