(* ===== verification/HealthSafety.v ===== *)
(** * What the health file tells ([cli.mjs], [healthcheck.mjs]) *)

From S2P Require Import Prelude Js Hex CanonicalJson Json JsonText Vendor ThresholdNode Policies OperatorStore Scanner ErrorText Relayer RelayerSafety Service ServiceSafety FileService FileServiceSafety CommandLine Readiness Samples Health.

Open Scope Z_scope.

(** ** The health record *)
Section record.
Context `{DateApi}.

Definition countable (z : Z) : Prop := 0 <= z <= MAX_SAFE_INTEGER.
(** The numbers of a turn that the check takes. *)
Definition reportable (r : turn_report) : Prop :=
  countable (tr_head r) ∧ countable (tr_cursor r) ∧ countable (tr_pending r) ∧ tr_cursor r <= tr_head r + 1.
(** A record of a time, at a later one; a minute of drift is allowed. *)
Definition fresh (maximumAgeSeconds updatedAt now : Z) : Prop :=
  -60000 <= now - updatedAt <= maximumAgeSeconds * 1000.

Lemma require_ends {A} b m (k : unit → result A) :
  (∃ a, (require b m ≫= k) = Ok a) ↔ b = true ∧ ∃ a, k tt = Ok a.
Proof. destruct b; cbn; [naive_solver|]. split; [by intros [? [=]]|by intros [[=] _]]. Qed.
Lemma check_count_ends {A} payload field z (k : unit → result A) :
  prop_opt payload field = VNum z →
  (∃ a, (check_count payload field ≫= k) = Ok a) ↔ countable z ∧ ∃ a, k tt = Ok a.
Proof.
  intros E. unfold check_count. rewrite E, require_ends. unfold countable, safe_integer.
  rewrite andb_true_iff, !Z.leb_le. split; intros [? ?]; (split; [lia|done]).
Qed.

Lemma bind_bind {A B C} (m : result A) (f : A → result B) (g : B → result C) :
  ((m ≫= f) ≫= g) = (m ≫= λ x, f x ≫= g).
Proof. by destruct m. Qed.

(** The check takes exactly the fresh records of reportable turns. *)
Lemma validateHealth_exact payload maximumAgeSeconds now t c k r :
  truthy payload = true → prop_opt payload "status" = VStr "healthy" →
  date_parse (prop_opt payload "updatedAt") = Some t →
  prop_opt payload "coordinator" = VStr c → prop_opt payload "keyHash" = VStr k →
  hex_string 40 c = true → hex_string 64 k = true →
  prop_opt payload "head" = VNum (tr_head r) → prop_opt payload "cursor" = VNum (tr_cursor r) →
  prop_opt payload "pending" = VNum (tr_pending r) →
  (∃ age, validateHealth payload maximumAgeSeconds now = Ok age) ↔ fresh maximumAgeSeconds t now ∧ reportable r.
Proof.
  intros Ht Es Eu Ec Ek Hc Hk Eh Er Ep. unfold validateHealth. rewrite Ht, Es, Eu, Ec, Ek. cbn [to_str].
  rewrite Hc, Hk, require_ends. cbn [from_option_or mbind result_bind forM_]. rewrite !require_ends.
  rewrite !bind_bind, (check_count_ends _ _ _ _ Eh).
  rewrite (check_count_ends _ _ _ _ Er), (check_count_ends _ _ _ _ Ep).
  cbn [mbind result_bind]. rewrite require_ends, Er, Eh. unfold fresh, reportable. cbn [strict_eq andb].
  rewrite !Z.leb_le. naive_solver lia.
Qed.
End record.

(** ** The loop *)
Section loop.
Context `{ClockLaws} {W : Type} (turn : eff W turn_report) (calls_made : W → nat).
Context (identity problem_identity : list (string * value)) (healthPath : value) (once : bool).
#[local] Abbreviation loop_turn := (loop_turn turn calls_made identity problem_identity healthPath once).
#[local] Abbreviation service_loop := (service_loop turn calls_made identity problem_identity healthPath once).

(** A health check of the file that a loop left, with a maximum age. *)
Definition checks_file (e : environment) (files : file_system) (o : value) (file : option value) (maximumAgeSeconds : Z) : Prop :=
  truthy (prop_opt o "file") = true ∧
  to_number (match prop_opt o "maximum-age-seconds" with VUndef => VStr "30" | v => v end) = Some maximumAgeSeconds ∧
  5 <= maximumAgeSeconds ∧
  (∃ metadata, lstat e (to_str (prop_opt o "file")) = Ok metadata ∧ isFile metadata = true ∧ isSymbolicLink metadata = false) ∧
  read_json files (to_str (prop_opt o "file")) = from_option_or "ENOENT" file.
Lemma result_ends {A B} (m : result A) (f : A → B) : (∃ b, (a ← m; Ok (f a)) = Ok b) ↔ ∃ a, m = Ok a.
Proof. destruct m; cbn; naive_solver. Qed.
Lemma healthcheck_checks e files o payload maximumAgeSeconds now :
  checks_file e files o (Some payload) maximumAgeSeconds →
  healthcheck e files o now = (age ← validateHealth payload maximumAgeSeconds now;
                               Ok (VObj [("status", VStr "healthy"); ("ageSeconds", VNum age)])).
Proof.
  intros (Hf & Ha & Hm & (metadata & Hl & Hr & Hs) & Hp). unfold healthcheck.
  rewrite Hf, Ha, Hl, Hp, (proj2 (Z.leb_le _ _) Hm). cbn [require mbind result_bind]. by rewrite Hr, Hs.
Qed.
(** The file is that of the last turn, which came after some number of turns: it passes exactly while it is fresh, when the turn
    ended well with numbers that fit together, and never when the turn failed. *)
Definition tells (after : nat → loop_world W) (w' : loop_world W) : Prop :=
  ∃ n q, turn (lw_world (after n)) = (q, lw_world w') ∧
    match q with
    | Ok r => ∀ e files o maximumAgeSeconds now, checks_file e files o (lw_health w') maximumAgeSeconds →
        (∃ printed, healthcheck e files o now = Ok printed) ↔
        fresh maximumAgeSeconds (date_now (calls_made (lw_world w'))) now ∧ reportable r
    | Throw _ => ∀ e files o maximumAgeSeconds now, checks_file e files o (lw_health w') maximumAgeSeconds →
        healthcheck e files o now = Throw "operator is not healthy"
    end.

(** The record of a turn names the operator. *)
Definition identified : Prop := ∀ w r v, turn w = (Ok r, v) → ∃ c k,
  let payload := reread (health_record calls_made identity r v) in
  truthy payload = true ∧ prop_opt payload "status" = VStr "healthy" ∧
  prop_opt payload "updatedAt" = VStr (iso_string (date_now (calls_made v))) ∧
  prop_opt payload "coordinator" = VStr c ∧ prop_opt payload "keyHash" = VStr k ∧
  hex_string 40 c = true ∧ hex_string 64 k = true ∧
  prop_opt payload "head" = VNum (tr_head r) ∧ prop_opt payload "cursor" = VNum (tr_cursor r) ∧
  prop_opt payload "pending" = VNum (tr_pending r).

Lemma loop_turn_tells w : truthy healthPath = true → identified → tells (λ _, w) (loop_turn w).2.
Proof.
  intros Hp Hid. destruct w as [v file]. unfold Health.loop_turn, eff_catch, in_loop, mbind, eff_bind, eff_get, write_health.
  rewrite Hp. cbn [lw_world lw_health]. destruct (turn v) as [[r|m] v'] eqn:E.
  - cbn. exists 0%nat, (Ok r). split; [exact E|]. intros e files o age now Hchecks.
    rewrite (healthcheck_checks _ _ _ _ _ _ Hchecks).
    rewrite result_ends. destruct (Hid v r v' E) as (c & k & Ht & Es & Eu & Ec & Ek & Hc & Hk & Eh & Er & Ep).
    refine (validateHealth_exact _ age now _ c k r Ht Es _ Ec Ek Hc Hk Eh Er Ep).
    rewrite Eu. apply date_parse_iso, date_now_range.
  - exists 0%nat, (Throw m). destruct once; (split; [exact E|]); intros e files o age now Hchecks;
      by rewrite (healthcheck_checks _ _ _ _ _ _ Hchecks).
Qed.
Lemma service_loop_tells turns w :
  truthy healthPath = true → identified → tells (λ n, (service_loop n w).2) (service_loop (S turns) w).2.
Proof.
  intros Hp Hid. revert w. induction turns as [|turns IH]; intros w.
  - destruct (loop_turn_tells w Hp Hid) as (_ & q & Hq & Htells). exists 0%nat, q. cbn [Health.service_loop].
    unfold mbind, eff_bind. by destruct (loop_turn w) as [[[|]|m] w'].
  - assert (∀ w', loop_turn w = (Ok false, w') → ∀ n, service_loop (S n) w = service_loop n w') as Hnext.
    { intros w' E n. cbn [Health.service_loop]. unfold mbind, eff_bind. by rewrite E. }
    destruct (loop_turn w) as [[[|]|m] w'] eqn:E.
    2: { rewrite (Hnext w' eq_refl). destruct (IH w') as (n & q & Hq & Htells). exists (S n), q. by rewrite (Hnext w' eq_refl). }
    all: destruct (loop_turn_tells w Hp Hid) as (_ & q & Hq & Htells); exists 0%nat, q; cbn [Health.service_loop];
      unfold mbind, eff_bind; by rewrite E in *.
Qed.
End loop.

(** ** The two services *)
Section services.
Context `{Ethers, Network, ServiceApi, EventsApi, KeyOrder} (o : service_options).
Abbreviation i := (sv_identity o).

(** *** The cursor stays behind the head *)

Definition cursor_under (c : Z) (v : relay_world) : Prop :=
  ∀ row, scan_state (store v) !! key_of i = Some row → next_block row <= c.
Definition under (c : Z) (v v' : relay_world) : Prop := cursor_under c v → cursor_under c v'.
#[local] Instance under_preorder c : PreOrder (under c).
Proof. unfold under. split; [by intros v|]. intros ???. auto. Qed.
Lemma under_same c v v' : scan_state (store v') = scan_state (store v) → under c v v'.
Proof. unfold under, cursor_under. by intros ->. Qed.

Lemma under_ask {A} c (f : nat → result A) : keeps (under c) (ask f).
Proof. intros v. by apply under_same. Qed.
Lemma under_now c : keeps (under c) now.
Proof. intros v. by apply under_same. Qed.
Lemma under_work c contextBlock limit : keeps (under c) (work o contextBlock limit).
Proof.
  induction limit as [|limit IH]; cbn [work]; [apply (keeps_ret (under c))|].
  apply (keeps_bind (under c)); [apply under_now|]. intros t. apply (keeps_bind (under c)).
  - intros v. apply under_same. unfold on_store, claimRequest, mbind, eff_bind, eff_get, eff_modify, eff_lift.
    destruct (candidate _ _ _) as [[kr row]|]; [|done]. by destruct (safeBlockNumber _ _).
  - intros [pending|]; [|apply (keeps_ret (under c))]. apply (keeps_bind (under c)); [|intros _; exact IH].
    intros v. destruct (processPending_spec o contextBlock pending v) as (_ & (Hs & _) & _). by apply under_same.
Qed.

(** A database that keeps every cursor of the operator under [c]. *)
Definition under_store (c : Z) (d : database) : Prop :=
  ∀ row, scan_state d !! key_of i = Some row → next_block row <= c.
Lemma under_store_insert c d d' row :
  scan_state d' = <[key_of i := row]> (scan_state d) → next_block row <= c → under_store c d'.
Proof. intros E Hr row'. rewrite E, lookup_insert_eq. by intros [= <-]. Qed.
Lemma commitScan_under c w requested finalized t d :
  toBlock w + 1 <= c → under_store c d →
  under_store c (commitScan i (sv_instanceId o) w requested finalized t d).2.
Proof.
  intros Hw Hc. unfold commitScan, transaction, mbind, eff_bind, eff_get.
  destruct (scan_state d !! key_of i) as [row|] eqn:Hrow; [|done].
  unfold eff_require, eff_lift, eff_modify. destruct (bool_decide _); cbn [require]; [|done].
  destruct (safeBlockNumber _ _) as [b|] eqn:Eb; [|done]. eapply under_store_insert; [done|].
  cbn [next_block]. assert (b = next_block row) as ->.
  { unfold safeBlockNumber in Eb. destruct (_ || _); [done|]. by injection Eb. }
  specialize (Hc row Hrow). lia.
Qed.
Lemma scanServiceEventsPostgres_under c w t d :
  toBlock w + 1 <= c → under_store c d →
  under_store c (scanServiceEventsPostgres i (sv_instanceId o) w t d).2.
Proof.
  intros Hw Hc. unfold scanServiceEventsPostgres, mbind, eff_bind, eff_lift.
  destruct (queryRequested w); [|done]. destruct (queryFulfilled w); [|done]. destruct (queryExpired w); [|done].
  by apply commitScan_under.
Qed.
Lemma claimScan_under c latest t d :
  under_store c d →
  let r := claimScan i (sv_instanceId o) latest (sv_blockRange o) (sv_reorgLookback o) (sv_scanLeaseSeconds o) t d in
  under_store c r.2 ∧ ∀ w, r.1 = Ok (Some w) → toBlock w <= latest.
Proof.
  intros Hc. unfold claimScan, mbind, eff_bind, eff_get. destruct (scan_state d !! key_of i) as [row|] eqn:Hrow; [|done].
  destruct (_ && _); [|done]. unfold eff_modify, eff_lift. cbv zeta.
  assert (∀ lease owner, under_store c (set_scan (<[key_of i := {| deployment_block := deployment_block row;
    next_block := next_block row; scan_lease_owner := owner; scan_lease_expires_at := lease |}]>) d)) as Hset.
  { intros lease owner. eapply under_store_insert; [done|]. exact (Hc row Hrow). }
  destruct (safeBlockNumber _ _); (split; [apply Hset|]); [|done]. intros w [= <-]. unfold scanRange. cbn. lia.
Qed.
Lemma releaseScan_under c d : under_store c d → under_store c (releaseScan i (sv_instanceId o) d).2.
Proof.
  intros Hc row. unfold releaseScan, eff_modify. cbn. rewrite lookup_alter_eq.
  destruct (scan_state d !! key_of i) as [row'|] eqn:E; [|done]. intros [= <-]. specialize (Hc row' E).
  by case_bool_decide.
Qed.

Lemma on_store_under {A} c (m : eff database A) :
  (∀ d, under_store c d → under_store c (m d).2) → keeps (under c) (on_store m).
Proof. intros Hm v Hv. unfold on_store. specialize (Hm (store v) Hv). by destruct (m (store v)). Qed.
Lemma scanOnce_under c latest : latest + 1 <= c → keeps (under c) (scanOnce o latest).
Proof.
  intros Hl. unfold scanOnce. apply (keeps_bind (under c)); [apply under_now|]. intros t v Hv.
  unfold mbind at 1, eff_bind at 1, on_store at 1. destruct (claimScan_under c latest t (store v) Hv) as [Hd Hw].
  destruct (claimScan _ _ _ _ _ _ _ _) as [[[w|]|e] d]; [|exact Hd|exact Hd].
  specialize (Hw w eq_refl). refine (keeps_catch (under c) _ _ _ _ (Build_relay_world d (broadcasts v) (calls v) (lost v)) Hd).
  - apply (keeps_bind (under c)); [apply under_now|]. intros t'. apply on_store_under.
    intros d'. apply scanServiceEventsPostgres_under. lia.
  - intros e. apply (keeps_bind (under c)); [apply on_store_under, releaseScan_under|]. intros _. apply (keeps_throw (under c)).
Qed.

(** After a turn the cursor is no further than the block after the head, if it was not
    before and the head is past the deployment. *)
Lemma postgres_turn_cursor v r v' :
  0 <= sv_eventConfirmations o → postgres_turn o v = (Ok r, v') →
  deploymentBlock i <= tr_head r → cursor_under (tr_head r + 1) v → tr_cursor r <= tr_head r + 1.
Proof.
  intros Hconf. unfold postgres_turn, serviceTurn. intros (t & v1 & Ht & [= <- <-])%eff_bind_Ok Hdep Hv.
  apply eff_bind_Ok in Ht as (head & v2 & [= Hh <-] & Ht). set (latest := Z.max _ _) in Ht.
  apply eff_bind_Ok in Ht as (time & v3 & [= _ <-] & Ht). apply eff_bind_Ok in Ht as ([] & v4 & [= <-] & Ht).
  apply eff_bind_Ok in Ht as ([] & v5 & Hscan & Ht). apply eff_bind_Ok in Ht as (b & v6 & Hb & Ht).
  apply eff_bind_Ok in Ht as ([] & v7 & Hwork & Ht). apply eff_bind_Ok in Ht as (v8 & ? & [= <- <-] & Ht).
  apply eff_lift_bind_Ok in Ht as (s & Hs & [= <- _]). cbn [postgres_report tr_head tr_cursor fst snd] in *.
  assert (cursor_under (head + 1) v7) as H7.
  { set (w4 := Build_relay_world _ _ _ _) in Hscan. assert (cursor_under (head + 1) w4) as H4 by exact Hv.
    pose proof (scanOnce_under (head + 1) latest ltac:(lia) w4 H4) as H5. rewrite Hscan in H5.
    pose proof (under_ask (head + 1) contextBlockNumber v5 H5) as H6. rewrite Hb in H6.
    pose proof (under_work (head + 1) b (sv_workLimit o) v6 H6) as H7. by rewrite Hwork in H7. }
  unfold summary in Hs. apply bind_Ok in Hs as (row & Hrow%from_option_or_Ok & Hs).
  apply bind_Ok in Hs as (c & Hc & Hs). apply bind_Ok in Hs as (oldest & _ & [= <-]). cbn [cursor].
  specialize (H7 row Hrow). unfold safeBlockNumber in Hc. destruct (_ || _); [done|]. injection Hc as <-. exact H7.
Qed.
Lemma scanServiceEvents_cursor latest st c :
  latest + 1 <= c → s_cursor (in_memory st) <= c →
  s_cursor (in_memory (scanServiceEvents latest (sv_blockRange o) (sv_reorgLookback o) st).2) <= c.
Proof.
  intros Hl Hc. unfold scanServiceEvents, mbind, eff_bind, eff_get, eff_lift, set_in_memory, eff_modify.
  destruct (latest <? _); [done|]. set (w := fileScanRange _ _ _ _). assert (toBlock w <= latest) as Hw by (cbn; lia).
  destruct (queryRequested w); [|done]. destruct (queryFulfilled w); [|done]. destruct (queryExpired w); [|done].
  cbn. cbn in Hw. lia.
Qed.
Lemma file_turn_cursor w r w' :
  0 <= sv_eventConfirmations o → file_turn o w = (Ok r, w') →
  deploymentBlock i <= tr_head r → s_cursor (in_memory (fw_state w)) <= tr_head r + 1 → tr_cursor r <= tr_head r + 1.
Proof.
  intros Hconf. unfold file_turn. intros (head & w1 & Ht & [= <- <-])%eff_bind_Ok Hdep Hcur. cbn [tr_head tr_cursor] in *.
  unfold fileTurn in Ht. apply eff_bind_Ok in Ht as (h & w2 & Hh & Ht). set (latest := Z.max _ _) in Ht.
  apply eff_bind_Ok in Ht as ([] & w3 & Hscan & Ht). apply eff_bind_Ok in Ht as (b & w4 & Hb & Ht).
  apply eff_bind_Ok in Ht as (? & ? & [= <- <-] & Ht). apply eff_bind_Ok in Ht as ([] & w5 & Hwork & [= -> <-]).
  unfold on_relay, ask in Hh, Hb. injection Hh as _ <-. injection Hb as _ <-.
  unfold on_service_state in Hscan. cbn [fw_state] in Hscan.
  pose proof (scanServiceEvents_cursor latest (fw_state w) (head + 1) ltac:(lia) Hcur) as Hcur3.
  destruct (scanServiceEvents _ _ _ _) as [q st]. injection Hscan as _ <-. cbn [snd fw_state] in Hcur3.
  match type of Hwork with eff_forM _ ?l ?w4 = _ => destruct (work_accounted o b l w4) as [(Hc & _) _] end.
  { intros [id e] e' Hin. rewrite entries_perm in Hin. apply elem_of_map_to_list in Hin. cbn in *. congruence. }
  rewrite Hwork in Hc. cbn [snd fw_state] in Hc. lia.
Qed.

(** *** What the file tells *)

Context (Hcoordinator : hex_string 40 (coordinator i) = true) (Hkey : hex_string 64 (sv_keyHash o) = true).
Context `{ClockLaws}.

Lemma file_identified : identified (file_turn o) (λ w, calls (fw_relay w)) (file_identity o).
Proof.
  intros w r v Ht. exists (coordinator i), (sv_keyHash o). cbv zeta. assert (tr_rest r = []) as Hrest.
  { unfold file_turn in Ht. by apply eff_bind_Ok in Ht as (? & ? & _ & [= <- _]). }
  unfold health_record. rewrite Hrest. by split_and!.
Qed.
Lemma postgres_identified proofMode : identified (postgres_turn o) calls (postgres_identity o proofMode).
Proof.
  intros w r v Ht. exists (coordinator i), (sv_keyHash o). cbv zeta.
  assert (∃ x, (x = VNull ∨ ∃ b, x = VNum b) ∧ tr_rest r = [("oldestRequestBlock", x)]) as (x & Hx & Hrest).
  { unfold postgres_turn in Ht. apply eff_bind_Ok in Ht as (t & ? & _ & [= <- _]). cbn. eexists. split; [|done].
    destruct (oldestRequestBlock t.2); eauto. }
  unfold health_record. rewrite Hrest. destruct Hx as [->|[b ->]]; by split_and!.
Qed.

(** C17: after any number of turns of either service, the health check takes the file
    that the loop keeps exactly while the end of the last turn is no older than the
    maximum, when that turn ended well with a cursor no further than the next block;
    after a turn that failed it never does, however fresh the file is. *)
Theorem health_file_tells proofMode healthPath once turns :
  truthy healthPath = true →
  (∀ w r w', postgresService o proofMode healthPath once (S turns) w = (r, w') →
     (∃ m, r = Throw m ∧ w' = w) ∨ 
     tells (postgres_turn o) calls (λ n, (postgresService o proofMode healthPath once n w).2) w') ∧
  (∀ w r w', fileService o healthPath once (S turns) w = (r, w') →
     tells (file_turn o) (λ w, calls (fw_relay w)) (λ n, (fileService o healthPath once n w).2) w').
Proof.
  intros Hp. split; intros w r w'.
  - unfold postgresService, mbind, eff_bind, eff_get, eff_lift. destruct (summary _ _) as [s|m].
    + intros E. right. change w' with (r, w').2. rewrite <-E. apply service_loop_tells, postgres_identified. done.
    + intros [= <- <-]. left. by exists m.
  - unfold fileService. intros E. change w' with (r, w').2. rewrite <-E. by apply service_loop_tells, file_identified.
Qed.
End services.

(** ** Concrete turns *)
Section examples.
#[local] Existing Instances sample_ethers mining_network sample_service file_events file_order.

#[local] Instance text_dates : DateApi :=
  {| date_parse v := match v with VStr s => string_to_bigint s | _ => None end |}.
#[local] Instance sample_clock : ClockApi :=
  {| date_now n := Z.min MAX_DATE (1000 * Z.of_nat n); iso_string := print_int |}.
#[local] Instance sample_clock_laws : ClockLaws.
Proof.
  split; [intros t _; apply string_to_bigint_print_int|]. intros n. unfold date_now, sample_clock, MAX_DATE. lia.
Qed.
Definition repeat_hex (n : nat) : string := "0x" +:+ of_chars (replicate n "a"%char).
Definition health_options : service_options := {|
  sv_instanceId := "a"; sv_relayer := "0xae"; sv_keyHash := repeat_hex 64;
  sv_identity := {| chainId := "46630"; coordinator := repeat_hex 40; keyHash := repeat_hex 64; deploymentBlock := 100 |};
  sv_rpcProviders := ["0"; "1"]; sv_blockRange := 2000; sv_reorgLookback := 32;
  sv_eventConfirmations := 2; sv_scanLeaseSeconds := 60; sv_requestLeaseSeconds := 360;
  sv_workLimit := 2; sv_replacementMs := 45000; sv_replacementAttempts := 3; sv_archiveAfterBlocks := 128 |}.
Definition health_start : loop_world file_world := {|
  lw_world := {| fw_relay := file_relay; fw_state := {| in_memory := initial health_options; in_file := None |} |};
  lw_health := None |}.
Definition health_run (turns : nat) : result bool * loop_world file_world :=
  fileService health_options (VStr "health.json") false turns health_start.
(** The command of the health check, over the file of a world. *)
Definition check_run (w : loop_world file_world) (now : Z) : result value :=
  healthcheck {| env _ := None; lstat _ := Ok {| isFile := true; isSymbolicLink := false; mode := 384; size := 300 |};
                 read_file _ := Throw "ENOENT" |}
    {| read_json _ := from_option_or "ENOENT" (lw_health w); read_bytes _ := Throw "ENOENT" |}
    (VObj [("file", VStr "health.json")]) now.

Lemma health_file_tells_witness :
  tells (file_turn health_options) (λ w, calls (fw_relay w)) (λ n, (health_run n).2) (health_run 2).2 ∧
  check_run (health_run 2).2 40000 = Ok (VObj [("status", VStr "healthy"); ("ageSeconds", VNum 24)]) ∧
  check_run (health_run 2).2 80000 = Throw "health record is stale by 64 seconds".
Proof.
  split; [|split; vm_refl].
  refine (proj2 (health_file_tells health_options eq_refl eq_refl "local" (VStr "health.json") false 1 eq_refl)
            health_start (health_run 2).1 (health_run 2).2 _).
  apply surjective_pairing.
Defined.
End examples.
