(* ===== verification/PollingService.v ===== *)
(** * The first version of the service ([run] in [cli.mjs])

    One process with its own key and no memory but its own: from the block it is
    started at it reads the requests of its key range by range, and works on each
    until the coordinator says that it is finished.  The coordinator is a parameter;
    an answer depends on the number of the call.  Fuel is that of the hash loops of
    a proof: a turn that has too little of it has no result. *)

From S2P Require Import Prelude Js Hex CanonicalJson Vendor Policies OperatorStore Scanner ErrorText Relayer Service Ecvrf ProofProvider CommandLine Archiver Readiness.

Open Scope Z_scope.

(** The coordinator of the first version, as its events, views and transactions. *)
Class PollingApi := {
  pl_blockNumber : nat → result Z;
  pl_requested : nat → scan_window → result (list (Z * Z));     (* requestId, preSeed *)
  pl_requestSeed : nat → Z → result Z;
  pl_fulfill : nat → Z → vrf_proof → result string;             (* the transaction *)
  pl_wait : nat → string → result string;                       (* receipt.hash *)
  pl_requests : nat → Z → result (bool * bool)                  (* fulfilled, refunded *)
}.

(** A line of the log. *)
Inductive log_line :=
| Fulfilled (requestId : Z) (output : Z) (transactionHash : string)
| Failed (requestId : Z) (message : string).

(** [pending] is a [Map], in the order of its keys. *)
Record polling := { p_cursor : Z; p_pending : list (Z * Z); p_log : list log_line; p_calls : nat }.

Definition poll {A} (f : nat → result A) : eff polling A := λ w,
  (f (p_calls w), {| p_cursor := p_cursor w; p_pending := p_pending w; p_log := p_log w; p_calls := S (p_calls w) |}).
Definition set_pending (f : list (Z * Z) → list (Z * Z)) : eff polling unit :=
  eff_modify (λ w, {| p_cursor := p_cursor w; p_pending := f (p_pending w); p_log := p_log w; p_calls := p_calls w |}).
Definition set_cursor (cursor : Z) : eff polling unit :=
  eff_modify (λ w, {| p_cursor := cursor; p_pending := p_pending w; p_log := p_log w; p_calls := p_calls w |}).
Definition print (line : log_line) : eff polling unit :=
  eff_modify (λ w, {| p_cursor := p_cursor w; p_pending := p_pending w; p_log := p_log w ++ [line]; p_calls := p_calls w |}).

Section polling.
Context `{Ethers, Secp256k1, HmacApi, PollingApi}.

(** ** One turn *)

Definition pollEvents (blockRange latest : Z) : eff polling unit :=
  w ← eff_get;
  let cursor := p_cursor w in
  if cursor <=? latest then
    let rangeEnd := Z.min latest (cursor + blockRange - 1) in
    events ← poll (λ n, pl_requested n {| fromBlock := cursor; toBlock := rangeEnd |});
    _ ← set_pending (λ m, map_sets m events);
    set_cursor (rangeEnd + 1)
  else mret tt.

Definition pollHead (blockRange : Z) : eff polling unit :=
  latest ← poll pl_blockNumber; pollEvents blockRange latest.

(** The [try] block, from the proof on. *)
Definition submitProof (id : Z) (proved : result generated) : eff polling unit :=
  g ← eff_lift proved;
  transaction ← poll (λ n, pl_fulfill n id (g_proof g));
  hash ← poll (λ n, pl_wait n transaction);
  _ ← print (Fulfilled id (g_output g) hash);
  set_pending (map_delete id).
(** The [catch] block. *)
Definition pollProblem (id : Z) (message : string) : eff polling unit :=
  if contains_any ["ConfirmationsPending"; "BlockhashUnavailable"] message then mret tt
  else if contains_any ["RequestAlreadyFinalized"; "RequestNotFulfilled"; "execution reverted"] message then
    eff_catch
      (state ← poll (λ n, pl_requests n id);
       let '(fulfilled, refunded) := state in
       if fulfilled || refunded then set_pending (map_delete id) else mret tt)
      (λ _, mret tt)
  else print (Failed id message).

Definition pollRequest (fuel : nat) (secret : Z) (entry : Z * Z) (w : polling) : option polling :=
  let '(id, preSeed) := entry in
  let '(seed, w) := poll (λ n, pl_requestSeed n id) w in
  proved ← match seed with
           | Ok actualSeed => generateProof fuel secret actualSeed preSeed None
           | Throw e => Some (Throw e)
           end;
  Some (eff_catch (submitProof id proved) (λ e, pollProblem id (thrown_message e)) w).2.

(** Entries are only deleted while the map is walked, each by its own step. *)
Definition pollTurn (fuel : nat) (secret blockRange : Z) (w : polling) : option (result unit * polling) :=
  match pollHead blockRange w with
  | (Ok _, w) =>
      w ← foldl (λ acc entry, acc ≫= pollRequest fuel secret entry) (Some w) (p_pending w);
      Some (Ok tt, w)
  | (Throw e, w) => Some (Throw e, w)      (* the process stops *)
  end.

End polling.

(** ** The start *)

Record polling_start := {
  ps_secret : Z; ps_keyHash : string; ps_relayer : string; ps_pollMs : Z; ps_blockRange : Z; ps_first : polling
}.

Section start.
Context `{Ethers, Secp256k1, HmacApi, WalletApi, ReadinessApi} (e : environment) (files : file_system).

Definition keyPassword : result string :=
  secret ← readSecret e "VRF_KEY_PASSWORD" true; Ok (default "" secret).
Definition loadProofWallet (keyPath : option string) : result wallet :=
  keyPath ← from_option_or "--keystore is required" keyPath;
  payload ← read_json files keyPath;
  format ← prop payload "format";
  _ ← require (strict_eq format (VStr "proof-vrf-keystore-v1")) "unsupported VRF keystore format";
  password ← keyPassword;
  fromEncryptedJson (prop_opt payload "encryptedKey") password.

(** [Number(options[k] || fallback)], which must be a safe integer of at least [minimum]. *)
Definition option_number (options : value) (k : string) (fallback : value) (minimum : Z) : result Z :=
  let v := prop_opt options k in
  let message := "invalid --" +:+ k in
  n ← from_option_or message (to_number (if truthy v then v else fallback));
  _ ← require (minimum <=? n) message; Ok n.

Definition startPolling (options : value) : result polling_start :=
  _ ← require (truthy (prop_opt options "rpc-url") && truthy (prop_opt options "coordinator")
               && truthy (prop_opt options "keystore"))
        "--rpc-url, --coordinator, and --keystore are required";
  _ ← require (truthy (prop_opt options "from-block")) "--from-block is required for restart-safe scanning";
  relayerKey ← readSecret e "VRF_TX_PRIVATE_KEY" true;
  w ← loadProofWallet (option_text options "keystore");
  secret ← to_bigint (VStr (w_privateKey w));
  publicKey ← publicKeyFor secret;
  relayer ← wallet_address (default "" relayerKey);
  _ ← require (negb (bool_decide (lower relayer = lower (w_address w))))
        "proof key and relayer transaction key must be different";
  cursor ← option_number options "from-block" VUndef 0;
  blockRange ← option_number options "block-range" (VNum 2000) 1;
  pollMs ← option_number options "poll-ms" (VNum 4000) 250;
  Ok {| ps_secret := secret; ps_keyHash := publicKeyHash publicKey; ps_relayer := relayer;
        ps_pollMs := pollMs; ps_blockRange := blockRange;
        ps_first := {| p_cursor := cursor; p_pending := []; p_log := []; p_calls := 0 |} |}.
End start.
