(* ===== verification/PollingSafety.v ===== *)
(** * What the first version of the service remembers ([cli.mjs])

    Its ranges tile the chain from the block it was started at, and a request that
    it saw is pending until its proof was sent and confirmed or the coordinator said
    that it is over. *)

From S2P Require Import Prelude Js Hex CanonicalJson Vendor Policies OperatorStore Scanner ErrorText Relayer Samples Service Ecvrf EcvrfSample ProofProvider ProverSafety CommandLine Archiver Readiness ServiceStart ServiceStartSafety PollingService.

Open Scope Z_scope.

Section polling.
Context `{Ethers, Secp256k1, HmacApi, PollingApi} (secret blockRange : Z).
Implicit Types w : polling.

(** The coordinator listed the request, with the seed. *)
Definition listed (entry : Z * Z) : Prop := ∃ n window events, pl_requested n window = Ok events ∧ entry ∈ events.
(** The coordinator says that the request is over. *)
Definition over (id : Z) : Prop :=
  ∃ n fulfilled refunded, pl_requests n id = Ok (fulfilled, refunded) ∧ fulfilled || refunded = true.
(** A proof of the seeds of the request was sent, and its transaction mined. *)
Definition proof_mined (id output : Z) (hash : string) : Prop :=
  ∃ fuel preSeed n seed g n' transaction n'', listed (id, preSeed) ∧ pl_requestSeed n id = Ok seed ∧
    generateProof fuel secret seed preSeed None = Some (Ok g) ∧ g_output g = output ∧
    pl_fulfill n' id (g_proof g) = Ok transaction ∧ pl_wait n'' transaction = Ok hash.
Definition line_true (line : log_line) : Prop :=
  match line with Fulfilled id output hash => proof_mined id output hash | Failed _ _ => True end.
Definition accounted_for (id : Z) : Prop := over id ∨ ∃ output hash, proof_mined id output hash.

(** A step that loses no request, lists none and prints nothing untrue. *)
Definition accounts (w w' : polling) : Prop :=
  p_cursor w' = p_cursor w ∧ p_pending w' ⊆ p_pending w ∧
  (∀ id, id ∈ (p_pending w).*1 → id ∈ (p_pending w').*1 ∨ accounted_for id) ∧
  ∃ new, p_log w' = p_log w ++ new ∧ Forall line_true new.
#[export] Instance accounts_preorder : PreOrder accounts.
Proof.
  split.
  - intros w. split_and!; [done|done|by left|]. exists []. by rewrite app_nil_r.
  - intros w1 w2 w3 (E1 & S1 & K1 & n1 & L1 & F1) (E2 & S2' & K2 & n2 & L2 & F2). split_and!; [congruence|set_solver| |].
    + intros id [Hid|Hid]%K1; [by apply K2|by right].
    + exists (n1 ++ n2). rewrite L2, L1, <-app_assoc. split; [done|]. by apply Forall_app.
Qed.

Lemma accounts_poll {A} (f : nat → result A) : keeps accounts (poll f).
Proof. intros w. change (accounts w {| p_cursor := p_cursor w; p_pending := p_pending w; p_log := p_log w; p_calls := S (p_calls w) |}).
  split_and!; [done|done|by left|]. exists []. by rewrite app_nil_r.
Qed.
Lemma accounts_print line w : line_true line → accounts w (print line w).2.
Proof. intros Hl. split_and!; [done|done|by left|]. exists [line]. by repeat constructor. Qed.
Lemma accounts_delete id w : accounted_for id → accounts w (set_pending (map_delete id) w).2.
Proof.
  intros Hj. split_and!; [done|intros e [_ He]%map_delete_elem; exact He| |exists []; by rewrite app_nil_r].
  intros x ([k v] & -> & Hin)%list_elem_of_fmap. destruct (decide (k = id)) as [->|Hne]; [by right|left].
  apply list_elem_of_fmap. exists (k, v). split; [done|]. by apply map_delete_elem.
Qed.

Lemma poll_bind {A B} (f : nat → result A) (k : A → eff polling B) Q w :
  (∀ a w', f (p_calls w) = Ok a → accounts w w' → wp (k a) Q w') →
  (∀ message w', accounts w w' → Q (Throw message) w') → wp (poll f ≫= k) Q w.
Proof.
  intros Ha He. pose proof (accounts_poll f w) as Hw. apply wp_bind. unfold wp, poll in *. cbn in *.
  destruct (f (p_calls w)) as [a|message] eqn:E; [by eapply Ha|by apply He].
Qed.

Lemma pollProblem_accounts id message : keeps accounts (pollProblem id message).
Proof.
  unfold pollProblem. destruct (contains_any _ _); [by apply (keeps_ret accounts)|].
  destruct (contains_any _ _); [|intros w; by apply accounts_print].
  apply (keeps_catch accounts); [|intros; by apply (keeps_ret accounts)]. intros w.
  enough (wp (state ← poll (λ n, pl_requests n id);
       let '(fulfilled, refunded) := state in
       if fulfilled || refunded then set_pending (map_delete id) else mret tt) (λ _ w', accounts w w') w) by done.
  apply poll_bind; [|done]. intros [fulfilled refunded] w' Hs Hw'.
  destruct (fulfilled || refunded) eqn:Eo; [|done]. unfold wp. etrans; [exact Hw'|].
  apply accounts_delete. left. by exists (p_calls w), fulfilled, refunded.
Qed.

Lemma pollRequest_accounts fuel entry w w' :
  listed entry → pollRequest fuel secret entry w = Some w' → accounts w w'.
Proof.
  intros Hl. destruct entry as [id preSeed]. unfold pollRequest.
  destruct (poll (λ n, pl_requestSeed n id) w) as [seed w1] eqn:Ep.
  pose proof (accounts_poll (λ n, pl_requestSeed n id) w) as Hw1. rewrite Ep in Hw1. cbn in Hw1.
  injection Ep as Eseed _. intros (proved & Hproved & [= <-])%bind_Some.
  enough (wp (eff_catch (submitProof id proved) (λ e, pollProblem id (thrown_message e))) (λ _ w', accounts w w') w1) by done.
  apply wp_catch. enough (wp (submitProof id proved) (λ _ w', accounts w w') w1) as Hsub.
  { eapply wp_mono; [exact Hsub|]. intros [[]|message] w2 Hw2; [exact Hw2|]. unfold wp.
    etrans; [exact Hw2|]. apply pollProblem_accounts. }
  unfold submitProof. apply wp_lift_bind; [|done]. intros g ->.
  apply poll_bind; [|intros message w2 Hw2; by etrans]. intros transaction w2 Htx Hw2.
  apply poll_bind; [|intros message w3 Hw3; do 2 (etrans; [eassumption|]); done]. intros hash w3 Hwait Hw3.
  destruct seed as [seed|message]; [|discriminate Hproved].
  assert (proof_mined id (g_output g) hash) as Hmined.
  { exists fuel, preSeed, (p_calls w), seed, g, (p_calls w1), transaction, (p_calls w2). by split_and!. }
  apply wp_bind. unfold wp. change (accounts w (set_pending (map_delete id) (print (Fulfilled id (g_output g) hash) w3).2).2).
  etrans; [exact Hw1|]. etrans; [exact Hw2|]. etrans; [exact Hw3|].
  etrans; [apply (accounts_print (Fulfilled id (g_output g) hash)); exact Hmined|]. apply accounts_delete. right. by exists (g_output g), hash.
Qed.

Lemma pollRequests_accounts fuel entries w w' :
  Forall listed entries →
  foldl (λ acc entry, acc ≫= pollRequest fuel secret entry) (Some w) entries = Some w' → accounts w w'.
Proof.
  intros Hl. revert w. induction Hl as [|entry entries Hentry _ IH]; intros w; cbn [foldl]; [by intros [= ->]|].
  cbn [mbind option_bind]. destruct (pollRequest fuel secret entry w) as [w1|] eqn:E1.
  - intros Hw'. etrans; [by eapply pollRequest_accounts|by apply IH].
  - intros Hw'. exfalso. clear -Hw'. induction entries as [|x l IH]; cbn in Hw'; [done|auto].
Qed.

(** ** The ranges that were read *)

(** Ranges that follow each other from [from] to the block before [next]. *)
Fixpoint tiles (from : Z) (windows : list scan_window) (next : Z) : Prop :=
  match windows with
  | [] => from = next
  | window :: windows =>
      fromBlock window = from ∧ from <= toBlock window < from + blockRange ∧ tiles (toBlock window + 1) windows next
  end.
Lemma tiles_app from windows next window :
  tiles from windows next → fromBlock window = next → next <= toBlock window < next + blockRange →
  tiles from (windows ++ [window]) (toBlock window + 1).
Proof.
  revert from. induction windows as [|x l IH]; cbn; intros from.
  - by intros ->.
  - intros (? & ? & ?) ? ?. split_and!; auto; lia.
Qed.

(** What the process knows of the chain from the block it was started at. *)
Definition knows (first : Z) (w : polling) : Prop :=
  Forall listed (p_pending w) ∧ Forall line_true (p_log w) ∧
  ∃ windows, tiles first windows (p_cursor w) ∧
    Forall (λ window, ∃ n events, pl_requested n window = Ok events ∧
      ∀ id, id ∈ events.*1 → id ∈ (p_pending w).*1 ∨ accounted_for id) windows.

Lemma accounts_knows first w w' : accounts w w' → knows first w → knows first w'.
Proof.
  intros (Ec & Hs & Hk & new & El & Hnew) (Hl & Hlog & windows & Ht & Hw). split_and!.
  - rewrite Forall_forall in *. auto.
  - rewrite El. by apply Forall_app.
  - exists windows. rewrite Ec. split; [done|]. eapply Forall_impl; [exact Hw|].
    intros window (n & events & He & Hids). exists n, events. split; [done|]. intros id [Hid|Hid]%Hids; [by apply Hk|by right].
Qed.

Context (Hrange : 1 <= blockRange).

Lemma pollEvents_knows first latest w : knows first w → knows first (pollEvents blockRange latest w).2.
Proof.
  intros Hk. enough (wp (pollEvents blockRange latest) (λ _ w', knows first w') w) by done.
  unfold pollEvents. apply wp_bind. unfold wp at 1. cbn [eff_get fst snd].
  destruct (p_cursor w <=? latest) eqn:Ec; [|done]. apply Z.leb_le in Ec.
  set (window := Build_scan_window _ _). apply poll_bind; [|intros; by eapply accounts_knows].
  intros events w1 He Hw1. pose proof (proj1 Hw1) as Ecur. eapply accounts_knows in Hk as (Hl & Hlog & windows & Ht & Hw); [|exact Hw1].
  apply wp_bind. unfold wp. cbn. unfold knows. cbn. split_and!; [|done|].
  - apply Forall_forall. intros entry [Hin|Hin]%map_sets_elem; [by exists (p_calls w), window, events|].
    by eapply Forall_forall in Hl.
  - exists (windows ++ [window]). split.
    + apply (tiles_app _ _ (p_cursor w1)); [done|by rewrite Ecur|]. rewrite Ecur. cbn. lia.
    + apply Forall_app. split.
      * eapply Forall_impl; [exact Hw|]. intros win (n & evs & Hevs & Hids). exists n, evs. split; [done|].
        intros id [Hid|Hid]%Hids; [|by right]. left. apply map_sets_keys. by right.
      * constructor; [|constructor]. exists (p_calls w), events. split; [done|]. intros id Hid. left.
        apply map_sets_keys. by left.
Qed.

Lemma pollTurn_knows first fuel w r w' :
  knows first w → pollTurn fuel secret blockRange w = Some (r, w') → knows first w'.
Proof.
  intros Hk. unfold pollTurn.
  assert (knows first (pollHead blockRange w).2) as Hk1.
  { enough (wp (pollHead blockRange) (λ _ w', knows first w') w) by done.
    apply poll_bind; [|intros; by eapply accounts_knows]. intros latest w1 _ Hw1.
    apply pollEvents_knows. by eapply accounts_knows. }
  destruct (pollHead blockRange w) as [[[]|message] w1]; cbn in Hk1.
  - intros (w2 & Hw2 & [= <- <-])%bind_Some. eapply accounts_knows; [|exact Hk1].
    eapply pollRequests_accounts, Hw2. apply Hk1.
  - intros [= <- <-]. exact Hk1.
Qed.

(** A turn, with enough fuel for its proofs. *)
Definition polling_step (w w' : polling) : Prop := ∃ fuel r, pollTurn fuel secret blockRange w = Some (r, w').
Definition polling_first (first : Z) : polling := {| p_cursor := first; p_pending := []; p_log := []; p_calls := 0 |}.

(** C34: after any number of turns the ranges that were read tile the chain from the
    first block to the cursor; every request that they listed is pending, or its
    proof was sent and mined, or the coordinator said that it is over; and every
    fulfilment in the log is a proof of the seeds of its request that was mined. *)
Theorem polling_loses_nothing first w :
  rtc polling_step (polling_first first) w →
  (∃ windows, tiles first windows (p_cursor w) ∧
    Forall (λ window, ∃ n events, pl_requested n window = Ok events ∧
      ∀ id, id ∈ events.*1 → id ∈ (p_pending w).*1 ∨ accounted_for id) windows) ∧
  ∀ id output hash, Fulfilled id output hash ∈ p_log w → proof_mined id output hash.
Proof.
  intros Hw. assert (knows first w) as (_ & Hlog & Hk).
  { assert (knows first (polling_first first)) as Hstart by (split_and!; [constructor..|by exists []]).
    revert Hstart. induction Hw as [|w1 w2 w3 [fuel [r Hr]] _ IH]; [done|]. intros Hk.
    apply IH. by eapply pollTurn_knows. }
  split; [exact Hk|]. intros id output hash Hin. rewrite Forall_forall in Hlog. exact (Hlog _ Hin).
Qed.
End polling.

(** ** Two turns on the small curve *)
Section examples.
(** Request 12 is fulfilled, 13 was refunded, and 14 has no seed yet. *)
#[local] Instance toy_polling : PollingApi := {|
  pl_blockNumber n := Ok (150 + 10 * Z.of_nat n);
  pl_requested _ window := Ok (if fromBlock window =? 100 then [(12, 6); (13, 5); (14, 4)] else []);
  pl_requestSeed _ id := if id =? 14 then Throw "ConfirmationsPending()" else Ok 7;
  pl_fulfill _ id _ := if id =? 13 then Throw "execution reverted" else Ok "0x02";
  pl_wait _ transaction := Ok transaction;
  pl_requests _ _ := Ok (false, true) |}.

Definition toy_turn (w : polling) : option (result unit * polling) := pollTurn 20 5 40 w.
Definition toy_polled : option polling :=
  '(_, w) ← toy_turn (polling_first 100); '(_, w) ← toy_turn w; Some w.

Lemma toy_polled_steps w : toy_polled = Some w → rtc (polling_step 5 40) (polling_first 100) w.
Proof.
  unfold toy_polled. intros ([r1 w1] & E1 & Hw)%bind_Some. apply bind_Some in Hw as ([r2 w2] & E2 & [= <-]).
  eapply rtc_l; [by exists 20%nat, r1|]. apply rtc_once. by exists 20%nat, r2.
Qed.

Lemma polling_loses_nothing_witness :
  ∃ w, toy_polled = Some w ∧ p_cursor w = 180 ∧ p_pending w = [(14, 4)] ∧ length (p_log w) = 1%nat ∧
    ∀ id output hash, Fulfilled id output hash ∈ p_log w → proof_mined 5 id output hash.
Proof.
  assert ((λ w, (p_cursor w, p_pending w, length (p_log w))) <$> toy_polled = Some (180, [(14, 4)], 1%nat)) as E by vm_refl.
  destruct toy_polled as [w|] eqn:Ew; [|discriminate E]. injection E as Ec Ep El. exists w.
  assert (1 <= 40) as Hr by lia.
  destruct (polling_loses_nothing 5 40 Hr 100 w (toy_polled_steps w Ew)) as [_ Hlog].
  split; [reflexivity|]. split; [exact Ec|]. split; [exact Ep|]. split; [exact El|exact Hlog].
Defined.
End examples.
