(* ===== verification/OperatorCommands.v ===== *)
(** * The commands of the operator ([cli.mjs])

    [keygen] makes a proof key and writes its keystore, [prove] prints a proof, and
    the first argument says which command runs.  A file is the JSON value it holds. *)

From S2P Require Import Prelude Js Hex CanonicalJson JsonText Vendor Ecvrf Policies ErrorText CommandLine ProofProvider ProverServer Readiness PollingService.
From stdpp Require Import gmap.

Open Scope Z_scope.

(** The files, what was printed, and how many keys were drawn. *)
Record key_workspace := {
  kw_files : gmap string value; kw_printed : list value; kw_drawn : nat
}.
(** ethers' random wallets, and the text of an encrypted one, parsed. *)
Class KeygenApi := { createRandom : nat → wallet; encrypt : wallet → string → value }.

Definition draw_wallet `{KeygenApi} : eff key_workspace wallet := λ w,
  (Ok (createRandom (kw_drawn w)),
   {| kw_files := kw_files w; kw_printed := kw_printed w; kw_drawn := S (kw_drawn w) |}).
(** A new file; [wx] refuses one that is there. *)
Definition write_new (path : string) (v : value) : eff key_workspace unit := λ w,
  match kw_files w !! path with
  | Some _ => (Throw ("EEXIST: file already exists, open '" +:+ path +:+ "'"), w)
  | None => (Ok tt, {| kw_files := <[path := reread v]> (kw_files w); kw_printed := kw_printed w; kw_drawn := kw_drawn w |})
  end.
Definition print_line (v : value) : eff key_workspace unit :=
  eff_modify (λ w, {| kw_files := kw_files w; kw_printed := kw_printed w ++ [v]; kw_drawn := kw_drawn w |}).
Definition files_of (w : key_workspace) : file_system := {|
  read_json path := from_option_or ("ENOENT: no such file or directory, open '" +:+ path +:+ "'") (kw_files w !! path);
  read_bytes path := Throw "ENOENT" |}.

(** [publicKey.map(String)] *)
Definition key_text (publicKey : Z * Z) : value := serializable_leaf (coordinates_value publicKey).

Section commands.
Context `{Ethers, Secp256k1, HmacApi, WalletApi, KeygenApi} (e : environment).

Definition keystore_value (publicKey : Z * Z) (encryptedKey : value) : value := VObj [
  ("format", VStr "proof-vrf-keystore-v1");
  ("purpose", VStr "VRF_PROOF_KEY_DO_NOT_USE_FOR_TRANSACTIONS");
  ("publicKey", key_text publicKey); ("keyHash", VStr (publicKeyHash publicKey));
  ("serviceKeyHash", VStr (serviceKeyHash publicKey)); ("encryptedKey", encryptedKey)].
Definition key_announcement (publicKey : Z * Z) : value := VObj [
  ("publicKey", key_text publicKey); ("keyHash", VStr (publicKeyHash publicKey));
  ("serviceKeyHash", VStr (serviceKeyHash publicKey))].

Definition createKey (outputPath : value) : eff key_workspace unit :=
  path ← eff_lift (from_option_or "--out is required" (nonempty (as_string outputPath)));
  w ← eff_get;
  _ ← eff_require (bool_decide (kw_files w !! path = None)) ("refusing to overwrite existing key: " +:+ path);
  wallet ← draw_wallet;
  secret ← eff_lift (to_bigint (VStr (w_privateKey wallet)));
  publicKey ← eff_lift (publicKeyFor secret);
  password ← eff_lift (keyPassword e);
  _ ← write_new path (keystore_value publicKey (encrypt wallet password));
  print_line (key_announcement publicKey).

Definition jsonProof (g : generated) : value := VObj [
  ("proof", serializableProof (proof_value (g_proof g))); ("output", VStr (print_int (g_output g)));
  ("publicKey", key_text (g_publicKey g)); ("keyHash", VStr (g_keyHash g));
  ("serviceKeyHash", VStr (g_serviceKeyHash g))].

(** The proof is over the numbers of the texts; the fuel is that of its hash loops. *)
Definition proofOf (fuel : nat) (wallet : wallet) (options : value) : option (result generated) :=
  match (secret ← to_bigint (VStr (w_privateKey wallet));
         seed ← to_bigint (prop_opt options "actual-seed");
         wireSeed ← to_bigint (prop_opt options "pre-seed"); Ok (secret, seed, wireSeed)) with
  | Ok (secret, seed, wireSeed) => generateProof fuel secret seed wireSeed None
  | Throw message => Some (Throw message)
  end.
Definition proveCommand (fuel : nat) (options : value) (w : key_workspace) : option (result unit * key_workspace) :=
  match (wallet ← loadProofWallet e (files_of w) (option_text options "keystore");
         _ ← require (truthy (prop_opt options "actual-seed") && truthy (prop_opt options "pre-seed"))
               "--actual-seed and --pre-seed are required";
         Ok wallet) with
  | Throw message => Some (Throw message, w)
  | Ok wallet => r ← proofOf fuel wallet options; Some ((g ← eff_lift r; print_line (jsonProof g)) w)
  end.
End commands.

(** ** The command that the arguments name *)
Inductive operator_command :=
  | Keygen (out : value) | Prove (options : value) | Run (options : value) | RunService (options : value) | Usage.

Definition operatorCommand (argv : list string) : result operator_command :=
  arguments ← parseArgs argv;
  let options := CommandLine.options arguments in
  let named name := bool_decide (CommandLine.command arguments = Some name) in
  Ok (if named "keygen" then Keygen (prop_opt options "out")
      else if named "prove" then Prove options
      else if named "run" then Run options
      else if named "run-v2" then RunService options
      else Usage).
