(* ===== verification/OperatorCommandsSafety.v ===== *)
(** * A new key proves what the contracts verify ([cli.mjs]) *)

From S2P Require Import Prelude Js Hex CanonicalJson Json JsonText Vendor ScalarField Ecvrf VrfContract EcvrfMath EcvrfProof EcvrfSample Policies ErrorText CommandLine ProofProvider ProverServer ProverSafety Readiness PollingService Samples OperatorCommands.
From stdpp Require Import gmap.

Open Scope Z_scope.

(** Decryption gives back what was encrypted under the password. *)
Class KeygenLaws `{WalletApi, KeygenApi} : Prop := {
  decrypt_encrypt w password : fromEncryptedJson (reread (encrypt w password)) password = Ok w;
  encrypt_defined w password : encrypt w password ≠ VUndef
}.

Section commands.
Context `{Ethers, !EthersLaws, Secp256k1, !Secp256k1Laws, HmacApi, Evm, !EvmLaws, WalletApi, KeygenApi, !KeygenLaws}.
Context (e : environment).

Lemma write_new_Ok path v w u w' :
  write_new path v w = (Ok u, w') →
  kw_files w !! path = None ∧ kw_files w' = <[path := reread v]> (kw_files w) ∧ kw_printed w' = kw_printed w.
Proof. unfold write_new. destruct (kw_files w !! path); [done|]. by intros [= _ <-]. Qed.

(** What [keygen] leaves behind. *)
Lemma createKey_Ok out w w1 :
  createKey e out w = (Ok tt, w1) →
  ∃ path wallet secret publicKey password,
    out = VStr path ∧ path ≠ "" ∧ keyPassword e = Ok password ∧
    to_bigint (VStr (w_privateKey wallet)) = Ok secret ∧ publicKeyFor secret = Ok publicKey ∧
    kw_files w !! path = None ∧
    kw_files w1 = <[path := reread (keystore_value publicKey (encrypt wallet password))]> (kw_files w) ∧
    kw_printed w1 = kw_printed w ++ [key_announcement publicKey].
Proof.
  unfold createKey. intros (path & Hpath%from_option_or_Ok & Hr)%eff_lift_bind_Ok.
  assert (out = VStr path ∧ path ≠ "") as [Hout Hne].
  { destruct out; try done. cbn in Hpath. case_bool_decide; [done|]. by injection Hpath as ->. }
  apply eff_bind_Ok in Hr as (? & ? & [= <- <-] & Hr). apply eff_require_bind_Ok in Hr as [_ Hr].
  apply eff_bind_Ok in Hr as (wallet & w2 & [= <- <-] & Hr).
  apply eff_lift_bind_Ok in Hr as (secret & Hsecret & Hr). apply eff_lift_bind_Ok in Hr as (publicKey & Hkey & Hr).
  apply eff_lift_bind_Ok in Hr as (password & Hpw & Hr).
  apply eff_bind_Ok in Hr as (? & w3 & (Hfree & Hfiles & Hprinted)%write_new_Ok & [= <-]).
  eexists path, _, secret, publicKey, password. split_and!; try done. cbn. by rewrite Hprinted.
Qed.

(** The keystore of [keygen] opens under the password it was made with. *)
Lemma keystore_opens files path publicKey wallet password :
  files !! path = Some (reread (keystore_value publicKey (encrypt wallet password))) →
  keyPassword e = Ok password → ∀ w, kw_files w = files →
  loadProofWallet e (files_of w) (Some path) = Ok wallet.
Proof.
  intros Hfile Hpw w <-. set (keystore := reread _) in Hfile.
  assert (prop_opt keystore "encryptedKey" = reread (encrypt wallet password)) as He
    by (apply prop_opt_reread; [apply encrypt_defined|done]).
  assert (prop keystore "format" = Ok (VStr "proof-vrf-keystore-v1")) as Hformat by done.
  clearbody keystore. unfold loadProofWallet. cbn [from_option_or mbind result_bind files_of read_json].
  rewrite Hfile. cbn [from_option_or mbind result_bind]. rewrite Hformat. cbn [mbind result_bind].
  rewrite Hpw, He. apply decrypt_encrypt.
Qed.

(** C36: a key that [keygen] made is the key that [prove] uses: whenever [prove] prints
    a proof with that keystore, under the same password, the key hashes are those that
    [keygen] announced, the text reads back as one proof, and the contracts accept the
    proof for that key hash and the seeds, with the printed output, but for the
    coordinates and addresses that [ecrecover] cannot take. *)
Theorem keygen_then_prove out w w1 fuel options w2 w3 :
  createKey e out w = (Ok tt, w1) →
  kw_files w1 ⊆ kw_files w2 → prop_opt options "keystore" = out →
  proveCommand e fuel options w2 = Some (Ok tt, w3) →
  ∃ publicKey seed preSeed p output,
    let announced := key_announcement publicKey in
    let printed := VObj [("proof", serializableProof (proof_value p)); ("output", VStr (print_int output));
      ("publicKey", prop_opt announced "publicKey"); ("keyHash", prop_opt announced "keyHash");
      ("serviceKeyHash", prop_opt announced "serviceKeyHash")] in
    kw_printed w1 = kw_printed w ++ [announced] ∧ kw_printed w3 = kw_printed w2 ++ [printed] ∧ kw_files w3 = kw_files w2 ∧
    to_bigint (prop_opt options "actual-seed") = Ok seed ∧ to_bigint (prop_opt options "pre-seed") = Ok preSeed ∧
    normalizeProof (prop_opt printed "proof") (prop_opt options "pre-seed") = Ok p ∧
    (recoverable fuel seed p → verify fuel (serviceKeyHash publicKey) seed preSeed p = Some (Ok output)).
Proof.
  intros (path & wallet & secret & publicKey & password & -> & Hne & Hpw & Hsecret & Hkey & _ & Hfiles & Hprinted)%createKey_Ok
    Hsub Hoption Hprove.
  assert (kw_files w2 !! path = Some (reread (keystore_value publicKey (encrypt wallet password)))) as Hfile.
  { eapply lookup_weaken; [|exact Hsub]. by rewrite Hfiles, lookup_insert_eq. }
  unfold proveCommand, option_text in Hprove. rewrite Hoption in Hprove. cbn [as_string nonempty] in Hprove.
  rewrite bool_decide_false in Hprove by done. rewrite (keystore_opens _ _ _ _ _ Hfile Hpw w2 eq_refl) in Hprove.
  cbn [mbind result_bind] in Hprove. destruct (_ && _); [|discriminate Hprove]. cbn [require mbind result_bind] in Hprove.
  apply bind_Some in Hprove as (r & Hproof & [= Hrun]).
  apply eff_lift_bind_Ok in Hrun as (g & -> & [= <-]). unfold proofOf in Hproof. rewrite Hsecret in Hproof.
  destruct (to_bigint (prop_opt options "actual-seed")) as [seed|] eqn:Eseed; [|discriminate Hproof].
  destruct (to_bigint (prop_opt options "pre-seed")) as [preSeed|] eqn:Epre; [|discriminate Hproof].
  cbn [mbind result_bind] in Hproof. pose proof (generateProof_behind _ _ _ _ _ _ Hproof) as (hash & k & Hfin & Hb & _).
  assert (pk (g_proof g) = publicKey) as Hpk.
  { rewrite (bh_pk _ _ _ _ _ Hb). unfold publicKeyFor in Hkey. apply bind_Ok in Hkey as (? & _ & Hkey).
    by apply bind_Ok in Hkey as (P & [_ ->]%multiply_Ok & [= <-]). }
  exists publicKey, seed, preSeed, (g_proof g), (g_output g). cbv zeta. destruct (bh_publicKey _ _ _ _ _ Hb) as [Ekey Ehash].
  split; [done|]. split_and!; try done.
  - unfold jsonProof. cbn. by rewrite Ekey, Ehash, (bh_key _ _ _ _ _ Hb), Hpk.
  - apply normalizeProof_serializable; [|by rewrite (bh_seed _ _ _ _ _ Hb)].
    rewrite (bh_address _ _ _ _ _ Hb). apply coordinate_address_valid.
  - intros Hrec. rewrite <-Hpk, <-(bh_key _ _ _ _ _ Hb). by apply (generated_verifies _ secret _ _ None).
Qed.
End commands.

(** ** A new key and a proof on the small curve *)
Section examples.
(** A wallet under its password in the clear. *)
#[local] Instance open_wallets : WalletApi := {|
  fromEncryptedJson v password :=
    match v with
    | VObj [(_, VStr privateKey); (_, VStr address); (_, VStr s)] =>
        if bool_decide (s = password) then Ok {| w_privateKey := privateKey; w_address := address |}
        else Throw "incorrect password"
    | _ => Throw "invalid wallet"
    end |}.
#[local] Instance open_keygen : KeygenApi := {|
  createRandom n := {| w_privateKey := print_int (5 + Z.of_nat n); w_address := "0xAE" |};
  encrypt w password := VObj [("privateKey", VStr (w_privateKey w)); ("address", VStr (w_address w)); ("password", VStr password)] |}.
#[local] Instance open_laws : KeygenLaws.
Proof. split; [|done]. intros [k a] password. cbn. by rewrite bool_decide_true. Qed.

Definition key_environment : environment := {|
  env name := if bool_decide (name = "VRF_KEY_PASSWORD") then Some "correct horse" else None;
  lstat _ := Throw "ENOENT"; read_file _ := Throw "ENOENT" |}.
Definition new_key : result unit * key_workspace :=
  createKey key_environment (VStr "vrf-key.json") {| kw_files := ∅; kw_printed := []; kw_drawn := 0 |}.
Definition prove_options : value :=
  VObj [("keystore", VStr "vrf-key.json"); ("actual-seed", VStr "7"); ("pre-seed", VStr "6")].
#[local] Notation "'proved'" := (proveCommand key_environment 20 prove_options new_key.2).

Lemma keygen_then_prove_witness : ∃ publicKey p,
  kw_printed new_key.2 = [key_announcement publicKey] ∧
  verify 20 (serviceKeyHash publicKey) 7 6 p = Some (Ok 128).
Proof.
  destruct toy_generated as [g|] eqn:Eg; [|discriminate Eg]. pose proof (toy_recoverable g Eg) as Hrec.
  assert ((λ r, (r.1, (λ v, (prop_opt v "output", normalizeProof (prop_opt v "proof") (VStr "6"))) <$> tail (kw_printed r.2)))
    <$> proved = Some (Ok tt, [(VStr "128", Ok (g_proof g))])) as Hr by (injection Eg as <-; vm_refl).
  destruct proved as [[r w3]|] eqn:E; [|discriminate Hr]. injection Hr as -> Hout.
  assert (new_key.1 = Ok tt) as Hk by vm_refl.
  destruct (keygen_then_prove key_environment (VStr "vrf-key.json") {| kw_files := ∅; kw_printed := []; kw_drawn := 0 |}
    new_key.2 20 prove_options new_key.2 w3)
    as (publicKey & seed & preSeed & p & output & Hann & Hprinted & _ & Hs & Hp & Hread & Hver).
  - rewrite <-Hk. apply surjective_pairing.
  - done.
  - done.
  - exact E.
  - exists publicKey, p. split; [exact Hann|]. injection Hs as <-. injection Hp as <-.
    rewrite Hprinted, Hann in Hout. cbn [kw_printed app tail fmap list_fmap] in Hout.
    injection Hout as Hout Hproof. change (prop_opt prove_options "pre-seed") with (VStr "6") in Hread.
    assert (p = g_proof g) as -> by (enough (Ok p = Ok (g_proof g)) as [= ->]; [done|by rewrite <-Hread]).
    apply (print_int_inj output 128) in Hout as ->. exact (Hver Hrec).
Defined.

(** The words of the command line. *)
Lemma operatorCommand_words :
  operatorCommand ["keygen"; "--out"; "k.json"] = Ok (Keygen (VStr "k.json")) ∧
  operatorCommand [] = Ok Usage ∧ operatorCommand ["keygen"; "--out"] = Throw "missing value for --out".
Proof. by split_and!. Qed.
End examples.
