(* ===== verification/SoakReport.v ===== *)
(** * The report of a soak test ([soak-report.mjs])

    The events of the coordinator over a range of blocks, as every endpoint gives
    them, and the assessment of what was requested, settled and called back.  The
    endpoints are parameters; an answer depends on the number of the call, and calls
    that the code makes together are made in order.  The report file is left out. *)

From S2P Require Import Prelude Js Hex CanonicalJson Vendor Policies OperatorStore ErrorText CommandLine Archiver Readiness.

Open Scope Z_scope.

Inductive event_kind := RandomWordsRequested | ProofVerified | CallbackAttempted | RequestSettled | RequestExpiredAndReleased.
Record soak_event := {
  se_blockNumber : Z; se_blockHash : string; se_transactionHash : string; se_index : Z;
  se_topics : list string; se_data : string
}.
Record boundary_block := { bb_hash : string; bb_timestamp : Z }.

Class SoakApi := {
  sk_chainId : nat → string → result Z;
  sk_blockNumber : nat → string → result Z;
  sk_code : nat → string → string → result bytes;
  sk_query : nat → string → event_kind → scan_window → result (list soak_event);
  sk_block : nat → string → Z → result (option boundary_block);
  sk_contextBlock : nat → string → Z → result Z;           (* contextBlockNumber at a block *)
  (** The arguments of an event, from its topics and data. *)
  arg_requestId : soak_event → Z;
  arg_expiresAtBlock : soak_event → Z;
  arg_success : soak_event → bool
}.

(** The arguments of a settlement event, which other reports read. *)
Class SettlementArguments := {
  arg_networkCost : soak_event → Z;
  arg_totalCharge : soak_event → Z;
  arg_operatorPayment : soak_event → Z;
  arg_treasuryPayment : soak_event → Z
}.

(** ** Options *)

(** All arguments, two at a time; a value may start with dashes. *)
Fixpoint parsePairs (argv : list string) (options : list (string * value))
    : result (list (string * value)) :=
  let near item := "invalid argument near " +:+ (if bool_decide (item = "") then "end of command" else item) in
  match argv with
  | [] => Ok options
  | [item] => Throw (near item)
  | item :: v :: rest =>
      _ ← require (starts_with "--" item) (near item);
      parsePairs rest (set_option (slice2 item) v options)
  end.

(** [||] over conditions that may throw. *)
Fixpoint any_of (conditions : list (result bool)) : result bool :=
  match conditions with
  | [] => Ok false
  | c :: conditions => b ← c; if b : bool then Ok true else any_of conditions
  end.
Definition differs (a b : value) : result bool := Ok (negb (strict_eq a b)).
(** [a.toLowerCase() !== b] *)
Definition lower_differs (a : result value) (b : string) : result bool :=
  a ← a; a ← to_lower a; Ok (negb (bool_decide (a = b))).

(** ** Statistics *)

(** The block numbers are compared as doubles, which agrees with the comparison of
    the integers when the block of the context is a safe integer.  A percentile is
    [null] for no values; the ratio of the percentages that are used rounds to the
    same integer as the product of doubles. *)
Definition percentile (values : list Z) (percent : Z) : option Z :=
  match values with
  | [] => None
  | _ =>
      let sorted := merge_sort Z.le values in
      let n := Z.of_nat (length sorted) in
      sorted !! Z.to_nat (Z.max 0 (- ((- (percent * n)) / 100) - 1))
  end.
Definition rateBps (numerator denominator : Z) : option Z :=
  if denominator =? 0 then None else Some ((numerator * 10000) / denominator).

Definition countOverdueRequests (requests : list (Z * (Z * Z))) (settledById : list (Z * soak_event))
    (expiredIds : list Z) (contextBlockNumber : Z) : Z :=
  Z.of_nat (length (filter (λ e : Z * (Z * Z),
    negb (bool_decide (is_Some (map_get e.1 settledById)))
    && negb (bool_decide (e.1 ∈ expiredIds)) && (e.2.2 <? contextBlockNumber) = true) requests)).

(** ** The events of an endpoint *)

Definition soak_event_value (e : soak_event) : value :=
  VObj [("blockNumber", VNum (se_blockNumber e)); ("blockHash", VStr (lower (se_blockHash e)));
        ("transactionHash", VStr (lower (se_transactionHash e))); ("index", VNum (se_index e));
        ("topics", VArr ((λ t, VStr (lower t)) <$> se_topics e)); ("data", VStr (lower (se_data e)))].
Definition eventFingerprint (events : list soak_event) : value := VArr (soak_event_value <$> events).

Record soak_state := {
  so_requested : list soak_event; so_verified : list soak_event; so_callbacks : list soak_event;
  so_settled : list soak_event; so_expired : list soak_event;
  so_startBlock : boundary_block; so_endBlock : boundary_block; so_contextBlock : Z
}.
Definition soak_value (s : soak_state) : value :=
  VObj [("startBlockHash", VStr (lower (bb_hash (so_startBlock s))));
        ("endBlockHash", VStr (lower (bb_hash (so_endBlock s))));
        ("contextBlock", VStr (print_int (so_contextBlock s)));
        ("requested", eventFingerprint (so_requested s)); ("verified", eventFingerprint (so_verified s));
        ("callbacks", eventFingerprint (so_callbacks s)); ("settled", eventFingerprint (so_settled s));
        ("expired", eventFingerprint (so_expired s))].

Section soak.
Context `{Ethers, UrlApi, SoakApi}.

(** The range in windows of at most [blockRange]; one turn for each block of the
    range is enough. *)
Fixpoint query_windows (query : scan_window → nat → result (list soak_event)) (fuel : nat) (start last blockRange : Z)
    : eff nat (list soak_event) :=
  match fuel with
  | O => mret []
  | S fuel =>
      if start <=? last then
        events ← call (query {| fromBlock := start; toBlock := Z.min last (start + blockRange - 1) |});
        rest ← query_windows query fuel (start + blockRange) last blockRange;
        mret (events ++ rest)
      else mret []
  end.
Definition queryInRanges (url : string) (kind : event_kind) (from last blockRange : Z) : eff nat (list soak_event) :=
  query_windows (λ w n, sk_query n url kind w) (S (Z.to_nat (last - from))) from last blockRange.

Definition readSoak (coordinator : string) (codeHash : result string) (from last blockRange : Z) (url : string)
    : eff nat (soak_state * string) :=
  code ← call (λ n, sk_code n url coordinator);
  let mismatch := "coordinator runtime code does not match the deployment manifest" in
  _ ← eff_require (has_code code) mismatch;
  codeHash ← eff_lift codeHash;
  _ ← eff_require (bool_decide (lower (keccak256 code) = codeHash)) mismatch;
  let query kind := queryInRanges url kind from last blockRange in
  requested ← query RandomWordsRequested;
  verified ← query ProofVerified;
  callbacks ← query CallbackAttempted;
  settled ← query RequestSettled;
  expired ← query RequestExpiredAndReleased;
  startBlock ← call (λ n, sk_block n url from);
  endBlock ← call (λ n, sk_block n url last);
  contextBlock ← call (λ n, sk_contextBlock n url last);
  let missing := "an RPC could not resolve the soak boundary blocks" in
  startBlock ← eff_lift (from_option_or missing startBlock);
  endBlock ← eff_lift (from_option_or missing endBlock);
  let state := {| so_requested := requested; so_verified := verified; so_callbacks := callbacks;
                  so_settled := settled; so_expired := expired; so_startBlock := startBlock;
                  so_endBlock := endBlock; so_contextBlock := contextBlock |} in
  fingerprint ← eff_lift (canonicalJson (soak_value state));
  mret (state, fingerprint).

(** ** The assessment *)

Record thresholds := {
  th_expectedDays : Z; th_minimumRequests : Z; th_minimumFulfillmentRateBps : Z; th_minimumCallbackRateBps : Z
}.
Record soak_metrics := {
  sm_overdue : Z; sm_successfulCallbacks : Z; sm_durationSeconds : Z;
  sm_fulfillmentRateBps : option Z; sm_callbackRateBps : option Z; sm_latencyBlocks : list Z
}.

Definition soakMetrics (s : soak_state) : soak_metrics :=
  let requests := map_sets [] ((λ e, (arg_requestId e, (se_blockNumber e, arg_expiresAtBlock e))) <$> so_requested s) in
  let settledById := map_sets [] ((λ e, (arg_requestId e, e)) <$> so_settled s) in
  let expiredIds := arg_requestId <$> so_expired s in
  let finalCallback := map_sets [] ((λ e, (arg_requestId e, arg_success e)) <$> so_callbacks s) in
  let overdue := countOverdueRequests requests settledById expiredIds (so_contextBlock s) in
  let settled := Z.of_nat (length (so_settled s)) in
  let successfulCallbacks := Z.of_nat (length (filter (λ id, map_get id finalCallback = Some true) settledById.*1)) in
  {| sm_overdue := overdue; sm_successfulCallbacks := successfulCallbacks;
     sm_durationSeconds := Z.max 0 (bb_timestamp (so_endBlock s) - bb_timestamp (so_startBlock s));
     sm_fulfillmentRateBps := rateBps settled (settled + Z.of_nat (length (so_expired s)) + overdue);
     sm_callbackRateBps := rateBps successfulCallbacks settled;
     sm_latencyBlocks := omap (λ x : Z * soak_event,
       request ← map_get x.1 requests; Some (se_blockNumber x.2 - request.1)) settledById |}.

(** [chainMetricsPass]; the days are a quotient, compared with an integer. *)
Definition chainMetricsPass (t : thresholds) (s : soak_state) : bool :=
  let m := soakMetrics s in
  let at_least rate minimum := match rate with Some r => minimum <=? r | None => false end in
  (th_expectedDays t * 86400 <=? sm_durationSeconds m)
  && (th_minimumRequests t <=? Z.of_nat (length (so_requested s)))
  && at_least (sm_fulfillmentRateBps m) (th_minimumFulfillmentRateBps t)
  && at_least (sm_callbackRateBps m) (th_minimumCallbackRateBps t) && (sm_overdue m =? 0).

(** ** The report *)

(** The three reports that must belong together. *)
Definition reportsDiffer (manifest verification smoke : value) (coordinator : string) : result bool :=
  let not_value v k (expected : value) := x ← prop v k; differs x expected in
  let same_text v k := x ← prop v k; y ← prop manifest k; Ok (negb (bool_decide (to_str x = to_str y))) in
  let same v k := x ← prop v k; y ← prop manifest k; differs x y in
  any_of [
    not_value manifest "format" (VStr "robinhood-proof-vrf-deployment/v1");
    not_value verification "format" (VStr "robinhood-proof-vrf-deployment-verification/v1");
    not_value verification "status" (VStr "pass");
    not_value smoke "format" (VStr "robinhood-proof-vrf-smoke-report/v1");
    not_value smoke "status" (VStr "pass");
    same_text verification "chainId"; same_text smoke "chainId";
    same verification "gitCommit"; same smoke "gitCommit";
    lower_differs (prop verification "coordinator") (lower coordinator);
    lower_differs (prop smoke "coordinator") (lower coordinator);
    lower_differs (c ← prop manifest "contracts"; c ← prop c "coordinator"; prop c "address") (lower coordinator)].

(** [n < Number(v)] *)
Definition below_number (n : Z) (v : value) : bool :=
  number_lt n v || match to_number v with Some z => n <? z | None => false end.

Record soak_report := {
  sr_coordinator : string; sr_urls : list string; sr_fromBlock : Z; sr_toBlock : Z;
  sr_state : soak_state; sr_thresholds : thresholds; sr_pass : bool;
  sr_latency : list (option Z)                            (* p50, p95, p99, max *)
}.

Definition soakThresholds (o : value) : result thresholds :=
  let number k fallback minimum := positiveInteger (prop_opt o k) k (VNum fallback) minimum in
  expectedDays ← number "expected-days" 30 1;
  minimumRequests ← number "minimum-requests" 1000 1;
  minimumFulfillmentRateBps ← number "minimum-fulfillment-rate-bps" 9990 0;
  minimumCallbackRateBps ← number "minimum-callback-rate-bps" 9990 0;
  Ok {| th_expectedDays := expectedDays; th_minimumRequests := minimumRequests;
        th_minimumFulfillmentRateBps := minimumFulfillmentRateBps;
        th_minimumCallbackRateBps := minimumCallbackRateBps |}.

Definition soakReport (e : environment) (files : file_system) (o : value) : eff nat soak_report :=
  let read k := path ← from_option_or ("--" +:+ k +:+ " is required") (option_text o k); read_json files path in
  _ ← eff_require (truthy (prop_opt o "coordinator") && negb (bool_decide (prop_opt o "from-block" = VUndef)))
        "--coordinator and --from-block are required";
  manifest ← eff_lift (read "manifest");
  verification ← eff_lift (read "verification-report");
  smoke ← eff_lift (read "smoke-report");
  coordinator ← eff_lift (from_option_or "invalid address"
                            (a ← as_string (prop_opt o "coordinator"); getAddress a));
  differ ← eff_lift (reportsDiffer manifest verification smoke coordinator);
  _ ← eff_require (negb differ) "matching passing deployment and smoke reports are required";
  secret ← eff_lift (readSecret e "VRF_RPC_URLS" false);
  urls ← eff_lift (normalizeRpcUrls
    (VArr ((VStr <$> split_on "," (default "" secret))
           ++ [prop_opt o "rpc-url"; prop_opt o "rpc-url-secondary"]))
    {| minimum := 2; label := "soak verification"; allowSharedOrigin := false |});
  networks ← mapM (λ url, call (λ n, sk_chainId n url)) urls;
  chainId ← eff_lift (to_bigint (prop_opt manifest "chainId"));
  _ ← eff_require (forallb (Z.eqb chainId) networks)
        "an RPC returned a chainId that differs from the deployment manifest";
  fromBlock ← eff_lift (positiveInteger (prop_opt o "from-block") "from-block" VUndef 0);
  _ ← eff_require (negb (below_number fromBlock (prop_opt smoke "checkedThroughBlock")))
        "--from-block must be at or after the passing smoke report's checked block";
  heads ← mapM (λ url, call (λ n, sk_blockNumber n url)) urls;
  toBlock ← eff_lift (if bool_decide (prop_opt o "to-block" = VUndef) then Ok (list_min heads)
                      else positiveInteger (prop_opt o "to-block") "to-block" VUndef 0);
  _ ← eff_require (forallb (Z.leb toBlock) heads) "--to-block is above an RPC head";
  blockRange ← eff_lift (positiveInteger (prop_opt o "block-range") "block-range" (VNum 2000) 1);
  t ← eff_lift (soakThresholds o);
  _ ← eff_require (fromBlock <=? toBlock) "--to-block must not be below --from-block";
  let codeHash := c ← prop manifest "contracts"; c ← prop c "coordinator";
                  h ← prop c "runtimeCodeHash"; to_lower h in
  states ← mapM (readSoak coordinator codeHash fromBlock toBlock blockRange) urls;
  first ← eff_lift (from_option_or TYPE_ERROR (head states));
  _ ← eff_require (forallb (λ s : soak_state * string, bool_decide (s.2 = first.2)) states)
        "independent RPC endpoints disagree on the soak range or events";
  let latency := sm_latencyBlocks (soakMetrics first.1) in
  mret {| sr_coordinator := coordinator; sr_urls := urls; sr_fromBlock := fromBlock; sr_toBlock := toBlock;
          sr_state := first.1; sr_thresholds := t; sr_pass := chainMetricsPass t first.1;
          sr_latency := percentile latency <$> [50; 95; 99; 100] |}.
End soak.
