(* ===== verification/SoakSafety.v ===== *)
(** * What a passing soak report says ([soak-report.mjs]) *)

From S2P Require Import Prelude Js Hex CanonicalJson Vendor Policies OperatorStore Samples ErrorText CommandLine Archiver Readiness ServiceStartSafety ReadinessSafety PollingSafety SoakReport.

Open Scope Z_scope.

(** ** Statistics *)

(** The percentile of a percentage is the nearest rank: one of the values, with at
    least that share of the values at or below it, and fewer below any smaller one. *)
Lemma percentile_rank values percent v :
  0 < percent <= 100 → percentile values percent = Some v →
  ∃ sorted k, sorted ≡ₚ values ∧ Sorted Z.le sorted ∧ sorted !! k = Some v ∧
    percent * Z.of_nat (length values) <= 100 * Z.of_nat (S k) < percent * Z.of_nat (length values) + 100.
Proof.
  intros Hp. unfold percentile. destruct values as [|x values]; [done|]. set (l := x :: values). cbv zeta.
  assert (length (merge_sort Z.le l) = length l) as El by (apply Permutation_length, merge_sort_Permutation).
  assert (1 <= Z.of_nat (length l)) as Hl by (cbn; lia). rewrite El. generalize dependent (Z.of_nat (length l)).
  intros n Hn. set (k := Z.max 0 _). intros Hv. exists (merge_sort Z.le l), (Z.to_nat k).
  pose proof (Z.mod_pos_bound (- (percent * n)) 100 ltac:(lia)). pose proof (Z.div_mod (- (percent * n)) 100 ltac:(lia)).
  assert (1 <= - ((- (percent * n)) / 100)) by nia.
  split; [apply merge_sort_Permutation|]. split; [apply Sorted_merge_sort; apply _|]. split; [exact Hv|].
  assert (Z.of_nat (S (Z.to_nat k)) = - ((- (percent * n)) / 100)) as -> by (unfold k; lia). lia.
Qed.

Lemma rateBps_at_least numerator denominator r minimum :
  0 <= denominator → rateBps numerator denominator = Some r → minimum <= r →
  0 < denominator ∧ minimum * denominator <= 10000 * numerator.
Proof.
  unfold rateBps. destruct (Z.eqb_spec denominator 0); [done|]. intros ? [= <-] Hm.
  pose proof (Z.mul_div_le (numerator * 10000) denominator ltac:(lia)). split; [lia|nia].
Qed.

(** Nothing is overdue: what was requested was settled, or has expired, or is not
    past its last block. *)
Lemma not_overdue requests settledById expiredIds contextBlock id x :
  countOverdueRequests requests settledById expiredIds contextBlock = 0 → (id, x) ∈ requests →
  id ∈ settledById.*1 ∨ id ∈ expiredIds ∨ contextBlock <= x.2.
Proof.
  unfold countOverdueRequests. intros Hz Hin.
  destruct (decide (id ∈ settledById.*1)) as [|Hs]; [by left|right].
  destruct (decide (id ∈ expiredIds)) as [|He]; [by left|right].
  apply Z.le_ngt. intros Hlt. assert (length (filter (λ e : Z * (Z * Z),
    negb (bool_decide (is_Some (map_get e.1 settledById)))
    && negb (bool_decide (e.1 ∈ expiredIds)) && (e.2.2 <? contextBlock) = true) requests) = 0%nat) as Hl by lia.
  apply length_zero_iff_nil in Hl. eapply (filter_nil_not_elem_of _ _ (id, x)); [exact Hl| |exact Hin]. cbn.
  apply map_get_None in Hs. rewrite Hs, (bool_decide_false (id ∈ expiredIds)) by done.
  by rewrite (proj2 (Z.ltb_lt _ _)) by done.
Qed.

(** ** Agreement of the endpoints *)

(** An event up to the case of its texts. *)
Definition lower_event (e : soak_event) : soak_event := {|
  se_blockNumber := se_blockNumber e; se_blockHash := lower (se_blockHash e);
  se_transactionHash := lower (se_transactionHash e); se_index := se_index e;
  se_topics := lower <$> se_topics e; se_data := lower (se_data e) |}.
Definition same_events (a b : list soak_event) : Prop := lower_event <$> a = lower_event <$> b.
Definition same_state (a b : soak_state) : Prop :=
  same_events (so_requested a) (so_requested b) ∧ same_events (so_verified a) (so_verified b) ∧
  same_events (so_callbacks a) (so_callbacks b) ∧ same_events (so_settled a) (so_settled b) ∧
  same_events (so_expired a) (so_expired b) ∧ so_contextBlock a = so_contextBlock b ∧
  lower (bb_hash (so_startBlock a)) = lower (bb_hash (so_startBlock b)) ∧
  lower (bb_hash (so_endBlock a)) = lower (bb_hash (so_endBlock b)).

(** Objects with the same keys are the same document field by field. *)
Lemma norm_object fs gs :
  norm (VObj fs) = norm (VObj gs) → keys fs = keys gs → all_distinct (keys fs) = true →
  Forall2 (λ p q, norm p = norm q) fs.*2 gs.*2.
Proof.
  intros E Hk Hd%all_distinct_spec. pose proof (norm_fields _ _ E Hk Hd) as Hf. clear -Hf.
  induction Hf as [|p q fs gs [_ Hpq] _ IH]; cbn; by constructor.
Qed.
Lemma norm_strings l k : norm (VArr (VStr <$> l)) = norm (VArr (VStr <$> k)) → l = k.
Proof.
  cbn. intros [= E]. revert k E. induction l as [|x l IH]; intros [|y k]; try done. cbn. intros [= -> E]. f_equal. auto.
Qed.
(** [VStr (lower t)] of a list of texts. *)
Lemma norm_lower l k :
  norm (VArr ((λ t, VStr (lower t)) <$> l)) = norm (VArr ((λ t, VStr (lower t)) <$> k)) → lower <$> l = lower <$> k.
Proof. intros E. apply norm_strings. by rewrite <-!list_fmap_compose. Qed.

Lemma soak_event_value_inj a b : norm (soak_event_value a) = norm (soak_event_value b) → lower_event a = lower_event b.
Proof.
  intros E. apply norm_object in E; [|done|vm_refl]. cbn [snd fmap list_fmap] in E.
  repeat match goal with E : Forall2 _ (_ :: _) _ |- _ => apply Forall2_cons in E as [? E] end.
  unfold lower_event. repeat match goal with H : norm (VArr _) = _ |- _ => apply norm_lower in H end.
  cbn [norm] in *. congruence.
Qed.
Lemma eventFingerprint_inj a b : norm (eventFingerprint a) = norm (eventFingerprint b) → same_events a b.
Proof.
  unfold eventFingerprint, same_events. cbn [norm]. intros [= E]. revert b E.
  induction a as [|x a IH]; intros [|y b]; try done. rewrite !fmap_cons.
  intros E. pose proof (f_equal (default VNull ∘ head) E) as Exy. apply (f_equal tail) in E. cbn [compose head tail default] in *.
  f_equal; [by apply soak_event_value_inj|by apply IH].
Qed.
Lemma soak_value_inj a b : norm (soak_value a) = norm (soak_value b) → same_state a b.
Proof.
  intros E. apply norm_object in E; [|done|vm_refl]. cbn [snd fmap list_fmap] in E.
  repeat match goal with E : Forall2 _ (_ :: _) _ |- _ => apply Forall2_cons in E as [? E] end.
  cbn [norm] in *. repeat match goal with H : norm (eventFingerprint _) = _ |- _ => apply eventFingerprint_inj in H end.
  simplify_eq. unfold same_state. split_and!; try done. by apply print_int_inj.
Qed.

Section soak.
Context `{Ethers, UrlApi, SoakApi}.

(** The events that a query serves for a range, in windows that tile it. *)
Definition served_windows (query : scan_window → nat → result (list soak_event)) (from last blockRange : Z)
    (events : list soak_event) : Prop :=
  ∃ windows answers, tiles blockRange from windows (last + 1) ∧ events = concat answers ∧
    Forall2 (λ w a, ∃ n, query w n = Ok a) windows answers.
(** Those of a kind that an endpoint serves. *)
Definition served_events (url : string) (from last blockRange : Z) (kind : event_kind) : list soak_event → Prop :=
  served_windows (λ w n, sk_query n url kind w) from last blockRange.

Lemma query_windows_Ok query fuel start last blockRange n events n' :
  1 <= blockRange → start <= last + 1 → last - start < Z.of_nat fuel →
  query_windows query fuel start last blockRange n = (Ok events, n') →
  served_windows query start last blockRange events.
Proof.
  intros Hb. revert start n events. induction fuel as [|fuel IH]; intros start n events Hs Hf; cbn [query_windows].
  { intros [= <- <-]. exists [], []. split_and!; [cbn; lia|done|constructor]. }
  destruct (Z.leb_spec start last) as [Hle|Hgt].
  2: { intros [= <- <-]. exists [], []. split_and!; [cbn; lia|done|constructor]. }
  set (w := Build_scan_window _ _). intros (a & Ha & Hr)%call_bind_Ok.
  apply eff_bind_Ok in Hr as (rest & n1 & Hrest & [= <- <-]).
  destruct (Z.le_gt_cases (start + blockRange) (last + 1)) as [Hnext|Hend].
  - apply IH in Hrest as (windows & answers & Ht & -> & HF); [|lia..]. exists (w :: windows), (a :: answers).
    split_and!; [|done|constructor; [by exists n|done]]. cbn. rewrite Z.min_r by lia. split_and!; [done|lia|lia|].
    by replace (start + blockRange - 1 + 1) with (start + blockRange) by lia.
  - assert (rest = []) as ->.
    { destruct fuel; cbn in Hrest; [by injection Hrest|]. rewrite (proj2 (Z.leb_gt _ _)) in Hrest by lia. by injection Hrest. }
    exists [w], [a]. split_and!; [|done|constructor; [by exists n|constructor]]. cbn. lia.
Qed.
Lemma queryInRanges_Ok url kind from last blockRange n events n' :
  1 <= blockRange → from <= last + 1 →
  queryInRanges url kind from last blockRange n = (Ok events, n') → served_events url from last blockRange kind events.
Proof. intros ??. apply query_windows_Ok; lia. Qed.

(** What an endpoint serves for the whole range. *)
Record served_state (coordinator : string) (from last blockRange : Z) (url : string) (s : soak_state) : Prop := {
  ss_requested : served_events url from last blockRange RandomWordsRequested (so_requested s);
  ss_verified : served_events url from last blockRange ProofVerified (so_verified s);
  ss_callbacks : served_events url from last blockRange CallbackAttempted (so_callbacks s);
  ss_settled : served_events url from last blockRange RequestSettled (so_settled s);
  ss_expired : served_events url from last blockRange RequestExpiredAndReleased (so_expired s);
  ss_blocks : ∃ i j, sk_block i url from = Ok (Some (so_startBlock s)) ∧ sk_block j url last = Ok (Some (so_endBlock s))
}.

Lemma readSoak_Ok coordinator codeHash from last blockRange url n s fp n' :
  1 <= blockRange → from <= last →
  readSoak coordinator codeHash from last blockRange url n = (Ok (s, fp), n') →
  served_state coordinator from last blockRange url s ∧ canonicalJson (soak_value s) = Ok fp.
Proof.
  intros Hb Hle. unfold readSoak. intros (code & _ & Hr)%call_bind_Ok. apply eff_require_bind_Ok in Hr as [_ Hr].
  apply eff_lift_bind_Ok in Hr as (h & _ & Hr). apply eff_require_bind_Ok in Hr as [_ Hr].
  assert (∀ kind n events n', queryInRanges url kind from last blockRange n = (Ok events, n') →
    served_events url from last blockRange kind events) as Hq.
  { intros kind m events m' Hm. eapply queryInRanges_Ok, Hm; lia. }
  apply eff_bind_Ok in Hr as (requested & n1 & H1'%Hq & Hr). apply eff_bind_Ok in Hr as (verified & n2 & H2'%Hq & Hr).
  apply eff_bind_Ok in Hr as (callbacks & n3 & H3'%Hq & Hr). apply eff_bind_Ok in Hr as (settled & n4 & H4'%Hq & Hr).
  apply eff_bind_Ok in Hr as (expired & n5 & H5'%Hq & Hr). apply call_bind_Ok in Hr as (b1 & Hb1 & Hr).
  apply call_bind_Ok in Hr as (b2 & Hb2 & Hr). apply call_bind_Ok in Hr as (context & _ & Hr).
  apply eff_lift_bind_Ok in Hr as (startBlock & ->%from_option_or_Ok & Hr).
  apply eff_lift_bind_Ok in Hr as (endBlock & ->%from_option_or_Ok & Hr).
  apply eff_lift_bind_Ok in Hr as (fp' & Hfp & [= <- <- <-]). split; [|exact Hfp]. split; try assumption. cbn. eauto.
Qed.
Lemma readSoaks_Ok coordinator codeHash from last blockRange urls n states n' :
  1 <= blockRange → from <= last →
  mapM (readSoak coordinator codeHash from last blockRange) urls n = (Ok states, n') →
  Forall2 (λ url s, served_state coordinator from last blockRange url s.1 ∧ canonicalJson (soak_value s.1) = Ok s.2) urls states.
Proof.
  intros Hb Hle. revert n states. induction urls as [|url urls IH]; intros n states; cbn; [by intros [= <- <-]|].
  intros ([s fp] & n1 & Hs%readSoak_Ok & Hr)%eff_bind_Ok; [|done..]. apply eff_bind_Ok in Hr as (rest & n2 & Hrest & [= <- <-]).
  constructor; [exact Hs|]. by eapply IH.
Qed.

(** What a passing assessment of a state says of its events. *)
Record soak_passed (t : thresholds) (s : soak_state) : Prop := {
  sp_duration : 86400 * th_expectedDays t <= Z.max 0 (bb_timestamp (so_endBlock s) - bb_timestamp (so_startBlock s));
  sp_volume : th_minimumRequests t <= Z.of_nat (length (so_requested s));
  sp_finished e : e ∈ so_requested s →
    arg_requestId e ∈ arg_requestId <$> so_settled s ∨ arg_requestId e ∈ arg_requestId <$> so_expired s ∨
    ∃ e', e' ∈ so_requested s ∧ arg_requestId e' = arg_requestId e ∧ so_contextBlock s <= arg_expiresAtBlock e';
  sp_fulfillment : th_minimumFulfillmentRateBps t * Z.of_nat (length (so_settled s) + length (so_expired s))
    <= 10000 * Z.of_nat (length (so_settled s));
  sp_callbacks : so_settled s ≠ [] ∧ ∃ called, NoDup called ∧
    th_minimumCallbackRateBps t * Z.of_nat (length (so_settled s)) <= 10000 * Z.of_nat (length called) ∧
    ∀ id, id ∈ called → id ∈ arg_requestId <$> so_settled s ∧
      ∃ e, e ∈ so_callbacks s ∧ arg_requestId e = id ∧ arg_success e = true
}.

Lemma map_sets_fst {A} (f : soak_event → A) events x :
  x ∈ (map_sets [] ((λ e, (arg_requestId e, f e)) <$> events)).*1 ↔ x ∈ arg_requestId <$> events.
Proof. rewrite map_sets_keys, <-list_fmap_compose. set_solver. Qed.

Lemma chainMetricsPass_passed t s : chainMetricsPass t s = true → soak_passed t s.
Proof.
  unfold chainMetricsPass. cbv zeta. rewrite !andb_true_iff, !Z.leb_le. intros ((((Hd & Hv) & Hf) & Hc) & Ho%Z.eqb_eq).
  unfold soakMetrics in *. cbv zeta in *. cbn [sm_durationSeconds sm_fulfillmentRateBps sm_callbackRateBps sm_overdue] in *.
  rewrite Ho in Hf. set (settledById := map_sets [] ((λ e, (arg_requestId e, e)) <$> so_settled s)) in *.
  set (finalCallback := map_sets [] ((λ e, (arg_requestId e, arg_success e)) <$> so_callbacks s)) in *.
  destruct (rateBps _ (_ + _ + 0)) as [f|] eqn:Ef; [|done]. apply Z.leb_le in Hf.
  eapply rateBps_at_least in Ef as [Hpos Ef]; [|lia|exact Hf].
  destruct (rateBps (Z.of_nat (length (filter _ _))) _) as [c|] eqn:Ec; [|done]. apply Z.leb_le in Hc.
  eapply rateBps_at_least in Ec as [Hpos' Ec]; [|lia|exact Hc].
  split; [lia|done| |lia|].
  - intros e He. assert (arg_requestId e ∈ (map_sets [] ((λ e, (arg_requestId e, (se_blockNumber e, arg_expiresAtBlock e)))
      <$> so_requested s)).*1) as Hin by (apply map_sets_fst, list_elem_of_fmap; eauto).
    apply list_elem_of_fmap in Hin as ([id x] & Eid & Hin). cbn in Eid.
    destruct (not_overdue _ _ _ _ id x Ho Hin) as [Hs|[Hs|Hs]].
    + left. rewrite Eid. by apply map_sets_fst in Hs.
    + right. left. by rewrite Eid.
    + right. right. apply map_sets_elem in Hin as [Hin|Hin]; [|by apply elem_of_nil in Hin].
      apply list_elem_of_fmap in Hin as (e' & [= -> ->] & He'). by exists e'.
  - split; [by intros En; rewrite En in Hpos'|].
    exists (filter (λ id, map_get id finalCallback = Some true) settledById.*1). split; [|split; [lia|]].
    + apply NoDup_filter, map_sets_NoDup. constructor.
    + intros id [Hg%map_get_elem Hin]%list_elem_of_filter. split; [by apply map_sets_fst in Hin|].
      apply map_sets_elem in Hg as [Hg|Hg]; [|by apply elem_of_nil in Hg].
      apply list_elem_of_fmap in Hg as (e & [= -> Ee] & He). by exists e.
Qed.

(** A soak report that passes is about events that two endpoints or more serve for
    the whole range; over it the test was long enough and had enough requests; each
    request was settled, has expired or is not past its last block; the settled ones
    are the required share of the finished, and enough of them called back with
    success. *)
Theorem soak_pass_sound e files o n r n' :
  soakReport e files o n = (Ok r, n') → sr_pass r = true →
  soak_passed (sr_thresholds r) (sr_state r) ∧ (2 <= length (sr_urls r))%nat ∧ NoDup (sr_urls r) ∧
  ∃ blockRange, 1 <= blockRange ∧ ∀ url, url ∈ sr_urls r → ∃ s,
    served_state (sr_coordinator r) (sr_fromBlock r) (sr_toBlock r) blockRange url s ∧ same_state s (sr_state r).
Proof.
  unfold soakReport. intros Hr Hpass. apply eff_require_bind_Ok in Hr as [_ Hr].
  do 3 apply eff_lift_bind_Ok in Hr as (? & _ & Hr). apply eff_lift_bind_Ok in Hr as (coordinator & _ & Hr).
  apply eff_lift_bind_Ok in Hr as (? & _ & Hr). apply eff_require_bind_Ok in Hr as [_ Hr].
  apply eff_lift_bind_Ok in Hr as (? & _ & Hr). apply eff_lift_bind_Ok in Hr as (urls & Hurls & Hr).
  apply eff_bind_Ok in Hr as (? & ? & _ & Hr). apply eff_lift_bind_Ok in Hr as (? & _ & Hr).
  apply eff_require_bind_Ok in Hr as [_ Hr]. apply eff_lift_bind_Ok in Hr as (from & _ & Hr).
  apply eff_require_bind_Ok in Hr as [_ Hr]. apply eff_bind_Ok in Hr as (? & ? & _ & Hr).
  apply eff_lift_bind_Ok in Hr as (last & _ & Hr). apply eff_require_bind_Ok in Hr as [_ Hr].
  apply eff_lift_bind_Ok in Hr as (blockRange & Hrange%positiveInteger_range & Hr).
  apply eff_lift_bind_Ok in Hr as (t & _ & Hr). apply eff_require_bind_Ok in Hr as [Hle%Z.leb_le Hr].
  apply eff_bind_Ok in Hr as (states & n2 & Hstates & Hr). apply eff_lift_bind_Ok in Hr as (first & Hfirst%from_option_or_Ok & Hr).
  apply eff_require_bind_Ok in Hr as [Hagree [= <- <-]].
  cbn [sr_pass sr_thresholds sr_state sr_urls sr_coordinator sr_fromBlock sr_toBlock] in *.
  apply readSoaks_Ok in Hstates; [|lia..]. apply normalizeRpcUrls_Ok in Hurls as (Hnd & Hmin & _). cbn in Hmin.
  split; [by apply chainMetricsPass_passed|]. split; [lia|]. split; [exact Hnd|]. exists blockRange. split; [lia|].
  intros url [i Hi]%list_elem_of_lookup. destruct (Forall2_lookup_l _ _ _ _ _ Hstates Hi) as (s & Hs & Hserved & Hfp).
  exists s.1. split; [exact Hserved|]. apply soak_value_inj, (canonicalJson_inj _ _ s.2); [exact Hfp|].
  rewrite forallb_forall in Hagree. specialize (Hagree s). rewrite bool_decide_eq_true in Hagree.
  rewrite Hagree by (apply list_elem_of_In, list_elem_of_lookup; eauto).
  destruct states as [|s0 states]; [done|]. injection Hfirst as ->. by apply Forall2_cons_inv_r in Hstates as (? & ? & [_ Hf] & _).
Qed.
End soak.

(** ** A report of two endpoints *)
Section examples.
#[local] Existing Instances sample_ethers sample_url.

Definition toy_event (hash : string) (id block : Z) : soak_event := {|
  se_blockNumber := block; se_blockHash := hash; se_transactionHash := "0x01"; se_index := id;
  se_topics := ["0xAA"]; se_data := "0x" |}.
(** Requests 1, 2 and 3, of which two are settled and one has expired; the second
    endpoint writes its hashes in capitals. *)
Definition toy_events (url : string) (kind : event_kind) (w : scan_window) : list soak_event :=
  let hash := if bool_decide (url = "https://a/") then "0xab" else "0xAB" in
  if fromBlock w =? 110 then
    match kind with
    | RandomWordsRequested => [toy_event hash 1 110; toy_event hash 2 111; toy_event hash 3 112]
    | RequestSettled => [toy_event hash 1 114; toy_event hash 2 119]
    | CallbackAttempted => [toy_event hash 1 114; toy_event hash 2 119]
    | RequestExpiredAndReleased => [toy_event hash 3 119]
    | ProofVerified => []
    end
  else [].
#[local] Instance toy_soak : SoakApi := {|
  sk_chainId _ _ := Ok 46630;
  sk_blockNumber _ url := Ok (if bool_decide (url = "https://a/") then 150 else 160);
  sk_code _ _ _ := Ok (chars "code"); sk_query _ url kind w := Ok (toy_events url kind w);
  sk_block _ _ block := Ok (Some {| bb_hash := "0xb0"; bb_timestamp := 2000 * block |});
  sk_contextBlock _ _ _ := Ok 900;
  arg_requestId := se_index; arg_expiresAtBlock _ := 500; arg_success _ := true |}.

Definition soak_coordinator : string := "0x" +:+ of_chars (replicate 40 "c"%char).
Definition soak_json (path : string) : value :=
  let common := [("gitCommit", VStr "c0ffee"); ("chainId", VNum 46630); ("coordinator", VStr soak_coordinator)] in
  if bool_decide (path = "manifest.json") then
    VObj (("format", VStr "robinhood-proof-vrf-deployment/v1")
      :: ("contracts", VObj [("coordinator", VObj [("address", VStr soak_coordinator);
                               ("runtimeCodeHash", VStr (keccak256 (chars "code")))])]) :: common)
  else if bool_decide (path = "smoke.json") then
    VObj (("format", VStr "robinhood-proof-vrf-smoke-report/v1") :: ("status", VStr "pass")
      :: ("checkedThroughBlock", VNum 90) :: common)
  else VObj (("format", VStr "robinhood-proof-vrf-deployment-verification/v1") :: ("status", VStr "pass") :: common).
Definition soak_files : file_system := {| read_json path := Ok (soak_json path); read_bytes _ := Throw "ENOENT" |}.
Definition soak_environment : environment := {|
  env name := if bool_decide (name = "VRF_RPC_URLS") then Some "https://a" else None;
  lstat _ := Throw "ENOENT"; read_file _ := Throw "ENOENT" |}.
Definition soak_arguments : list string :=
  ["--coordinator"; soak_coordinator; "--from-block"; "100"; "--manifest"; "manifest.json";
   "--verification-report"; "verification.json"; "--smoke-report"; "smoke.json"; "--rpc-url"; "https://b";
   "--block-range"; "10"; "--expected-days"; "1"; "--minimum-requests"; "3";
   "--minimum-fulfillment-rate-bps"; "6666"; "--minimum-callback-rate-bps"; "1e4"].
Definition soak_run : result soak_report * nat :=
  match parsePairs soak_arguments [] with
  | Ok o => soakReport soak_environment soak_files (VObj o) 0%nat
  | Throw m => (Throw m, 0%nat)
  end.

Lemma soak_pass_sound_witness :
  ∃ r, soak_run.1 = Ok r ∧ (sr_fromBlock r, sr_toBlock r, sr_latency r) = (100, 150, [Some 4; Some 8; Some 8; Some 8]) ∧
    soak_passed (sr_thresholds r) (sr_state r) ∧ (2 <= length (sr_urls r))%nat.
Proof.
  assert (((λ r, (sr_pass r, (sr_fromBlock r, sr_toBlock r, sr_latency r))) <$> soak_run.1)
    = Ok (true, (100, 150, [Some 4; Some 8; Some 8; Some 8]))) as Hr by vm_refl.
  assert (is_ok (parsePairs soak_arguments []) = true) as [o Eo]%is_ok_true by vm_refl.
  unfold soak_run in *. rewrite Eo in *.
  destruct (soakReport soak_environment soak_files (VObj o) 0%nat) as [[r|m] n'] eqn:E; [|discriminate Hr].
  injection Hr as Hp Hf. exists r.
  destruct (soak_pass_sound soak_environment soak_files (VObj o) 0%nat r n' E Hp) as (Hs & Hl & _).
  split; [reflexivity|]. split; [|split; [exact Hs|exact Hl]]. congruence.
Defined.
End examples.
