(* ===== verification/Calibrate.v ===== *)
(** * The calibration of the fees ([calibrate.mjs])

    What settled requests cost: the settlements of the coordinator over a range of
    blocks, as every endpoint gives them, with the fees of their receipts, and the
    prices recommended from them.  The endpoints are parameters, as in the soak
    report, whose reading of options, ranges and percentiles this program repeats.
    The numbers of the report are printed in decimal; writing the file and the time
    of the report are left out. *)

From S2P Require Import Prelude Js Hex CanonicalJson JsonText Vendor Policies OperatorStore ErrorText CommandLine Archiver Readiness SoakReport.

Open Scope Z_scope.

Class CalibrationApi := {
  cal_reserved : nat → string → Z → Z → result Z;             (* reservedPayment of a request at a block *)
  cal_receipt : nat → string → string → result value          (* eth_getTransactionReceipt *)
}.

(** ** Receipts *)

Definition bigintFromRpc (v : value) : option Z :=
  match v with
  | VUndef | VNull => None
  | _ => match to_bigint v with
         | Ok parsed => if 0 <=? parsed then Some parsed else None
         | Throw _ => None
         end
  end.

Record receipt_fees := {
  rf_gasPrice : Z; rf_gasUsed : Z; rf_l1Fee : option Z; rf_transactionFee : Z; rf_l1FeeSource : string
}.
Definition receiptFees (receipt : value) : result receipt_fees :=
  let field k := prop_opt receipt k in
  _ ← require (truthy receipt && bool_decide (bigintFromRpc (field "status") = Some 1))
        "settlement receipt is missing or unsuccessful";
  let unavailable := "receipt gas fields are unavailable" in
  let gasPrice := bigintFromRpc (nullish (field "effectiveGasPrice") (field "gasPrice")) in
  let gasUsed := bigintFromRpc (field "gasUsed") in
  gasPrice ← from_option_or unavailable gasPrice;
  gasUsed ← from_option_or unavailable gasUsed;
  let directL1Fee := bigintFromRpc (nullish (field "l1Fee") (field "l1FeeWei")) in
  let gasUsedForL1 := bigintFromRpc (field "gasUsedForL1") in
  _ ← require (match gasUsedForL1 with Some g => g <=? gasUsed | None => true end)
        "receipt gasUsedForL1 exceeds total gasUsed";
  Ok {| rf_gasPrice := gasPrice; rf_gasUsed := gasUsed;
        rf_l1Fee := match directL1Fee with
                    | Some f => Some f
                    | None => (λ g, g * gasPrice) <$> gasUsedForL1
                    end;
        rf_transactionFee := gasUsed * gasPrice;
        rf_l1FeeSource :=
          match directL1Fee, gasUsedForL1 with
          | Some _, _ => "receipt.l1Fee"
          | None, Some _ => "gasUsedForL1*effectiveGasPrice"
          | None, None => "unavailable"
          end |}.

(** The fingerprints of [assertConsensus] are texts with bigints as strings. *)
Definition assertConsensus (values : list value) (label : string) : result unit :=
  let fingerprint := json_text in
  require (forallb (λ v, bool_decide (fingerprint v = fingerprint (default VUndef (head values)))) values)
    ("independent RPC endpoints disagree on " +:+ label).

(** ** Statistics *)

Record fee_distribution := {
  fd_samples : Z; fd_p50 : option Z; fd_p95 : option Z; fd_p99 : option Z; fd_max : option Z
}.
Definition distribution (values : list Z) : fee_distribution := {|
  fd_samples := Z.of_nat (length values); fd_p50 := percentile values 50; fd_p95 := percentile values 95;
  fd_p99 := percentile values 99; fd_max := percentile values 100 |}.

(** The division of bigints rounds to zero. *)
Definition recommendation (v : option Z) (multiplierBps : Z) : option Z :=
  (λ v, Z.quot (v * multiplierBps + 9999) 10000) <$> v.

(** [/^\d+(?:\.\d{1,18})?$/], and the two sides of the point. *)
Definition usd_parts (text : string) : option (list ascii * list ascii) :=
  let '(whole, rest) := span is_digit (chars text) in
  match whole, rest with
  | [], _ => None
  | _, [] => Some (whole, [])
  | _, c :: fraction =>
      if Ascii.eqb c "." && forallb is_digit fraction && (1 <=? length fraction)%nat && (length fraction <=? 18)%nat
      then Some (whole, fraction) else None
  end.
Record decimal_amount := { da_numerator : Z; da_scale : Z }.
Definition usd_decimal (v : value) : result decimal_amount :=
  '(whole, fraction) ← from_option_or "USD inputs must be positive decimal values (up to 18 decimals)"
                         (usd_parts (to_str v));
  numerator ← from_option_or "SyntaxError" (parse_digits 10 (whole ++ fraction));
  _ ← require (negb (numerator =? 0)) "USD inputs must both be positive";
  Ok {| da_numerator := numerator; da_scale := 10 ^ Z.of_nat (length fraction) |}.
Definition minimumFeeFromUsd (target price : value) : result (option Z) :=
  if bool_decide (target = VUndef) && bool_decide (price = VUndef) then Ok None
  else
    usd ← usd_decimal target;
    eth ← usd_decimal price;
    let numerator := da_numerator usd * da_scale eth * 10 ^ 18 in
    let denominator := da_scale usd * da_numerator eth in
    Ok (Some (Z.quot (numerator + denominator - 1) denominator)).

(** ** Settlements *)

Definition settlement_value (e : soak_event) : value :=
  VObj [("hash", VStr (se_transactionHash e)); ("blockHash", VStr (se_blockHash e));
        ("index", VNum (se_index e)); ("topics", VArr (VStr <$> se_topics e)); ("data", VStr (se_data e))].

Record measurement := { ms_reservedPayment : Z; ms_fees : receipt_fees }.
Definition bigint_value (o : option Z) : value := match o with Some z => VBig z | None => VNull end.
Definition measurement_value (m : measurement) : value :=
  let f := ms_fees m in
  VObj [("reservedPayment", VBig (ms_reservedPayment m)); ("gasPrice", VBig (rf_gasPrice f));
        ("gasUsed", VBig (rf_gasUsed f)); ("l1Fee", bigint_value (rf_l1Fee f));
        ("transactionFee", VBig (rf_transactionFee f)); ("l1FeeSource", VStr (rf_l1FeeSource f))].

(** What the loop over the settlements gathers. *)
Record calibration := {
  cb_networkCosts : list Z; cb_totalCharges : list Z; cb_reservedPayments : list Z;
  cb_effectiveGasPrices : list Z; cb_receiptGasUsed : list Z; cb_l1Fees : list Z;
  cb_transactionFees : list Z; cb_l1FeeSources : list (string * Z);
  cb_samples : list (soak_event * receipt_fees);
  cb_reserveViolations : Z; cb_networkCostBelowReceiptFee : Z; cb_operatorPaymentBelowReceiptFee : Z
}.
Definition no_measurements : calibration := {|
  cb_networkCosts := []; cb_totalCharges := []; cb_reservedPayments := []; cb_effectiveGasPrices := [];
  cb_receiptGasUsed := []; cb_l1Fees := []; cb_transactionFees := []; cb_l1FeeSources := []; cb_samples := [];
  cb_reserveViolations := 0; cb_networkCostBelowReceiptFee := 0; cb_operatorPaymentBelowReceiptFee := 0 |}.

Section calibrate.
Context `{Ethers, UrlApi, SoakApi, SettlementArguments, CalibrationApi}.

(** [counter += 1] under a condition. *)
Definition count_if (condition : bool) (counter : Z) : Z := if condition then counter + 1 else counter.
Definition add_sample (c : calibration) (event : soak_event) (m : measurement) : calibration :=
  let f := ms_fees m in
  let networkCost := arg_networkCost event in
  let totalCharge := arg_totalCharge event in
  {| cb_networkCosts := cb_networkCosts c ++ [networkCost];
     cb_totalCharges := cb_totalCharges c ++ [totalCharge];
     cb_reservedPayments := cb_reservedPayments c ++ [ms_reservedPayment m];
     cb_effectiveGasPrices := cb_effectiveGasPrices c ++ [rf_gasPrice f];
     cb_receiptGasUsed := cb_receiptGasUsed c ++ [rf_gasUsed f];
     cb_l1Fees := cb_l1Fees c ++ match rf_l1Fee f with Some x => [x] | None => [] end;
     cb_transactionFees := cb_transactionFees c ++ [rf_transactionFee f];
     cb_l1FeeSources := assoc_set (rf_l1FeeSource f)
       (default 0 (assoc (rf_l1FeeSource f) (cb_l1FeeSources c)) + 1) (cb_l1FeeSources c);
     cb_samples := cb_samples c ++ [(event, f)];
     cb_reserveViolations := count_if (ms_reservedPayment m <? totalCharge) (cb_reserveViolations c);
     cb_networkCostBelowReceiptFee :=
       count_if (networkCost <? rf_transactionFee f) (cb_networkCostBelowReceiptFee c);
     cb_operatorPaymentBelowReceiptFee :=
       count_if (arg_operatorPayment event <? rf_transactionFee f) (cb_operatorPaymentBelowReceiptFee c) |}.

(** [v?.toLowerCase() !== text] *)
Definition optional_lower_differs (v : value) (text : string) : result bool :=
  match v with VUndef | VNull => Ok true | _ => lower_differs (Ok v) text end.

Definition measure (event : soak_event) (toBlock : Z) (url : string) : eff nat measurement :=
  reservedPayment ← call (λ n, cal_reserved n url (arg_requestId event) toBlock);
  rawReceipt ← call (λ n, cal_receipt n url (se_transactionHash event));
  fees ← eff_lift (receiptFees rawReceipt);
  differs ← eff_lift (any_of [
    optional_lower_differs (prop_opt rawReceipt "blockHash") (lower (se_blockHash event));
    optional_lower_differs (prop_opt rawReceipt "transactionHash") (lower (se_transactionHash event))]);
  _ ← eff_require (negb differs) "receipt does not match the settlement event";
  mret {| ms_reservedPayment := reservedPayment; ms_fees := fees |}.

Fixpoint measureEvents (urls : list string) (toBlock : Z) (events : list soak_event) (c : calibration)
    : eff nat calibration :=
  match events with
  | [] => mret c
  | event :: events =>
      measurements ← mapM (measure event toBlock) urls;
      _ ← eff_lift (assertConsensus (measurement_value <$> measurements) "receipt fees and request reserve");
      first ← eff_lift (from_option_or TYPE_ERROR (head measurements));
      measureEvents urls toBlock events (add_sample c event first)
  end.

(** ** The report *)

Record calibration_report := {
  cr_chainId : Z; cr_coordinator : string; cr_urls : list string;
  cr_fromBlock : Z; cr_toBlock : Z; cr_endBlockHash : string; cr_confirmations : Z;
  cr_sufficientSample : bool; cr_minimumSamples : Z;
  cr_distributionsWei : list (string * fee_distribution); cr_receiptGasUsed : fee_distribution;
  cr_calibration : calibration; cr_readyForGovernanceReview : bool;
  cr_maxGasPriceWei : option Z; cr_l1FeeReserveWei : option Z; cr_minimumRequestFeeWei : option Z;
  cr_warning : string
}.

Definition calibrationBlocks (urls : list string) (toBlock : Z) : eff nat (list string) :=
  blocks ← mapM (λ url, call (λ n, sk_block n url toBlock)) urls;
  eff_lift (mapM (λ b, bb_hash <$> from_option_or "calibration boundary block is missing" b) blocks).

Definition readyForGovernanceReview (events : Z) (minimumSamples : Z) (c : calibration) : bool :=
  (Z.max 100 minimumSamples <=? events) && (cb_reserveViolations c =? 0)
  && (Z.of_nat (length (cb_l1Fees c)) =? events) && (cb_operatorPaymentBelowReceiptFee c =? 0).

Definition reportOf (o : value) (urls : list string) (chainId fromBlock toBlock confirmations minimumSamples : Z)
    (endBlockHash : string) (events : Z) (c : calibration) (minimumRequestFeeWei : option Z) : calibration_report := {|
  cr_chainId := chainId; cr_coordinator := lower (to_str (prop_opt o "coordinator")); cr_urls := urls;
  cr_fromBlock := fromBlock; cr_toBlock := toBlock; cr_endBlockHash := endBlockHash;
  cr_confirmations := confirmations; cr_sufficientSample := minimumSamples <=? events;
  cr_minimumSamples := minimumSamples;
  cr_distributionsWei := [
    ("networkCost", distribution (cb_networkCosts c)); ("totalCharge", distribution (cb_totalCharges c));
    ("reservedPayment", distribution (cb_reservedPayments c));
    ("effectiveGasPrice", distribution (cb_effectiveGasPrices c)); ("l1Fee", distribution (cb_l1Fees c));
    ("transactionFee", distribution (cb_transactionFees c))];
  cr_receiptGasUsed := distribution (cb_receiptGasUsed c); cr_calibration := c;
  cr_readyForGovernanceReview := readyForGovernanceReview events minimumSamples c;
  cr_maxGasPriceWei := recommendation (percentile (cb_effectiveGasPrices c) 99) 12500;
  cr_l1FeeReserveWei := recommendation (percentile (cb_l1Fees c) 99) 15000;
  cr_minimumRequestFeeWei := minimumRequestFeeWei;
  cr_warning := if events <? Z.max 100 minimumSamples
                then "sample is below the requested minimum; do not apply these values"
                else "apply only through timelocked governance after human review" |}.

Definition collectReport (o : value) (urls : list string) : eff nat calibration_report :=
  let integer k fallback minimum := positiveInteger (prop_opt o k) k fallback minimum in
  networks ← mapM (λ url, call (λ n, sk_chainId n url)) urls;
  _ ← eff_lift (assertConsensus ((λ c, VStr (print_int c)) <$> networks) "chain ID");
  chainId ← eff_lift (from_option_or TYPE_ERROR (head networks));
  fromBlock ← eff_lift (integer "from-block" VUndef 0);
  heads ← mapM (λ url, call (λ n, sk_blockNumber n url)) urls;
  confirmations ← eff_lift (integer "confirmations" (VNum 12) 1);
  toBlock ← eff_lift (if bool_decide (prop_opt o "to-block" = VUndef) then Ok (list_min heads - confirmations)
                      else integer "to-block" VUndef 0);
  _ ← eff_require (forallb (λ head, toBlock <=? head - confirmations) heads)
        "--to-block has insufficient confirmations on an RPC";
  blockRange ← eff_lift (integer "block-range" (VNum 2000) 1);
  minimumSamples ← eff_lift (integer "minimum-samples" (VNum 100) 1);
  _ ← eff_require (fromBlock <=? toBlock) "--to-block must not be below --from-block";
  boundaries ← calibrationBlocks urls toBlock;
  _ ← eff_lift (assertConsensus (VStr <$> boundaries) "boundary block");
  eventSets ← mapM (λ url, queryInRanges url RequestSettled fromBlock toBlock blockRange) urls;
  _ ← eff_lift (assertConsensus ((λ events, VArr (settlement_value <$> events)) <$> eventSets) "settlements");
  events ← eff_lift (from_option_or TYPE_ERROR (head eventSets));
  c ← measureEvents urls toBlock events no_measurements;
  minimumRequestFeeWei ← eff_lift (minimumFeeFromUsd (prop_opt o "target-minimum-usd") (prop_opt o "eth-usd"));
  finalBoundaries ← mapM (λ url, call (λ n, sk_block n url toBlock)) urls;
  endBlockHash ← eff_lift (from_option_or TYPE_ERROR (head boundaries));
  _ ← eff_require (forallb (λ b : option boundary_block, bool_decide (bb_hash <$> b = Some endBlockHash)) finalBoundaries)
        "calibration boundary changed during collection; rerun after the reorg";
  mret (reportOf o urls chainId fromBlock toBlock confirmations minimumSamples endBlockHash
          (Z.of_nat (length events)) c minimumRequestFeeWei).

Definition calibrate (e : environment) (o : value) : eff nat calibration_report :=
  _ ← eff_require (truthy (prop_opt o "coordinator") && negb (bool_decide (prop_opt o "from-block" = VUndef)))
        "--coordinator and --from-block are required";
  secret ← eff_lift (readSecret e "VRF_RPC_URLS" false);
  rpcUrls ← eff_lift (normalizeRpcUrls
    (VArr ((VStr <$> split_on "," (default "" secret))
           ++ [prop_opt o "rpc-url"; prop_opt o "rpc-url-secondary"]))
    {| minimum := 2; label := "fee calibration"; allowSharedOrigin := false |});
  collectReport o rpcUrls.
End calibrate.
