(* ===== verification/CalibrateSafety.v ===== *)
(** * What a calibration recommends ([calibrate.mjs]) *)

From S2P Require Import Prelude Js Hex CanonicalJson JsonText Vendor Policies OperatorStore Samples ErrorText CommandLine Archiver Readiness ServiceStartSafety ReadinessSafety PollingSafety SoakReport SoakSafety Calibrate.
From Stdlib Require QArith.

Open Scope Z_scope.

(** ** The least fee worth an amount of dollars *)

Lemma usd_parts_spec text whole fraction :
  usd_parts text = Some (whole, fraction) →
  whole ≠ [] ∧ forallb is_digit (whole ++ fraction) = true ∧ (length fraction <= 18)%nat ∧
  chars text = whole ++ match fraction with [] => [] | _ => "."%char :: fraction end.
Proof.
  unfold usd_parts. pose proof (span_spec is_digit (chars text)) as [Et Hw].
  destruct (span is_digit (chars text)) as [[|d w] rest]; [done|]. cbn [fst snd] in *. destruct rest as [|c rest].
  - intros [= <- <-]. rewrite app_nil_r. split_and!; [done|exact Hw|cbn; lia|by rewrite app_nil_r in Et].
  - destruct (_ && _) eqn:E; [|done]. intros [= <- <-]. apply andb_true_iff in E as [[[->%Ascii.eqb_eq Hr]%andb_true_iff H1%Nat.leb_le]%andb_true_iff H18%Nat.leb_le].
    split_and!; [done|etrans; [exact (forallb_app is_digit (d :: w) rest)|]; apply andb_true_iff; split; [exact Hw|exact Hr]|done|rewrite Et; destruct rest; [cbn in *; lia|done]].
Qed.

Lemma usd_decimal_Ok v d :
  usd_decimal v = Ok d →
  0 < da_numerator d ∧ ∃ n, (n <= 18)%nat ∧ da_scale d = 10 ^ Z.of_nat n.
Proof.
  unfold usd_decimal. intros ([whole fraction] & Hp%from_option_or_Ok%usd_parts_spec & Hr)%bind_Ok.
  apply bind_Ok in Hr as (numerator & Hn%from_option_or_Ok & Hr).
  apply bind_Ok in Hr as (? & H0%require_Ok%negb_true_iff%Z.eqb_neq & [= <-]).
  apply parse_digits_nonnegative in Hn; [|done]. cbn. split; [lia|]. exists (length fraction). by destruct Hp as (_ & _ & ? & _).
Qed.

Lemma usd_scale_positive v d : usd_decimal v = Ok d → 0 < da_scale d.
Proof. intros (_ & n & _ & ->)%usd_decimal_Ok. apply Z.pow_pos_nonneg; lia. Qed.

(** The quotient rounded up is the least multiplier. *)
Lemma quot_ceil a b w : 0 <= a → 0 < b → Z.quot (a + b - 1) b <= w ↔ a <= w * b.
Proof.
  intros Ha Hb. rewrite Z.quot_div_nonneg by lia.
  pose proof (Z.mod_pos_bound (a + b - 1) b Hb). pose proof (Z.div_mod (a + b - 1) b ltac:(lia)). split; nia.
Qed.

(** A decimal amount as a rational number. *)
Definition amount (d : decimal_amount) : QArith_base.Q := QArith_base.Qmake (da_numerator d) (Z.to_pos (da_scale d)).
(** What an amount of wei is worth at a price in dollars of one ether. *)
Definition worth (wei : Z) (price : QArith_base.Q) : QArith_base.Q :=
  QArith_base.Qmult (QArith_base.Qmake wei (10 ^ 18)) price.

(** The minimum fee for a target in dollars at a price of ether is the least amount
    of wei worth the target or more, in exact rational arithmetic. *)
Theorem minimum_fee_least target price fee :
  minimumFeeFromUsd target price = Ok (Some fee) →
  ∃ usd eth, usd_decimal target = Ok usd ∧ usd_decimal price = Ok eth ∧ 0 < fee ∧
    ∀ wei, fee <= wei ↔ QArith_base.Qle (amount usd) (worth wei (amount eth)).
Proof.
  unfold minimumFeeFromUsd. destruct (_ && _); [done|]. intros (usd & Hu & Hr)%bind_Ok.
  apply bind_Ok in Hr as (eth & He & [= <-]). exists usd, eth.
  pose proof (usd_scale_positive _ _ Hu) as Hsu. pose proof (usd_scale_positive _ _ He) as Hse.
  destruct (usd_decimal_Ok _ _ Hu) as [Hnu _]. destruct (usd_decimal_Ok _ _ He) as [Hne _].
  assert (0 < da_numerator usd * da_scale eth * 10 ^ 18) as Hpos by nia.
  assert (0 < da_scale usd * da_numerator eth) as Hpos' by nia.
  split_and!; [done|done| |].
  - apply Z.nle_gt. intros Hle. apply quot_ceil in Hle; lia.
  - intros wei. rewrite quot_ceil by lia. unfold amount, worth, QArith_base.Qle, QArith_base.Qmult. cbn [QArith_base.Qnum QArith_base.Qden].
    rewrite Pos2Z.inj_mul, !Z2Pos.id by done. change (Z.pos (10 ^ 18)) with (10 ^ 18). nia.
Qed.

(** Five dollars at 2,345.67 dollars an ether. *)
Lemma minimum_fee_least_witness :
  ∃ fee, minimumFeeFromUsd (VStr "5") (VStr "2345.67") = Ok (Some fee) ∧ 0 < fee ∧
    QArith_base.Qle (QArith_base.Qmake 5 1) (worth fee (QArith_base.Qmake 234567 100)).
Proof.
  assert (minimumFeeFromUsd (VStr "5") (VStr "2345.67") = Ok (Some 2131587137150580)) as E by vm_refl.
  assert (usd_decimal (VStr "5") = Ok {| da_numerator := 5; da_scale := 1 |}) as Eu by vm_refl.
  assert (usd_decimal (VStr "2345.67") = Ok {| da_numerator := 234567; da_scale := 100 |}) as Ee by vm_refl.
  destruct (minimum_fee_least _ _ _ E) as (usd & eth & Hu & He & Hpos & Hleast).
  rewrite Eu in Hu. rewrite Ee in He. injection Hu as <-. injection He as <-.
  exists 2131587137150580. split; [exact E|]. split; [exact Hpos|]. exact (proj1 (Hleast _) (Z.le_refl _)).
Defined.

(** ** Statistics *)

(** The values at or below a percentile are at least that share of all. *)
Lemma percentile_covers values percent v :
  0 < percent <= 100 → percentile values percent = Some v →
  percent * Z.of_nat (length values) <= 100 * Z.of_nat (length (filter (λ x, x <= v) values)).
Proof.
  intros Hp (sorted & k & Hperm & Hs & Hk & Hb & _)%percentile_rank; [|done]. etrans; [exact Hb|].
  assert (S k <= length (filter (λ x, (x <= v)%Z) values))%nat; [|lia]. rewrite <-Hperm. clear -Hs Hk.
  apply Sorted_StronglySorted in Hs; [|intros ???; lia]. revert k Hk. induction Hs as [|x l Hs IH Hx]; [done|].
  intros k Hk. rewrite filter_cons_True; cbn [length].
  - destruct k as [|k]; [lia|]. apply (le_n_S _ _ (IH k Hk)).
  - destruct k as [|k]; cbn in Hk; [injection Hk; lia|]. rewrite Forall_forall in Hx. by eapply Hx, list_elem_of_lookup_2.
Qed.

Lemma recommendation_covers v bps p : 0 <= v → 0 <= bps → recommendation (Some v) bps = Some p → v * bps <= 10000 * p.
Proof.
  intros Hv Hb [= <-]. replace (v * bps + 9999) with (v * bps + 10000 - 1) by lia. rewrite (Z.mul_comm 10000).
  apply quot_ceil; [nia|lia|done].
Qed.

(** ** Consensus *)

Lemma assertConsensus_Ok values label u v w :
  assertConsensus values label = Ok u → v ∈ values → w ∈ values → json_text v = json_text w.
Proof.
  unfold assertConsensus. intros Hc%require_Ok Hv Hw. rewrite forallb_forall in Hc.
  rewrite list_elem_of_In in Hv, Hw. apply Hc in Hv, Hw. rewrite bool_decide_eq_true in Hv, Hw. by rewrite Hv, Hw.
Qed.

Lemma measurement_value_inj m m' : json_text (measurement_value m) = json_text (measurement_value m') → m = m'.
Proof.
  destruct m as [r [g u l t s]], m' as [r' [g' u' l' t' s']]. intros E%json_text_inj; [|by destruct l|by destruct l'].
  unfold measurement_value in E. cbn -[print_int] in E.
  assert (∀ a b, VStr (print_int a) = VStr (print_int b) → a = b) as Hp by (intros a b [= Hab]; by apply print_int_inj).
  injection E as Er Eg Eu El Et Es. apply print_int_inj in Er, Eg, Eu, Et. subst. do 2 f_equal.
  destruct l, l'; cbn -[print_int] in El; try done. by rewrite (Hp _ _ El).
Qed.

(** What the endpoints must agree on of an event: all but its block number. *)
Definition same_settlement (a b : soak_event) : Prop :=
  se_transactionHash a = se_transactionHash b ∧ se_blockHash a = se_blockHash b ∧ se_index a = se_index b ∧
  se_topics a = se_topics b ∧ se_data a = se_data b.
Lemma settlement_value_plain e : plain (settlement_value e) = true.
Proof. cbn. rewrite andb_true_r. by induction (se_topics e). Qed.
Lemma settlement_value_inj a b : json_image (settlement_value a) = json_image (settlement_value b) → same_settlement a b.
Proof.
  unfold settlement_value. cbn. intros E. injection E as E1 E2 E3 E4 E5. split_and!; try done.
  revert E4. generalize (se_topics b). induction (se_topics a) as [|x l IH]; intros [|y k]; try done. cbn.
  intros [= -> E]. f_equal. by apply IH.
Qed.
Lemma settlements_inj a b :
  json_text (VArr (settlement_value <$> a)) = json_text (VArr (settlement_value <$> b)) → Forall2 same_settlement a b.
Proof.
  assert (∀ l, plain (VArr (settlement_value <$> l)) = true) as Hp.
  { intros l. cbn [plain]. apply forallb_Forall, Forall_fmap, Forall_true. apply settlement_value_plain. }
  intros E%json_text_inj; [|apply Hp..]. cbn [json_image] in E. injection E as E. revert b E.
  induction a as [|x a IH]; intros [|y b]; try done. rewrite !fmap_cons. intros E.
  pose proof (f_equal (default VNull ∘ head) E) as Exy. apply (f_equal tail) in E. cbn [compose head tail default] in *.
  constructor; [by apply settlement_value_inj|by apply IH].
Qed.

(** The values that an image keeps at or below a bound. *)
Lemma count_image {A} (f : A → Z) (P : A → Prop) `{∀ x, Decision (P x)} l v :
  (∀ x, x ∈ l → f x <= v → P x) →
  (length (filter (λ z, (z <= v)%Z) (f <$> l)) <= length (filter P l))%nat.
Proof.
  induction l as [|x l IH]; intros Hp; [done|]. assert (∀ y, y ∈ l → f y <= v → P y) as Hl by set_solver.
  specialize (IH Hl). rewrite fmap_cons, !filter_cons. destruct (decide (f x <= v)) as [Hx|Hx].
  - rewrite decide_True by (apply Hp; [left|done]). cbn [length]. lia.
  - case_decide; cbn [length]; lia.
Qed.
(** All are there when as many are there. *)
Lemma omap_all {A} (f : A → option Z) l :
  length (omap f l) = length l → Forall (λ x, is_Some (f x)) l ∧ omap f l = (λ x, default 0 (f x)) <$> l.
Proof.
  assert (∀ l, (length (omap f l) <= length l)%nat) as Hle.
  { intros k. induction k as [|x k IH]; cbn; [done|]. destruct (f x); cbn; lia. }
  induction l as [|x l IH]; cbn; [done|]. destruct (f x) as [y|] eqn:Ey; cbn; [|specialize (Hle l); lia].
  intros [= E]. destruct (IH E) as [Hall ->]. split; [|done]. by constructor.
Qed.

Lemma bigintFromRpc_nonneg v z : bigintFromRpc v = Some z → 0 <= z.
Proof.
  unfold bigintFromRpc. destruct v; try done;
    match goal with |- context [to_bigint ?v] => destruct (to_bigint v) as [p|] end; try done;
    destruct (Z.leb_spec 0 p); naive_solver.
Qed.
Lemma receiptFees_nonneg receipt f :
  receiptFees receipt = Ok f → 0 <= rf_gasPrice f ∧ 0 <= rf_gasUsed f ∧ (∀ x, rf_l1Fee f = Some x → 0 <= x) ∧
    rf_transactionFee f = rf_gasUsed f * rf_gasPrice f.
Proof.
  unfold receiptFees. intros (? & _ & Hr)%bind_Ok. apply bind_Ok in Hr as (p & Hp%from_option_or_Ok%bigintFromRpc_nonneg & Hr).
  apply bind_Ok in Hr as (g & Hg%from_option_or_Ok%bigintFromRpc_nonneg & Hr). apply bind_Ok in Hr as (? & _ & [= <-]).
  cbn. split_and!; [done..| |done]. intros fee.
  destruct (bigintFromRpc (nullish _ _)) as [d|] eqn:Ed; [intros [= <-]; by eapply bigintFromRpc_nonneg|].
  intros (y & Hy%bigintFromRpc_nonneg & ->)%fmap_Some. nia.
Qed.

Lemma percentile_total values percent : 0 < percent <= 100 → values ≠ [] → is_Some (percentile values percent).
Proof.
  intros Hp Hne. unfold percentile. destruct values as [|x values]; [done|]. cbv zeta. apply lookup_lt_is_Some_2.
  assert (1 <= Z.of_nat (length (merge_sort Z.le (x :: values)))) as Hn.
  { rewrite (Permutation_length (merge_sort_Permutation Z.le (x :: values))). cbn [length]. lia. }
  set (n := Z.of_nat (length (merge_sort Z.le (x :: values)))) in *. apply Nat2Z.inj_lt. fold n.
  pose proof (Z.mod_pos_bound (- (percent * n)) 100 ltac:(lia)). pose proof (Z.div_mod (- (percent * n)) 100 ltac:(lia)).
  assert (- n <= (- (percent * n)) / 100) by nia. lia.
Qed.

Section calibrate.
Context `{Ethers, UrlApi, SoakApi, SettlementArguments, CalibrationApi}.

(** The receipt and the reserve that an endpoint gives for a settlement. *)
Definition measured (url : string) (toBlock : Z) (event : soak_event) (m : measurement) : Prop :=
  ∃ i j receipt, cal_reserved i url (arg_requestId event) toBlock = Ok (ms_reservedPayment m) ∧
    cal_receipt j url (se_transactionHash event) = Ok receipt ∧ receiptFees receipt = Ok (ms_fees m).

Lemma measure_Ok event toBlock url n m n' : measure event toBlock url n = (Ok m, n') → measured url toBlock event m.
Proof.
  unfold measure. intros (r & Hr & Hk)%call_bind_Ok. apply call_bind_Ok in Hk as (receipt & Hc & Hk).
  apply eff_lift_bind_Ok in Hk as (fees & Hf & Hk). apply eff_lift_bind_Ok in Hk as (? & _ & Hk).
  apply eff_require_bind_Ok in Hk as [_ [= <- <-]]. exists n, (S n), receipt. done.
Qed.
Lemma measures_Ok event toBlock urls n ms n' :
  mapM (measure event toBlock) urls n = (Ok ms, n') → Forall2 (λ url m, measured url toBlock event m) urls ms.
Proof.
  revert n ms. induction urls as [|url urls IH]; intros n ms; cbn; [by intros [= <- _]|].
  intros (m & n1 & Hm%measure_Ok & Hr)%eff_bind_Ok. apply eff_bind_Ok in Hr as (rest & n2 & Hrest & [= <- <-]).
  constructor; [exact Hm|]. by eapply IH.
Qed.

(** Every endpoint gives the same measurement of each settlement, and they are
    gathered in their order. *)
Definition gathered (c : calibration) (samples : list (soak_event * measurement)) : calibration :=
  foldl (λ c s, add_sample c s.1 s.2) c samples.
Lemma measureEvents_Ok urls toBlock events c n c' n' :
  urls ≠ [] → measureEvents urls toBlock events c n = (Ok c', n') →
  ∃ samples, samples.*1 = events ∧ c' = gathered c samples ∧
    Forall (λ s, ∀ url, url ∈ urls → measured url toBlock s.1 s.2) samples.
Proof.
  intros Hurls. revert c n. induction events as [|event events IH]; intros c n; cbn [measureEvents].
  { intros [= <- _]. by exists []. }
  intros (ms & n1 & Hms%measures_Ok & Hr)%eff_bind_Ok. apply eff_lift_bind_Ok in Hr as (? & Hc & Hr).
  apply eff_lift_bind_Ok in Hr as (m & Hm%from_option_or_Ok & Hr). apply IH in Hr as (samples & <- & -> & Hs).
  exists ((event, m) :: samples). split_and!; [done..|]. constructor; [|exact Hs]. cbn.
  intros url [i Hi]%list_elem_of_lookup. destruct (Forall2_lookup_l _ _ _ _ _ Hms Hi) as (m' & Hm' & Hmeasured).
  replace m with m'; [exact Hmeasured|]. apply measurement_value_inj. eapply assertConsensus_Ok; [exact Hc| |].
  - apply list_elem_of_fmap_2. by eapply list_elem_of_lookup_2.
  - apply list_elem_of_fmap_2. destruct ms; [done|]. injection Hm as ->. by left.
Qed.

Lemma gathered_spec c samples :
  cb_effectiveGasPrices (gathered c samples) = cb_effectiveGasPrices c ++ ((λ s, rf_gasPrice (ms_fees s.2)) <$> samples) ∧
  cb_l1Fees (gathered c samples) = cb_l1Fees c ++ omap (λ s, rf_l1Fee (ms_fees s.2)) samples ∧
  cb_reserveViolations (gathered c samples) = cb_reserveViolations c
    + Z.of_nat (length (filter (λ s, ms_reservedPayment s.2 < arg_totalCharge s.1) samples)) ∧
  cb_operatorPaymentBelowReceiptFee (gathered c samples) = cb_operatorPaymentBelowReceiptFee c
    + Z.of_nat (length (filter (λ s, arg_operatorPayment s.1 < rf_transactionFee (ms_fees s.2)) samples)).
Proof.
  assert (∀ (P : Prop) `{Decision P} (b : bool) x, (b = true ↔ P) → count_if b x = x + if decide P then 1 else 0) as Hcount.
  { intros P ? b x Hb. unfold count_if. destruct b, (decide P); naive_solver lia. }
  revert c. induction samples as [|[e m] samples IH]; intros c; [cbn; rewrite !app_nil_r; split_and!; done || lia|].
  change (gathered c ((e, m) :: samples)) with (gathered (add_sample c e m) samples).
  destruct (IH (add_sample c e m)) as (-> & -> & -> & ->). cbn [add_sample cb_effectiveGasPrices cb_l1Fees
    cb_reserveViolations cb_operatorPaymentBelowReceiptFee fmap list_fmap fst snd].
  rewrite (Hcount (ms_reservedPayment m < arg_totalCharge e) _) by apply Z.ltb_lt.
  rewrite (Hcount (arg_operatorPayment e < rf_transactionFee (ms_fees m)) _) by apply Z.ltb_lt.
  rewrite !filter_cons, <-!app_assoc. cbn [fst snd]. split_and!; [done| | |].
  - cbn. by destruct (rf_l1Fee (ms_fees m)).
  - repeat case_decide; cbn [length]; lia.
  - repeat case_decide; cbn [length]; lia.
Qed.

Lemma mapM_call_Ok {A B} (f : A → nat → result B) l n ys n' :
  mapM (λ x, call (f x)) l n = (Ok ys, n') → Forall2 (λ x y, ∃ i, f x i = Ok y) l ys.
Proof.
  revert n ys. induction l as [|x l IH]; intros n ys; cbn; [by intros [= <- _]|].
  intros (y & Hy & Hr)%call_bind_Ok. apply eff_bind_Ok in Hr as (rest & n2 & Hrest & [= <- <-]).
  constructor; [eauto|]. by eapply IH.
Qed.
Lemma mapM_queries_Ok urls kind from last blockRange n sets n' :
  1 <= blockRange → from <= last + 1 →
  mapM (λ url, queryInRanges url kind from last blockRange) urls n = (Ok sets, n') →
  Forall2 (λ url events, served_events url from last blockRange kind events) urls sets.
Proof.
  intros Hb Hle. revert n sets. induction urls as [|url urls IH]; intros n sets; cbn; [by intros [= <- _]|].
  intros (events & n1 & Hev%queryInRanges_Ok & Hr)%eff_bind_Ok; [|done..].
  apply eff_bind_Ok in Hr as (rest & n2 & Hrest & [= <- <-]). constructor; [done|]. by eapply IH.
Qed.

(** At least 99 of 100 samples satisfy a predicate. *)
Definition nearly_all {A} (P : A → Prop) `{∀ x, Decision (P x)} (l : list A) : Prop :=
  99 * Z.of_nat (length l) <= 100 * Z.of_nat (length (filter P l)).

(** A recommended price covers, with its margin, all but a hundredth of what was seen. *)
Lemma recommended_covers (f : soak_event * measurement → Z) samples bps :
  samples ≠ [] → 0 <= bps → (∀ s, s ∈ samples → 0 <= f s) →
  ∃ p, recommendation (percentile (f <$> samples) 99) bps = Some p ∧
    nearly_all (λ s, bps * f s <= 10000 * p) samples.
Proof.
  intros Hne Hb Hf. destruct (percentile_total (f <$> samples) 99) as [v Ev]; [lia|by destruct samples|].
  rewrite Ev. eexists. split; [reflexivity|]. unfold nearly_all. rewrite <-(length_fmap f).
  etrans; [eapply percentile_covers, Ev; lia|]. apply Z.mul_le_mono_nonneg_l; [done|]. apply inj_le.
  assert (0 <= v) as Hv.
  { apply percentile_rank in Ev as (sorted & k & Hperm & _ & Hk & _); [|lia]. apply list_elem_of_lookup_2 in Hk.
    rewrite Hperm in Hk. apply list_elem_of_fmap in Hk as (s & -> & Hs). auto. }
  apply count_image. intros s Hs Hle. pose proof (recommendation_covers v bps _ Hv Hb eq_refl). nia.
Qed.

(** What readiness says of the samples. *)
Lemma ready_samples samples minimumSamples :
  readyForGovernanceReview (Z.of_nat (length samples)) minimumSamples (gathered no_measurements samples) = true →
  Z.max 100 minimumSamples <= Z.of_nat (length samples) ∧
  (∀ s, s ∈ samples → arg_totalCharge s.1 <= ms_reservedPayment s.2 ∧
    rf_transactionFee (ms_fees s.2) <= arg_operatorPayment s.1 ∧ is_Some (rf_l1Fee (ms_fees s.2))) ∧
  cb_effectiveGasPrices (gathered no_measurements samples) = (λ s, rf_gasPrice (ms_fees s.2)) <$> samples ∧
  cb_l1Fees (gathered no_measurements samples) = (λ s, default 0 (rf_l1Fee (ms_fees s.2))) <$> samples.
Proof.
  unfold readyForGovernanceReview. destruct (gathered_spec no_measurements samples) as (-> & -> & -> & ->).
  cbn [no_measurements cb_effectiveGasPrices cb_l1Fees cb_reserveViolations cb_operatorPaymentBelowReceiptFee app].
  rewrite !andb_true_iff, Z.leb_le, !Z.eqb_eq. intros (((Hn & Hr) & Hl%Nat2Z.inj) & Ho).
  apply omap_all in Hl as [Hl ->]. split_and!; [done| |done..]. intros s Hs. rewrite Forall_forall in Hl.
  assert (∀ (P : soak_event * measurement → Prop) `{∀ x, Decision (P x)}, 0 + Z.of_nat (length (filter P samples)) = 0 → ¬ P s) as Hno.
  { intros P ? Hz Hp. apply (filter_nil_not_elem_of P samples s); [apply length_zero_iff_nil; lia|exact Hp|exact Hs]. }
  split_and!; [| |by apply Hl].
  - apply Z.nlt_ge. by apply Hno in Hr.
  - apply Z.nlt_ge. by apply Hno in Ho.
Qed.

(** A calibration that is ready for governance rests on a hundred settlements or
    more that two endpoints or more serve alike under enough confirmations, with the
    same successful receipts; none charged more than its reserve, every operator
    payment covers the receipt's fee, and the recommended prices cover, with their
    margins, at least 99 in 100 of the gas prices and parent-chain fees. *)
Theorem calibration_ready_sound e o n r n' :
  calibrate e o n = (Ok r, n') → cr_readyForGovernanceReview r = true →
  (2 <= length (cr_urls r))%nat ∧ NoDup (cr_urls r) ∧ ∃ blockRange samples,
    1 <= blockRange ∧ Z.max 100 (cr_minimumSamples r) <= Z.of_nat (length samples) ∧
    (∀ url, url ∈ cr_urls r →
      (∃ i head, sk_blockNumber i url = Ok head ∧ cr_toBlock r + cr_confirmations r <= head) ∧
      ∃ events, served_events url (cr_fromBlock r) (cr_toBlock r) blockRange RequestSettled events ∧
        Forall2 same_settlement events samples.*1) ∧
    (∀ event m, (event, m) ∈ samples →
      (∀ url, url ∈ cr_urls r → measured url (cr_toBlock r) event m) ∧
      arg_totalCharge event <= ms_reservedPayment m ∧
      rf_transactionFee (ms_fees m) <= arg_operatorPayment event) ∧
    (∃ price, cr_maxGasPriceWei r = Some price ∧
      nearly_all (λ s, 12500 * rf_gasPrice (ms_fees s.2) <= 10000 * price) samples) ∧
    ∃ reserve, cr_l1FeeReserveWei r = Some reserve ∧
      nearly_all (λ s, 15000 * default 0 (rf_l1Fee (ms_fees s.2)) <= 10000 * reserve) samples.
Proof.
  unfold calibrate, collectReport. intros Hr Hready. apply eff_require_bind_Ok in Hr as [_ Hr].
  apply eff_lift_bind_Ok in Hr as (? & _ & Hr). apply eff_lift_bind_Ok in Hr as (urls & Hurls & Hr).
  apply eff_bind_Ok in Hr as (? & ? & _ & Hr). do 3 apply eff_lift_bind_Ok in Hr as (? & _ & Hr).
  apply eff_bind_Ok in Hr as (heads & ? & Hheads%mapM_call_Ok & Hr).
  apply eff_lift_bind_Ok in Hr as (confirmations & _ & Hr). apply eff_lift_bind_Ok in Hr as (last & _ & Hr).
  apply eff_require_bind_Ok in Hr as [Hconf Hr]. apply eff_lift_bind_Ok in Hr as (blockRange & Hrange%positiveInteger_range & Hr).
  apply eff_lift_bind_Ok in Hr as (minimumSamples & _ & Hr). apply eff_require_bind_Ok in Hr as [Hle%Z.leb_le Hr].
  apply eff_bind_Ok in Hr as (boundaries & ? & _ & Hr). apply eff_lift_bind_Ok in Hr as (? & _ & Hr).
  apply eff_bind_Ok in Hr as (sets & ? & Hsets%mapM_queries_Ok & Hr); [|lia..].
  apply eff_lift_bind_Ok in Hr as (? & Hagree & Hr). apply eff_lift_bind_Ok in Hr as (events & Hev%from_option_or_Ok & Hr).
  apply eff_bind_Ok in Hr as (c & ? & Hc & Hr). apply eff_lift_bind_Ok in Hr as (? & _ & Hr).
  apply eff_bind_Ok in Hr as (? & ? & _ & Hr). apply eff_lift_bind_Ok in Hr as (? & _ & Hr).
  apply eff_require_bind_Ok in Hr as [_ [= <- <-]]. unfold reportOf in *.
  cbn [cr_readyForGovernanceReview cr_urls cr_fromBlock cr_toBlock cr_confirmations cr_minimumSamples
       cr_maxGasPriceWei cr_l1FeeReserveWei] in *.
  apply normalizeRpcUrls_Ok in Hurls as (Hnd & Hmin & _). cbn in Hmin.
  apply measureEvents_Ok in Hc as (samples & <- & -> & Hs); [|by intros ->].
  rewrite length_fmap in Hready. apply ready_samples in Hready as (Hn & Hfees & -> & ->). rewrite Forall_forall in Hs.
  assert (samples ≠ []) as Hne by (intros ->; cbn in Hn; lia).
  assert (∀ s, s ∈ samples → ∃ receipt, receiptFees receipt = Ok (ms_fees s.2)) as Hreceipt.
  { intros s Hin. destruct urls as [|url urls]; [done|]. destruct (Hs s Hin url) as (_ & _ & receipt & _ & _ & Hf); [by left|eauto]. }
  split; [lia|]. split; [done|]. exists blockRange, samples. split; [lia|]. split; [done|]. split_and!.
  - intros url [i Hi]%list_elem_of_lookup. split.
    + destruct (Forall2_lookup_l _ _ _ _ _ Hheads Hi) as (head & Hh & [j Hj]). exists j, head. split; [done|].
      rewrite forallb_forall in Hconf. specialize (Hconf head). rewrite Z.leb_le in Hconf.
      assert (last <= head - confirmations); [|lia]. apply Hconf, list_elem_of_In. by eapply list_elem_of_lookup_2.
    + destruct (Forall2_lookup_l _ _ _ _ _ Hsets Hi) as (evs & He & Hserved). exists evs. split; [done|].
      apply settlements_inj. eapply assertConsensus_Ok; [exact Hagree|..].
      * apply (list_elem_of_fmap_2 (λ events, VArr (settlement_value <$> events))). by eapply list_elem_of_lookup_2.
      * apply (list_elem_of_fmap_2 (λ events, VArr (settlement_value <$> events))). destruct sets; [done|]. injection Hev as ->. by left.
  - intros event m Hin. split; [by apply (Hs _ Hin)|]. destruct (Hfees _ Hin) as (? & ? & _). by split.
  - apply recommended_covers; [done|done|]. intros s Hin. destruct (Hreceipt s Hin) as [receipt (Hf & _)%receiptFees_nonneg]. exact Hf.
  - apply recommended_covers; [done|done|]. intros s Hin. destruct (Hreceipt s Hin) as [receipt (_ & _ & Hf & _)%receiptFees_nonneg].
    destruct (rf_l1Fee (ms_fees s.2)) as [y|]; [by apply Hf|done].
Qed.
End calibrate.

(** ** A calibration from two endpoints *)
Section examples.
#[local] Existing Instances sample_ethers sample_url.

(** A hundred settlements, one in a block. *)
Definition toy_settlements : list soak_event := (λ k, toy_event "0xab" k (100 + k)) <$> seqZ 0 100.
#[local] Instance toy_settled : SoakApi := {|
  sk_chainId _ _ := Ok 46630;
  sk_blockNumber _ url := Ok (if bool_decide (url = "https://a/") then 312 else 320);
  sk_code _ _ _ := Ok (chars "code");
  sk_query _ _ kind w := Ok (match kind with
    | RequestSettled => filter (λ e, fromBlock w <= se_blockNumber e <= toBlock w) toy_settlements
    | _ => []
    end);
  sk_block _ _ block := Ok (Some {| bb_hash := "0xb0"; bb_timestamp := 2000 * block |});
  sk_contextBlock _ _ _ := Ok 900;
  arg_requestId := se_index; arg_expiresAtBlock _ := 500; arg_success _ := true |}.
Definition toy_receipt (price : Z) : value :=
  VObj [("status", VStr "0x1"); ("effectiveGasPrice", VNum price); ("gasUsed", VStr "0x10");
        ("gasUsedForL1", VNum 4); ("blockHash", VStr "0xAB"); ("transactionHash", VStr "0x01")].
#[local] Instance toy_calibration : CalibrationApi := {|
  cal_reserved _ _ _ _ := Ok 5000; cal_receipt _ _ _ := Ok (toy_receipt 10) |}.
#[local] Instance toy_arguments : SettlementArguments := {|
  arg_networkCost _ := 170; arg_totalCharge _ := 400; arg_operatorPayment _ := 300; arg_treasuryPayment _ := 100 |}.
Definition calibration_arguments : list string :=
  ["--coordinator"; soak_coordinator; "--from-block"; "100"; "--rpc-url"; "https://b"; "--block-range"; "70";
   "--target-minimum-usd"; "0.25"; "--eth-usd"; "3000"].
Definition calibration_options : value :=
  VObj (match parsePairs calibration_arguments [] with Ok o => o | Throw _ => [] end).
#[local] Notation "'calibration_run'" := (calibrate soak_environment calibration_options 0%nat).

Lemma calibration_ready_sound_witness :
  ∃ r, calibration_run.1 = Ok r ∧ (cr_fromBlock r, cr_toBlock r, cr_maxGasPriceWei r, cr_l1FeeReserveWei r,
      cr_minimumRequestFeeWei r) = (100, 300, Some 13, Some 60, Some 83333333333334) ∧
    (2 <= length (cr_urls r))%nat ∧ NoDup (cr_urls r).
Proof.
  assert (((λ r, (cr_readyForGovernanceReview r, (cr_fromBlock r, cr_toBlock r, cr_maxGasPriceWei r,
      cr_l1FeeReserveWei r, cr_minimumRequestFeeWei r))) <$> calibration_run.1)
    = Ok (true, (100, 300, Some 13, Some 60, Some 83333333333334))) as Hr by vm_refl.
  destruct calibration_run as [[r|m] n'] eqn:E; [|discriminate Hr]. injection Hr as Hp Hf. exists r.
  destruct (calibration_ready_sound _ _ _ _ _ E Hp) as (Hl & Hnd & _).
  split; [reflexivity|]. split; [|split; [exact Hl|exact Hnd]]. congruence.
Defined.
End examples.
