(* ===== verification/SmokeReport.v ===== *)
(** * The report of a smoke test ([smoke-report.mjs])

    One request of a deployed coordinator, as every endpoint gives it at a confirmed
    block, with the events of its proof, its callbacks and its settlement.  The
    endpoints are parameters; calls that the code makes together are made in order.
    The options are those that [parseArgs] of Node reads, and the report is not
    written. *)

From S2P Require Import Prelude Js Hex CanonicalJson Vendor Policies OperatorStore ErrorText CommandLine Archiver Readiness SoakReport.

Open Scope Z_scope.

(** [getRequest], by its ABI. *)
Record smoke_request := {
  q_consumer : string; q_verifier : string; q_verifierCodeHash : string; q_fulfiller : string; q_payee : string;
  q_keyHash : string; q_subscriptionId : Z; q_preSeed : Z; q_reservedPayment : Z; q_randomness : Z;
  q_minimumFeeWei : Z; q_requestBlock : Z; q_expiresAtBlock : Z; q_maxGasPriceWei : Z;
  q_verificationGasLimit : Z; q_proofDataLength : Z; q_callbackGasLimit : Z; q_numWords : Z;
  q_callbackAttempts : Z; q_fulfillmentOverheadGas : Z; q_confirmations : Z; q_premiumBps : Z;
  q_operatorPremiumShareBps : Z; q_status : Z; q_sponsored : bool; q_waiveMinimumFee : bool;
  q_callbackSucceeded : bool
}.
(** [request.toObject()] *)
Definition request_object (r : smoke_request) : list (string * value) := [
  ("consumer", VStr (q_consumer r)); ("verifier", VStr (q_verifier r));
  ("verifierCodeHash", VStr (q_verifierCodeHash r)); ("fulfiller", VStr (q_fulfiller r));
  ("payee", VStr (q_payee r)); ("keyHash", VStr (q_keyHash r));
  ("subscriptionId", VBig (q_subscriptionId r)); ("preSeed", VBig (q_preSeed r));
  ("reservedPayment", VBig (q_reservedPayment r)); ("randomness", VBig (q_randomness r));
  ("minimumFeeWei", VBig (q_minimumFeeWei r)); ("requestBlock", VBig (q_requestBlock r));
  ("expiresAtBlock", VBig (q_expiresAtBlock r)); ("maxGasPriceWei", VBig (q_maxGasPriceWei r));
  ("verificationGasLimit", VBig (q_verificationGasLimit r)); ("proofDataLength", VBig (q_proofDataLength r));
  ("callbackGasLimit", VBig (q_callbackGasLimit r)); ("numWords", VBig (q_numWords r));
  ("callbackAttempts", VBig (q_callbackAttempts r)); ("fulfillmentOverheadGas", VBig (q_fulfillmentOverheadGas r));
  ("confirmations", VBig (q_confirmations r)); ("premiumBps", VBig (q_premiumBps r));
  ("operatorPremiumShareBps", VBig (q_operatorPremiumShareBps r)); ("status", VBig (q_status r));
  ("sponsored", VBool (q_sponsored r)); ("waiveMinimumFee", VBool (q_waiveMinimumFee r));
  ("callbackSucceeded", VBool (q_callbackSucceeded r))].
Definition request_field (kv : string * value) : string * value :=
  (kv.1, VStr match kv.2 with VBig z => print_int z | v => lower (to_str v) end).
Definition request_value (r : smoke_request) : value :=
  VObj (request_field <$> filter (λ kv : string * value, all_digits kv.1 = false) (request_object r)).
Definition requestFingerprint (r : smoke_request) : result string := canonicalJson (request_value r).

Class SmokeApi := {
  sx_code : nat → string → string → Z → result bytes;                 (* getCode at a block *)
  sx_request : nat → string → Z → Z → result smoke_request;           (* getRequest at a block *)
  sx_query : nat → string → event_kind → Z → scan_window → result (list soak_event);  (* of a request *)
  arg_keyHash : soak_event → string;
  arg_randomness : soak_event → Z
}.

(** ** Agreement on events *)

Definition smoke_event_value (e : soak_event) : value :=
  VObj [("blockNumber", VNum (se_blockNumber e)); ("blockHash", VStr (se_blockHash e));
        ("transactionHash", VStr (se_transactionHash e)); ("index", VNum (se_index e));
        ("topics", VArr (VStr <$> se_topics e)); ("data", VStr (se_data e))].
Definition smoke_events_value (events : list soak_event) : value := VArr (smoke_event_value <$> events).
Definition assertEventConsensus (eventSets : list (list soak_event)) : result unit :=
  fingerprints ← mapM (λ events, canonicalJson (smoke_events_value events)) eventSets;
  let disagree := "independent RPCs disagree on smoke events" in
  first ← from_option_or disagree (head fingerprints);
  require (forallb (λ f, bool_decide (f = first)) fingerprints) disagree.

(** ** The report *)

(** [manifest.contracts.coordinator[k]] *)
Definition coordinator_field (manifest : value) (k : string) : result value :=
  c ← prop manifest "contracts"; c ← prop c "coordinator"; prop c k.
(** A passing verification of the deployment that the manifest describes. *)
Definition verificationDiffers (manifest verification : value) : result bool :=
  let field v k expected := x ← prop v k; differs x (VStr expected) in
  any_of [
    field manifest "format" "robinhood-proof-vrf-deployment/v1";
    field verification "format" "robinhood-proof-vrf-deployment-verification/v1";
    field verification "status" "pass";
    (x ← prop verification "chainId"; y ← prop manifest "chainId"; Ok (negb (bool_decide (to_str x = to_str y))));
    (x ← prop verification "gitCommit"; y ← prop manifest "gitCommit"; differs x y);
    (x ← prop verification "coordinator";
     address ← coordinator_field manifest "address";
     address ← to_lower address;
     match x with
     | VUndef | VNull => Ok true
     | _ => lower_differs (Ok x) address
     end)].

Record smoke_state := { st_url : string; st_boundary : string; st_request : smoke_request; st_fingerprint : string }.
(** The events of a request: proofs, callbacks and settlements. *)
Record smoke_evidence := { sv_proofs : list soak_event; sv_callbacks : list soak_event; sv_settlements : list soak_event }.
Record smoke_report := {
  sy_pass : bool; sy_chainId : string; sy_gitCommit : value; sy_coordinator : string; sy_requestId : Z; sy_request : smoke_request;
  sy_checkedThroughBlock : Z; sy_checkedThroughBlockHash : string; sy_urls : list string;
  sy_checks : list (string * bool); sy_evidence : smoke_evidence
}.
(** The report, as far as other programs read it. *)
Definition smoke_value (r : smoke_report) : value :=
  VObj [("format", VStr "robinhood-proof-vrf-smoke-report/v1"); ("status", VStr (if sy_pass r then "pass" else "fail"));
        ("chainId", VStr (sy_chainId r)); ("gitCommit", sy_gitCommit r); ("coordinator", VStr (sy_coordinator r));
        ("requestId", VStr (print_int (sy_requestId r)));
        ("checkedThroughBlock", VNum (sy_checkedThroughBlock r));
        ("checks", VObj ((λ c : string * bool, (c.1, VBool c.2)) <$> sy_checks r))].

Section smoke.
Context `{Ethers, UrlApi, SoakApi, SettlementArguments, SmokeApi}.

Definition smokeState (coordinator : string) (manifest : value) (requestId toBlock : Z) (url : string)
    : eff nat smoke_state :=
  chainId ← call (λ n, sk_chainId n url);
  boundary ← call (λ n, sk_block n url toBlock);
  code ← call (λ n, sx_code n url coordinator toBlock);
  expected ← eff_lift (c ← prop manifest "chainId"; to_bigint c);
  _ ← eff_require (chainId =? expected) "RPC chainId mismatch";
  codeHash ← eff_lift (coordinator_field manifest "runtimeCodeHash");
  _ ← eff_require (strict_eq (VStr (keccak256 code)) codeHash) "coordinator runtime code hash mismatch";
  boundary ← eff_lift (from_option_or "missing smoke boundary block" (nonempty (bb_hash <$> boundary)));
  request ← call (λ n, sx_request n url requestId toBlock);
  fingerprint ← eff_lift (requestFingerprint request);
  mret {| st_url := url; st_boundary := boundary; st_request := request; st_fingerprint := fingerprint |}.

Definition smokeEvents (requestId from last : Z) (url : string) (kind : event_kind) : eff nat (list soak_event) :=
  query_windows (λ w n, sx_query n url kind requestId w) (S (Z.to_nat (last - from))) from last 2000.
Definition smokeEvidence (requestId from last : Z) (url : string) : eff nat smoke_evidence :=
  proofs ← smokeEvents requestId from last url ProofVerified;
  callbacks ← smokeEvents requestId from last url CallbackAttempted;
  settlements ← smokeEvents requestId from last url RequestSettled;
  mret {| sv_proofs := proofs; sv_callbacks := callbacks; sv_settlements := settlements |}.

(** [settlement.totalCharge === settlement.operatorPayment + settlement.treasuryPayment]
    and the two bounds. *)
Definition settlementConserved (request : smoke_request) (settlement : soak_event) : bool :=
  (arg_totalCharge settlement =? arg_operatorPayment settlement + arg_treasuryPayment settlement)
  && (arg_networkCost settlement <=? arg_totalCharge settlement)
  && (arg_totalCharge settlement <=? q_reservedPayment request).
Definition smokeChecks (request : smoke_request) (expectedConsumer keyHash : string) (v : smoke_evidence)
    : list (string * bool) :=
  let one {A} (l : list A) := (length l =? 1)%nat in
  let of_first (f : soak_event → bool) l := match l with e :: _ => f e | [] => false end in
  [("rpcConsensus", true); ("rpcEventConsensus", true); ("deploymentVerificationPassed", true);
   ("fulfilled", q_status request =? 2);
   ("consumer", bool_decide (lower (q_consumer request) = lower expectedConsumer));
   ("callbackSucceeded", q_callbackSucceeded request);
   ("callbackWasAttempted", (0 <? q_callbackAttempts request) && negb (bool_decide (sv_callbacks v = [])));
   ("exactlyOneProof", one (sv_proofs v));
   ("exactlyOneSettlement", one (sv_settlements v));
   ("proofMatchesState", one (sv_proofs v)
      && of_first (λ proof, bool_decide (lower (arg_keyHash proof) = lower (q_keyHash request))
                            && (arg_randomness proof =? q_randomness request)) (sv_proofs v));
   ("finalCallbackSucceeded", match last (sv_callbacks v) with Some e => arg_success e | None => false end);
   ("settlementConserved", one (sv_settlements v)
      && of_first (settlementConserved request) (sv_settlements v));
   ("keyMatchesDeployment", bool_decide (lower (q_keyHash request) = keyHash))].

Definition smokeReport (e : environment) (files : file_system) (o : value) : eff nat smoke_report :=
  let read k := path ← from_option_or TYPE_ERROR (as_string (prop_opt o k)); read_json files path in
  let address (v : result value) := v ← v; from_option_or "invalid address" (a ← as_string v; getAddress a) in
  _ ← eff_require (all_digits (to_str (prop_opt o "request-id"))) "request-id must be an unsigned integer";
  secret ← eff_lift (readSecret e "VRF_RPC_URLS" false);
  urls ← eff_lift (normalizeRpcUrls (secret_value secret)
    {| minimum := 2; label := "smoke verification"; allowSharedOrigin := false |});
  manifest ← eff_lift (read "manifest");
  verification ← eff_lift (read "verification-report");
  unverified ← eff_lift (verificationDiffers manifest verification);
  _ ← eff_require (negb unverified) "a passing deployment verification report is required";
  coordinator ← eff_lift (address (coordinator_field manifest "address"));
  requestId ← eff_lift (to_bigint (prop_opt o "request-id"));
  expectedConsumer ← eff_lift (address (Ok (prop_opt o "consumer")));
  heads ← mapM (λ url, call (λ n, sk_blockNumber n url)) urls;
  _ ← eff_require (list_max heads - list_min heads <=? 32) "smoke RPC head skew";
  let toBlock := list_min heads - 12 in
  deployed ← eff_lift (coordinator_field manifest "blockNumber");
  _ ← eff_require (negb (below_number toBlock deployed)) "waiting for smoke confirmations";
  states ← mapM (smokeState coordinator manifest requestId toBlock) urls;
  first ← eff_lift (from_option_or TYPE_ERROR (head states));
  _ ← eff_require (forallb (λ s, bool_decide (st_fingerprint s = st_fingerprint first)
                              && bool_decide (st_boundary s = st_boundary first)) states)
        "independent RPCs disagree on the fulfilled request";
  let request := st_request first in
  let fromBlock := q_requestBlock request in
  _ ← eff_require (safe_integer fromBlock && negb (below_number fromBlock deployed) && (fromBlock <=? toBlock))
        "invalid or unconfirmed smoke request block";
  evidence ← mapM (λ s, smokeEvidence requestId fromBlock toBlock (st_url s)) states;
  _ ← eff_lift (assertEventConsensus (sv_proofs <$> evidence));
  _ ← eff_lift (assertEventConsensus (sv_callbacks <$> evidence));
  _ ← eff_lift (assertEventConsensus (sv_settlements <$> evidence));
  seen ← eff_lift (from_option_or TYPE_ERROR (head evidence));
  keyHash ← eff_lift (k ← prop manifest "keyHash"; to_lower k);
  let checks := smokeChecks request expectedConsumer keyHash seen in
  mret {| sy_pass := forallb snd checks; sy_chainId := to_str (prop_opt manifest "chainId");
          sy_gitCommit := prop_opt manifest "gitCommit"; sy_coordinator := coordinator; sy_requestId := requestId;
          sy_request := request; sy_checkedThroughBlock := toBlock;
          sy_checkedThroughBlockHash := st_boundary first; sy_urls := urls; sy_checks := checks;
          sy_evidence := seen |}.
End smoke.
