(* ===== verification/SmokeSafety.v ===== *)
(** * What a passing smoke report says ([smoke-report.mjs]) *)

From S2P Require Import Prelude Js Hex CanonicalJson Vendor Policies OperatorStore Samples ErrorText CommandLine Archiver Readiness ServiceStartSafety ReadinessSafety PollingSafety SoakReport SoakSafety CalibrateSafety SmokeReport.

Open Scope Z_scope.

(** ** Agreement *)

(** A request up to the case of its texts. *)
Definition same_request (a b : smoke_request) : Prop := request_field <$> request_object a = request_field <$> request_object b.
Lemma request_value_all r : request_value r = VObj (request_field <$> request_object r).
Proof. reflexivity. Qed.
Lemma request_keys r : keys (request_field <$> request_object r) = (request_object r).*1.
Proof. reflexivity. Qed.
Lemma fields_of_values (l k : list (string * value)) :
  l.*1 = k.*1 → Forall2 (λ a b, norm a = norm b) (request_field <$> l).*2 (request_field <$> k).*2 →
  request_field <$> l = request_field <$> k.
Proof.
  revert k. induction l as [|[x v] l IH]; intros [|[y w] k]; try done. cbn. intros [= -> El].
  intros [Ev Hf]%Forall2_cons. f_equal; [|by apply IH]. unfold request_field. cbn. cbn in Ev. injection Ev as Ev. by rewrite Ev.
Qed.
Lemma request_texts_inj a b s : requestFingerprint a = Ok s → requestFingerprint b = Ok s → same_request a b.
Proof.
  unfold requestFingerprint. intros Ha Hb. pose proof (canonicalJson_inj _ _ _ Ha Hb) as E.
  rewrite !request_value_all in E. apply norm_object in E; [|done|by rewrite request_keys]. by apply fields_of_values.
Qed.

(** What agreeing requests have in common. *)
Lemma same_request_fields a b :
  same_request a b → q_status a = q_status b ∧ q_randomness a = q_randomness b ∧ q_reservedPayment a = q_reservedPayment b ∧
    q_callbackSucceeded a = q_callbackSucceeded b ∧ q_requestBlock a = q_requestBlock b ∧
    lower (q_consumer a) = lower (q_consumer b) ∧ lower (q_keyHash a) = lower (q_keyHash b).
Proof.
  intros E. unfold same_request, request_object in E. cbn [fmap list_fmap] in E. unfold request_field in E. cbn [fst snd] in E.
  injection E. intros. repeat match goal with E : print_int _ = print_int _ |- _ => apply print_int_inj in E end.
  split_and!; try done. destruct (q_callbackSucceeded a), (q_callbackSucceeded b); done.
Qed.

Lemma smoke_event_value_inj a b : norm (smoke_event_value a) = norm (smoke_event_value b) → a = b.
Proof.
  intros E. apply norm_object in E; [|done|vm_refl]. cbn [snd fmap list_fmap] in E.
  repeat match goal with E : Forall2 _ (_ :: _) _ |- _ => apply Forall2_cons in E as [? E] end.
  repeat match goal with H : norm (VArr _) = _ |- _ => apply norm_strings in H end.
  destruct a, b. cbn in *. congruence.
Qed.
Lemma smoke_events_inj a b : norm (smoke_events_value a) = norm (smoke_events_value b) → a = b.
Proof.
  unfold smoke_events_value. cbn [norm]. intros [= E]. revert b E. induction a as [|x a IH]; intros [|y b]; try done.
  rewrite !fmap_cons. intros E. pose proof (f_equal (default VNull ∘ head) E) as Exy. apply (f_equal tail) in E.
  cbn [compose head tail default] in *. f_equal; [by apply smoke_event_value_inj|by apply IH].
Qed.
(** Endpoints that agree give the same events, to the letter. *)
Lemma assertEventConsensus_Ok sets u a b : assertEventConsensus sets = Ok u → a ∈ sets → b ∈ sets → a = b.
Proof.
  unfold assertEventConsensus. intros (fps & Hf%mapM_Ok & Hr)%bind_Ok Ha Hb.
  apply bind_Ok in Hr as (first & _ & Hall%require_Ok). rewrite forallb_forall in Hall.
  assert (∀ x, x ∈ sets → canonicalJson (smoke_events_value x) = Ok first) as Hx.
  { intros x [i Hi]%list_elem_of_lookup. destruct (Forall2_lookup_l _ _ _ _ _ Hf Hi) as (f & Hl & E).
    rewrite E. f_equal. specialize (Hall f). rewrite bool_decide_eq_true in Hall. apply Hall, list_elem_of_In.
    by eapply list_elem_of_lookup_2. }
  apply smoke_events_inj, (canonicalJson_inj _ _ first); by apply Hx.
Qed.

(** ** What a passing report says *)

Lemma one_element {A} (l : list A) : (length l =? 1)%nat = true → ∃ x, l = [x].
Proof. destruct l as [|x [|y l]]; try done. by exists x. Qed.

Section smoke.
Context `{Ethers, UrlApi, SoakApi, SettlementArguments, SmokeApi}.

(** The events of a request that an endpoint serves for a range, in windows that tile it. *)
Definition served_request (requestId from last : Z) (url : string) (kind : event_kind) : list soak_event → Prop :=
  served_windows (λ w n, sx_query n url kind requestId w) from last 2000.
Record served_evidence (requestId from last : Z) (url : string) (v : smoke_evidence) : Prop := {
  sd_proofs : served_request requestId from last url ProofVerified (sv_proofs v);
  sd_callbacks : served_request requestId from last url CallbackAttempted (sv_callbacks v);
  sd_settlements : served_request requestId from last url RequestSettled (sv_settlements v)
}.
Lemma smokeEvidence_Ok requestId from last url n v n' :
  from <= last + 1 → smokeEvidence requestId from last url n = (Ok v, n') → served_evidence requestId from last url v.
Proof.
  intros Hle. unfold smokeEvidence, smokeEvents. intros (a & ? & Ha%query_windows_Ok & Hr)%eff_bind_Ok; [|lia..].
  apply eff_bind_Ok in Hr as (b & ? & Hb%query_windows_Ok & Hr); [|lia..].
  apply eff_bind_Ok in Hr as (c & ? & Hc%query_windows_Ok & [= <- <-]); [|lia..]. done.
Qed.

(** The coordinator as an endpoint gives it at a block. *)
Record served_coordinator (coordinator : string) (manifest : value) (requestId block : Z) (url : string) (s : smoke_state) : Prop := {
  sc_url : st_url s = url;
  sc_request : ∃ i, sx_request i url requestId block = Ok (st_request s);
  sc_boundary : ∃ i b, sk_block i url block = Ok (Some b) ∧ bb_hash b = st_boundary s;
  sc_code : ∃ i code, sx_code i url coordinator block = Ok code ∧
    coordinator_field manifest "runtimeCodeHash" = Ok (VStr (keccak256 code));
  sc_fingerprint : requestFingerprint (st_request s) = Ok (st_fingerprint s)
}.
Lemma smokeState_Ok coordinator manifest requestId block url n s n' :
  smokeState coordinator manifest requestId block url n = (Ok s, n') →
  served_coordinator coordinator manifest requestId block url s.
Proof.
  unfold smokeState. intros (? & _ & Hr)%call_bind_Ok. apply call_bind_Ok in Hr as (b & Hb & Hr).
  apply call_bind_Ok in Hr as (code & Hcode & Hr). apply eff_lift_bind_Ok in Hr as (? & _ & Hr).
  apply eff_require_bind_Ok in Hr as [_ Hr]. apply eff_lift_bind_Ok in Hr as (h & Hh & Hr).
  apply eff_require_bind_Ok in Hr as [Heq Hr]. apply eff_lift_bind_Ok in Hr as (hash & Hhash%from_option_or_Ok & Hr).
  apply call_bind_Ok in Hr as (q & Hq & Hr). apply eff_lift_bind_Ok in Hr as (fp & Hfp & [= <- <-]).
  destruct h as [| | | | | |h| |]; try discriminate Heq. apply bool_decide_eq_true in Heq as <-.
  split; cbn [st_url st_request st_boundary st_fingerprint]; [reflexivity|eauto| |eauto|exact Hfp].
  destruct b as [b|]; [|discriminate Hhash]. exists (S n), b. split; [exact Hb|].
  revert Hhash. unfold nonempty. cbn [fmap option_fmap option_map]. destruct (bool_decide _); [discriminate|]. congruence.
Qed.

(** What the checks say. *)
Lemma smokeChecks_pass request consumer keyHash v :
  forallb snd (smokeChecks request consumer keyHash v) = true →
  q_status request = 2 ∧
  (∃ proof, sv_proofs v = [proof] ∧ arg_randomness proof = q_randomness request ∧
    lower (arg_keyHash proof) = lower (q_keyHash request)) ∧
  (∃ c, last (sv_callbacks v) = Some c ∧ arg_success c = true) ∧
  ∃ s, sv_settlements v = [s] ∧ arg_totalCharge s = arg_operatorPayment s + arg_treasuryPayment s ∧
    arg_networkCost s <= arg_totalCharge s <= q_reservedPayment request.
Proof.
  unfold smokeChecks. cbv zeta. cbn [forallb snd]. rewrite !andb_true_iff.
  intros (_ & _ & _ & Hst & _ & _ & _ & _ & _ & (Hp%one_element & Hproof) & Hcb & (Hs%one_element & Hset) & _ & _).
  apply Z.eqb_eq in Hst. destruct Hp as [proof Ep], Hs as [s Es]. rewrite Ep in Hproof. rewrite Es in Hset.
  unfold settlementConserved in Hset. rewrite !andb_true_iff, Z.eqb_eq, !Z.leb_le in Hset.
  rewrite andb_true_iff, bool_decide_eq_true, Z.eqb_eq in Hproof.
  split; [done|]. split; [exists proof; naive_solver|]. split; [|exists s; naive_solver].
  destruct (last (sv_callbacks v)) as [c|]; [by exists c|done].
Qed.

(** A smoke report that passes is about a request that two endpoints or more give
    alike at a block twelve or more below each head, with the same events from its
    block on: it is fulfilled, its one proof event has its randomness, its last
    callback succeeded, and its one settlement splits the charge, which covers the
    network cost within the reserve, exactly between operator and treasury. *)
Theorem smoke_pass_sound e files o n r n' :
  smokeReport e files o n = (Ok r, n') → sy_pass r = true →
  (2 <= length (sy_urls r))%nat ∧ NoDup (sy_urls r) ∧
  (∀ url, url ∈ sy_urls r →
    (∃ i head, sk_blockNumber i url = Ok head ∧ sy_checkedThroughBlock r + 12 <= head) ∧
    (∃ i b, sk_block i url (sy_checkedThroughBlock r) = Ok (Some b) ∧ bb_hash b = sy_checkedThroughBlockHash r) ∧
    (∃ i q, sx_request i url (sy_requestId r) (sy_checkedThroughBlock r) = Ok q ∧ same_request q (sy_request r)) ∧
    served_evidence (sy_requestId r) (q_requestBlock (sy_request r)) (sy_checkedThroughBlock r) url (sy_evidence r)) ∧
  q_status (sy_request r) = 2 ∧
  (∃ proof, sv_proofs (sy_evidence r) = [proof] ∧ arg_randomness proof = q_randomness (sy_request r) ∧
    lower (arg_keyHash proof) = lower (q_keyHash (sy_request r))) ∧
  (∃ c, last (sv_callbacks (sy_evidence r)) = Some c ∧ arg_success c = true) ∧
  ∃ s, sv_settlements (sy_evidence r) = [s] ∧
    arg_totalCharge s = arg_operatorPayment s + arg_treasuryPayment s ∧
    arg_networkCost s <= arg_totalCharge s <= q_reservedPayment (sy_request r).
Proof.
  unfold smokeReport. intros Hr Hpass. apply eff_require_bind_Ok in Hr as [_ Hr].
  apply eff_lift_bind_Ok in Hr as (? & _ & Hr). apply eff_lift_bind_Ok in Hr as (urls & Hurls & Hr).
  apply eff_lift_bind_Ok in Hr as (manifest & _ & Hr).
  do 2 apply eff_lift_bind_Ok in Hr as (? & _ & Hr). apply eff_require_bind_Ok in Hr as [_ Hr].
  apply eff_lift_bind_Ok in Hr as (coordinator & _ & Hr). apply eff_lift_bind_Ok in Hr as (requestId & _ & Hr).
  apply eff_lift_bind_Ok in Hr as (consumer & _ & Hr). apply eff_bind_Ok in Hr as (heads & ? & Hheads%mapM_call_Ok & Hr).
  apply eff_require_bind_Ok in Hr as [_ Hr]. apply eff_lift_bind_Ok in Hr as (? & _ & Hr).
  apply eff_require_bind_Ok in Hr as [_ Hr]. apply eff_bind_Ok in Hr as (states & ? & Hstates & Hr).
  apply eff_lift_bind_Ok in Hr as (first & Hfirst%from_option_or_Ok & Hr). apply eff_require_bind_Ok in Hr as [Hagree Hr].
  apply eff_require_bind_Ok in Hr as [Hblock Hr]. apply eff_bind_Ok in Hr as (evidence & ? & Hevidence & Hr).
  apply eff_lift_bind_Ok in Hr as (? & Hproofs & Hr). apply eff_lift_bind_Ok in Hr as (? & Hcallbacks & Hr).
  apply eff_lift_bind_Ok in Hr as (? & Hsettlements & Hr). apply eff_lift_bind_Ok in Hr as (seen & Hseen%from_option_or_Ok & Hr).
  apply eff_lift_bind_Ok in Hr as (keyHash & _ & [= <- <-]).
  cbn [sy_pass sy_urls sy_requestId sy_request sy_checkedThroughBlock sy_checkedThroughBlockHash sy_evidence] in *.
  rewrite !andb_true_iff, Z.leb_le in Hblock. destruct Hblock as [_ Hle].
  apply (mapM_eff_Ok _ (served_coordinator coordinator manifest requestId (list_min heads - 12))) in Hstates;
    [|intros; by eapply smokeState_Ok].
  apply (mapM_eff_Ok _ (λ s v, served_evidence requestId (q_requestBlock (st_request first)) (list_min heads - 12) (st_url s) v)) in Hevidence;
    [|intros; eapply smokeEvidence_Ok; [|done]; lia].
  apply normalizeRpcUrls_Ok in Hurls as (Hnd & Hmin & _). cbn in Hmin. split; [lia|]. split; [done|].
  split; [|eapply smokeChecks_pass, Hpass]. intros url [i Hi]%list_elem_of_lookup.
  destruct (Forall2_lookup_l _ _ _ _ _ Hstates Hi) as (s & Hs & [Hu Hq Hb _ Hfp]).
  destruct (Forall2_lookup_l _ _ _ _ _ Hheads Hi) as (h & Hh & Hhead).
  destruct (Forall2_lookup_l _ _ _ _ _ Hevidence Hs) as (v & Hv & Hserved). rewrite Hu in Hserved.
  assert (st_fingerprint s = st_fingerprint first ∧ st_boundary s = st_boundary first) as [Ef Eb].
  { rewrite forallb_forall in Hagree. specialize (Hagree s). rewrite andb_true_iff, !bool_decide_eq_true in Hagree.
    apply Hagree, list_elem_of_In. by eapply list_elem_of_lookup_2. }
  assert (v ∈ evidence) as Hin by (by eapply list_elem_of_lookup_2).
  assert (seen ∈ evidence) as Hin' by (destruct evidence; [done|]; injection Hseen as ->; by left).
  split_and!.
  - destruct Hhead as [j Hj]. exists j, h. split; [done|].
    assert (list_min heads <= h); [|lia]. apply list_extremes. by eapply list_elem_of_lookup_2.
  - destruct Hb as (j & b & Hj & Hhash). exists j, b. split; [done|]. by rewrite Hhash.
  - destruct Hq as [j Hj]. exists j, (st_request s). split; [done|]. eapply request_texts_inj; [exact Hfp|].
    rewrite Ef. destruct states as [|s0 states]; [done|]. injection Hfirst as ->.
    by apply Forall2_cons_inv_r in Hstates as (? & ? & [_ _ _ _ Hf0] & _).
  - destruct Hserved as [H1' H2' H3']. split.
    + replace (sv_proofs seen) with (sv_proofs v); [done|]. eapply assertEventConsensus_Ok; [exact Hproofs|..]; by apply list_elem_of_fmap_2.
    + replace (sv_callbacks seen) with (sv_callbacks v); [done|]. eapply assertEventConsensus_Ok; [exact Hcallbacks|..]; by apply list_elem_of_fmap_2.
    + replace (sv_settlements seen) with (sv_settlements v); [done|]. eapply assertEventConsensus_Ok; [exact Hsettlements|..]; by apply list_elem_of_fmap_2.
Qed.
End smoke.

(** ** A report of two endpoints *)
Section examples.
#[local] Existing Instances sample_ethers sample_url.

#[local] Instance smoke_chain : SoakApi := {|
  sk_chainId _ _ := Ok 46630;
  sk_blockNumber _ url := Ok (if bool_decide (url = "https://a/") then 3150 else 3160);
  sk_code _ _ _ := Ok []; sk_query _ _ _ _ := Ok [];
  sk_block _ _ block := Ok (Some {| bb_hash := "0xb0"; bb_timestamp := 2000 * block |});
  sk_contextBlock _ _ _ := Ok 900;
  arg_requestId := se_index; arg_expiresAtBlock _ := 500; arg_success _ := true |}.
Definition smoke_key : string := "0xKEY".
Definition smoke_state_of (consumer : string) : smoke_request := {|
  q_consumer := consumer; q_verifier := "0xV"; q_verifierCodeHash := "0xC"; q_fulfiller := "0xF"; q_payee := "0xP";
  q_keyHash := smoke_key; q_subscriptionId := 1; q_preSeed := 2; q_reservedPayment := 900; q_randomness := 77;
  q_minimumFeeWei := 0; q_requestBlock := 1000; q_expiresAtBlock := 5000; q_maxGasPriceWei := 9;
  q_verificationGasLimit := 9; q_proofDataLength := 416; q_callbackGasLimit := 9; q_numWords := 1;
  q_callbackAttempts := 1; q_fulfillmentOverheadGas := 9; q_confirmations := 2; q_premiumBps := 100;
  q_operatorPremiumShareBps := 5000; q_status := 2; q_sponsored := false; q_waiveMinimumFee := false;
  q_callbackSucceeded := true |}.
(** The events of the request are in the second window. *)
Definition smoke_answer (kind : event_kind) (w : scan_window) : list soak_event :=
  if fromBlock w =? 3000 then
    match kind with ProofVerified | CallbackAttempted | RequestSettled => [toy_event "0xab" 7 3100] | _ => [] end
  else [].
(** The second endpoint writes the address of the consumer in lower case. *)
#[local] Instance smoke_api : SmokeApi := {|
  sx_code _ _ _ _ := Ok (chars "code");
  sx_request _ url _ _ := Ok (smoke_state_of (if bool_decide (url = "https://a/") then soak_coordinator else lower soak_coordinator));
  sx_query _ _ kind _ w := Ok (smoke_answer kind w);
  arg_keyHash _ := "0xkey"; arg_randomness _ := 77 |}.
#[local] Instance smoke_arguments : SettlementArguments := {|
  arg_networkCost _ := 170; arg_totalCharge _ := 400; arg_operatorPayment _ := 300; arg_treasuryPayment _ := 100 |}.

Definition smoke_json (path : string) : value :=
  let common := [("gitCommit", VStr "c0ffee"); ("chainId", VNum 46630); ("coordinator", VStr soak_coordinator)] in
  if bool_decide (path = "manifest.json") then
    VObj (("format", VStr "robinhood-proof-vrf-deployment/v1") :: ("keyHash", VStr smoke_key)
      :: ("contracts", VObj [("coordinator", VObj [("address", VStr soak_coordinator); ("blockNumber", VNum 900);
                               ("runtimeCodeHash", VStr (keccak256 (chars "code")))])]) :: common)
  else VObj (("format", VStr "robinhood-proof-vrf-deployment-verification/v1") :: ("status", VStr "pass") :: common).
Definition smoke_files : file_system := {| read_json path := Ok (smoke_json path); read_bytes _ := Throw "ENOENT" |}.
Definition smoke_environment : environment := {|
  env name := if bool_decide (name = "VRF_RPC_URLS") then Some "https://a,https://b" else None;
  lstat _ := Throw "ENOENT"; read_file _ := Throw "ENOENT" |}.
Definition smoke_options : value :=
  VObj [("manifest", VStr "manifest.json"); ("verification-report", VStr "verification.json");
        ("request-id", VStr "7"); ("consumer", VStr soak_coordinator)].
#[local] Notation "'smoke_run'" := (smokeReport smoke_environment smoke_files smoke_options 0%nat).

Lemma smoke_pass_sound_witness :
  ∃ r, smoke_run.1 = Ok r ∧ (sy_requestId r, sy_checkedThroughBlock r, length (sy_urls r)) = (7, 3138, 2%nat) ∧
    q_status (sy_request r) = 2 ∧ ∃ s, sv_settlements (sy_evidence r) = [s] ∧
      arg_totalCharge s = arg_operatorPayment s + arg_treasuryPayment s.
Proof.
  assert (((λ r, (sy_pass r, (sy_requestId r, sy_checkedThroughBlock r, length (sy_urls r)))) <$> smoke_run.1)
    = Ok (true, (7, 3138, 2%nat))) as Hr by vm_refl.
  destruct smoke_run as [[r|m] n'] eqn:E; [|discriminate Hr]. injection Hr as Hp Hf. exists r.
  destruct (smoke_pass_sound _ _ _ _ _ _ E Hp) as (_ & _ & _ & Hst & _ & _ & s & Hs & Hc & _).
  split; [reflexivity|]. split; [congruence|]. split; [exact Hst|]. exists s. split; [exact Hs|exact Hc].
Defined.
End examples.
