(* ===== verification/SourceVerification.v ===== *)
(** * The sources of deployed contracts ([source-verification.mjs])

    Whether the explorer of the chain confirms the source of each contract, by the
    URLs that a file gives for them.  The explorer and the URL parser are parameters;
    the explorer's answer depends on the number of the call, and the contracts, which
    the code asks about together, are asked about in order. *)

From S2P Require Import Prelude Js Hex CanonicalJson Json Vendor Policies ErrorText Archiver Service SoakReport.

Open Scope Z_scope.

Record explorer_answer := { xa_ok : bool; xa_status : Z; xa_body : string }.
Class ExplorerApi := {
  explorer_get : nat → string → result explorer_answer;       (* fetch, with its timeout *)
  query_address : string → option string;                     (* searchParams.get of ''address'' *)
  url_pathname : string → string
}.

Record source_evidence := {
  sn_verified : bool; sn_contractName : value; sn_compilerVersion : value; sn_api : string
}.

(** [toUpperCase() === ''OK''] compares without case. *)
Definition parseEvidence (payload : value) : source_evidence :=
  let field k := prop_opt payload k in
  let is_text v := bool_decide (typeof v = "string") in
  let filled v := match v with VStr s => negb (bool_decide (trim s = "")) | _ => false end in
  let is_bool v := bool_decide (typeof v = "boolean") in
  if strict_eq (field "status") (VStr "1") && bool_decide (lower (to_str (field "message")) = "ok") then
    let result := match field "result" with VArr l => default VUndef (head l) | v => v end in
    let sourceCode := prop_opt result "SourceCode" in
    {| sn_verified := filled sourceCode && negb (mentions ["not verified"] (to_str sourceCode))
                      && is_text (prop_opt result "CompilerVersion");
       sn_contractName := or_null (prop_opt result "ContractName");
       sn_compilerVersion := or_null (prop_opt result "CompilerVersion"); sn_api := "blockscout-v1" |}
  else if is_bool (field "is_verified") || is_bool (field "is_fully_verified") then
    {| sn_verified := strict_eq (field "is_fully_verified") (VBool true)
                      && negb (strict_eq (field "is_changed_bytecode") (VBool true))
                      && filled (field "source_code") && is_text (field "compiler_version");
       sn_contractName := or_null (field "name");
       sn_compilerVersion := or_null (field "compiler_version"); sn_api := "blockscout-v2" |}
  else {| sn_verified := false; sn_contractName := VNull; sn_compilerVersion := VNull; sn_api := "unknown" |}.

(** The entry of a contract in the report. *)
Inductive source_entry :=
  | Missing
  | Explored (verified : bool) (href : string) (evidence : source_evidence) (compilerMatches : bool)
  | Failed (url : value) (error : string).
Definition entry_verified (e : source_entry) : bool :=
  match e with Explored v _ _ _ => v | _ => false end.

(** [entries[name] = entry]: an entry does not become the prototype of an object with
    that name. *)
Definition set_entry {A} (name : string) (entry : A) (entries : list (string * A)) : list (string * A) :=
  if bool_decide (name = "__proto__") then entries else assoc_set name entry entries.

Record source_options := { allowedHosts : option (list string); expectedCompiler : string }.
Record source_report := { sn_pass : bool; sn_entries : list (string * source_entry) }.

Section sources.
Context `{UrlApi, ExplorerApi}.

Definition addressBoundUrl (href address : string) : bool :=
  let normalized := lower address in
  bool_decide (lower <$> query_address href = Some normalized)
  || bool_decide (normalized ∈ split_on "/" (lower (url_pathname href))).

Definition verifySource (o : source_options) (rawUrl deployed : value) : eff nat source_entry :=
  url ← eff_lift (from_option_or "Invalid URL" (parse_url (to_str rawUrl)));
  _ ← eff_require (bool_decide (url_protocol url = "https:")) "verification URL must use HTTPS";
  _ ← eff_require (match allowedHosts o with Some hosts => bool_decide (url_hostname url ∈ hosts) | None => true end)
        "verification URL is not hosted by the configured chain explorer";
  address ← eff_lift (a ← prop deployed "address"; from_option_or TYPE_ERROR (as_string a));
  _ ← eff_require (addressBoundUrl (url_href url) address)
        "verification API URL is not bound to the deployed address";
  response ← call (λ n, explorer_get n (url_href url));
  _ ← eff_require (xa_ok response) ("verification API returned HTTP " +:+ print_int (xa_status response));
  _ ← eff_require (str_length (xa_body response) <=? 2000000) "verification API response is too large";
  payload ← eff_lift (JSON_parse (xa_body response));
  let evidence := parseEvidence payload in
  let compilerMatches :=
    match sn_compilerVersion evidence with
    | VStr version => contains_any [expectedCompiler o] version
    | _ => false
    end in
  mret (Explored (sn_verified evidence && compilerMatches) (url_href url) evidence compilerMatches).

Definition sourceEntry (o : source_options) (configured : value) (contract : string * value) : eff nat source_entry :=
  v ← eff_lift (prop configured contract.1);
  let rawUrl := match v with VStr _ => v | _ => prop_opt v "url" end in
  if truthy rawUrl then
    eff_catch (verifySource o rawUrl contract.2) (λ e, mret (Failed rawUrl e))
  else mret Missing.

(** [contracts] are the entries of the object of contracts. *)
Definition verifySources (path : option string) (contracts : list (string * value))
    (readJson : string → result value) (o : source_options) : eff nat source_report :=
  match nonempty path with
  | None => mret {| sn_pass := false; sn_entries := [] |}
  | Some path =>
      configured ← eff_lift (readJson path);
      checked ← mapM (sourceEntry o configured) contracts;
      let entries := foldl (λ es e, set_entry e.1 e.2 es) [] (zip contracts.*1 checked) in
      mret {| sn_pass := (length entries =? length contracts)%nat && forallb (λ e, entry_verified e.2) entries;
              sn_entries := entries |}
  end.
End sources.
