(* ===== verification/DeploymentCheck.v ===== *)
(** * The verification of a deployment ([verify-deployment.mjs])

    The contracts of a deployment manifest, their owners and their settings, as one
    endpoint gives them, compared with what the manifest says.  The endpoint and the
    explorer are parameters; calls that the code makes together are made in order.
    The options are those that [parseArgs] of Node reads, and the report is not
    written. *)

From S2P Require Import Prelude Js Hex CanonicalJson Vendor Policies ErrorText CommandLine Archiver Readiness SoakReport SourceVerification.

Open Scope Z_scope.

(** A key with the settings of its gas lane, and the prices of the coordinator by
    their names in the ABI. *)
Record deployed_key := { dk_config : key_config; dk_maxGasPriceWei : Z; dk_verificationGasLimit : Z }.
Class DeploymentApi := {
  dp_key : nat → string → string → value → result deployed_key;          (* getKey *)
  dp_pricing : nat → string → string → result (string → Z)
}.
Definition PRICING_FIELDS : list string := [
  "minimumRequestFeeWei"; "l1FeeReserveWei"; "fulfillmentOverheadGas"; "perWordGas"; "publicPremiumBps";
  "operatorPremiumShareBps"; "requestTimeoutBlocks"].

(** [&&] over conditions that may throw. *)
Fixpoint all_of (conditions : list (result bool)) : result bool :=
  match conditions with
  | [] => Ok true
  | c :: conditions => b ← c; if b : bool then all_of conditions else Ok false
  end.
(** [a.toLowerCase() === v.toLowerCase()], and with [v?.toLowerCase()]. *)
Definition lower_is (a : string) (v : result value) : result bool :=
  v ← v; l ← to_lower v; Ok (bool_decide (lower a = l)).
Definition optional_lower_is (a : string) (v : result value) : result bool :=
  v ← v; match v with VUndef | VNull => Ok false | _ => lower_is a (Ok v) end.

(** [Object.entries(v)] *)
Definition object_entries (v : value) : result (list (string * value)) :=
  match v with
  | VUndef | VNull => Throw TYPE_ERROR
  | VObj fs => Ok fs
  | VArr l => Ok (imap (λ i x, (print_int (Z.of_nat i), x)) l)
  | VStr s => Ok (imap (λ i c, (print_int (Z.of_nat i), VStr (of_chars [c]))) (chars s))
  | _ => Ok []
  end.
(** [manifest.contracts[name][k]] *)
Definition contract_field (manifest : value) (name k : string) : result value :=
  c ← prop manifest "contracts"; c ← prop c name; prop c k.
Definition checked_address `{Ethers} (v : result value) : result string :=
  v ← v; from_option_or "invalid address" (a ← as_string v; getAddress a).

Record code_check := { cc_address : value; cc_runtimeCodeHash : string; cc_matchesManifest : bool }.
(** What the endpoint gives for the deployment. *)
Record deployment_state := {
  ds_codeChecks : list (string * code_check);
  ds_owner : string; ds_pendingOwner : string; ds_guardian : string; ds_blockhashStore : string;
  ds_l1FeeCalculator : string; ds_pinnedL1CodeHash : string; ds_contextBlock : Z; ds_key : deployed_key;
  ds_pricing : string → Z; ds_rpcHead : Z; ds_blockContext : string; ds_pinnedBlockContextCodeHash : string;
  ds_governanceSafe : string; ds_timelockDelay : Z; ds_minimumTimelockDelay : Z; ds_sources : source_report;
  ds_ownerCode : bytes; ds_safeCode : bytes; ds_contextCode : bytes; ds_l1Code : bytes
}.

Section deployment.
Context `{Ethers, UrlApi, ExplorerApi, ReadinessApi, DeploymentApi}.

Definition codeCheck (url : string) (contract : string * value) : eff nat code_check :=
  address ← eff_lift (checked_address (prop contract.2 "address"));
  code ← call (λ n, rd_code n url address);
  let runtimeCodeHash := keccak256 code in
  mret {| cc_address := prop_opt contract.2 "address"; cc_runtimeCodeHash := runtimeCodeHash;
          cc_matchesManifest := has_code code
            && strict_eq (VStr runtimeCodeHash) (prop_opt contract.2 "runtimeCodeHash") |}.

(** The hosts of the explorers of the two networks. *)
Definition explorer_options (manifest : value) : source_options := {|
  allowedHosts := Some [if bool_decide (to_number (prop_opt manifest "chainId") = Some 4663)
                        then "robinhoodchain.blockscout.com" else "explorer.testnet.chain.robinhood.com"];
  expectedCompiler := "0.8.24" |}.

Definition readDeployment (files : file_system) (sourcesPath : option string) (manifest : value) (url : string)
    : eff nat deployment_state :=
  contracts ← eff_lift (c ← prop manifest "contracts"; object_entries c);
  codeChecks ← mapM (codeCheck url) contracts;
  coordinator ← eff_lift (a ← contract_field manifest "coordinator" "address"; from_option_or TYPE_ERROR (as_string a));
  let text contract f := call (λ n, rd_text n url contract f) in
  let number contract f := call (λ n, rd_number n url contract f) in
  let code address := call (λ n, rd_code n url address) in
  owner ← text coordinator "owner";
  pendingOwner ← text coordinator "pendingOwner";
  guardian ← text coordinator "guardian";
  blockhashStore ← text coordinator "blockhashStore";
  l1FeeCalculator ← text coordinator "l1FeeCalculator";
  pinnedL1CodeHash ← text coordinator "l1FeeCalculatorCodeHash";
  contextBlock ← number coordinator "contextBlockNumber";
  key ← call (λ n, dp_key n url coordinator (prop_opt manifest "keyHash"));
  pricing ← call (λ n, dp_pricing n url coordinator);
  rpcHead ← call (λ n, rd_blockNumber n url);
  blockContext ← text blockhashStore "blockContext";
  pinnedBlockContextCodeHash ← text blockhashStore "blockContextCodeHash";
  governanceSafe ← text owner "owner";
  timelockDelay ← number owner "delay";
  minimumTimelockDelay ← number owner "MIN_DELAY";
  sources ← verifySources sourcesPath contracts (read_json files) (explorer_options manifest);
  ownerCode ← code owner;
  safeCode ← code governanceSafe;
  contextCode ← code blockContext;
  l1Code ← code l1FeeCalculator;
  mret {| ds_codeChecks := foldl (λ cs c, set_entry c.1 c.2 cs) [] (zip contracts.*1 codeChecks);
          ds_owner := owner; ds_pendingOwner := pendingOwner; ds_guardian := guardian;
          ds_blockhashStore := blockhashStore; ds_l1FeeCalculator := l1FeeCalculator;
          ds_pinnedL1CodeHash := pinnedL1CodeHash; ds_contextBlock := contextBlock; ds_key := key;
          ds_pricing := pricing; ds_rpcHead := rpcHead; ds_blockContext := blockContext;
          ds_pinnedBlockContextCodeHash := pinnedBlockContextCodeHash; ds_governanceSafe := governanceSafe;
          ds_timelockDelay := timelockDelay; ds_minimumTimelockDelay := minimumTimelockDelay;
          ds_sources := sources; ds_ownerCode := ownerCode; ds_safeCode := safeCode;
          ds_contextCode := contextCode; ds_l1Code := l1Code |}.

(** The checks in their order.  The block of the context is compared as a number,
    which agrees with the double for a safe integer. *)
Definition deploymentChecks (manifest : value) (s : deployment_state) : list (string * result bool) :=
  let field k := prop manifest k in
  let key := dk_config (ds_key s) in
  let printed_is (z : Z) (v : value) : result bool := Ok (strict_eq (VStr (print_int z)) v) in
  let key_setting k := prop_opt (prop_opt manifest "keyConfig") k in
  [("runtimeCodeHashes", Ok (forallb (λ c, cc_matchesManifest c.2) (ds_codeChecks s)));
   ("ownershipAccepted", all_of [
      lower_is (ds_owner s) (field "configuredOwner"); Ok (bool_decide (ds_pendingOwner s = ZERO_OWNER))]);
   ("ownerIsTimelock", all_of [
      Ok (has_code (ds_ownerCode s)); Ok (ds_minimumTimelockDelay s <=? ds_timelockDelay s);
      Ok (43200 <=? ds_timelockDelay s);
      optional_lower_is (keccak256 (ds_ownerCode s)) (field "configuredOwnerRuntimeCodeHash");
      (v ← field "timelockDelaySeconds"; Ok (bool_decide (print_int (ds_timelockDelay s) = to_str v)))]);
   ("timelockOwnedBySafe", all_of [
      Ok (has_code (ds_safeCode s)); optional_lower_is (ds_governanceSafe s) (field "governanceSafe")]);
   ("guardian", lower_is (ds_guardian s) (field "guardian"));
   ("blockhashStore", lower_is (ds_blockhashStore s) (contract_field manifest "blockhashStore" "address"));
   ("blockContext", lower_is (ds_blockContext s) (contract_field manifest "blockContext" "address"));
   ("blockContextCodeHash", Ok (has_code (ds_contextCode s)
      && bool_decide (keccak256 (ds_contextCode s) = ds_pinnedBlockContextCodeHash s)));
   ("l1FeeCalculator", lower_is (ds_l1FeeCalculator s) (contract_field manifest "l1FeeCalculator" "address"));
   ("l1FeeCalculatorCodeHash", Ok (has_code (ds_l1Code s)
      && bool_decide (keccak256 (ds_l1Code s) = ds_pinnedL1CodeHash s)));
   ("keyActive", Ok (k_exists key && k_active key));
   ("keyVerifier", lower_is (k_verifier key) (contract_field manifest "verifier" "address"));
   ("keyFulfiller", lower_is (k_fulfiller key) (field "fulfiller"));
   ("keyPayee", lower_is (k_payee key) (field "payee"));
   ("keyGasLane", all_of [
      printed_is (dk_maxGasPriceWei (ds_key s)) (key_setting "maxGasPriceWei");
      printed_is (dk_verificationGasLimit (ds_key s)) (key_setting "verificationGasLimit")]);
   ("proofDataLength", Ok ((k_proofDataLength key =? 416)
      && bool_decide (to_number (key_setting "proofDataLength") = Some (k_proofDataLength key))));
   ("pricing", all_of ((λ k, printed_is (ds_pricing s k) (prop_opt (prop_opt manifest "pricing") k)) <$> PRICING_FIELDS));
   ("rolesSeparated", Ok (all_distinct (lower <$> [ds_owner s; ds_guardian s; k_fulfiller key; k_payee key])));
   ("l2ContextNearRpcHead", Ok (Z.abs (ds_contextBlock s - ds_rpcHead s) <=? 8));
   ("sourceVerified", Ok (sn_pass (ds_sources s)))].

(** The report, as far as other programs read it. *)
Record verification_report := {
  vr_chainId : Z; vr_coordinator : value; vr_gitCommit : value;
  vr_checks : list (string * bool); vr_state : deployment_state; vr_pass : bool
}.
Definition verification_value (r : verification_report) : value :=
  VObj [("format", VStr "robinhood-proof-vrf-deployment-verification/v1");
        ("chainId", VStr (print_int (vr_chainId r))); ("coordinator", vr_coordinator r);
        ("gitCommit", vr_gitCommit r);
        ("checks", VObj ((λ c : string * bool, (c.1, VBool c.2)) <$> vr_checks r));
        ("status", VStr (if vr_pass r then "pass" else "fail"))].

Definition verifyDeployment (files : file_system) (o : value) : eff nat verification_report :=
  manifest ← eff_lift (path ← from_option_or TYPE_ERROR (as_string (prop_opt o "manifest")); read_json files path);
  format ← eff_lift (prop manifest "format");
  _ ← eff_require (strict_eq format (VStr "robinhood-proof-vrf-deployment/v1")) "unsupported deployment manifest";
  let url := to_str (prop_opt o "rpc-url") in
  chainId ← call (λ n, rd_chainId n url);
  expected ← eff_lift (to_bigint (prop_opt manifest "chainId"));
  _ ← eff_require (chainId =? expected) "manifest chainId mismatch";
  state ← readDeployment files (as_string (prop_opt o "source-verification-file")) manifest url;
  checks ← eff_lift (mapM (λ c : string * result bool, b ← c.2; Ok (c.1, b)) (deploymentChecks manifest state));
  coordinator ← eff_lift (contract_field manifest "coordinator" "address");
  mret {| vr_chainId := chainId; vr_coordinator := coordinator; vr_gitCommit := prop_opt manifest "gitCommit"; vr_checks := checks; vr_state := state;
          vr_pass := forallb snd checks |}.
End deployment.
