(* ===== verification/DeploymentSafety.v ===== *)
(** * What a verified deployment is ([verify-deployment.mjs], [source-verification.mjs])

    The facts behind a passing verification, and the reports of a deployment taken
    together: those of the verification and of the smoke test of one manifest are the
    ones that the soak test asks for. *)

From S2P Require Import Prelude Js Hex CanonicalJson Json JsonText Vendor Policies OperatorStore Samples ErrorText CommandLine Archiver Service Readiness ServiceStartSafety ReadinessSafety PollingSafety SoakReport SoakSafety CalibrateSafety SmokeReport SmokeSafety SourceVerification DeploymentCheck.

Open Scope Z_scope.

Lemma all_of_true conditions : all_of conditions = Ok true ↔ Forall (λ c, c = Ok true) conditions.
Proof.
  induction conditions as [|c l IH]; cbn; [split; [constructor|done]|]. rewrite Forall_cons, <-IH.
  destruct c as [[]|]; cbn; naive_solver.
Qed.
Lemma any_of_false conditions : Forall (λ c, c = Ok false) conditions → any_of conditions = Ok false.
Proof. induction 1 as [|c l -> _ IH]; [done|exact IH]. Qed.
Lemma strict_eq_text t : strict_eq (VStr t) (VStr t) = true.
Proof. cbn. by rewrite bool_decide_true. Qed.
Lemma lower_is_true a v : lower_is a v = Ok true ↔ ∃ t, v = Ok (VStr t) ∧ lower a = lower t.
Proof.
  unfold lower_is. split.
  - intros (x & -> & Hr)%bind_Ok. apply bind_Ok in Hr as (l & Hl & [= Hb%bool_decide_eq_true]).
    destruct x; try done. injection Hl as <-. eauto.
  - intros (t & -> & E). cbn. by rewrite bool_decide_true.
Qed.
Lemma optional_lower_is_true a v : optional_lower_is a v = Ok true → ∃ t, v = Ok (VStr t) ∧ lower a = lower t.
Proof.
  unfold optional_lower_is. destruct v as [x|]; [|done]. cbn. intros E. apply lower_is_true. by destruct x.
Qed.
Lemma mapM_checks_Ok (checks : list (string * result bool)) (named : list (string * bool)) :
  mapM (λ c : string * result bool, b ← c.2; Ok (c.1, b)) checks = Ok named → forallb snd named = true →
  Forall (λ c : string * result bool, c.2 = Ok true) checks.
Proof.
  intros Hm%mapM_Ok Hall%forallb_Forall. revert Hall. induction Hm as [|c d checks named Hc _ IH]; [constructor|].
  intros [Hd Hall]%Forall_cons. constructor; [|by apply IH]. apply bind_Ok in Hc as (b & -> & [= <-]). by cbn in Hd; subst.
Qed.

(** ** Sources *)

Section sources.
Context `{UrlApi, ExplorerApi}.

(** The explorer confirms the source of a contract, at a URL that is bound to it. *)
Definition confirmed (o : source_options) (configured : value) (name : string) (deployed : value) : Prop :=
  ∃ raw parsed address i answer payload version,
    (prop_opt configured name = raw ∨ prop_opt (prop_opt configured name) "url" = raw) ∧
    parse_url (to_str raw) = Some parsed ∧ url_protocol parsed = "https:" ∧
    (∀ hosts, allowedHosts o = Some hosts → url_hostname parsed ∈ hosts) ∧
    prop_opt deployed "address" = VStr address ∧ addressBoundUrl (url_href parsed) address = true ∧
    explorer_get i (url_href parsed) = Ok answer ∧ xa_ok answer = true ∧ JSON_parse (xa_body answer) = Ok payload ∧
    sn_verified (parseEvidence payload) = true ∧ sn_compilerVersion (parseEvidence payload) = VStr version ∧
    contains_any [expectedCompiler o] version = true.

Lemma sourceEntry_verified o configured name deployed n entry n' :
  sourceEntry o configured (name, deployed) n = (Ok entry, n') → entry_verified entry = true →
  confirmed o configured name deployed.
Proof.
  unfold sourceEntry. cbn [fst snd]. intros (v & Hv & Hr)%eff_lift_bind_Ok Hver.
  set (raw := match v with VStr _ => v | _ => prop_opt v "url" end) in *.
  assert (prop_opt configured name = v) as Hprop by (unfold prop in Hv; destruct configured; congruence).
  destruct (truthy raw); [|injection Hr as <- _; done].
  apply eff_catch_Ok in Hr as [Hr|(err & n1 & _ & [= <- _])]; [|done]. unfold verifySource in Hr.
  apply eff_lift_bind_Ok in Hr as (u & Hu%from_option_or_Ok & Hr). apply eff_require_bind_Ok in Hr as [Hs Hr].
  apply eff_require_bind_Ok in Hr as [Hh Hr]. apply eff_lift_bind_Ok in Hr as (a & Ha & Hr).
  apply eff_require_bind_Ok in Hr as [Hb Hr]. apply call_bind_Ok in Hr as (answer & Hg & Hr).
  apply eff_require_bind_Ok in Hr as [Hok Hr]. apply eff_require_bind_Ok in Hr as [_ Hr].
  apply eff_lift_bind_Ok in Hr as (payload & Hp & [= <- _]). cbn [entry_verified] in Hver.
  apply andb_true_iff in Hver as [Hver Hc]. destruct (sn_compilerVersion _) as [| | | | | |version| |] eqn:Ev; try done.
  apply bind_Ok in Ha as (x & Hx & Ha%from_option_or_Ok). apply bool_decide_eq_true in Hs.
  exists raw, u, a, n, answer, payload, version. split_and!; try done.
  - rewrite Hprop. unfold raw. destruct v; eauto.
  - intros hosts E. rewrite E in Hh. by apply bool_decide_eq_true in Hh.
  - assert (x = prop_opt deployed "address") as -> by (unfold prop in Hx; destruct deployed; congruence).
    unfold as_string in Ha. destruct (prop_opt deployed "address"); congruence.
Qed.

Lemma set_entry_keys {A} name (x : A) entries k : k ∈ (set_entry name x entries).*1 → k = name ∨ k ∈ entries.*1.
Proof.
  unfold set_entry. case_bool_decide; [by right|]. induction entries as [|[k' y] entries IH]; cbn; [set_solver|].
  destruct (decide (name = k')) as [->|]; cbn; set_solver.
Qed.
Lemma length_set_entry {A} name (x : A) entries : (length (set_entry name x entries) <= S (length entries))%nat.
Proof.
  unfold set_entry. case_bool_decide; [lia|]. induction entries as [|[k' y] entries IH]; cbn; [lia|].
  destruct (decide (name = k')); cbn; lia.
Qed.
Lemma set_entry_new {A} name (x : A) entries :
  length (set_entry name x entries) = S (length entries) → set_entry name x entries = entries ++ [(name, x)].
Proof.
  unfold set_entry. case_bool_decide; [lia|]. induction entries as [|[k' y] entries IH]; cbn; [done|].
  destruct (decide (name = k')); cbn; [lia|]. intros [= E]. by rewrite IH.
Qed.
(** As many entries as were set: each one is there as it was set. *)
Lemma set_entries_all {A} (l : list (string * A)) entries :
  length (foldl (λ es e, set_entry e.1 e.2 es) entries l) = (length entries + length l)%nat →
  foldl (λ es e, set_entry e.1 e.2 es) entries l = entries ++ l.
Proof.
  assert (∀ l entries, (length (foldl (λ es (e : string * A), set_entry e.1 e.2 es) entries l) <= length entries + length l)%nat) as Hle.
  { intros k. induction k as [|e k IH]; intros es; cbn; [lia|]. etrans; [apply IH|]. pose proof (length_set_entry e.1 e.2 es). lia. }
  revert entries. induction l as [|[k x] l IH]; intros entries; cbn; [by rewrite app_nil_r|]. intros E.
  pose proof (Hle l (set_entry k x entries)). pose proof (length_set_entry k x entries).
  assert (length (set_entry k x entries) = S (length entries)) as Es by lia.
  rewrite IH by lia. rewrite (set_entry_new k x entries Es), <-app_assoc. done.
Qed.

Lemma set_entry_same {A B} name (x : A) (y : B) es fs :
  es.*1 = fs.*1 → (set_entry name x es).*1 = (set_entry name y fs).*1.
Proof.
  unfold set_entry. case_bool_decide; [done|]. revert fs. induction es as [|[k v] es IH]; intros [|[j w] fs]; try done.
  cbn. intros [= -> E]. destruct (decide (name = j)); cbn; [by rewrite E|]. f_equal. by apply IH.
Qed.
Lemma set_entries_same {A B} (l : list (string * A)) (k : list (string * B)) es fs :
  es.*1 = fs.*1 → l.*1 = k.*1 →
  (foldl (λ es e, set_entry e.1 e.2 es) es l).*1 = (foldl (λ es e, set_entry e.1 e.2 es) fs k).*1.
Proof.
  revert k es fs. induction l as [|[n x] l IH]; intros [|[m y] k] es fs; try done. cbn. intros Ee [= -> El].
  apply IH; [by apply set_entry_same|done].
Qed.
(** Names under which as many entries were set as there are keep any entries. *)
Lemma named_entries_all {A B} (names : list string) (xs : list A) (ys : list B) :
  length xs = length names → length ys = length names →
  length (foldl (λ es e, set_entry e.1 e.2 es) [] (zip names xs)) = length names →
  foldl (λ es e, set_entry e.1 e.2 es) [] (zip names ys) = zip names ys.
Proof.
  intros Hx Hy Hl. apply (set_entries_all (zip names ys) []). rewrite length_zip_with_l_eq by done. cbn.
  rewrite <-Hl, <-(length_fmap fst), <-(length_fmap fst (foldl _ [] (zip names xs))). f_equal.
  apply set_entries_same; [done|]. by rewrite !fst_zip by lia.
Qed.

Lemma mapM_length_Ok {A B} (f : A → eff nat B) l n ys n' : mapM f l n = (Ok ys, n') → length ys = length l.
Proof. intros Hm%(mapM_eff_Ok _ (λ _ _, True)); [|done]. symmetry. by eapply Forall2_length. Qed.

(** Passing sources: every contract has one that the explorer confirms. *)
Lemma verifySources_pass path contracts readJson o n r n' :
  verifySources path contracts readJson o n = (Ok r, n') → sn_pass r = true →
  (∃ file configured, path = Some file ∧ readJson file = Ok configured ∧
    ∀ name deployed, (name, deployed) ∈ contracts → confirmed o configured name deployed) ∧
  ∀ B (ys : list B), length ys = length contracts →
    foldl (λ es e, set_entry e.1 e.2 es) [] (zip contracts.*1 ys) = zip contracts.*1 ys.
Proof.
  unfold verifySources. destruct (nonempty path) as [file|] eqn:Ep; [|intros [= <- _]; done].
  intros (configured & Hc & Hr)%eff_lift_bind_Ok. apply eff_bind_Ok in Hr as (checked & n1 & Hm & [= <- _]).
  cbn [sn_pass]. rewrite andb_true_iff, Nat.eqb_eq. intros [Hl Hall]. pose proof (mapM_length_Ok _ _ _ _ _ Hm) as Hlen.
  assert (∀ B (ys : list B), length ys = length contracts →
    foldl (λ es e, set_entry e.1 e.2 es) [] (zip contracts.*1 ys) = zip contracts.*1 ys) as Hkeep.
  { intros B ys Hy. apply (named_entries_all contracts.*1 checked ys); rewrite ?length_fmap; done. }
  split; [|exact Hkeep]. rewrite Hkeep in Hall by done. exists file, configured.
  split; [unfold nonempty in Ep; repeat case_match; congruence|]. split; [done|]. intros name deployed Hin.
  apply (mapM_eff_Ok _ (λ c e, entry_verified e = true → confirmed o configured c.1 c.2)) in Hm.
  2: { intros [k d] m e m' _ He Hv. by eapply sourceEntry_verified. }
  apply list_elem_of_lookup in Hin as [i Hi]. destruct (Forall2_lookup_l _ _ _ _ _ Hm Hi) as (e & He & Hconf).
  apply Hconf. rewrite forallb_forall in Hall. apply (Hall (name, e)), list_elem_of_In, list_elem_of_lookup. exists i.
  apply lookup_zip_Some. split; [|done]. by rewrite list_lookup_fmap, Hi.
Qed.
End sources.

(** ** A verified deployment *)

Section deployment.
Context `{Ethers, UrlApi, ExplorerApi, ReadinessApi, DeploymentApi}.

(** The endpoint gives code for a contract with the hash of the manifest. *)
Definition deployed_as (url : string) (deployed : value) : Prop :=
  ∃ i address code, checked_address (prop deployed "address") = Ok address ∧ rd_code i url address = Ok code ∧
    code ≠ [] ∧ prop_opt deployed "runtimeCodeHash" = VStr (keccak256 code).

Lemma codeCheck_matches url contract n c n' :
  codeCheck url contract n = (Ok c, n') → cc_matchesManifest c = true → deployed_as url contract.2.
Proof.
  unfold codeCheck. intros (address & Ha & Hr)%eff_lift_bind_Ok. apply call_bind_Ok in Hr as (code & Hc & [= <- _]).
  cbn [cc_matchesManifest]. rewrite andb_true_iff. intros [Hcode Hhash]. exists n, address, code. split_and!; [done..| |].
  - intros ->. done.
  - destruct (prop_opt contract.2 "runtimeCodeHash"); try done. by apply bool_decide_eq_true in Hhash as ->.
Qed.

Lemma readDeployment_Ok files path manifest url n s n' :
  readDeployment files path manifest url n = (Ok s, n') → sn_pass (ds_sources s) = true →
  forallb (λ c, cc_matchesManifest c.2) (ds_codeChecks s) = true →
  ∃ contracts file configured, (prop manifest "contracts" ≫= object_entries) = Ok contracts ∧
    path = Some file ∧ read_json files file = Ok configured ∧
    (∀ name deployed, (name, deployed) ∈ contracts →
      deployed_as url deployed ∧ confirmed (explorer_options manifest) configured name deployed) ∧
    ∃ i j k owner, rd_code i url owner = Ok (ds_ownerCode s) ∧ ds_owner s = owner ∧
      rd_number j url owner "delay" = Ok (ds_timelockDelay s) ∧ rd_text k url owner "owner" = Ok (ds_governanceSafe s).
Proof.
  unfold readDeployment. intros (contracts & Hcontracts & Hr)%eff_lift_bind_Ok.
  apply eff_bind_Ok in Hr as (codeChecks & n1 & Hchecks & Hr). apply eff_lift_bind_Ok in Hr as (? & _ & Hr).
  apply call_bind_Ok in Hr as (owner & _ & Hr). do 11 apply call_bind_Ok in Hr as (? & _ & Hr).
  apply call_bind_Ok in Hr as (safe & Hsafe & Hr). apply call_bind_Ok in Hr as (delay & Hdelay & Hr).
  apply call_bind_Ok in Hr as (? & _ & Hr). apply eff_bind_Ok in Hr as (sources & n2 & Hsources & Hr).
  apply call_bind_Ok in Hr as (ownerCode & Hcode & Hr). do 3 apply call_bind_Ok in Hr as (? & _ & Hr).
  injection Hr as <- <-. cbn [ds_sources ds_codeChecks ds_ownerCode ds_owner ds_timelockDelay ds_governanceSafe].
  intros Hpass Hmatch. apply (verifySources_pass _ _ _ _ _ _ _ Hsources) in Hpass as [(file & configured & Hpath & Hfile & Hconf) Hkeep].
  exists contracts, file, configured. split; [done|]. split; [done|]. split; [done|]. split; [|eauto 10].
  intros name deployed Hin. split; [|by apply Hconf]. rewrite Hkeep in Hmatch by (by eapply mapM_length_Ok).
  apply (mapM_eff_Ok _ (λ c k, cc_matchesManifest k = true → deployed_as url c.2)) in Hchecks;
    [|intros; by eapply codeCheck_matches].
  apply list_elem_of_lookup in Hin as [i Hi]. destruct (Forall2_lookup_l _ _ _ _ _ Hchecks Hi) as (c & Hc & Hd).
  apply Hd. rewrite forallb_forall in Hmatch. apply (Hmatch (name, c)), list_elem_of_In, list_elem_of_lookup. exists i.
  apply lookup_zip_Some. split; [|done]. by rewrite list_lookup_fmap, Hi.
Qed.

(** What the checks say of the state. *)
Record settled_roles (manifest : value) (s : deployment_state) : Prop := {
  sr_ownership : ds_pendingOwner s = ZERO_OWNER ∧
    ∃ t, prop manifest "configuredOwner" = Ok (VStr t) ∧ lower (ds_owner s) = lower t;
  sr_timelock : ds_ownerCode s ≠ [] ∧ Z.max 43200 (ds_minimumTimelockDelay s) <= ds_timelockDelay s;
  sr_key : k_exists (dk_config (ds_key s)) = true ∧ k_active (dk_config (ds_key s)) = true ∧
    k_proofDataLength (dk_config (ds_key s)) = 416;
  sr_prices k : k ∈ PRICING_FIELDS →
    prop_opt (prop_opt manifest "pricing") k = VStr (print_int (ds_pricing s k));
  sr_separated : NoDup (lower <$> [ds_owner s; ds_guardian s; k_fulfiller (dk_config (ds_key s)); k_payee (dk_config (ds_key s))])
}.

Lemma strict_text t v : strict_eq (VStr t) v = true → v = VStr t.
Proof. destruct v; try done. cbn. by intros ->%bool_decide_eq_true. Qed.
Lemma strict_text_r t v : strict_eq v (VStr t) = true → v = VStr t.
Proof. destruct v; try done. cbn. by intros ->%bool_decide_eq_true. Qed.
Lemma Ok_true b : Ok b = Ok true → b = true.
Proof. by intros [= ->]. Qed.
Lemma code_is_there code : has_code code = true → code ≠ [].
Proof. by intros Hc ->. Qed.

Lemma deploymentChecks_pass manifest s :
  Forall (λ c : string * result bool, c.2 = Ok true) (deploymentChecks manifest s) →
  settled_roles manifest s ∧ sn_pass (ds_sources s) = true ∧
  forallb (λ c, cc_matchesManifest c.2) (ds_codeChecks s) = true.
Proof.
  unfold deploymentChecks. cbv zeta. rewrite !Forall_cons. cbn [snd].
  intros (Hcode & Hown & Htime & _ & _ & _ & _ & _ & _ & _ & Hactive & _ & _ & _ & _ & Hlen & Hprice & Hroles & _ & Hsrc & _).
  rewrite all_of_true in Hown, Htime, Hprice. rewrite !Forall_cons in Hown. rewrite !Forall_cons in Htime.
  destruct Hown as ([t [Ho Et]]%lower_is_true & [= Hpend%bool_decide_eq_true] & _).
  destruct Htime as (Hoc & Hmin & Hfloor & _). apply Ok_true in Hoc, Hmin, Hfloor, Hactive, Hlen, Hroles, Hcode, Hsrc.
  apply code_is_there in Hoc. apply Z.leb_le in Hmin, Hfloor.
  apply andb_true_iff in Hactive as [Hex Hac], Hlen as [Hl%Z.eqb_eq _]. apply all_distinct_spec in Hroles.
  split; [|by split]. split; [by eauto|split; [done|lia]|done| |done].
  intros k Hk. rewrite Forall_fmap, Forall_forall in Hprice. specialize (Hprice k Hk). cbn in Hprice.
  injection Hprice as Hprice. by apply strict_text.
Qed.

End deployment.

(** ** The reports together *)

Section reports.
Context `{Ethers, UrlApi, ExplorerApi, ReadinessApi, DeploymentApi, SoakApi, SettlementArguments, SmokeApi}.

(** What a verification says of its manifest. *)
Lemma verifyDeployment_fields files o n v n' path manifest z :
  verifyDeployment files o n = (Ok v, n') → prop_opt o "manifest" = VStr path → read_json files path = Ok manifest →
  prop_opt manifest "chainId" = VNum z →
  prop manifest "format" = Ok (VStr "robinhood-proof-vrf-deployment/v1") ∧ vr_chainId v = z ∧
  contract_field manifest "coordinator" "address" = Ok (vr_coordinator v) ∧ vr_gitCommit v = prop_opt manifest "gitCommit".
Proof.
  unfold verifyDeployment. intros Hv Hpath Hread Hchain. rewrite Hpath in Hv. cbn [as_string from_option_or mbind result_bind] in Hv.
  rewrite Hread in Hv. apply eff_lift_bind_Ok in Hv as (man & [= <-] & Hv).
  apply eff_lift_bind_Ok in Hv as (format & Hformat & Hv). apply eff_require_bind_Ok in Hv as [Hf%strict_text_r Hv].
  apply call_bind_Ok in Hv as (c & _ & Hv). apply eff_lift_bind_Ok in Hv as (c' & Hc & Hv).
  rewrite Hchain in Hc. injection Hc as <-. apply eff_require_bind_Ok in Hv as [->%Z.eqb_eq Hv].
  apply eff_bind_Ok in Hv as (s & ? & _ & Hv). apply eff_lift_bind_Ok in Hv as (checks & _ & Hv).
  apply eff_lift_bind_Ok in Hv as (a & Ha & [= <- _]). cbn [vr_chainId vr_coordinator vr_gitCommit]. subst format. done.
Qed.
(** What a smoke test says of its manifest. *)
Lemma smokeReport_fields e files o n s n' path manifest :
  smokeReport e files o n = (Ok s, n') → prop_opt o "manifest" = VStr path → read_json files path = Ok manifest →
  sy_chainId s = to_str (prop_opt manifest "chainId") ∧ sy_gitCommit s = prop_opt manifest "gitCommit" ∧
  checked_address (contract_field manifest "coordinator" "address") = Ok (sy_coordinator s).
Proof.
  unfold smokeReport. intros Hr Hpath Hread. rewrite Hpath in Hr. cbn [as_string from_option_or mbind result_bind] in Hr.
  rewrite Hread in Hr. apply eff_require_bind_Ok in Hr as [_ Hr]. apply eff_lift_bind_Ok in Hr as (? & _ & Hr).
  apply eff_lift_bind_Ok in Hr as (? & _ & Hr). apply eff_lift_bind_Ok in Hr as (man & [= <-] & Hr).
  do 2 apply eff_lift_bind_Ok in Hr as (? & _ & Hr). apply eff_require_bind_Ok in Hr as [_ Hr].
  apply eff_lift_bind_Ok in Hr as (coordinator & Hc & Hr). do 2 apply eff_lift_bind_Ok in Hr as (? & _ & Hr).
  apply eff_bind_Ok in Hr as (? & ? & _ & Hr). apply eff_require_bind_Ok in Hr as [_ Hr].
  apply eff_lift_bind_Ok in Hr as (? & _ & Hr). apply eff_require_bind_Ok in Hr as [_ Hr].
  apply eff_bind_Ok in Hr as (? & ? & _ & Hr). apply eff_lift_bind_Ok in Hr as (? & _ & Hr).
  do 2 apply eff_require_bind_Ok in Hr as [_ Hr]. apply eff_bind_Ok in Hr as (? & ? & _ & Hr).
  do 5 apply eff_lift_bind_Ok in Hr as (? & _ & Hr). injection Hr as <- _. done.
Qed.

(** The reports of a passing verification and a passing smoke test of one manifest,
    written and read again, are reports that the soak test takes as belonging to the
    manifest and to the coordinator. *)
Theorem reports_belong_together files options n v n' e options' m s m' path manifest z commit address coordinator :
  verifyDeployment files options n = (Ok v, n') → vr_pass v = true →
  smokeReport e files options' m = (Ok s, m') → sy_pass s = true →
  prop_opt options "manifest" = VStr path → prop_opt options' "manifest" = VStr path →
  read_json files path = Ok manifest → prop_opt manifest "chainId" = VNum z → prop_opt manifest "gitCommit" = VStr commit →
  contract_field manifest "coordinator" "address" = Ok (VStr address) →
  getAddress address = Some coordinator → lower coordinator = lower address →
  reportsDiffer manifest (reread (verification_value v)) (reread (smoke_value s)) coordinator = Ok false ∧
  sy_coordinator s = coordinator.
Proof.
  intros Hv Hvp Hs Hsp Hpath Hpath' Hread Hchain Hcommit Haddress Hget Hlower.
  destruct (verifyDeployment_fields _ _ _ _ _ _ _ _ Hv Hpath Hread Hchain) as (Hf & Hz & Hc & Hg).
  destruct (smokeReport_fields _ _ _ _ _ _ _ _ Hs Hpath' Hread) as (Hz' & Hg' & Hc').
  assert (sy_coordinator s = coordinator) as Ec.
  { unfold checked_address in Hc'. rewrite Haddress in Hc'. cbn in Hc'. rewrite Hget in Hc'. by injection Hc'. }
  split; [|done]. assert (vr_coordinator v = VStr address) as Ev by congruence. rewrite Hcommit in Hg, Hg'.
  assert (∀ k, prop manifest k = Ok (prop_opt manifest k)) as Hp by (destruct manifest; done).
  assert (prop_opt manifest "format" = VStr "robinhood-proof-vrf-deployment/v1") as Hf' by (rewrite Hp in Hf; congruence).
  assert ((c ← prop manifest "contracts"; c ← prop c "coordinator"; prop c "address") = Ok (VStr address)) as Ha by exact Haddress.
  unfold verification_value, smoke_value. rewrite Hvp, Hsp, Hz, Hz', Hg, Hg', Ev, Ec, Hchain. cbn [to_str].
  cbv beta iota. set (V := reread (VObj (_ :: ("chainId", _) :: ("coordinator", VStr address) :: _))). set (S := reread (VObj _)).
  assert (prop V "format" = Ok (VStr "robinhood-proof-vrf-deployment-verification/v1") ∧ prop V "status" = Ok (VStr "pass")
    ∧ prop V "chainId" = Ok (VStr (print_int z)) ∧ prop V "gitCommit" = Ok (VStr commit)
    ∧ prop V "coordinator" = Ok (VStr address)) as (V1 & V2 & V3 & V4 & V5) by done.
  assert (prop S "format" = Ok (VStr "robinhood-proof-vrf-smoke-report/v1") ∧ prop S "status" = Ok (VStr "pass")
    ∧ prop S "chainId" = Ok (VStr (print_int z)) ∧ prop S "gitCommit" = Ok (VStr commit)
    ∧ prop S "coordinator" = Ok (VStr coordinator)) as (S1 & S2 & S3 & S4 & S5) by done.
  clearbody V S. unfold reportsDiffer. cbv zeta. rewrite V1, V2, V3, V4, V5, S1, S2, S3, S4, S5, Ha. rewrite !Hp, Hf', Hchain, Hcommit.
  apply any_of_false. repeat (apply Forall_cons; split); [..|apply Forall_nil_2];
    cbn [mbind result_bind to_str to_lower]; unfold differs, lower_differs; cbn [mbind result_bind to_lower];
    rewrite ?strict_eq_text, ?(bool_decide_true (lower _ = _)), ?bool_decide_true by done; done.
Qed.
End reports.

(** ** A deployment, verified and tested *)
Section examples.
#[local] Existing Instances sample_ethers smoke_chain smoke_api smoke_arguments.

Definition explorer_host : string := "explorer.testnet.chain.robinhood.com".
#[local] Instance explorer_url : UrlApi := {|
  parse_url s := if starts_with "https://explorer" s
    then Some {| url_protocol := "https:"; url_hostname := explorer_host; url_username := ""; url_password := "";
                 url_hash := ""; url_href := s; url_origin := "https://" +:+ explorer_host |}
    else sample_parse_url s |}.
#[local] Instance toy_explorer : ExplorerApi := {|
  explorer_get _ _ := Ok {| xa_ok := true; xa_status := 200; xa_body := json_text (VObj
    [("is_fully_verified", VBool true); ("source_code", VStr "contract C {}"); ("compiler_version", VStr "v0.8.24+commit");
     ("name", VStr "C")]) |};
  query_address _ := Some soak_coordinator; url_pathname _ := "/api" |}.
#[local] Instance toy_deployed : ReadinessApi := {|
  rd_chainId _ _ := Ok 46630; rd_blockNumber _ _ := Ok 900; rd_code _ _ _ := Ok (chars "code"); rd_balance _ _ _ := Ok 7;
  rd_text _ _ contract f := Ok (
    if bool_decide (f = "owner") then (if bool_decide (contract = "0xT1") then "0x5AFE" else "0xT1")
    else if bool_decide (f = "pendingOwner") then ZERO_OWNER else if bool_decide (f = "guardian") then "0xG1"
    else if bool_decide (f ∈ ["blockContextCodeHash"; "l1FeeCalculatorCodeHash"]) then keccak256 (chars "code")
    else soak_coordinator);
  rd_number _ _ _ f := Ok (if bool_decide (f = "contextBlockNumber") then 905 else if bool_decide (f = "delay") then 86400 else 43200);
  rd_key _ _ _ _ := Throw "unused"; rd_serverVersion _ _ := Ok VUndef; wallet_address _ := Ok "0xAE";
  parseEther v := Ok 5; formatEther := print_int; search_param _ _ := VStr "require" |}.
#[local] Instance toy_deployment : DeploymentApi := {|
  dp_key _ _ _ _ := Ok {| dk_maxGasPriceWei := 9; dk_verificationGasLimit := 10; dk_config :=
    {| k_verifier := soak_coordinator; k_verifierCodeHash := keccak256 (chars "code"); k_fulfiller := "0xF1"; k_payee := "0xE1";
       k_proofDataLength := 416; k_exists := true; k_active := true |} |};
  dp_pricing _ _ _ := Ok (λ k, str_length k) |}.

Definition toy_contract : value :=
  VObj [("address", VStr soak_coordinator); ("blockNumber", VNum 900); ("runtimeCodeHash", VStr (keccak256 (chars "code")))].
Definition toy_contracts : list string := ["coordinator"; "blockhashStore"; "blockContext"; "l1FeeCalculator"; "verifier"].
Definition toy_manifest : value := VObj [
  ("format", VStr "robinhood-proof-vrf-deployment/v1"); ("chainId", VNum 46630); ("gitCommit", VStr "c0ffee");
  ("keyHash", VStr smoke_key); ("contracts", VObj ((λ k, (k, toy_contract)) <$> toy_contracts));
  ("configuredOwner", VStr "0xt1"); ("configuredOwnerRuntimeCodeHash", VStr (keccak256 (chars "code")));
  ("timelockDelaySeconds", VNum 86400); ("governanceSafe", VStr "0x5afe"); ("guardian", VStr "0xg1");
  ("fulfiller", VStr "0xf1"); ("payee", VStr "0xe1");
  ("keyConfig", VObj [("maxGasPriceWei", VStr "9"); ("verificationGasLimit", VStr "10"); ("proofDataLength", VNum 416)]);
  ("pricing", VObj ((λ k, (k, VStr (print_int (str_length k)))) <$> PRICING_FIELDS))].
Definition deployment_files : file_system := {|
  read_json path := Ok (
    if bool_decide (path = "manifest.json") then toy_manifest
    else if bool_decide (path = "sources.json")
    then VObj ((λ k, (k, VStr ("https://" +:+ explorer_host +:+ "/api"))) <$> toy_contracts) else smoke_json path);
  read_bytes _ := Throw "ENOENT" |}.
Definition deployment_options : value := VObj [
  ("rpc-url", VStr "https://a"); ("manifest", VStr "manifest.json"); ("source-verification-file", VStr "sources.json")].
#[local] Notation "'deployment_run'" := (verifyDeployment deployment_files deployment_options 0%nat).
#[local] Notation "'tested_run'" := (smokeReport smoke_environment deployment_files smoke_options 0%nat).


Lemma reports_belong_together_witness :
  ∃ v s, deployment_run.1 = Ok v ∧ tested_run.1 = Ok s ∧
    reportsDiffer toy_manifest (reread (verification_value v)) (reread (smoke_value s)) soak_coordinator = Ok false.
Proof.
  assert ((vr_pass <$> deployment_run.1) = Ok true) as Hv by vm_refl.
  assert ((sy_pass <$> tested_run.1) = Ok true) as Hs by vm_refl.
  destruct deployment_run as [[v|m] n'] eqn:Ev; [|discriminate Hv]. injection Hv as Hv.
  destruct tested_run as [[s|m] m'] eqn:Es; [|discriminate Hs]. injection Hs as Hs.
  exists v, s. split; [reflexivity|]. split; [reflexivity|].
  refine (proj1 (reports_belong_together _ _ _ _ _ _ _ _ _ _ "manifest.json" toy_manifest 46630 "c0ffee" soak_coordinator
    soak_coordinator Ev Hv Es Hs _ _ _ _ _ _ _ _)); vm_refl.
Defined.
End examples.
