(* ===== verification/ThresholdCheck.v ===== *)
(** * The checks of the threshold verifier ([verify-threshold-deployment.mjs],
    [precompile-probe.mjs])

    The contracts that verify threshold signatures, as an endpoint gives them, tried on
    a signature of a known secret, and the precompiled contracts they need, tried on
    fixed inputs.  The endpoint and the curve are parameters. *)

From S2P Require Import Prelude Js Hex CanonicalJson Vendor ThresholdCrypto Policies ErrorText CommandLine Archiver Readiness SoakReport SourceVerification DeploymentCheck.

Open Scope Z_scope.

(** The two contracts, by their addresses. *)
Class VerifierApi := {
  vb_keyHash : nat → string → string → string → result string;             (* adapter.keyHash *)
  vb_backend : nat → string → string → result string;                      (* adapter.backend *)
  vb_backendCodeHash : nat → string → string → result string;
  vb_proofLength : nat → string → string → result Z;
  vb_validatePublicKey : nat → string → string → string → result bool;     (* backend *)
  vb_verify : nat → string → string → string → bytes → string → result bool;
  vb_validateKey : nat → string → string → string → string → result bool   (* adapter *)
}.

(** ** The known signature *)

Record test_vector := { tv_message : bytes; tv_groupPublicKey : string; tv_signature : string }.

Section vector.
Context `{Ethers, NobleBls}.

Definition testVector : result test_vector :=
  let secret := 42 in
  let message := replicate 32 (char_of 165) in
  groupPublicKey ← c_multiply secret base2;
  point ← hashToCurve message BLS_DST;
  signature ← c_multiply secret point;
  Ok {| tv_message := message; tv_groupPublicKey := hexlify (c_encode groupPublicKey);
        tv_signature := hexlify (c_encode signature) |}.
End vector.

(** ** The verification *)

Record verifier_report := {
  vv_chainId : Z; vv_backend : string; vv_adapter : string; vv_vector : test_vector;
  vv_checks : list (string * bool); vv_sources : source_report; vv_pass : bool
}.

Section verifier.
Context `{Ethers, NobleBls, UrlApi, ExplorerApi, ReadinessApi, VerifierApi}.

(** [code !== ''0x'' && keccak256(code).toLowerCase() === hash.toLowerCase()] *)
Definition code_is (code : bytes) (hash : result value) : result bool :=
  all_of [Ok (has_code code); lower_is (keccak256 code) hash].

Definition verifyThresholdDeployment (files : file_system) (o : value) : eff nat verifier_report :=
  manifest ← eff_lift (path ← from_option_or TYPE_ERROR (as_string (prop_opt o "manifest")); read_json files path);
  format ← eff_lift (prop manifest "format");
  _ ← eff_require (strict_eq format (VStr "robinhood-proof-vrf-threshold-verifier-deployment/v1"))
        "unsupported threshold verifier deployment manifest";
  let url := to_str (prop_opt o "rpc-url") in
  chainId ← call (λ n, rd_chainId n url);
  expected ← eff_lift (to_bigint (prop_opt manifest "chainId"));
  _ ← eff_require (chainId =? expected) "manifest chainId mismatch";
  backend ← eff_lift (checked_address (contract_field manifest "backend" "address"));
  adapter ← eff_lift (checked_address (contract_field manifest "adapter" "address"));
  backendCode ← call (λ n, rd_code n url backend);
  adapterCode ← call (λ n, rd_code n url adapter);
  v ← eff_lift testVector;
  expectedKeyHash ← call (λ n, vb_keyHash n url adapter (tv_groupPublicKey v));
  pinnedBackend ← call (λ n, vb_backend n url adapter);
  pinnedBackendCodeHash ← call (λ n, vb_backendCodeHash n url adapter);
  proofLength ← call (λ n, vb_proofLength n url adapter);
  publicKeyValid ← call (λ n, vb_validatePublicKey n url backend (tv_groupPublicKey v));
  signatureValid ← call (λ n, vb_verify n url backend (tv_groupPublicKey v) (tv_message v) (tv_signature v));
  adapterKeyValid ← call (λ n, vb_validateKey n url adapter expectedKeyHash (tv_groupPublicKey v));
  contracts ← eff_lift (c ← prop manifest "contracts"; object_entries c);
  sources ← verifySources (as_string (prop_opt o "source-verification-file")) contracts (read_json files)
              (explorer_options manifest);
  backendMatches ← eff_lift (code_is backendCode (contract_field manifest "backend" "runtimeCodeHash"));
  adapterMatches ← eff_lift (code_is adapterCode (contract_field manifest "adapter" "runtimeCodeHash"));
  let checks := [
    ("runtimeCodeHashes", backendMatches && adapterMatches);
    ("backendBinding", bool_decide (lower pinnedBackend = lower backend)
       && bool_decide (lower pinnedBackendCodeHash = lower (keccak256 backendCode)));
    ("proofDataLength", (proofLength =? 416)
       && bool_decide (to_number (prop_opt manifest "proofDataLength") = Some 416));
    ("publicKeyValidation", publicKeyValid); ("rfc9380HashToCurveAndPairing", signatureValid);
    ("adapterKeyValidation", adapterKeyValid); ("sourceVerified", sn_pass sources)] in
  mret {| vv_chainId := chainId; vv_backend := backend; vv_adapter := adapter; vv_vector := v;
          vv_checks := checks; vv_sources := sources; vv_pass := forallb snd checks |}.
End verifier.

(** ** The precompiled contracts *)

(** Points by their affine coordinates; those of the second group are over the
    quadratic extension. *)
Class AffineApi `{NobleBls} := {
  affine1 : G1 → Z * Z;
  affine2 : G2 → (Z * Z) * (Z * Z);
  negate2 : G2 → G2
}.
(** [provider.call] of an address, and the version of ArbOS. *)
Class ProbeApi := {
  pr_chainId : nat → string → result Z;
  pr_arbOSVersion : nat → string → result Z;
  pr_call : nat → string → string → string → result string
}.

Definition fieldElement (z : Z) : string := pad_start0 128 (print_base 16 z).

Record precompile := { pc_address : string; pc_supported : bool; pc_outputBytes : Z }.
Record probe_report := {
  pp_chainId : Z; pp_arbOSVersionRaw : Z; pp_arbOSVersion : option Z;
  pp_bn254Pairing : precompile; pp_bls12381G1Add : precompile; pp_bls12381Pairing : precompile
}.

Section probe.
Context `{NobleBls, !AffineApi, ProbeApi}.

Definition g1 (P : G1) : string :=
  let affine := affine1 P in fieldElement affine.1 +:+ fieldElement affine.2.
Definition g2 (P : G2) : string :=
  let affine := affine2 P in
  join "" (fieldElement <$> [affine.1.1; affine.1.2; affine.2.1; affine.2.2]).

Definition ADDRESS_PREFIX : string := "0x" +:+ of_chars (replicate 38 "0"%char).
(** [output.length === length && BigInt(output) === expected] *)
Definition precompile_of (suffix output : string) (length expected : Z) : result precompile :=
  supported ← (if str_length output =? length
               then z ← from_option_or "SyntaxError" (string_to_bigint output); Ok (z =? expected)
               else Ok false);
  Ok {| pc_address := ADDRESS_PREFIX +:+ suffix; pc_supported := supported;
        pc_outputBytes := (str_length output - 2) / 2 |}.

(** The signature of a secret, the negated generator, the message and the public key. *)
Definition pairingInput : result string :=
  let pairingMessage := replicate 32 "B"%char in
  messagePoint ← hashToCurve pairingMessage BLS_DST;
  let pairingSecret := 123456789 in
  pairingSignature ← c_multiply pairingSecret messagePoint;
  pairingPublicKey ← c_multiply pairingSecret base2;
  Ok ("0x" +:+ g1 pairingSignature +:+ g2 (negate2 base2) +:+ g1 messagePoint +:+ g2 pairingPublicKey).

Definition probePrecompiles (o : value) : eff nat probe_report :=
  _ ← eff_require (truthy (prop_opt o "rpc-url")) "--rpc-url is required";
  let url := to_str (prop_opt o "rpc-url") in
  let ask suffix data := call (λ n, pr_call n url (ADDRESS_PREFIX +:+ suffix) data) in
  chainId ← call (λ n, pr_chainId n url);
  version ← call (λ n, pr_arbOSVersion n url);
  bn254 ← ask "08" "0x";
  g1Add ← ask "0b" ("0x" +:+ of_chars (replicate 512 "0"%char));
  input ← eff_lift pairingInput;
  pairing ← ask "0f" input;
  bn254 ← eff_lift (precompile_of "08" bn254 66 1);
  g1Add ← eff_lift (precompile_of "0b" g1Add 258 0);
  pairing ← eff_lift (precompile_of "0f" pairing 66 1);
  mret {| pp_chainId := chainId; pp_arbOSVersionRaw := version;
          pp_arbOSVersion := if 55 <=? version then Some (version - 55) else None;
          pp_bn254Pairing := bn254; pp_bls12381G1Add := g1Add; pp_bls12381Pairing := pairing |}.
(** The exit code of the program. *)
Definition probeExitCode (r : probe_report) : Z :=
  if pc_supported (pp_bls12381G1Add r) && pc_supported (pp_bls12381Pairing r) then 0 else 2.
End probe.
