(* ===== verification/ThresholdCheckSafety.v ===== *)
(** * What the checks of the threshold verifier show ([verify-threshold-deployment.mjs],
    [precompile-probe.mjs]) *)

From S2P Require Import Prelude Js Hex CanonicalJson Json JsonText Vendor ThresholdCrypto Policies OperatorStore Samples ErrorText CommandLine Archiver Service Readiness ServiceStartSafety SoakReport SoakSafety SourceVerification DeploymentCheck DeploymentSafety ThresholdCheck.

Open Scope Z_scope.

(** ** The tried signature *)

Section vector.
Context `{Ethers, !EthersLaws, NobleBls, !BlsLaws}.

Lemma c_multiply_in `{Curve G, !CurveLaws G} k (P Q : G) : c_multiply k P = Ok Q → 0 < k < order ∧ Q = smul k P.
Proof.
  intros E. destruct (decide (0 < k < order)) as [Hk|Hk].
  - split; [done|]. rewrite c_multiply_smul in E by done. by injection E.
  - destruct (c_multiply_out k P Hk) as [m Em]. congruence.
Qed.

(** The signature that a backend is tried on is one that the operator's own
    verification accepts under the public key it is tried with. *)
Lemma testVector_signature v :
  testVector = Ok v → (∀ M, hashToCurve (tv_message v) BLS_DST = Ok M → M ≠ c_zero) →
  verifyAggregateSignature (U8 (tv_message v)) (JsVal (VStr (tv_groupPublicKey v))) (JsVal (VStr (tv_signature v))) = true.
Proof.
  unfold testVector. set (message := replicate 32 _). intros (pk & Hpk & Hr)%bind_Ok HM. apply bind_Ok in Hr as (M & Hh & Hr).
  apply bind_Ok in Hr as (sig & Hsig & [= <-]). cbn [tv_message tv_groupPublicKey tv_signature] in *.
  destruct (c_multiply_in 42 base2 pk Hpk) as [Hk ->], (c_multiply_in 42 M sig Hsig) as [_ ->]. apply verifyAggregateSignature_spec.
  apply (pairing_check_secret _ _ _ 42); [apply getBytes_hexlify|]. split; [rewrite Z.mod_small by lia; lia|].
  exists M. split; [by eexists|]. split; [by apply HM|]. apply getBytes_hexlify.
Qed.
End vector.

Section verifier.
Context `{Ethers, !EthersLaws, NobleBls, !BlsLaws, UrlApi, ExplorerApi, ReadinessApi, VerifierApi}.

Lemma code_is_true code hash : code_is code hash = Ok true → code ≠ [] ∧ ∃ t, hash = Ok (VStr t) ∧ lower (keccak256 code) = lower t.
Proof.
  unfold code_is. rewrite all_of_true, !Forall_cons. intros (Hc%Ok_true%code_is_there & Hl%lower_is_true & _). done.
Qed.

(** A threshold verifier whose verification passes has backend and adapter code
    with the manifest's hashes and confirmed sources; the adapter is bound to that
    backend and its code; and the backend accepts a signature that the operator's own
    verification accepts too. *)
Theorem threshold_verifier_sound files o n r n' :
  verifyThresholdDeployment files o n = (Ok r, n') → vv_pass r = true →
  (∀ M, hashToCurve (tv_message (vv_vector r)) BLS_DST = Ok M → M ≠ c_zero) →
  let url := to_str (prop_opt o "rpc-url") in
  ∃ path manifest contracts file configured backendCode adapterCode,
    prop_opt o "manifest" = VStr path ∧ read_json files path = Ok manifest ∧
    (prop manifest "contracts" ≫= object_entries) = Ok contracts ∧ read_json files file = Ok configured ∧
    (∀ name deployed, (name, deployed) ∈ contracts → confirmed (explorer_options manifest) configured name deployed) ∧
    (∃ i j, rd_code i url (vv_backend r) = Ok backendCode ∧ rd_code j url (vv_adapter r) = Ok adapterCode) ∧
    code_is backendCode (contract_field manifest "backend" "runtimeCodeHash") = Ok true ∧
    code_is adapterCode (contract_field manifest "adapter" "runtimeCodeHash") = Ok true ∧
    (∃ i pinned, vb_backend i url (vv_adapter r) = Ok pinned ∧ lower pinned = lower (vv_backend r)) ∧
    (∃ i hash, vb_backendCodeHash i url (vv_adapter r) = Ok hash ∧ lower hash = lower (keccak256 backendCode)) ∧
    let v := vv_vector r in
    (∃ i, vb_verify i url (vv_backend r) (tv_groupPublicKey v) (tv_message v) (tv_signature v) = Ok true) ∧
    verifyAggregateSignature (U8 (tv_message v)) (JsVal (VStr (tv_groupPublicKey v))) (JsVal (VStr (tv_signature v))) = true.
Proof.
  unfold verifyThresholdDeployment. cbv zeta. intros (manifest & Hman & Hr)%eff_lift_bind_Ok Hpass HM.
  apply eff_lift_bind_Ok in Hr as (? & _ & Hr). apply eff_require_bind_Ok in Hr as [_ Hr].
  apply call_bind_Ok in Hr as (? & _ & Hr). apply eff_lift_bind_Ok in Hr as (? & _ & Hr).
  apply eff_require_bind_Ok in Hr as [_ Hr]. apply eff_lift_bind_Ok in Hr as (backend & _ & Hr).
  apply eff_lift_bind_Ok in Hr as (adapter & _ & Hr). apply call_bind_Ok in Hr as (backendCode & Hbc & Hr).
  apply call_bind_Ok in Hr as (adapterCode & Hac & Hr). apply eff_lift_bind_Ok in Hr as (v & Hv & Hr).
  apply call_bind_Ok in Hr as (? & _ & Hr). apply call_bind_Ok in Hr as (pinned & Hpin & Hr).
  apply call_bind_Ok in Hr as (hash & Hhash & Hr). do 2 apply call_bind_Ok in Hr as (? & _ & Hr).
  apply call_bind_Ok in Hr as (valid & Hvalid & Hr). apply call_bind_Ok in Hr as (? & _ & Hr).
  apply eff_lift_bind_Ok in Hr as (contracts & Hcontracts & Hr). apply eff_bind_Ok in Hr as (sources & ? & Hsources & Hr).
  apply eff_lift_bind_Ok in Hr as (b & Hb & Hr). apply eff_lift_bind_Ok in Hr as (a & Ha & [= <- _]).
  cbn [vv_pass vv_backend vv_adapter vv_vector] in *. cbn [forallb snd] in Hpass. rewrite !andb_true_iff, !bool_decide_eq_true in Hpass.
  destruct Hpass as ([-> ->] & [Eb Eh] & _ & _ & -> & _ & Hs & _).
  apply (verifySources_pass _ _ _ _ _ _ _ Hsources) in Hs as [(file & configured & _ & Hfile & Hconf) _].
  apply bind_Ok in Hman as (path & Hpath%from_option_or_Ok & Hread).
  exists path, manifest, contracts, file, configured, backendCode, adapterCode.
  split; [unfold as_string in Hpath; repeat case_match; congruence|]. split_and!; eauto. by apply testVector_signature.
Qed.
End verifier.

(** ** The probe *)

Lemma vector_digits_length fuel base n acc k :
  1 < base → 0 <= n < base ^ Z.of_nat (S k) → (length (digits_go fuel base n acc) <= S k + length acc)%nat.
Proof.
  intros Hb. revert n acc k. induction fuel as [|fuel IH]; intros n acc k Hn; cbn [digits_go]; [lia|].
  destruct (Z.ltb_spec n base) as [_|Hge]; [cbn [length]; lia|]. destruct k as [|k].
  - change (Z.of_nat 1) with 1 in Hn. rewrite Z.pow_1_r in Hn. lia.
  - rewrite Nat2Z.inj_succ, Z.pow_succ_r in Hn by lia. etrans; [apply (IH (n / base) _ k)|cbn [length]; lia].
    split; [apply Z.div_pos; lia|]. apply Z.div_lt_upper_bound; lia.
Qed.
Lemma str_app_length a b : String.length (a +:+ b) = (String.length a + String.length b)%nat.
Proof. by rewrite <-!length_chars, chars_app, length_app. Qed.

(** A coordinate below 2^512 takes 64 bytes. *)
Lemma fieldElement_length z : 0 <= z < 2 ^ 512 → String.length (fieldElement z) = 128%nat.
Proof.
  intros Hz. unfold fieldElement, pad_start0. rewrite length_of_chars, length_app, length_replicate, length_chars.
  assert (String.length (print_base 16 z) <= 128)%nat; [|lia]. unfold print_base. rewrite length_of_chars.
  apply (vector_digits_length _ 16 z [] 127); [lia|]. exact Hz.
Qed.

Section probe.
Context `{NobleBls, !AffineApi, ProbeApi}.

(** The input of the pairing is two pairs of points of 128 and 256 bytes, in hex. *)
Lemma pairingInput_length input :
  (∀ P : G1, 0 <= (affine1 P).1 < 2 ^ 512 ∧ 0 <= (affine1 P).2 < 2 ^ 512) →
  (∀ P : G2, 0 <= (affine2 P).1.1 < 2 ^ 512 ∧ 0 <= (affine2 P).1.2 < 2 ^ 512 ∧
    0 <= (affine2 P).2.1 < 2 ^ 512 ∧ 0 <= (affine2 P).2.2 < 2 ^ 512) →
  pairingInput = Ok input → String.length input = (2 + 2 * (2 * (128 + 256)))%nat.
Proof.
  intros H1' H2'. assert (∀ P, String.length (g1 P) = 256%nat) as Hg1.
  { intros P. unfold g1. rewrite str_app_length, !fieldElement_length by apply H1'. done. }
  assert (∀ P, String.length (g2 P) = 512%nat) as Hg2.
  { intros P. destruct (H2' P) as (? & ? & ? & ?). unfold g2. cbn [fmap list_fmap join].
    rewrite !str_app_length, !fieldElement_length by done. done. }
  unfold pairingInput. intros (? & _ & Hr)%bind_Ok. apply bind_Ok in Hr as (? & _ & Hr).
  apply bind_Ok in Hr as (? & _ & [= <-]). by rewrite !str_app_length, !Hg1, !Hg2.
Qed.
End probe.

(** ** A verified threshold verifier *)
Section examples.
#[local] Existing Instances sample_ethers sample_ethers_laws sample_bls sample_bls_laws explorer_url toy_explorer toy_deployed.

#[local] Instance toy_verifier : VerifierApi := {|
  vb_keyHash _ _ _ _ := Ok "0xkey"; vb_backend _ _ _ := Ok soak_coordinator;
  vb_backendCodeHash _ _ _ := Ok (keccak256 (chars "code")); vb_proofLength _ _ _ := Ok 416;
  vb_validatePublicKey _ _ _ _ := Ok true;
  vb_verify _ _ _ pk message sig := Ok (verifyAggregateSignature (U8 message) (JsVal (VStr pk)) (JsVal (VStr sig)));
  vb_validateKey _ _ _ _ _ := Ok true |}.
Definition verifier_manifest : value := VObj [
  ("format", VStr "robinhood-proof-vrf-threshold-verifier-deployment/v1"); ("chainId", VNum 46630);
  ("proofDataLength", VNum 416); ("contracts", VObj [("backend", toy_contract); ("adapter", toy_contract)])].
Definition verifier_files : file_system := {|
  read_json path := Ok (
    if bool_decide (path = "manifest.json") then verifier_manifest
    else VObj ((λ k, (k, VStr ("https://" +:+ explorer_host +:+ "/api"))) <$> ["backend"; "adapter"]));
  read_bytes _ := Throw "ENOENT" |}.
#[local] Notation "'verifier_run'" := (verifyThresholdDeployment verifier_files deployment_options 0%nat).

Lemma threshold_verifier_sound_witness :
  ∃ r, verifier_run.1 = Ok r ∧ length (vv_checks r) = 7%nat ∧
    verifyAggregateSignature (U8 (tv_message (vv_vector r))) (JsVal (VStr (tv_groupPublicKey (vv_vector r))))
      (JsVal (VStr (tv_signature (vv_vector r)))) = true.
Proof.
  assert (((λ r, (vv_pass r, (length (vv_checks r), tv_message (vv_vector r)))) <$> verifier_run.1)
    = Ok (true, (7%nat, replicate 32 (char_of 165)))) as Hr by vm_refl.
  assert ((bool_decide (hashToCurve (replicate 32 (char_of 165)) BLS_DST = Ok c_zero)) = false) as Hz by vm_refl.
  destruct verifier_run as [[r|m] n'] eqn:E; [|discriminate Hr]. injection Hr as Hp Hl Hm. exists r.
  destruct (threshold_verifier_sound _ _ _ _ _ E Hp) as (_ & _ & _ & _ & _ & _ & _ & _ & _ & _ & _ & _ & _ & _ & _ & _ & _ & _ & Hs).
  - intros M HM ->. rewrite Hm in HM. apply bool_decide_eq_false in Hz. exact (Hz HM).
  - split; [reflexivity|]. split; [exact Hl|exact Hs].
Defined.
End examples.
