(* ===== verification/ThresholdCommands.v ===== *)
(** * The commands of the threshold operator ([threshold-dkg.mjs], [threshold-group.mjs])

    The command line of the key generation, one command a round, over the files that
    its participants exchange, and that of the group manifest.  A file is the JSON
    value it holds; a value that is written is read again without its undefined
    fields.  The options are those that [parseArgs] of Node reads. *)

From S2P Require Import Prelude Js Hex CanonicalJson Json JsonText Vendor ScalarField ThresholdCrypto ThresholdGroup DkgShares DkgCeremony Policies ErrorText CommandLine.
From stdpp Require Import gmap.

Open Scope Z_scope.

(** The files of an operator, what its random generator still draws, and what was
    printed. *)
Record workspace `{NodeCrypto, SealCrypto} := {
  ws_files : gmap string value;
  ws_entropy : entropy;
  ws_printed : list value
}.

(** [Number(v)]; a number that is no safe integer is refused as [NaN] is. *)
Definition number_value (v : value) : value :=
  match to_number v with Some z => VNum z | None => VFrac "NaN" end.

Section commands.
Context `{Ethers, NobleBls, !NodeCrypto, UrlApi, !SealCrypto, !KeyStorage, LocaleApi}.

Definition readJson (path : value) (name : string) : eff workspace value := λ w,
  match path with
  | VStr p =>
      if bool_decide (p = "") then (Throw (name +:+ " path is required"), w)
      else (from_option_or ("ENOENT: no such file or directory, open '" +:+ p +:+ "'") (ws_files w !! p), w)
  | _ => (Throw (name +:+ " path is required"), w)
  end.
Definition writeJson (path v : value) : eff workspace unit := λ w,
  match path with
  | VStr p =>
      if bool_decide (p = "") then (Throw "--out is required", w)
      else match ws_files w !! p with
           | Some _ => (Throw ("refusing to overwrite " +:+ p), w)
           | None => (Ok tt, {| ws_files := <[p := reread v]> (ws_files w); ws_entropy := ws_entropy w;
                                ws_printed := ws_printed w |})
           end
  | _ => (Throw "--out is required", w)
  end.
Definition print (v : value) : eff workspace unit :=
  eff_modify (λ w, {| ws_files := ws_files w; ws_entropy := ws_entropy w; ws_printed := ws_printed w ++ [v] |}).
(** A step that draws. *)
Definition drawing {A} (m : eff entropy A) : eff workspace A := λ w,
  let '(r, s) := m (ws_entropy w) in
  (r, {| ws_files := ws_files w; ws_entropy := s; ws_printed := ws_printed w |}).

Section dkg.
Context (e : environment) (o : value).
Let option k := prop_opt o k.

Definition thresholdPassword : eff workspace string :=
  password ← eff_lift (readSecret e "VRF_THRESHOLD_KEY_PASSWORD" true); mret (default "" password).
Definition dkg_ceremony : value := match option "ceremony" with VUndef => VStr "dkg" | v => v end.
Definition reads_optional (path : value) (name : string) (missing : value) : eff workspace value :=
  if truthy path then readJson path name else mret missing.

(** [dealerRoster] is that of the packets' function unless one is given. *)
Definition ceremonyOptions : eff workspace ceremony_options :=
  roster ← readJson (option "roster") "roster";
  previous ← reads_optional (option "previous") "previous manifest" VUndef;
  mret {| o_ceremony := to_str dkg_ceremony; o_sessionId := option "session"; o_epoch := number_value (option "epoch");
          o_threshold := number_value (option "threshold"); o_roster := roster; o_dealerRoster := roster;
          o_previousManifest := previous; o_previousManifestHash := or_null (option "previous-manifest-hash");
          o_selectedDealerIds := filter (λ s, s ≠ "")
            (split_on "," (to_str (nullish (option "selected-dealers") (VStr "")))) |}.
(** In a resharing the dealers are the participants of the previous manifest. *)
Definition resharing_roster (roster : value) : eff workspace value :=
  if strict_eq dkg_ceremony (VStr "reshare") then
    previous ← readJson (option "previous") "previous manifest";
    participants ← eff_lift (prop previous "participants");
    mret (match participants with VUndef => roster | v => v end)
  else mret roster.
Definition with_dealers (c : ceremony_options) (dealers : value) : ceremony_options :=
  {| o_ceremony := o_ceremony c; o_sessionId := o_sessionId c; o_epoch := o_epoch c; o_threshold := o_threshold c;
     o_roster := o_roster c; o_dealerRoster := dealers; o_previousManifest := o_previousManifest c;
     o_previousManifestHash := o_previousManifestHash c; o_selectedDealerIds := o_selectedDealerIds c |}.
(** A list that is none is refused where it is read. *)
Definition reads_items (k name : string) : eff workspace (list value) :=
  v ← readJson (option k) name; eff_lift (items v).

Definition identityCommand : eff workspace unit :=
  password ← thresholdPassword;
  '(participant, keystore) ← drawing (generateParticipant (option "id") (option "endpoint") password WORK_FACTOR);
  _ ← writeJson (option "out") keystore;
  writeJson (option "descriptor") participant.
Definition attestCommand : eff workspace unit :=
  manifest ← readJson (option "manifest") "manifest";
  keystore ← readJson (option "keystore") "keystore";
  password ← thresholdPassword;
  attestation ← eff_lift (attestManifest manifest keystore password);
  print attestation.
Definition bindCommand : eff workspace unit :=
  manifest ← readJson (option "manifest") "manifest";
  keystore ← readJson (option "keystore") "keystore";
  password ← thresholdPassword;
  bound ← drawing (bindKeystoreToManifest keystore password manifest (option "manifest-hash") WORK_FACTOR);
  writeJson (option "out") bound.
Definition dealCommand : eff workspace unit :=
  c ← ceremonyOptions;
  keystore ← readJson (option "keystore") "keystore";
  password ← thresholdPassword;
  '(packet, state) ← drawing (createDealBundle c keystore password WORK_FACTOR);
  _ ← writeJson (option "out") packet;
  writeJson (option "state-out") state.
Definition respondCommand : eff workspace unit :=
  c ← ceremonyOptions;
  dealers ← resharing_roster (o_roster c);
  keystore ← readJson (option "keystore") "keystore";
  password ← thresholdPassword;
  deals ← reads_items "deals" "deals";
  response ← eff_lift (createResponseBundle (with_dealers c dealers) keystore password deals);
  writeJson (option "out") response.
Definition resolveCommand : eff workspace unit :=
  keystore ← readJson (option "keystore") "keystore";
  state ← readJson (option "state") "dealer state";
  password ← thresholdPassword;
  deal ← readJson (option "deal") "deal";
  responses ← reads_items "responses" "responses";
  roster ← readJson (option "roster") "roster";
  dealers ← resharing_roster roster;
  resolution ← eff_lift (createResolutionBundle roster dealers keystore state password deal responses);
  writeJson (option "out") resolution.
Definition finalizeCommand : eff workspace unit :=
  c ← ceremonyOptions;
  dealers ← resharing_roster (o_roster c);
  keystore ← readJson (option "keystore") "keystore";
  password ← thresholdPassword;
  deals ← reads_items "deals" "deals";
  responses ← reads_items "responses" "responses";
  resolutions ← (if truthy (option "resolutions") then reads_items "resolutions" "resolutions" else mret []);
  '(finalization, finalized, transcript) ←
    drawing (finalizeCeremony (with_dealers c dealers) keystore password WORK_FACTOR deals responses resolutions);
  _ ← writeJson (option "out") finalization;
  _ ← writeJson (option "keystore-out") finalized;
  if truthy (option "transcript-out") then writeJson (option "transcript-out") transcript else mret tt.
Definition assembleCommand : eff workspace unit :=
  finalizations ← reads_items "finalizations" "finalizations";
  roster ← reads_items "roster" "roster";
  manifest ← eff_lift (assembleManifest finalizations roster {|
    mo_network := option "network"; mo_chainId := number_value (option "chain-id");
    mo_verifierAdapter := option "verifier-adapter"; mo_softwareCommit := option "software-commit";
    mo_containerDigest := option "container-digest";
    mo_previousManifestHash := or_null (option "previous-manifest-hash") |});
  writeJson (option "out") manifest.

Definition dkgCommand (command : string) : eff workspace unit :=
  if bool_decide (command = "identity") then identityCommand
  else if bool_decide (command = "attest") then attestCommand
  else if bool_decide (command = "bind") then bindCommand
  else if bool_decide (command = "deal") then dealCommand
  else if bool_decide (command = "respond") then respondCommand
  else if bool_decide (command = "resolve") then resolveCommand
  else if bool_decide (command = "finalize") then finalizeCommand
  else if bool_decide (command = "assemble") then assembleCommand
  else eff_throw "usage: threshold-dkg.mjs identity|deal|respond|resolve|finalize|assemble|attest|bind".
End dkg.

(** ** The group manifest *)

Definition group_options_of (o previous : value) : group_options := {|
  allowLoopback := truthy (prop_opt o "allow-loopback"); previousManifest := previous;
  trustedPreviousManifestHash := prop_opt o "trusted-previous-hash" |}.
(** What [validate] prints of a group. *)
Definition group_summary (g : group) : value := VObj [
  ("manifestHash", VStr (g_manifestHash g)); ("keyHash", VStr (g_keyHash g));
  ("threshold", VNum (b_threshold (g_body g)));
  ("participants", VNum (Z.of_nat (length (b_participants (g_body g)))));
  ("validAttesters", VArr (VStr <$> g_validAttesters g));
  ("validHandoffAttesters", VArr (VStr <$> g_validHandoffAttesters g))].
(** And [aggregate] of a proof. *)
Definition proof_summary (p : aggregate_proof) : value := VObj [
  ("manifestHash", VStr (ap_manifestHash p)); ("keyHash", VStr (ap_keyHash p)); ("message", VStr (ap_message p));
  ("signature", VStr (ap_signature p)); ("proofData", VStr (hexlify (ap_proofData p)));
  ("shareIndexes", VArr (VStr <$> ap_shareIndexes p))].

Definition groupCommand (o : value) (command : string) : eff workspace unit :=
  let option k := prop_opt o k in
  if bool_decide (command = "validate") then
    manifest ← readJson (option "file") "manifest";
    previous ← reads_optional (option "previous") "previous manifest" VUndef;
    g ← eff_lift (validateGroupManifest manifest (group_options_of o previous));
    print (group_summary g)
  else if bool_decide (command = "aggregate") then
    previous ← reads_optional (option "previous") "previous manifest" VUndef;
    manifest ← readJson (option "manifest") "manifest";
    _ ← eff_lift (validateGroupManifest manifest (group_options_of o previous));
    shares ← readJson (option "shares") "shares";
    p ← eff_lift (aggregateFromFiles manifest shares (group_options_of o previous));
    print (proof_summary p)
  else eff_throw "usage: threshold-group.mjs validate --file <group.json> [--previous <group.json> --trusted-previous-hash 0x...] | aggregate --manifest <group.json> --shares <shares.json>".
End commands.
