(* ===== verification/ThresholdCommandsSafety.v ===== *)
(** * What the commands do to the files ([threshold-dkg.mjs]) *)

From S2P Require Import Prelude Js Hex CanonicalJson Json JsonText Vendor ScalarField ThresholdCrypto ThresholdGroup DkgShares DkgCeremony DkgHonest DkgSample Samples Policies ErrorText CommandLine ThresholdCommands.
From stdpp Require Import gmap.

Open Scope Z_scope.

Section commands.
Context `{Ethers, NobleBls, !NodeCrypto, UrlApi, !SealCrypto, !KeyStorage, LocaleApi}.
Context (e : environment).

(** Files are only added: no file is changed or lost. *)
Definition adds_files (w w' : workspace) : Prop := ws_files w ⊆ ws_files w'.
#[local] Instance adds_files_preorder : PreOrder adds_files.
Proof. unfold adds_files. split; [intros w; reflexivity|]. intros w w' w'' ??. by etrans. Qed.

Create HintDb files.
#[local] Hint Extern 1 (keeps adds_files (mret _)) => apply (keeps_ret adds_files) : files.
#[local] Hint Extern 1 (keeps adds_files (eff_lift _)) => apply (keeps_lift adds_files) : files.
#[local] Hint Extern 1 (keeps adds_files (eff_throw _)) => apply (keeps_throw adds_files) : files.
Lemma keeps_readJson path name : keeps adds_files (readJson path name).
Proof. intros w. unfold readJson, adds_files. repeat case_match; reflexivity. Qed.
Lemma keeps_writeJson path v : keeps adds_files (writeJson path v).
Proof.
  intros w. unfold writeJson, adds_files. destruct path; try reflexivity. case_bool_decide; [reflexivity|].
  destruct (ws_files w !! s) eqn:E; [reflexivity|]. by apply insert_subseteq.
Qed.
Lemma keeps_drawing {A} (m : eff entropy A) : keeps adds_files (drawing m).
Proof. intros w. unfold drawing, adds_files. destruct (m (ws_entropy w)). reflexivity. Qed.
Lemma keeps_print v : keeps adds_files (print v).
Proof. intros w. unfold adds_files. reflexivity. Qed.
Lemma keeps_reads_optional path name v : keeps adds_files (reads_optional path name v).
Proof. unfold reads_optional. destruct (truthy path); [apply keeps_readJson|apply (keeps_ret adds_files)]. Qed.
Lemma keeps_reads_items o k name : keeps adds_files (reads_items o k name).
Proof. apply (keeps_bind adds_files); [apply keeps_readJson|]. intros v. apply (keeps_lift adds_files). Qed.
#[local] Hint Resolve keeps_readJson keeps_writeJson keeps_drawing keeps_print keeps_reads_optional keeps_reads_items : files.

Ltac keeps_step :=
  first [ solve [auto with files]
        | apply (keeps_bind adds_files); [|intros ?]
        | match goal with |- keeps _ (let '(_, _) := ?x in _) => destruct x end
        | match goal with |- keeps _ (if ?b then _ else _) => destruct b end ].

Lemma keeps_keyPassword : keeps adds_files (thresholdPassword e).
Proof. unfold thresholdPassword. repeat keeps_step. Qed.
Lemma keeps_ceremonyOptions o : keeps adds_files (ceremonyOptions o).
Proof. unfold ceremonyOptions. repeat keeps_step. Qed.
Lemma keeps_resharing_roster o roster : keeps adds_files (resharing_roster o roster).
Proof. unfold resharing_roster. repeat keeps_step. Qed.
#[local] Hint Resolve keeps_keyPassword keeps_ceremonyOptions keeps_resharing_roster : files.

(** Whatever a command is given and however it ends, every file that was there is
    there after it with what it held. *)
Theorem commands_never_overwrite o command w path v :
  ws_files w !! path = Some v → ws_files (dkgCommand e o command w).2 !! path = Some v.
Proof.
  enough (keeps adds_files (dkgCommand e o command)) as Hk by (intros Hp; exact (lookup_weaken _ _ _ _ Hp (Hk w))).
  unfold dkgCommand, identityCommand, attestCommand, bindCommand, dealCommand, respondCommand, resolveCommand,
    finalizeCommand, assembleCommand. repeat keeps_step.
Qed.
End commands.

(** ** A new identity *)
Section identity.
Context `{Ethers, !EthersLaws, NobleBls, !BlsLaws, !NodeCrypto, !NodeCryptoLaws, UrlApi, !SealCrypto, !SealCryptoLaws,
  !KeyStorage, LocaleApi, !KeyStorageLaws}.
Context (e : environment).

Lemma writeJson_Ok path v w u w' :
  writeJson path v w = (Ok u, w') →
  ∃ p, path = VStr p ∧ ws_files w !! p = None ∧ ws_files w' = <[p := reread v]> (ws_files w).
Proof.
  unfold writeJson. destruct path; try done. case_bool_decide; [done|]. destruct (ws_files w !! s) eqn:E; [done|].
  intros [= _ <-]. by exists s.
Qed.
Lemma drawing_Ok {A} (m : eff entropy A) w a w' :
  drawing m w = (Ok a, w') → m (ws_entropy w) = (Ok a, ws_entropy w') ∧ ws_files w' = ws_files w.
Proof. unfold drawing. destruct (m (ws_entropy w)) as [r s]. by intros [= -> <-]. Qed.

(** What a new participant writes reads back as it is, when its name and its endpoint
    are texts. *)
Lemma generateParticipant_reread id ep pw wf s participant keystore s' :
  generateParticipant (VStr id) (VStr ep) pw wf s = (Ok (participant, keystore), s') →
  reread participant = participant ∧ reread keystore = keystore ∧ prop_opt keystore "participantId" = VStr id.
Proof.
  unfold generateParticipant. intros (ik & s1 & _ & Hr)%eff_bind_Ok. apply eff_bind_Ok in Hr as (tk & s2 & _ & Hr).
  apply eff_lift_bind_Ok in Hr as (? & _ & Hr). apply eff_bind_Ok in Hr as (crypto & s3 & Hc & [= <- <- _]).
  assert (reread crypto = crypto ∧ crypto ≠ VUndef) as [Ec Hn].
  { unfold encryptPayload in Hc. apply eff_require_bind_Ok in Hc as [_ Hc].
    apply eff_bind_Ok in Hc as (salt & ? & _ & Hc). apply eff_bind_Ok in Hc as (iv & ? & _ & Hc).
    apply eff_lift_bind_Ok in Hc as (key & _ & Hc). apply eff_lift_bind_Ok in Hc as (text & _ & Hc).
    destruct (aes_seal key iv [] (toUtf8Bytes text)). by injection Hc as <- _. }
  split; [reflexivity|]. split; [|reflexivity]. cbn [reread flat_map app]. destruct crypto; try done; by rewrite Ec.
Qed.

(** After the identity command the two files hold a valid participant and a
    keystore that opens under the operator's password, with the private keys of the
    public keys the participant advertises and no share. *)
Theorem identity_command_opens o id ep w w' :
  prop_opt o "id" = VStr id → prop_opt o "endpoint" = VStr ep → identityCommand e o w = (Ok tt, w') →
  ∃ password out descriptor keystore participant loaded,
    readSecret e "VRF_THRESHOLD_KEY_PASSWORD" true = Ok password ∧
    prop_opt o "out" = VStr out ∧ prop_opt o "descriptor" = VStr descriptor ∧
    ws_files w' !! out = Some keystore ∧ ws_files w' !! descriptor = Some participant ∧
    prop_opt keystore "participantId" = VStr id ∧ validateParticipant participant 1 = Ok participant ∧
    loadKeystore keystore (default "" password) = Ok loaded ∧
    prop_opt participant "identityPublicKey" = VStr (hexlify (ed_public (identityPrivateKey loaded))) ∧
    prop_opt participant "transportPublicKey" = VStr (hexlify (x_public (transportPrivateKey loaded))) ∧
    prop_opt (secret loaded) "thresholdShare" = VNull.
Proof.
  intros Hid Hep. unfold identityCommand, thresholdPassword. rewrite Hid, Hep. intros (pw & w1 & Hpw & Hr)%eff_bind_Ok.
  apply eff_lift_bind_Ok in Hpw as (password & Hpassword & [= <- <-]).
  apply eff_bind_Ok in Hr as ([participant keystore] & w2 & [Hg Hf2]%drawing_Ok & Hr).
  apply eff_bind_Ok in Hr as (? & w3 & (out & Hout & Hfree & Hf3)%writeJson_Ok & (descriptor & Hdesc & Hfree' & Hf4)%writeJson_Ok).
  destruct (generateParticipant_reread _ _ _ _ _ _ _ _ Hg) as (Ep & Ek & Hname). rewrite Ek in Hf3. rewrite Ep in Hf4.
  pose proof (generated_keystore_loads (VStr id) (VStr ep) (default "" password) WORK_FACTOR (ws_entropy w) ltac:(done) eq_refl) as Hload.
  rewrite Hg in Hload. destruct Hload as (_ & Hval & loaded & Hl & _ & _ & Hik & Htk & Hsh).
  exists password, out, descriptor, keystore, participant, loaded. split_and!; try done.
  - rewrite Hf4, lookup_insert_ne; [by rewrite Hf3, lookup_insert_eq|]. intros ->. by rewrite Hf3, lookup_insert_eq in Hfree'.
  - by rewrite Hf4, lookup_insert_eq.
Qed.
End identity.

(** ** Concrete runs *)
Section examples.
#[local] Existing Instances sample_ethers_laws sample_bls_laws sample_crypto_laws sample_seal_laws sample_storage_laws.

Definition command_environment : environment := {|
  env name := if bool_decide (name = "VRF_THRESHOLD_KEY_PASSWORD") then Some dkg_password else None;
  lstat _ := Throw "ENOENT"; read_file _ := Throw "ENOENT" |}.
Definition fresh_files (files : list (string * value)) : workspace := {|
  ws_files := list_to_map files; ws_entropy := supply 5 [16; 12]; ws_printed := [] |}.
Definition identity_options : value := VObj [
  ("id", VStr "node-1"); ("endpoint", VStr "https://node1"); ("out", VStr "key.json"); ("descriptor", VStr "me.json")].
Definition identity_run : result unit * workspace := identityCommand command_environment identity_options (fresh_files []).

Lemma identity_command_opens_witness :
  ∃ keystore loaded, ws_files identity_run.2 !! "key.json" = Some keystore ∧ loadKeystore keystore dkg_password = Ok loaded.
Proof.
  assert (identity_run.1 = Ok tt) as Hr by vm_refl. destruct identity_run as [r w'] eqn:E. cbn [fst] in Hr. subst r.
  destruct (identity_command_opens command_environment identity_options "node-1" "https://node1" (fresh_files []) w' eq_refl eq_refl E)
    as (password & out & _ & keystore & _ & loaded & Hpw & Hout & _ & Hk & _ & _ & _ & Hl & _).
  exists keystore, loaded. injection Hout as <-. split; [exact Hk|].
  assert (readSecret command_environment "VRF_THRESHOLD_KEY_PASSWORD" true = Ok (Some dkg_password)) as Hs by vm_refl.
  rewrite Hs in Hpw. injection Hpw as <-. exact Hl.
Defined.

Lemma commands_never_overwrite_witness :
  (dkgCommand command_environment identity_options "identity" (fresh_files [("me.json", VNull)])).1
    = Throw "refusing to overwrite me.json" ∧
  ws_files (dkgCommand command_environment identity_options "identity" (fresh_files [("me.json", VNull)])).2 !! "me.json" = Some VNull.
Proof.
  split; [vm_refl|]. apply (commands_never_overwrite command_environment identity_options "identity"). vm_refl.
Defined.

(** Without a name the identity command succeeds: the text of [undefined] is a name,
    and the keystore has none. *)
Lemma identity_without_name :
  let w := (identityCommand command_environment
              (VObj [("endpoint", VStr "https://node1"); ("out", VStr "key.json"); ("descriptor", VStr "me.json")])
              (fresh_files [])) in
  w.1 = Ok tt ∧ ((λ k, prop_opt k "participantId") <$> ws_files w.2 !! "key.json") = Some VUndef.
Proof. split; vm_refl. Qed.

(** When the file of the dealer's state cannot be written, its deal has been. *)
Definition deal_command_options : value := VObj [
  ("ceremony", VStr "dkg"); ("session", o_sessionId dkg_options); ("epoch", VStr "1"); ("threshold", VStr "2");
  ("roster", VStr "roster.json"); ("keystore", VStr "key.json"); ("out", VStr "deal.json")].
Definition deal_run : result unit * workspace :=
  dkgCommand command_environment deal_command_options "deal" {|
    ws_files := list_to_map [("roster.json", dkg_roster); ("key.json", dkg_keystore 1)];
    ws_entropy := supply 10 [64; 64; 12; 12; 12; 16; 12]; ws_printed := [] |}.
Lemma deal_without_state :
  deal_run.1 = Throw "--out is required" ∧
  ((λ p, prop_opt (prop_opt p "body") "type") <$> ws_files deal_run.2 !! "deal.json") = Some (VStr "deal").
Proof. split; vm_refl. Qed.
End examples.
