(* ===== verification/Processes.v ===== *)
(** * The processes of the compact coordinator and of the archiver ([run-compact.mjs],
    [archiver.mjs])

    The manifest, everything that is checked before an operator or an archiver
    starts, its turns or cycles, how an order is sent within the budget, and the health
    record that each leaves.  The endpoints, the fallback provider over them, the
    files, the connection to the database with what it makes there, and the relayer's
    sending are parameters; calls that the code makes together are made in order.  A
    write of the health file that fails and what is printed are not modelled. *)

From S2P Require Import Prelude Js Hex CanonicalJson JsonText Vendor ThresholdCrypto Policies Compact ThresholdNode OperatorStore ErrorText Ecvrf ProofProvider Archiver CompactWorker CommandLine Readiness Health DeploymentCheck.

Open Scope Z_scope.

Class DatabaseSetup := {
  ds_connect : nat → string → result unit;       (* the pool and the schema *)
  ds_witnessTables : nat → result unit           (* [initializeWitnessStore] *)
}.

(** ** The manifest *)

Definition COMPACT_CONTRACTS : list string :=
  ["coordinator"; "blockhashStore"; "verifier"; "blockContext"; "l1FeeCalculator"; "timelock"; "safe"].
Definition COMPACT_ROLES : list string := ["fulfiller"; "archiver"; "guardian"; "payee"].
(** [/^[a-f0-9]{40}$/] *)
Definition git_commit (s : string) : bool := forallb is_lower_hex_digit (chars s) && (String.length s =? 40)%nat.

Section manifest.
Context `{Ethers}.
Definition check_contract (manifest : value) (name : string) : result unit :=
  let c := prop_opt (prop_opt manifest "contracts") name in
  _ ← require (truthy c && hex_string 64 (to_str (prop_opt c "runtimeCodeHash"))
               && is_safe_integer (prop_opt c "blockNumber")) ("missing " +:+ name +:+ " deployment evidence");
  _ ← checked_address (Ok (prop_opt c "address")); Ok tt.
Definition validateCompactManifest (manifest : value) : result value :=
  format ← prop manifest "format";
  _ ← require (strict_eq format (VStr "robinhood-proof-vrf-deployment/v3")
               && bool_decide (to_number (prop_opt manifest "chainId") = Some 46630)
               && existsb (λ s, strict_eq (prop_opt manifest "status") (VStr s)) ["deployed"; "verified"]
               && git_commit (to_str (prop_opt manifest "gitCommit"))) "V3 testnet deployment manifest required";
  _ ← forM_ (check_contract manifest) COMPACT_CONTRACTS;
  _ ← forM_ (λ role, _ ← checked_address (Ok (prop_opt manifest role)); Ok tt) COMPACT_ROLES;
  _ ← require (hex_string 64 (to_str (prop_opt manifest "keyHash"))) "missing key hash";
  Ok manifest.

(** What the worker reads of it. *)
Definition text_of (v : value) : string := match v with VStr s => s | _ => "" end.
Definition number_of (v : value) : Z := match v with VNum z => z | _ => 0 end.
Definition contract_of (manifest : value) (name k : string) : value :=
  prop_opt (prop_opt (prop_opt manifest "contracts") name) k.
Definition worker_manifest_of (manifest : value) : worker_manifest := {|
  wm_chainId := prop_opt manifest "chainId"; wm_coordinator := text_of (contract_of manifest "coordinator" "address");
  wm_coordinatorBlock := number_of (contract_of manifest "coordinator" "blockNumber");
  wm_keyHash := text_of (prop_opt manifest "keyHash");
  wm_blockhashStore := text_of (contract_of manifest "blockhashStore" "address") |}.
End manifest.

(** ** The start *)

Record compact_process := {
  cx_mode : string; cx_manifest : worker_manifest; cx_identity : operator_identity; cx_instanceId : string;
  cx_providers : list string; cx_relayer : string; cx_prover : option compact_prover;
  cx_healthPath : value; cx_once : bool
}.

Section process.
Context `{Ethers, UrlApi, CompactInterface, RpcSend, WorkerContracts, StateFile, WorkerClock, ClockApi}.
Context `{Secp256k1, HmacApi, HttpApi, ReadinessApi, DatabaseSetup}.
Context (e : environment) (files : file_system) (process_name : string).     (* host, pid and a random id *)
Context (sendPostgres : send_request → eff worker_world worker_receipt).

(** What [RemoteProofProvider] is for the preparation of a transaction. *)
Definition query_of (v : value) : proof_query := {|
  q_actualSeed := prop_opt v "actualSeed"; q_preSeed := prop_opt v "preSeed"; q_requestId := prop_opt v "requestId";
  q_coordinator := prop_opt v "coordinator"; q_chainId := prop_opt v "chainId";
  q_compactWitness := prop_opt v "compactWitness" |}.
Definition compact_remote_prover (p : remote_provider) (k : remote_key) : compact_prover := {|
  cp_mode := VStr "remote-prover";
  cp_prove n query :=
    r ← (remoteProve p k (query_of query) n).1;
    Ok (VObj [("proof", proof_value (rr_proof r)); ("output", VBig (rr_output r));
              ("serviceKeyHash", VStr (rr_serviceKeyHash r))]) |}.

Definition checkPinned (manifest : value) (coordinator p : string) : eff nat unit :=
  let mismatch := "V3 pinned configuration mismatch" in
  let text f := call (λ n, rd_text n p coordinator f) in
  let same (v : eff nat string) (expected : result value) :=
    v ← v; same ← eff_lift (lower_is v expected); eff_require same mismatch in
  key ← call (λ n, rd_key n p coordinator (to_str (prop_opt manifest "keyHash")));
  _ ← same (text "owner") (contract_field manifest "timelock" "address");
  _ ← same (text "guardian") (Ok (prop_opt manifest "guardian"));
  _ ← same (text "blockhashStore") (contract_field manifest "blockhashStore" "address");
  _ ← eff_require (k_active key && k_exists key) mismatch;
  _ ← same (mret (k_fulfiller key)) (Ok (prop_opt manifest "fulfiller"));
  _ ← same (mret (k_payee key)) (Ok (prop_opt manifest "payee"));
  same (mret (k_verifier key)) (contract_field manifest "verifier" "address").
(** The code of every contract of the manifest. *)
Definition checkRuntimeCode (p : string) (c : string * value) : eff nat unit :=
  address ← eff_lift (a ← prop c.2 "address"; from_option_or TYPE_ERROR (as_string a));
  code ← call (λ n, rd_code n p address);
  eff_require (strict_eq (VStr (keccak256 code)) (prop_opt c.2 "runtimeCodeHash")) "V3 runtime code mismatch".
Definition checkCompactEndpoint (manifest : value) (coordinator p : string) : eff nat unit :=
  chain ← call (λ n, rd_chainId n p);
  _ ← eff_require (chain =? 46630) "V3 RPC chain mismatch";
  contracts ← eff_lift (object_entries (prop_opt manifest "contracts"));
  _ ← eff_forM (checkRuntimeCode p) contracts;
  checkPinned manifest coordinator p.

(** The budget of a file at a path. *)
Definition no_metadata : file_metadata := {| isFile := true; isSymbolicLink := false; mode := 0; size := 0 |}.
Definition openBudget (path : string) (identity : value) (maximumWei : Z) : eff budget_world unit :=
  w ← eff_get;
  metadata ← eff_lift (if (0 <? maximumWei) && bool_decide (is_Some (bw_file w)) then lstat e path else Ok no_metadata);
  newArchiveBudget metadata identity maximumWei.

Definition remoteProver (o : value) (keyHash : string) : eff nat compact_prover :=
  let file k := (λ p, read_bytes files p) <$> option_text o k in
  let url := prop_opt o "prover-url" in
  let given k := bool_decide (is_Some (option_text o k)) in
  _ ← eff_require (starts_with "https://" (text_of url) && given "prover-client-cert" && given "prover-client-key"
                   && given "prover-ca") "V3 prover requires mTLS";
  token ← eff_lift (readSecret e "VRF_PROVER_BEARER_TOKEN" true);
  p ← eff_lift (newRemoteProvider {|
    rp_baseUrl := url; rp_bearerToken := token; rp_clientCertificatePath := file "prover-client-cert";
    rp_clientKeyPath := file "prover-client-key"; rp_caCertificatePath := file "prover-ca" |});
  k ← initializeRemote p (Some keyHash);
  mret (compact_remote_prover p k).

Definition compactStart (o : value) : eff worker_world compact_process :=
  let mode := text_of (prop_opt o "mode") in
  let maximum := to_str (nullish (prop_opt o "maximum-total-fee-wei") (VStr "")) in
  _ ← eff_require (bool_decide (mode ∈ ["operator"; "archiver"]) && truthy (prop_opt o "state")
                   && truthy (prop_opt o "health-file") && all_digits maximum)
        "mode, manifest, private state, health-file and explicit budget required";
  path ← eff_lift (from_option_or TYPE_ERROR (as_string (prop_opt o "manifest")));
  manifest ← eff_lift (read_json files path);
  manifest ← eff_lift (validateCompactManifest manifest);
  secret ← eff_lift (readSecret e "VRF_RPC_URLS" true);
  providers ← eff_lift (normalizeRpcUrls (secret_value secret)
    {| minimum := 2; label := "V3 runtime"; allowSharedOrigin := false |});
  key ← eff_lift (readSecret e "VRF_TX_PRIVATE_KEY" true);
  relayer ← eff_lift (wallet_address (default "" key));
  address ← eff_lift (checked_address (Ok (VStr relayer)));
  role ← eff_lift (checked_address (Ok (prop_opt manifest (if bool_decide (mode = "operator") then "fulfiller" else "archiver"))));
  _ ← eff_require (bool_decide (address = role)) "V3 relayer role mismatch";
  let m := worker_manifest_of manifest in
  coordinator ← eff_lift (to_lower (contract_of manifest "coordinator" "address"));
  keyHash ← eff_lift (to_lower (prop_opt manifest "keyHash"));
  let identity := VObj [("chainId", VStr "46630"); ("coordinator", VStr coordinator);
                        ("keyHash", VStr keyHash); ("relayer", VStr (lower relayer))] in
  maximumWei ← eff_lift (to_bigint (VStr maximum));
  _ ← on_archive_budget (openBudget (to_str (prop_opt o "state")) identity maximumWei);
  _ ← on_rpc (eff_forM (checkCompactEndpoint manifest coordinator) providers);
  database ← eff_lift (readSecret e "VRF_DATABASE_URL" true);
  i ← eff_lift (normalizeIdentity {| chainId := "46630"; coordinator := coordinator; keyHash := keyHash;
                                    deploymentBlock := wm_coordinatorBlock m |});
  _ ← on_rpc (call (λ n, ds_connect n (default "" database)));
  _ ← on_database (initialize i);
  _ ← on_rpc (call ds_witnessTables);
  prover ← (if bool_decide (mode = "operator")
            then p ← on_rpc (remoteProver o (wm_keyHash m)); mret (Some p) else mret None);
  mret {| cx_mode := mode; cx_manifest := m; cx_identity := i; cx_instanceId := "v3-" +:+ mode +:+ ":" +:+ process_name;
          cx_providers := providers; cx_relayer := relayer; cx_prover := prover;
          cx_healthPath := prop_opt o "health-file"; cx_once := truthy (prop_opt o "once") |}.

(** ** The loop *)

Definition compactTurn (p : compact_process) : eff worker_world (bool * list (string * value)) :=
  let dispatch := runtimeSend (cx_providers p) (cx_relayer p) sendPostgres in
  if bool_decide (cx_mode p = "archiver")
  then archiverTurn (cx_providers p) (cx_manifest p) (cx_identity p) (cx_instanceId p) dispatch (cx_relayer p)
  else operatorTurn (cx_providers p) (cx_manifest p) (cx_identity p) (cx_instanceId p) dispatch (cx_relayer p) (cx_prover p).

Definition error_value (error : string) : value :=
  VObj ((λ kv, (kv.1, VStr kv.2)) <$> errorDetails (VObj [("message", VStr error)])).
(** [{ ...v, ...data }] *)
Definition spread (v : value) (data : list (string * value)) : value := foldl (λ v kv, set_prop v kv.1 kv.2) v data.
Definition compact_health (p : compact_process) (data : list (string * value)) (now : string * value)
    : eff budget_world value :=
  left ← remaining;
  gap ← get_state "coverageGap";
  missed ← get_state "missedRequestIds";
  blocked ← get_state "budgetBlocked";
  review ← get_state "reviewRequestIds";
  mret (spread (VObj [
    ("mode", VStr ("compact-" +:+ cx_mode p)); ("instanceId", VStr (cx_instanceId p));
    ("coordinator", VStr (coordinator (cx_identity p))); ("budgetRemainingWei", VStr (print_int left));
    ("coverageGap", gap); ("missedRequestIds", nullish missed (VArr []));
    ("budgetBlocked", VBool (truthy blocked)); ("reviewRequestIds", nullish review (VArr []))]) (data ++ [now])).
Definition write_compact_health (p : compact_process) (data : list (string * value)) : eff (loop_world worker_world) unit :=
  w ← eff_get;
  record ← in_loop (on_archive_budget (compact_health p data (updated_at wk_calls (lw_world w))));
  write_health (cx_healthPath p) record.

Definition compactLoopTurn (p : compact_process) : eff (loop_world worker_world) bool :=
  eff_catch
    ('(okay, stats) ← in_loop (compactTurn p);
     _ ← write_compact_health p (("status", VStr (if (okay : bool) then "healthy" else "unhealthy")) :: stats);
     mret (cx_once p))
    (λ error,
     _ ← write_compact_health p [("status", VStr "unhealthy"); ("error", error_value error)];
     if cx_once p then eff_throw error else mret false).
Fixpoint compactLoop (p : compact_process) (turns : nat) : eff (loop_world worker_world) bool :=
  match turns with
  | O => mret false
  | S turns => stopped ← compactLoopTurn p; if (stopped : bool) then mret true else compactLoop p turns
  end.

(** [main]; whether the loop has ended. *)
Definition runCompact (o : value) (turns : nat) : eff (loop_world worker_world) bool :=
  p ← in_loop (compactStart o); compactLoop p turns.
End process.

(** ** The archiver: what it calls and what it has

    The fallback provider, and ethers' [store.populateTransaction]. *)
Class FallbackArchive := {
  fa_storedHash : nat → list string → string → string → result string;
  fa_balance : nat → list string → string → result Z;
  fa_populate : string → string → result value
}.
(** What [sendPostgresTransaction] is given. *)
Record archive_send := {
  az_transaction : value; az_maxGasPrice : Z; az_timeoutMs : Z; az_maximumAttempts : Z; az_requestId : string;
  az_kind : string; az_beforeBroadcast : reservation → eff cycle_world unit
}.
Record archiver_process := {
  ax_manifest : archive_manifest; ax_instanceId : string; ax_providers : list string; ax_relayer : string;
  ax_identity : operator_identity; ax_after : Z; ax_maximumGasPrice : Z; ax_healthPath : value; ax_once : bool
}.

Section archiver_main.
Context `{Ethers, UrlApi, StateFile, ArchiveRpc, ClockApi, ReadinessApi, DatabaseSetup, FallbackArchive}.
Context (e : environment) (files : file_system) (process_name : string).
Context (sendPostgres : archive_send → eff cycle_world unit).

(** ** The start *)

Record archiver_settings := { at_after : Z; at_maximumGasPrice : Z; at_manifest : value }.
Definition integer_within (v : value) (minimum maximum : Z) (message : string) : result Z :=
  match to_number v with
  | Some z => _ ← require ((minimum <=? z) && (z <=? maximum)) message; Ok z
  | None => Throw message
  end.
Definition archiverSettings (o : value) : result archiver_settings :=
  let option k fallback := match prop_opt o k with VUndef => VStr fallback | v => v end in
  _ ← require (truthy (prop_opt o "manifest") && truthy (prop_opt o "state") && truthy (prop_opt o "health-file")
               && all_digits (to_str (if truthy (prop_opt o "maximum-total-fee-wei") then prop_opt o "maximum-total-fee-wei" else VStr "")))
        "manifest, state, health-file, and explicit maximum-total-fee-wei are required";
  manifest ← read_json files (to_str (prop_opt o "manifest"));
  format ← prop manifest "format";
  _ ← require (strict_eq format (VStr "robinhood-proof-vrf-deployment/v1")
               && bool_decide (to_number (prop_opt manifest "chainId") = Some 46630))
        "archiver release is restricted to a Robinhood testnet deployment manifest";
  maximumGasPrice ← to_bigint (option "maximum-gas-price-wei" "15000000");
  after ← integer_within (option "archive-after-blocks" "32") 2 64 "archive-after-blocks must be 2..64";
  _ ← integer_within (option "poll-ms" "1000") 250 2000 "poll-ms must be 250..2000";
  _ ← require (0 <? maximumGasPrice) "maximum gas price must be positive";
  Ok {| at_after := after; at_maximumGasPrice := maximumGasPrice; at_manifest := manifest |}.

Definition checkArchiverCode (manifest : value) (p name : string) : eff nat unit :=
  address ← eff_lift (a ← contract_field manifest name "address"; from_option_or TYPE_ERROR (as_string a));
  code ← call (λ n, rd_code n p address);
  expected ← eff_lift (contract_field manifest name "runtimeCodeHash");
  eff_require (strict_eq (VStr (keccak256 code)) expected) ("archiver " +:+ name +:+ " code mismatch").
Definition checkArchiverEndpoint (manifest : value) (p : string) : eff nat unit :=
  chain ← call (λ n, rd_chainId n p);
  _ ← eff_require (chain =? 46630) "archiver RPC chain mismatch";
  _ ← eff_forM (checkArchiverCode manifest p) ["coordinator"; "blockhashStore"];
  coordinator ← eff_lift (a ← contract_field manifest "coordinator" "address"; from_option_or TYPE_ERROR (as_string a));
  store ← call (λ n, rd_text n p coordinator "blockhashStore");
  store ← eff_lift (checked_address (Ok (VStr store)));
  expected ← eff_lift (checked_address (contract_field manifest "blockhashStore" "address"));
  eff_require (bool_decide (store = expected)) "archiver store mismatch".

Definition archiverStart (o : value) : eff cycle_world archiver_process :=
  s ← eff_lift (archiverSettings o);
  let manifest := at_manifest s in
  secret ← eff_lift (readSecret e "VRF_RPC_URLS" true);
  providers ← eff_lift (normalizeRpcUrls (secret_value secret)
    {| minimum := 2; label := "independent archiver"; allowSharedOrigin := false |});
  _ ← on_calls (eff_forM (checkArchiverEndpoint manifest) providers);
  key ← eff_lift (readSecret e "VRF_TX_PRIVATE_KEY" true);
  relayer ← eff_lift (wallet_address (default "" key));
  address ← eff_lift (contract_field manifest "coordinator" "address");
  coordinator ← eff_lift (to_lower address);
  keyHash ← eff_lift (k ← prop manifest "keyHash"; to_lower k);
  let identity := VObj [("chainId", VStr "46630"); ("coordinator", VStr coordinator);
                        ("relayer", VStr (lower relayer)); ("keyHash", VStr keyHash)] in
  maximumWei ← eff_lift (to_bigint (prop_opt o "maximum-total-fee-wei"));
  _ ← on_budget (openBudget e (to_str (prop_opt o "state")) identity maximumWei);
  database ← eff_lift (readSecret e "VRF_DATABASE_URL" true);
  blockNumber ← eff_lift (b ← contract_field manifest "coordinator" "blockNumber";
                          from_option_or "deploymentBlock is outside the JavaScript safe integer range" (to_number b));
  i ← eff_lift (normalizeIdentity {| chainId := "46630"; coordinator := coordinator; keyHash := keyHash;
                                    deploymentBlock := blockNumber |});
  _ ← on_calls (call (λ n, ds_connect n (default "" database)));
  mret {| ax_manifest := {| am_coordinator := text_of address; am_blockNumber := blockNumber;
                            am_keyHash := text_of (prop_opt manifest "keyHash");
                            am_blockhashStore := text_of (contract_of manifest "blockhashStore" "address") |};
          ax_instanceId := "archiver:" +:+ process_name; ax_providers := providers; ax_relayer := relayer;
          ax_identity := i; ax_after := at_after s; ax_maximumGasPrice := at_maximumGasPrice s;
          ax_healthPath := prop_opt o "health-file"; ax_once := truthy (prop_opt o "once") |}.

(** ** Sending *)

Definition ARCHIVER_FLOOR : Z := 2000000000000000.
Definition sendArchive (p : archiver_process) (o : archive_order) : eff cycle_world unit :=
  let m := ax_manifest p in
  stored ← on_calls (call (λ n, fa_storedHash n (ax_providers p) (am_blockhashStore m) (ao_requestBlock o)));
  if negb (bool_decide (stored = ZERO)) then mret tt
  else
    balance ← on_calls (call (λ n, fa_balance n (ax_providers p) (ax_relayer p)));
    _ ← eff_require (ARCHIVER_FLOOR <=? balance) "ArchiverRelayerBalanceFloor";
    transaction ← eff_lift (fa_populate (am_blockhashStore m) (ao_requestBlock o));
    sendPostgres {|
      az_transaction := transaction; az_maxGasPrice := Z.min (ao_maxGasPriceWei o) (ax_maximumGasPrice p);
      az_timeoutMs := 5000; az_maximumAttempts := 1; az_requestId := ao_requestId o;
      az_kind := "independent-blockhash-archive"; az_beforeBroadcast := λ r, on_budget (reserve r) |}.

(** ** The loop *)

Definition archive_errors (errors : list (string * list (string * string))) : value :=
  VArr ((λ e, VObj [("requestId", VStr e.1); ("error", VObj ((λ kv, (kv.1, VStr kv.2)) <$> e.2))]) <$> errors).
(** [stats] and the state of the budget, as a record. *)
Definition archiver_health (p : archiver_process) (s : archive_stats) (now : string * value) : eff budget_world value :=
  gap ← get_state "coverageGap";
  blocked ← get_state "budgetBlocked";
  missed ← get_state "missedRequestIds";
  left ← remaining;
  let healthy := (as_missedWindow s =? 0) && bool_decide (as_errors s = []) && negb (truthy gap) && negb (truthy blocked)
                 && negb (has_items missed) && (0 <? left) in
  mret (VObj [
    ("status", VStr (if healthy then "healthy" else "unhealthy")); ("mode", VStr "independent-archiver");
    ("instanceId", VStr (ax_instanceId p)); ("coordinator", VStr (coordinator (ax_identity p)));
    ("keyHash", VStr (keyHash (ax_identity p))); ("head", VNum (as_head s)); ("cursor", VNum (as_cursor s));
    ("pending", VNum (as_pending s)); ("archived", VNum (as_archived s)); ("protected", VNum (as_protected s));
    ("missedWindow", VNum (as_missedWindow s)); ("errors", archive_errors (as_errors s));
    ("budgetRemainingWei", VStr (print_int left)); ("coverageGap", gap); ("budgetBlocked", VBool (truthy blocked));
    ("missedRequestIds", if truthy missed then missed else VArr []); now]).
Definition archiver_problem (p : archiver_process) (error : string) (now : string * value) : value :=
  VObj [("status", VStr "unhealthy"); ("mode", VStr "independent-archiver"); ("instanceId", VStr (ax_instanceId p));
        ("error", error_value error); now].

Definition archiverLoopTurn (p : archiver_process) : eff (loop_world cycle_world) bool :=
  eff_catch
    (stats ← in_loop (archiveCycle (ax_providers p) (ax_manifest p) (sendArchive p) (ax_after p));
     w ← eff_get;
     record ← in_loop (on_budget (archiver_health p stats (updated_at cw_calls (lw_world w))));
     _ ← write_health (ax_healthPath p) record;
     mret (ax_once p))
    (λ error,
     w ← eff_get;
     _ ← write_health (ax_healthPath p) (archiver_problem p error (updated_at cw_calls (lw_world w)));
     if ax_once p then eff_throw error else mret false).
Fixpoint archiverLoop (p : archiver_process) (turns : nat) : eff (loop_world cycle_world) bool :=
  match turns with
  | O => mret false
  | S turns => stopped ← archiverLoopTurn p; if (stopped : bool) then mret true else archiverLoop p turns
  end.
Definition runArchiver (o : value) (turns : nat) : eff (loop_world cycle_world) bool :=
  p ← in_loop (archiverStart o); archiverLoop p turns.
End archiver_main.
