(* ===== verification/ProcessSafety.v ===== *)
(** * What the processes of the compact coordinator and of the archiver promise
    ([run-compact.mjs], [archiver.mjs]) *)

From stdpp Require Import gmap.
From S2P Require Import Prelude Js Hex CanonicalJson JsonText Json Vendor Samples ThresholdCrypto Policies Compact CompactSafety CompactConsensus ThresholdNode NodeSafety OperatorStore StoreLeases ErrorText Ecvrf EcvrfSample ProofProvider Archiver ArchiverSafety CompactWorker CompactWorkerSafety CommandLine Readiness ServiceStartSafety Health DeploymentCheck DeploymentSafety Processes.

Open Scope Z_scope.

(** ** Runs in the world of a loop *)
Section loop.
Context {W : Type} (R : W → W → Prop) `{!PreOrder R}.
Definition on_world (w w' : loop_world W) : Prop := R (lw_world w) (lw_world w').
#[export] Instance on_world_preorder : PreOrder on_world.
Proof. unfold on_world. split; [by intros w|]. intros w1 w2 w3. apply transitivity. Qed.
Lemma keeps_in_loop {A} (m : eff W A) : keeps R m → keeps on_world (in_loop m).
Proof. intros Hm w. specialize (Hm (lw_world w)). unfold in_loop, on_world. by destruct (m _). Qed.
Lemma keeps_write_health path v : keeps on_world (write_health path v).
Proof. intros w. unfold write_health, on_world. by case_match. Qed.
End loop.

Section process.
Context `{EthersLaws, UrlApi, CompactInterface, RpcSend, WorkerContracts, StateFile, WorkerClock, ClockApi}.
Context `{Secp256k1, HmacApi, HttpApi, ReadinessApi, DatabaseSetup}.
Context (e : environment) (files : file_system) (process_name : string).
Context (sendPostgres : send_request → eff worker_world worker_receipt).

(** ** What a start checks *)

(** An endpoint has the chain, the code of every contract and the configuration of
    the manifest. *)
Definition given_as (v : string) (expected : result value) : Prop := lower_is v expected = Ok true.
Definition reads (p coordinator f : string) (expected : result value) : Prop :=
  ∃ n v, rd_text n p coordinator f = Ok v ∧ given_as v expected.
Record pinned (manifest : value) (coordinator p : string) : Prop := {
  pin_chain : ∃ n, rd_chainId n p = Ok 46630;
  pin_code contracts name c : object_entries (prop_opt manifest "contracts") = Ok contracts → (name, c) ∈ contracts →
    ∃ n address code, prop c "address" = Ok (VStr address) ∧ rd_code n p address = Ok code ∧
      prop_opt c "runtimeCodeHash" = VStr (keccak256 code);
  pin_owner : reads p coordinator "owner" (contract_field manifest "timelock" "address");
  pin_guardian : reads p coordinator "guardian" (Ok (prop_opt manifest "guardian"));
  pin_store : reads p coordinator "blockhashStore" (contract_field manifest "blockhashStore" "address");
  pin_key : ∃ n key, rd_key n p coordinator (to_str (prop_opt manifest "keyHash")) = Ok key ∧
    k_active key = true ∧ k_exists key = true ∧ given_as (k_fulfiller key) (Ok (prop_opt manifest "fulfiller")) ∧
    given_as (k_payee key) (Ok (prop_opt manifest "payee")) ∧
    given_as (k_verifier key) (contract_field manifest "verifier" "address")
}.

Lemma checkRuntimeCode_Ok p c n n' :
  checkRuntimeCode p c n = (Ok tt, n') →
  ∃ n address code, prop c.2 "address" = Ok (VStr address) ∧ rd_code n p address = Ok code ∧
    prop_opt c.2 "runtimeCodeHash" = VStr (keccak256 code).
Proof.
  unfold checkRuntimeCode. intros (address & (a & Ha & Ht%from_option_or_Ok)%bind_Ok & Hr)%eff_lift_bind_Ok.
  apply call_bind_Ok in Hr as (code & Hcode & [= Hr _]). apply require_Ok, strict_text in Hr.
  exists n, address, code. split_and!; try done. rewrite Ha. destruct a; try done. by injection Ht as ->.
Qed.
Lemma same_bind_Ok {B} (m : eff nat string) expected msg (k : unit → eff nat B) n b n' :
  ((v ← m; same ← eff_lift (lower_is v expected); eff_require same msg) ≫= k) n = (Ok b, n') →
  ∃ v n1, m n = (Ok v, n1) ∧ given_as v expected ∧ k tt n1 = (Ok b, n').
Proof.
  intros ([] & n2 & (v & n1 & Hv & Hr)%eff_bind_Ok & Hk)%eff_bind_Ok.
  apply eff_lift_bind_Ok in Hr as (same & Hs & [= ->%require_Ok <-]). by exists v, n1.
Qed.
Lemma checkPinned_Ok manifest coordinator p n n' :
  checkPinned manifest coordinator p n = (Ok tt, n') →
  reads p coordinator "owner" (contract_field manifest "timelock" "address") ∧
  reads p coordinator "guardian" (Ok (prop_opt manifest "guardian")) ∧
  reads p coordinator "blockhashStore" (contract_field manifest "blockhashStore" "address") ∧
  ∃ n key, rd_key n p coordinator (to_str (prop_opt manifest "keyHash")) = Ok key ∧
    k_active key = true ∧ k_exists key = true ∧ given_as (k_fulfiller key) (Ok (prop_opt manifest "fulfiller")) ∧
    given_as (k_payee key) (Ok (prop_opt manifest "payee")) ∧
    given_as (k_verifier key) (contract_field manifest "verifier" "address").
Proof.
  unfold checkPinned. cbv zeta. intros (key & Hkey & Hr)%call_bind_Ok.
  apply same_bind_Ok in Hr as (owner & n1 & [= Ho _] & So & Hr).
  apply same_bind_Ok in Hr as (guardian & n2 & [= Hg _] & Sg & Hr).
  apply same_bind_Ok in Hr as (store & n3 & [= Hs _] & Ss & Hr).
  apply eff_require_bind_Ok in Hr as [[Ha He]%andb_true_iff Hr].
  apply same_bind_Ok in Hr as (f & n4 & [= <- _] & Sf & Hr). apply same_bind_Ok in Hr as (q & n5 & [= <- _] & Sp & Hr).
  apply eff_bind_Ok in Hr as (v & n6 & [= <- _] & Hr). apply eff_lift_bind_Ok in Hr as (same & Sv & [= ->%require_Ok _]).
  split_and!; [by eexists _, _..|]. by exists n, key.
Qed.
Lemma checkCompactEndpoint_Ok manifest coordinator p n n' :
  checkCompactEndpoint manifest coordinator p n = (Ok tt, n') → pinned manifest coordinator p.
Proof.
  unfold checkCompactEndpoint. intros (chain & Hchain & Hr)%call_bind_Ok. apply eff_require_bind_Ok in Hr as [->%Z.eqb_eq Hr].
  apply eff_lift_bind_Ok in Hr as (contracts & Hc & Hr). apply eff_bind_Ok in Hr as ([] & n1 & Hall & Hr).
  apply checkPinned_Ok in Hr as (Ho & Hg & Hs & Hk). split; try done; [by eexists|].
  intros contracts' name c Hc' Hin. rewrite Hc in Hc'. injection Hc' as <-.
  destruct (eff_forM_Ok _ _ _ _ Hall _ Hin) as (s1 & s2 & Hrun). by apply checkRuntimeCode_Ok in Hrun.
Qed.

(** What a process that started was checked against. *)
Definition started (o : value) (p : compact_process) : Prop :=
  ∃ path manifest url, prop_opt o "manifest" = VStr path ∧ read_json files path = Ok manifest ∧
    validateCompactManifest manifest = Ok manifest ∧ cx_manifest p = worker_manifest_of manifest ∧
    cx_mode p ∈ ["operator"; "archiver"] ∧
    to_lower (contract_of manifest "coordinator" "address") = Ok (coordinator (cx_identity p)) ∧
    (∃ secret, readSecret e "VRF_RPC_URLS" true = Ok secret ∧
       normalizeRpcUrls (secret_value secret) {| minimum := 2; label := "V3 runtime"; allowSharedOrigin := false |} = Ok (cx_providers p)) ∧
    Forall (pinned manifest (coordinator (cx_identity p))) (cx_providers p) ∧
    checked_address (Ok (VStr (cx_relayer p))) =
      checked_address (Ok (prop_opt manifest (if bool_decide (cx_mode p = "operator") then "fulfiller" else "archiver"))) ∧
    match cx_prover p with
    | None => cx_mode p = "archiver"
    | Some prover => cx_mode p = "operator" ∧ prop_opt o "prover-url" = VStr url ∧ starts_with "https://" url = true ∧
        ∃ provider k, prover = compact_remote_prover provider k ∧ incomplete (r_tls provider) = false ∧
          absent_or_same (VStr (wm_keyHash (cx_manifest p))) (rk_keyHash k) = Ok true
    end.

(** A start gives no orders. *)
Definition same_orders (w w' : worker_world) : Prop := wk_orders w' = wk_orders w.
#[local] Instance same_orders_preorder : PreOrder same_orders.
Proof. split; [done|]. intros w1 w2 w3 E1 E2. unfold same_orders. congruence. Qed.
Lemma same_orders_rpc {A} (c : eff nat A) : keeps same_orders (on_rpc c).
Proof. intros w. unfold on_rpc. by destruct (c _). Qed.
Lemma same_orders_database {A} (c : eff database A) : keeps same_orders (on_database c).
Proof. intros w. unfold on_database. by destruct (c _). Qed.
Lemma same_orders_budget {A} (c : eff budget_world A) : keeps same_orders (on_archive_budget c).
Proof. intros w. unfold on_archive_budget. by destruct (c _). Qed.

Lemma compactStart_orders o : keeps same_orders (compactStart e files process_name o).
Proof.
  unfold compactStart. cbv zeta.
  repeat (first [apply same_orders_rpc|apply same_orders_database|apply same_orders_budget|by apply keeps_lift, _
    |by apply keeps_ret, _|apply keeps_bind; [apply _| |intros ?]|case_bool_decide]).
Qed.

Lemma read_optional_some {A} (m : result A) (x : option A) : read_optional (Some m) = Ok x → is_Some x.
Proof. unfold read_optional. intros (a & _ & [= <-])%bind_Ok. by eexists. Qed.
Lemma remoteProver_Ok o keyHash n prover n' :
  remoteProver e files o keyHash n = (Ok prover, n') →
  ∃ url provider k, prop_opt o "prover-url" = VStr url ∧ starts_with "https://" url = true ∧
    prover = compact_remote_prover provider k ∧ incomplete (r_tls provider) = false ∧
    absent_or_same (VStr keyHash) (rk_keyHash k) = Ok true.
Proof.
  unfold remoteProver. cbv zeta. intros [Hg Hr]%eff_require_bind_Ok. rewrite !andb_true_iff, !bool_decide_eq_true in Hg.
  destruct Hg as (((Hu & [f1 E1]) & [f2 E2]) & [f3 E3]).
  apply eff_lift_bind_Ok in Hr as (token & _ & Hr). apply eff_lift_bind_Ok in Hr as (provider & Hp & Hr).
  apply eff_bind_Ok in Hr as (k & n1 & Hk & [= <- _]).
  exists (text_of (prop_opt o "prover-url")), provider, k. split_and!; try done.
  - destruct (prop_opt o "prover-url"); done.
  - unfold newRemoteProvider in Hp. cbn [rp_baseUrl rp_clientCertificatePath rp_clientKeyPath rp_caCertificatePath] in Hp.
    rewrite E1, E2, E3 in Hp. cbn [fmap option_fmap option_map] in Hp. apply bind_Ok in Hp as (base & _ & Hp).
    apply bind_Ok in Hp as (c1 & [x1 ->]%read_optional_some & Hp). apply bind_Ok in Hp as (c2 & [x2 ->]%read_optional_some & Hp).
    by apply bind_Ok in Hp as (c3 & [x3 ->]%read_optional_some & [= <-]).
  - unfold initializeRemote in Hk. apply eff_bind_Ok in Hk as (status & n2 & _ & [= Hk _]). unfold statusKey in Hk.
    do 4 (apply bind_Ok in Hk as (? & _ & Hk)). apply bind_Ok in Hk as (? & _ & Hk).
    apply bind_Ok in Hk as (same & Hs & Hk). apply bind_Ok in Hk as (? & ->%require_Ok & [= <-]). done.
Qed.

Lemma to_lower_idem v s : to_lower v = Ok s → lower s = s.
Proof. destruct v; try done. intros [= <-]. apply lower_idem. Qed.
Lemma compactStart_Ok o w p w' : compactStart e files process_name o w = (Ok p, w') → started o p.
Proof.
  unfold compactStart. cbv zeta. set (mode := text_of _). intros [Hm Hr]%eff_require_bind_Ok.
  rewrite !andb_true_iff, bool_decide_eq_true in Hm. destruct Hm as (((Hmode & _) & _) & _).
  apply eff_lift_bind_Ok in Hr as (path & Hpath & Hr). apply eff_lift_bind_Ok in Hr as (manifest & Hman & Hr).
  apply eff_lift_bind_Ok in Hr as (manifest' & Hv & Hr).
  assert (manifest' = manifest) as ->.
  { clear Hr. unfold validateCompactManifest in Hv. do 5 (apply bind_Ok in Hv as (? & _ & Hv)). by injection Hv. }
  apply eff_lift_bind_Ok in Hr as (secret & Hsec & Hr). apply eff_lift_bind_Ok in Hr as (providers & Hurls & Hr).
  apply eff_lift_bind_Ok in Hr as (key & _ & Hr). apply eff_lift_bind_Ok in Hr as (relayer & _ & Hr).
  apply eff_lift_bind_Ok in Hr as (address & Ha & Hr). apply eff_lift_bind_Ok in Hr as (role & Hrole & Hr).
  apply eff_require_bind_Ok in Hr as [->%bool_decide_eq_true Hr].
  apply eff_lift_bind_Ok in Hr as (coordinator & Hcoordinator & Hr). apply eff_lift_bind_Ok in Hr as (keyHash & _ & Hr).
  apply eff_lift_bind_Ok in Hr as (maximumWei & _ & Hr). apply eff_bind_Ok in Hr as ([] & w1 & _ & Hr).
  apply eff_bind_Ok in Hr as ([] & w2 & Hall & Hr). apply eff_lift_bind_Ok in Hr as (database & _ & Hr).
  apply eff_lift_bind_Ok in Hr as (i & Hi & Hr).
  apply eff_bind_Ok in Hr as ([] & w3 & _ & Hr). apply eff_bind_Ok in Hr as ([] & w4 & _ & Hr).
  apply eff_bind_Ok in Hr as ([] & w5 & _ & Hr). apply eff_bind_Ok in Hr as (prover & w6 & Hprover & [= <- _]).
  exists path, manifest. apply from_option_or_Ok in Hpath.
  assert (prop_opt o "manifest" = VStr path) as Epath by (unfold as_string in Hpath; repeat case_match; congruence).
  apply on_rpc_Ok in Hall as [Hall _].
  assert (OperatorStore.coordinator i = coordinator) as Ei.
  { unfold normalizeIdentity in Hi. apply bind_Ok in Hi as (? & _ & [= <-]). cbn. by apply to_lower_idem in Hcoordinator. }
  assert (Forall (pinned manifest (OperatorStore.coordinator i)) providers) as Hpins.
  { rewrite Ei. apply Forall_forall. intros q Hq. destruct (eff_forM_Ok _ _ _ _ Hall _ Hq) as (s1 & s2 & Hrun).
    by apply checkCompactEndpoint_Ok in Hrun. }
  case_bool_decide as Eop.
  - apply eff_bind_Ok in Hprover as (q & w7 & [Hq _]%on_rpc_Ok & [= <- _]).
    destruct (remoteProver_Ok _ _ _ _ _ Hq) as (url & provider & k & Hurl & Hpre & Eprover & Htls & Hsame). exists url.
    split_and!; try done; cbn [cx_mode cx_providers cx_prover cx_relayer cx_identity].
    + by rewrite Ei.
    + by exists secret.
    + rewrite Ha, <-Hrole. by rewrite ?bool_decide_true by done.
    + split_and!; try done. by exists provider, k.
  - injection Hprover as <- _. exists "".
    split_and!; try done; cbn [cx_mode cx_providers cx_prover cx_relayer cx_identity].
    + by rewrite Ei.
    + by exists secret.
    + rewrite Ha, <-Hrole. by rewrite ?bool_decide_false by done.
    + set_solver.
Qed.

(** ** The loop *)

Hypothesis send_quiet : ∀ q, keeps quiet (sendPostgres q).
#[local] Instance quiet_preorder : PreOrder quiet.
Proof. split; [by split|]. intros w1 w2 w3. apply quiet_trans. Qed.
Lemma runtimeSend_quiet providers address o : keeps quiet (runtimeSend providers address sendPostgres o).
Proof.
  unfold runtimeSend. apply keeps_bind; [apply _|by apply keeps_lift, _|]. intros amount.
  apply keeps_bind; [apply _|by apply keeps_lift, _|]. intros _. apply send_quiet.
Qed.
Lemma compactTurn_ordering p : keeps (ordering (cx_providers p) (cx_manifest p)) (compactTurn sendPostgres p).
Proof.
  unfold compactTurn. cbv zeta. case_bool_decide; [apply archiverTurn_ordering|apply operatorTurn_ordering];
    intros; apply runtimeSend_quiet.
Qed.
Lemma compactLoop_ordering p turns : keeps (on_world (ordering (cx_providers p) (cx_manifest p))) (compactLoop sendPostgres p turns).
Proof.
  assert (∀ data, keeps (on_world (ordering (cx_providers p) (cx_manifest p))) (write_compact_health p data)) as Hwrite.
  { intros data. unfold write_compact_health. apply keeps_bind; [apply _|by intros w; reflexivity|]. intros w.
    apply keeps_bind; [apply _|apply keeps_in_loop, ordering_budget; apply _|]. intros record. apply keeps_write_health, _. }
  induction turns as [|turns IH]; cbn [compactLoop]; [by apply keeps_ret, _|].
  apply keeps_bind; [apply _| |intros [|]; [by apply keeps_ret, _|exact IH]].
  unfold compactLoopTurn. apply keeps_catch; [apply _| |].
  - apply keeps_bind; [apply _|apply keeps_in_loop, compactTurn_ordering; apply _|]. intros [okay stats].
    apply keeps_bind; [apply _|apply Hwrite|]. intros _. by apply keeps_ret, _.
  - intros error. apply keeps_bind; [apply _|apply Hwrite|]. intros _.
    case_match; [by apply keeps_throw, _|by apply keeps_ret, _].
Qed.

(** C32: a process of the compact coordinator, with any number of turns: when it orders a
    transaction at all, it had started, so that at each of its two or more different
    endpoints the chain, the code of every contract of the validated manifest, the
    owner, the guardian, the store and the active key were those of the manifest, its
    own key is that of the role of its mode, and an operator has a prover behind
    mutual TLS that answers for the manifest's key; and every order is for a request
    that all endpoints committed to as pending, as a prepared fulfilment or expiry or
    a justified archive. *)
Theorem compact_process_sound o turns w r w' :
  runCompact e files process_name sendPostgres o turns w = (r, w') →
  ∃ new, wk_orders (lw_world w') = wk_orders (lw_world w) ++ new ∧
    (new = [] ∨ ∃ p start, started o p ∧
       Forall (sound (cx_providers p) (cx_manifest p) start (wk_calls (lw_world w'))) new).
Proof.
  unfold runCompact, mbind, eff_bind. intros Hr.
  destruct (in_loop (compactStart e files process_name o) w) as [[p|m] w1] eqn:Estart; unfold in_loop in Estart;
    pose proof (compactStart_orders o (lw_world w)) as Hsame;
    destruct (compactStart e files process_name o (lw_world w)) as [r1 v1] eqn:Ev; injection Estart as -> <-;
    unfold same_orders in Hsame; cbn [snd] in Hsame.
  - apply compactStart_Ok in Ev as Hstarted. pose proof (compactLoop_ordering p turns {| lw_world := v1; lw_health := lw_health w |}) as Hloop.
    rewrite Hr in Hloop. destruct Hloop as [_ (new & Eo & Hsound)]. cbn [lw_world snd] in Eo, Hsound. rewrite Hsame in Eo.
    exists new. split; [done|]. right. by exists p, (wk_calls v1).
  - injection Hr as _ <-. exists []. rewrite app_nil_r. split; [exact Hsame|by left].
Qed.

(** ** The health record *)

Lemma spread_absent v data k : k ∉ keys data → prop_opt (spread v data) k = prop_opt v k.
Proof.
  unfold spread. revert v. induction data as [|[k' x] data IH]; intros v Hk; [done|]. cbn in Hk |- *.
  apply not_elem_of_cons in Hk as [Hne Hk]. rewrite IH by done. by apply prop_opt_set_prop_ne.
Qed.
Lemma spread_given fs data1 k x data2 :
  k ∉ keys data2 → prop_opt (spread (VObj fs) (data1 ++ (k, x) :: data2)) k = x.
Proof.
  intros Hk. unfold spread. rewrite foldl_app. cbn [foldl fst snd].
  change (foldl _ ?v data2) with (spread v data2). rewrite spread_absent by done.
  assert (∃ fs', foldl (λ v kv, set_prop v kv.1 kv.2) (VObj fs) data1 = VObj fs') as [fs' ->]; [|apply prop_opt_set_prop].
  clear. revert fs. induction data1 as [|[k' y] data1 IH]; intros fs; [by eexists|]. apply IH.
Qed.

(** What the budget says of the process. *)
Definition budget_fine (b : budget_world) : Prop :=
  let at_key k := prop_opt (bw_state b) k in
  truthy (at_key "coverageGap") = false ∧ truthy (at_key "budgetBlocked") = false ∧
  has_items (at_key "missedRequestIds") = false ∧ has_items (at_key "reviewRequestIds") = false ∧
  ∃ left, (remaining b).1 = Ok left ∧ 0 < left.
Lemma remaining_same b : (remaining b).2 = b.
Proof. unfold remaining, mbind, eff_bind, get_state, eff_lift. repeat case_match; simplify_eq; done. Qed.
Lemma budgetOkay_spec b okay b' : budgetOkay b = (Ok okay, b') → b' = b ∧ (okay = true ↔ budget_fine b).
Proof.
  unfold budgetOkay. intros (gap & ? & [= <- <-] & Hr)%eff_bind_Ok. apply eff_bind_Ok in Hr as (blocked & ? & [= <- <-] & Hr).
  apply eff_bind_Ok in Hr as (missed & ? & [= <- <-] & Hr). apply eff_bind_Ok in Hr as (review & ? & [= <- <-] & Hr).
  unfold budget_fine. cbv zeta. destruct (truthy _); [by injection Hr as <- <-; split; [|naive_solver]|].
  destruct (truthy _); [by injection Hr as <- <-; split; [|naive_solver]|].
  destruct (has_items _); [by injection Hr as <- <-; split; [|naive_solver]|].
  destruct (has_items _); [by injection Hr as <- <-; split; [|naive_solver]|].
  cbn [orb] in Hr. apply eff_bind_Ok in Hr as (left & b1 & Hl & [= <- <-]).
  pose proof (remaining_same b) as Hs. rewrite Hl in Hs |- *. cbn [snd fst] in Hs |- *. split; [done|].
  rewrite Z.ltb_lt. split; [intros ?; split_and!; try done; by (exists left)|]. intros (_ & _ & _ & _ & left' & [= <-] & ?). done.
Qed.
Lemma beat_Ok i instanceId mode relayer stats w okay w' :
  beat i instanceId mode relayer stats w = (Ok okay, w') → okay = true ↔ budget_fine (wk_budget w').
Proof.
  unfold beat. intros (b & w1 & Hb & Hr)%eff_bind_Ok. apply eff_bind_Ok in Hr as (now & w2 & [= _ <-] & Hr).
  apply eff_bind_Ok in Hr as (u & w3 & Hd & [= <- <-]). unfold on_database in Hd. destruct (heartbeat _ _ _ _) as [r d].
  injection Hd as _ <-. cbn [wk_budget]. unfold on_archive_budget in Hb.
  destruct (budgetOkay (wk_budget w)) as [r' b'] eqn:Eb. injection Hb as -> <-. cbn [wk_budget].
  by apply budgetOkay_spec in Eb as [-> ?].
Qed.
Lemma compactTurn_Ok p w okay stats w' :
  compactTurn sendPostgres p w = (Ok (okay, stats), w') →
  (okay = true ↔ budget_fine (wk_budget w')) ∧ ("status" ∉ keys stats) ∧ ("updatedAt" ∉ keys stats).
Proof.
  unfold compactTurn. cbv zeta. case_bool_decide.
  - unfold archiverTurn. intros (s & w1 & _ & Hr)%eff_bind_Ok. cbv zeta in Hr.
    apply eff_bind_Ok in Hr as (b & w2 & Hb%beat_Ok & [= <- <- <-]). split_and!; try done; cbn; set_solver.
  - unfold operatorTurn. intros (s & w1 & _ & Hr)%eff_bind_Ok. apply eff_bind_Ok in Hr as (? & w2 & _ & Hr).
    apply eff_bind_Ok in Hr as (? & w3 & _ & Hr). apply eff_bind_Ok in Hr as (? & w4 & _ & Hr).
    apply eff_bind_Ok in Hr as (q & w5 & _ & Hr). cbv zeta in Hr.
    apply eff_bind_Ok in Hr as (b & w6 & Hb%beat_Ok & [= <- <- <-]). split; [done|].
    unfold scan_stats_fields. destruct (sc_reviewRequestIds s); cbn; split; set_solver.
Qed.

Lemma write_compact_health_Ok p data w u w' :
  truthy (cx_healthPath p) = true → write_compact_health p data w = (Ok u, w') →
  lw_world w' = lw_world w ∧ ∃ fs, lw_health w' = Some (reread (VObj fs)) ∧
    ∃ base, VObj fs = spread (VObj base) (data ++ [updated_at wk_calls (lw_world w)]).
Proof.
  intros Hp. unfold write_compact_health. intros (w0 & ? & [= <- <-] & Hr)%eff_bind_Ok.
  apply eff_bind_Ok in Hr as (record & w1 & Hrec & Hw). unfold write_health in Hw. rewrite Hp in Hw. injection Hw as _ <-.
  unfold in_loop, on_archive_budget in Hrec. cbn [lw_world lw_health].
  destruct (compact_health p data _ (wk_budget (lw_world w))) as [r b] eqn:Eh. injection Hrec as -> <-. cbn [lw_world].
  unfold compact_health in Eh. apply eff_bind_Ok in Eh as (left & b1 & Hl & Eh).
  pose proof (remaining_same (wk_budget (lw_world w))) as Hs. rewrite Hl in Hs. cbn [snd] in Hs. subst b1.
  do 4 (apply eff_bind_Ok in Eh as (? & ? & [= <- <-] & Eh)). injection Eh as <- <-. split; [by destruct w as [[]]|].
  match goal with |- context [spread (VObj ?base) ?l] => assert (∃ fs, spread (VObj base) l = VObj fs) as [fs Efs] end.
  { unfold spread. generalize (data ++ [updated_at wk_calls (lw_world w)]). intros l. clear.
    match goal with |- context [VObj ?base] => generalize base end. induction l as [|[k x] l IH]; intros base; [by eexists|]. apply IH. }
  rewrite Efs. exists fs. split; [done|]. by eexists.
Qed.

Lemma write_compact_health_Throw p data w m w' :
  write_compact_health p data w = (Throw m, w') → w' = w ∧ ¬ budget_fine (wk_budget (lw_world w')).
Proof.
  unfold write_compact_health, mbind at 1, eff_bind at 1. cbn [eff_get]. unfold in_loop, on_archive_budget, compact_health.
  pose proof (remaining_same (wk_budget (lw_world w))) as Hs. unfold mbind, eff_bind.
  destruct (remaining (wk_budget (lw_world w))) as [[left|m'] b] eqn:El; cbn [fst snd] in Hs |- *; subst b.
  - cbn. unfold write_health. case_match; intros [=].
  - intros [= _ <-]. destruct w as [[]]. split; [done|]. intros (_ & _ & _ & _ & left & El' & _).
    cbn in El, El'. by rewrite El in El'.
Qed.
Lemma write_field p before k x after w u w' :
  truthy (cx_healthPath p) = true → k ∉ keys after → k ≠ "updatedAt" → x ≠ VUndef →
  write_compact_health p (before ++ (k, x) :: after) w = (Ok u, w') →
  lw_world w' = lw_world w ∧ ∃ record, lw_health w' = Some record ∧ prop_opt record k = reread x.
Proof.
  intros Hp Hk Hne Hx (Ew & fs & Eh & base & Ebase)%write_compact_health_Ok; [|done]. split; [done|].
  eexists. split; [exact Eh|]. apply prop_opt_reread; [done|]. rewrite Ebase, <-app_assoc.
  apply (spread_given base before k x (after ++ [updated_at wk_calls (lw_world w)])).
  unfold keys. rewrite (fmap_app fst). cbn. set_solver.
Qed.
Lemma write_status p s data w u w' :
  truthy (cx_healthPath p) = true → "status" ∉ keys data →
  write_compact_health p (("status", VStr s) :: data) w = (Ok u, w') →
  lw_world w' = lw_world w ∧ ∃ record, lw_health w' = Some record ∧ prop_opt record "status" = VStr s.
Proof. intros Hp Hk. by apply (write_field p []). Qed.

(** The ids of a scan take the place of the durable ids of the budget in the record. *)
Lemma health_review_shadowed p s q ids w u w' :
  truthy (cx_healthPath p) = true → sc_reviewRequestIds s = Some ids →
  write_compact_health p (("status", VStr "unhealthy") :: scan_stats_fields s q) w = (Ok u, w') →
  ∃ record, lw_health w' = Some record ∧ prop_opt record "reviewRequestIds" = reread (id_values ids).
Proof.
  intros Hp E. unfold scan_stats_fields. rewrite E.
  intros Hw. apply (write_field p [("status", VStr "unhealthy"); ("head", VNum (sc_head s)); ("events", VNum (sc_events s))]
    "reviewRequestIds" (id_values ids)) in Hw as [_ Hw]; [exact Hw|done| |done|done]. cbn. set_solver.
Qed.

(** A turn that ends leaves a record, which is healthy exactly when the turn went well
    and the budget then has money left and nothing that a person must look at. *)
Lemma compact_health_tells p w stop w' :
  truthy (cx_healthPath p) = true → compactLoopTurn sendPostgres p w = (Ok stop, w') →
  ∃ record, lw_health w' = Some record ∧
    (prop_opt record "status" = VStr "healthy" ∨ prop_opt record "status" = VStr "unhealthy") ∧
    (prop_opt record "status" = VStr "healthy" ↔
     is_ok (compactTurn sendPostgres p (lw_world w)).1 = true ∧ budget_fine (wk_budget (lw_world w'))).
Proof.
  intros Hp. unfold compactLoopTurn, eff_catch. unfold mbind at 1, eff_bind at 1. unfold in_loop at 1.
  assert (∀ error w1, (_ ← write_compact_health p [("status", VStr "unhealthy"); ("error", error_value error)];
      if cx_once p then eff_throw error else mret false) w1 = (Ok stop, w') →
    lw_world w' = lw_world w1 ∧ ∃ record, lw_health w' = Some record ∧ prop_opt record "status" = VStr "unhealthy") as Hcatch.
  { intros error w1 (u & w2 & Ew & Hr)%eff_bind_Ok. destruct (cx_once p); [done|]. injection Hr as _ <-.
    apply write_status in Ew; [done|done|]. cbn. set_solver. }
  destruct (compactTurn sendPostgres p (lw_world w)) as [[[okay stats]|m] v] eqn:Et.
  - apply compactTurn_Ok in Et as (Hokay & Hk & _). unfold mbind at 1, eff_bind at 1.
    destruct (write_compact_health _ _ _) as [[u|m'] w2] eqn:Ew.
    + intros [= _ <-]. apply write_status in Ew as (Eworld & record & Eh & Es); [|done|done].
      exists record. cbn [lw_world] in Eworld. rewrite Eworld. split; [done|]. rewrite Es. cbn [fst is_ok].
      split; [destruct okay; auto|]. rewrite <-Hokay. destruct okay; split; try done; by intros [_ ?].
    + apply write_compact_health_Throw in Ew as [-> Hnot]. intros (Eworld & record & Eh & Es)%Hcatch.
      exists record. rewrite Eworld, Es. split; [done|]. split; [by right|]. split; [done|]. by intros [_ ?].
  - intros (_ & record & Eh & Es)%Hcatch. exists record. rewrite Es. split; [done|]. split; [by right|].
    split; [done|]. by intros [[=] _].
Qed.
End process.

(** ** An archiver that starts and archives one block *)
Section samples.
#[local] Existing Instances sample_ethers sample_ethers_laws sample_url sample_interface worker_contracts worker_clock.
#[local] Existing Instances toy_curve toy_hmac.

#[local] Instance pending_rpc : RpcSend := {|
  rpc_send := λ n p method params,
    let first := default VUndef (head params) in
    if decide (method = "eth_getBlockByNumber")
    then Ok (VObj [("hash", VStr (sample_bytes32 "c"%char)); ("number", first)])
    else if decide (method = "eth_getLogs") then Ok (VArr [sample_log])
    else rpc_send (RpcSend := sample_send_rpc) n p method params
|}.
Definition process_code : bytes := chars "code".
#[local] Instance process_chain : ReadinessApi := {|
  rd_chainId _ _ := Ok 46630; rd_blockNumber _ _ := Ok 100; rd_code _ _ _ := Ok process_code; rd_balance _ _ _ := Ok 7;
  rd_text _ _ _ _ := Ok sample_coordinator; rd_number _ _ _ _ := Ok 0;
  rd_key _ _ _ _ := Ok {| k_verifier := sample_coordinator; k_verifierCodeHash := ""; k_fulfiller := sample_coordinator;
    k_payee := sample_coordinator; k_proofDataLength := 416; k_exists := true; k_active := true |};
  rd_serverVersion _ _ := Ok VUndef; wallet_address _ := Ok (sample_address "a"%char); parseEther _ := Ok 5;
  formatEther := print_int; search_param _ _ := VUndef |}.
#[local] Instance process_http : HttpApi := {| http _ _ := TimedOut |}.
#[local] Instance process_database : DatabaseSetup := {| ds_connect _ _ := Ok tt; ds_witnessTables _ := Ok tt |}.
#[local] Instance process_disk : Archiver.StateFile := {| write_at _ := Durable |}.
#[local] Instance process_clock : ClockApi := {| date_now _ := 0; iso_string := print_int |}.

Definition process_manifest : value := VObj [
  ("format", VStr "robinhood-proof-vrf-deployment/v3"); ("chainId", VNum 46630); ("status", VStr "verified");
  ("gitCommit", VStr (of_chars (replicate 40 "a"%char)));
  ("contracts", VObj ((λ name, (name, VObj [("address", VStr sample_coordinator);
     ("runtimeCodeHash", VStr (keccak256 process_code)); ("blockNumber", VNum 90)])) <$> COMPACT_CONTRACTS));
  ("fulfiller", VStr sample_coordinator); ("archiver", VStr (sample_address "a"%char)); ("guardian", VStr sample_coordinator);
  ("payee", VStr sample_coordinator); ("keyHash", VStr (sample_bytes32 "B"%char))].
Definition process_files : file_system := {| read_json _ := Ok process_manifest; read_bytes _ := Throw "ENOENT" |}.
Definition process_environment : environment := {|
  env name := if decide (name = "VRF_RPC_URLS") then Some "https://a,https://b"
              else if decide (name = "VRF_TX_PRIVATE_KEY") then Some "0x01"
              else if decide (name = "VRF_DATABASE_URL") then Some "postgres://d" else None;
  lstat _ := Throw "ENOENT"; read_file _ := Throw "ENOENT" |}.
Definition process_options : value := VObj [
  ("mode", VStr "archiver"); ("manifest", VStr "manifest.json"); ("state", VStr "state.json");
  ("health-file", VStr "health.json"); ("maximum-total-fee-wei", VStr "1000"); ("once", VBool true)].
Definition process_send (q : send_request) : eff worker_world worker_receipt := mret {| wr_status := 1; wr_hash := "0xaa" |}.
Definition process_start : loop_world worker_world := {|
  lw_world := {| wk_calls := 0; wk_store := empty_database; wk_witnesses := ∅;
                 wk_budget := {| bw_state := VUndef; bw_file := None; bw_writes := 0 |}; wk_orders := [] |};
  lw_health := None |}.
#[local] Notation "'process_run'" :=
  (runCompact process_environment process_files "host:1" process_send process_options 3 process_start).
Lemma process_send_quiet q : keeps quiet (process_send q).
Proof. intros w. by split. Qed.

Lemma compact_process_sound_witness :
  process_run.1 = Ok true ∧ option_map (λ r, prop_opt r "status") (lw_health process_run.2) = Some (VStr "healthy") ∧
  ∃ order p start, wk_orders (lw_world process_run.2) = [order] ∧ wo_kind order = "compact-archive" ∧
    started process_environment process_files process_options p ∧
    sound (cx_providers p) (cx_manifest p) start (wk_calls (lw_world process_run.2)) order.
Proof.
  assert ((process_run.1, (wo_kind <$> wk_orders (lw_world process_run.2),
    option_map (λ r, prop_opt r "status") (lw_health process_run.2))) = (Ok true, (["compact-archive"], Some (VStr "healthy")))) as Hr by vm_refl.
  destruct process_run as [r w'] eqn:E. injection Hr as Hr Hk Hh. cbn [fst snd] in *.
  destruct (compact_process_sound _ _ _ _ process_send_quiet _ _ _ _ _ E) as (new & Enew & Hnew).
  change (wk_orders (lw_world process_start)) with (@nil worker_order) in Enew. cbn [app] in Enew. rewrite Enew in Hk.
  destruct new as [|order [|]]; [discriminate Hk| |discriminate Hk]. injection Hk as Hk.
  destruct Hnew as [[=]|(p & start & Hstarted & Hsound)].
  split; [exact Hr|]. split; [exact Hh|]. exists order, p, start. split; [exact Enew|]. split; [exact Hk|]. split; [exact Hstarted|].
  exact (Forall_inv Hsound).
Defined.
End samples.

(** ** The archiver *)

Section archiver_main.
Context `{EthersLaws, UrlApi, StateFile, ArchiveRpc, ClockApi, ReadinessApi, DatabaseSetup, FallbackArchive}.
Context (e : environment) (files : file_system) (process_name : string).
Context (sendPostgres : archive_send → eff cycle_world unit).

(** ** What a start checks *)

Definition has_code_of (manifest : value) (p name : string) : Prop :=
  ∃ n address code, contract_field manifest name "address" = Ok (VStr address) ∧ rd_code n p address = Ok code ∧
    contract_field manifest name "runtimeCodeHash" = Ok (VStr (keccak256 code)).
(** An endpoint has the chain, the code of both contracts and the store of the manifest. *)
Record archives (manifest : value) (p : string) : Prop := {
  ar_chain : ∃ n, rd_chainId n p = Ok 46630;
  ar_coordinator : has_code_of manifest p "coordinator";
  ar_blockhashStore : has_code_of manifest p "blockhashStore";
  ar_store : ∃ n coordinator store, contract_field manifest "coordinator" "address" = Ok (VStr coordinator) ∧
    rd_text n p coordinator "blockhashStore" = Ok store ∧
    checked_address (Ok (VStr store)) = checked_address (contract_field manifest "blockhashStore" "address")
}.
Lemma text_field (m : result value) (s : string) :
  (a ← m; from_option_or TYPE_ERROR (as_string a)) = Ok s → m = Ok (VStr s).
Proof.
  intros (a & -> & Ht%from_option_or_Ok)%bind_Ok. destruct a; try done. by injection Ht as ->.
Qed.
Lemma checkArchiverCode_Ok manifest p name n n' :
  checkArchiverCode manifest p name n = (Ok tt, n') → has_code_of manifest p name.
Proof.
  unfold checkArchiverCode. intros (address & Ha%text_field & Hr)%eff_lift_bind_Ok.
  apply call_bind_Ok in Hr as (code & Hcode & Hr). apply eff_lift_bind_Ok in Hr as (expected & He & [= Hr _]).
  apply require_Ok, strict_text in Hr. subst expected. by exists n, address, code.
Qed.
Lemma checkArchiverEndpoint_Ok manifest p n n' :
  checkArchiverEndpoint manifest p n = (Ok tt, n') → archives manifest p.
Proof.
  unfold checkArchiverEndpoint. intros (chain & Hchain & Hr)%call_bind_Ok. apply eff_require_bind_Ok in Hr as [->%Z.eqb_eq Hr].
  apply eff_bind_Ok in Hr as ([] & n1 & Hcodes & Hr).
  apply eff_lift_bind_Ok in Hr as (coordinator & Hc%text_field & Hr). apply call_bind_Ok in Hr as (store & Hs & Hr).
  apply eff_lift_bind_Ok in Hr as (a & Ha & Hr). apply eff_lift_bind_Ok in Hr as (b & Hb & [= Hr _]).
  apply require_Ok, bool_decide_eq_true in Hr. subst b.
  assert (∀ name, name ∈ ["coordinator"; "blockhashStore"] → has_code_of manifest p name) as Hall.
  { intros name Hin. destruct (eff_forM_Ok _ _ _ _ Hcodes _ Hin) as (s1 & s2 & Hrun). by eapply checkArchiverCode_Ok. }
  split; [by eexists|apply Hall; set_solver|apply Hall; set_solver|]. exists n1, coordinator, store. by rewrite Ha, Hb.
Qed.

(** What an archiver that started was checked against. *)
Definition archiver_started (o : value) (p : archiver_process) : Prop :=
  ∃ manifest, read_json files (to_str (prop_opt o "manifest")) = Ok manifest ∧
    prop_opt manifest "format" = VStr "robinhood-proof-vrf-deployment/v1" ∧ 2 <= ax_after p <= 64 ∧
    0 < ax_maximumGasPrice p ∧ contract_field manifest "coordinator" "address" = Ok (VStr (am_coordinator (ax_manifest p))) ∧
    prop_opt manifest "keyHash" = VStr (am_keyHash (ax_manifest p)) ∧
    Forall (archives manifest) (ax_providers p) ∧ NoDup (ax_providers p) ∧ 2 <= Z.of_nat (length (ax_providers p)).

Lemma integer_within_Ok v a b message z : integer_within v a b message = Ok z → a <= z <= b.
Proof.
  unfold integer_within. destruct (to_number v); [|done]. intros (? & [?%Z.leb_le ?%Z.leb_le]%require_Ok%andb_true_iff & [= <-])%bind_Ok. lia.
Qed.
Lemma archiverSettings_Ok o s :
  archiverSettings files o = Ok s →
  read_json files (to_str (prop_opt o "manifest")) = Ok (at_manifest s) ∧
  prop_opt (at_manifest s) "format" = VStr "robinhood-proof-vrf-deployment/v1" ∧ 2 <= at_after s <= 64 ∧ 0 < at_maximumGasPrice s.
Proof.
  unfold archiverSettings. cbv zeta. intros (? & _ & Hr)%bind_Ok. apply bind_Ok in Hr as (manifest & Hman & Hr).
  apply bind_Ok in Hr as (format & Hf & Hr). apply bind_Ok in Hr as (? & [Hs%strict_text_r _]%require_Ok%andb_true_iff & Hr).
  apply bind_Ok in Hr as (price & _ & Hr). apply bind_Ok in Hr as (after & Ha%integer_within_Ok & Hr).
  apply bind_Ok in Hr as (? & _ & Hr). apply bind_Ok in Hr as (? & Hp%require_Ok%Z.ltb_lt & [= <-]).
  cbn. split_and!; try done; try apply Ha. apply prop_prop_opt in Hf. congruence.
Qed.
Lemma on_calls_Ok {A} (c : eff nat A) w a w' : on_calls c w = (Ok a, w') → c (cw_calls w) = (Ok a, cw_calls w').
Proof. unfold on_calls. destruct (c (cw_calls w)) as [r n]. by intros [= -> <-]. Qed.
Lemma to_lower_text v s : to_lower v = Ok s → v = VStr (text_of v).
Proof. by destruct v. Qed.

Lemma archiverStart_Ok o w p w' : archiverStart e files process_name o w = (Ok p, w') → archiver_started o p.
Proof.
  unfold archiverStart. cbv zeta. intros (s & Hs%archiverSettings_Ok & Hr)%eff_lift_bind_Ok.
  apply eff_lift_bind_Ok in Hr as (secret & _ & Hr). apply eff_lift_bind_Ok in Hr as (providers & Hurls & Hr).
  apply eff_bind_Ok in Hr as ([] & w1 & Hall%on_calls_Ok & Hr). apply eff_lift_bind_Ok in Hr as (key & _ & Hr).
  apply eff_lift_bind_Ok in Hr as (relayer & _ & Hr). apply eff_lift_bind_Ok in Hr as (address & Ha & Hr).
  apply eff_lift_bind_Ok in Hr as (coordinator & Hc%to_lower_text & Hr).
  apply eff_lift_bind_Ok in Hr as (keyHash & (k & Hk & Hl%to_lower_text)%bind_Ok & Hr).
  apply eff_lift_bind_Ok in Hr as (maximumWei & _ & Hr). apply eff_bind_Ok in Hr as ([] & w2 & _ & Hr).
  apply eff_lift_bind_Ok in Hr as (database & _ & Hr). apply eff_lift_bind_Ok in Hr as (blockNumber & _ & Hr).
  apply eff_lift_bind_Ok in Hr as (i & _ & Hr). apply eff_bind_Ok in Hr as ([] & w3 & _ & [= <- _]).
  destruct Hs as (Hman & Hf & Hafter & Hprice). exists (at_manifest s). cbn [ax_after ax_maximumGasPrice ax_manifest ax_providers am_coordinator am_keyHash].
  split_and!; try done; try apply Hafter.
  - by rewrite Ha, <-Hc.
  - assert (prop_opt (at_manifest s) "keyHash" = k) as -> by (by apply prop_prop_opt in Hk). done.
  - apply Forall_forall. intros q Hq. destruct (eff_forM_Ok _ _ _ _ Hall _ Hq) as (s1 & s2 & Hrun).
    by apply checkArchiverEndpoint_Ok in Hrun.
  - by apply normalizeRpcUrls_Ok in Hurls as [? _].
  - by apply normalizeRpcUrls_Ok in Hurls as (_ & ? & _).
Qed.

(** ** Cycles *)

Hypothesis send_none : ∀ s, keeps gives_none (sendPostgres s).
#[local] Instance gives_none_preorder : PreOrder gives_none.
Proof. split; [by split|]. intros w1 w2 w3 [? ?] [? ?]. split; [lia|congruence]. Qed.
Lemma gives_none_call {A} (f : nat → result A) : keeps gives_none (on_calls (call f)).
Proof. intros w. split; [cbn; lia|done]. Qed.
Lemma sendArchive_none p o : keeps gives_none (sendArchive sendPostgres p o).
Proof.
  unfold sendArchive. cbv zeta. apply keeps_bind; [apply _|apply gives_none_call|]. intros stored.
  case_match; [by apply keeps_ret, _|]. apply keeps_bind; [apply _|apply gives_none_call|]. intros balance.
  apply keeps_bind; [apply _|by apply keeps_lift, _|]. intros _. apply keeps_bind; [apply _|by apply keeps_lift, _|]. intros tx.
  apply send_none.
Qed.
Definition same_archive_orders (w w' : cycle_world) : Prop := cw_orders w' = cw_orders w.
#[local] Instance same_archive_orders_preorder : PreOrder same_archive_orders.
Proof. split; [done|]. intros w1 w2 w3 E1 E2. unfold same_archive_orders. congruence. Qed.
Lemma archiverStart_orders o : keeps same_archive_orders (archiverStart e files process_name o).
Proof.
  assert (∀ A (c : eff nat A), keeps same_archive_orders (on_calls c)) as Hcalls by (intros A c w; unfold on_calls; by destruct (c _)).
  assert (∀ A (c : eff budget_world A), keeps same_archive_orders (on_budget c)) as Hbudget by (intros A c w; unfold on_budget; by destruct (c _)).
  unfold archiverStart. cbv zeta.
  repeat (first [apply Hcalls|apply Hbudget|by apply keeps_lift, _|by apply keeps_ret, _|apply keeps_bind; [apply _| |intros ?]]).
Qed.

#[local] Abbreviation gives p := (ordered (ax_providers p) (ax_manifest p) (ax_after p)).
Lemma archiverLoop_ordered p turns : keeps (on_world (gives p)) (archiverLoop sendPostgres p turns).
Proof.
  induction turns as [|turns IH]; cbn [archiverLoop]; [by apply keeps_ret, _|].
  apply keeps_bind; [apply _| |intros [|]; [by apply keeps_ret, _|exact IH]].
  unfold archiverLoopTurn. apply keeps_catch; [apply _| |].
  - apply keeps_bind; [apply _|apply keeps_in_loop|].
    { intros w. destruct (archiveCycle _ _ _ _ w) as [r w'] eqn:E. cbn [snd].
      eapply archiveCycle_ordered; [|exact E]. intros; apply sendArchive_none. }
    intros stats. apply keeps_bind; [apply _|by intros w; reflexivity|]. intros w.
    apply keeps_bind; [apply _|apply keeps_in_loop, ordered_budget; apply _|]. intros record.
    apply keeps_bind; [apply _|apply keeps_write_health, _|]. intros _. by apply keeps_ret, _.
  - intros error. apply keeps_bind; [apply _|by intros w; reflexivity|]. intros w.
    apply keeps_bind; [apply _|apply keeps_write_health, _|]. intros _. case_match; [by apply keeps_throw, _|by apply keeps_ret, _].
Qed.

(** C30: a process of the archiver, with any number of cycles: when it orders an archive at
    all, it had started, so that its two or more different endpoints have the chain, the
    code of both contracts and the store of the manifest; and each order is justified:
    while the process ran each endpoint answered that the request is pending under the
    service's key, with the block and the price of the order, and that the store has
    no hash of the block, and the greatest height that the endpoints then gave is at
    least the waiting time, of 2 to 64 blocks, and at most 256 blocks above the block. *)
Theorem archiver_process_sound o turns w r w' :
  runArchiver e files process_name sendPostgres o turns w = (r, w') →
  ∃ new, cw_orders (lw_world w') = cw_orders (lw_world w) ++ new ∧
    (new = [] ∨ ∃ p start, archiver_started o p ∧
       Forall (warranted (ax_providers p) (ax_manifest p) (ax_after p) start (cw_calls (lw_world w'))) new).
Proof.
  unfold runArchiver, mbind, eff_bind. intros Hr.
  destruct (in_loop (archiverStart e files process_name o) w) as [[p|m] w1] eqn:Estart; unfold in_loop in Estart;
    pose proof (archiverStart_orders o (lw_world w)) as Hsame;
    destruct (archiverStart e files process_name o (lw_world w)) as [r1 v1] eqn:Ev; injection Estart as -> <-;
    unfold same_archive_orders in Hsame; cbn [snd] in Hsame.
  - apply archiverStart_Ok in Ev as Hstarted. pose proof (archiverLoop_ordered p turns {| lw_world := v1; lw_health := lw_health w |}) as Hloop.
    rewrite Hr in Hloop. destruct Hloop as [_ (new & Eo & Hw)]. cbn [lw_world snd] in Eo, Hw. rewrite Hsame in Eo.
    exists new. split; [done|]. right. by exists p, (cw_calls v1).
  - injection Hr as _ <-. exists []. rewrite app_nil_r. split; [exact Hsame|by left].
Qed.

(** ** The health record *)

Definition archiver_fine (b : budget_world) : Prop :=
  let at_key k := prop_opt (bw_state b) k in
  truthy (at_key "coverageGap") = false ∧ truthy (at_key "budgetBlocked") = false ∧
  has_items (at_key "missedRequestIds") = false ∧ ∃ left, (remaining b).1 = Ok left ∧ 0 < left.

Definition record_of (b : bool) (rest : list (string * value)) : value :=
  VObj (("status", VStr (if b then "healthy" else "unhealthy")) :: rest).
Lemma record_status b rest : prop_opt (reread (record_of b rest)) "status" = VStr (if b then "healthy" else "unhealthy").
Proof. apply (prop_opt_reread _ "status" (VStr _)); done. Qed.
Lemma archiver_health_spec p s now b :
  (archiver_health p s now b).2 = b ∧
  match (archiver_health p s now b).1 with
  | Ok record => ∃ healthy rest, record = record_of healthy rest ∧
      (healthy = true ↔ as_missedWindow s = 0 ∧ as_errors s = [] ∧ archiver_fine b)
  | Throw _ => ¬ archiver_fine b
  end.
Proof.
  unfold archiver_health, mbind, eff_bind, get_state. pose proof (remaining_same b) as Hs.
  destruct (remaining b) as [[left|m] b'] eqn:El; cbn [snd fst] in Hs |- *; subst b'; (split; [done|]).
  - eexists _, _. split; [done|]. rewrite !andb_true_iff, !negb_true_iff, bool_decide_eq_true, Z.eqb_eq, Z.ltb_lt.
    unfold archiver_fine. rewrite El.
    split; [intros (((((? & ?) & ?) & ?) & ?) & ?); split_and!; try done; by (exists left)|].
    intros (? & ? & ? & ? & ? & ? & [= <-] & ?). by split_and!.
  - intros (_ & _ & _ & left & El' & _). by rewrite El in El'.
Qed.

(** A cycle that ends leaves a record, which is healthy exactly when the cycle went well,
    missed no request and met no error, and the budget then has money left, no gap and
    no missed request of before. *)
Lemma archiver_health_tells p w stop w' :
  truthy (ax_healthPath p) = true → archiverLoopTurn sendPostgres p w = (Ok stop, w') →
  ∃ record, lw_health w' = Some record ∧
    (prop_opt record "status" = VStr "healthy" ↔
     ∃ stats, (archiveCycle (ax_providers p) (ax_manifest p) (sendArchive sendPostgres p) (ax_after p) (lw_world w)).1 = Ok stats ∧
       as_missedWindow stats = 0 ∧ as_errors stats = [] ∧ archiver_fine (cw_budget (lw_world w'))).
Proof.
  intros Hp. unfold archiverLoopTurn, eff_catch. unfold mbind at 1, eff_bind at 1. unfold in_loop at 1.
  assert (∀ error w1, (w0 ← eff_get; _ ← write_health (ax_healthPath p) (archiver_problem p error (updated_at cw_calls (lw_world w0)));
      if ax_once p then eff_throw error else mret false) w1 = (Ok stop, w') →
    lw_world w' = lw_world w1 ∧ ∃ rest, lw_health w' = Some (reread (record_of false rest))) as Hcatch.
  { intros error w1. unfold mbind, eff_bind, eff_get, write_health. rewrite Hp. cbn [eff_modify].
    destruct (ax_once p); [done|]. intros [= _ <-]. split; [done|].
    by exists [("mode", VStr "independent-archiver"); ("instanceId", VStr (ax_instanceId p)); ("error", error_value error);
      updated_at cw_calls (lw_world w1)]. }
  destruct (archiveCycle _ _ _ _ (lw_world w)) as [[stats|m] v] eqn:Ec.
  - unfold mbind at 1, eff_bind at 1. cbn [eff_get]. unfold mbind at 1, eff_bind at 1. unfold in_loop at 1, on_budget. cbn [lw_world lw_health].
    pose proof (archiver_health_spec p stats (updated_at cw_calls v) (cw_budget v)) as [Hb Hspec].
    destruct (archiver_health p stats (updated_at cw_calls v) (cw_budget v)) as [[record|m] b]; cbn [snd fst] in Hb, Hspec; subst b.
    + destruct Hspec as (healthy & rest & -> & Hiff). unfold mbind, eff_bind, write_health. rewrite Hp. cbn [eff_modify].
      intros [= _ <-]. exists (reread (record_of healthy rest)). split; [done|]. rewrite record_status. cbn [fst lw_world cw_budget].
      transitivity (healthy = true); [by destruct healthy|]. rewrite Hiff. naive_solver.
    + intros (Ew & rest & Eh)%Hcatch. exists (reread (record_of false rest)). rewrite record_status. split; [done|].
      split; [done|]. rewrite Ew. intros (? & _ & _ & _ & Hfine). cbn [lw_world cw_budget] in Hfine. done.
  - intros (_ & rest & Eh)%Hcatch. exists (reread (record_of false rest)). rewrite record_status. split; [done|].
    split; [done|]. by intros (? & [=] & _).
Qed.
End archiver_main.

(** ** An archiver that starts and orders one archive *)
Section archiver_samples.
#[local] Existing Instances sample_ethers sample_ethers_laws sample_url sample_archive_rpc process_disk process_database process_clock process_chain.
#[local] Instance archiver_fallback : FallbackArchive := {|
  fa_storedHash _ _ _ _ := Ok ZERO; fa_balance _ _ _ := Ok ARCHIVER_FLOOR; fa_populate _ _ := Ok VUndef |}.

Definition archiver_manifest : value := VObj [
  ("format", VStr "robinhood-proof-vrf-deployment/v1"); ("chainId", VNum 46630);
  ("keyHash", VStr (r_keyHash NodeSafety.sample_request));
  ("contracts", VObj ((λ name, (name, VObj [("address", VStr sample_coordinator);
     ("runtimeCodeHash", VStr (keccak256 process_code)); ("blockNumber", VNum 1)])) <$> ["coordinator"; "blockhashStore"]))].
Definition archiver_files : file_system := {| read_json _ := Ok archiver_manifest; read_bytes _ := Throw "ENOENT" |}.
Definition archiver_options : value := VObj [
  ("manifest", VStr "manifest.json"); ("state", VStr "state.json"); ("health-file", VStr "health.json");
  ("maximum-total-fee-wei", VStr "1000"); ("once", VBool true)].
Definition archiver_send (s : archive_send) : eff cycle_world unit := mret tt.
Definition archiver_world : loop_world cycle_world := {|
  lw_world := {| cw_calls := 0; cw_budget := {| bw_state := VUndef; bw_file := None; bw_writes := 0 |};
                 cw_stats := cw_stats sample_cycle_world; cw_orders := [] |};
  lw_health := None |}.
#[local] Notation "'archiver_run'" :=
  (runArchiver process_environment archiver_files "host:1" archiver_send archiver_options 3 archiver_world).
Lemma archiver_send_none s : keeps gives_none (archiver_send s).
Proof. intros w. by split. Qed.

Lemma archiver_process_sound_witness :
  archiver_run.1 = Ok true ∧ option_map (λ r, prop_opt r "status") (lw_health archiver_run.2) = Some (VStr "healthy") ∧
  ∃ order p start, cw_orders (lw_world archiver_run.2) = [order] ∧ archiver_started archiver_files archiver_options p ∧
    warranted (ax_providers p) (ax_manifest p) (ax_after p) start (cw_calls (lw_world archiver_run.2)) order.
Proof.
  assert ((archiver_run.1, (length (cw_orders (lw_world archiver_run.2)),
    option_map (λ r, prop_opt r "status") (lw_health archiver_run.2))) = (Ok true, (1%nat, Some (VStr "healthy")))) as Hr by vm_refl.
  destruct archiver_run as [r w'] eqn:E. injection Hr as Hr Hk Hh. cbn [fst snd] in *.
  destruct (archiver_process_sound _ _ _ _ archiver_send_none _ _ _ _ _ E) as (new & Enew & Hnew).
  change (cw_orders (lw_world archiver_world)) with (@nil archive_order) in Enew. cbn [app] in Enew. rewrite Enew in Hk.
  destruct new as [|order [|]]; [discriminate Hk| |discriminate Hk].
  destruct Hnew as [[=]|(p & start & Hstarted & Hw)].
  split; [exact Hr|]. split; [exact Hh|]. exists order, p, start. split; [exact Enew|]. split; [exact Hstarted|].
  exact (Forall_inv Hw).
Defined.
End archiver_samples.
