(* ===== verification/Governance.v ===== *)
(** * The administration: the timelock ([contracts/VRFAdminTimelock.sol]) and its plans
    ([scripts/prepare-register-threshold.mjs], [scripts/prepare-accept-ownership.mjs])

    The timelock owns the coordinator: a call is scheduled by the timelock's owner, may
    be cancelled, and can be made by anyone after the delay, once, within a week.  A call
    that reverts leaves the state; the called contract may call the timelock back.
    How the owner changes is the code of a library: it may, between any two calls.

    The plans are the transactions that register a threshold key, or accept the
    ownership of the coordinator, through the timelock: what is checked before they are
    printed, and the two calls of a plan.  The endpoint and the encoding of calls are
    parameters; calls that the code makes together are made in order. *)

From stdpp Require Import gmap.
From S2P Require Import Prelude Js Hex CanonicalJson Vendor ThresholdCrypto ThresholdGroup Policies ErrorText Archiver CommandLine Readiness SoakReport SourceVerification DeploymentCheck ThresholdCheck.

Open Scope Z_scope.

(** ** The timelock *)

Definition MIN_DELAY : Z := 12 * 60 * 60.
Definition MAX_DELAY : Z := 30 * 24 * 60 * 60.
Definition EXECUTION_WINDOW : Z := 7 * 24 * 60 * 60.

Record timelock_operation := { op_executeAfter : Z; op_executed : bool; op_cancelled : bool }.
(** The chain and the contract's address, its settings and its storage. *)
Record timelock := {
  tl_chainId : Z; tl_address : string; tl_owner : string; tl_delay : Z;
  tl_nonce : Z; tl_operations : gmap string timelock_operation
}.
Definition set_operation (id : string) (op : timelock_operation) (t : timelock) : timelock := {|
  tl_chainId := tl_chainId t; tl_address := tl_address t; tl_owner := tl_owner t; tl_delay := tl_delay t;
  tl_nonce := tl_nonce t; tl_operations := <[id := op]> (tl_operations t) |}.
Definition set_owner (owner : string) (t : timelock) : timelock := {|
  tl_chainId := tl_chainId t; tl_address := tl_address t; tl_owner := owner; tl_delay := tl_delay t;
  tl_nonce := tl_nonce t; tl_operations := tl_operations t |}.
(** An operation that was never scheduled is zero. *)
Definition operation_of (id : string) (t : timelock) : timelock_operation :=
  default {| op_executeAfter := 0; op_executed := false; op_cancelled := false |} (tl_operations t !! id).

(** A call that is scheduled or executed. *)
Record admin_call := { ac_target : string; ac_value : Z; ac_data : bytes }.

Section timelock.
Context `{Ethers}.

(** The constructor; the owner is not zero, nor is it for the library. *)
Definition newTimelock (chain : Z) (address owner : string) (delaySeconds : Z) : result timelock :=
  _ ← require (negb (bool_decide (owner = "0x" +:+ of_chars (replicate 40 "0"%char)))) "InvalidTarget";
  _ ← require ((MIN_DELAY <=? delaySeconds) && (delaySeconds <=? MAX_DELAY)) "InvalidDelay";
  Ok {| tl_chainId := chain; tl_address := address; tl_owner := owner; tl_delay := delaySeconds;
        tl_nonce := 0; tl_operations := ∅ |}.

Definition hashOperation (t : timelock) (operationNonce : Z) (c : admin_call) : string :=
  keccak256 (abi_encode ["uint256"; "address"; "uint256"; "address"; "uint256"; "bytes32"]
    [VBig (tl_chainId t); VStr (tl_address t); VBig operationNonce; VStr (ac_target c); VBig (ac_value c);
     VStr (keccak256 (ac_data c))]).

Section calls.
(** Which addresses have code, the time of the block and the sender. *)
Context (deployed : string → bool) (now : Z) (sender : string).

Definition schedule (c : admin_call) (t : timelock) : result (string * timelock) :=
  _ ← require (bool_decide (sender = tl_owner t)) "OwnableUnauthorizedAccount";
  _ ← require (deployed (ac_target c)) "InvalidTarget";
  let operationNonce := tl_nonce t + 1 in
  _ ← require (operationNonce <? 2 ^ 256) "Panic";
  let operationId := hashOperation t operationNonce c in
  _ ← require (now + tl_delay t <? 2 ^ 256) "Panic";
  let executeAfter := (now + tl_delay t) mod 2 ^ 64 in
  let counted := {|
    tl_chainId := tl_chainId t; tl_address := tl_address t; tl_owner := tl_owner t; tl_delay := tl_delay t;
    tl_nonce := operationNonce; tl_operations := tl_operations t |} in
  Ok (operationId, set_operation operationId
        {| op_executeAfter := executeAfter; op_executed := false; op_cancelled := false |} counted).

Definition is_open (op : timelock_operation) : bool :=
  negb ((op_executeAfter op =? 0) || op_executed op || op_cancelled op).
Definition cancel (operationId : string) (t : timelock) : result timelock :=
  _ ← require (bool_decide (sender = tl_owner t)) "OwnableUnauthorizedAccount";
  let op := operation_of operationId t in
  _ ← require (is_open op) "InvalidOperation";
  Ok (set_operation operationId {| op_executeAfter := op_executeAfter op; op_executed := op_executed op;
                                   op_cancelled := true |} t).

(** [execute] up to the call of the target. *)
Definition begin_execute (operationNonce : Z) (c : admin_call) (t : timelock) : result timelock :=
  _ ← require (deployed (ac_target c)) "InvalidTarget";
  let operationId := hashOperation t operationNonce c in
  let op := operation_of operationId t in
  _ ← require (is_open op) "InvalidOperation";
  _ ← require (op_executeAfter op <=? now) "OperationNotReady";
  _ ← require (now <=? op_executeAfter op + EXECUTION_WINDOW) "OperationExpired";
  Ok (set_operation operationId {| op_executeAfter := op_executeAfter op; op_executed := true;
                                   op_cancelled := op_cancelled op |} t).
End calls.

(** ** Histories *)

(** The calls of the timelock that did not revert, with their times; a call of a target
    is noted when it starts, and the target may call back before it ends. *)
Inductive timelock_event :=
  | Scheduled (at_time : Z) (id : string)
  | Cancelled (id : string)
  | Called (at_time : Z) (id : string) (c : admin_call).

Inductive timelock_run (deployed : string → bool) : timelock → list timelock_event → timelock → Prop :=
  | run_none t : timelock_run deployed t [] t
  | run_owner owner t events t' :
      timelock_run deployed (set_owner owner t) events t' → timelock_run deployed t events t'
  | run_schedule now sender c t id t1 events t2 :
      schedule deployed now sender c t = Ok (id, t1) → timelock_run deployed t1 events t2 →
      timelock_run deployed t (Scheduled now id :: events) t2
  | run_cancel sender id t t1 events t2 :
      cancel sender id t = Ok t1 → timelock_run deployed t1 events t2 →
      timelock_run deployed t (Cancelled id :: events) t2
  | run_execute now nonce c t t1 inner t2 events t3 :
      begin_execute deployed now nonce c t = Ok t1 →
      timelock_run deployed t1 inner t2 →           (* what the target does *)
      timelock_run deployed t2 events t3 →
      timelock_run deployed t (Called now (hashOperation t nonce c) c :: inner ++ events) t3.
End timelock.

(** ** The plans *)

Class GovernanceApi := {
  gv_keyExists : nat → string → string → string → result bool;                       (* coordinator *)
  gv_hashOperation : nat → string → string → Z → admin_call → result string;         (* timelock *)
  encodeFunctionData : string → list value → result bytes
}.

Record governance_transaction := { gt_to : string; gt_value : string; gt_data : bytes }.
(** What both plans have: the operation of the timelock and its two transactions. *)
Record governance_plan := {
  gp_governanceSafe : string; gp_delay : Z; gp_operationNonce : Z; gp_operationId : string;
  gp_call : admin_call;                       (* what is scheduled *)
  gp_schedule : governance_transaction; gp_execute : governance_transaction
}.
Record registration_plan := {
  rg_chainId : Z; rg_manifestHash : string; rg_keyHash : string; rg_adapter : string; rg_coordinator : string;
  rg_fulfiller : string; rg_payee : string; rg_plan : governance_plan
}.

Section plans.
Context `{Ethers, NobleBls, !NodeCrypto, UrlApi, ReadinessApi, VerifierApi, GovernanceApi}.
Context (files : file_system).

Definition plan_json (path : value) (name : string) : result value :=
  match path with
  | VStr p => if bool_decide (p = "") then Throw (name +:+ " path is required") else read_json files p
  | _ => Throw (name +:+ " path is required")
  end.

(** [/^\d+$/] and the number, within the field of the contract. *)
Definition unsigned (v : value) (name : string) (maximum : Z) : result Z :=
  let text := to_str v in
  _ ← require (negb (bool_decide (text = "")) && forallb is_digit (chars text)) (name +:+ " must be an unsigned integer");
  parsed ← to_bigint v;
  _ ← require (parsed <=? maximum) (name +:+ " exceeds its contract field"); Ok parsed.

(** ** The two transactions of an operation *)

Definition call_args (c : admin_call) : list value :=
  [VStr (ac_target c); VBig (ac_value c); VStr (hexlify (ac_data c))].
Definition operationPlan (url timelock safe : string) (delay currentNonce : Z) (c : admin_call)
    : eff nat governance_plan :=
  let operationNonce := currentNonce + 1 in
  operationId ← call (λ n, gv_hashOperation n url timelock operationNonce c);
  scheduleData ← eff_lift (encodeFunctionData "schedule" (call_args c));
  executeData ← eff_lift (encodeFunctionData "execute" (VBig operationNonce :: call_args c));
  mret {| gp_governanceSafe := safe; gp_delay := delay; gp_operationNonce := operationNonce;
          gp_operationId := operationId; gp_call := c;
          gp_schedule := {| gt_to := timelock; gt_value := "0"; gt_data := scheduleData |};
          gp_execute := {| gt_to := timelock; gt_value := "0"; gt_data := executeData |} |}.

(** ** The registration of a threshold key *)

(** [report.format === f && report.status === ''pass'' && BigInt(report.chainId) === chain],
    where the conditions are asked one after the other. *)
Definition report_passes (report : value) (format : string) (chain : Z) : result bool :=
  all_of [(f ← prop report "format"; Ok (strict_eq f (VStr format)));
          Ok (strict_eq (prop_opt report "status") (VStr "pass"));
          (c ← to_bigint (prop_opt report "chainId"); Ok (c =? chain))].

Definition checkVerifier (o : value) (chain : Z) (g : group) : result (value * string) :=
  verifierManifest ← plan_json (prop_opt o "verifier-manifest") "threshold verifier manifest";
  verifierVerification ← plan_json (prop_opt o "verifier-verification-report") "threshold verifier verification report";
  deployed ← all_of [
    (f ← prop verifierManifest "format"; Ok (strict_eq f (VStr "robinhood-proof-vrf-threshold-verifier-deployment/v1")));
    (c ← to_bigint (prop_opt verifierManifest "chainId"); Ok (c =? chain));
    Ok (strict_eq (prop_opt (prop_opt verifierManifest "precompileInterop") "status") (VStr "pass"))];
  _ ← require deployed "threshold verifier deployment manifest is invalid or has no precompile pass";
  verified ← all_of [
    report_passes verifierVerification "robinhood-proof-vrf-threshold-verifier-verification/v1" chain;
    Ok (strict_eq (prop_opt verifierVerification "gitCommit") (prop_opt verifierManifest "gitCommit"))];
  _ ← require verified "a matching passing threshold verifier verification report is required";
  adapter ← checked_address (contract_field verifierManifest "adapter" "address");
  _ ← require (bool_decide (lower adapter = lower (b_verifierAdapter (g_body g))))
        "group manifest is not bound to the deployed threshold adapter";
  same ← lower_is adapter (prop verifierVerification "adapter");
  _ ← require same "threshold verifier verification report is for a different adapter";
  Ok (verifierManifest, adapter).

Definition checkAdapter (url : string) (verifierManifest : value) (adapter : string) (g : group) : eff nat unit :=
  code ← call (λ n, rd_code n url adapter);
  matches ← eff_lift (hash ← contract_field verifierManifest "adapter" "runtimeCodeHash";
                      Ok (has_code code && strict_eq (VStr (keccak256 code)) hash));
  _ ← eff_require matches "threshold adapter runtime code does not match the deployment manifest";
  onchainKeyHash ← call (λ n, vb_keyHash n url adapter (b_groupPublicKey (g_body g)));
  proofLength ← call (λ n, vb_proofLength n url adapter);
  eff_require (bool_decide (lower onchainKeyHash = lower (g_keyHash g)) && (proofLength =? 416))
    "threshold adapter key hash or proof length is incompatible".

(** The arguments of [registerKey]. *)
Record key_settings := {
  ks_coordinator : string; ks_timelock : string; ks_fulfiller : string; ks_payee : string;
  ks_maxGasPriceWei : Z; ks_verificationGasLimit : Z
}.
Definition checkSettings (o : value) : result key_settings :=
  coordinator ← checked_address (Ok (prop_opt o "coordinator"));
  timelock ← checked_address (Ok (prop_opt o "timelock"));
  fulfiller ← checked_address (Ok (prop_opt o "fulfiller"));
  payee ← checked_address (Ok (prop_opt o "payee"));
  _ ← require (bool_decide (NoDup (lower <$> [timelock; fulfiller; payee])))
        "timelock, fulfiller, and payee must be distinct";
  maxGasPriceWei ← unsigned (prop_opt o "max-gas-price-wei") "max-gas-price-wei" (2 ^ 64 - 1);
  verificationGasLimit ← unsigned (match prop_opt o "verification-gas-limit" with VUndef => VStr "2900000" | v => v end)
                           "verification-gas-limit" (2 ^ 32 - 1);
  _ ← require ((100000 <=? verificationGasLimit) && (verificationGasLimit <=? 3000000))
        "verification-gas-limit must be within the Coordinator 100000..3000000 range";
  Ok {| ks_coordinator := coordinator; ks_timelock := timelock; ks_fulfiller := fulfiller; ks_payee := payee;
        ks_maxGasPriceWei := maxGasPriceWei; ks_verificationGasLimit := verificationGasLimit |}.

Definition checkCoordinator (url : string) (o : value) (chain : Z) (g : group) (k : key_settings) : eff nat unit :=
  owner ← call (λ n, rd_text n url (ks_coordinator k) "owner");
  existing ← call (λ n, gv_keyExists n url (ks_coordinator k) (g_keyHash g));
  _ ← eff_require (bool_decide (lower owner = lower (ks_timelock k))) "coordinator owner is not the supplied timelock";
  _ ← eff_require (negb existing) "threshold key is already registered";
  report ← eff_lift (plan_json (prop_opt o "coordinator-verification-report") "Coordinator deployment verification report");
  passes ← eff_lift (all_of [report_passes report "robinhood-proof-vrf-deployment-verification/v1" chain;
                             lower_is (ks_coordinator k) (prop report "coordinator")]);
  eff_require passes "a matching passing Coordinator deployment verification report is required".

Definition registerKey_args (g : group) (adapter : string) (k : key_settings) : list value := [
  VStr (g_keyHash g); VStr adapter; VStr (b_groupPublicKey (g_body g)); VStr (ks_fulfiller k); VStr (ks_payee k);
  VBig (ks_maxGasPriceWei k); VBig (ks_verificationGasLimit k)].

Definition planRegistration (o : value) : eff nat registration_plan :=
  let url := to_str (prop_opt o "rpc-url") in
  chain ← call (λ n, rd_chainId n url);
  manifest ← eff_lift (plan_json (prop_opt o "manifest") "threshold group manifest");
  previous ← eff_lift (if truthy (prop_opt o "previous")
                       then plan_json (prop_opt o "previous") "previous threshold manifest" else Ok VUndef);
  g ← eff_lift (validateGroupManifest manifest {|
        allowLoopback := false; previousManifest := previous;
        trustedPreviousManifestHash := prop_opt o "trusted-previous-hash" |});
  _ ← eff_require (chain =? b_chainId (g_body g)) "threshold manifest chainId does not match the RPC";
  '(verifierManifest, adapter) ← eff_lift (checkVerifier o chain g);
  _ ← checkAdapter url verifierManifest adapter g;
  k ← eff_lift (checkSettings o);
  _ ← checkCoordinator url o chain g k;
  registerData ← eff_lift (encodeFunctionData "registerKey" (registerKey_args g adapter k));
  governanceSafe ← call (λ n, rd_text n url (ks_timelock k) "owner");
  currentNonce ← call (λ n, rd_number n url (ks_timelock k) "nonce");
  timelockDelay ← call (λ n, rd_number n url (ks_timelock k) "delay");
  minimumDelay ← call (λ n, rd_number n url (ks_timelock k) "MIN_DELAY");
  safeCode ← call (λ n, rd_code n url governanceSafe);
  _ ← eff_require (has_code safeCode && (minimumDelay <=? timelockDelay) && (43200 <=? timelockDelay))
        "timelock must have at least 12 hours delay and be owned by a deployed Safe";
  plan ← operationPlan url (ks_timelock k) governanceSafe timelockDelay currentNonce
           {| ac_target := ks_coordinator k; ac_value := 0; ac_data := registerData |};
  mret {| rg_chainId := chain; rg_manifestHash := g_manifestHash g; rg_keyHash := g_keyHash g; rg_adapter := adapter;
          rg_coordinator := ks_coordinator k; rg_fulfiller := ks_fulfiller k; rg_payee := ks_payee k;
          rg_plan := plan |}.

(** ** The acceptance of the ownership *)

Definition planAcceptance (o : value) : eff nat governance_plan :=
  let url := to_str (prop_opt o "rpc-url") in
  timelock ← eff_lift (checked_address (Ok (prop_opt o "timelock")));
  coordinator ← eff_lift (checked_address (Ok (prop_opt o "coordinator")));
  acceptData ← eff_lift (encodeFunctionData "acceptOwnership" []);
  governanceSafe ← call (λ n, rd_text n url timelock "owner");
  delay ← call (λ n, rd_number n url timelock "delay");
  minimumDelay ← call (λ n, rd_number n url timelock "MIN_DELAY");
  currentNonce ← call (λ n, rd_number n url timelock "nonce");
  currentOwner ← call (λ n, rd_text n url coordinator "owner");
  pendingOwner ← call (λ n, rd_text n url coordinator "pendingOwner");
  timelockCode ← call (λ n, rd_code n url timelock);
  safeCode ← call (λ n, rd_code n url governanceSafe);
  coordinatorCode ← call (λ n, rd_code n url coordinator);
  _ ← eff_require (has_code timelockCode && has_code safeCode && has_code coordinatorCode)
        "timelock, governance Safe, and coordinator must all be deployed contracts";
  _ ← eff_require ((minimumDelay <=? delay) && (43200 <=? delay)) "timelock delay is below the required 12 hours";
  _ ← eff_require (negb (bool_decide (lower currentOwner = lower timelock)))
        "coordinator ownership is already accepted by the timelock";
  _ ← eff_require (bool_decide (lower pendingOwner = lower timelock)) "coordinator pendingOwner is not the supplied timelock";
  operationPlan url timelock governanceSafe delay currentNonce
    {| ac_target := coordinator; ac_value := 0; ac_data := acceptData |}.
End plans.
