(* ===== verification/GovernanceSafety.v ===== *)
(** * What the timelock and the plans promise ([contracts/VRFAdminTimelock.sol],
    [scripts/prepare-register-threshold.mjs], [scripts/prepare-accept-ownership.mjs]) *)

From stdpp Require Import gmap.
From S2P Require Import Prelude Js Hex CanonicalJson JsonText Vendor Samples ThresholdCrypto ThresholdGroup Policies ErrorText CommandLine Archiver Readiness SoakReport SourceVerification DeploymentCheck DeploymentSafety ThresholdCheck ServiceStartSafety Governance.

Open Scope Z_scope.

(** ** The history of an operation *)

Definition about (id : string) (e : timelock_event) : Prop :=
  match e with Scheduled _ id' | Cancelled id' | Called _ id' _ => id' = id end.
#[local] Instance about_dec id e : Decision (about id e).
Proof. destruct e; cbn; apply _. Defined.
Definition scheduled_at (delay at_time : Z) : timelock_operation :=
  {| op_executeAfter := (at_time + delay) mod 2 ^ 64; op_executed := false; op_cancelled := false |}.
Definition never_scheduled : timelock_operation :=
  {| op_executeAfter := 0; op_executed := false; op_cancelled := false |}.
(** What an event makes of an operation. *)
Definition event_step (delay : Z) (id : string) (op : timelock_operation) (e : timelock_event) : timelock_operation :=
  if decide (about id e) then
    match e with
    | Scheduled at_time _ => scheduled_at delay at_time
    | Cancelled _ => {| op_executeAfter := op_executeAfter op; op_executed := op_executed op; op_cancelled := true |}
    | Called _ _ _ => {| op_executeAfter := op_executeAfter op; op_executed := true; op_cancelled := op_cancelled op |}
    end
  else op.
Definition history_of (delay : Z) (id : string) (events : list timelock_event) (op : timelock_operation) : timelock_operation :=
  foldl (event_step delay id) op events.

(** An open operation was scheduled last. *)
Lemma open_history delay id events :
  is_open (history_of delay id events never_scheduled) = true →
  ∃ before at_time after, events = before ++ Scheduled at_time id :: after ∧ Forall (λ e, ¬ about id e) after ∧
    history_of delay id events never_scheduled = scheduled_at delay at_time.
Proof.
  induction events as [|e events IH] using rev_ind; [done|]. unfold history_of in *. rewrite foldl_app. cbn [foldl].
  unfold event_step at 1 3. destruct (decide (about id e)) as [He|He].
  - destruct e as [at_time id'|id'|at_time id' c]; cbn in He; subst id'; intros Hopen.
    + exists events, at_time, []. by split_and!.
    + unfold is_open in Hopen. cbn in Hopen. by rewrite orb_true_r in Hopen.
    + unfold is_open in Hopen. cbn in Hopen. by rewrite orb_true_r in Hopen.
  - intros (before & at_time & after & -> & Hafter & E)%IH. exists before, at_time, (after ++ [e]).
    split; [by rewrite <-app_assoc|]. split; [|done]. apply Forall_app. split; [done|]. by constructor.
Qed.
Lemma history_other delay id events op : Forall (λ e, ¬ about id e) events → history_of delay id events op = op.
Proof.
  revert op. induction 1 as [|e events He _ IH]; [done|]. unfold history_of in *. cbn. unfold event_step at 2.
  by rewrite decide_False.
Qed.

Section timelock.
Context `{Ethers} (deployed : string → bool).

(** The settings of a timelock, which no call changes. *)
Definition settings_of (t : timelock) : Z * string * Z := (tl_chainId t, tl_address t, tl_delay t).
Lemma operation_of_set id op id' t :
  operation_of id' (set_operation id op t) = if decide (id' = id) then op else operation_of id' t.
Proof.
  unfold operation_of, set_operation. cbn. destruct (decide _) as [->|Hne]; [by rewrite lookup_insert_eq|by rewrite lookup_insert_ne].
Qed.

Lemma schedule_Ok now sender c t id t1 :
  schedule deployed now sender c t = Ok (id, t1) →
  sender = tl_owner t ∧ id = hashOperation t (tl_nonce t + 1) c ∧ settings_of t1 = settings_of t ∧ tl_nonce t1 = tl_nonce t + 1 ∧
  ∀ id', operation_of id' t1 = event_step (tl_delay t) id' (operation_of id' t) (Scheduled now id).
Proof.
  unfold schedule. intros (? & Hs%require_Ok%bool_decide_eq_true & Hr)%bind_Ok.
  do 3 (apply bind_Ok in Hr as (? & _ & Hr)). injection Hr as <- <-. split_and!; try done.
  intros id'. rewrite operation_of_set. unfold event_step, about. by repeat case_decide.
Qed.
Lemma cancel_Ok sender id t t1 :
  cancel sender id t = Ok t1 → settings_of t1 = settings_of t ∧
  ∀ id', operation_of id' t1 = event_step (tl_delay t) id' (operation_of id' t) (Cancelled id).
Proof.
  unfold cancel. intros (? & _ & Hr)%bind_Ok. apply bind_Ok in Hr as (? & _ & [= <-]). split; [done|].
  intros id'. rewrite operation_of_set. unfold event_step, about. repeat case_decide; by subst.
Qed.
Lemma begin_execute_Ok now nonce c t t1 :
  begin_execute deployed now nonce c t = Ok t1 →
  let id := hashOperation t nonce c in
  settings_of t1 = settings_of t ∧ is_open (operation_of id t) = true ∧
  op_executeAfter (operation_of id t) <= now <= op_executeAfter (operation_of id t) + EXECUTION_WINDOW ∧
  ∀ id', operation_of id' t1 = event_step (tl_delay t) id' (operation_of id' t) (Called now id c).
Proof.
  unfold begin_execute. intros (? & _ & Hr)%bind_Ok. apply bind_Ok in Hr as (? & Hopen%require_Ok & Hr).
  apply bind_Ok in Hr as (? & Ha%require_Ok%Z.leb_le & Hr). apply bind_Ok in Hr as (? & Hb%require_Ok%Z.leb_le & [= <-]).
  cbv zeta. split_and!; try done. intros id'. rewrite operation_of_set. unfold event_step, about. repeat case_decide; by subst.
Qed.
Lemma hashOperation_settings t t' nonce c :
  settings_of t' = settings_of t → hashOperation t' nonce c = hashOperation t nonce c.
Proof. unfold settings_of, hashOperation. by intros [= -> -> _]. Qed.

(** A run makes of each operation what its events say, and a call is of an operation
    that was open, in its window. *)
Definition callable (at_time : Z) (op : timelock_operation) : Prop :=
  is_open op = true ∧ op_executeAfter op <= at_time <= op_executeAfter op + EXECUTION_WINDOW.
Lemma run_history t events t' :
  timelock_run deployed t events t' →
  settings_of t' = settings_of t ∧
  (∀ id, operation_of id t' = history_of (tl_delay t) id events (operation_of id t)) ∧
  ∀ before at_time id c after, events = before ++ Called at_time id c :: after →
    callable at_time (history_of (tl_delay t) id before (operation_of id t)).
Proof.
  assert (∀ t1 t2, settings_of t1 = settings_of t2 → tl_delay t1 = tl_delay t2) as Hdelay by (intros ?? [= _ _ ->]; done).
  induction 1 as [t|owner t events t' _ IH|now sender c t id t1 events t2 Hs _ (E & Ho & Hc)|sender id t t1 events t2 Hs _ (E & Ho & Hc)
    |now nonce c t t1 inner t2 events t3 Hs _ (E1 & Ho1 & Hc1) _ (E2 & Ho2 & Hc2)].
  - split_and!; try done. by intros [|??] ?????.
  - exact IH.
  - apply schedule_Ok in Hs as (_ & _ & Es & _ & Hop). rewrite (Hdelay _ _ Es) in *. split; [congruence|]. split.
    + intros id'. by rewrite Ho, Hop.
    + intros [|e before] at_time id' c' after; [done|]. intros [= <- ->]. specialize (Hc before at_time id' c' after eq_refl).
      by rewrite Hop in Hc.
  - apply cancel_Ok in Hs as (Es & Hop). rewrite (Hdelay _ _ Es) in *. split; [congruence|]. split.
    + intros id'. by rewrite Ho, Hop.
    + intros [|e before] at_time id' c' after; [done|]. intros [= <- ->]. specialize (Hc before at_time id' c' after eq_refl).
      by rewrite Hop in Hc.
  - apply begin_execute_Ok in Hs as (Es & Hopen & Hwin & Hop).
    rewrite (Hdelay _ _ E1), (Hdelay _ _ Es) in *. split; [congruence|]. split.
    + intros id'. unfold history_of. cbn [foldl]. rewrite foldl_app. by rewrite Ho2, Ho1, Hop.
    + intros [|e before] at_time id' c' after Hev; [by injection Hev as <- <- <- _|]. injection Hev as <- Hev.
      cbn [history_of foldl]. change (foldl (event_step (tl_delay t) id') ?op ?l) with (history_of (tl_delay t) id' l op).
      rewrite <-Hop. apply app_eq_inv in Hev as [(k & -> & Hev)|(k & -> & Hev)].
      * destruct k as [|e k].
        -- cbn in Hev. subst events. rewrite app_nil_r in Ho1.
           specialize (Hc2 [] at_time id' c' after eq_refl). cbn in Hc2. by rewrite Ho1 in Hc2.
        -- injection Hev as <- ->. by apply (Hc1 before at_time id' c' k).
      * unfold history_of. rewrite foldl_app. specialize (Hc2 k at_time id' c' after Hev). by rewrite Ho1 in Hc2.
Qed.


(** A scheduled operation can be called in its window, whatever else was called, and
    not before, nor twice. *)
Lemma scheduled_executes c t T id t1 events t2 :
  deployed (ac_target c) = true → tl_nonce t + 1 < 2 ^ 256 → 0 <= T → 0 < T + tl_delay t < 2 ^ 64 →
  schedule deployed T (tl_owner t) c t = Ok (id, t1) → timelock_run deployed t1 events t2 → Forall (λ e, ¬ about id e) events →
  id = hashOperation t (tl_nonce t + 1) c ∧
  (∀ now, now < T + tl_delay t → begin_execute deployed now (tl_nonce t + 1) c t2 = Throw "OperationNotReady") ∧
  ∀ now, T + tl_delay t <= now <= T + tl_delay t + EXECUTION_WINDOW →
    ∃ t3, begin_execute deployed now (tl_nonce t + 1) c t2 = Ok t3 ∧
      ∀ later t4 again, timelock_run deployed t3 later t4 → Forall (λ e, ¬ about id e) later →
        begin_execute deployed again (tl_nonce t + 1) c t4 = Throw "InvalidOperation".
Proof.
  intros Hcode Hnonce HT Hrange (_ & Eid & Es & _ & Hop)%schedule_Ok (E2 & Ho & _)%run_history Hevents. split; [done|].
  assert (∀ t', settings_of t' = settings_of t → hashOperation t' (tl_nonce t + 1) c = id) as Hid.
  { intros t' Et'. rewrite Eid. by apply hashOperation_settings. }
  assert (operation_of id t2 = scheduled_at (tl_delay t) T) as Eop.
  { rewrite Ho, history_other by done. rewrite Hop. unfold event_step. by rewrite decide_True. }
  assert (op_executeAfter (operation_of id t2) = T + tl_delay t) as Eafter.
  { rewrite Eop. cbn. apply Z.mod_small. lia. }
  assert (is_open (operation_of id t2) = true) as Hopen.
  { unfold is_open. rewrite Eafter, Eop. cbn. by rewrite (proj2 (Z.eqb_neq _ _)) by lia. }
  assert (∀ now t', settings_of t' = settings_of t → begin_execute deployed now (tl_nonce t + 1) c t' =
    (_ ← require (is_open (operation_of id t')) "InvalidOperation";
     _ ← require (op_executeAfter (operation_of id t') <=? now) "OperationNotReady";
     _ ← require (now <=? op_executeAfter (operation_of id t') + EXECUTION_WINDOW) "OperationExpired";
     Ok (set_operation id {| op_executeAfter := op_executeAfter (operation_of id t'); op_executed := true;
                             op_cancelled := op_cancelled (operation_of id t') |} t'))) as Hexec.
  { intros now t' Et'. unfold begin_execute. rewrite Hcode, (Hid t' Et'). done. }
  assert (settings_of t2 = settings_of t) as E2' by congruence. split.
  - intros now Hnow. rewrite Hexec, Hopen, Eafter by done. cbn [require mbind result_bind].
    by rewrite (proj2 (Z.leb_gt (T + tl_delay t) now) Hnow).
  - intros now Hnow. rewrite Hexec, Hopen, Eafter by done. cbn [require mbind result_bind].
    rewrite (proj2 (Z.leb_le (T + tl_delay t) now) (proj1 Hnow)), (proj2 (Z.leb_le now _) (proj2 Hnow)).
    cbn [require mbind result_bind]. eexists. split; [done|].
    intros later t4 again (E4 & Ho4 & _)%run_history Hlater. rewrite Hexec by (etrans; [exact E4|exact E2']).
    rewrite Ho4, history_other by done. rewrite operation_of_set, decide_True by done. unfold is_open. cbn.
    by rewrite orb_true_r.
Qed.
End timelock.

(** ** The plans *)
Section plans.
Context `{Ethers, NobleBls, !NodeCrypto, UrlApi, ReadinessApi, VerifierApi, GovernanceApi} (files : file_system).

(** The endpoint gives the state of a timelock. *)
Record answers_for (url address : string) (t : timelock) : Prop := {
  an_owner n v : rd_text n url address "owner" = Ok v → v = tl_owner t;
  an_nonce n v : rd_number n url address "nonce" = Ok v → v = tl_nonce t;
  an_delay n v : rd_number n url address "delay" = Ok v → v = tl_delay t;
  an_hash n k c v : gv_hashOperation n url address k c = Ok v → v = hashOperation t k c
}.

(** The two transactions of a plan are the two calls of one operation: when the Safe has
    made the first, and as long as no other call is about the operation, the second
    makes the call after the delay, for a week, and once. *)
Definition plan_executes (p : governance_plan) (t : timelock) : Prop :=
  encodeFunctionData "schedule" (call_args (gp_call p)) = Ok (gt_data (gp_schedule p)) ∧
  encodeFunctionData "execute" (VBig (gp_operationNonce p) :: call_args (gp_call p)) = Ok (gt_data (gp_execute p)) ∧
  gt_to (gp_execute p) = gt_to (gp_schedule p) ∧
  ∀ deployed T id t1 events t2,
    deployed (ac_target (gp_call p)) = true → tl_nonce t + 1 < 2 ^ 256 → 0 <= T < 2 ^ 63 → 43200 <= tl_delay t < 2 ^ 63 →
    schedule deployed T (gp_governanceSafe p) (gp_call p) t = Ok (id, t1) →
    timelock_run deployed t1 events t2 → Forall (λ e, ¬ about id e) events →
    id = gp_operationId p ∧
    (∀ now, now < T + gp_delay p → begin_execute deployed now (gp_operationNonce p) (gp_call p) t2 = Throw "OperationNotReady") ∧
    ∀ now, T + gp_delay p <= now <= T + gp_delay p + EXECUTION_WINDOW →
      ∃ t3, begin_execute deployed now (gp_operationNonce p) (gp_call p) t2 = Ok t3 ∧
        ∀ later t4 again, timelock_run deployed t3 later t4 → Forall (λ e, ¬ about id e) later →
          begin_execute deployed again (gp_operationNonce p) (gp_call p) t4 = Throw "InvalidOperation".

Lemma operationPlan_executes url address safe delay nonce c n p n' t :
  operationPlan url address safe delay nonce c n = (Ok p, n') → answers_for url address t →
  safe = tl_owner t → nonce = tl_nonce t → delay = tl_delay t →
  gp_call p = c ∧ gt_to (gp_schedule p) = address ∧ gp_governanceSafe p = safe ∧ gp_delay p = delay ∧ plan_executes p t.
Proof.
  unfold operationPlan. intros (id & Hid & Hr)%call_bind_Ok Han -> -> ->.
  apply eff_lift_bind_Ok in Hr as (scheduleData & Hs & Hr). apply eff_lift_bind_Ok in Hr as (executeData & He & [= <- _]).
  split_and!; try done. unfold plan_executes. cbn. split_and!; try done.
  intros deployed T id' t1 events t2 Hcode Hnonce HT Hdelay Hsched Hrun Hev.
  destruct (scheduled_executes deployed c t T id' t1 events t2 Hcode Hnonce ltac:(lia) ltac:(lia) Hsched Hrun Hev) as (-> & Hearly & Hex).
  split; [|by split]. symmetry. by eapply an_hash.
Qed.

Lemma plan_json_Ok path name v : plan_json files path name = Ok v → ∃ p, path = VStr p ∧ read_json files p = Ok v.
Proof. unfold plan_json. destruct path; try done. case_bool_decide; [done|]. intros Hv. by eexists. Qed.
Lemma unsigned_Ok v name maximum z : unsigned v name maximum = Ok z → to_bigint v = Ok z ∧ z <= maximum.
Proof.
  unfold unsigned. intros (? & _ & Hr)%bind_Ok. apply bind_Ok in Hr as (z' & Hz & Hr).
  by apply bind_Ok in Hr as (? & Hm%require_Ok%Z.leb_le & [= <-]).
Qed.

(** What the registration of a key was checked against. *)
Definition registers (o : value) (r : registration_plan) (g : group) : Prop :=
  let url := to_str (prop_opt o "rpc-url") in
  rg_keyHash r = g_keyHash g ∧ rg_manifestHash r = g_manifestHash g ∧ rg_chainId r = b_chainId (g_body g) ∧
  lower (rg_adapter r) = lower (b_verifierAdapter (g_body g)) ∧
  (∃ path verifierManifest i code, prop_opt o "verifier-manifest" = VStr path ∧ read_json files path = Ok verifierManifest ∧
     rd_code i url (rg_adapter r) = Ok code ∧ code ≠ [] ∧
     contract_field verifierManifest "adapter" "runtimeCodeHash" = Ok (VStr (keccak256 code))) ∧
  (∃ i h, vb_keyHash i url (rg_adapter r) (b_groupPublicKey (g_body g)) = Ok h ∧ lower h = lower (g_keyHash g)) ∧
  (∃ i, gv_keyExists i url (rg_coordinator r) (g_keyHash g) = Ok false) ∧
  (∃ i owner, rd_text i url (rg_coordinator r) "owner" = Ok owner ∧ lower owner = lower (gt_to (gp_schedule (rg_plan r)))) ∧
  NoDup (lower <$> [gt_to (gp_schedule (rg_plan r)); rg_fulfiller r; rg_payee r]) ∧
  ∃ maxGasPriceWei verificationGasLimit, maxGasPriceWei < 2 ^ 64 ∧ 100000 <= verificationGasLimit <= 3000000 ∧
    ac_target (gp_call (rg_plan r)) = rg_coordinator r ∧ ac_value (gp_call (rg_plan r)) = 0 ∧
    encodeFunctionData "registerKey" [VStr (g_keyHash g); VStr (rg_adapter r); VStr (b_groupPublicKey (g_body g));
      VStr (rg_fulfiller r); VStr (rg_payee r); VBig maxGasPriceWei; VBig verificationGasLimit]
    = Ok (ac_data (gp_call (rg_plan r))).

Lemma operationPlan_to url address safe delay nonce c n p n' :
  operationPlan url address safe delay nonce c n = (Ok p, n') → gt_to (gp_schedule p) = address.
Proof.
  unfold operationPlan. intros (id & _ & Hr)%call_bind_Ok. apply eff_lift_bind_Ok in Hr as (? & _ & Hr).
  by apply eff_lift_bind_Ok in Hr as (? & _ & [= <- _]).
Qed.
Lemma checkVerifier_Ok o chain g vm adapter :
  checkVerifier files o chain g = Ok (vm, adapter) →
  (∃ path, prop_opt o "verifier-manifest" = VStr path ∧ read_json files path = Ok vm) ∧
  lower adapter = lower (b_verifierAdapter (g_body g)).
Proof.
  unfold checkVerifier. intros (vm' & Hvm%plan_json_Ok & Hr)%bind_Ok. do 5 (apply bind_Ok in Hr as (? & _ & Hr)).
  apply bind_Ok in Hr as (adapter' & _ & Hr). apply bind_Ok in Hr as (? & Ha%require_Ok%bool_decide_eq_true & Hr).
  do 2 (apply bind_Ok in Hr as (? & _ & Hr)). by injection Hr as <- <-.
Qed.
Lemma checkAdapter_Ok url vm adapter g n n' :
  checkAdapter url vm adapter g n = (Ok tt, n') →
  (∃ i code, rd_code i url adapter = Ok code ∧ code ≠ [] ∧ contract_field vm "adapter" "runtimeCodeHash" = Ok (VStr (keccak256 code))) ∧
  ∃ i h, vb_keyHash i url adapter (b_groupPublicKey (g_body g)) = Ok h ∧ lower h = lower (g_keyHash g).
Proof.
  unfold checkAdapter. intros (code & Hcode & Hr)%call_bind_Ok.
  apply eff_lift_bind_Ok in Hr as (b & Hb & Hr). apply eff_require_bind_Ok in Hr as [-> Hr].
  apply bind_Ok in Hb as (hash & Hhash & [= [Hne Heq%strict_text]%andb_true_iff]). subst hash.
  apply call_bind_Ok in Hr as (h & Hh & Hr). apply call_bind_Ok in Hr as (len & _ & [= Hr _]).
  apply require_Ok, andb_true_iff in Hr as [El%bool_decide_eq_true _]. split; [|by eexists _, h].
  eexists _, code. split_and!; try done. unfold has_code in Hne. by apply negb_true_iff, bool_decide_eq_false in Hne.
Qed.
Lemma checkSettings_Ok o k :
  checkSettings o = Ok k →
  NoDup (lower <$> [ks_timelock k; ks_fulfiller k; ks_payee k]) ∧ ks_maxGasPriceWei k < 2 ^ 64 ∧
  100000 <= ks_verificationGasLimit k <= 3000000.
Proof.
  unfold checkSettings. do 4 (intros (? & _ & Hr)%bind_Ok; revert Hr). intros (? & Hd%require_Ok%bool_decide_eq_true & Hr)%bind_Ok.
  apply bind_Ok in Hr as (price & [_ Hp]%unsigned_Ok & Hr). apply bind_Ok in Hr as (gas & _ & Hr).
  apply bind_Ok in Hr as (? & [Ha%Z.leb_le Hb%Z.leb_le]%require_Ok%andb_true_iff & [= <-]). cbn. split; [done|]. lia.
Qed.
Lemma checkCoordinator_Ok url o chain g k n n' :
  checkCoordinator files url o chain g k n = (Ok tt, n') →
  (∃ i owner, rd_text i url (ks_coordinator k) "owner" = Ok owner ∧ lower owner = lower (ks_timelock k)) ∧
  ∃ i, gv_keyExists i url (ks_coordinator k) (g_keyHash g) = Ok false.
Proof.
  unfold checkCoordinator. intros (owner & Ho & Hr)%call_bind_Ok. apply call_bind_Ok in Hr as (existing & He & Hr).
  apply eff_require_bind_Ok in Hr as [Eo%bool_decide_eq_true Hr]. apply eff_require_bind_Ok in Hr as [->%negb_true_iff _].
  split; [by eexists _, owner|by eexists].
Qed.

(** C40: a registration that is planned is of the key of a validated group for the chain
    of the endpoint, whose adapter has the code of its manifest and computes that key
    hash, at the coordinator that the timelock owns and that does not know the key;
    and when the endpoint gave the state of the timelock, the two transactions
    register that key: the second makes the call once the Safe has made the first and
    the delay of twelve hours or more is over, for a week and only once, whatever other
    operations there are. *)
Theorem registration_plan_executes o n r n' t :
  planRegistration files o n = (Ok r, n') →
  answers_for (to_str (prop_opt o "rpc-url")) (gt_to (gp_schedule (rg_plan r))) t →
  (∃ path manifest previous g, prop_opt o "manifest" = VStr path ∧ read_json files path = Ok manifest ∧
     validateGroupManifest manifest {| allowLoopback := false; previousManifest := previous;
       trustedPreviousManifestHash := prop_opt o "trusted-previous-hash" |} = Ok g ∧ registers o r g) ∧
  43200 <= gp_delay (rg_plan r) ∧ plan_executes (rg_plan r) t.
Proof.
  unfold planRegistration. cbv zeta. set (url := to_str _). intros (chain & _ & Hr)%call_bind_Ok Han.
  apply eff_lift_bind_Ok in Hr as (manifest & (path & Hpath & Hman)%plan_json_Ok & Hr).
  apply eff_lift_bind_Ok in Hr as (previous & _ & Hr). apply eff_lift_bind_Ok in Hr as (g & Hg & Hr).
  apply eff_require_bind_Ok in Hr as [Hchain%Z.eqb_eq Hr].
  apply eff_lift_bind_Ok in Hr as ([verifierManifest adapter] & Hverifier%checkVerifier_Ok & Hr).
  apply eff_bind_Ok in Hr as ([] & n1 & Hadapter%checkAdapter_Ok & Hr).
  apply eff_lift_bind_Ok in Hr as (k & Hk%checkSettings_Ok & Hr).
  apply eff_bind_Ok in Hr as ([] & n2 & Hcoordinator%checkCoordinator_Ok & Hr).
  apply eff_lift_bind_Ok in Hr as (registerData & Hdata & Hr).
  apply call_bind_Ok in Hr as (safe & Hsafe & Hr). apply call_bind_Ok in Hr as (nonce & Hnonce & Hr).
  apply call_bind_Ok in Hr as (delay & Hdelay & Hr). apply call_bind_Ok in Hr as (minimum & _ & Hr).
  apply call_bind_Ok in Hr as (safeCode & _ & Hr). apply eff_require_bind_Ok in Hr as [Hlimits Hr].
  rewrite !andb_true_iff, !Z.leb_le in Hlimits. destruct Hlimits as [_ Hlimit].
  apply eff_bind_Ok in Hr as (p & n3 & Hplan & [= <- _]). cbn [rg_plan] in *.
  assert (gt_to (gp_schedule p) = ks_timelock k) as Eto by by apply operationPlan_to in Hplan.
  rewrite Eto in Han.
  destruct (operationPlan_executes _ _ _ _ _ _ _ _ _ t Hplan Han) as (Ecall & _ & Esafe & Edelay & Hexec).
  { by eapply an_owner. } { by eapply an_nonce. } { by eapply an_delay. }
  split; [|split; [by rewrite Edelay|done]]. exists path, manifest, previous, g. split_and!; try done.
  destruct Hverifier as (Hvm & Eadapter). destruct Hadapter as (Hcode & Hhash).
  destruct Hk as (Hdistinct & Hprice & Hgas). destruct Hcoordinator as (Howner & Hnew).
  unfold registers. cbn [rg_keyHash rg_manifestHash rg_chainId rg_adapter rg_coordinator rg_fulfiller rg_payee rg_plan].
  rewrite Eto, Ecall. split_and!; try done.
  - destruct Hvm as (vpath & Ev & Hv). destruct Hcode as (i & code & Hc & Hne & Hfield). by exists vpath, verifierManifest, i, code.
  - by exists (ks_maxGasPriceWei k), (ks_verificationGasLimit k).
Qed.
(** A plan for the acceptance of the ownership: the coordinator has the timelock as the
    pending owner, and its two transactions make [acceptOwnership]. *)
Lemma acceptance_plan_executes o n p n' t :
  planAcceptance o n = (Ok p, n') → answers_for (to_str (prop_opt o "rpc-url")) (gt_to (gp_schedule p)) t →
  (∃ coordinator, checked_address (Ok (prop_opt o "coordinator")) = Ok coordinator ∧ ac_target (gp_call p) = coordinator ∧
     encodeFunctionData "acceptOwnership" [] = Ok (ac_data (gp_call p)) ∧
     ∃ i pending, rd_text i (to_str (prop_opt o "rpc-url")) coordinator "pendingOwner" = Ok pending ∧
       lower pending = lower (gt_to (gp_schedule p))) ∧
  43200 <= gp_delay p ∧ plan_executes p t.
Proof.
  unfold planAcceptance. cbv zeta. set (url := to_str _). intros (address & _ & Hr)%eff_lift_bind_Ok Han.
  apply eff_lift_bind_Ok in Hr as (coordinator & Hc & Hr). apply eff_lift_bind_Ok in Hr as (acceptData & Hdata & Hr).
  apply call_bind_Ok in Hr as (safe & Hsafe & Hr). apply call_bind_Ok in Hr as (delay & Hdelay & Hr).
  apply call_bind_Ok in Hr as (minimum & _ & Hr). apply call_bind_Ok in Hr as (nonce & Hnonce & Hr).
  apply call_bind_Ok in Hr as (owner & _ & Hr). apply call_bind_Ok in Hr as (pending & Hpending & Hr).
  do 3 apply call_bind_Ok in Hr as (? & _ & Hr). apply eff_require_bind_Ok in Hr as [_ Hr].
  apply eff_require_bind_Ok in Hr as [[_ Hlimit%Z.leb_le]%andb_true_iff Hr]. apply eff_require_bind_Ok in Hr as [_ Hr].
  apply eff_require_bind_Ok in Hr as [Ep%bool_decide_eq_true Hplan].
  rewrite (operationPlan_to _ _ _ _ _ _ _ _ _ Hplan) in Han |- *.
  destruct (operationPlan_executes _ _ _ _ _ _ _ _ _ t Hplan Han) as (Ecall & _ & _ & Edelay & Hexec).
  { by eapply an_owner. } { by eapply an_nonce. } { by eapply an_delay. }
  split; [|split; [by rewrite Edelay|done]]. rewrite Ecall. exists coordinator. split_and!; try done. by eexists _, pending.
Qed.
End plans.

(** ** A scheduled call, and the registration of the sample group *)
Section examples.
#[local] Existing Instances sample_ethers sample_bls sample_crypto sample_url.

Definition toy_address (last : string) : string := "0x000000000000000000000000000000000000" +:+ last.
Definition toy_call : admin_call := {| ac_target := toy_address "00b1"; ac_value := 0; ac_data := chars "call" |}.
Definition toy_timelock : timelock := {|
  tl_chainId := 46630; tl_address := toy_address "00b2"; tl_owner := toy_address "5afe"; tl_delay := 43200;
  tl_nonce := 3; tl_operations := ∅ |}.

#[local] Instance toy_chain : ReadinessApi := {|
  rd_chainId _ _ := Ok 46630; rd_blockNumber _ _ := Ok 900; rd_code _ _ _ := Ok (chars "code"); rd_balance _ _ _ := Ok 7;
  rd_text _ _ contract f := Ok (if bool_decide (contract = toy_address "00b2") then toy_address "5afe" else toy_address "00b2");
  rd_number _ _ _ f := Ok (if bool_decide (f = "nonce") then 3 else 43200);
  rd_key _ _ _ _ := Throw "unused"; rd_serverVersion _ _ := Ok VUndef; wallet_address _ := Ok "0x";
  parseEther v := Ok 5; formatEther := print_int; search_param _ _ := VUndef |}.
#[local] Instance toy_adapter : VerifierApi := {|
  vb_keyHash _ _ _ pk := adapterKeyHash (VStr pk); vb_backend _ _ _ := Throw "unused";
  vb_backendCodeHash _ _ _ := Throw "unused"; vb_proofLength _ _ _ := Ok 416; vb_validatePublicKey _ _ _ _ := Throw "unused";
  vb_verify _ _ _ pk message sig := Throw "unused"; vb_validateKey _ _ _ _ _ := Throw "unused" |}.
#[local] Instance toy_governance : GovernanceApi := {|
  gv_keyExists _ _ _ _ := Ok false;
  gv_hashOperation _ _ _ nonce c := Ok (hashOperation toy_timelock nonce c);
  encodeFunctionData name args := Ok (toUtf8Bytes (name +:+ json_text (VArr ((λ v, VStr (to_str v)) <$> args)))) |}.

Definition toy_report (format : string) (rest : list (string * value)) : value :=
  VObj ([("format", VStr format); ("status", VStr "pass"); ("chainId", VNum 46630)] ++ rest).
Definition registration_files : file_system := {|
  read_json path := Ok (
    if bool_decide (path = "manifest.json") then sample_manifest
    else if bool_decide (path = "verifier.json") then VObj [
      ("format", VStr "robinhood-proof-vrf-threshold-verifier-deployment/v1"); ("chainId", VNum 46630);
      ("precompileInterop", VObj [("status", VStr "pass")]); ("gitCommit", VStr "c0ffee");
      ("contracts", VObj [("adapter", VObj [("address", VStr (toy_address "00aa"));
        ("runtimeCodeHash", VStr (keccak256 (chars "code")))])])]
    else if bool_decide (path = "verified.json") then
      toy_report "robinhood-proof-vrf-threshold-verifier-verification/v1"
        [("gitCommit", VStr "c0ffee"); ("adapter", VStr (toy_address "00aa"))]
    else toy_report "robinhood-proof-vrf-deployment-verification/v1" [("coordinator", VStr (toy_address "00b1"))]);
  read_bytes _ := Throw "ENOENT" |}.
Definition registration_options : value := VObj [
  ("rpc-url", VStr "https://a"); ("manifest", VStr "manifest.json"); ("verifier-manifest", VStr "verifier.json");
  ("verifier-verification-report", VStr "verified.json"); ("coordinator-verification-report", VStr "coordinator.json");
  ("coordinator", VStr (toy_address "00b1")); ("timelock", VStr (toy_address "00b2"));
  ("fulfiller", VStr (toy_address "00f1")); ("payee", VStr (toy_address "00e1")); ("max-gas-price-wei", VStr "1000000000")].
#[local] Notation "'registration_run'" := (planRegistration registration_files registration_options 0%nat).

Lemma toy_timelock_answers : answers_for "https://a" (toy_address "00b2") toy_timelock.
Proof.
  split; cbn [rd_text rd_number gv_hashOperation toy_chain toy_governance]; intros n *; try by intros [= <-].
Qed.

Lemma registration_plan_executes_witness :
  ∃ r, registration_run.1 = Ok r ∧ gp_operationNonce (rg_plan r) = 4 ∧ plan_executes (rg_plan r) toy_timelock.
Proof.
  assert (((λ r, (gp_operationNonce (rg_plan r), gt_to (gp_schedule (rg_plan r)))) <$> registration_run.1)
    = Ok (4, toy_address "00b2")) as Hr by vm_refl.
  destruct registration_run as [[r|m] n'] eqn:E; [|discriminate Hr]. injection Hr as Hn Ha. exists r.
  destruct (registration_plan_executes _ _ _ _ _ toy_timelock E) as (_ & _ & Hexec).
  - rewrite Ha. exact toy_timelock_answers.
  - split; [reflexivity|]. split; [exact Hn|exact Hexec].
Defined.
End examples.
