(* ===== verification/ReleaseSender.v ===== *)
(** * The release of the compact suite ([scripts/deploy-compact-testnet.mjs])

    The sender: each step of a release is one signed transaction.  Its exact bytes are
    in a journal on disk before they are broadcast, and every later attempt at the step
    sends those bytes again.  A write of the journal may fail at any of its points; an
    answer of an endpoint depends on the number of the call.

    The suite: the Safe, the timelock and the contracts are deployed by one sender, step
    by step; the runtime code of each is read at every endpoint and noted in the
    manifest, which is written after every step and once the deployed configuration is
    verified.  The compiled contracts, ethers and the endpoints are parameters. *)

From S2P Require Import Prelude Js Hex CanonicalJson JsonText Vendor ThresholdCrypto Policies ThresholdNode VrfContract Archiver CommandLine Readiness SoakReport SourceVerification DeploymentCheck ThresholdCheck Governance.

Open Scope Z_scope.

(** ** The sender

    What a populated transaction has of [to], [data] and [value]. *)
Record release_request := { rq_to : option string; rq_data : option bytes; rq_value : option Z }.
Record release_receipt := {
  rel_blockHash : string; rel_status : Z; rel_blockNumber : Z; rel_gasUsed : Z; rel_fee : Z;
  rel_rest : value                        (* the hash, the logs and the contract's address *)
}.
Record release_item := {
  ri_fingerprint : string; ri_nonce : Z; ri_raw : bytes; ri_hash : string; ri_maximumCostWei : Z;
  ri_mined : option release_receipt       (* what is kept of the receipt of a mined one *)
}.
Record release_journal := {
  rj_identity : value; rj_maximumWei : string; rj_reservedWei : Z;
  rj_transactions : list (string * release_item)
}.

(** What [durableJson] ends with, when the temporary file is not there: it was not
    opened; it was left behind; it was renamed, and the directory not synced; or all
    went well. *)
Inductive disk_outcome := NotOpened | TempLeft | Renamed | Synced.
Class ReleaseDisk := { disk_metadata : nat → file_metadata; disk_write : nat → disk_outcome }.

(** The endpoints, by the number of the call and the URL, and the wallet. *)
Class ReleaseRpc := {
  rl_address : string;
  rl_chainId : nat → string → result value;
  rl_pendingNonce : nat → string → string → result value;
  rl_gasPrice : nat → string → result value;
  rl_estimateGas : nat → string → release_request → string → Z → result Z;  (* from, gasPrice *)
  rl_balance : nat → string → string → result Z;
  rl_sign : release_request → Z → Z → Z → result bytes;                     (* nonce, gasLimit, gasPrice *)
  rl_receipt : nat → string → string → result (option release_receipt);
  rl_broadcast : nat → string → bytes → result unit;
  rl_wait : nat → string → bytes → result (option release_receipt);
  rl_rawReceipt : nat → string → string → result value
}.

(** The journal in memory and on disk, whether its temporary file is there, the writes
    and calls so far, and what was broadcast for which step. *)
Record release_world := {
  rw_memory : release_journal; rw_file : option release_journal; rw_temp : bool;
  rw_writes : nat; rw_calls : nat; rw_broadcasts : list (string * bytes)
}.
Definition keep_memory (j : release_journal) : eff release_world unit :=
  eff_modify (λ w, {| rw_memory := j; rw_file := rw_file w; rw_temp := rw_temp w; rw_writes := rw_writes w;
                      rw_calls := rw_calls w; rw_broadcasts := rw_broadcasts w |}).
Definition asks {A} (f : nat → result A) : eff release_world A := λ w,
  (f (rw_calls w),
   {| rw_memory := rw_memory w; rw_file := rw_file w; rw_temp := rw_temp w; rw_writes := rw_writes w;
      rw_calls := S (rw_calls w); rw_broadcasts := rw_broadcasts w |}).
(** What a reader of the file finds. *)
Definition reread_journal (j : release_journal) : release_journal := {|
  rj_identity := reread (rj_identity j); rj_maximumWei := rj_maximumWei j; rj_reservedWei := rj_reservedWei j;
  rj_transactions := rj_transactions j |}.
Definition unsafe_file (m : file_metadata) : bool :=
  negb (isFile m) || isSymbolicLink m || negb (Z.land (mode m) 63 =? 0).

Section sender.
Context `{Ethers, ReleaseDisk, ReleaseRpc}.

(** [durableJson(this.journalPath, this.journal)] *)
Definition durableJson : eff release_world unit := λ w,
  let ends temp file := {|
    rw_memory := rw_memory w; rw_file := file; rw_temp := temp; rw_writes := S (rw_writes w);
    rw_calls := rw_calls w; rw_broadcasts := rw_broadcasts w |} in
  let written := Some (reread_journal (rw_memory w)) in
  if bool_decide (is_Some (rw_file w)) && unsafe_file (disk_metadata (rw_writes w))
  then (Throw "unsafe release journal path", ends (rw_temp w) (rw_file w))
  else if rw_temp w then (Throw "EEXIST: file already exists", ends true (rw_file w))
  else match disk_write (rw_writes w) with
       | NotOpened => (Throw "EIO", ends false (rw_file w))
       | TempLeft => (Throw "EIO", ends true (rw_file w))
       | Renamed => (Throw "EIO", ends false written)
       | Synced => (Ok tt, ends false written)
       end.

(** The constructor. *)
Definition first_journal (identity : value) (maximumWei : Z) : release_journal := {|
  rj_identity := identity; rj_maximumWei := print_int maximumWei; rj_reservedWei := 0; rj_transactions := [] |}.
Definition openSender (identity : value) (maximumWei : Z) : eff release_world unit :=
  w ← eff_get;
  _ ← eff_require (negb (bool_decide (is_Some (rw_file w)) && unsafe_file (disk_metadata (rw_writes w))))
        "unsafe release journal permissions";
  let journal := default (first_journal identity maximumWei) (rw_file w) in
  _ ← keep_memory journal;
  eff_require (bool_decide (json_text (rj_identity journal) = json_text identity)
               && bool_decide (rj_maximumWei journal = print_int maximumWei)) "release journal identity mismatch".

Definition fingerprint_of (request : release_request) : string :=
  keccak256 (abi_encode ["address"; "bytes"; "uint256"]
    [VStr (default ZERO_ADDRESS (rq_to request)); VStr (hexlify (default [] (rq_data request)));
     VBig (default 0 (rq_value request))]).

(** [this.journal.transactions[name] = item] *)
Definition set_item (name : string) (item : release_item) (j : release_journal) : release_journal := {|
  rj_identity := rj_identity j; rj_maximumWei := rj_maximumWei j; rj_reservedWei := rj_reservedWei j;
  rj_transactions := assoc_set name item (rj_transactions j) |}.
Definition add_reserved (cost : Z) (j : release_journal) : release_journal := {|
  rj_identity := rj_identity j; rj_maximumWei := rj_maximumWei j; rj_reservedWei := rj_reservedWei j + cost;
  rj_transactions := rj_transactions j |}.
Definition item_of (name : string) (j : release_journal) : option release_item := assoc name (rj_transactions j).

(** [l.reduce((a, b) => a > b ? a : b)] *)
Definition greatest (l : list Z) : result Z :=
  match l with [] => Throw TYPE_ERROR | x :: l => Ok (foldl Z.max x l) end.

Section steps.
Context (providers : list string) (maximumWei : Z).
Definition of_all {A} (f : nat → string → result A) : eff release_world (list A) :=
  mapM (λ p, asks (λ n, f n p)) providers.

(** A step that was not signed yet. *)
Definition signStep (name fingerprint : string) (request : release_request) : eff release_world release_item :=
  networks ← of_all rl_chainId;
  _ ← eff_lift (forM_ (λ n, z ← to_bigint n; require (z =? 46630) "release restricted to chain 46630") networks);
  nonces ← of_all (λ n p, rl_pendingNonce n p rl_address);
  _ ← eff_require (forallb (λ n, strict_eq n (default VUndef (head nonces))) nonces) "release nonce disagreement";
  prices ← of_all (λ n p, price ← rl_gasPrice n p; to_bigint price);
  gasPrice ← eff_lift (greatest prices);
  _ ← eff_require ((0 <? gasPrice) && (gasPrice <=? 15000000)) "release gas price cap exceeded";
  estimates ← of_all (λ n p, rl_estimateGas n p request rl_address gasPrice);
  estimate ← eff_lift (greatest estimates);
  let gasLimit := Z.quot (estimate * 125) 100 in
  let maximumCost := gasLimit * gasPrice + default 0 (rq_value request) in
  w ← eff_get;
  _ ← eff_require (rj_reservedWei (rw_memory w) + maximumCost <=? maximumWei) "release total budget exceeded";
  balances ← of_all (λ n p, rl_balance n p rl_address);
  _ ← eff_require (forallb (λ b, maximumCost <=? b) balances) "release wallet balance insufficient";
  nonce ← eff_lift (to_bigint (default VUndef (head nonces)));
  raw ← eff_lift (rl_sign request nonce gasLimit gasPrice);
  let item := {| ri_fingerprint := fingerprint; ri_nonce := nonce; ri_raw := raw; ri_hash := keccak256 raw;
                 ri_maximumCostWei := maximumCost; ri_mined := None |} in
  w ← eff_get;
  _ ← keep_memory (add_reserved maximumCost (set_item name item (rw_memory w)));
  _ ← durableJson;
  mret item.

Definition broadcast_step (name : string) (p : string) (raw : bytes) : eff release_world unit := λ w,
  (rl_broadcast (rw_calls w) p raw,
   {| rw_memory := rw_memory w; rw_file := rw_file w; rw_temp := rw_temp w; rw_writes := rw_writes w;
      rw_calls := S (rw_calls w); rw_broadcasts := rw_broadcasts w ++ [(name, raw)] |}).

(** [evidence.some(...)] *)
Definition differs_from (receipt : release_receipt) (r : value) : result bool :=
  if negb (truthy r) || negb (strict_eq (prop_opt r "blockHash") (VStr (rel_blockHash receipt))) then Ok true
  else
    status ← to_bigint (prop_opt r "status");
    if negb (status =? 1) then Ok true
    else gasUsed ← to_bigint (prop_opt r "gasUsed"); Ok (negb (gasUsed =? rel_gasUsed receipt)).
Definition evidence_agrees (receipt : release_receipt) (evidence : list value) : result unit :=
  forM_ (λ r, bad ← differs_from receipt r; require (negb bad) "release receipt disagreement") evidence.

Definition mined_item (receipt : release_receipt) (item : release_item) : release_item := {|
  ri_fingerprint := ri_fingerprint item; ri_nonce := ri_nonce item; ri_raw := ri_raw item; ri_hash := ri_hash item;
  ri_maximumCostWei := ri_maximumCostWei item; ri_mined := Some receipt |}.

(** What a step does with its signed transaction. *)
Definition settleStep (name : string) (item : release_item) : eff release_world release_receipt :=
  first ← eff_lift (from_option_or TYPE_ERROR (head providers));
  found ← asks (λ n, rl_receipt n first (ri_hash item));
  receipt ← (match found with
             | Some r => mret (Some r)
             | None => _ ← broadcast_step name first (ri_raw item); asks (λ n, rl_wait n first (ri_raw item))
             end);
  receipt ← eff_lift (match receipt with
                      | Some r => _ ← require (rel_status r =? 1)
                                        "release receipt absent or reverted; inspect journal before continuing"; Ok r
                      | None => Throw "release receipt absent or reverted; inspect journal before continuing"
                      end);
  evidence ← of_all (λ n p, rl_rawReceipt n p (ri_hash item));
  _ ← eff_lift (evidence_agrees receipt evidence);
  w ← eff_get;
  _ ← keep_memory (set_item name (mined_item receipt item) (rw_memory w));
  _ ← durableJson;
  mret receipt.

Definition sendStep (name : string) (request : release_request) : eff release_world release_receipt :=
  w ← eff_get;
  let fingerprint := fingerprint_of request in
  item ← (match item_of name (rw_memory w) with
          | Some item =>
              _ ← eff_require (bool_decide (ri_fingerprint item = fingerprint)) "release step differs from signed journal";
              mret item
          | None => signStep name fingerprint request
          end);
  settleStep name item.
End steps.
End sender.

(** ** The suite: its constants and what it calls *)

Definition SAFE_SINGLETON : string := "0x29fcB43b46531BcA003ddC8FCB67FFE91900C762".
Definition SAFE_SINGLETON_HASH : string := "0xb1f926978a0f44a2c0ec8fe822418ae969bd8c3f18d61e5103100339894f81ff".
Definition SAFE_FACTORY : string := "0x4e1DCf7AD4e460CfD30791CCC4F9c8a4f820ec67".
Definition SAFE_FACTORY_HASH : string := "0x50c3cdc4074750a7a974204a716c999edd37482f907608d960b2b025ee0b3317".
Definition SAFE_PROXY_HASH : string := "0xd7d408ebcd99b2b70be43e20253d6d92a8ea8fab29bd3be7f55b10032331fb4c".
Definition TESTNET_PRICING : value := VObj [
  ("minimumRequestFeeWei", VStr "10000000000000"); ("l1FeeReserveWei", VStr "500000000000");
  ("fulfillmentOverheadGas", VStr "150000"); ("perWordGas", VStr "500"); ("publicPremiumBps", VStr "2000");
  ("operatorPremiumShareBps", VStr "5000"); ("requestTimeoutBlocks", VStr "7200")].

Class SuiteApi := {
  sa_owners : nat → string → string → result (list string);           (* getOwners of a Safe *)
  sa_modules : nat → string → string → result (list string);
  sa_keyHash : nat → string → string → list Z → result string;        (* of the verifier *)
  sa_blockNumber : nat → string → result value;
  sa_contextBlock : nat → string → string → value → result Z;         (* at a block *)
  sa_parseProxyCreation : value → option (string * string);           (* the singleton and the proxy of a log *)
  sa_proxyTransaction : string → bytes → Z → result release_request;
  sa_bytecode : string → result string;                               (* of a compiled contract *)
  sa_deployTransaction : string → list value → result release_request;
  sa_createAddress : string → Z → string;
  sa_sha256 : string → string
}.

(** The manifest so far, its file and whether its temporary file is there, and the world
    of the sender. *)
Record suite_world := {
  su_release : release_world; su_contracts : list (string * value); su_keyHash : value;
  su_file : option value; su_temp : bool; su_writes : nat
}.
Definition in_release {A} (m : eff release_world A) : eff suite_world A := λ w,
  let '(r, s) := m (su_release w) in
  (r, {| su_release := s; su_contracts := su_contracts w; su_keyHash := su_keyHash w; su_file := su_file w;
         su_temp := su_temp w; su_writes := su_writes w |}).
Definition suite_asks {A} (f : nat → result A) : eff suite_world A := in_release (asks f).
Definition set_contracts (contracts : list (string * value)) : eff suite_world unit :=
  eff_modify (λ w, {| su_release := su_release w; su_contracts := contracts; su_keyHash := su_keyHash w;
                      su_file := su_file w; su_temp := su_temp w; su_writes := su_writes w |}).
Definition set_keyHash (keyHash : string) : eff suite_world unit :=
  eff_modify (λ w, {| su_release := su_release w; su_contracts := su_contracts w; su_keyHash := VStr keyHash;
                      su_file := su_file w; su_temp := su_temp w; su_writes := su_writes w |}).

Section suite.
Context `{Ethers, NobleBls, ReleaseDisk, ReleaseRpc, ReadinessApi, VerifierApi, GovernanceApi, SuiteApi}.
Context (out : ReleaseDisk).                 (* what happens to the writes of the manifest *)
Context (providers : list string) (maximumWei : Z) (roles : value) (publicKey : list Z) (gitCommit : string).
Context (generatedAt updatedAt nodeVersion : string).

(** ** The manifest *)

Definition role (name : string) : value := prop_opt roles name.
Definition governance_owners : value := VArr [role "safe-signer-1"; role "safe-signer-2"; role "safe-signer-3"].
Definition suite_manifest (status : string) (final : list (string * value)) (w : suite_world) : value := VObj ([
  ("format", VStr "robinhood-proof-vrf-deployment/v3"); ("status", VStr status); ("chainId", VNum 46630);
  ("gitCommit", VStr gitCommit); ("generatedAt", VStr generatedAt); ("deployer", role "deployer");
  ("fulfiller", role "fulfiller"); ("archiver", role "archiver"); ("guardian", role "guardian"); ("payee", role "payee");
  ("canary", role "canary-subscription"); ("contracts", VObj (su_contracts w)); ("pricing", TESTNET_PRICING);
  ("publicKey", VArr ((λ z, VStr (print_int z)) <$> publicKey));
  ("keyConfig", VObj [("maxGasPriceWei", VStr "50000000"); ("verificationGasLimit", VStr "2100000"); ("proofDataLength", VNum 416)]);
  ("sourceVerification", VObj [("status", VStr "pending")]);
  ("threshold", VObj [("status", VStr "verifiers-only-not-registered-not-network-active")]);
  ("build", VObj [("node", VStr nodeVersion); ("solc", VStr "0.8.24"); ("viaIR", VBool true); ("optimizerRuns", VNum 500)]);
  ("governance", VObj [("owners", governance_owners); ("threshold", VNum 2);
     ("custody", VStr "same-local-host-testnet-only"); ("delaySeconds", VNum 43200);
     ("singleton", VStr SAFE_SINGLETON); ("factory", VStr SAFE_FACTORY)]); ("keyHash", su_keyHash w)] ++ final).

(** [durableJson(out, manifest)] *)
Definition durableManifest (manifest : value) : eff suite_world unit := λ w,
  let ends temp file := {|
    su_release := su_release w; su_contracts := su_contracts w; su_keyHash := su_keyHash w; su_file := file;
    su_temp := temp; su_writes := S (su_writes w) |} in
  let written := Some (reread manifest) in
  if bool_decide (is_Some (su_file w)) && unsafe_file (@disk_metadata out (su_writes w))
  then (Throw "unsafe release journal path", ends (su_temp w) (su_file w))
  else if su_temp w then (Throw "EEXIST: file already exists", ends true (su_file w))
  else match @disk_write out (su_writes w) with
       | NotOpened => (Throw "EIO", ends false (su_file w))
       | TempLeft => (Throw "EIO", ends true (su_file w))
       | Renamed => (Throw "EIO", ends false written)
       | Synced => (Ok tt, ends false written)
       end.

(** ** One contract *)

Definition contract_entry (address : string) (receipt : release_receipt) (contractName : string) (args : list value)
    (code : bytes) : value := VObj [
  ("address", VStr address); ("contractName", VStr contractName); ("constructorArguments", VArr args);
  ("runtimeCodeHash", VStr (keccak256 code)); ("blockNumber", VNum (rel_blockNumber receipt));
  ("transactionHash", prop_opt (rel_rest receipt) "hash"); ("gasUsed", VStr (print_int (rel_gasUsed receipt)));
  ("feeWei", VStr (print_int (rel_fee receipt)))].
Definition capture (name address : string) (receipt : release_receipt) (contractName : string) (args : list value)
    : eff suite_world bytes :=
  codes ← mapM (λ p, suite_asks (λ n, rd_code n p address)) providers;
  code ← eff_lift (from_option_or TYPE_ERROR (head codes));
  _ ← eff_require (forallb (λ c, has_code c && bool_decide (c = code)) codes) "deployment runtime disagreement";
  w ← eff_get;
  _ ← set_contracts (assoc_set name (contract_entry address receipt contractName args code) (su_contracts w));
  w ← eff_get;
  _ ← durableManifest (suite_manifest "deploying" [] w);
  mret code.

Definition deploy (name contractName : string) (args : list value) : eff suite_world string :=
  bytecode ← eff_lift (sa_bytecode contractName);
  request ← eff_lift (sa_deployTransaction contractName args);
  receipt ← in_release (sendStep providers maximumWei name request);
  w ← eff_get;
  item ← eff_lift (from_option_or TYPE_ERROR (item_of name (rw_memory (su_release w))));
  let address := sa_createAddress rl_address (ri_nonce item) in
  created ← eff_lift (checked_address (Ok (prop_opt (rel_rest receipt) "contractAddress")));
  _ ← eff_require (bool_decide (created = address)) "CREATE address mismatch";
  _ ← capture name address receipt contractName args;
  w ← eff_get;
  let entry := default VUndef (assoc name (su_contracts w)) in
  _ ← set_contracts (assoc_set name (set_prop entry "artifactBytecodeSha256" (VStr (sa_sha256 bytecode))) (su_contracts w));
  mret address.

(** ** The Safe *)

Definition checkSafePin (p : string) : eff suite_world unit :=
  let mismatch := "Safe official runtime pin mismatch" in
  singleton ← suite_asks (λ n, rd_code n p SAFE_SINGLETON);
  _ ← eff_require (bool_decide (keccak256 singleton = SAFE_SINGLETON_HASH)) mismatch;
  factory ← suite_asks (λ n, rd_code n p SAFE_FACTORY);
  eff_require (bool_decide (keccak256 factory = SAFE_FACTORY_HASH)) mismatch.
Definition checkRoles : result unit :=
  entries ← object_entries roles;
  all ← mapM (λ kv, checked_address (Ok kv.2)) entries;
  require ((length all =? 9)%nat && bool_decide (NoDup all) && negb (bool_decide (ZERO_ADDRESS ∈ all)))
    "nine distinct testnet roles required".
(** The proxy that the factory's log tells. *)
Definition created_proxy (receipt : release_receipt) : result string :=
  logs ← items (prop_opt (rel_rest receipt) "logs");
  own ← mapM (λ l, a ← to_lower (prop_opt l "address"); Ok (l, bool_decide (a = lower SAFE_FACTORY))) logs;
  match omap sa_parseProxyCreation (fst <$> filter (λ l, l.2 = true) own) with
  | (singleton, proxy) :: _ =>
      _ ← require (bool_decide (getAddress singleton = getAddress SAFE_SINGLETON)) "Safe creation event missing"; Ok proxy
  | [] => Throw "Safe creation event missing"
  end.
Definition sorted_addresses (l : list value) : result value :=
  l ← mapM (λ v, checked_address (Ok v)) l; Ok (VArr (js_sort_values (VStr <$> l))).
Definition checkSafe (safe p : string) : eff suite_world unit :=
  let mismatch := "Safe ownership or modules mismatch" in
  owners ← suite_asks (λ n, sa_owners n p safe);
  owners ← eff_lift (sorted_addresses (VStr <$> owners));
  expected ← eff_lift (l ← items governance_owners; sorted_addresses l);
  _ ← eff_require (bool_decide (json_text owners = json_text expected)) mismatch;
  threshold ← suite_asks (λ n, rd_number n p safe "getThreshold");
  _ ← eff_require (threshold =? 2) mismatch;
  modules ← suite_asks (λ n, sa_modules n p safe);
  eff_require (bool_decide (modules = [])) mismatch.
Definition deploySafe : eff suite_world string :=
  initializer ← eff_lift (encodeFunctionData "setup" [governance_owners; VNum 2; VStr ZERO_ADDRESS; VStr "0x";
    VStr ZERO_ADDRESS; VStr ZERO_ADDRESS; VNum 0; VStr ZERO_ADDRESS]);
  salt ← eff_lift (to_bigint (role "deployer"));
  request ← eff_lift (sa_proxyTransaction SAFE_SINGLETON initializer salt);
  receipt ← in_release (sendStep providers maximumWei "safe" request);
  safe ← eff_lift (created_proxy receipt);
  code ← capture "safe" safe receipt "SafeProxy" [VStr SAFE_SINGLETON];
  _ ← eff_require (bool_decide (keccak256 code = SAFE_PROXY_HASH)) "Safe proxy runtime mismatch";
  _ ← eff_forM (checkSafe safe) providers;
  mret safe.

(** ** The suite *)

(** The deployed configuration, at one endpoint. *)
Definition verifyDeployed (coordinator timelock safe backend adapter keyHash p : string) : eff suite_world unit :=
  let failed := "deployed config verification failed" in
  let text contract f := suite_asks (λ n, rd_text n p contract f) in
  let same (v : eff suite_world string) (expected : value) :=
    v ← v; eff_require (strict_eq (VStr v) expected) failed in
  key ← suite_asks (λ n, rd_key n p coordinator keyHash);
  block ← suite_asks (λ n, sa_blockNumber n p);
  _ ← same (text coordinator "owner") (VStr timelock);
  _ ← same (text coordinator "pendingOwner") (VStr ZERO_ADDRESS);
  _ ← same (text coordinator "guardian") (role "guardian");
  _ ← same (text timelock "owner") (VStr safe);
  delay ← suite_asks (λ n, rd_number n p timelock "delay");
  _ ← eff_require ((delay =? 43200) && k_active key) failed;
  _ ← same (mret (k_fulfiller key)) (role "fulfiller");
  _ ← same (mret (k_payee key)) (role "payee");
  _ ← eff_require (k_proofDataLength key =? 416) failed;
  context ← suite_asks (λ n, sa_contextBlock n p coordinator block);
  height ← eff_lift (to_bigint block);
  _ ← eff_require (context =? height) failed;
  v ← eff_lift testVector;
  let probe := "BLS precompile probe failed" in
  valid ← suite_asks (λ n, vb_verify n p backend (tv_groupPublicKey v) (tv_message v) (tv_signature v));
  _ ← eff_require valid probe;
  first ← eff_lift (from_option_or TYPE_ERROR (head providers));
  hash ← suite_asks (λ n, vb_keyHash n first adapter (tv_groupPublicKey v));
  valid ← suite_asks (λ n, vb_validateKey n p adapter hash (tv_groupPublicKey v));
  eff_require valid probe.

Definition total_fee (contracts : list (string * value)) : result Z :=
  foldM (λ sum c, fee ← to_bigint (prop_opt c.2 "feeWei"); Ok (sum + fee)) 0 contracts.
Definition coordinator_key (verifier keyHash : string) : value := VObj [
  ("keyHash", VStr keyHash); ("verifier", VStr verifier);
  ("keyData", VStr (hexlify (abi_encode ["uint256[2]"] [VArr (VBig <$> publicKey)])));
  ("fulfiller", role "fulfiller"); ("payee", role "payee"); ("maxGasPriceWei", VStr "50000000");
  ("verificationGasLimit", VStr "2100000")].
Definition deployCompactSuite : eff suite_world value :=
  _ ← eff_forM checkSafePin providers;
  _ ← eff_lift checkRoles;
  safe ← deploySafe;
  timelock ← deploy "timelock" "VRFAdminTimelock" [VStr safe; VNum 43200];
  context ← deploy "blockContext" "ArbitrumBlockContext" [];
  store ← deploy "blockhashStore" "BlockhashStore" [VStr context];
  fee ← deploy "l1FeeCalculator" "ArbitrumL1FeeCalculator" [];
  verifier ← deploy "verifier" "Secp256k1ECVRFVerifier" [];
  first ← eff_lift (from_option_or TYPE_ERROR (head providers));
  keyHash ← suite_asks (λ n, sa_keyHash n first verifier publicKey);
  _ ← set_keyHash keyHash;
  coordinator ← deploy "coordinator" "VRFServiceCoordinatorV3"
    [VStr timelock; role "guardian"; VStr store; VStr fee; TESTNET_PRICING; coordinator_key verifier keyHash];
  backend ← deploy "blsBackend" "BLS12381Backend" [];
  adapter ← deploy "thresholdVerifier" "ThresholdBLSVerifierAdapter" [VStr backend];
  _ ← eff_forM (verifyDeployed coordinator timelock safe backend adapter keyHash) providers;
  w ← eff_get;
  total ← eff_lift (total_fee (su_contracts w));
  let manifest := suite_manifest "deployed" [
    ("ownershipStatus", VStr "timelock-owner-from-constructor"); ("keyRegistrationMode", VStr "constructor-atomic");
    ("precompileInterop", VStr "pass"); ("updatedAt", VStr updatedAt); ("totalDeploymentFeeWei", VStr (print_int total))] w in
  _ ← durableManifest manifest;
  mret manifest.
End suite.
