(* ===== verification/ReleaseSafety.v ===== *)
(** * What a release promises ([scripts/deploy-compact-testnet.mjs])

    It sends what its journal holds: over all runs of the release, whatever the
    endpoints answer, whatever writes fail and wherever a run stops.  The manifest it
    writes at the end is one that the processes take ([run-compact.mjs]). *)

From S2P Require Import Prelude Js Hex CanonicalJson JsonText Json Vendor Samples ThresholdCrypto Policies DkgCeremony ThresholdNode NodeRecovery VrfContract Archiver CompactWorker CommandLine Readiness ServiceStartSafety SoakReport SourceVerification DeploymentCheck DeploymentSafety ThresholdCheck Processes Governance ReleaseSender.

Open Scope Z_scope.

(** ** The journal *)

Definition costs (j : release_journal) : Z := foldr (λ x n, ri_maximumCostWei x.2 + n) 0 (rj_transactions j).
(** The costs of the signed transactions are what is reserved, within the maximum. *)
Definition journal_within (M : Z) (j : release_journal) : Prop :=
  rj_reservedWei j = costs j ∧ costs j <= M ∧ rj_maximumWei j = print_int M.
(** The broadcast bytes of a step are those of its journal entry. *)
Definition journaled (j : release_journal) (b : string * bytes) : Prop :=
  ∃ item, item_of b.1 j = Some item ∧ ri_raw item = b.2.
(** The same steps, but for what is known of their receipts. *)
Definition same_steps (j k : release_journal) : Prop :=
  rj_maximumWei k = rj_maximumWei j ∧ rj_reservedWei k = rj_reservedWei j ∧ costs k = costs j ∧
  ∀ name, ri_raw <$> item_of name k = ri_raw <$> item_of name j.
#[local] Instance same_steps_preorder : PreOrder same_steps.
Proof. split; [by intros j|]. intros j k l (?&?&?&E1) (?&?&?&E2). split_and!; congruence. Qed.

Lemma same_steps_journaled j k b : same_steps j k → journaled j b → journaled k b.
Proof.
  intros (_ & _ & _ & E) (item & Hi & Er). specialize (E b.1). rewrite Hi in E.
  destruct (item_of b.1 k) as [item'|] eqn:Ek; [|discriminate E]. injection E as E. exists item'. by rewrite E.
Qed.
Lemma same_steps_within M j k : same_steps j k → journal_within M j → journal_within M k.
Proof. intros (E1 & E2 & E3 & _) (? & ? & ?). unfold journal_within. by rewrite E1, E2, E3. Qed.
Lemma same_steps_reread j : same_steps j (reread_journal j).
Proof. by split_and!. Qed.

Lemma costs_set name item l :
  foldr (λ x n, ri_maximumCostWei x.2 + n) 0 (assoc_set name item l) =
  foldr (λ x n, ri_maximumCostWei x.2 + n) 0 l + ri_maximumCostWei item
  - from_option ri_maximumCostWei 0 (assoc name l).
Proof. induction l as [|[k y] l IH]; cbn; [lia|]. destruct (decide (name = k)); cbn; lia. Qed.
Lemma item_of_set name item j name' :
  item_of name' (set_item name item j) = if decide (name' = name) then Some item else item_of name' j.
Proof.
  unfold item_of, set_item. cbn. destruct (decide _) as [->|Hne]; [apply assoc_assoc_set|by apply assoc_assoc_set_ne].
Qed.
(** A receipt that is noted. *)
Lemma same_steps_mined name item receipt j :
  item_of name j = Some item → same_steps j (set_item name (mined_item receipt item) j).
Proof.
  intros Hi. split_and!; try done.
  - unfold costs, set_item. cbn [rj_transactions]. rewrite costs_set. unfold item_of in Hi. rewrite Hi. cbn. lia.
  - intros name'. rewrite item_of_set. destruct (decide _) as [->|]; [by rewrite Hi|done].
Qed.

(** ** The world of a sender *)

(** What is on disk: nothing before the first broadcast, or a journal within its
    maximum that has every broadcast. *)
Definition disk_ok (w : release_world) : Prop :=
  match rw_file w with
  | None => rw_broadcasts w = []
  | Some j => (∃ M, journal_within M j) ∧ Forall (journaled j) (rw_broadcasts w)
  end.
(** A running sender has the journal of the disk, or none of either. *)
Definition sender_ok (M : Z) (w : release_world) : Prop :=
  journal_within M (rw_memory w) ∧ disk_ok w ∧
  match rw_file w with
  | None => rj_transactions (rw_memory w) = []
  | Some j => same_steps j (rw_memory w) ∧ same_steps (rw_memory w) j
  end.

(** The calls leave the journal and the broadcasts alone. *)
Definition quiet (w w' : release_world) : Prop :=
  rw_memory w' = rw_memory w ∧ rw_file w' = rw_file w ∧ rw_broadcasts w' = rw_broadcasts w.
#[local] Instance quiet_preorder : PreOrder quiet.
Proof. split; [by intros w|]. intros ??? (?&?&?) (?&?&?). split_and!; congruence. Qed.
Lemma quiet_sender M w w' : quiet w w' → sender_ok M w → sender_ok M w'.
Proof. intros (Em & Ef & Eb). unfold sender_ok, disk_ok. by rewrite Em, Ef, Eb. Qed.
Lemma quiet_disk w w' : quiet w w' → disk_ok w → disk_ok w'.
Proof. intros (Em & Ef & Eb). unfold disk_ok. by rewrite Ef, Eb. Qed.

Section sender.
Context `{Ethers, ReleaseDisk, ReleaseRpc}.

Lemma quiet_asks {A} (f : nat → result A) : keeps quiet (asks f).
Proof. intros w. done. Qed.
Lemma quiet_of_all {A} providers (f : nat → string → result A) : keeps quiet (of_all providers f).
Proof. apply (keeps_mapM quiet). intros p. apply quiet_asks. Qed.

(** A write puts the journal on disk, or leaves the disk; when it returns it did. *)
Lemma durableJson_cases w :
  wp durableJson (λ r w', rw_memory w' = rw_memory w ∧ rw_broadcasts w' = rw_broadcasts w ∧
    (rw_file w' = Some (reread_journal (rw_memory w)) ∨ rw_file w' = rw_file w ∧ r ≠ Ok tt)) w.
Proof.
  unfold wp, durableJson. destruct (_ && _); [cbn; naive_solver|]. destruct (rw_temp w); [cbn; naive_solver|].
  destruct (disk_write _); cbn; naive_solver.
Qed.

(** The write of a journal that has the broadcasts. *)
Lemma durableJson_ok M w :
  journal_within M (rw_memory w) → Forall (journaled (rw_memory w)) (rw_broadcasts w) → disk_ok w →
  wp durableJson (λ r w', disk_ok w' ∧ (r = Ok tt → sender_ok M w' ∧ rw_file w' = Some (reread_journal (rw_memory w)) ∧
    rw_memory w' = rw_memory w)) w.
Proof.
  intros Hm Hb Hd. eapply wp_mono; [apply durableJson_cases|]. cbn. intros r w' (Em & Eb & Hf).
  assert (same_steps (rw_memory w) (reread_journal (rw_memory w))) as Hs by apply same_steps_reread.
  assert (rw_file w' = Some (reread_journal (rw_memory w)) → disk_ok w') as Hnew.
  { intros Ef. unfold disk_ok. rewrite Ef, Eb. split; [exists M; by eapply same_steps_within|].
    eapply Forall_impl; [exact Hb|]. intros b. by apply same_steps_journaled. }
  destruct Hf as [Ef|[Ef Hr]].
  - split; [by apply Hnew|]. intros _. split; [|done]. split; [by rewrite Em|]. split; [by apply Hnew|].
    rewrite Ef, Em. split; [|done]. by split_and!.
  - split; [unfold disk_ok in *; by rewrite Ef, Eb|done].
Qed.

(** The steps before a signature: whatever they end with, the sender is as it was. *)
Lemma wp_all_bind {A B} providers (f : nat → string → result A) (k : list A → eff release_world B) Q w0 w :
  quiet w0 w → (∀ l w', quiet w0 w' → wp (k l) Q w') → (∀ e w', quiet w0 w' → Q (Throw e) w') →
  wp (of_all providers f ≫= k) Q w.
Proof. intros Hw Hk He. by apply (wp_step_bind quiet _ _ _ w0); [apply quiet_of_all| |eauto|]. Qed.

(** An entry of the journal for a step, on disk. *)
Definition release_on_disk (name : string) (item : release_item) (w : release_world) : Prop :=
  item_of name (rw_memory w) = Some item ∧
  ∃ j item', rw_file w = Some j ∧ item_of name j = Some item' ∧ ri_raw item' = ri_raw item.

Lemma signStep_ok providers M name fingerprint request w :
  sender_ok M w → item_of name (rw_memory w) = None →
  wp (signStep providers M name fingerprint request) (λ r w', disk_ok w' ∧
    ∀ item, r = Ok item → sender_ok M w' ∧ release_on_disk name item w' ∧ ri_fingerprint item = fingerprint) w.
Proof.
  intros Hw Hnew. assert (∀ (e : string) w', quiet w w' → disk_ok w' ∧ ∀ item, Throw e = Ok item →
    sender_ok M w' ∧ release_on_disk name item w' ∧ ri_fingerprint item = fingerprint) as Hthrow.
  { intros e w' Hq. split; [|done]. eapply quiet_disk; [exact Hq|]. apply Hw. }
  unfold signStep. apply (wp_all_bind _ _ _ _ w); [done|intros networks w1 Hq1|by auto].
  apply wp_lift_bind; [intros _ _|by auto]. apply (wp_all_bind _ _ _ _ w); [done|intros nonces w2 Hq2|by auto].
  apply wp_require_bind; [intros _|by auto]. apply (wp_all_bind _ _ _ _ w); [done|intros prices w3 Hq3|by auto].
  apply wp_lift_bind; [intros gasPrice _|by auto]. apply wp_require_bind; [intros _|by auto].
  apply (wp_all_bind _ _ _ _ w); [done|intros estimates w4 Hq4|by auto].
  apply wp_lift_bind; [intros estimate _|by auto]. set (cost := Z.quot _ _ * _ + _).
  apply wp_bind. unfold wp at 1, eff_get. cbn [fst snd]. apply wp_require_bind; [intros Hmax%Z.leb_le|by auto].
  apply (wp_all_bind _ _ _ _ w); [done|intros balances w5 Hq5|by auto].
  apply wp_require_bind; [intros _|by auto]. apply wp_lift_bind; [intros nonce _|by auto].
  apply wp_lift_bind; [intros raw _|by auto]. set (item := Build_release_item _ _ _ _ _ _).
  apply wp_bind. unfold wp at 1, eff_get. cbn [fst snd]. apply wp_bind. unfold wp at 1, keep_memory, eff_modify. cbn [fst snd].
  set (w6 := Build_release_world _ _ _ _ _ _). destruct Hq5 as (Em & Ef & Eb). destruct Hq4 as (Em4 & _).
  destruct Hw as ((Hr & Hc & HM) & Hd & Hf). rewrite Em4 in Hmax.
  assert (costs (rw_memory w6) = costs (rw_memory w) + cost) as Ecost.
  { unfold w6, costs, add_reserved, set_item. cbn [rw_memory rj_transactions]. rewrite Em, costs_set.
    unfold item_of in Hnew. rewrite Hnew. cbn. lia. }
  apply wp_bind. eapply wp_mono; [apply (durableJson_ok M w6)|].
  - unfold journal_within. rewrite Ecost. cbn [w6 rw_memory add_reserved set_item rj_reservedWei rj_maximumWei].
    rewrite Em, Hr. split; [done|]. split; [|done]. rewrite <-Hr. exact Hmax.
  - cbn [w6 rw_broadcasts rw_memory]. rewrite Eb. unfold disk_ok in Hd. destruct (rw_file w) as [j|]; [|by rewrite Hd].
    destruct Hd as [_ Hd]. destruct Hf as [Hf _]. eapply Forall_impl; [exact Hd|]. intros b Hb.
    apply (same_steps_journaled _ _ _ Hf) in Hb as (item' & Hi & Er). exists item'. split; [|done].
    rewrite Em. change (item_of b.1 (set_item name item (rw_memory w)) = Some item'). rewrite item_of_set.
    destruct (decide _) as [E|]; [|done]. rewrite E, Hnew in Hi. discriminate Hi.
  - unfold disk_ok in *. cbn [w6 rw_file rw_broadcasts]. by rewrite Ef, Eb.
  - intros [[]|e] w' [Hd' Hok]; [|done]. apply wp_ret. split; [done|]. intros item' [= <-].
    destruct (Hok eq_refl) as (Hs & Ef' & Em'). split; [done|]. split; [|done].
    assert (item_of name (rw_memory w6) = Some item) as Hi.
    { cbn [w6 rw_memory]. change (item_of name (set_item name item (rw_memory w5)) = Some item).
      rewrite item_of_set. by rewrite decide_True. }
    split; [by rewrite Em'|]. exists (reread_journal (rw_memory w6)), item. by split_and!.
Qed.

(** ** What a step does with its transaction *)

(** An endpoint serves the receipt of the transaction as the sender returned it. *)
Definition serves_receipt (item : release_item) (receipt : release_receipt) (p : string) : Prop :=
  ∃ n r, rl_rawReceipt n p (ri_hash item) = Ok r ∧ strict_eq (prop_opt r "blockHash") (VStr (rel_blockHash receipt)) = true ∧
    to_bigint (prop_opt r "status") = Ok 1 ∧ to_bigint (prop_opt r "gasUsed") = Ok (rel_gasUsed receipt).
Lemma evidence_agrees_Ok receipt evidence :
  evidence_agrees receipt evidence = Ok tt →
  Forall (λ r, strict_eq (prop_opt r "blockHash") (VStr (rel_blockHash receipt)) = true ∧
    to_bigint (prop_opt r "status") = Ok 1 ∧ to_bigint (prop_opt r "gasUsed") = Ok (rel_gasUsed receipt)) evidence.
Proof.
  unfold evidence_agrees. rewrite forM_Ok. intros Hall. eapply Forall_impl; [exact Hall|].
  intros r (bad & Hb & Hr%require_Ok)%bind_Ok.
  apply negb_true_iff in Hr as ->. unfold differs_from in Hb. destruct (_ || _) eqn:E; [discriminate Hb|].
  apply orb_false_iff in E as [_ E%negb_false_iff]. apply bind_Ok in Hb as (status & Hs & Hb).
  destruct (status =? 1) eqn:Es; [|discriminate Hb]. apply Z.eqb_eq in Es as ->. cbn [negb] in Hb.
  apply bind_Ok in Hb as (gasUsed & Hg & [= Hb]). apply negb_false_iff, Z.eqb_eq in Hb as ->. by split_and!.
Qed.
Lemma of_all_Ok {A} providers (f : nat → string → result A) w l w' :
  of_all providers f w = (Ok l, w') → Forall2 (λ p a, ∃ n, f n p = Ok a) providers l.
Proof. apply mapM_eff_Ok. intros p v a v' _ [= Ha _]. by eexists. Qed.

(** A sender between the signature and the receipt of a step. *)
Definition signed (M : Z) (name : string) (item : release_item) (w : release_world) : Prop :=
  sender_ok M w ∧ release_on_disk name item w.
Lemma quiet_signed M name item w w' : quiet w w' → signed M name item w → signed M name item w'.
Proof.
  intros Hq [Hs Hd]. split; [by eapply quiet_sender|]. destruct Hq as (Em & Ef & Eb). unfold release_on_disk. by rewrite Em, Ef.
Qed.
Lemma broadcast_signed M name item p w :
  signed M name item w → wp (broadcast_step name p (ri_raw item)) (λ _ w', signed M name item w') w.
Proof.
  intros [(Hm & Hd & Hf) (Hi & j & item' & Ef & Hj & Er)]. unfold wp, broadcast_step. cbn [snd].
  split; [|by split; [|exists j, item']]. split; [done|]. split; [|done].
  unfold disk_ok in *. cbn [rw_file rw_broadcasts]. rewrite Ef in *. destruct Hd as [HM Hd]. split; [done|].
  apply Forall_app. split; [done|]. constructor; [|constructor]. by exists item'.
Qed.

(** What a step that returns has. *)
Definition settled (providers : list string) (M : Z) (name fingerprint : string) (receipt : release_receipt)
    (w : release_world) : Prop :=
  ∃ item, signed M name item w ∧ ri_fingerprint item = fingerprint ∧ rel_status receipt = 1 ∧
    Forall (serves_receipt item receipt) providers.

Lemma settleStep_ok providers M name item w :
  signed M name item w →
  wp (settleStep providers name item) (λ r w', disk_ok w' ∧
    ∀ receipt, r = Ok receipt → settled providers M name (ri_fingerprint item) receipt w') w.
Proof.
  intros Hw. assert (∀ (e : string) w', signed M name item w' → disk_ok w' ∧ ∀ receipt, Throw e = Ok receipt →
    settled providers M name (ri_fingerprint item) receipt w') as Hthrow by (intros e w' [(_ & Hd & _) _]; by split).
  unfold settleStep. apply wp_lift_bind; [intros first _|by auto].
  apply (wp_step_bind quiet _ _ _ w); [apply quiet_asks|done| |by intros e w' Hq; apply Hthrow; eapply quiet_signed].
  intros found w1 _ Hq1. assert (signed M name item w1) as Hw1 by by eapply quiet_signed. apply wp_bind.
  apply (wp_mono _ (λ _ w', signed M name item w')).
  { destruct found as [r|]; [by apply wp_ret|]. apply wp_bind. eapply wp_mono; [by apply broadcast_signed|].
    intros [[]|e] w' Hw'; [|done]. unfold wp, asks. cbn [snd]. by apply (quiet_signed _ _ _ w'). }
  intros [receipt|e] w2 Hw2; [|by auto]. apply wp_lift_bind; [intros rc Hrc|by auto].
  assert (rel_status rc = 1) as Hstatus.
  { destruct receipt as [r|]; [|discriminate Hrc]. by apply bind_Ok in Hrc as ([] & ?%require_Ok%Z.eqb_eq & [= <-]). }
  apply (wp_step_bind quiet _ _ _ w2); [apply quiet_of_all|done| |].
  2: { intros e w' Hq. apply Hthrow. by eapply quiet_signed. }
  intros evidence w3 Hev%of_all_Ok Hq. assert (signed M name item w3) as Hw3 by by eapply quiet_signed.
  apply wp_lift_bind; [intros [] Hagree%evidence_agrees_Ok|by auto].
  assert (Forall (serves_receipt item rc) providers) as Hserves.
  { apply Forall_forall. intros p Hp. apply list_elem_of_lookup in Hp as [i Hi]. destruct (Forall2_lookup_l _ _ _ _ _ Hev Hi) as (r & Hr%list_elem_of_lookup_2 & n & Hn).
    rewrite Forall_forall in Hagree. exists n, r. split; [exact Hn|by apply Hagree]. }
  apply wp_bind. unfold wp at 1, eff_get. cbn [fst snd]. apply wp_bind. unfold wp at 1, keep_memory, eff_modify. cbn [fst snd].
  set (w4 := Build_release_world _ _ _ _ _ _). destruct Hw3 as [(Hm & Hd & Hf) (Hi & j & item' & Ef & Hj & Er)].
  pose proof (same_steps_mined name item rc _ Hi) as Hsame. rewrite Ef in Hf. destruct Hf as [Hjm Hmj].
  apply wp_bind. eapply wp_mono; [apply (durableJson_ok M w4)|].
  - by eapply same_steps_within.
  - cbn [w4 rw_broadcasts rw_memory]. unfold disk_ok in Hd. rewrite Ef in Hd. destruct Hd as [_ Hd].
    eapply Forall_impl; [exact Hd|]. intros b Hb. by eapply same_steps_journaled, same_steps_journaled.
  - unfold disk_ok in *. cbn [w4 rw_file rw_broadcasts]. by rewrite Ef in *.
  - intros [[]|e] w' [Hd' Hok]; [|by split]. apply wp_ret. split; [done|]. intros receipt' [= <-].
    destruct (Hok eq_refl) as (Hs & Ef' & Em'). exists (mined_item rc item). split; [|by split_and!].
    split; [done|].
    assert (item_of name (rw_memory w4) = Some (mined_item rc item)) as Hi4.
    { cbn [w4 rw_memory]. rewrite item_of_set. by rewrite decide_True. }
    split; [by rewrite Em'|]. exists (reread_journal (rw_memory w4)), (mined_item rc item). by split_and!.
Qed.

Lemma sendStep_ok providers M name request w :
  sender_ok M w →
  wp (sendStep providers M name request) (λ r w', disk_ok w' ∧
    ∀ receipt, r = Ok receipt → settled providers M name (fingerprint_of request) receipt w') w.
Proof.
  intros Hw. unfold sendStep. apply wp_bind. unfold wp at 1, eff_get. cbn [fst snd].
  apply wp_bind, (wp_mono _ (λ r w', disk_ok w' ∧ ∀ item, r = Ok item → signed M name item w' ∧ ri_fingerprint item = fingerprint_of request)).
  - destruct (item_of name (rw_memory w)) as [item|] eqn:Hi.
    + apply wp_require_bind; [|by split; [apply Hw|]]. intros Hfp%bool_decide_eq_true. apply wp_ret.
      split; [apply Hw|]. intros item' [= <-]. split; [|done]. split; [done|]. split; [done|].
      destruct Hw as (_ & _ & Hf). destruct (rw_file w) as [j|] eqn:Ef.
      2: { unfold item_of in Hi. rewrite Hf in Hi. discriminate Hi. }
      destruct Hf as [(_ & _ & _ & E) _]. specialize (E name). rewrite Hi in E.
      destruct (item_of name j) as [item'|] eqn:Ej; [|discriminate E]. injection E as E. by exists j, item'.
    + eapply wp_mono; [by apply signStep_ok|]. intros r w' [Hd Hok]. split; [done|]. intros item ->.
      destruct (Hok item eq_refl) as (? & ? & ?). by split.
  - intros [item|e] w' [Hd Hok]; [|by split]. destruct (Hok item eq_refl) as [Hs <-].
    by apply settleStep_ok.
Qed.
End sender.

(** ** The runs of a release *)
Section runs.
Context `{Ethers, ReleaseDisk, ReleaseRpc}.

(** Whether a run is up, with its maximum, and its world.  The memory of a run that is
    down means nothing. *)
Record release_machine := { rm_running : option Z; rm_world : release_world }.
(** A run starts on the journal, sends steps until one throws, and may stop anywhere: a
    stop inside a step is a step that throws there.  The operator may remove a
    temporary file. *)
Inductive release_move : release_machine → release_machine → Prop :=
  | release_start m identity M r w :
      rm_running m = None → 0 <= M → openSender identity M (rm_world m) = (r, w) →
      release_move m {| rm_running := if r is Ok _ then Some M else None; rm_world := w |}
  | release_send m M providers name request r w :
      rm_running m = Some M → sendStep providers M name request (rm_world m) = (r, w) →
      release_move m {| rm_running := if r is Ok _ then Some M else None; rm_world := w |}
  | release_stop m : release_move m {| rm_running := None; rm_world := rm_world m |}
  | release_clean m :
      release_move m {| rm_running := rm_running m; rm_world := {|
        rw_memory := rw_memory (rm_world m); rw_file := rw_file (rm_world m); rw_temp := false;
        rw_writes := rw_writes (rm_world m); rw_calls := rw_calls (rm_world m);
        rw_broadcasts := rw_broadcasts (rm_world m) |} |}.
Lemma release_starts M identity w r :
  0 <= M → (openSender identity M w).1 = r →
  release_move {| rm_running := None; rm_world := w |}
    {| rm_running := if r is Ok _ then Some M else None; rm_world := (openSender identity M w).2 |}.
Proof. intros HM <-. eapply release_start; [done|done|]. apply surjective_pairing. Qed.
Lemma release_sends M providers name request w r :
  (sendStep providers M name request w).1 = r →
  release_move {| rm_running := Some M; rm_world := w |}
    {| rm_running := if r is Ok _ then Some M else None; rm_world := (sendStep providers M name request w).2 |}.
Proof. intros <-. eapply release_send; [done|]. apply surjective_pairing. Qed.
Definition no_release (memory : release_journal) : release_machine := {|
  rm_running := None; rm_world := {| rw_memory := memory; rw_file := None; rw_temp := false; rw_writes := 0;
                                     rw_calls := 0; rw_broadcasts := [] |} |}.

Lemma openSender_ok identity M w :
  0 <= M → disk_ok w → wp (openSender identity M) (λ r w', disk_ok w' ∧ (r = Ok tt → sender_ok M w')) w.
Proof.
  intros HM Hd. unfold openSender. apply wp_bind. unfold wp at 1, eff_get. cbn [fst snd].
  apply wp_require_bind; [intros _|by split]. apply wp_bind. unfold wp at 1, keep_memory, eff_modify. cbn [fst snd].
  set (journal := default _ _). apply wp_lift. split; [done|]. intros [_ Hmax%bool_decide_eq_true]%require_Ok%andb_true_iff.
  unfold sender_ok. cbn [rw_memory rw_file]. unfold journal in *. destruct (rw_file w) as [j|] eqn:Ef.
  - unfold disk_ok in Hd. rewrite Ef in Hd. cbn [default from_option id] in *. split; [|split; [|done]].
    + destruct Hd as [(M' & Hr & Hc & HM') _]. rewrite HM' in Hmax. apply print_int_inj in Hmax as ->. done.
    + exact Hd.
  - unfold disk_ok in Hd. rewrite Ef in Hd. split; [by split_and!|]. by split.
Qed.

Definition machine_ok (m : release_machine) : Prop :=
  disk_ok (rm_world m) ∧ ∀ M, rm_running m = Some M → sender_ok M (rm_world m).
Lemma release_move_ok m m' : machine_ok m → release_move m m' → machine_ok m'.
Proof.
  intros Hok Hmove. revert Hok.
  destruct Hmove as [m0 identity M r w _ HM E|m0 M providers name request r w Hup E|m0|m0]; intros [Hd Hs].
  - pose proof (openSender_ok identity M _ HM Hd) as Ho. unfold wp in Ho. rewrite E in Ho. destruct Ho as [Ho Hopen].
    split; [exact Ho|]. cbn. destruct r as [[]|]; [|done]. intros M' [= <-]. by apply Hopen.
  - pose proof (sendStep_ok providers M name request _ (Hs M Hup)) as Ho. unfold wp in Ho. rewrite E in Ho.
    destruct Ho as [Ho Hsent]. split; [exact Ho|]. cbn. destruct r as [receipt|]; [|done]. intros M' [= <-].
    by destruct (Hsent receipt eq_refl) as (item & [Hsigned _] & _).
  - by split.
  - split; [exact Hd|]. intros M HM. exact (Hs M HM).
Qed.

(** C37: through all runs of a release, whatever writes and calls fail and wherever a run
    stops: no bytes were broadcast that the journal on disk does not hold for their
    step, so that a step has one transaction whatever number of times it is sent; the
    costs of all transactions that were signed are what the journal reserves, within
    its maximum, which no run changes; and a step that returns gives the receipt of
    the journaled transaction for that very request, successful and the same at
    every endpoint. *)
Theorem release_sends_journaled memory m :
  rtc release_move (no_release memory) m →
  match rw_file (rm_world m) with
  | None => rw_broadcasts (rm_world m) = []
  | Some j => (∃ M, rj_maximumWei j = print_int M ∧ rj_reservedWei j = costs j ∧ costs j <= M ∧
                 (∀ M', rm_running m = Some M' → M' = M)) ∧
              ∀ name raw, (name, raw) ∈ rw_broadcasts (rm_world m) →
                ∃ item, item_of name j = Some item ∧ ri_raw item = raw
  end ∧
  ∀ M providers name request receipt w, rm_running m = Some M →
    sendStep providers M name request (rm_world m) = (Ok receipt, w) →
    ∃ item j item', item_of name (rw_memory w) = Some item ∧ rw_file w = Some j ∧ item_of name j = Some item' ∧
      ri_raw item' = ri_raw item ∧ ri_fingerprint item = fingerprint_of request ∧
      rel_status receipt = 1 ∧ Forall (serves_receipt item receipt) providers.
Proof.
  intros Hm. assert (machine_ok m) as [Hd Hs].
  { assert (machine_ok (no_release memory)) as H0' by done. revert H0'.
    induction Hm as [|m1 m2 m3 H12 _ IH]; [done|]. intros Hok. by eapply IH, release_move_ok. }
  split.
  - unfold disk_ok in Hd. destruct (rw_file (rm_world m)) as [j|] eqn:Ef; [|done]. destruct Hd as [(M & Hr & Hc & HM) Hd].
    split.
    + exists M. split_and!; try done. intros M' Hup. destruct (Hs M' Hup) as ((_ & _ & HM') & _ & Hf). rewrite Ef in Hf.
      destruct Hf as [(E & _) _]. apply print_int_inj. congruence.
    + intros name raw Hin. rewrite Forall_forall in Hd. exact (Hd _ Hin).
  - intros M providers name request receipt w Hup E. pose proof (sendStep_ok providers M name request _ (Hs M Hup)) as Ho.
    unfold wp in Ho. rewrite E in Ho. destruct Ho as [_ Hok].
    destruct (Hok receipt eq_refl) as (item & [_ (Hi & j & item' & Ef & Hj & Er)] & Hfp & Hst & Hall).
    exists item, j, item'. by split_and!.
Qed.
End runs.

(** ** Concrete runs *)
Section examples.
#[local] Existing Instance sample_ethers.
Definition sample_receipt : release_receipt := {|
  rel_blockHash := "0xb1"; rel_status := 1; rel_blockNumber := 10; rel_gasUsed := 90000; rel_fee := 900000000000;
  rel_rest := VNull |}.
(** The endpoints know no receipt before the broadcast. *)
#[local] Instance release_rpc : ReleaseRpc := {|
  rl_address := "0xae"; rl_chainId _ _ := Ok (VStr "0xb626"); rl_pendingNonce _ _ _ := Ok (VStr "0x7");
  rl_gasPrice _ _ := Ok (VStr "0x989680"); rl_estimateGas _ _ _ _ _ := Ok 100000; rl_balance _ _ _ := Ok 10000000000000;
  rl_sign _ nonce gasLimit gasPrice := Ok (chars (print_int nonce +:+ "," +:+ print_int gasLimit));
  rl_receipt _ _ _ := Ok None; rl_broadcast _ _ _ := Ok tt; rl_wait _ _ _ := Ok (Some sample_receipt);
  rl_rawReceipt _ _ _ := Ok (VObj [("blockHash", VStr "0xb1"); ("status", VStr "0x1"); ("gasUsed", VStr "0x15f90")]) |}.
Definition safe_metadata : file_metadata := {| isFile := true; isSymbolicLink := false; mode := 384; size := 900 |}.
(** Writes that end as given, and then all go well. *)
Definition disk_of (outcomes : list disk_outcome) : ReleaseDisk := {|
  disk_metadata _ := safe_metadata; disk_write n := default Synced (outcomes !! n) |}.
Definition release_identity : value := VObj [("gitCommit", VStr "c0ffee"); ("chainId", VNum 46630)].
Definition deploy_request : release_request := {| rq_to := None; rq_data := Some (chars "code"); rq_value := None |}.
Definition fresh_release : release_world :=
  rm_world (no_release (first_journal release_identity 5000000000000)).
#[local] Notation "'opened' d w" := (@openSender d release_identity 5000000000000 w) (at level 10, d at level 9, w at level 9).
#[local] Notation "'sent' d w" := (@sendStep _ d _ ["a"; "b"] 5000000000000 "timelock" deploy_request w) (at level 10, d at level 9, w at level 9).

(** A run whose write of the receipt fails, and a second run of the same step. *)
Definition noted_late : ReleaseDisk := disk_of [Synced; NotOpened].
Definition late_1 : release_world := (opened noted_late fresh_release).2.
Definition late_2 : release_world := (sent noted_late late_1).2.
Definition late_3 : release_world := (opened noted_late late_2).2.
Definition late_run : release_world := (sent noted_late late_3).2.
#[local] Abbreviation up w := {| rm_running := Some 5000000000000; rm_world := w |}.
#[local] Abbreviation down w := {| rm_running := None; rm_world := w |}.
#[local] Abbreviation moves := (@release_move _ noted_late _).
Lemma late_moves : moves (down fresh_release) (up late_1) ∧ moves (up late_1) (down late_2) ∧
  moves (down late_2) (up late_3) ∧ moves (up late_3) (up late_run).
Proof.
  assert ((opened noted_late fresh_release).1 = Ok tt) as E1 by vm_refl.
  assert ((sent noted_late late_1).1 = Throw "EIO") as E2 by vm_refl.
  assert ((opened noted_late late_2).1 = Ok tt) as E3 by vm_refl.
  assert ((sent noted_late late_3).1 = Ok sample_receipt) as E4 by vm_refl.
  apply (@release_starts _ noted_late _) in E1, E3; [|done..]. apply (@release_sends _ noted_late _) in E2, E4. by split_and!.
Qed.
Lemma late_run_reached :
  rtc moves (no_release (first_journal release_identity 5000000000000)) (up late_run).
Proof.
  destruct late_moves as (H1 & H2 & H3 & H4). eapply rtc_l; [exact H1|]. eapply rtc_l; [exact H2|].
  eapply rtc_l; [exact H3|]. apply rtc_once, H4.
Qed.

Lemma release_sends_journaled_witness :
  rw_broadcasts late_run = [("timelock", chars "7,125000"); ("timelock", chars "7,125000")] ∧
  ∃ item, (item_of "timelock" <$> rw_file late_run) = Some (Some item) ∧ ri_raw item = chars "7,125000".
Proof.
  assert (rw_broadcasts late_run = [("timelock", chars "7,125000"); ("timelock", chars "7,125000")]) as Hsent by vm_refl.
  split; [exact Hsent|]. pose proof (@release_sends_journaled _ noted_late _ _ _ late_run_reached) as [Hdisk _].
  cbn [rm_world] in Hdisk. rewrite Hsent in Hdisk. generalize dependent (rw_file late_run). intros [j|] Hdisk; [|discriminate Hdisk].
  destruct Hdisk as [_ Hb]. destruct (Hb "timelock" (chars "7,125000") (list_elem_of_here _ _)) as (item & Hi & Er).
  exists item. split; [|exact Er]. change (Some (item_of "timelock" j) = Some (Some item)). by rewrite Hi.
Defined.

(** A step that is sent again by the run whose journal was not written broadcasts bytes
    that no file has. *)
Definition unwritten : ReleaseDisk := disk_of [NotOpened; NotOpened].
Lemma unjournaled_resend :
  let first := sent unwritten (opened unwritten fresh_release).2 in
  let again := sent unwritten first.2 in
  first.1 = Throw "EIO" ∧ rw_broadcasts first.2 = [] ∧
  rw_broadcasts again.2 = [("timelock", chars "7,125000")] ∧ rw_file again.2 = None.
Proof. split_and!; vm_refl. Qed.

(** A temporary file that a run left behind refuses every write of every later one. *)
Lemma stray_temp_refuses (d : ReleaseDisk) w :
  rw_temp w = true → ∃ m, (@durableJson d w).1 = Throw m ∧ rw_temp (@durableJson d w).2 = true.
Proof.
  intros Hw. unfold durableJson. destruct (_ && _); [by eexists|]. rewrite Hw. by eexists.
Qed.
End examples.

(** ** The suite *)

Section suite.
Context `{EthersLaws, NobleBls, ReleaseDisk, ReleaseRpc, ReadinessApi, VerifierApi, GovernanceApi, SuiteApi}.
Context (out : ReleaseDisk).
Context (providers : list string) (maximumWei : Z) (roles : value) (publicKey : list Z) (gitCommit : string).
Context (generatedAt updatedAt nodeVersion : string).
#[local] Abbreviation capture := (capture out providers roles publicKey gitCommit generatedAt nodeVersion).
#[local] Abbreviation deploy := (deploy out providers maximumWei roles publicKey gitCommit generatedAt nodeVersion).
#[local] Abbreviation deploySafe := (deploySafe out providers maximumWei roles publicKey gitCommit generatedAt nodeVersion).
#[local] Abbreviation deploySuite := (deployCompactSuite out providers maximumWei roles publicKey gitCommit generatedAt updatedAt nodeVersion).
#[local] Abbreviation suite_manifest := (suite_manifest roles publicKey gitCommit generatedAt nodeVersion).

(** What ethers and the endpoints give: receipts with block numbers, key hashes, and
    checksummed addresses of proxies. *)
Record suite_laws : Prop := {
  sl_receipt n p h r : rl_receipt n p h = Ok (Some r) → safe_integer (rel_blockNumber r) = true;
  sl_wait n p b r : rl_wait n p b = Ok (Some r) → safe_integer (rel_blockNumber r) = true;
  sl_keyHash n p v k h : sa_keyHash n p v k = Ok h → hex_string 64 h = true;
  sl_proxy l singleton proxy : sa_parseProxyCreation l = Some (singleton, proxy) → is_Some (getAddress proxy)
}.
Hypothesis laws : suite_laws.

(** ** One step *)

Lemma keccak_text b : hex_string 64 (keccak256 b) = true.
Proof. apply (isHexString_hex_string _ 32), keccak_hex. Qed.
Lemma sendStep_block name request w receipt w' :
  sendStep providers maximumWei name request w = (Ok receipt, w') → safe_integer (rel_blockNumber receipt) = true.
Proof.
  unfold sendStep. intros (w0 & ? & [= <- <-] & Hr)%eff_bind_Ok. apply eff_bind_Ok in Hr as (item & w1 & _ & Hr).
  unfold settleStep in Hr. apply eff_lift_bind_Ok in Hr as (first & _ & Hr).
  apply eff_bind_Ok in Hr as (found & w2 & [= Hfound _] & Hr). apply eff_bind_Ok in Hr as (given & w3 & Hgiven & Hr).
  apply eff_lift_bind_Ok in Hr as (rc & Hrc & Hr).
  assert (given = Some rc) as ->.
  { destruct given as [r|]; [|done]. by apply bind_Ok in Hrc as (? & _ & [= ->]). }
  apply eff_bind_Ok in Hr as (evidence & w4 & _ & Hr). apply eff_lift_bind_Ok in Hr as (? & _ & Hr).
  apply eff_bind_Ok in Hr as (? & w5 & _ & Hr). apply eff_bind_Ok in Hr as (? & w6 & _ & Hr).
  apply eff_bind_Ok in Hr as (? & w7 & _ & [= -> _]).
  destruct found as [r|]; [injection Hgiven as -> _; by eapply sl_receipt|].
  apply eff_bind_Ok in Hgiven as (? & w8 & _ & [= Hwait _]). by eapply sl_wait.
Qed.

(** A contract of the manifest, with the code that every endpoint gave for it. *)
Definition captured (name address : string) (w : suite_world) : Prop :=
  ∃ fs code block, assoc name (su_contracts w) = Some (VObj fs) ∧
    prop_opt (VObj fs) "address" = VStr address ∧ is_Some (getAddress address) ∧
    prop_opt (VObj fs) "runtimeCodeHash" = VStr (keccak256 code) ∧
    prop_opt (VObj fs) "blockNumber" = VNum block ∧ safe_integer block = true ∧
    Forall (λ p, ∃ n, rd_code n p address = Ok code) providers.

(** What a step leaves alone. *)
Definition only (name : string) (w w' : suite_world) : Prop :=
  su_keyHash w' = su_keyHash w ∧ ∀ k, k ≠ name → assoc k (su_contracts w') = assoc k (su_contracts w).
#[local] Instance only_preorder name : PreOrder (only name).
Proof.
  split; [by intros w|]. intros w1 w2 w3 [E1 H1'] [E2 H2']. split; [congruence|]. intros k Hk. by rewrite H2', H1'.
Qed.
Lemma captured_only name other address w w' :
  only other w w' → name ≠ other → captured name address w → captured name address w'.
Proof. intros [_ Ho] Hne (fs & code & block & Ha & Hrest). exists fs, code, block. by rewrite Ho. Qed.

Lemma only_release name {A} (m : eff release_world A) : keeps (only name) (in_release m).
Proof. intros w. unfold in_release. by destruct (m _). Qed.
Lemma only_manifest name v : keeps (only name) (durableManifest out v).
Proof. intros w. unfold durableManifest. repeat case_match; by split. Qed.
Lemma only_get name : keeps (only name) (eff_get (S := suite_world)).
Proof. intros w. reflexivity. Qed.
Lemma set_contracts_only name v w : only name w (set_contracts (assoc_set name v (su_contracts w)) w).2.
Proof. split; [done|]. intros k Hk. cbn. by apply assoc_assoc_set_ne. Qed.

Lemma suite_asks_Ok {A} (f : nat → result A) w a w' :
  suite_asks f w = (Ok a, w') → ∃ n, f n = Ok a.
Proof. unfold suite_asks, in_release, asks. intros [= Hf _]. by eexists. Qed.
Lemma capture_Ok name address receipt contractName args w code w' :
  is_Some (getAddress address) → safe_integer (rel_blockNumber receipt) = true →
  capture name address receipt contractName args w = (Ok code, w') →
  captured name address w' ∧ only name w w'.
Proof.
  intros Ha Hb. unfold ReleaseSender.capture. intros (codes & w1 & Hcodes & Hr)%eff_bind_Ok.
  assert (keeps (only name) (mapM (λ p, suite_asks (λ n, rd_code n p address)) providers)) as Hkeep
    by (apply keeps_mapM; intros; try apply _; apply only_release).
  specialize (Hkeep w). rewrite Hcodes in Hkeep. cbn [snd] in Hkeep.
  apply eff_lift_bind_Ok in Hr as (code0 & Hcode & Hr). apply eff_require_bind_Ok in Hr as [Hsame Hr].
  apply eff_bind_Ok in Hr as (w2 & ? & [= <- <-] & Hr). apply eff_bind_Ok in Hr as ([] & w3 & [= <-] & Hr).
  apply eff_bind_Ok in Hr as (w4 & ? & [= <- <-] & Hr). apply eff_bind_Ok in Hr as ([] & w5 & Hd & [= <- <-]).
  match type of Hd with durableManifest _ ?v ?w = _ => pose proof (only_manifest "" v w) as Hm end.
  rewrite Hd in Hm. cbn [snd] in Hm.
  match type of Hd with durableManifest _ ?v ?w = _ => assert (su_contracts w5 = su_contracts w) as Ec end.
  { unfold durableManifest in Hd. repeat case_match; by simplify_eq. }
  split.
  - eexists _, code0, (rel_blockNumber receipt). rewrite Ec. cbn [su_contracts]. split; [apply assoc_assoc_set|].
    split_and!; try done. apply Forall_forall. intros p Hp. apply list_elem_of_lookup in Hp as [i Hi].
    apply (mapM_eff_Ok _ (λ p c, ∃ n, rd_code n p address = Ok c)) in Hcodes; [|intros x s y s' _; apply suite_asks_Ok].
    destruct (Forall2_lookup_l _ _ _ _ _ Hcodes Hi) as (c & Hc & n & Hn). exists n. rewrite Hn. f_equal.
    rewrite forallb_forall in Hsame. apply list_elem_of_lookup_2, list_elem_of_In, Hsame in Hc.
    by apply andb_true_iff in Hc as [_ ->%bool_decide_eq_true].
  - etrans; [exact Hkeep|]. split; [by destruct Hm as [-> _]|]. intros k Hk. rewrite Ec. cbn. by apply assoc_assoc_set_ne.
Qed.

(** ** The suite *)

Definition same_contracts (w w' : suite_world) : Prop :=
  su_contracts w' = su_contracts w ∧ su_keyHash w' = su_keyHash w.
#[local] Instance same_contracts_preorder : PreOrder same_contracts.
Proof. split; [by intros w|]. intros w1 w2 w3 [? ?] [? ?]. split; congruence. Qed.
Lemma calls_same {A} (m : eff release_world A) : keeps same_contracts (in_release m).
Proof. intros w. unfold in_release. by destruct (m _). Qed.
Ltac only_calls :=
  repeat first [apply calls_same | apply keeps_lift; apply _ | apply keeps_bind; [apply _|..] | progress cbv zeta | intros ?].
Lemma same_only name w w' : same_contracts w w' → only name w w'.
Proof. intros [Ec Ek]. split; [done|]. intros k _. by rewrite Ec. Qed.

(** The contracts of a list, by name and address. *)
Definition all_captured (l : list (string * string)) (w : suite_world) : Prop :=
  Forall (λ x, captured x.1 x.2 w) l.
Lemma all_captured_only name l w w' :
  only name w w' → name ∉ l.*1 → all_captured l w → all_captured l w'.
Proof.
  intros Ho Hn Hl. apply Forall_forall. intros x Hx. unfold all_captured in Hl. rewrite Forall_forall in Hl.
  eapply captured_only; [exact Ho| |by apply Hl]. intros <-. apply Hn. by apply list_elem_of_fmap_2.
Qed.
Lemma captured_noted name address k x w w' :
  k ∉ ["address"; "runtimeCodeHash"; "blockNumber"] → captured name address w →
  su_contracts w' = assoc_set name (set_prop (default VUndef (assoc name (su_contracts w))) k x) (su_contracts w) →
  captured name address w'.
Proof.
  intros Hk (fs & code & block & Ha & Hrest) E. exists (assoc_set k x fs), code, block. rewrite Ha in E. cbn in E.
  rewrite E, assoc_assoc_set. split; [done|]. unfold prop_opt in *. rewrite !assoc_assoc_set_ne by set_solver. exact Hrest.
Qed.

Lemma deploy_Ok name contractName args w address w' l :
  name ∉ l.*1 → all_captured l w → deploy name contractName args w = (Ok address, w') →
  all_captured ((name, address) :: l) w' ∧ su_keyHash w' = su_keyHash w.
Proof.
  intros Hn Hl. unfold ReleaseSender.deploy. intros (bytecode & _ & Hr)%eff_lift_bind_Ok.
  apply eff_lift_bind_Ok in Hr as (request & _ & Hr). apply eff_bind_Ok in Hr as (receipt & w1 & Hsend & Hr).
  pose proof (calls_same (sendStep providers maximumWei name request) w) as Hs. rewrite Hsend in Hs. cbn [snd] in Hs.
  apply (same_only name) in Hs. unfold in_release in Hsend.
  destruct (sendStep _ _ _ _ _) as [[rc|m] s1] eqn:Estep; [|by injection Hsend]. injection Hsend as -> _.
  apply sendStep_block in Estep. apply eff_bind_Ok in Hr as (w2 & ? & [= <- <-] & Hr).
  apply eff_lift_bind_Ok in Hr as (item & _ & Hr). cbv zeta in Hr.
  apply eff_lift_bind_Ok in Hr as (created & Hcreated & Hr). apply eff_require_bind_Ok in Hr as [Hsame%bool_decide_eq_true Hr].
  assert (is_Some (getAddress created)) as Haddress.
  { unfold checked_address in Hcreated. apply bind_Ok in Hcreated as (v & _ & Hc%from_option_or_Ok). destruct (as_string v) as [s|]; [|done]. cbn in Hc.
    apply getAddress_idem in Hc. by eexists. }
  rewrite Hsame in Haddress. apply eff_bind_Ok in Hr as (code & w3 & Hc & Hr).
  apply capture_Ok in Hc as [Hc Ho]; [|done..]. apply eff_bind_Ok in Hr as (w4 & ? & [= <- <-] & Hr).
  cbv zeta in Hr. apply eff_bind_Ok in Hr as ([] & w5 & Hset & [= <- <-]).
  match type of Hset with set_contracts (assoc_set _ ?v _) ?w = _ => pose proof (set_contracts_only name v w) as Hlast end.
  rewrite Hset in Hlast. cbn [snd] in Hlast. assert (only name w w5) as Hall by (etrans; [exact Hs|]; by etrans).
  split; [|by destruct Hall]. apply Forall_cons. split; [|by eapply all_captured_only].
  eapply captured_noted; [|exact Hc|by injection Hset as <-]. set_solver.
Qed.

Lemma deploySafe_Ok w safe w' :
  deploySafe w = (Ok safe, w') → all_captured [("safe", safe)] w' ∧ su_keyHash w' = su_keyHash w.
Proof.
  unfold ReleaseSender.deploySafe. intros (initializer & _ & Hr)%eff_lift_bind_Ok.
  apply eff_lift_bind_Ok in Hr as (salt & _ & Hr). apply eff_lift_bind_Ok in Hr as (request & _ & Hr).
  apply eff_bind_Ok in Hr as (receipt & w1 & Hsend & Hr).
  pose proof (calls_same (sendStep providers maximumWei "safe" request) w) as Hs. rewrite Hsend in Hs. cbn [snd] in Hs.
  unfold in_release in Hsend.
  destruct (sendStep _ _ _ _ _) as [[rc|m] s1] eqn:Estep; [|by injection Hsend]. injection Hsend as -> _.
  apply sendStep_block in Estep. apply eff_lift_bind_Ok in Hr as (proxy & Hproxy & Hr).
  assert (is_Some (getAddress proxy)) as Haddress.
  { unfold created_proxy in Hproxy. apply bind_Ok in Hproxy as (logs & _ & Hproxy). apply bind_Ok in Hproxy as (own & _ & Hproxy).
    destruct (omap _ _) as [|[singleton q] rest] eqn:E; [done|]. apply bind_Ok in Hproxy as (? & _ & [= <-]).
    assert ((singleton, q) ∈ omap sa_parseProxyCreation (fst <$> filter (λ l, l.2 = true) own)) as Hin by (rewrite E; left).
    apply list_elem_of_omap in Hin as (l & _ & Hl). by eapply sl_proxy. }
  apply eff_bind_Ok in Hr as (code & w2 & Hc & Hr). apply capture_Ok in Hc as [Hc [Ek _]]; [|done..].
  apply eff_require_bind_Ok in Hr as [_ Hr]. apply eff_bind_Ok in Hr as ([] & w3 & Hchecks & [= <- <-]).
  assert (same_contracts w2 w3) as Hsame.
  { replace w3 with (eff_forM (checkSafe roles proxy) providers w2).2 by (by rewrite Hchecks).
    apply keeps_forM; [apply _|]. intros p _. unfold checkSafe. only_calls. }
  split; [|destruct Hsame, Hs; congruence]. apply Forall_singleton. eapply (captured_only _ ""); [by apply same_only|done|exact Hc].
Qed.

(** What an endpoint gives for the deployed suite. *)
Definition configured (coordinator timelock safe keyHash p : string) : Prop :=
  (∃ n key, rd_key n p coordinator keyHash = Ok key ∧ k_active key = true ∧
     role roles "fulfiller" = VStr (k_fulfiller key) ∧ role roles "payee" = VStr (k_payee key)) ∧
  (∃ n, rd_text n p coordinator "owner" = Ok timelock) ∧
  (∃ n guardian, rd_text n p coordinator "guardian" = Ok guardian ∧ role roles "guardian" = VStr guardian) ∧
  (∃ n, rd_text n p timelock "owner" = Ok safe) ∧ (∃ n, rd_number n p timelock "delay" = Ok 43200).
Lemma same_text_Ok (f : nat → result string) expected (g : unit → eff suite_world unit) w w' msg :
  (v ← suite_asks f; eff_require (strict_eq (VStr v) expected) msg) ≫= g $ w = (Ok tt, w') →
  ∃ n s w1, f n = Ok s ∧ expected = VStr s ∧ g tt w1 = (Ok tt, w').
Proof.
  intros ([] & w1 & Hv & Hr)%eff_bind_Ok. apply eff_bind_Ok in Hv as (s & w2 & Hs%suite_asks_Ok & Hv).
  apply eff_require_Ok in Hv as [Hv%strict_eq_eq _]. destruct Hs as [n Hn]. by exists n, s, w1.
Qed.
Lemma verifyDeployed_Ok coordinator timelock safe backend adapter keyHash p w w' :
  verifyDeployed providers roles coordinator timelock safe backend adapter keyHash p w = (Ok tt, w') →
  configured coordinator timelock safe keyHash p.
Proof.
  unfold verifyDeployed. cbv zeta. intros (key & w1 & [nk Hk]%suite_asks_Ok & Hr)%eff_bind_Ok.
  apply eff_bind_Ok in Hr as (block & w2 & _ & Hr).
  apply same_text_Ok in Hr as (n1 & s1 & w3 & Ho & [= <-] & Hr). apply same_text_Ok in Hr as (n2 & s2 & w4 & _ & _ & Hr).
  apply same_text_Ok in Hr as (n3 & guardian & w5 & Hg & Eg & Hr).
  apply same_text_Ok in Hr as (n4 & s4 & w6 & Hs & [= <-] & Hr).
  apply eff_bind_Ok in Hr as (delay & w7 & [nd Hd]%suite_asks_Ok & Hr).
  apply eff_require_bind_Ok in Hr as [[->%Z.eqb_eq Hactive]%andb_true_iff Hr].
  apply eff_bind_Ok in Hr as ([] & w8 & Hf & Hr). apply eff_bind_Ok in Hf as (f & ? & [= <- <-] & Hf).
  apply eff_require_Ok in Hf as [Hf%strict_eq_eq _].
  apply eff_bind_Ok in Hr as ([] & w9 & Hp & _). apply eff_bind_Ok in Hp as (f & ? & [= <- <-] & Hp).
  apply eff_require_Ok in Hp as [Hp%strict_eq_eq _].
  split_and!; eauto. exists nk, key. by split_and!.
Qed.

(** ** The manifest *)

Definition suite_names (safe timelock context store fee verifier coordinator : string) : list (string * string) :=
  [("coordinator", coordinator); ("verifier", verifier); ("l1FeeCalculator", fee); ("blockhashStore", store);
   ("blockContext", context); ("timelock", timelock); ("safe", safe)].
Lemma verify_same coordinator timelock safe backend adapter keyHash p :
  keeps same_contracts (verifyDeployed providers roles coordinator timelock safe backend adapter keyHash p).
Proof. unfold verifyDeployed. only_calls. Qed.
Lemma durableManifest_file v w w' : durableManifest out v w = (Ok tt, w') → su_file w' = Some (reread v).
Proof. unfold durableManifest. repeat case_match; by intros [= <-]. Qed.
Lemma deploy_bind_Ok name contractName args {B} (k : string → eff suite_world B) w b w' l :
  (deploy name contractName args ≫= k) w = (Ok b, w') → all_captured l w → name ∉ l.*1 →
  ∃ address w1, all_captured ((name, address) :: l) w1 ∧ su_keyHash w1 = su_keyHash w ∧ k address w1 = (Ok b, w').
Proof. intros (address & w1 & Hd & Hr)%eff_bind_Ok Hl Hn. exists address, w1. by destruct (deploy_Ok _ _ _ _ _ _ _ Hn Hl Hd). Qed.
Lemma all_captured_same l w w' : su_contracts w' = su_contracts w → all_captured l w → all_captured l w'.
Proof. intros E Hl. eapply Forall_impl; [exact Hl|]. intros x (fs & code & block & Ha & Hrest). exists fs, code, block. by rewrite E. Qed.
#[local] Tactic Notation "next_contract" ident(a) :=
  lazymatch goal with
  | Hr : (deploy _ _ _ ≫= _) ?w = _, Hl : all_captured _ ?w |- _ =>
      let w1 := fresh "w" in let Hl1 := fresh "Hl" in let Ek := fresh "Ek" in let Hr1 := fresh "Hr" in
      destruct (deploy_bind_Ok _ _ _ _ _ _ _ _ Hr Hl) as (a & w1 & Hl1 & Ek & Hr1); [cbn; set_solver|];
      clear Hr Hl; rename Hr1 into Hr, Hl1 into Hl
  end.
Lemma deployCompactSuite_Ok w manifest w' :
  deploySuite w = (Ok manifest, w') →
  ∃ w0 final safe timelock context store fee verifier coordinator keyHash,
    manifest = suite_manifest "deployed" final w0 ∧ su_file w' = Some (reread manifest) ∧
    all_captured (suite_names safe timelock context store fee verifier coordinator) w0 ∧
    su_keyHash w0 = VStr keyHash ∧ hex_string 64 keyHash = true ∧ checkRoles roles = Ok tt ∧ providers ≠ [] ∧
    ∀ p, p ∈ providers → configured coordinator timelock safe keyHash p.
Proof.
  unfold deployCompactSuite. intros ([] & w1 & _ & Hr)%eff_bind_Ok. apply eff_lift_bind_Ok in Hr as ([] & Hroles & Hr).
  apply eff_bind_Ok in Hr as (safe & w2 & [Hl _]%deploySafe_Ok & Hr).
  next_contract timelock. next_contract context. next_contract store. next_contract fee. next_contract verifier.
  apply eff_lift_bind_Ok in Hr as (first & Hfirst%from_option_or_Ok & Hr).
  apply eff_bind_Ok in Hr as (keyHash & wk & Hkey & Hr).
  match type of Hkey with suite_asks ?f ?w = _ => pose proof (calls_same (asks f) w) as [Es _]; fold (suite_asks f) in Es end.
  rewrite Hkey in Es. cbn [snd] in Es. apply suite_asks_Ok in Hkey as [nk Hkey%(sl_keyHash laws)].
  apply eff_bind_Ok in Hr as ([] & ws & [= <-] & Hr). apply (all_captured_same _ _ wk) in Hl; [|done].
  match type of Hr with _ ?s = _ => assert (su_keyHash s = VStr keyHash) as Ekey by done; apply (all_captured_same _ _ s) in Hl; [|done] end.
  next_contract coordinator. next_contract backend. next_contract adapter.
  apply eff_bind_Ok in Hr as ([] & wv & Hv & Hr). pose proof (eff_forM_Ok _ _ _ _ Hv) as Hconfigured.
  match type of Hv with eff_forM ?f ?l ?s = _ => pose proof (keeps_forM same_contracts f l) as Hsame; specialize (Hsame (λ p _, verify_same _ _ _ _ _ _ p) s) end.
  rewrite Hv in Hsame. destruct Hsame as [Ec Ekv]. apply (all_captured_same _ _ wv) in Hl; [|exact Ec].
  apply eff_bind_Ok in Hr as (wz & ? & [= <- <-] & Hr). apply eff_lift_bind_Ok in Hr as (total & _ & Hr). cbv zeta in Hr.
  apply eff_bind_Ok in Hr as ([] & we & Hm & [= <- <-]).
  eexists wv, _, safe, timelock, context, store, fee, verifier, coordinator, keyHash. split; [done|].
  split; [by eapply durableManifest_file|]. split; [by apply Forall_cons_1, proj2, Forall_cons_1, proj2 in Hl|].
  split; [cbn [snd] in *; congruence|]. split_and!; try done; [by destruct providers|].
  intros p Hp. apply Hconfigured in Hp as (s1 & s2 & Hp). by eapply verifyDeployed_Ok.
Qed.

Lemma assoc_elem_of {A} k (v : A) fs : assoc k fs = Some v → (k, v) ∈ fs.
Proof. induction fs as [|[j y] fs IH]; [done|]. cbn. case_decide as E; [intros [= ->]; subst; left|by right; apply IH]. Qed.
Lemma checkRoles_role name :
  checkRoles roles = Ok tt → role roles name ≠ VUndef → ∃ s, role roles name = VStr s ∧ is_Some (getAddress s).
Proof.
  unfold checkRoles, role. intros (entries & He & Hr)%bind_Ok Hn. apply bind_Ok in Hr as (all & Hall & _).
  unfold prop_opt in *. destruct roles as [| | | | | | | |fs]; try done. injection He as <-.
  destruct (assoc name fs) as [v|] eqn:Ev; [|done]. apply assoc_elem_of in Ev. cbn.
  apply mapM_Ok in Hall. apply list_elem_of_lookup in Ev as [i Hi]. destruct (Forall2_lookup_l _ _ _ _ _ Hall Hi) as (a & _ & Ha).
  unfold checked_address in Ha. apply bind_Ok in Ha as (? & [= <-] & Ha%from_option_or_Ok). cbn in Ha.
  destruct v as [| | | | | |s| |]; try done. exists s. split; [done|]. by exists a.
Qed.

Lemma manifest_reread status final w k x :
  x ≠ VUndef → prop_opt (suite_manifest status final w) k = x → prop_opt (reread (suite_manifest status final w)) k = reread x.
Proof. unfold ReleaseSender.suite_manifest. apply prop_opt_reread. Qed.
Lemma captured_reread status final name address w :
  captured name address w →
  let manifest := reread (suite_manifest status final w) in
  check_contract manifest name = Ok tt ∧ contract_of manifest name "address" = VStr address ∧
  ∃ code, contract_of manifest name "runtimeCodeHash" = VStr (keccak256 code) ∧
    ∀ p, p ∈ providers → ∃ n, rd_code n p address = Ok code.
Proof.
  intros (fs & code & block & Hn & Ha & [a Haddress] & Hh & Hb & Hsafe & Hp). cbv zeta.
  unfold check_contract, contract_of. rewrite (manifest_reread _ _ _ "contracts" (VObj (su_contracts w)) ltac:(done) eq_refl).
  assert (prop_opt (reread (VObj (su_contracts w))) name = reread (VObj fs)) as ->.
  { apply prop_opt_reread; [done|]. unfold prop_opt. by rewrite Hn. }
  apply prop_opt_reread in Ha, Hh, Hb; [|done..]. rewrite Ha, Hh, Hb.
  cbn [reread]. split; [|split; [done|]; exists code; split; [done|]; by apply Forall_forall].
  change (to_str (VStr (keccak256 code))) with (keccak256 code). rewrite keccak_text. cbn [is_safe_integer]. rewrite Hsafe.
  unfold checked_address. cbn. by rewrite Haddress.
Qed.

Lemma manifest_valid final w :
  let written := reread (suite_manifest "deployed" final w) in
  git_commit gitCommit = true → (∀ name, name ∈ COMPACT_CONTRACTS → check_contract written name = Ok tt) →
  hex_string 64 (to_str (prop_opt written "keyHash")) = true →
  (∀ name, name ∈ COMPACT_ROLES → ∃ s, role roles name = VStr s ∧ is_Some (getAddress s)) →
  validateCompactManifest written = Ok written.
Proof.
  cbv zeta. intros Hcommit Hcontracts Hkey Hroles. unfold validateCompactManifest.
  set (written := reread (suite_manifest "deployed" final w)) in *.
  assert (∀ k x, x ≠ VUndef → prop_opt (suite_manifest "deployed" final w) k = x → prop_opt written k = reread x) as Hread
    by (intros k x; apply manifest_reread).
  assert (prop written "format" = Ok (prop_opt written "format")) as -> by done.
  rewrite (Hread "format" (VStr "robinhood-proof-vrf-deployment/v3") ltac:(done) eq_refl), (Hread "chainId" (VNum 46630) ltac:(done) eq_refl),
    (Hread "status" (VStr "deployed") ltac:(done) eq_refl), (Hread "gitCommit" (VStr gitCommit) ltac:(done) eq_refl).
  cbn [reread mbind result_bind to_str]. rewrite Hcommit, Hkey. cbn -[check_contract written forM_ checked_address].
  replace (forM_ (check_contract written) COMPACT_CONTRACTS) with (Ok tt) by
    (symmetry; apply forM_Ok, Forall_forall; exact Hcontracts).
  cbn -[forM_ written checked_address]. erewrite (proj2 (forM_Ok _ COMPACT_ROLES tt)); [done|].
  apply Forall_forall. intros name Hn. destruct (Hroles _ Hn) as (s & Es & [a Ha]).
  rewrite (Hread name (VStr s)); [|done|].
  - unfold checked_address. cbn. by rewrite Ha.
  - rewrite <-Es. unfold COMPACT_ROLES in Hn. set_unfold in Hn. by destruct Hn as [->|[->|[->|[->|[]]]]].
Qed.

(** C38: When the release of the suite returns, its manifest is on disk, and what is read
    back from it is a manifest that the processes of the compact coordinator take;
    for each contract that they check it has an address and the hash of one code, which
    every endpoint gave for that address; and every endpoint gave the configuration of
    the manifest: the owners, the guardian, the delay and an active key of its roles. *)
Theorem release_manifest_accepted w manifest w' :
  git_commit gitCommit = true → prop_opt roles "archiver" ≠ VUndef →
  deploySuite w = (Ok manifest, w') →
  let written := reread manifest in
  su_file w' = Some written ∧ validateCompactManifest written = Ok written ∧
  (∀ name, name ∈ COMPACT_CONTRACTS → ∃ address code,
     contract_of written name "address" = VStr address ∧
     contract_of written name "runtimeCodeHash" = VStr (keccak256 code) ∧
     ∀ p, p ∈ providers → ∃ n, rd_code n p address = Ok code) ∧
  ∃ coordinator timelock safe keyHash,
    contract_of written "coordinator" "address" = VStr coordinator ∧
    contract_of written "timelock" "address" = VStr timelock ∧ contract_of written "safe" "address" = VStr safe ∧
    prop_opt written "keyHash" = VStr keyHash ∧ ∀ p, p ∈ providers → configured coordinator timelock safe keyHash p.
Proof.
  intros Hcommit Harchiver (w0 & final & safe & timelock & context & store & fee & verifier & coordinator & keyHash &
    -> & Hfile & Hall & Ek & Hkey & Hroles & Hproviders & Hconf)%deployCompactSuite_Ok. cbv zeta.
  unfold all_captured, suite_names in Hall. rewrite Forall_forall in Hall.
  assert (∀ name, name ∈ COMPACT_CONTRACTS → ∃ address, (name, address) ∈
    suite_names safe timelock context store fee verifier coordinator) as Hnames.
  { intros name Hn. unfold COMPACT_CONTRACTS in Hn. rewrite !elem_of_cons, elem_of_nil in Hn.
    destruct Hn as [->|[->|[->|[->|[->|[->|[->|[]]]]]]]]; eexists; repeat first [left | right]. }
  pose proof (λ name address Hin, captured_reread "deployed" final name address w0 (Hall (name, address) Hin)) as Hread.
  assert (prop_opt (reread (suite_manifest "deployed" final w0)) "keyHash" = VStr keyHash) as Ekey.
  { rewrite (manifest_reread _ _ _ "keyHash" (su_keyHash w0)); [by rewrite Ek|by rewrite Ek|done]. }
  split; [exact Hfile|]. split; [|split].
  - apply manifest_valid; try done; [|by rewrite Ekey|].
    + intros name Hn. destruct (Hnames _ Hn) as [address Hin]. by destruct (Hread _ _ Hin).
    + destruct providers as [|p ps]; [done|]. destruct (Hconf p) as ((nk & key & _ & _ & Ef & Ep) & _ & (ng & guardian & _ & Eg) & _); [left|].
      intros name Hn. apply checkRoles_role; [done|]. unfold COMPACT_ROLES in Hn. set_unfold in Hn.
      destruct Hn as [->|[->|[->|[->|[]]]]]; [by rewrite Ef|done|by rewrite Eg|by rewrite Ep].
  - intros name Hn. destruct (Hnames _ Hn) as [address Hin]. destruct (Hread _ _ Hin) as (_ & Ha & code & Hh & Hp).
    by exists address, code.
  - unfold suite_names in Hread. exists coordinator, timelock, safe, keyHash.
    split; [by apply (Hread "coordinator" coordinator); left|]. split; [by apply (Hread "timelock" timelock); do 5 right; left|].
    split; [by apply (Hread "safe" safe); do 6 right; left|]. split; [exact Ekey|exact Hconf].
Qed.
End suite.

(** ** A release whose manifest is accepted *)
Section suite_samples.
(** The checksum, but for the three pinned codes. *)
Definition pinned_keccak256 (b : bytes) : string :=
  if decide (b = chars "singleton") then SAFE_SINGLETON_HASH
  else if decide (b = chars "factory") then SAFE_FACTORY_HASH
  else if decide (b = chars "proxy") then SAFE_PROXY_HASH else sample_keccak256 b.
#[local] Instance pinned_ethers : Ethers := {|
  isHexString := sample_isHexString; getBytes := sample_getBytes; hexlify := hex_of_bytes; keccak256 := pinned_keccak256;
  toUtf8Bytes := chars; getAddress := sample_getAddress; abi_encode := @abi_encode sample_ethers |}.
#[local] Instance pinned_ethers_laws : EthersLaws.
Proof.
  destruct sample_ethers_laws. constructor; try assumption.
  - intros b. cbn. unfold pinned_keccak256. repeat case_decide; [vm_refl..|apply keccak_hex].
  - intros b. cbn. unfold pinned_keccak256. repeat case_decide; [vm_refl..|apply keccak_lower].
Qed.
#[local] Existing Instance sample_bls.

Definition suite_address (n : Z) : string := hex_of_bytes (replicate 19 "000"%char ++ [char_of n]).
Definition suite_roles : value := VObj (imap (λ i name, (name, VStr (suite_address (Z.of_nat i + 1))))
  ["deployer"; "fulfiller"; "archiver"; "guardian"; "payee"; "canary-subscription";
   "safe-signer-1"; "safe-signer-2"; "safe-signer-3"]).
Definition suite_receipt (raw : bytes) : release_receipt := {|
  rel_blockHash := "0xb1"; rel_status := 1; rel_blockNumber := 10; rel_gasUsed := 90000; rel_fee := 900000000000;
  rel_rest := VObj [("hash", VStr "0x01"); ("contractAddress", VStr (of_chars raw));
                    ("logs", VArr [VObj [("address", VStr SAFE_FACTORY)]])] |}.
(** A transaction is its nonce, which grows with the calls, in the form of the contract's
    address. *)
#[local] Instance suite_rpc : ReleaseRpc := {|
  rl_address := "0xae"; rl_chainId _ _ := Ok (VStr "0xb626"); rl_pendingNonce n _ _ := Ok (VNum (Z.of_nat n / 17));
  rl_gasPrice _ _ := Ok (VStr "0x989680"); rl_estimateGas _ _ _ _ _ := Ok 100000; rl_balance _ _ _ := Ok 10000000000000;
  rl_sign _ nonce _ _ := Ok (chars (suite_address (100 + nonce)));
  rl_receipt _ _ _ := Ok None; rl_broadcast _ _ _ := Ok tt; rl_wait _ _ raw := Ok (Some (suite_receipt raw));
  rl_rawReceipt _ _ _ := Ok (VObj [("blockHash", VStr "0xb1"); ("status", VStr "0x1"); ("gasUsed", VStr "0x15f90")]) |}.
#[local] Instance suite_disk : ReleaseDisk := disk_of [].
Definition safe_proxy : string := suite_address 50.
Definition suite_timelock : string := suite_address 101.
Definition suite_coordinator : string := suite_address 106.
#[local] Instance suite_chain : ReadinessApi := {|
  rd_chainId _ _ := Ok 46630; rd_blockNumber _ _ := Ok 20; rd_balance _ _ _ := Ok 0;
  rd_code _ _ address := Ok (chars (if decide (address = SAFE_SINGLETON) then "singleton"
    else if decide (address = SAFE_FACTORY) then "factory" else if decide (address = safe_proxy) then "proxy" else "code"));
  rd_text _ _ contract f := Ok (if decide (f = "pendingOwner") then ZERO_ADDRESS
    else if decide (f = "guardian") then suite_address 4
    else if decide (contract = suite_coordinator) then suite_timelock else safe_proxy);
  rd_number _ _ _ f := Ok (if decide (f = "getThreshold") then 2 else 43200);
  rd_key _ _ _ _ := Ok {| k_verifier := ""; k_verifierCodeHash := ""; k_fulfiller := suite_address 2;
    k_payee := suite_address 5; k_proofDataLength := 416; k_exists := true; k_active := true |};
  rd_serverVersion _ _ := Ok VUndef; wallet_address _ := Ok ""; parseEther _ := Ok 0; formatEther := print_int;
  search_param _ _ := VUndef |}.
#[local] Instance suite_verifier : VerifierApi := {|
  vb_keyHash _ _ _ _ := Ok ""; vb_backend _ _ _ := Ok ""; vb_backendCodeHash _ _ _ := Ok ""; vb_proofLength _ _ _ := Ok 0;
  vb_validatePublicKey _ _ _ _ := Ok true; vb_verify _ _ _ _ _ _ := Ok true; vb_validateKey _ _ _ _ _ := Ok true |}.
#[local] Instance suite_governance : GovernanceApi := {|
  gv_keyExists _ _ _ _ := Ok false; gv_hashOperation _ _ _ _ _ := Ok ""; encodeFunctionData f _ := Ok (chars f) |}.
#[local] Instance suite_api : SuiteApi := {|
  sa_owners _ _ _ := Ok (suite_address <$> [7; 8; 9]); sa_modules _ _ _ := Ok [];
  sa_keyHash _ _ _ _ := Ok SAFE_PROXY_HASH; sa_blockNumber _ _ := Ok (VStr "0x14"); sa_contextBlock _ _ _ _ := Ok 20;
  sa_parseProxyCreation _ := Some (SAFE_SINGLETON, safe_proxy);
  sa_proxyTransaction _ data _ := Ok {| rq_to := Some SAFE_FACTORY; rq_data := Some data; rq_value := None |};
  sa_bytecode name := Ok name;
  sa_deployTransaction name _ := Ok {| rq_to := None; rq_data := Some (chars name); rq_value := None |};
  sa_createAddress _ nonce := suite_address (100 + nonce); sa_sha256 s := s |}.
Definition suite_commit : string := of_chars (replicate 40 "c"%char).
Definition new_suite : suite_world := {|
  su_release := rm_world (no_release (first_journal release_identity 500000000000000));
  su_contracts := []; su_keyHash := VUndef; su_file := None; su_temp := false; su_writes := 0 |}.
#[local] Notation "'suite_run'" :=
  (deployCompactSuite suite_disk ["a"; "b"] 500000000000000 suite_roles [1; 2] suite_commit "t0" "t1" "v22.0.0" new_suite).
Lemma suite_sample_laws : suite_laws.
Proof.
  split; cbn.
  - done.
  - by intros n p b r [= <-].
  - by intros n p v k h [= <-].
  - intros l singleton proxy [= _ <-]. exists safe_proxy. vm_refl.
Qed.
Definition suite_manifest_of (w : suite_world) : value := default VUndef (su_file w).

Lemma release_manifest_accepted_witness :
  let written := suite_manifest_of suite_run.2 in
  contract_of written "coordinator" "address" = VStr suite_coordinator ∧
  validateCompactManifest written = Ok written ∧
  ∃ code, contract_of written "coordinator" "runtimeCodeHash" = VStr (keccak256 code).
Proof.
  assert (is_ok suite_run.1 = true) as Hok by vm_refl.
  assert (contract_of (suite_manifest_of suite_run.2) "coordinator" "address" = VStr suite_coordinator) as Ha by vm_refl.
  revert Hok Ha. destruct suite_run as [[manifest|m] w'] eqn:E; [|discriminate 1]. intros _ Ha. cbn [snd] in *.
  apply (release_manifest_accepted suite_disk ["a"; "b"] 500000000000000 suite_roles [1; 2] suite_commit "t0" "t1" "v22.0.0"
    suite_sample_laws new_suite) in E as (Hf & Hv & Hc & _); [|vm_refl|discriminate].
  unfold suite_manifest_of in *. rewrite Hf in *. cbn [default from_option id] in *.
  split; [exact Ha|]. split; [exact Hv|]. destruct (Hc "coordinator") as (a & code & _ & Hh & _); [left|]. exists code. exact Hh.
Defined.
End suite_samples.
